(* ===== verification/_CoqProject ===== *)
-Q . S2P
Prelude.v
Rlp.v
RlpStream.v
RlpStreamFacts.v
GoIO.v
VarBytes.v
TxMeta.v
Transaction.v
TrieEncoding.v
TrieNode.v
Trie.v
TrieTree.v
TrieRep.v
TrieOps.v
TrieHash.v
TrieCommit.v
TrieContents.v
TrieTheorems.v
TrieProofs.v
TrieDerive.v
TrieDatabase.v
TrieDatabaseFacts.v
TrieFlush.v
TrieCap.v
TrieGC.v
TrieRefs.v
TrieShape.v
TrieSecure.v
TrieExamples.v
BigFloat.v
Fees.v
BatchEncoding.v
BatchGen.v
TxMgr.v
BatchSubmitter.v
RollupIndexes.v
SyncService.v
SyncServiceFacts.v
SyncServiceExamples.v
StateDB.v
StateTries.v
StateSlots.v
StateObjects.v
StateTriesFacts.v
StateCommits.v
StateRefinement.v
StateErrors.v
StateTriesExamples.v
StateDBFacts.v
StateBalances.v
Blake2b.v
Sha256.v
EvmCommon.v
EvmCalls.v
EvmAnalysis.v
EvmGas.v
EvmInstructions.v
EvmJumpTable.v
EvmInterpreter.v
EvmPrecompiles.v
EvmEffects.v
EvmWords.v
EvmGasFacts.v
EvmSafety.v
EvmRun.v
EvmPrecompilesFacts.v
EvmFuel.v
EvmTheorems.v
StateTransition.v
StateTransitionFacts.v
Admission.v
StateExamples.v
EvmExamples.v
ChainConfig.v
Upgrades.v
Receipts.v
BlockProcess.v
BlockFacts.v
BlockExamples.v
