(* ===== verification/Prelude.v ===== *)
(** * A verification of the Mantle rollup node and its batch submitter

    The program is the Go code under src/.  Users send transactions to l2geth
    (src/l2geth), a fork of go-ethereum whose sync service orders them, takes the
    deposits of an L1 indexer, checks fees, and has every transaction executed as
    a block of its own.  The state transition charges fees for gas, L1 data and
    data availability, and the EVM runs contracts on a journaled state in which
    native balances are storage slots of a token contract.  The batch submitter
    (src/bss-core, src/batch-submitter) reads blocks back from l2geth, encodes
    them as batches and sends these to L1 with a transaction manager that bumps
    gas prices.

    ** Files

    - Prelude.v: Go integers at their width, bytes and slices, errors, the
      outcome type (a result, an error or a panic), the state monad [st] with the
      weakest-precondition tactics [wp_step] and [wp_steps], and list lemmas.
    - Rlp.v, RlpStream.v, RlpStreamFacts.v: src/l2geth/rlp.  The encoder's buffer
      ([encbuf]) and writers, [Split] and [CountValues], and the stream decoder
      with its kinds, list stack and limits.  A Go value is a value of the type
      [value], a Go type one of [gotype]; reflection is replaced by these.
    - GoIO.v, VarBytes.v: readers that deliver in pieces, and
      src/l2geth/common/varbytes.go on them.
    - TxMeta.v, Transaction.v: src/l2geth/core/types (transaction_meta.go,
      transaction.go, transaction_signing.go): metadata, the fields and caches of
      a transaction, the signers, and messages.
    - TrieEncoding.v, TrieNode.v, Trie.v: src/l2geth/trie (encoding.go, node.go,
      hasher.go, trie.go, proof.go) and [DeriveSha].  A trie is its root node;
      the class [NodeDatabase] is what it uses of the node database, and
      [NodeDatabaseLaws] what it relies on.
    - TrieTree.v (trees in minimal form), TrieRep.v (the tree that a partly loaded
      trie stands for), TrieOps.v, TrieHash.v, TrieCommit.v (the operations on
      trees), TrieContents.v (the map of a tree), TrieTheorems.v, TrieProofs.v,
      TrieDerive.v: the theorems on tries, against that interface.
    - TrieDatabase.v: src/l2geth/trie/database.go.  TrieDatabaseFacts.v has its
      invariant and that it implements the interface; TrieFlush.v and TrieCap.v
      are about [Commit] and [Cap], TrieGC.v about [Dereference], TrieRefs.v about
      sequences of these, TrieShape.v about what references leave alone;
      TrieSecure.v is secure_trie.go; TrieExamples.v has tries on which the
      theorems are applied.
    - BigFloat.v, Fees.v: big.Float and float64 with their rounding, the fees of
      src/l2geth/rollup/fees and the cache of src/l2geth/eth/gasprice.
    - BatchEncoding.v, BatchGen.v: src/batch-submitter/drivers/sequencer/encoding.go
      and batch.go.
    - TxMgr.v: src/bss-core/txmgr.  The goroutines of [Send] are a step function
      on their program counters; an execution is any sequence of steps.
    - BatchSubmitter.v: src/bss-core/service.go, the drivers of src/bss-core and
      the sequencer driver, as programs over a record of the calls they make.
    - RollupIndexes.v, SyncService.v, SyncServiceFacts.v, SyncServiceExamples.v:
      src/l2geth/core/rawdb/rollup_indexes.go and src/l2geth/rollup/sync_service.go.
      The class [SyncEnv] is what the service uses: the indexer's client, the
      clock, the block producer, the oracle's storage.
    - StateDB.v, StateDBFacts.v, StateBalances.v: src/l2geth/core/state: objects,
      journal, snapshots, access list and the balances in the token contract, on
      maps in the place of tries.
    - StateTries.v: the same package on its tries: objects with their storage trie
      and caches, the trie of accounts, code, [IntermediateRoot], [Commit] and
      opening a state.  StateSlots.v (slots and accounts as bytes), StateObjects.v
      (objects), StateTriesFacts.v (a state, its writes and the end of a
      transaction), StateCommits.v (the end of a block) relate it to StateDB.v;
      StateRefinement.v has the theorems, StateErrors.v those on errors of the
      database, StateTriesExamples.v a state on which they are applied.
    - Blake2b.v: the compression function of src/l2geth/crypto/blake2b; Sha256.v:
      SHA-256 of the Go library; EvmPrecompiles.v, EvmPrecompilesFacts.v: the
      precompiled contracts of src/l2geth/core/vm/contracts.go.
    - EvmCommon.v (words, stack, memory, contracts), EvmCalls.v (calls and
      creations of evm.go), EvmAnalysis.v (jump destinations), EvmGas.v (gas and
      memory sizes), EvmInstructions.v, EvmJumpTable.v (the tables by chain
      rules), EvmInterpreter.v ([Run] and [run]): src/l2geth/core/vm.
      Instructions and gas functions are named by inductive types, so that what
      holds of every entry of every jump table is checked by computation.
    - EvmEffects.v, EvmWords.v, EvmGasFacts.v, EvmSafety.v, EvmRun.v, EvmFuel.v,
      EvmTheorems.v: what runs of contracts do and never do.
    - StateTransition.v, StateTransitionFacts.v: src/l2geth/core/state_transition.go
      and gaspool.go; Admission.v: the fee check of the sync service against the
      transition; StateExamples.v, EvmExamples.v: concrete accounts and contracts
      on which the theorems are applied.
    - ChainConfig.v: the forks of src/l2geth/params/config.go; Upgrades.v: the
      scheduled upgrades of src/l2geth/core/upgrade.
    - Receipts.v: receipts, logs and bloom filters of src/l2geth/core/types
      (receipt.go, log.go, bloom9.go).
    - BlockProcess.v: headers and blocks (src/l2geth/core/types/block.go), the
      execution of a block (state_processor.go and evm.go of src/l2geth/core) and
      its validation (block_validator.go); BlockFacts.v has the theorems and
      BlockExamples.v a block on which they are applied.

    ** What the theorems show

    - The EVM: a run of a contract ends, never leaves its stack, memory, code or
      return data, and its gas bounds it ([run_total]); one iteration keeps the
      invariant of frames ([step_keeps_frames]); failed calls are undone and
      static calls only read; jumps land on instructions; the arithmetic is that
      of 256-bit words; the contracts for BLAKE2b and modular exponentiation
      compute what their EIPs ask for.
    - Tries: a trie answers as a finite map ([trie_refines_map]), its root hash
      depends on the map only and commits to it ([Hash_of_contents],
      [Hash_binds]), a committed trie can be opened again ([Commit_reload]),
      proofs are sound and complete, [DeriveSha] commits to a list, a secure trie
      is a map of unhashed keys.  The node database loses no node when it writes
      to disk, also when writes fail ([Commit_keeps_nodes], [Cap_keeps_nodes]), and
      none that a root refers to when it collects garbage
      ([Dereference_keeps_referenced], [referenced_nodes_readable]).
    - The state on its tries answers as the state on maps, and every committed root
      opens the accounts of its block ([state_on_tries_refines]); roots are equal
      exactly if the accounts are ([state_root_of_accounts]); an object with a
      database error is not committed ([object_error_aborts]), and an error of the
      state itself is ignored ([Commit_ignores_dbErr]).
    - The state: the journal implements snapshots as whole copies would; an
      executed message uses between 0 and its limit of gas, the gas pool loses
      exactly that, and fees are conserved; a transaction that passes the fee
      check of the sync service can pay when it is executed.
    - Blocks: the receipts of an executed block are those that a reader of the
      database derives from their stored part ([Process_receipts]), its gas is
      the sum of its transactions' and within the limit ([Process_gas]), and two
      blocks with the same header that pass validation have the same transactions
      and the same outcome ([validated_blocks_agree]); a bloom filter has no false
      negatives ([bloom_complete]); a compatible configuration keeps the rules of
      the blocks of a chain ([CheckCompatible_rules]).
    - The sync service: it reaches the tip of the indexer, appends exactly the
      indexed transactions, a verifier only appends blocks with published state
      roots, the indexes are repaired at start-up; and the ways in which a
      failure leaves them behind.
    - The batch submitter: [Send] returns only confirmed receipts and leaves no
      goroutine behind in any interleaving, it cannot deadlock, batches describe
      the blocks they are made of and can be read back.
    - The encodings: RLP encoding and decoding, variable-length integers,
      metadata, transactions and batches, each against the set of canonical
      encodings.

    ** Parameters, bounds and fuel

    Keccak256, RIPEMD-160, the curve operations of bn256, public key recovery, zlib, contract code by hash, RPC clients and
    the conversion of out-of-range floats are parameters; theorems state what
    they need of them (the length of a hash, recovery after signing) and
    witnesses instantiate them.  No hash function of fixed length is injective, so
    theorems that need an absence of collisions ask for it on a set of byte
    strings that has the encodings at hand.  The orders in which Go visits the
    maps of the state are parameters, any permutations.  The chain that a block
    extends (its headers and what the database has), the root of the state and the
    accounts of the DAO fork are parameters of the execution of blocks.  Loops whose bound is not structural take fuel:
    the RLP decoder needs at most the length of its input and the depth of its
    type; the jump analysis the length of the code; a run of a contract more than
    its gas, as every iteration that goes on pays at least one and a call passes
    on less than it pays for; an operation on a trie twice the length of its key,
    hashing the height of the trie, and the walks of the node database the number
    of its nodes.  Running out of fuel is a panic of its own, which
    the theorems exclude.  Gas is below 2^62 in the theorems on runs, far above
    any block gas limit.

    ** What is not modelled

    Snapshots, copies and proofs of the state on its tries (snapshots are those of
    StateDB.v), trie iterators and synchronisation, the storage of the chain and
    its reorganisations, header verification and sealing, the stored forms and the
    JSON of receipts, the block number of logs, the transaction pool, networking, RPC, metrics, configuration, tracing, mobile
    and command line code, and the services that only make contract calls (fraud
    proofs, data availability, threshold signatures, exporters).  The manifest
    lists them. *)

From Stdlib Require Export ZArith Lia String.
From Stdlib Require Strings.Byte.
From stdpp Require Export base list strings gmap.

(** ** Notations and scopes *)

Abbreviation byte := Byte.byte.

Declare Scope go_scope.
Delimit Scope go_scope with go.

#[global] Open Scope Z_scope.
#[global] Open Scope list_scope.

Create HintDb go.
Create Rewrite HintDb go.

(** ** Fixed-width unsigned integers

    Go's [uint8], [uint16], [uint32] and [uint64] are integers of [Z] kept
    reduced modulo a power of two; arithmetic that can leave the range is
    wrapped where the source computes it. *)

Definition wrap (w z : Z) : Z := z mod 2 ^ w.

Abbreviation u64 := (wrap 64).
Abbreviation u32 := (wrap 32).
Abbreviation u16 := (wrap 16).
Abbreviation u8 := (wrap 8).

Abbreviation is_u64 z := (0 <= z < 2 ^ 64).

Definition max_uint64 : Z := 2 ^ 64 - 1.

(** Conversion of a [uint64] bit pattern to Go's [int64]. *)
Definition to_int64 (z : Z) : Z :=
  let m := z mod 2 ^ 64 in if m <? 2 ^ 63 then m else m - 2 ^ 64.

Lemma wrap_small (w z : Z) : 0 <= z < 2 ^ w → wrap w z = z.
Proof. apply Z.mod_small. Qed.

Lemma wrap_range (w z : Z) : 0 <= w → 0 <= wrap w z < 2 ^ w.
Proof. intros Hw. apply Z.mod_pos_bound. lia. Qed.

Lemma to_int64_small (z : Z) : 0 <= z < 2 ^ 63 → to_int64 z = z.
Proof.
  intros Hz. unfold to_int64. rewrite Z.mod_small by lia.
  destruct (Z.ltb_spec z (2 ^ 63)); lia.
Qed.

#[export] Hint Rewrite wrap_small using lia : go.

(** ** Bytes *)

Definition b2z (b : byte) : Z := Z.of_N (Byte.to_N b).

Definition z2b (z : Z) : byte :=
  match Byte.of_N (Z.to_N (z mod 256)) with
  | Some b => b
  | None => Byte.x00
  end.

#[export] Instance byte_eq_dec : EqDecision byte := Byte.byte_eq_dec.

Lemma b2z_range (b : byte) : 0 <= b2z b < 256.
Proof.
  unfold b2z. pose proof (Byte.to_N_bounded b). lia.
Qed.

Lemma b2z_z2b (z : Z) : b2z (z2b z) = z mod 256.
Proof.
  unfold b2z, z2b.
  assert (0 <= z mod 256 < 256) as Hr by (apply Z.mod_pos_bound; lia).
  destruct (Byte.of_N (Z.to_N (z mod 256))) as [b|] eqn:E.
  - apply Byte.to_of_N in E. lia.
  - apply Byte.of_N_None_iff in E. lia.
Qed.

Lemma b2z_inj (a b : byte) : b2z a = b2z b → a = b.
Proof.
  unfold b2z. intros H. apply N2Z.inj in H.
  pose proof (Byte.of_to_N a). pose proof (Byte.of_to_N b). congruence.
Qed.

Lemma z2b_b2z (b : byte) : z2b (b2z b) = b.
Proof.
  apply b2z_inj. rewrite b2z_z2b. apply Z.mod_small, b2z_range.
Qed.

#[export] Program Instance byte_countable : Countable byte := inj_countable' b2z z2b _.
Next Obligation. apply z2b_b2z. Qed.

Lemma b2z_z2b_small (z : Z) : 0 <= z < 256 → b2z (z2b z) = z.
Proof. intros. rewrite b2z_z2b. by apply Z.mod_small. Qed.

Lemma z2b_mod (z : Z) : z2b (z mod 256) = z2b z.
Proof. apply b2z_inj. rewrite !b2z_z2b. apply Z.mod_mod. lia. Qed.

(** ** Little- and big-endian encodings

    [le n z] and [be n z] are the low [n] bytes of [z]: what
    [binary.LittleEndian.PutUint64] and [binary.BigEndian.PutUint64] (and
    their narrower versions) leave in an [n]-byte buffer. *)

Fixpoint le (n : nat) (z : Z) : list byte :=
  match n with
  | O => []
  | S n => z2b z :: le n (z / 256)
  end.

Fixpoint le_val (l : list byte) : Z :=
  match l with
  | [] => 0
  | b :: l => b2z b + 256 * le_val l
  end.

Definition be (n : nat) (z : Z) : list byte := reverse (le n z).
Definition be_val (l : list byte) : Z := le_val (reverse l).

Lemma pow256_succ (n : nat) : 256 ^ Z.of_nat (S n) = 256 * 256 ^ Z.of_nat n.
Proof. rewrite Nat2Z.inj_succ, Z.pow_succ_r; lia. Qed.

Lemma pow256_pos (n : nat) : 0 < 256 ^ Z.of_nat n.
Proof. apply Z.pow_pos_nonneg; lia. Qed.

Lemma pow256_2 (n : Z) : 0 <= n → 256 ^ n = 2 ^ (8 * n).
Proof. intros. change 256 with (2 ^ 8). by rewrite <- Z.pow_mul_r by lia. Qed.

Lemma length_le (n : nat) (z : Z) : length (le n z) = n.
Proof. revert z; induction n as [|n IH]; intros z; simpl; auto. Qed.

Lemma length_be (n : nat) (z : Z) : length (be n z) = n.
Proof. unfold be. by rewrite length_reverse, length_le. Qed.

Lemma le_val_le (n : nat) (z : Z) : le_val (le n z) = z mod 256 ^ Z.of_nat n.
Proof.
  revert z; induction n as [|n IH]; intros z.
  - simpl. rewrite Z.mod_1_r. done.
  - cbn [le le_val]. rewrite IH, b2z_z2b, pow256_succ.
    rewrite Z.rem_mul_r by (pose proof (pow256_pos n); lia). lia.
Qed.

Lemma le_val_range (l : list byte) : 0 <= le_val l < 256 ^ Z.of_nat (length l).
Proof.
  induction l as [|b l IH]; [simpl; lia|].
  cbn [le_val length]. rewrite pow256_succ. pose proof (b2z_range b). lia.
Qed.

Lemma le_le_val (l : list byte) : le (length l) (le_val l) = l.
Proof.
  induction l as [|b l IH]; [done|]. cbn [le le_val length].
  pose proof (b2z_range b) as Hb.
  f_equal.
  - rewrite <- z2b_mod. rewrite (Z.mul_comm 256), Z.mod_add by lia.
    rewrite Z.mod_small by done. apply z2b_b2z.
  - rewrite (Z.mul_comm 256), Z.div_add by lia. rewrite Z.div_small by done. done.
Qed.

Lemma le_val_app (l1 l2 : list byte) :
  le_val (l1 ++ l2) = le_val l1 + 256 ^ Z.of_nat (length l1) * le_val l2.
Proof.
  induction l1 as [|b l IH].
  - cbn [app le_val length]. change (Z.of_nat 0) with 0.
    rewrite Z.pow_0_r, Z.mul_1_l. done.
  - cbn [app le_val length]. rewrite IH, pow256_succ. lia.
Qed.

Lemma le_val_inj (l1 l2 : list byte) :
  length l1 = length l2 → le_val l1 = le_val l2 → l1 = l2.
Proof.
  intros Hlen Hv. rewrite <- (le_le_val l1), <- (le_le_val l2). congruence.
Qed.

Lemma be_val_be (n : nat) (z : Z) : be_val (be n z) = z mod 256 ^ Z.of_nat n.
Proof. unfold be_val, be. rewrite reverse_involutive. apply le_val_le. Qed.

Lemma be_val_be_small (n : nat) (z : Z) :
  0 <= z < 256 ^ Z.of_nat n → be_val (be n z) = z.
Proof. intros. rewrite be_val_be. by apply Z.mod_small. Qed.

Lemma be_val_range (l : list byte) : 0 <= be_val l < 256 ^ Z.of_nat (length l).
Proof. unfold be_val. rewrite <- length_reverse. apply le_val_range. Qed.

Lemma be_be_val (l : list byte) : be (length l) (be_val l) = l.
Proof.
  unfold be, be_val. rewrite <- length_reverse, le_le_val.
  apply reverse_involutive.
Qed.

Lemma be_val_app (l1 l2 : list byte) :
  be_val (l1 ++ l2) = be_val l1 * 256 ^ Z.of_nat (length l2) + be_val l2.
Proof.
  unfold be_val. rewrite reverse_app, le_val_app, length_reverse. lia.
Qed.

Lemma be_val_cons (b : byte) (l : list byte) :
  be_val (b :: l) = b2z b * 256 ^ Z.of_nat (length l) + be_val l.
Proof.
  change (b :: l) with ([b] ++ l). rewrite be_val_app. unfold be_val at 1.
  simpl. lia.
Qed.

Lemma be_val_nil : be_val [] = 0.
Proof. done. Qed.

Lemma be_val_inj (l1 l2 : list byte) :
  length l1 = length l2 → be_val l1 = be_val l2 → l1 = l2.
Proof.
  intros Hlen Hv. rewrite <- (be_be_val l1), <- (be_be_val l2). congruence.
Qed.

Lemma be_inj (n : nat) (a b : Z) :
  0 <= a < 256 ^ Z.of_nat n → 0 <= b < 256 ^ Z.of_nat n → be n a = be n b → a = b.
Proof.
  intros Ha Hb He. rewrite <- (be_val_be_small n a), <- (be_val_be_small n b) by done.
  by rewrite He.
Qed.

Lemma be_mod (n : nat) (z : Z) : be n (z mod 256 ^ Z.of_nat n) = be n z.
Proof.
  apply be_val_inj; [by rewrite !length_be|].
  rewrite !be_val_be. pose proof (pow256_pos n). by rewrite Z.mod_mod by lia.
Qed.

Lemma be_val_replicate_0 (n : nat) : be_val (replicate n Byte.x00) = 0.
Proof.
  induction n as [|n IH]; [done|]. cbn [replicate].
  rewrite be_val_cons, IH. unfold b2z. simpl. lia.
Qed.

#[export] Hint Rewrite length_be length_le @length_app @length_take @length_drop
  @length_reverse @length_replicate : go.

(** Splitting an encoding into its high and low bytes. *)
Lemma le_add (m n : nat) (z : Z) : le (n + m) z = le n z ++ le m (z / 256 ^ Z.of_nat n).
Proof.
  revert z; induction n as [|n IH]; intros z.
  - simpl. by rewrite Z.div_1_r.
  - cbn [le Nat.add app]. rewrite IH, pow256_succ, Z.div_div by (pose proof (pow256_pos n); lia). done.
Qed.

Lemma be_add (m n : nat) (z : Z) : be (m + n) z = be m (z / 256 ^ Z.of_nat n) ++ be n z.
Proof. unfold be. by rewrite Nat.add_comm, le_add, reverse_app. Qed.

(** ** [math/big]: minimal big-endian bytes

    [big_Bytes] is [big.Int.Bytes] of a non-negative integer: its absolute
    value in big-endian order without leading zero bytes, empty for zero.
    [big.Int.SetBytes] is [be_val]. *)

Definition bytelen (z : Z) : nat :=
  if z <=? 0 then O else Z.to_nat (Z.log2 z / 8 + 1).

Definition big_Bytes (z : Z) : list byte := be (bytelen z) z.

Lemma bytelen_spec (z : Z) :
  0 < z → 256 ^ (Z.of_nat (bytelen z) - 1) <= z < 256 ^ Z.of_nat (bytelen z).
Proof.
  intros Hz. unfold bytelen. destruct (Z.leb_spec z 0); [lia|].
  pose proof (Z.log2_nonneg z). pose proof (Z.log2_spec z Hz) as [Hlo Hhi].
  assert (0 <= Z.log2 z / 8) by (apply Z.div_pos; lia).
  rewrite Z2Nat.id by lia. rewrite !pow256_2 by lia.
  split.
  - etransitivity; [|exact Hlo]. apply Z.pow_le_mono_r; [lia|].
    pose proof (Z.mul_div_le (Z.log2 z) 8). lia.
  - eapply Z.lt_le_trans; [exact Hhi|]. apply Z.pow_le_mono_r; [lia|].
    pose proof (Z.mul_succ_div_gt (Z.log2 z) 8). lia.
Qed.

Lemma bytelen_unique (z : Z) (n : nat) :
  (0 < n)%nat → 256 ^ (Z.of_nat n - 1) <= z < 256 ^ Z.of_nat n → bytelen z = n.
Proof.
  intros Hn [Hlo Hhi].
  assert (0 < z) as Hz.
  { eapply Z.lt_le_trans; [|exact Hlo]. apply Z.pow_pos_nonneg; lia. }
  destruct (bytelen_spec z Hz) as [Hlo' Hhi'].
  assert (Z.of_nat n - 1 < Z.of_nat (bytelen z)) as H1.
  { apply (Z.pow_lt_mono_r_iff 256); lia. }
  assert (Z.of_nat (bytelen z) - 1 < Z.of_nat n) as H2.
  { apply (Z.pow_lt_mono_r_iff 256); lia. }
  lia.
Qed.

Lemma bytelen_pos (z : Z) : 0 < z → (0 < bytelen z)%nat.
Proof.
  intros Hz. destruct (bytelen_spec z Hz) as [_ Hhi].
  destruct (bytelen z); [|lia]. simpl in Hhi. lia.
Qed.

Lemma bytelen_bound (z : Z) (n : nat) :
  0 <= z < 256 ^ Z.of_nat n → (bytelen z <= n)%nat.
Proof.
  intros [H0 Hn]. destruct (decide (z = 0)) as [->|Hz]; [unfold bytelen; simpl; lia|].
  destruct (bytelen_spec z ltac:(lia)) as [Hlo _].
  pose proof (bytelen_pos z ltac:(lia)).
  assert (Z.of_nat (bytelen z) - 1 < Z.of_nat n); [|lia].
  apply (Z.pow_lt_mono_r_iff 256); lia.
Qed.

Lemma big_SetBytes_Bytes (z : Z) : 0 <= z → be_val (big_Bytes z) = z.
Proof.
  intros Hz. unfold big_Bytes. destruct (decide (z = 0)) as [->|]; [done|].
  apply be_val_be_small. split; [done|]. apply bytelen_spec. lia.
Qed.

Lemma length_big_Bytes (z : Z) : length (big_Bytes z) = bytelen z.
Proof. apply length_be. Qed.

Lemma big_Bytes_inj (a b : Z) : 0 <= a → 0 <= b → big_Bytes a = big_Bytes b → a = b.
Proof.
  intros Ha Hb He. rewrite <- (big_SetBytes_Bytes a), <- (big_SetBytes_Bytes b) by done.
  by rewrite He.
Qed.

(** The first byte of the minimal encoding of a positive number is not zero. *)
Lemma big_Bytes_head (z : Z) :
  0 < z → ∃ b l, big_Bytes z = b :: l ∧ b2z b ≠ 0.
Proof.
  intros Hz. pose proof (length_big_Bytes z) as Hlen.
  pose proof (bytelen_pos z Hz). destruct (bytelen_spec z Hz) as [Hlo _].
  destruct (big_Bytes z) as [|b l] eqn:E; [simpl in Hlen; lia|].
  exists b, l. split; [done|]. intros H0.
  pose proof (big_SetBytes_Bytes z ltac:(lia)) as Hv.
  rewrite E, be_val_cons, H0 in Hv. simpl in Hlen.
  pose proof (be_val_range l).
  replace (Z.of_nat (length l)) with (Z.of_nat (bytelen z) - 1) in * by lia. lia.
Qed.

(** Conversely a byte string without a leading zero is the minimal encoding
    of the number it denotes. *)
Lemma big_Bytes_be_val (b : byte) (l : list byte) :
  b2z b ≠ 0 → big_Bytes (be_val (b :: l)) = b :: l.
Proof.
  intros Hb. unfold big_Bytes.
  assert (bytelen (be_val (b :: l)) = length (b :: l)) as ->; [|apply be_be_val].
  apply bytelen_unique; [simpl; lia|]. split; [|apply be_val_range].
  rewrite be_val_cons. cbn [length]. rewrite Nat2Z.inj_succ.
  replace (Z.succ (Z.of_nat (length l)) - 1) with (Z.of_nat (length l)) by lia.
  pose proof (b2z_range b). pose proof (be_val_range l).
  pose proof (pow256_pos (length l)). nia.
Qed.

(** ** Errors

    A Go [error] is a sentinel created once by [errors.New] in a package
    variable ([ErrVar], compared by identity, here by the variable's name),
    a fresh error built by [fmt.Errorf] or [errors.New] ([ErrNew]), or an
    error that wraps another with the [%w] verb ([ErrWrap]). *)

Inductive error :=
  | ErrVar (name msg : string)
  | ErrNew (msg : string)
  | ErrWrap (msg : string) (inner : error).

#[export] Instance error_eq_dec : EqDecision error.
Proof. solve_decision. Defined.

(** The [Error()] method: [fmt.Errorf("msg: %w", inner)] prints the prefix, a
    colon and the wrapped error. *)
Fixpoint error_Error (e : error) : string :=
  match e with
  | ErrVar _ m | ErrNew m => m
  | ErrWrap m inner => (m ++ ": " ++ error_Error inner)%string
  end.

(** [errors.Is]: the error itself or an error of its chain is the target. *)
Fixpoint errors_Is (e target : error) : bool :=
  bool_decide (e = target) ||
  match e with ErrWrap _ inner => errors_Is inner target | _ => false end.

Lemma errors_Is_refl (e : error) : errors_Is e e = true.
Proof. destruct e; cbn [errors_Is]; by rewrite bool_decide_eq_true_2. Qed.

Lemma errors_Is_wrap (m : string) (e t : error) :
  errors_Is e t = true → errors_Is (ErrWrap m e) t = true.
Proof. intros H. cbn [errors_Is]. rewrite H. apply orb_true_r. Qed.

#[export] Hint Resolve errors_Is_refl errors_Is_wrap : go.

(** [strings.HasPrefix] and [strings.Contains]. *)
Fixpoint str_contains (sub s : string) : bool :=
  String.prefix sub s ||
  match s with
  | EmptyString => false
  | String _ s' => str_contains sub s'
  end.

(** Sentinels of the Go standard library. *)
Definition io_EOF : error := ErrVar "io.EOF" "EOF".
Definition io_ErrUnexpectedEOF : error := ErrVar "io.ErrUnexpectedEOF" "unexpected EOF".
Definition context_Canceled : error := ErrVar "context.Canceled" "context canceled".

(** ** Outcomes

    A Go call returns normally, returns a non-nil error, or does not return:
    it panics, or ends the process through [log.Crit]. *)

Inductive outcome (A : Type) :=
  | Ok (a : A)
  | Err (e : error)
  | Panic (msg : string).
Arguments Ok {A} a.
Arguments Err {A} e.
Arguments Panic {A} msg.

#[export] Instance outcome_ret : MRet outcome := λ A, Ok.
#[export] Instance outcome_bind : MBind outcome := λ A B f m,
  match m with
  | Ok a => f a
  | Err e => Err e
  | Panic msg => Panic msg
  end.

#[export] Instance outcome_fmap : FMap outcome := λ A B f m, a ← m; mret (f a).

Definition is_Ok {A} (m : outcome A) : bool :=
  match m with Ok _ => true | _ => false end.

(** [if err != nil { return fmt.Errorf("msg: %w", err) }] *)
Definition wrap_err {A} (msg : string) (m : outcome A) : outcome A :=
  match m with
  | Err e => Err (ErrWrap msg e)
  | _ => m
  end.

Lemma outcome_bind_Ok {A B} (m : outcome A) (f : A → outcome B) (b : B) :
  m ≫= f = Ok b → ∃ a, m = Ok a ∧ f a = Ok b.
Proof. destruct m; simpl; intros; naive_solver. Qed.

(** ** Stateful code

    A method that mutates its receiver and may fail: the state is kept on
    every path, because Go does not roll back what was written before an
    error is returned. *)

Definition st (S A : Type) : Type := S → outcome A * S.

#[export] Instance st_ret S : MRet (st S) := λ A a s, (Ok a, s).
#[export] Instance st_bind S : MBind (st S) := λ A B f m s,
  match m s with
  | (Ok a, s') => f a s'
  | (Err e, s') => (Err e, s')
  | (Panic msg, s') => (Panic msg, s')
  end.

Definition st_fail {S A} (e : error) : st S A := λ s, (Err e, s).
Definition st_panic {S A} (msg : string) : st S A := λ s, (Panic msg, s).
Definition st_get {S} : st S S := λ s, (Ok s, s).
Definition st_gets {S A} (f : S → A) : st S A := λ s, (Ok (f s), s).
Definition st_modify {S} (f : S → S) : st S () := λ s, (Ok tt, f s).
Definition st_lift {S A} (m : outcome A) : st S A := λ s, (m, s).

(** Runs [m] and hands its error to [h] instead of returning it. *)
Definition st_catch {S A} (m : st S A) (h : error → st S A) : st S A := λ s,
  match m s with
  | (Err e, s') => h e s'
  | r => r
  end.

Definition st_wrap_err {S A} (msg : string) (m : st S A) : st S A := λ s,
  let '(r, s') := m s in (wrap_err msg r, s').

Lemma st_bind_Ok {S A B} (m : st S A) (f : A → st S B) (s s'' : S) (b : B) :
  (m ≫= f) s = (Ok b, s'') → ∃ a s', m s = (Ok a, s') ∧ f a s' = (Ok b, s'').
Proof.
  unfold mbind, st_bind. destruct (m s) as [[a|e|p] s']; naive_solver.
Qed.

(** An invariant of the state kept by [m] on every path, errors included. *)
Definition st_keeps {S A} (P : S → Prop) (m : st S A) : Prop :=
  ∀ s, P s → P (m s).2.

Lemma st_keeps_bind {S A B} (P : S → Prop) (m : st S A) (f : A → st S B) :
  st_keeps P m → (∀ a, st_keeps P (f a)) → st_keeps P (m ≫= f).
Proof.
  intros Hm Hf s Hs. unfold mbind, st_bind. specialize (Hm s Hs).
  destruct (m s) as [[a|e|p] s']; simpl in *; auto. by apply Hf.
Qed.

Lemma st_keeps_ret {S A} (P : S → Prop) (a : A) : st_keeps P (mret a : st S A).
Proof. intros s Hs. done. Qed.

Lemma st_keeps_fail {S A} (P : S → Prop) e : st_keeps P (st_fail (A:=A) e).
Proof. intros s Hs. done. Qed.

Lemma st_keeps_panic {S A} (P : S → Prop) e : st_keeps P (st_panic (A:=A) e).
Proof. intros s Hs. done. Qed.

Lemma st_keeps_gets {S A} (P : S → Prop) (f : S → A) : st_keeps P (st_gets f).
Proof. intros s Hs. done. Qed.

Lemma st_keeps_lift {S A} (P : S → Prop) (m : outcome A) : st_keeps P (st_lift m).
Proof. intros s Hs. done. Qed.

Lemma st_keeps_modify {S} (P : S → Prop) (f : S → S) :
  (∀ s, P s → P (f s)) → st_keeps P (st_modify f).
Proof. intros Hf s Hs. apply Hf, Hs. Qed.

Lemma st_keeps_wrap_err {S A} (P : S → Prop) msg (m : st S A) :
  st_keeps P m → st_keeps P (st_wrap_err msg m).
Proof.
  intros Hm s Hs. specialize (Hm s Hs). unfold st_wrap_err.
  destruct (m s); done.
Qed.

#[export] Hint Resolve st_keeps_bind st_keeps_ret st_keeps_fail st_keeps_panic
  st_keeps_gets st_keeps_lift st_keeps_modify st_keeps_wrap_err : go.

(** *** Weakest preconditions

    [wp m Q s] says that [Q] holds of how [m] ends from [s], whichever way it
    ends. *)

Definition wp {S A} (m : st S A) (Q : outcome A → S → Prop) (s : S) : Prop := Q (m s).1 (m s).2.

(** What is left to show of [m ≫= f] once [m] has ended. *)
Definition wp_cont {S A B} (f : A → st S B) (Q : outcome B → S → Prop) (r : outcome A) (s : S) : Prop :=
  match r with
  | Ok a => wp (f a) Q s
  | Err e => Q (Err e) s
  | Panic m => Q (Panic m) s
  end.

Section Wp.
  Context {S A B : Type}.
  Implicit Types (Q : outcome B → S → Prop) (s : S).

Lemma wp_bind (m : st S A) (f : A → st S B) Q s : wp m (wp_cont f Q) s → wp (m ≫= f) Q s.
Proof. unfold wp, wp_cont, mbind, st_bind. by destruct (m s) as [[] ?]. Qed.

Lemma wp_ret (b : B) Q s : Q (Ok b) s → wp (mret b) Q s.
Proof. done. Qed.

Lemma wp_fail e Q s : Q (Err e) s → wp (st_fail e) Q s.
Proof. done. Qed.

Lemma wp_panic m Q s : Q (Panic m) s → wp (st_panic m) Q s.
Proof. done. Qed.

Lemma wp_gets (f : S → B) Q s : Q (Ok (f s)) s → wp (st_gets f) Q s.
Proof. done. Qed.

Lemma wp_get (Q : outcome S → S → Prop) s : Q (Ok s) s → wp st_get Q s.
Proof. done. Qed.

Lemma wp_modify (f : S → S) (Q : outcome () → S → Prop) s : Q (Ok tt) (f s) → wp (st_modify f) Q s.
Proof. done. Qed.

Lemma wp_lift (m : outcome B) Q s : Q m s → wp (st_lift m) Q s.
Proof. done. Qed.

Lemma wp_mono (m : st S B) Q Q' s : wp m Q s → (∀ r s', Q r s' → Q' r s') → wp m Q' s.
Proof. intros Hm HQ. apply HQ, Hm. Qed.

Lemma wp_catch (m : st S B) h Q s :
  wp m (λ r s', match r with Err e => wp (h e) Q s' | _ => Q r s' end) s → wp (st_catch m h) Q s.
Proof. unfold wp, st_catch. by destruct (m s) as [[] ?]. Qed.

Lemma wp_wrap_err msg (m : st S B) Q s : wp m (λ r s', Q (wrap_err msg r) s') s → wp (st_wrap_err msg m) Q s.
Proof. unfold wp, st_wrap_err. by destruct (m s). Qed.

End Wp.

(** One step through the code of a method. *)
Ltac wp_step :=
  lazymatch goal with
  | |- wp (mbind _ _) _ _ => apply wp_bind
  | |- wp (mret _) _ _ => apply wp_ret
  | |- wp (st_fail _) _ _ => apply wp_fail
  | |- wp (st_panic _) _ _ => apply wp_panic
  | |- wp (st_gets _) _ _ => apply wp_gets
  | |- wp st_get _ _ => apply wp_get
  | |- wp (st_modify _) _ _ => apply wp_modify
  | |- wp (st_lift _) _ _ => apply wp_lift
  | |- wp (st_catch _ _) _ _ => apply wp_catch
  | |- wp (st_wrap_err _ _) _ _ => apply wp_wrap_err
  | |- wp_cont _ _ (Ok _) _ => unfold wp_cont
  | |- wp_cont _ _ (Err _) _ => unfold wp_cont
  | |- wp_cont _ _ (Panic _) _ => unfold wp_cont
  end.
Ltac wp_steps := repeat (wp_step; cbv beta iota).

(** ** Tactics *)

(** Turns boolean comparisons into arithmetic facts and splits on them. *)
Ltac bool_cases :=
  repeat match goal with
  | |- context [Z.leb ?a ?b] => destruct (Z.leb_spec a b)
  | |- context [Z.ltb ?a ?b] => destruct (Z.ltb_spec a b)
  | |- context [Z.eqb ?a ?b] => destruct (Z.eqb_spec a b)
  end; try lia.

(** Splits on the [match] at the head of a hypothesis about an outcome. *)
Ltac step_match H :=
  match type of H with
  | context [match ?x with _ => _ end] => let E := fresh "E" in destruct x eqn:E
  end; try discriminate H.

(** ** Lists *)

Lemma take_drop_app {A} (l1 l2 : list A) (n : nat) :
  n = length l1 → take n (l1 ++ l2) = l1 ∧ drop n (l1 ++ l2) = l2.
Proof. intros ->. by rewrite take_app_length, drop_app_length. Qed.

Lemma take_app_exact {A} (l1 l2 : list A) (n : nat) :
  n = length l1 → take n (l1 ++ l2) = l1.
Proof. intros H. by apply take_drop_app. Qed.

Lemma drop_app_exact {A} (l1 l2 : list A) (n : nat) :
  n = length l1 → drop n (l1 ++ l2) = l2.
Proof. intros H. by apply take_drop_app. Qed.

(** ** Slices

    [len] is Go's [len] as an [int]; [slice l a b] is the slice expression
    [l[a:b]], which panics unless [0 <= a <= b <= len l]; [splice l p s]
    overwrites the elements of [l] from position [p] on with those of [s]. *)

Definition len {A} (l : list A) : Z := Z.of_nat (length l).

Definition slice {A} (l : list A) (a b : Z) : outcome (list A) :=
  if (0 <=? a) && (a <=? b) && (b <=? len l)
  then Ok (take (Z.to_nat (b - a)) (drop (Z.to_nat a) l))
  else Panic "slice bounds out of range".

Definition splice {A} (l : list A) (p : nat) (s : list A) : list A :=
  take p l ++ s ++ drop (p + length s) l.

(** The first [count] pieces of [n] elements. *)
Fixpoint pieces {A} (n count : nat) (l : list A) : list (list A) :=
  match count with
  | O => []
  | S count => take n l :: pieces n count (drop n l)
  end.

Arguments len {A} l : simpl never.

Lemma length_pieces {A} (n count : nat) (l : list A) : length (pieces n count l) = count.
Proof. revert l. induction count as [| count IH]; intros l; cbn; [done | by rewrite IH]. Qed.

Lemma len_app {A} (l1 l2 : list A) : len (l1 ++ l2) = len l1 + len l2.
Proof. unfold len. rewrite length_app. lia. Qed.

Lemma len_cons {A} (a : A) (l : list A) : len (a :: l) = 1 + len l.
Proof. unfold len. simpl length. lia. Qed.

Lemma len_nil {A} : len (@nil A) = 0.
Proof. done. Qed.

Lemma len_nonneg {A} (l : list A) : 0 <= len l.
Proof. unfold len. lia. Qed.

Lemma len_pos {A} (l : list A) : l ≠ [] → 0 < len l.
Proof. destruct l; [done |]. unfold len. cbn. lia. Qed.

Lemma len_big_Bytes (z : Z) : len (big_Bytes z) = Z.of_nat (bytelen z).
Proof. unfold len. by rewrite length_big_Bytes. Qed.

#[export] Hint Rewrite @len_app @len_cons @len_nil : go.

Lemma slice_app {A} (l1 l2 l3 : list A) (a b : Z) :
  a = len l1 → b = len l1 + len l2 → slice (l1 ++ l2 ++ l3) a b = Ok l2.
Proof.
  intros -> ->. unfold slice. rewrite !len_app.
  pose proof (len_nonneg l1). pose proof (len_nonneg l2). pose proof (len_nonneg l3).
  repeat (rewrite (proj2 (Z.leb_le _ _)) by lia). simpl.
  unfold len. rewrite Nat2Z.id, drop_app_length.
  f_equal. apply take_app_exact. lia.
Qed.

Lemma slice_Ok {A} (l : list A) (a b : Z) :
  0 <= a <= b → b <= len l →
  slice l a b = Ok (take (Z.to_nat (b - a)) (drop (Z.to_nat a) l)).
Proof.
  intros. unfold slice. by repeat (rewrite (proj2 (Z.leb_le _ _)) by lia).
Qed.

Lemma splice_app {A} (l1 l2 l3 s : list A) (p : nat) :
  p = length l1 → length s = length l2 → splice (l1 ++ l2 ++ l3) p s = l1 ++ s ++ l3.
Proof.
  intros -> Hs. unfold splice. rewrite take_app_length, Hs. f_equal. f_equal.
  rewrite drop_app_ge by lia.
  replace (length l1 + length l2 - length l1)%nat with (length l2) by lia.
  by rewrite drop_app_length.
Qed.

(** ** Bit operations *)

(** Putting a field of [n] bits below shifted bits is addition. *)
Lemma lor_shiftl_add (hi lo n : Z) :
  0 <= n → 0 <= lo < 2 ^ n → Z.lor (Z.shiftl hi n) lo = hi * 2 ^ n + lo.
Proof.
  intros Hn Hlo.
  assert (Z.land (Z.shiftl hi n) lo = 0) as Hland.
  { apply Z.bits_inj'. intros k Hk. rewrite Z.land_spec, Z.bits_0.
    destruct (Z.lt_ge_cases k n).
    - by rewrite Z.shiftl_spec_low by lia.
    - assert (lo = lo mod 2 ^ n) as -> by (symmetry; apply Z.mod_small; lia).
      rewrite Z.mod_pow2_bits_high by lia. apply andb_false_r. }
  rewrite <- Z.shiftl_mul_pow2 by lia.
  rewrite Z.add_nocarry_lxor by done. by rewrite Z.lxor_lor.
Qed.
