(* ===== verification/Rlp.v ===== *)
(** RLP encoding, package [rlp] of l2geth.

    The encoder of src/l2geth/rlp/encode.go writes string data and list
    headers to separate parts of an [encbuf] and puts them together at the
    end; [EncodeToBytes] is that machine, value by value.  [rlp] is the
    recursive definition of the encoding, and the encoder is proved to refine
    it.  The functions of src/l2geth/rlp/raw.go take encoded values apart
    without decoding them; they are proved to invert the encoding, to accept
    canonical headers only and never to index out of range. *)

From S2P Require Import Prelude.

#[local] Set Warnings "-register-all".

(** ** Specification: RLP items and their encoding *)

Inductive item :=
  | Str (b : list byte)
  | Lst (l : list item).

(** The header of a string ([0x80], [0xB7]) or a list ([0xC0], [0xF7]). *)
Definition header (smalltag largetag size : Z) : list byte :=
  if size <? 56 then [z2b (smalltag + size)]
  else z2b (largetag + Z.of_nat (bytelen size)) :: big_Bytes size.

Definition rlp_str (b : list byte) : list byte :=
  match b with
  | [c] => if b2z c <=? 127 then [c] else header 128 183 1 ++ b
  | _ => header 128 183 (len b) ++ b
  end.

Definition rlp_list (content : list byte) : list byte :=
  header 192 247 (len content) ++ content.

Fixpoint rlp (it : item) : list byte :=
  match it with
  | Str b => rlp_str b
  | Lst l => rlp_list (concat (map rlp l))
  end.

(** ** encode.go: integers and headers *)

Definition putint (i : Z) : list byte :=
  let s k := z2b (Z.shiftr i k) in
  if i <? 2 ^ 8 then [z2b i]
  else if i <? 2 ^ 16 then [s 8; z2b i]
  else if i <? 2 ^ 24 then [s 16; s 8; z2b i]
  else if i <? 2 ^ 32 then [s 24; s 16; s 8; z2b i]
  else if i <? 2 ^ 40 then [s 32; s 24; s 16; s 8; z2b i]
  else if i <? 2 ^ 48 then [s 40; s 32; s 24; s 16; s 8; z2b i]
  else if i <? 2 ^ 56 then [s 48; s 40; s 32; s 24; s 16; s 8; z2b i]
  else [s 56; s 48; s 40; s 32; s 24; s 16; s 8; z2b i].

(** The loop of [intsize]; eight rounds of shifting empty a [uint64]. *)
Fixpoint intsize_loop (fuel : nat) (size i : Z) : Z :=
  match fuel with
  | O => size
  | S fuel =>
      let i := Z.shiftr i 8 in
      if i =? 0 then size else intsize_loop fuel (size + 1) i
  end.

Definition intsize (i : Z) : Z := intsize_loop 8 1 i.

Definition headsize (size : Z) : Z :=
  if size <? 56 then 1 else 1 + intsize size.

(** The bytes [puthead] leaves at the start of its buffer. *)
Definition puthead (smalltag largetag size : Z) : list byte :=
  if size <? 56 then [z2b (smalltag + size)]
  else
    let p := putint size in
    z2b (largetag + len p) :: p.

(** ** encode.go: the encoder buffer

    A [*listhead] is modelled by its index in [lheads], where [list] puts it
    and [listEnd] updates it. *)

Record listhead := Listhead { offset : Z; size : Z }.

Record encbuf := Encbuf {
  str : list byte;
  lheads : list listhead;
  lhsize : Z;
}.

Definition encbuf_reset : encbuf := Encbuf [] [] 0.

Definition encbuf_size (w : encbuf) : Z := len (str w) + lhsize w.

(** [w.str = append(w.str, b...)] *)
Definition append_str (b : list byte) : st encbuf () :=
  st_modify (λ w, Encbuf (str w ++ b) (lheads w) (lhsize w)).

Definition encodeStringHeader (size : Z) : st encbuf () :=
  if size <? 56 then append_str [z2b (128 + size)]
  else
    let p := putint (u64 size) in
    append_str (z2b (183 + len p) :: p).

Definition encodeString (b : list byte) : st encbuf () :=
  match b with
  | [c] => if b2z c <=? 127 then append_str [c]
           else encodeStringHeader (len b);; append_str b
  | _ => encodeStringHeader (len b);; append_str b
  end.

Definition encbuf_list : st encbuf nat :=
  lh ← st_gets (λ w, length (lheads w));
  st_modify (λ w, Encbuf (str w)
    (lheads w ++ [Listhead (len (str w)) (lhsize w)]) (lhsize w));;
  mret lh.

Definition encbuf_listEnd (lh : nat) : st encbuf () := λ w,
  match lheads w !! lh with
  | None => (Panic "nil listhead", w)
  | Some h =>
      let sz := encbuf_size w - offset h - size h in
      let lhsize' := if sz <? 56 then lhsize w + 1
                     else lhsize w + (1 + intsize (u64 sz)) in
      (Ok tt, Encbuf (str w) (<[lh := Listhead (offset h) sz]> (lheads w)) lhsize')
  end.

(** ** encode.go: assembling the output *)

Definition listhead_encode (h : listhead) : list byte :=
  puthead 192 247 (u64 (size h)).

(** [copy(out[pos:], s)]: the new buffer and the number of bytes copied. *)
Definition copy_at (out : list byte) (pos : Z) (s : list byte) : list byte * Z :=
  let n := Z.min (len out - pos) (len s) in
  (splice out (Z.to_nat pos) (take (Z.to_nat n) s), n).

(** [head.encode(out[pos:])]: index out of range if the header does not fit. *)
Definition put_header (out : list byte) (pos : Z) (enc : list byte)
    : outcome (list byte) :=
  if pos + len enc <=? len out then Ok (splice out (Z.to_nat pos) enc)
  else Panic "index out of range".

Fixpoint toBytes_loop (heads : list listhead) (s out : list byte) (strpos pos : Z)
    : outcome (list byte) :=
  match heads with
  | [] =>
      last ← slice s strpos (len s);
      mret (copy_at out pos last).1
  | head :: heads =>
      before ← slice s strpos (offset head);
      let '(out, n) := copy_at out pos before in
      let enc := listhead_encode head in
      out ← put_header out (pos + n) enc;
      toBytes_loop heads s out (strpos + n) (pos + n + len enc)
  end.

Definition toBytes (w : encbuf) : outcome (list byte) :=
  toBytes_loop (lheads w) (str w)
    (replicate (Z.to_nat (encbuf_size w)) Byte.x00) 0 0.

(** [toWriter]: the same pieces, handed one by one to an [io.Writer]. *)
Section ToWriter.
Context {W : Type} (write : list byte → st W Z).

Fixpoint toWriter_loop (heads : list listhead) (s : list byte) (strpos : Z)
    : st W () :=
  match heads with
  | [] =>
      if strpos <? len s then
        last ← st_lift (slice s strpos (len s)); write last;; mret tt
      else mret tt
  | head :: heads =>
      strpos ←
        (if 0 <? offset head - strpos then
           before ← st_lift (slice s strpos (offset head));
           n ← write before;
           mret (strpos + n)
         else mret strpos);
      write (listhead_encode head);;
      toWriter_loop heads s strpos
  end.

Definition toWriter (w : encbuf) : st W () := toWriter_loop (lheads w) (str w) 0.
End ToWriter.

(** ** encode.go: writers

    [makeWriter] chooses a writer from the type of a value.  [value] is a
    value together with that choice: its constructors are the writers.  A
    pointer or interface that is not nil is written as what it points to, a
    string, byte slice or byte array as its bytes. *)

Inductive Kind := KByte | KString | KList.

#[export] Instance Kind_eq_dec : EqDecision Kind.
Proof. solve_decision. Defined.

Inductive value :=
  | VRaw (b : list byte)
  | VUint (i : Z)
  | VBool (b : bool)
  | VBigInt (i : option Z)
  | VBytes (b : list byte)
  | VSlice (tail : bool) (l : list value)
  | VStruct (l : list value)
  | VNilPtr (nilKind : Kind)
  | VNilInterface.

Definition writeUint (i : Z) : st encbuf () :=
  if i =? 0 then append_str [z2b 128]
  else if i <? 128 then append_str [z2b i]
  else
    let p := putint i in
    append_str (z2b (128 + len p) :: p).

Definition writeBool (b : bool) : st encbuf () :=
  append_str (if b then [z2b 1] else [z2b 128]).

Definition writeBigInt (i : Z) : st encbuf () :=
  if i <? 0 then st_fail (ErrNew "rlp: cannot encode negative *big.Int")
  else if i =? 0 then append_str [z2b 128]
  else encodeString (big_Bytes i).

Definition writeBigIntPtr (ptr : option Z) : st encbuf () :=
  match ptr with
  | None => append_str [z2b 128]
  | Some i => writeBigInt i
  end.

(** [defer w.listEnd(lh)]: the header is closed on every path. *)
Definition defer_listEnd (lh : nat) (m : st encbuf ()) : st encbuf () := λ w,
  let '(r, w) := m w in
  match encbuf_listEnd lh w with
  | (Ok _, w) => (r, w)
  | r => r
  end.

Fixpoint write (v : value) : st encbuf () :=
  let fix write_all (l : list value) : st encbuf () :=
    match l with
    | [] => mret tt
    | v :: l => write v;; write_all l
    end in
  match v with
  | VRaw b => append_str b
  | VUint i => writeUint i
  | VBool b => writeBool b
  | VBigInt ptr => writeBigIntPtr ptr
  | VBytes b => encodeString b
  | VSlice true l => write_all l
  | VSlice false l => lh ← encbuf_list; defer_listEnd lh (write_all l)
  | VStruct l => lh ← encbuf_list; write_all l;; encbuf_listEnd lh
  | VNilPtr KString => append_str [z2b 128]
  | VNilPtr _ => lh ← encbuf_list; encbuf_listEnd lh
  | VNilInterface => append_str [z2b 192]
  end.

Fixpoint write_all (l : list value) : st encbuf () :=
  match l with
  | [] => mret tt
  | v :: l => write v;; write_all l
  end.

Definition EncodeToBytes (v : value) : outcome (list byte) :=
  match write v encbuf_reset with
  | (Ok _, eb) => toBytes eb
  | (Err e, _) => Err e
  | (Panic m, _) => Panic m
  end.

Definition Encode {W} (out : list byte → st W Z) (v : value) : st W () :=
  match write v encbuf_reset with
  | (Ok _, eb) => toWriter out eb
  | (Err e, _) => st_fail e
  | (Panic m, _) => st_panic m
  end.

(** ** raw.go: taking encoded values apart *)

Definition ErrExpectedString : error := ErrVar "rlp.ErrExpectedString" "rlp: expected String or Byte".
Definition ErrExpectedList : error := ErrVar "rlp.ErrExpectedList" "rlp: expected List".
Definition ErrCanonInt : error := ErrVar "rlp.ErrCanonInt" "rlp: non-canonical integer format".
Definition ErrCanonSize : error := ErrVar "rlp.ErrCanonSize" "rlp: non-canonical size information".
Definition ErrElemTooLarge : error := ErrVar "rlp.ErrElemTooLarge" "rlp: element is larger than containing list".
Definition ErrValueTooLarge : error := ErrVar "rlp.ErrValueTooLarge" "rlp: value size exceeds available input length".
Definition ErrMoreThanOneValue : error := ErrVar "rlp.ErrMoreThanOneValue" "rlp: input contains more than one value".
Definition errNotInList : error := ErrVar "rlp.errNotInList" "rlp: call of ListEnd outside of any list".
Definition errNotAtEOL : error := ErrVar "rlp.errNotAtEOL" "rlp: call of ListEnd not positioned at EOL".
Definition errUintOverflow : error := ErrVar "rlp.errUintOverflow" "rlp: uint overflow".

Definition ListSize (contentSize : Z) : Z := u64 (headsize contentSize + contentSize).

(** The sum of shifted bytes of [readSize], for the [slen] bytes it reads. *)
Fixpoint read_be (acc : Z) (b : list byte) : Z :=
  match b with
  | [] => acc
  | c :: b => read_be (Z.lor (u64 (Z.shiftl acc 8)) (b2z c)) b
  end.

Definition readSize (b : list byte) (slen : Z) : outcome Z :=
  if len b <? slen then Err io_ErrUnexpectedEOF
  else
    let s := read_be 0 (take (Z.to_nat slen) b) in
    if (s <? 56) || (b2z (hd Byte.x00 b) =? 0) then Err ErrCanonSize
    else Ok s.

Definition readKind (buf : list byte) : outcome (Kind * Z * Z) :=
  match buf with
  | [] => Err io_ErrUnexpectedEOF
  | c :: rest =>
      let b := b2z c in
      '(k, tagsize, contentsize) ←
        (if b <? 0x80 then mret (KByte, 0, 1)
         else if b <? 0xB8 then
           if (b - 0x80 =? 1) && (1 <? len buf) && (b2z (hd Byte.x00 rest) <? 128)
           then Err ErrCanonSize
           else mret (KString, 1, b - 0x80)
         else if b <? 0xC0 then
           s ← readSize rest (b - 0xB7); mret (KString, b - 0xB7 + 1, s)
         else if b <? 0xF8 then mret (KList, 1, b - 0xC0)
         else s ← readSize rest (b - 0xF7); mret (KList, b - 0xF7 + 1, s));
      if u64 (len buf - tagsize) <? contentsize then Err ErrValueTooLarge
      else mret (k, tagsize, contentsize)
  end.

Definition Split (b : list byte) : outcome (Kind * list byte * list byte) :=
  '(k, ts, cs) ← readKind b;
  content ← slice b ts (u64 (ts + cs));
  rest ← slice b (u64 (ts + cs)) (len b);
  mret (k, content, rest).

Definition SplitString (b : list byte) : outcome (list byte * list byte) :=
  '(k, content, rest) ← Split b;
  match k with
  | KList => Err ErrExpectedString
  | _ => mret (content, rest)
  end.

Definition SplitList (b : list byte) : outcome (list byte * list byte) :=
  '(k, content, rest) ← Split b;
  match k with
  | KList => mret (content, rest)
  | _ => Err ErrExpectedList
  end.

(** The loop of [CountValues], with the length of the input as its fuel:
    every round consumes at least one byte.  Running out of fuel would be
    [Panic]. *)
Fixpoint CountValues_loop (fuel : nat) (i : Z) (b : list byte) : outcome Z :=
  match b with
  | [] => Ok i
  | _ =>
      match fuel with
      | O => Panic "out of fuel"
      | S fuel =>
          '(_, tagsize, sz) ← readKind b;
          b ← slice b (u64 (tagsize + sz)) (len b);
          CountValues_loop fuel (i + 1) b
      end
  end.

Definition CountValues (b : list byte) : outcome Z := CountValues_loop (length b) 0 b.

(** ** The encoding of a value, specified

    [value_bytes] is the encoding the package documentation gives to a value;
    [value_ok] is what the writers need: a [uint64] in range and no negative
    [*big.Int].  Without raw values the encoding is that of items. *)

Fixpoint value_bytes (v : value) : list byte :=
  match v with
  | VRaw b => b
  | VUint i => rlp_str (big_Bytes i)
  | VBool b => rlp_str (if b then [z2b 1] else [])
  | VBigInt None => rlp_str []
  | VBigInt (Some i) => rlp_str (big_Bytes i)
  | VBytes b => rlp_str b
  | VSlice true l => concat (map value_bytes l)
  | VSlice false l | VStruct l => rlp_list (concat (map value_bytes l))
  | VNilPtr KString => rlp_str []
  | VNilPtr _ | VNilInterface => rlp_list []
  end.

Fixpoint value_ok (v : value) : bool :=
  match v with
  | VUint i => (0 <=? i) && (i <? 2 ^ 64)
  | VBigInt (Some i) => 0 <=? i
  | VSlice _ l | VStruct l => forallb value_ok l
  | _ => true
  end.

Fixpoint value_items (v : value) : option (list item) :=
  match v with
  | VRaw _ => None
  | VUint i => Some [Str (big_Bytes i)]
  | VBool b => Some [Str (if b then [z2b 1] else [])]
  | VBigInt None => Some [Str []]
  | VBigInt (Some i) => Some [Str (big_Bytes i)]
  | VBytes b => Some [Str b]
  | VSlice tail l =>
      its ← mapM value_items l;
      Some (if tail then concat its else [Lst (concat its)])
  | VStruct l => its ← mapM value_items l; Some [Lst (concat its)]
  | VNilPtr KString => Some [Str []]
  | VNilPtr _ | VNilInterface => Some [Lst []]
  end.

(** What [toBytes] computes: string data with the headers put in at their
    offsets; [p] is the offset of the first byte of [s]. *)
Fixpoint render (p : Z) (heads : list listhead) (s : list byte) : list byte :=
  match heads with
  | [] => s
  | h :: heads =>
      let n := Z.to_nat (offset h - p) in
      take n s ++ listhead_encode h ++ render (offset h) heads (drop n s)
  end.

(** Offsets that increase weakly from [p] and stay below [q]. *)
Fixpoint heads_in (p q : Z) (heads : list listhead) : Prop :=
  match heads with
  | [] => p <= q
  | h :: heads => p <= offset h ∧ heads_in (offset h) q heads
  end.

(** [appended w w' out]: between [w] and [w'] the encoder has added string
    data and headers that together read [out]. *)
Definition appended (w w' : encbuf) (out : list byte) : Prop :=
  ∃ s hs,
    w' = Encbuf (str w ++ s) (lheads w ++ hs) (lhsize w + len out - len s) ∧
    heads_in (len (str w)) (len (str w) + len s) hs ∧
    render (len (str w)) hs s = out.

(** A writer that accepts every byte, such as a [bytes.Buffer]. *)
Definition buffer_write (b : list byte) : st (list byte) Z := λ buf, (Ok (len b), buf ++ b).

(** [m] always succeeds and adds [out]. *)
Definition writes (m : st encbuf ()) (out : list byte) : Prop :=
  ∀ w, ∃ w', m w = (Ok tt, w') ∧ appended w w' out.

(** The one encoding of a value of kind [k] with content [c], and the contents
    each kind admits: a single byte below [0x80] is its own encoding and never
    a string. *)
Definition is_byte (c : list byte) : bool :=
  match c with [x] => b2z x <? 128 | _ => false end.

Definition kind_ok (k : Kind) (c : list byte) : bool :=
  match k with
  | KByte => is_byte c
  | KString => negb (is_byte c)
  | KList => true
  end.

Definition kind_header (k : Kind) (n : Z) : list byte :=
  match k with
  | KByte => []
  | KString => header 128 183 n
  | KList => header 192 247 n
  end.

Definition kind_bytes (kc : Kind * list byte) : list byte :=
  kind_header kc.1 (len kc.2) ++ kc.2.

(** ** Induction principles *)

Lemma item_ind' (P : item → Prop) :
  (∀ b, P (Str b)) → (∀ l, Forall P l → P (Lst l)) → ∀ it, P it.
Proof.
  intros HS HL. fix IH 1. intros [b|l]; [apply HS|]. apply HL.
  induction l as [|it l IHl]; constructor; [apply IH|apply IHl].
Qed.

Lemma value_ind' (P : value → Prop) :
  (∀ b, P (VRaw b)) → (∀ i, P (VUint i)) → (∀ b, P (VBool b)) →
  (∀ i, P (VBigInt i)) → (∀ b, P (VBytes b)) →
  (∀ tail l, Forall P l → P (VSlice tail l)) →
  (∀ l, Forall P l → P (VStruct l)) →
  (∀ k, P (VNilPtr k)) → P VNilInterface → ∀ v, P v.
Proof.
  intros H1 H2 H3 H4 H5 HS HT H6 H7. fix IH 1.
  intros [b|i|b|i|b|tail l|l|k|];
    [apply H1|apply H2|apply H3|apply H4|apply H5|apply HS|apply HT|apply H6|apply H7];
    (induction l as [|v l IHl]; constructor; [apply IH|apply IHl]).
Qed.

(** ** Integers and headers *)

Lemma be_S_div (n : nat) (z : Z) : be (S n) z = be n (z / 256) ++ [z2b z].
Proof. unfold be. cbn [le]. by rewrite reverse_cons. Qed.

Lemma putint_be (i : Z) : 0 < i < 2 ^ 64 → putint i = big_Bytes i.
Proof.
  intros Hi. unfold putint, big_Bytes.
  repeat match goal with |- context [?a <? ?b] => destruct (Z.ltb_spec a b) end;
  match goal with |- ?l = be _ _ =>
    rewrite (bytelen_unique i (length l)) by (cbn [length]; lia) end;
  cbn [length]; rewrite !be_S_div; cbn [be le reverse app];
  rewrite ?Z.div_div by lia; rewrite ?Z.shiftr_div_pow2 by lia; done.
Qed.

Lemma intsize_bytelen (i : Z) : 0 < i < 2 ^ 64 → intsize i = Z.of_nat (bytelen i).
Proof.
  intros Hi. unfold intsize.
  assert (∀ fuel s j, 0 < j → (bytelen j <= fuel)%nat →
    intsize_loop fuel s j = s - 1 + Z.of_nat (bytelen j)) as Hloop.
  { induction fuel as [|fuel IH]; intros s j Hj Hf.
    { pose proof (bytelen_pos j Hj). lia. }
    cbn [intsize_loop]. rewrite Z.shiftr_div_pow2 by lia. change (2 ^ 8) with 256.
    pose proof (Z.mul_div_le j 256 ltac:(lia)).
    pose proof (Z.mul_succ_div_gt j 256 ltac:(lia)).
    destruct (Z.eqb_spec (j / 256) 0) as [E|E].
    - rewrite (bytelen_unique j 1); [lia|lia|]. simpl. lia.
    - assert (0 < j / 256) as Hq by lia.
      pose proof (bytelen_spec (j / 256) Hq) as Hb.
      pose proof (bytelen_pos (j / 256) Hq).
      assert (bytelen j = S (bytelen (j / 256))) as Heq.
      { apply bytelen_unique; [lia|]. rewrite pow256_succ.
        replace (Z.of_nat (S (bytelen (j / 256))) - 1) with
          (Z.succ (Z.of_nat (bytelen (j / 256)) - 1)) by lia.
        rewrite Z.pow_succ_r by lia. lia. }
      rewrite IH by lia. lia. }
  rewrite Hloop; [lia|lia|]. apply bytelen_bound. simpl. lia.
Qed.

Lemma puthead_header (t l size : Z) : 0 <= size < 2 ^ 64 → puthead t l size = header t l size.
Proof.
  intros Hs. unfold puthead, header. destruct (Z.ltb_spec size 56); [done|].
  rewrite putint_be by lia. unfold len. by rewrite length_big_Bytes.
Qed.

Lemma len_header (t l size : Z) : 0 <= size < 2 ^ 64 → len (header t l size) = headsize size.
Proof.
  intros Hs. unfold headsize, header. destruct (Z.ltb_spec size 56); [done|].
  rewrite intsize_bytelen, len_cons, len_big_Bytes by lia. done.
Qed.

Lemma headsize_range (size : Z) : 0 <= size < 2 ^ 64 → 1 <= headsize size <= 9.
Proof.
  intros Hs. unfold headsize. destruct (Z.ltb_spec size 56); [lia|].
  rewrite intsize_bytelen by lia.
  pose proof (bytelen_bound size 8 ltac:(simpl; lia)). lia.
Qed.

(** ** The encoder refines the specification *)

Lemma heads_in_le (p q : Z) hs : heads_in p q hs → p <= q.
Proof. revert p; induction hs as [|h hs IH]; simpl; [done|]. intros p [? ?%IH]. lia. Qed.

Lemma heads_in_app (p q r : Z) hs1 hs2 :
  heads_in p q hs1 → heads_in q r hs2 → heads_in p r (hs1 ++ hs2).
Proof.
  revert p; induction hs1 as [|h hs IH]; simpl; intros p H1 H2.
  - destruct hs2; simpl in *; [lia|]. destruct H2. split; [lia|done].
  - destruct H1. eauto.
Qed.

Lemma render_app (p : Z) hs1 hs2 s1 s2 :
  heads_in p (p + len s1) hs1 → heads_in (p + len s1) (p + len s1 + len s2) hs2 →
  render p (hs1 ++ hs2) (s1 ++ s2) = render p hs1 s1 ++ render (p + len s1) hs2 s2.
Proof.
  revert p s1; induction hs1 as [|h hs IH]; simpl; intros p s1 H1 H2.
  - destruct hs2 as [|h hs2]; simpl in *; [done|]. destruct H2 as [H2 _].
    unfold len in *. rewrite take_app_ge, drop_app_ge by lia.
    rewrite <- !app_assoc. by repeat f_equal; lia.
  - destruct H1 as [Hp H1]. pose proof (heads_in_le _ _ _ H1).
    unfold len in *.
    rewrite take_app_le, drop_app_le by lia. rewrite <- !app_assoc. f_equal. f_equal.
    assert (p + Z.of_nat (length s1) = offset h +
      Z.of_nat (length (drop (Z.to_nat (offset h - p)) s1))) as Heq
      by (rewrite length_drop; lia).
    rewrite Heq in *. by rewrite IH.
Qed.

Lemma appended_refl w : appended w w [].
Proof.
  exists [], []. destruct w as [s hs n]. simpl. rewrite !app_nil_r.
  rewrite !len_nil. split; [f_equal; lia|]. split; [lia|done].
Qed.

Lemma appended_trans w1 w2 w3 o1 o2 :
  appended w1 w2 o1 → appended w2 w3 o2 → appended w1 w3 (o1 ++ o2).
Proof.
  intros (s1 & hs1 & -> & Hin1 & Hr1) (s2 & hs2 & -> & Hin2 & Hr2). simpl in *.
  rewrite len_app in Hin2, Hr2.
  exists (s1 ++ s2), (hs1 ++ hs2). rewrite !len_app, <- !app_assoc.
  split; [f_equal; lia|]. split.
  - replace (len (str w1) + (len s1 + len s2)) with (len (str w1) + len s1 + len s2) by lia.
    by eapply heads_in_app.
  - by rewrite render_app, Hr1, Hr2.
Qed.

Lemma append_str_appended b w :
  ∃ w', append_str b w = (Ok tt, w') ∧ appended w w' b.
Proof.
  eexists. split; [done|]. exists b, []. rewrite app_nil_r. simpl.
  pose proof (len_nonneg b). split; [f_equal; lia|]. split; [lia|done].
Qed.

Lemma writes_append_str b : writes (append_str b) b.
Proof. intros w. apply append_str_appended. Qed.

Lemma writes_seq m1 m2 o1 o2 :
  writes m1 o1 → writes m2 o2 → writes (m1;; m2) (o1 ++ o2).
Proof.
  intros H1 H2 w. destruct (H1 w) as (w1 & E1 & A1). destruct (H2 w1) as (w2 & E2 & A2).
  exists w2. unfold mbind, st_bind. rewrite E1. split; [done|].
  by eapply appended_trans.
Qed.

Lemma writes_ret : writes (mret tt) [].
Proof. intros w. eexists. split; [done|apply appended_refl]. Qed.

Lemma writes_encodeString b : len b < 2 ^ 63 → writes (encodeString b) (rlp_str b).
Proof.
  intros Hb. pose proof (len_nonneg b).
  assert (writes (encodeStringHeader (len b)) (header 128 183 (len b))) as Hh.
  { unfold encodeStringHeader, header. destruct (Z.ltb_spec (len b) 56).
    - apply writes_append_str.
    - rewrite wrap_small, putint_be, len_big_Bytes by lia. apply writes_append_str. }
  destruct b as [|c [|d b]]; unfold encodeString, rlp_str;
    [|destruct (b2z c <=? 127); [apply writes_append_str|]|];
    apply writes_seq; auto using writes_append_str.
Qed.

(** The list combinator: a header opened before [m] and closed after it. *)
Lemma list_appended w w2 h0 out :
  h0 = Listhead (len (str w)) (lhsize w) → len out < 2 ^ 63 →
  appended (Encbuf (str w) (lheads w ++ [h0]) (lhsize w)) w2 out →
  ∃ w3, encbuf_listEnd (length (lheads w)) w2 = (Ok tt, w3) ∧
        appended w w3 (rlp_list out).
Proof.
  intros -> Hout (s & hs & -> & Hin & Hr). simpl in *.
  pose proof (len_nonneg out). pose proof (len_nonneg s).
  unfold encbuf_listEnd. cbn [lheads].
  rewrite <- app_assoc. cbn [app]. rewrite list_lookup_middle by done.
  cbn [offset size]. unfold encbuf_size. cbn [str lhsize].
  replace (len (str w ++ s) + (lhsize w + len out - len s) - len (str w) - lhsize w)
    with (len out) by (rewrite len_app; lia).
  eexists. split; [done|].
  rewrite <- (Nat.add_0_r (length (lheads w))), insert_app_r. simpl.
  exists s, (Listhead (len (str w)) (len out) :: hs). unfold rlp_list. split; [|split].
  - f_equal. rewrite len_app, len_header by lia. unfold headsize.
    rewrite wrap_small by lia. destruct (len out <? 56); lia.
  - simpl. split; [lia|done].
  - simpl. rewrite Z.sub_diag. simpl. rewrite drop_0, Hr. f_equal.
    unfold listhead_encode. simpl. rewrite wrap_small by lia.
    apply puthead_header. lia.
Qed.

Lemma writes_struct m out :
  writes m out → len out < 2 ^ 63 →
  writes (lh ← encbuf_list; m;; encbuf_listEnd lh) (rlp_list out).
Proof.
  intros Hm Hout w.
  edestruct (Hm (Encbuf (str w) (lheads w ++ [Listhead (len (str w)) (lhsize w)])
    (lhsize w))) as (w2 & E2 & A2).
  destruct (list_appended w w2 _ out eq_refl Hout A2) as (w3 & E3 & A3).
  exists w3. split; [|done].
  cbv [mbind st_bind encbuf_list st_gets st_modify mret st_ret]. by rewrite E2.
Qed.

Lemma writes_slice m out :
  writes m out → len out < 2 ^ 63 →
  writes (lh ← encbuf_list; defer_listEnd lh m) (rlp_list out).
Proof.
  intros Hm Hout w. destruct (Hm (encbuf_list w).2) as (w2 & E2 & A2).
  destruct (list_appended w w2 _ out eq_refl Hout A2) as (w3 & E3 & A3).
  exists w3. split; [|done].
  cbv [mbind st_bind encbuf_list st_gets st_modify mret st_ret] in *.
  unfold defer_listEnd. simpl in E2. by rewrite E2, E3.
Qed.

Lemma writes_uint i : 0 <= i < 2 ^ 64 → writes (writeUint i) (rlp_str (big_Bytes i)).
Proof.
  intros Hi. unfold writeUint. destruct (Z.eqb_spec i 0) as [->|Hi0].
  { apply writes_append_str. }
  destruct (Z.ltb_spec i 128).
  - assert (big_Bytes i = [z2b i]) as ->.
    { unfold big_Bytes. by rewrite (bytelen_unique i 1) by (simpl; lia). }
    cbn [rlp_str]. rewrite b2z_z2b_small by lia.
    rewrite (proj2 (Z.leb_le i 127)) by lia. apply writes_append_str.
  - rewrite putint_be by lia.
    destruct (big_Bytes_head i ltac:(lia)) as (c & l & E & Hc).
    pose proof (bytelen_bound i 8 ltac:(simpl; lia)) as Hlen.
    assert (rlp_str (big_Bytes i) =
      header 128 183 (len (big_Bytes i)) ++ big_Bytes i) as ->.
    { pose proof (big_SetBytes_Bytes i ltac:(lia)) as Hv. rewrite E in *.
      destruct l; [|done]. cbn [rlp_str].
      rewrite be_val_cons, be_val_nil in Hv. cbn [length Z.of_nat Z.pow] in Hv.
      rewrite (proj2 (Z.leb_gt _ _)) by lia. done. }
    unfold header. rewrite len_big_Bytes, (proj2 (Z.ltb_lt _ 56)) by lia.
    apply writes_append_str.
Qed.

Lemma writes_bigInt i :
  0 <= i → len (big_Bytes i) < 2 ^ 63 → writes (writeBigInt i) (rlp_str (big_Bytes i)).
Proof.
  intros Hi Hl. unfold writeBigInt. rewrite (proj2 (Z.ltb_ge i 0)) by lia.
  destruct (Z.eqb_spec i 0) as [->|]; [apply writes_append_str|].
  by apply writes_encodeString.
Qed.

Lemma len_rlp_str b : len b <= len (rlp_str b).
Proof.
  destruct b as [|c [|d b]]; cbn [rlp_str];
    [|destruct (b2z c <=? 127); [done|]|]; rewrite len_app;
    match goal with |- context [len (header ?a ?b ?c)] =>
      pose proof (len_nonneg (header a b c)) end; lia.
Qed.

Lemma len_rlp_list b : len b <= len (rlp_list b).
Proof.
  unfold rlp_list. rewrite len_app. pose proof (len_nonneg (header 192 247 (len b))). lia.
Qed.

Lemma write_fix l :
  (fix write_all (l : list value) : st encbuf () :=
    match l with [] => mret tt | v :: l => write v;; write_all l end) l = write_all l.
Proof. induction l as [|v l IH]; simpl; [done|]. by rewrite IH. Qed.

Lemma writes_all l :
  Forall (λ v, value_ok v → len (value_bytes v) < 2 ^ 63 → writes (write v) (value_bytes v)) l →
  forallb value_ok l → len (concat (map value_bytes l)) < 2 ^ 63 →
  writes (write_all l) (concat (map value_bytes l)).
Proof.
  induction 1 as [|v l Hv _ IH]; simpl; intros Hok Hlen; [apply writes_ret|].
  apply andb_prop_elim in Hok as [Hok1 Hok2]. rewrite len_app in Hlen.
  pose proof (len_nonneg (value_bytes v)).
  pose proof (len_nonneg (concat (map value_bytes l))).
  apply writes_seq; [apply Hv|apply IH]; auto; lia.
Qed.

Lemma write_writes v :
  value_ok v → len (value_bytes v) < 2 ^ 63 → writes (write v) (value_bytes v).
Proof.
  induction v as [b|i|b|[i|]|b|tail l IH|l IH|k|] using value_ind'; intros Hok Hlen;
    cbn [write value_bytes value_ok] in *; rewrite ?write_fix.
  - apply writes_append_str.
  - apply Is_true_true, andb_prop in Hok as [? ?]. apply writes_uint. lia.
  - destruct b; apply writes_append_str.
  - apply Is_true_true in Hok. pose proof (len_rlp_str (big_Bytes i)).
    apply writes_bigInt; lia.
  - apply writes_append_str.
  - pose proof (len_rlp_str b). apply writes_encodeString. lia.
  - destruct tail; [by apply writes_all|].
    pose proof (len_rlp_list (concat (map value_bytes l))).
    apply writes_slice; [apply writes_all; auto|]; lia.
  - pose proof (len_rlp_list (concat (map value_bytes l))).
    apply writes_struct; [apply writes_all; auto|]; lia.
  - destruct k; try apply writes_append_str;
      exact (writes_struct (mret tt) [] writes_ret eq_refl).
  - apply writes_append_str.
Qed.

(** ** Assembling the output *)

Lemma splice_here {A} (d o s : list A) :
  (length s <= length o)%nat → splice (d ++ o) (length d) s = (d ++ s) ++ drop (length s) o.
Proof.
  intros Hs. rewrite <- (take_drop (length s) o) at 1. rewrite <- app_assoc.
  apply splice_app; [done|]. rewrite length_take. lia.
Qed.

Lemma copy_at_here d o s p :
  p = len d → (length s <= length o)%nat →
  copy_at (d ++ o) p s = ((d ++ s) ++ drop (length s) o, len s).
Proof.
  intros -> Hs. unfold copy_at. rewrite len_app.
  replace (Z.min _ _) with (len s) by (unfold len; lia).
  unfold len. rewrite !Nat2Z.id, firstn_all. by rewrite splice_here.
Qed.

Lemma put_header_here d o e p :
  p = len d → (length e <= length o)%nat →
  put_header (d ++ o) p e = Ok ((d ++ e) ++ drop (length e) o).
Proof.
  intros -> He. unfold put_header. rewrite len_app.
  rewrite (proj2 (Z.leb_le _ _)) by (unfold len; lia).
  unfold len. by rewrite Nat2Z.id, splice_here.
Qed.

(** The string data before a header. *)
Lemma split_at_offset (ds s : list byte) off :
  len ds <= off <= len ds + len s → ∃ s1 s2, s = s1 ++ s2 ∧ off = len (ds ++ s1).
Proof.
  intros Hoff. exists (take (Z.to_nat (off - len ds)) s), (drop (Z.to_nat (off - len ds)) s).
  split; [by rewrite take_drop|]. rewrite len_app.
  unfold len in *. rewrite length_take. lia.
Qed.

(** With room for exactly the rendered pieces, [toBytes_loop] fills the buffer
    with them. *)
Lemma toBytes_loop_render heads ds s d out sp p :
  heads_in (len ds) (len ds + len s) heads → sp = len ds → p = len d →
  length out = length (render (len ds) heads s) →
  toBytes_loop heads (ds ++ s) (d ++ out) sp p = Ok (d ++ render (len ds) heads s).
Proof.
  revert ds s d out sp p.
  induction heads as [|h heads IH]; intros ds s d out sp p Hin -> -> Hlen;
    cbn [toBytes_loop render] in *.
  - pose proof (slice_app ds s [] _ _ eq_refl eq_refl) as Hsl.
    rewrite app_nil_r in Hsl. rewrite len_app, Hsl.
    cbn [mbind outcome_bind]. rewrite copy_at_here by lia. cbn [fst].
    rewrite drop_ge by lia. by rewrite app_nil_r.
  - destruct Hin as [Hp Hin]. pose proof (heads_in_le _ _ _ Hin).
    destruct (split_at_offset ds s (offset h)) as (s1 & s2 & -> & Ho); [lia|].
    pose proof (len_app ds s1) as Hds.
    rewrite take_app_exact, drop_app_exact in * by (unfold len in *; lia).
    rewrite slice_app by lia. cbn [mbind outcome_bind].
    rewrite !length_app in Hlen. rewrite copy_at_here by lia.
    rewrite put_header_here by (rewrite ?length_drop, ?len_app; lia).
    cbn [mbind outcome_bind]. rewrite (app_assoc ds), Ho.
    rewrite IH; rewrite ?len_app, ?length_drop, <- ?app_assoc; try lia; try done.
    + rewrite Ho, !len_app in Hin.
      by replace (len ds + len s1 + len s2) with (len ds + (len s1 + len s2)) by lia.
    + rewrite Ho, Hds in Hlen. lia.
Qed.

Lemma toBytes_appended w out : appended encbuf_reset w out → toBytes w = Ok out.
Proof.
  intros (s & hs & -> & Hin & Hr). simpl in *.
  unfold toBytes, encbuf_size. cbn [lheads str lhsize].
  set (buf := replicate _ _).
  assert (length buf = length (render 0 hs s)) as Hl.
  { unfold buf. rewrite length_replicate. change 0 with (len (@nil byte)) at 2.
    rewrite Hr. unfold len. lia. }
  rewrite <- Hr. exact (toBytes_loop_render hs [] s [] buf 0 0 Hin eq_refl eq_refl Hl).
Qed.

Lemma value_bytes_items v its :
  value_items v = Some its → value_bytes v = concat (map rlp its).
Proof.
  revert its. induction v as [b|i|b|[i|]|b|tail l IH|l IH|k|] using value_ind';
    intros its; cbn [value_items value_bytes]; intros Heq.
  all: try (simplify_eq; simpl; by rewrite ?app_nil_r).
  3: by destruct k; simplify_eq; simpl; rewrite ?app_nil_r.
  all: destruct (mapM value_items l) as [itss|] eqn:E; simplify_eq/=;
    assert (concat (map value_bytes l) = concat (map rlp (concat itss))) as Hall;
    [|try destruct tail; simpl; rewrite ?app_nil_r; by rewrite Hall].
  all: apply mapM_Some in E; induction E as [|v its' l itss Hv _ IHl]; [done|];
    apply Forall_cons in IH as [? ?]; simpl;
    rewrite map_app, concat_app; f_equal; auto.
Qed.

(** ** raw.go *)

Lemma read_be_val acc b :
  0 <= acc → acc * 256 ^ len b + be_val b < 2 ^ 64 →
  read_be acc b = acc * 256 ^ len b + be_val b.
Proof.
  revert acc; induction b as [|c b IH]; intros acc Hacc Hlt.
  - cbn [read_be]. rewrite be_val_nil. unfold len. simpl. lia.
  - cbn [read_be]. rewrite be_val_cons in *. rewrite len_cons in *.
    pose proof (len_nonneg b). pose proof (b2z_range c). pose proof (be_val_range b).
    assert (0 < 256 ^ len b) by (apply Z.pow_pos_nonneg; lia).
    rewrite Z.pow_add_r in * by lia. change (256 ^ 1) with 256 in *. fold (len b) in *.
    assert (wrap 64 (Z.shiftl acc 8) = acc * 256) as Hs.
    { rewrite Z.shiftl_mul_pow2 by lia. apply wrap_small. change (2 ^ 8) with 256. nia. }
    assert (Z.lor (u64 (Z.shiftl acc 8)) (b2z c) = acc * 256 + b2z c) as ->.
    { rewrite Hs. change 256 with (2 ^ 8). rewrite <- Z.shiftl_mul_pow2 by lia.
      by rewrite lor_shiftl_add, Z.shiftl_mul_pow2 by lia. }
    rewrite IH; nia.
Qed.

Lemma read_be_0 b : (length b <= 8)%nat → read_be 0 b = be_val b.
Proof.
  intros Hb. pose proof (be_val_range b).
  assert (256 ^ Z.of_nat (length b) <= 256 ^ 8) by (apply Z.pow_le_mono_r; lia).
  rewrite read_be_val; lia.
Qed.

Lemma readSize_Ok b n s :
  1 <= n <= 8 →
  readSize b n = Ok s ↔
  ∃ rest, b = big_Bytes s ++ rest ∧ Z.of_nat (bytelen s) = n ∧ 56 <= s.
Proof.
  intros Hn. unfold readSize. split.
  - destruct (Z.ltb_spec (len b) n); [done|]. unfold len in *.
    set (l := take (Z.to_nat n) b).
    assert (length l = Z.to_nat n) as Hl by (unfold l; rewrite length_take; lia).
    rewrite read_be_0 by lia.
    destruct (_ || _) eqn:E; [done|]. intros [= <-].
    apply orb_false_elim in E as [E1 E2].
    assert (big_Bytes (be_val l) = l) as Hb.
    { destruct b as [|c b]; [simpl in *; lia|]. unfold l in *.
      destruct (Z.to_nat n) as [|m] eqn:En; [lia|]. cbn [take hd] in *.
      apply big_Bytes_be_val. lia. }
    exists (drop (Z.to_nat n) b). rewrite Hb, <- length_big_Bytes, Hb.
    split; [unfold l; by rewrite take_drop|]. split; [lia|]. lia.
  - intros (rest & -> & <- & Hs). rewrite len_app, len_big_Bytes, Nat2Z.id.
    pose proof (len_nonneg rest). rewrite (proj2 (Z.ltb_ge _ _)) by lia.
    rewrite take_app_exact by (by rewrite length_big_Bytes).
    rewrite read_be_0 by (rewrite length_big_Bytes; lia).
    rewrite big_SetBytes_Bytes by lia.
    destruct (big_Bytes_head s ltac:(lia)) as (c & l & -> & Hc).
    cbn [hd app]. rewrite (proj2 (Z.ltb_ge _ _)), (proj2 (Z.eqb_neq _ _)) by lia. done.
Qed.

Lemma readSize_not_panic b n m : readSize b n ≠ Panic m.
Proof. unfold readSize. destruct (_ <? _); [done|]. by destruct (_ || _). Qed.

(** The end of [readKind]: the content fits in the input. *)
Lemma content_fits (hdr rest : list byte) cs :
  0 <= cs → len (hdr ++ rest) < 2 ^ 63 →
  (u64 (len (hdr ++ rest) - len hdr) <? cs) = false →
  ∃ c rest', rest = c ++ rest' ∧ len c = cs.
Proof.
  intros Hcs Hlen. rewrite len_app in *. pose proof (len_nonneg hdr).
  pose proof (len_nonneg rest). rewrite wrap_small by lia.
  intros Hfit%Z.ltb_ge. exists (take (Z.to_nat cs) rest), (drop (Z.to_nat cs) rest).
  split; [by rewrite take_drop|]. unfold len in *. rewrite length_take. lia.
Qed.

Lemma content_fits_iff (hdr c rest : list byte) ts cs :
  ts = len hdr → cs = len c → len (hdr ++ c ++ rest) < 2 ^ 63 →
  (u64 (len (hdr ++ c ++ rest) - ts) <? cs) = false.
Proof.
  intros -> -> Hlen. rewrite !len_app in *. pose proof (len_nonneg hdr).
  pose proof (len_nonneg c). pose proof (len_nonneg rest).
  rewrite wrap_small by lia. apply Z.ltb_ge. lia.
Qed.

Lemma z2b_eq (b : byte) (z : Z) : b2z b = z → z2b z = b.
Proof. intros <-. apply z2b_b2z. Qed.

Lemma is_byte_long c : len c <> 1 → is_byte c = false.
Proof. destruct c as [|x [|y c]]; done. Qed.

Lemma readKind_sound buf k ts cs :
  len buf < 2 ^ 63 → readKind buf = Ok (k, ts, cs) →
  ∃ c rest, buf = kind_header k (len c) ++ c ++ rest ∧ kind_ok k c = true ∧
            cs = len c ∧ ts = len (kind_header k (len c)).
Proof.
  intros Hlen. destruct buf as [|x buf]; [done|]. unfold readKind.
  intros (((k' & ts') & cs') & Hhd & Hfit)%outcome_bind_Ok.
  destruct (u64 _ <? cs') eqn:Efit; [done|]. injection Hfit as -> -> ->.
  pose proof (b2z_range x).
  destruct (Z.ltb_spec (b2z x) 0x80).
  { injection Hhd as <- <- <-. exists [x], buf. simpl.
    rewrite (proj2 (Z.ltb_lt _ _)) by lia. done. }
  destruct (Z.ltb_spec (b2z x) 0xB8).
  { destruct (_ && _) eqn:Ec; [done|]. injection Hhd as <- <- <-.
    destruct (content_fits [x] buf (b2z x - 128) ltac:(lia) Hlen Efit) as (c & rest & -> & Hc).
    exists c, rest. rewrite Hc. cbn [kind_header kind_ok]. unfold header.
    rewrite (proj2 (Z.ltb_lt _ _)), (z2b_eq x) by lia. split; [done|].
    split; [|done]. destruct c as [|y [|? ?]]; try done. cbn [is_byte app hd] in *.
    rewrite !len_cons in *. rewrite len_nil in Hc. pose proof (len_nonneg rest).
    destruct (b2z y <? 128); [|done]. lia. }
  assert (∀ t l, l <= 247 → 1 <= b2z x - l <= 8 → readSize buf (b2z x - l) = Ok cs →
    ts = b2z x - l + 1 → ∃ c rest, x :: buf = header t l (len c) ++ c ++ rest ∧
    is_byte c = false ∧ cs = len c ∧ ts = len (header t l (len c))) as Hlong.
  { intros t l Hl Hr (rest & -> & Hbl & Hsz)%readSize_Ok ->; [|done].
    assert (b2z x - l + 1 = len (x :: big_Bytes cs)) as Hts
      by (rewrite len_cons, len_big_Bytes; lia).
    rewrite Hts in Efit.
    destruct (content_fits (x :: big_Bytes cs) rest cs ltac:(lia) Hlen Efit)
      as (c & rest' & -> & Hc).
    exists c, rest'. rewrite Hc. unfold header. rewrite (proj2 (Z.ltb_ge _ _)) by lia.
    rewrite (z2b_eq x) by lia. split; [done|]. split; [apply is_byte_long; lia|].
    split; [done|]. lia. }
  destruct (Z.ltb_spec (b2z x) 0xC0).
  { apply outcome_bind_Ok in Hhd as (sz & Hs & [= <- <- <-]).
    destruct (Hlong 128 183) as (c & rest & -> & Hb & ?); auto; [lia..|].
    exists c, rest. cbn [kind_ok]. by rewrite Hb. }
  destruct (Z.ltb_spec (b2z x) 0xF8).
  { injection Hhd as <- <- <-.
    destruct (content_fits [x] buf (b2z x - 192) ltac:(lia) Hlen Efit) as (c & rest & -> & Hc).
    exists c, rest. rewrite Hc. cbn [kind_header kind_ok]. unfold header.
    by rewrite (proj2 (Z.ltb_lt _ _)), (z2b_eq x) by lia. }
  apply outcome_bind_Ok in Hhd as (sz & Hs & [= <- <- <-]).
  destruct (Hlong 192 247) as (c & rest & -> & Hb & ?); auto; [lia..|].
  by exists c, rest.
Qed.

Lemma header_long_byte l n :
  56 <= n < 2 ^ 64 → 183 <= l <= 247 → b2z (z2b (l + Z.of_nat (bytelen n))) = l + Z.of_nat (bytelen n) ∧
  1 <= Z.of_nat (bytelen n) <= 8.
Proof.
  intros Hn Hl. pose proof (bytelen_bound n 8 ltac:(simpl; lia)).
  pose proof (bytelen_pos n ltac:(lia)). rewrite b2z_z2b_small; lia.
Qed.

(** Decides the comparisons of a header byte with the tag ranges. *)
Ltac decide_tag :=
  repeat first [rewrite (proj2 (Z.ltb_lt _ _)) by lia | rewrite (proj2 (Z.ltb_ge _ _)) by lia].

Lemma not_single_byte c rest n x :
  is_byte c = false → n = len c →
  (n =? 1) && (1 <? len (x :: c ++ rest)) && (b2z (hd Byte.x00 (c ++ rest)) <? 128) = false.
Proof.
  intros Hc ->. destruct c as [|y [|? c]]; [done|..].
  - cbn [is_byte app hd] in *. rewrite Hc. apply andb_false_r.
  - rewrite !len_cons. pose proof (len_nonneg c). by rewrite (proj2 (Z.eqb_neq _ _)) by lia.
Qed.

Lemma readKind_complete k c rest :
  kind_ok k c = true → len (kind_header k (len c) ++ c ++ rest) < 2 ^ 63 →
  readKind (kind_header k (len c) ++ c ++ rest)
    = Ok (k, len (kind_header k (len c)), len c).
Proof.
  intros Hok Hlen. pose proof (len_nonneg c).
  pose proof (λ ts cs H1 H2, content_fits_iff _ c rest ts cs H1 H2 Hlen) as Hfit.
  assert (len c < 2 ^ 63) as Hc by
    (rewrite !len_app in Hlen; pose proof (len_nonneg rest);
     pose proof (len_nonneg (kind_header k (len c))); lia).
  clear Hlen. destruct k; cbn [kind_ok kind_header] in *; unfold header in *.
  - destruct c as [|x [|? ?]]; try done. cbn [app is_byte readKind] in *.
    rewrite Hok. cbn [mbind outcome_bind mret outcome_ret]. by rewrite Hfit.
  - apply negb_true_iff in Hok. destruct (Z.ltb_spec (len c) 56).
    + cbn [app readKind] in *. rewrite b2z_z2b_small by lia. decide_tag.
      rewrite not_single_byte by (done || lia).
      cbn [mbind outcome_bind mret outcome_ret].
      rewrite Hfit by (done || lia). by rewrite Z.add_simpl_l.
    + destruct (header_long_byte 183 (len c)) as [Hb Hr]; [lia..|].
      cbn [app readKind] in *. rewrite Hb. decide_tag. rewrite Z.add_simpl_l.
      rewrite (proj2 (readSize_Ok _ _ (len c) Hr)) by eauto.
      cbn [mbind outcome_bind mret outcome_ret].
      rewrite Hfit by (rewrite ?len_cons, ?len_big_Bytes; lia).
      rewrite len_cons, len_big_Bytes. do 3 f_equal. lia.
  - destruct (Z.ltb_spec (len c) 56).
    + cbn [app readKind] in *. rewrite b2z_z2b_small by lia. decide_tag.
      cbn [mbind outcome_bind mret outcome_ret].
      rewrite Hfit by (done || lia). by rewrite Z.add_simpl_l.
    + destruct (header_long_byte 247 (len c)) as [Hb Hr]; [lia..|].
      cbn [app readKind] in *. rewrite Hb. decide_tag. rewrite Z.add_simpl_l.
      rewrite (proj2 (readSize_Ok _ _ (len c) Hr)) by eauto.
      cbn [mbind outcome_bind mret outcome_ret].
      rewrite Hfit by (rewrite ?len_cons, ?len_big_Bytes; lia).
      rewrite len_cons, len_big_Bytes. do 3 f_equal. lia.
Qed.

Lemma readKind_not_panic b m : readKind b ≠ Panic m.
Proof.
  destruct b as [|x b]; [done|]. cbn [readKind].
  match goal with |- context [mbind _ ?e] => set (hd := e) end.
  assert (∀ m, hd ≠ Panic m) as Hhd.
  { intros m'. unfold hd. repeat case_match; try done;
      match goal with |- context [readSize ?b ?n] =>
        pose proof (readSize_not_panic b n); destruct (readSize b n); naive_solver end. }
  destruct hd as [[[k ts] cs]| |]; simpl; [case_match; done|done|naive_solver].
Qed.

Lemma len_suffix_pos k c : kind_ok k c = true → 1 <= len (kind_bytes (k, c)).
Proof.
  unfold kind_bytes. cbn [fst snd]. rewrite len_app. pose proof (len_nonneg c).
  destruct k; cbn [kind_ok kind_header]; intros Hok.
  - by destruct c as [|x [|? ?]].
  - unfold header. case_match; rewrite ?len_cons, ?len_nil, ?len_big_Bytes; lia.
  - unfold header. case_match; rewrite ?len_cons, ?len_nil, ?len_big_Bytes; lia.
Qed.

(** The slice expressions of the callers of [readKind]. *)
Lemma split_slices (h c rest : list byte) :
  len (h ++ c ++ rest) < 2 ^ 63 →
  slice (h ++ c ++ rest) (len h) (u64 (len h + len c)) = Ok c ∧
  slice (h ++ c ++ rest) (u64 (len h + len c)) (len (h ++ c ++ rest)) = Ok rest.
Proof.
  intros Hlen. rewrite !len_app in *. pose proof (len_nonneg h).
  pose proof (len_nonneg c). pose proof (len_nonneg rest).
  rewrite wrap_small by lia. split; [by apply slice_app|].
  pose proof (slice_app (h ++ c) rest [] _ _ eq_refl eq_refl) as Hs.
  rewrite app_nil_r, len_app, <- app_assoc in Hs. rewrite <- Hs. f_equal. lia.
Qed.

(** The slice expressions of the callers of [readKind] take the value and the
    rest apart. *)
Lemma readKind_cases b :
  len b < 2 ^ 63 →
  (∃ e, readKind b = Err e) ∨
  (∃ k c rest, b = kind_header k (len c) ++ c ++ rest ∧ kind_ok k c = true ∧
    readKind b = Ok (k, len (kind_header k (len c)), len c)).
Proof.
  intros Hlen. destruct (readKind b) as [[[k ts] cs]|e|m] eqn:E; [|eauto|].
  2:{ by apply readKind_not_panic in E. }
  apply readKind_sound in E as (c & rest & -> & Hok & -> & ->); eauto 10.
Qed.

Theorem Split_correct (b : list byte) (k : Kind) (content rest : list byte) :
  len b < 2 ^ 63 →
  Split b = Ok (k, content, rest) ↔
  b = kind_header k (len content) ++ content ++ rest ∧ kind_ok k content = true.
Proof.
  intros Hlen. unfold Split. split.
  - destruct (readKind_cases b Hlen) as [[e ->]|(k' & c & r & -> & Hok & ->)]; [done|].
    destruct (split_slices _ _ _ Hlen) as [H1 H2].
    cbn [mbind outcome_bind]. rewrite H1. cbn [mbind outcome_bind]. rewrite H2.
    by intros [= -> -> ->].
  - intros [-> Hok]. rewrite readKind_complete by done.
    destruct (split_slices _ _ _ Hlen) as [H1 H2].
    cbn [mbind outcome_bind]. rewrite H1. cbn [mbind outcome_bind]. by rewrite H2.
Qed.

Lemma Split_correct_witness :
  Split [Byte.x82; Byte.x61; Byte.x62; Byte.x01] = Ok (KString, [Byte.x61; Byte.x62], [Byte.x01]).
Proof.
  apply (proj2 (Split_correct [Byte.x82; Byte.x61; Byte.x62; Byte.x01] KString [Byte.x61; Byte.x62] [Byte.x01]
    ltac:(reflexivity))).
  split; reflexivity.
Defined.

(** Unique decodability. *)
Lemma kind_bytes_inj k c rest k' c' rest' :
  kind_ok k c = true → kind_ok k' c' = true →
  len (kind_bytes (k, c) ++ rest) < 2 ^ 63 →
  kind_bytes (k, c) ++ rest = kind_bytes (k', c') ++ rest' →
  k = k' ∧ c = c' ∧ rest = rest'.
Proof.
  unfold kind_bytes. cbn [fst snd]. rewrite <- !app_assoc. intros Hok Hok' Hlen Heq.
  pose proof (readKind_complete k c rest Hok Hlen) as H1.
  rewrite Heq in H1, Hlen. rewrite readKind_complete in H1 by done.
  injection H1 as -> _ Hc. rewrite <- Hc in Heq. apply app_inv_head in Heq.
  apply app_inj_1 in Heq as [-> ->]; [done|]. unfold len in Hc. lia.
Qed.

Lemma concat_kind_bytes_inj vs vs' :
  Forall (λ kc, kind_ok kc.1 kc.2 = true) vs → Forall (λ kc, kind_ok kc.1 kc.2 = true) vs' →
  len (concat (map kind_bytes vs)) < 2 ^ 63 →
  concat (map kind_bytes vs) = concat (map kind_bytes vs') → vs = vs'.
Proof.
  intros Hvs. revert vs'. induction Hvs as [|[k c] vs Hok Hvs IH]; intros vs' Hvs' Hlen Heq.
  - destruct Hvs' as [|[k c] vs' Hok]; [done|]. pose proof (len_suffix_pos k c Hok).
    apply (f_equal len) in Heq. cbn [map concat] in Heq. rewrite len_app, len_nil in Heq.
    pose proof (len_nonneg (concat (map kind_bytes vs'))). lia.
  - destruct Hvs' as [|[k' c'] vs' Hok' Hvs'].
    { pose proof (len_suffix_pos k c Hok). apply (f_equal len) in Heq.
      cbn [map concat] in Heq. rewrite len_app, len_nil in Heq.
      pose proof (len_nonneg (concat (map kind_bytes vs))). lia. }
    cbn [map concat] in *. apply kind_bytes_inj in Heq as (-> & -> & Heq); [|done..].
    f_equal. apply IH; [done| |done]. rewrite len_app in Hlen.
    pose proof (len_nonneg (kind_bytes (k', c'))). lia.
Qed.

Lemma CountValues_loop_spec fuel i b :
  len b < 2 ^ 63 → (length b <= fuel)%nat →
  (∃ e, CountValues_loop fuel i b = Err e ∧
    ∀ vs, Forall (λ kc, kind_ok kc.1 kc.2 = true) vs → b ≠ concat (map kind_bytes vs)) ∨
  (∃ vs, Forall (λ kc, kind_ok kc.1 kc.2 = true) vs ∧ b = concat (map kind_bytes vs) ∧
    CountValues_loop fuel i b = Ok (i + len vs)).
Proof.
  revert i b; induction fuel as [|fuel IH]; intros i b Hlen Hf.
  { destruct b; [|simpl in Hf; lia]. right. exists []. simpl. rewrite len_nil, Z.add_0_r. auto. }
  destruct b as [|x b].
  { right. exists []. simpl. rewrite len_nil, Z.add_0_r. auto. }
  cbn [CountValues_loop].
  destruct (readKind_cases _ Hlen) as [[e He]|(k & c & r & Hb & Hok & Hrk)].
  - left. exists e. rewrite He. split; [done|]. intros [|[k c] vs] Hvs Heq; [done|].
    apply Forall_cons in Hvs as [Hok Hvs]. cbn [map concat] in Heq.
    unfold kind_bytes in Heq at 1. cbn [fst snd] in Heq, Hok.
    rewrite Heq, <- app_assoc, readKind_complete in He; [done|done|].
    by rewrite app_assoc, <- Heq.
  - rewrite Hrk. cbn [mbind outcome_bind]. 
    pose proof (len_suffix_pos k c Hok) as Hpos. unfold kind_bytes in Hpos. cbn [fst snd] in Hpos.
    rewrite Hb in Hlen, Hf |- *. destruct (split_slices _ _ _ Hlen) as [_ ->].
    cbn [mbind outcome_bind]. 
    rewrite !len_app in *. rewrite !length_app in Hf.
    pose proof (len_nonneg (kind_header k (len c))). pose proof (len_nonneg c).
    destruct (IH (i + 1) r) as [(e & -> & Hno)|(vs & Hvs & -> & ->)];
      [lia|unfold len in *; lia|left|right].
    + exists e. split; [done|]. intros [|[k' c'] vs] Hvs Heq.
      { destruct (kind_header k (len c)), c; simpl in *; done || (rewrite ?len_nil in *; lia). }
      apply Forall_cons in Hvs as [Hok' Hvs]. cbn [map concat fst snd] in Heq, Hok'.
      rewrite app_assoc in Heq. apply (kind_bytes_inj k c) in Heq as (-> & -> & ->);
        [by apply (Hno vs)|done..|].
      unfold kind_bytes. cbn [fst snd]. rewrite !len_app. lia.
    + exists ((k, c) :: vs). cbn [map concat]. unfold kind_bytes at 2. cbn [fst snd].
      rewrite len_cons, <- app_assoc. split; [auto|]. split; [done|]. f_equal. lia.
Qed.

Theorem CountValues_correct (b : list byte) :
  len b < 2 ^ 63 →
  (∀ m, CountValues b ≠ Panic m) ∧
  ∀ n, CountValues b = Ok n ↔
    ∃ vs, Forall (λ kc, kind_ok kc.1 kc.2 = true) vs ∧
          b = concat (map kind_bytes vs) ∧ n = len vs.
Proof.
  intros Hlen. unfold CountValues.
  destruct (CountValues_loop_spec (length b) 0 b Hlen ltac:(lia))
    as [(e & -> & Hno)|(vs & Hvs & Hb & ->)].
  - split; [done|]. intros n. split; [done|]. intros (vs & Hvs & Hb & _). by destruct (Hno vs).
  - split; [done|]. intros n. split; [intros [= <-]; eauto|].
    intros (vs' & Hvs' & Hb' & ->). 
    by rewrite (concat_kind_bytes_inj vs vs') by congruence.
Qed.

Lemma CountValues_correct_witness : CountValues [Byte.x01; Byte.x82; Byte.x61; Byte.x62; Byte.xc0] = Ok 3.
Proof.
  apply (proj2 (proj2 (CountValues_correct [Byte.x01; Byte.x82; Byte.x61; Byte.x62; Byte.xc0] ltac:(reflexivity)) 3)).
  exists [(KByte, [Byte.x01]); (KString, [Byte.x61; Byte.x62]); (KList, [])].
  split; [repeat constructor | split; reflexivity].
Defined.

(** ** Items *)

Lemma rlp_str_kind c : rlp_str c = kind_bytes (if is_byte c then KByte else KString, c).
Proof.
  unfold kind_bytes. cbn [fst snd]. destruct c as [|x [|y c]]; try done. simpl.
  destruct (Z.leb_spec (b2z x) 127), (Z.ltb_spec (b2z x) 128); (lia || done).
Qed.

Lemma rlp_kind it :
  ∃ k c, rlp it = kind_bytes (k, c) ∧ kind_ok k c = true ∧
    match it with Str b => k ≠ KList ∧ c = b | Lst l => k = KList ∧ c = concat (map rlp l) end.
Proof.
  destruct it as [c|l].
  - exists (if is_byte c then KByte else KString), c. cbn [rlp]. rewrite rlp_str_kind.
    split; [done|]. destruct (is_byte c) eqn:E; simpl; by rewrite E.
  - by exists KList, (concat (map rlp l)).
Qed.

Lemma rlp_nonempty it : 1 <= len (rlp it).
Proof. destruct (rlp_kind it) as (k & c & -> & Hok & _). by apply len_suffix_pos. Qed.

Lemma rlp_concat_inj its : Forall (λ it, ∀ it' r r', len (rlp it ++ r) < 2 ^ 63 →
    rlp it ++ r = rlp it' ++ r' → it = it' ∧ r = r') its → ∀ its',
  len (concat (map rlp its)) < 2 ^ 63 →
  concat (map rlp its) = concat (map rlp its') → its = its'.
Proof.
  induction 1 as [|it its Hit _ IH]; intros [|it' its'] Hlen Heq; cbn [map concat] in *.
  - done.
  - apply (f_equal len) in Heq. rewrite len_app, len_nil in Heq. pose proof (rlp_nonempty it').
    pose proof (len_nonneg (concat (map rlp its'))). lia.
  - apply (f_equal len) in Heq. rewrite len_app, len_nil in Heq. pose proof (rlp_nonempty it).
    pose proof (len_nonneg (concat (map rlp its))). lia.
  - apply Hit in Heq as [-> Heq]; [|done]. f_equal. apply IH; [|done].
    rewrite len_app in Hlen. pose proof (rlp_nonempty it'). lia.
Qed.

(** The encoding of items is uniquely decodable, also with data after it. *)
Lemma rlp_inj it it' r r' :
  len (rlp it ++ r) < 2 ^ 63 → rlp it ++ r = rlp it' ++ r' → it = it' ∧ r = r'.
Proof.
  revert it' r r'. induction it as [b|l IH] using item_ind'; intros it' r r' Hlen Heq.
  all: match goal with |- ?it = _ ∧ _ =>
    destruct (rlp_kind it) as (k & c & Hr & Hok & Hk) end.
  all: destruct (rlp_kind it') as (k' & c' & Hr' & Hok' & Hk').
  all: rewrite Hr, Hr' in Heq; rewrite Hr in Hlen.
  all: apply kind_bytes_inj in Heq as (-> & -> & ->); [|done..].
  all: destruct it' as [b'|l']; destruct Hk as [Hk1 Hk2], Hk' as [Hk1' Hk2'];
    try (split; congruence).
  split; [|done]. f_equal. apply rlp_concat_inj; [done| |congruence].
  unfold kind_bytes in Hlen. cbn [fst snd] in Hlen. rewrite !len_app in Hlen.
  pose proof (len_nonneg r'). pose proof (len_nonneg (kind_header k' (len c'))).
  rewrite <- Hk2. lia.
Qed.

(** ** Writing to an [io.Writer] *)

(** A writer that takes all it is given: a buffer, a hasher, a byte counter. *)
Record accepting {W} (write : list byte → st W Z) (acc : W → list byte → W) : Prop := {
  accepting_write : ∀ b w, write b w = (Ok (len b), acc w b);
  accepting_nil : ∀ w, acc w [] = w;
  accepting_app : ∀ w b1 b2, acc w (b1 ++ b2) = acc (acc w b1) b2;
}.

Lemma buffer_write_accepting : accepting buffer_write (λ buf b, buf ++ b).
Proof. split; [done| |]; intros; by rewrite ?app_nil_r, ?app_assoc. Qed.

Section Writer.
Context {W} (out : list byte → st W Z) (acc : W → list byte → W) (Hacc : accepting out acc).

Lemma toWriter_loop_render heads ds s sp w :
  heads_in (len ds) (len ds + len s) heads → sp = len ds →
  toWriter_loop out heads (ds ++ s) sp w = (Ok tt, acc w (render (len ds) heads s)).
Proof.
  destruct Hacc as [Hw Hnil Happ]. revert ds s sp w.
  induction heads as [|h heads IH]; intros ds s sp w Hin ->; cbn [toWriter_loop render].
  - rewrite len_app. pose proof (len_nonneg s). destruct (Z.ltb_spec (len ds) (len ds + len s)).
    + pose proof (slice_app ds s [] _ _ eq_refl eq_refl) as Hsl. rewrite app_nil_r in Hsl.
      rewrite Hsl. cbv [mbind st_bind st_lift]. by rewrite Hw.
    + destruct s; [|rewrite len_cons in *; pose proof (len_nonneg s); lia].
      by rewrite Hnil.
  - destruct Hin as [Hp Hin]. pose proof (heads_in_le _ _ _ Hin).
    destruct (split_at_offset ds s (offset h)) as (s1 & s2 & -> & Ho); [lia|].
    pose proof (len_app ds s1) as Hds.
    rewrite take_app_exact, drop_app_exact by (unfold len in *; lia).
    assert (∀ w, toWriter_loop out heads (ds ++ s1 ++ s2) (offset h) w
      = (Ok tt, acc w (render (offset h) heads s2))) as Hrec.
    { intros w'. rewrite app_assoc, Ho. apply IH; [|done]. rewrite <- Ho.
      rewrite !len_app in *. by replace (offset h + len s2)
        with (len ds + (len s1 + len s2)) by lia. }
    rewrite !Happ. cbv [mbind st_bind].
    destruct (Z.ltb_spec 0 (offset h - len ds)).
    + rewrite slice_app by lia. cbv [st_lift mret st_ret].
      rewrite !Hw. replace (len ds + len s1) with (offset h) by lia. apply Hrec.
    + destruct s1; [|rewrite len_cons in *; pose proof (len_nonneg s1); lia].
      cbv [mret st_ret]. rewrite Hw, Hnil. replace (len ds) with (offset h); [apply Hrec|].
      by rewrite app_nil_r in Ho.
Qed.

Lemma Encode_accepting v w :
  value_ok v = true → len (value_bytes v) < 2 ^ 63 →
  Encode out v w = (Ok tt, acc w (value_bytes v)).
Proof.
  intros Hok Hlen. unfold Encode, toWriter.
  destruct (write_writes v ltac:(by rewrite Hok) Hlen encbuf_reset) as (eb & -> & s & hs & -> & Hin & Hr).
  rewrite <- Hr. exact (toWriter_loop_render hs [] s 0 w Hin eq_refl).
Qed.
End Writer.

Lemma EncodeToBytes_bytes v :
  value_ok v = true → len (value_bytes v) < 2 ^ 63 → EncodeToBytes v = Ok (value_bytes v).
Proof.
  intros Hok Hlen. unfold EncodeToBytes.
  destruct (write_writes v ltac:(by rewrite Hok) Hlen encbuf_reset) as (w & -> & Ha).
  by apply toBytes_appended.
Qed.

(** C36: The RLP encoder with its buffer of strings and list headers produces the RLP of the value's
    items, both as a byte slice and through a writer in pieces. *)
Theorem Encode_refines {W} (out : list byte → st W Z) (acc : W → list byte → W)
    (v : value) (its : list item) (w : W) :
  accepting out acc → value_ok v = true → value_items v = Some its →
  len (concat (map rlp its)) < 2 ^ 63 →
  EncodeToBytes v = Ok (concat (map rlp its)) ∧
  Encode out v w = (Ok tt, acc w (concat (map rlp its))).
Proof.
  intros Hacc Hok Hits Hlen. rewrite <- (value_bytes_items v its Hits) in *.
  split; [by apply EncodeToBytes_bytes|by apply Encode_accepting].
Qed.

Lemma Encode_refines_witness :
  let v := VStruct [VUint 1024; VSlice false [VBytes [Byte.x07]; VBool false]] in
  let b := [Byte.xc6; Byte.x82; Byte.x04; Byte.x00; Byte.xc2; Byte.x07; Byte.x80] in
  EncodeToBytes v = Ok b ∧ Encode buffer_write v [] = (Ok tt, b).
Proof.
  exact (Encode_refines buffer_write (λ buf b, buf ++ b)
    (VStruct [VUint 1024; VSlice false [VBytes [Byte.x07]; VBool false]])
    [Lst [Str [Byte.x04; Byte.x00]; Lst [Str [Byte.x07]; Str []]]] []
    buffer_write_accepting eq_refl eq_refl ltac:(reflexivity)).
Defined.
