(* ===== verification/RlpStream.v ===== *)
(** RLP decoding, src/l2geth/rlp/decode.go.

    [Stream] is the decoder over a [bytes.Reader]: the rest of the input, the
    bytes left under the input limit, the cached kind and size of the value
    ahead and the stack of lists being read.  [decode] is the decoder
    [makeDecoder] builds for a type, [DecodeBytes] runs it on a byte slice.
    Decoding is proved to be total, to invert the encoding of [Rlp] and to
    accept nothing but canonical encodings. *)

From S2P Require Import Prelude Rlp.

#[local] Set Warnings "-register-all".

(** ** The stream *)

Definition EOL : error := ErrVar "rlp.EOL" "rlp: end of list".

Record listpos := Listpos { lpos : Z; lsize : Z }.

(** [kind = None] is the rearmed state [kind = -1].  The top of [stack] is its
    first element. *)
Record Stream := MkStream {
  s_r : list byte;
  s_remaining : Z;
  s_limited : bool;
  s_kind : option Kind;
  s_size : Z;
  s_byteval : byte;
  s_kinderr : option error;
  s_stack : list listpos;
}.

Definition set_kind (k : option Kind) (s : Stream) : Stream :=
  MkStream (s_r s) (s_remaining s) (s_limited s) k (s_size s) (s_byteval s)
    (s_kinderr s) (s_stack s).

Definition set_byteval (b : byte) (s : Stream) : Stream :=
  MkStream (s_r s) (s_remaining s) (s_limited s) (s_kind s) (s_size s) b
    (s_kinderr s) (s_stack s).

Definition set_stack (st : list listpos) (s : Stream) : Stream :=
  MkStream (s_r s) (s_remaining s) (s_limited s) (s_kind s) (s_size s) (s_byteval s)
    (s_kinderr s) st.

Definition set_ahead (k : option Kind) (sz : Z) (e : option error) (s : Stream) : Stream :=
  MkStream (s_r s) (s_remaining s) (s_limited s) k sz (s_byteval s) e (s_stack s).

Definition set_r (r : list byte) (s : Stream) : Stream :=
  MkStream r (s_remaining s) (s_limited s) (s_kind s) (s_size s) (s_byteval s)
    (s_kinderr s) (s_stack s).

Definition set_remaining (n : Z) (s : Stream) : Stream :=
  MkStream (s_r s) n (s_limited s) (s_kind s) (s_size s) (s_byteval s)
    (s_kinderr s) (s_stack s).

(** [Reset] on a [bytes.Reader] over [b]: the limit is [inputLimit], or the
    length of the data when that is zero. *)
Definition Reset (b : list byte) (inputLimit : Z) : Stream :=
  MkStream b (if 0 <? inputLimit then inputLimit else len b) true None 0 Byte.x00 None [].

Definition willRead (n : Z) : st Stream () := λ s,
  let s := set_kind None s in
  let limit (s : Stream) : outcome () * Stream :=
    if s_limited s then
      if s_remaining s <? n then (Err ErrValueTooLarge, s)
      else (Ok tt, set_remaining (s_remaining s - n) s)
    else (Ok tt, s) in
  match s_stack s with
  | [] => limit s
  | tos :: st =>
      if u64 (lsize tos - lpos tos) <? n then (Err ErrElemTooLarge, s)
      else limit (set_stack (Listpos (u64 (lpos tos + n)) (lsize tos) :: st) s)
  end.

(** [s.r.ReadByte()], with the end of the data as [io.ErrUnexpectedEOF]. *)
Definition r_ReadByte : st Stream byte := λ s,
  match s_r s with
  | [] => (Err io_ErrUnexpectedEOF, s)
  | b :: r => (Ok b, set_r r s)
  end.

Definition readByte : st Stream byte := willRead 1;; r_ReadByte.

(** The loop of [s.r.Read] calls of [readFull] for a buffer of [n] bytes: the
    [bytes.Reader] hands out all it has and then reports the end of its data. *)
Definition r_ReadFull (n : Z) : st Stream (list byte) := λ s,
  if len (s_r s) <? n then (Err io_ErrUnexpectedEOF, set_r [] s)
  else (Ok (take (Z.to_nat n) (s_r s)), set_r (drop (Z.to_nat n) (s_r s)) s).

Definition readFull (n : Z) : st Stream (list byte) := willRead n;; r_ReadFull n.

Definition readUint (size : Z) : st Stream Z :=
  if size =? 0 then st_modify (set_kind None);; mret 0
  else if size =? 1 then b ← readByte; mret (b2z b)
  else
    buf ← readFull size;
    if b2z (hd Byte.x00 buf) =? 0 then st_fail ErrCanonSize
    else mret (be_val buf).

(** The kind, size and error of the value ahead; an error comes with the kind
    and size the Go function returns next to it. *)
Definition stream_readKind : Stream → (Kind * Z * option error) * Stream := λ s,
  let sized (k : Kind) (r : outcome Z * Stream) : (Kind * Z * option error) * Stream :=
    match r with
    | (Ok size, s) => ((k, size, if size <? 56 then Some ErrCanonSize else None), s)
    | (Err e, s) => ((k, 0, Some e), s)
    | (Panic m, s) => ((k, 0, Some (ErrNew m)), s)
    end in
  match readByte s with
  | (Ok c, s) =>
      let b := b2z c in
      let s := set_byteval Byte.x00 s in
      if b <? 0x80 then ((KByte, 0, None), set_byteval c s)
      else if b <? 0xB8 then ((KString, b - 0x80, None), s)
      else if b <? 0xC0 then sized KString (readUint (b - 0xB7) s)
      else if b <? 0xF8 then ((KList, b - 0xC0, None), s)
      else sized KList (readUint (b - 0xF7) s)
  | (Err err, s) =>
      let err :=
        match s_stack s with
        | [] => if bool_decide (err = io_ErrUnexpectedEOF) || bool_decide (err = ErrValueTooLarge)
                then io_EOF else err
        | _ => err
        end in
      ((KByte, 0, Some err), s)
  | (Panic m, s) => ((KByte, 0, Some (ErrNew m)), s)
  end.

Definition stream_Kind : st Stream (Kind * Z) := λ s,
  match s_kind s with
  | Some k =>
      match s_kinderr s with
      | Some e => (Err e, s)
      | None => (Ok (k, s_size s), s)
      end
  | None =>
      let s := set_ahead None (s_size s) None s in
      let at_eol := match s_stack s with
                    | tos :: _ => lpos tos =? lsize tos
                    | [] => false
                    end in
      if at_eol then (Err EOL, s)
      else
        let '((k, size, err), s) := stream_readKind s in
        let err :=
          match err with
          | Some e => Some e
          | None =>
              match s_stack s with
              | [] => if s_limited s && (s_remaining s <? size)
                      then Some ErrValueTooLarge else None
              | tos :: _ => if u64 (lsize tos - lpos tos) <? size
                            then Some ErrElemTooLarge else None
              end
          end in
        let s := set_ahead (Some k) size err s in
        match err with
        | Some e => (Err e, s)
        | None => (Ok (k, size), s)
        end
  end.

Definition stream_Bytes : st Stream (list byte) :=
  '(kind, size) ← stream_Kind;
  match kind with
  | KByte =>
      st_modify (set_kind None);;
      b ← st_gets s_byteval;
      mret [b]
  | KString =>
      b ← readFull size;
      if (size =? 1) && (b2z (hd Byte.x00 b) <? 128) then st_fail ErrCanonSize
      else mret b
  | KList => st_fail ErrExpectedString
  end.

Definition Raw : st Stream (list byte) :=
  '(kind, size) ← stream_Kind;
  match kind with
  | KByte =>
      st_modify (set_kind None);;
      b ← st_gets s_byteval;
      mret [b]
  | KString => b ← readFull size; mret (puthead 0x80 0xB7 size ++ b)
  | KList => b ← readFull size; mret (puthead 0xC0 0xF7 size ++ b)
  end.

Definition stream_uint (maxbits : Z) : st Stream Z :=
  '(kind, size) ← stream_Kind;
  match kind with
  | KByte =>
      b ← st_gets s_byteval;
      if b2z b =? 0 then st_fail ErrCanonInt
      else st_modify (set_kind None);; mret (b2z b)
  | KString =>
      if maxbits / 8 <? size then st_fail errUintOverflow
      else
        v ← st_catch (readUint size)
              (λ err, st_fail (if bool_decide (err = ErrCanonSize) then ErrCanonInt else err));
        if (0 <? size) && (v <? 128) then st_fail ErrCanonSize else mret v
  | KList => st_fail ErrExpectedString
  end.

Definition stream_Bool : st Stream bool :=
  num ← stream_uint 8;
  if num =? 0 then mret false
  else if num =? 1 then mret true
  else st_fail (ErrNew "rlp: invalid boolean value").

Definition stream_List : st Stream Z :=
  '(kind, size) ← stream_Kind;
  match kind with
  | KList =>
      st_modify (λ s, set_ahead None 0 (s_kinderr s) (set_stack (Listpos 0 size :: s_stack s) s));;
      mret size
  | _ => st_fail ErrExpectedList
  end.

Definition stream_ListEnd : st Stream () := λ s,
  match s_stack s with
  | [] => (Err errNotInList, s)
  | tos :: st =>
      if lpos tos =? lsize tos then
        let st :=
          match st with
          | [] => []
          | outer :: st => Listpos (u64 (lpos outer + lsize tos)) (lsize outer) :: st
          end in
        (Ok tt, set_ahead None 0 (s_kinderr s) (set_stack st s))
      else (Err errNotAtEOL, s)
  end.

(** ** Decoders

    [ty] is what [makeDecoder] sees of a Go type.  A pointer without the [nil]
    tag is decoded as its element.  [TBytes] is a byte slice or a string.
    Error texts leave out the type name and path Go adds to them, so that
    [addErrorContext] is the identity. *)

Inductive ty :=
  | TRaw
  | TUint (bits : Z)
  | TBool
  | TBigInt
  | TBytes
  | TByteArray (n : nat)
  | TSlice (tail : bool) (elem : ty)
  | TArray (n : nat) (elem : ty)
  | TStruct (fields : list ty)
  | TNilPtr (nilKind : Kind) (elem : ty).

Definition decodeError (msg : string) : error := ErrNew ("rlp: " ++ msg)%string.

Definition wrapStreamError (e : error) : error :=
  if bool_decide (e = ErrCanonInt) then decodeError "non-canonical integer (leading zero bytes)"
  else if bool_decide (e = ErrCanonSize) then decodeError "non-canonical size information"
  else if bool_decide (e = ErrExpectedList) then decodeError "expected input list"
  else if bool_decide (e = ErrExpectedString) then decodeError "expected input string or byte"
  else if bool_decide (e = errUintOverflow) then decodeError "input string too long"
  else if bool_decide (e = errNotAtEOL) then decodeError "input list has too many elements"
  else e.

Definition wrapped {A} (m : st Stream A) : st Stream A :=
  st_catch m (λ e, st_fail (wrapStreamError e)).

Definition decodeUint (bits : Z) : st Stream value :=
  num ← wrapped (stream_uint bits); mret (VUint num).

Definition decodeBool : st Stream value :=
  b ← wrapped stream_Bool; mret (VBool b).

Definition decodeBigInt : st Stream value :=
  b ← wrapped stream_Bytes;
  if (0 <? len b) && (b2z (hd Byte.x00 b) =? 0) then st_fail (wrapStreamError ErrCanonInt)
  else mret (VBigInt (Some (be_val b))).

Definition decodeByteSlice : st Stream value :=
  b ← wrapped stream_Bytes; mret (VBytes b).

(** The value and error of a call whose error is dropped: [bv, _ := s.Uint()]. *)
Definition ignore_error (m : st Stream Z) : st Stream Z :=
  st_catch m (λ _, mret 0).

Definition decodeByteArray (vlen : Z) : st Stream value :=
  '(kind, size) ← stream_Kind;
  match kind with
  | KByte =>
      if vlen =? 0 then st_fail (decodeError "input string too long")
      else if 1 <? vlen then st_fail (decodeError "input string too short")
      else bv ← ignore_error (stream_uint 64); mret (VBytes [z2b bv])
  | KString =>
      if vlen <? size then st_fail (decodeError "input string too long")
      else if size <? vlen then st_fail (decodeError "input string too short")
      else
        b ← readFull vlen;
        if (size =? 1) && (b2z (hd Byte.x00 b) <? 128)
        then st_fail (wrapStreamError ErrCanonSize)
        else mret (VBytes b)
  | KList => st_fail (wrapStreamError ErrExpectedString)
  end.

(** The loop of [decodeSliceElems]: it ends when an element decoder reports
    [EOL].  Running out of fuel is a [Panic]. *)
Fixpoint decodeSliceElems {A} (elemdec : st Stream A) (fuel : nat) : st Stream (list A) := λ s,
  match fuel with
  | O => (Panic "out of fuel", s)
  | S fuel =>
      match elemdec s with
      | (Ok v, s) => (vs ← decodeSliceElems elemdec fuel; mret (v :: vs)) s
      | (Err e, s) => if bool_decide (e = EOL) then (Ok [], s) else (Err e, s)
      | (Panic m, s) => (Panic m, s)
      end
  end.

Definition decodeListSlice {A} (elemdec : st Stream A) (fuel : nat) : st Stream (list A) :=
  size ← wrapped stream_List;
  if size =? 0 then stream_ListEnd;; mret []
  else
    vs ← decodeSliceElems elemdec fuel;
    stream_ListEnd;;
    mret vs.

(** The loop over the [n] elements of an array. *)
Fixpoint decodeArrayElems {A} (elemdec : st Stream A) (n : nat) : st Stream (list A) := λ s,
  match n with
  | O => (Ok [], s)
  | S n =>
      match elemdec s with
      | (Ok v, s) => (vs ← decodeArrayElems elemdec n; mret (v :: vs)) s
      | (Err e, s) =>
          if bool_decide (e = EOL) then (Err (decodeError "input list has too few elements"), s)
          else (Err e, s)
      | (Panic m, s) => (Panic m, s)
      end
  end.

Definition decodeListArray {A} (elemdec : st Stream A) (n : nat) : st Stream (list A) :=
  wrapped stream_List;;
  vs ← decodeArrayElems elemdec n;
  wrapped stream_ListEnd;;
  mret vs.

(** The field loop of [makeStructDecoder]. *)
Fixpoint decodeFields {A} (decs : list (st Stream A)) : st Stream (list A) := λ s,
  match decs with
  | [] => (Ok [], s)
  | dec :: decs =>
      match dec s with
      | (Ok v, s) => (vs ← decodeFields decs; mret (v :: vs)) s
      | (Err e, s) =>
          if bool_decide (e = EOL) then (Err (decodeError "too few elements"), s) else (Err e, s)
      | (Panic m, s) => (Panic m, s)
      end
  end.

Definition structDecoder {A} (decs : list (st Stream A)) : st Stream (list A) :=
  wrapped stream_List;;
  vs ← decodeFields decs;
  wrapped stream_ListEnd;;
  mret vs.

Definition nilPtrDecoder (nilKind : Kind) (dec : st Stream value) : st Stream value :=
  '(kind, size) ← wrapped stream_Kind;
  match kind with
  | KByte => dec
  | KString | KList =>
      if size =? 0 then
        match kind, nilKind with
        | KString, KString | KList, KList =>
            st_modify (set_kind None);; mret (VNilPtr nilKind)
        | _, _ => st_fail (decodeError "wrong kind of empty value")
        end
      else dec
  end.

Fixpoint decode (fuel : nat) (t : ty) : st Stream value :=
  match t with
  | TRaw => b ← Raw; mret (VRaw b)
  | TUint bits => decodeUint bits
  | TBool => decodeBool
  | TBigInt => decodeBigInt
  | TBytes => decodeByteSlice
  | TByteArray n => decodeByteArray (Z.of_nat n)
  | TSlice true elem => vs ← decodeSliceElems (decode fuel elem) fuel; mret (VSlice true vs)
  | TSlice false elem => vs ← decodeListSlice (decode fuel elem) fuel; mret (VSlice false vs)
  | TArray n elem => vs ← decodeListArray (decode fuel elem) n; mret (VSlice false vs)
  | TStruct fields => vs ← structDecoder (map (decode fuel) fields); mret (VStruct vs)
  | TNilPtr nilKind elem => nilPtrDecoder nilKind (decode fuel elem)
  end.

(** [decodeInterface], for [interface{}] targets: byte slices and lists. *)
Fixpoint decodeInterface (fuel : nat) : st Stream item := λ s,
  match fuel with
  | O => (Panic "out of fuel", s)
  | S fuel =>
      ('(kind, _) ← stream_Kind;
       match kind with
       | KList => l ← decodeListSlice (decodeInterface fuel) fuel; mret (Lst l)
       | _ => b ← stream_Bytes; mret (Str b)
       end) s
  end.

(** [DecodeBytes] with a decoder for the target type. *)
Definition DecodeBytes {A} (dec : st Stream A) (b : list byte) : outcome A :=
  match dec (Reset b (len b)) with
  | (Ok v, s) => if 0 <? len (s_r s) then Err ErrMoreThanOneValue else Ok v
  | (r, _) => r
  end.

(** [DecodeReceiptsBytes]: the same, except that it reports no error when
    decoding fails; the target keeps what [old] held or was decoded so far,
    [None] here. *)
Definition DecodeReceiptsBytes {A} (dec : st Stream A) (b : list byte) : outcome (option A) :=
  match dec (Reset b (len b)) with
  | (Ok v, s) => if 0 <? len (s_r s) then Err ErrMoreThanOneValue else Ok (Some v)
  | (Err _, _) => Ok None
  | (Panic m, _) => Panic m
  end.

(** ** What a decoder does, specified *)

(** The lists being read lie inside each other and inside the [rem] bytes that
    may still be read; the content of an inner list counts towards the outer
    one when it is left. *)
Fixpoint chain (rem : Z) (st : list listpos) : Prop :=
  match st with
  | [] => True
  | tos :: st =>
      0 <= lpos tos <= lsize tos ∧ lsize tos < 2 ^ 63 ∧ lsize tos - lpos tos <= rem ∧
      match st with
      | [] => True
      | outer :: _ => lsize tos <= lsize outer - lpos outer
      end ∧ chain (rem + lpos tos) st
  end.

Definition advance (n : Z) (st : list listpos) : list listpos :=
  match st with
  | [] => []
  | tos :: st => Listpos (lpos tos + n) (lsize tos) :: st
  end.

(** The bytes that may still be read: those of the innermost list, or those
    under the input limit. *)
Definition room (s : Stream) : Z :=
  match s_stack s with
  | [] => s_remaining s
  | tos :: _ => lsize tos - lpos tos
  end.

Definition at_eol (s : Stream) : Prop :=
  match s_stack s with
  | [] => False
  | tos :: _ => lpos tos = lsize tos
  end.

#[export] Instance at_eol_dec s : Decision (at_eol s).
Proof. unfold at_eol. destruct (s_stack s); apply _. Defined.

Record valid (s : Stream) : Prop := {
  valid_limited : s_limited s = true;
  valid_remaining : 0 <= s_remaining s <= len (s_r s);
  valid_len : len (s_r s) < 2 ^ 63;
  valid_chain : chain (s_remaining s) (s_stack s);
}.

(** Between values, before the kind of the next one is known. *)
Definition fresh (s : Stream) : Prop := valid s ∧ s_kind s = None.

(** From [s] to [s'] exactly the bytes [b] were read. *)
Record moves (s s' : Stream) (b : list byte) : Prop := {
  moves_limited : s_limited s' = s_limited s;
  moves_r : s_r s = b ++ s_r s';
  moves_remaining : s_remaining s' = s_remaining s - len b;
  moves_stack : s_stack s' = advance (len b) (s_stack s);
  moves_room : len b <= room s;
}.

Definition eats (s s' : Stream) (b : list byte) : Prop := moves s s' b ∧ s_kind s' = None.

(** The bytes [Kind] reads: a single byte or the header. *)
Definition kind_prefix (k : Kind) (n : Z) (c : byte) : list byte :=
  match k with KByte => [c] | _ => kind_header k n end.

(** The encoding [e] is a header for [n] bytes of content, or a single byte. *)
Definition shape (e : list byte) (k : Kind) (n : Z) (c : byte) (content : list byte) : Prop :=
  e = kind_prefix k n c ++ content ∧ len content = n ∧ (k = KByte → n = 0 ∧ b2z c < 128).

(** [codec fuel dec enc P]: on inputs shorter than [fuel], [dec] reads the
    encodings [enc a] of the values satisfying [P], these and nothing else;
    it reports [EOL] exactly at the end of a list. *)
Record codec {A} (fuel : nat) (dec : st Stream A) (enc : A → list byte) (P : A → Prop) : Prop := {
  codec_sound : ∀ s a s', fresh s → dec s = (Ok a, s') → P a ∧ eats s s' (enc a);
  codec_complete : ∀ s a rest, fresh s → (length (s_r s) < fuel)%nat → P a →
    s_r s = enc a ++ rest → len (enc a) <= room s → ∃ s', dec s = (Ok a, s');
  codec_eol : ∀ s, fresh s → (length (s_r s) < fuel)%nat → at_eol s → ∃ s', dec s = (Err EOL, s');
  codec_only_eol : ∀ s s', fresh s → dec s = (Err EOL, s') → at_eol s ∧ eats s s' [];
  codec_total : ∀ s s' m, fresh s → (length (s_r s) < fuel)%nat → dec s ≠ (Panic m, s');
  codec_shape : ∀ a, P a → ∃ k n c content, shape (enc a) k n c content;
}.

(** The values of a type, as the encoder sees them. *)
Fixpoint has_type (t : ty) (v : value) : Prop :=
  match t with
  | TRaw => ∃ b, v = VRaw b ∧ ∃ k n c content, shape b k n c content
  | TUint bits => ∃ i, v = VUint i ∧ 0 <= i < 2 ^ bits
  | TBool => ∃ b, v = VBool b
  | TBigInt => ∃ i, v = VBigInt (Some i) ∧ 0 <= i
  | TBytes => ∃ b, v = VBytes b ∧ True
  | TByteArray n => ∃ b, v = VBytes b ∧ length b = n
  | TSlice tail elem => ∃ l, v = VSlice tail l ∧ Forall (has_type elem) l
  | TArray n elem => ∃ l, v = VSlice false l ∧ Forall (has_type elem) l ∧ length l = n
  | TStruct fields => ∃ l, v = VStruct l ∧ Forall2 (λ v P, P v) l (map has_type fields)
  | TNilPtr nilKind elem =>
      v = VNilPtr nilKind ∨
      (has_type elem v ∧ value_bytes v ≠ kind_header KString 0 ∧
       value_bytes v ≠ kind_header KList 0)
  end.

(** Types covered by the correctness theorem: unsigned integers of one to
    eight bytes, no one-byte arrays, no [tail] slices. *)
Fixpoint ty_ok (t : ty) : bool :=
  match t with
  | TUint bits => (bits mod 8 =? 0) && (8 <=? bits) && (bits <=? 64)
  | TByteArray n => negb (Nat.eqb n 1)
  | TSlice tail elem => negb tail && ty_ok elem
  | TArray _ elem => ty_ok elem
  | TStruct fields => forallb ty_ok fields
  | TNilPtr nilKind elem => bool_decide (nilKind ≠ KByte) && ty_ok elem
  | _ => true
  end.
