(* ===== verification/RlpStreamFacts.v ===== *)
(** Correctness of the RLP decoder of [RlpStream].

    Reading bytes and headers is characterised first; [with_kind_codec] and
    [list_codec] lift this to decoders that start with [Kind] and to lists,
    and [decode_codec] puts the decoder of a type together from them.  The
    theorems about [DecodeBytes] follow. *)

From S2P Require Import Prelude Rlp RlpStream.

Lemma ty_ind' (P : ty → Prop) :
  P TRaw → (∀ n, P (TUint n)) → P TBool → P TBigInt → P TBytes → (∀ n, P (TByteArray n)) →
  (∀ tail t, P t → P (TSlice tail t)) → (∀ n t, P t → P (TArray n t)) →
  (∀ l, Forall P l → P (TStruct l)) → (∀ k t, P t → P (TNilPtr k t)) → ∀ t, P t.
Proof.
  intros H1 H2 H3 H4 H5 H6 HS HA HT HN. fix IH 1.
  intros [|n| | | |n|tail t|n t|l|k t]; [apply H1|apply H2|apply H3|apply H4|apply H5|apply H6|
    apply HS, IH|apply HA, IH|apply HT|apply HN, IH].
  induction l as [|t l IHl]; constructor; [apply IH|apply IHl].
Qed.

Lemma moves_refl s : valid s → moves s s [].
Proof.
  intros Hv. split; rewrite ?len_nil; try done; [lia|..].
  - destruct (s_stack s) as [|[p z] st]; simpl; [done|]. by rewrite Z.add_0_r.
  - unfold room. pose proof (valid_chain s Hv). pose proof (valid_remaining s Hv).
    destruct (s_stack s); simpl in *; lia.
Qed.

Lemma moves_trans s1 s2 s3 b1 b2 :
  moves s1 s2 b1 → moves s2 s3 b2 → moves s1 s3 (b1 ++ b2).
Proof.
  intros [L1 R1 M1 S1 F1] [L2 R2 M2 S2 F2]. split; rewrite ?len_app.
  - congruence.
  - by rewrite R1, R2, app_assoc.
  - lia.
  - rewrite S2, S1. destruct (s_stack s1); simpl; [done|]. do 2 f_equal. lia.
  - unfold room in *. rewrite S1 in F2. destruct (s_stack s1); simpl in *; lia.
Qed.

Lemma moves_valid s s' b : valid s → moves s s' b → valid s'.
Proof.
  intros [HL HR HN HC] [L R M S F]. pose proof (len_nonneg b). rewrite R, len_app in HR, HN.
  assert (len b <= s_remaining s) as Hb.
  { unfold room in F. destruct (s_stack s); simpl in *; lia. }
  split; [congruence|lia..|].
  rewrite S, M. unfold room in F. destruct (s_stack s) as [|tos st]; simpl in *; [done|].
  destruct HC as (? & ? & ? & ? & ?). repeat split; try (lia || done).
  by replace (s_remaining s - len b + (lpos tos + len b)) with (s_remaining s + lpos tos) by lia.
Qed.

Lemma eats_fresh s s' b : fresh s → eats s s' b → fresh s'.
Proof. intros [Hv _] [Hm Hk]. split; [by eapply moves_valid|done]. Qed.

Lemma eats_trans s1 s2 s3 b1 b2 : eats s1 s2 b1 → eats s2 s3 b2 → eats s1 s3 (b1 ++ b2).
Proof. intros [? ?] [? ?]. split; [by eapply moves_trans|done]. Qed.

#[export] Hint Resolve moves_refl moves_trans moves_valid eats_fresh eats_trans : go.

Lemma moves_room_after s s' b : moves s s' b → room s' = room s - len b.
Proof.
  intros [L R M S F]. unfold room in *. rewrite S. destruct (s_stack s); simpl; lia.
Qed.

(** ** Reading bytes *)

Lemma room_remaining s : valid s → 0 <= room s <= s_remaining s.
Proof.
  intros [_ HR _ HC]. unfold room. destruct (s_stack s); simpl in *; lia.
Qed.

Lemma willRead_spec n s :
  valid s → 0 <= n →
  (n <= room s ∧
    willRead n s = (Ok tt, MkStream (s_r s) (s_remaining s - n) true None (s_size s)
      (s_byteval s) (s_kinderr s) (advance n (s_stack s)))) ∨
  (room s < n ∧ ∃ e s', willRead n s = (Err e, s') ∧ e ≠ EOL).
Proof.
  intros Hv Hn. pose proof (room_remaining s Hv) as Hrem. destruct Hv as [HL HR HN HC].
  unfold willRead, room in *.
  destruct s as [r rem lim k sz bv ke st]; simpl in *. subst lim.
  destruct st as [|tos st]; simpl in *.
  - destruct (Z.ltb_spec rem n); [right|left]; eauto 10.
  - destruct HC as (? & ? & ? & ? & ?). rewrite wrap_small by lia.
    destruct (Z.ltb_spec (lsize tos - lpos tos) n); [right; eauto 10|].
    rewrite wrap_small by lia. rewrite (proj2 (Z.ltb_ge rem n)) by lia. left. eauto 10.
Qed.

Lemma readFull_spec n s :
  valid s → 0 <= n →
  (∃ b s', readFull n s = (Ok b, s') ∧ len b = n ∧ eats s s' b) ∨
  (room s < n ∧ ∃ e s', readFull n s = (Err e, s') ∧ e ≠ EOL).
Proof.
  intros Hv Hn. unfold readFull. cbv [mbind st_bind]. pose proof (room_remaining s Hv).
  pose proof (valid_remaining s Hv).
  destruct (willRead_spec n s Hv Hn) as [(Hroom & ->)|(Hno & e & s' & -> & He)];
    [|right; eauto 10].
  left. unfold r_ReadFull. simpl. rewrite (proj2 (Z.ltb_ge _ _)) by lia.
  assert (len (take (Z.to_nat n) (s_r s)) = n) as Ht.
  { unfold len in *. rewrite length_take. lia. }
  do 2 eexists. split; [done|]. split; [done|]. split; [|done].
  split; simpl; rewrite ?Ht; try done; [by destruct Hv|by rewrite take_drop].
Qed.

Lemma readByte_spec s :
  valid s →
  (∃ b s', readByte s = (Ok b, s') ∧ eats s s' [b]) ∨
  (room s < 1 ∧ ∃ e s', readByte s = (Err e, s') ∧ e ≠ EOL).
Proof.
  intros Hv. unfold readByte. cbv [mbind st_bind]. pose proof (room_remaining s Hv).
  pose proof (valid_remaining s Hv) as Hrem.
  destruct (willRead_spec 1 s Hv ltac:(lia)) as [(Hroom & ->)|(Hno & e & s' & -> & He)];
    [|right; eauto 10].
  left. unfold r_ReadByte. simpl.
  destruct (s_r s) as [|c r] eqn:Hr; [unfold len in Hrem; simpl in Hrem; lia|].
  do 2 eexists. split; [done|]. split; [|done].
  split; simpl; rewrite ?Hr, ?len_cons, ?len_nil; try done; by destruct Hv.
Qed.

Lemma moves_prefix s s' b b' rest :
  moves s s' b → s_r s = b' ++ rest → len b = len b' → b = b'.
Proof.
  intros Hm Hr Hl. rewrite (moves_r _ _ _ Hm) in Hr. unfold len in Hl.
  apply app_inj_1 in Hr as [-> _]; [done|lia].
Qed.

(** A [uint64] of [n] bytes, without a leading zero if it has more than one. *)
Lemma readUint_spec n s :
  valid s → 1 <= n <= 8 →
  (∃ b s', readUint n s = (Ok (be_val b), s') ∧ len b = n ∧ eats s s' b ∧
    (n = 1 ∨ b2z (hd Byte.x00 b) ≠ 0)) ∨
  ((∀ b rest, s_r s = b ++ rest → n = len b → len b <= room s → b2z (hd Byte.x00 b) = 0) ∧
    ∃ e s', readUint n s = (Err e, s') ∧ e ≠ EOL).
Proof.
  intros Hv Hn. unfold readUint. rewrite (proj2 (Z.eqb_neq n 0)) by lia.
  destruct (Z.eqb_spec n 1) as [->|Hn1]; cbv [mbind st_bind].
  - destruct (readByte_spec s Hv) as [(c & s' & -> & He)|(Hno & e & s' & -> & He)].
    + left. exists [c], s'. rewrite be_val_cons, be_val_nil. simpl.
      rewrite Z.mul_1_r, Z.add_0_r. auto.
    + right. split; [|eauto]. intros b rest Hr Hl Hroom. lia.
  - destruct (readFull_spec n s Hv ltac:(lia)) as [(b & s' & -> & Hl & He)|(Hno & e & s' & -> & He)].
    + destruct (Z.eqb_spec (b2z (hd Byte.x00 b)) 0) as [Hz|Hz]; [right|left; eauto 10].
      split; [|unfold st_fail; eauto]. intros b' rest Hr Hl' _.
      by rewrite <- (moves_prefix s s' b b' rest (proj1 He) Hr) by lia.
    + right. split; [|eauto]. intros b rest Hr Hl Hroom. lia.
Qed.

(** ** The kind of the next value *)

Record ahead (s s' : Stream) (k : Kind) (n : Z) : Prop := {
  ahead_moves : moves s s' (kind_prefix k n (s_byteval s'));
  ahead_kind : s_kind s' = Some k;
  ahead_size : s_size s' = n;
  ahead_err : s_kinderr s' = None;
  ahead_byte : k = KByte → n = 0 ∧ b2z (s_byteval s') < 128;
  ahead_room : 0 <= n <= room s';
}.

(** The header, and the room its value needs, as it is looked for in the input. *)
Definition starts (s : Stream) (k : Kind) (n : Z) (c : byte) : Prop :=
  ∃ rest, s_r s = kind_prefix k n c ++ rest ∧ 0 <= n ∧ len (kind_prefix k n c) + n <= room s ∧
    (k = KByte → n = 0 ∧ b2z c < 128).

Lemma kind_prefix_pos k n c : 1 <= len (kind_prefix k n c).
Proof.
  destruct k; simpl; unfold header; try (case_match); rewrite ?len_cons, ?len_nil;
    pose proof (len_nonneg (big_Bytes n)); lia.
Qed.

Lemma room_bound s : valid s → 0 <= room s < 2 ^ 63.
Proof.
  intros Hv. pose proof (room_remaining s Hv). destruct Hv as [_ HR HN HC]. lia.
Qed.

(** A header read back from its first byte. *)
Definition first_byte (k : Kind) (n : Z) (c x : byte) (r : list byte) : Prop :=
  (k = KByte ∧ n = 0 ∧ x = c ∧ b2z x < 128) ∨
  (k = KString ∧ n = b2z x - 128 ∧ 128 <= b2z x < 184) ∨
  (k = KList ∧ n = b2z x - 192 ∧ 192 <= b2z x < 248) ∨
  (∃ l, (k = KString ∧ l = 183 ∧ b2z x < 192 ∨ k = KList ∧ l = 247) ∧
    l < b2z x <= l + 8 ∧ 56 <= n ∧ Z.of_nat (bytelen n) = b2z x - l ∧
    len (kind_prefix k n c) = 1 + Z.of_nat (bytelen n) ∧
    ∃ rest, r = big_Bytes n ++ rest).

Lemma prefix_first k n c x r rest :
  kind_prefix k n c ++ rest = x :: r → 0 <= n < 2 ^ 64 → (k = KByte → n = 0 ∧ b2z c < 128) →
  first_byte k n c x r.
Proof.
  intros Hr Hn Hk. unfold first_byte.
  destruct k; cbn [kind_prefix kind_header] in *.
  - injection Hr as -> ->. destruct (Hk eq_refl). auto.
  - unfold header in *. destruct (Z.ltb_spec n 56); injection Hr as <- <-.
    + right; left. rewrite b2z_z2b_small by lia. repeat split; lia.
    + do 3 right. destruct (header_long_byte 183 n) as [-> ?]; [lia..|].
      exists 183. rewrite len_cons, len_big_Bytes in *.
      split; [left; repeat split; lia|]. repeat split; eauto; lia.
  - unfold header in *. destruct (Z.ltb_spec n 56); injection Hr as <- <-.
    + right; right; left. rewrite b2z_z2b_small by lia. repeat split; lia.
    + do 3 right. destruct (header_long_byte 247 n) as [-> ?]; [lia..|].
      exists 247. rewrite len_cons, len_big_Bytes in *.
      split; [by right|]. repeat split; eauto; lia.
Qed.

Lemma starts_first s k n c x r :
  valid s → starts s k n c → s_r s = x :: r → first_byte k n c x r.
Proof.
  intros Hv (rest & Hr & Hn & Hroom & Hk) Hx. rewrite Hx in Hr.
  pose proof (room_bound s Hv). pose proof (len_nonneg (kind_prefix k n c)).
  apply (prefix_first _ _ _ _ _ rest); [done|lia|done].
Qed.

Lemma first_byte_inj k n c x r k' n' c' :
  0 <= n → 0 <= n' → first_byte k n c x r → first_byte k' n' c' x r → k = k' ∧ n = n'.
Proof.
  intros Hn Hn' H1 H2.
  destruct H1 as [(->&?&?&?)|[(->&?&?)|[(->&?&?)|(l & Hk & ? & ? & Hb & _ & rest & Hr)]]];
  destruct H2 as [(->&?&?&?)|[(->&?&?)|[(->&?&?)|(l' & Hk' & ? & ? & Hb' & _ & rest' & Hr')]]];
    try destruct Hk as [(->&->&?)|(->&->)]; try destruct Hk' as [(->&->&?)|(->&->)];
    try lia; try (split; (lia || congruence)).
  all: rewrite Hr in Hr'; apply app_inj_1 in Hr' as [Hr' _]; [|rewrite !length_big_Bytes; lia].
  all: split; [done|by apply big_Bytes_inj].
Qed.

Lemma starts_nonempty s k n c : valid s → starts s k n c → 1 <= room s ∧ 1 <= len (s_r s).
Proof.
  intros Hv (rest & Hr & Hn & Hroom & _). pose proof (kind_prefix_pos k n c).
  rewrite Hr, len_app. pose proof (len_nonneg rest). lia.
Qed.

Definition readKind_good (s s' : Stream) (k : Kind) (n : Z) (err : option error) : Prop :=
  match err with
  | None => moves s s' (kind_prefix k n (s_byteval s')) ∧ 0 <= n < 2 ^ 64 ∧
            (k = KByte → n = 0 ∧ b2z (s_byteval s') < 128)
  | Some e => e ≠ EOL ∧ ∀ k n c, ¬ starts s k n c
  end.

(** The two long headers of [readKind]. *)
Lemma readKind_sized s s1 x k l tail :
  valid s → moves s s1 [x] →
  (k = KString ∧ l = 183 ∧ b2z x < 192 ∨ k = KList ∧ l = 247) → l < b2z x <= l + 8 →
  tail = readUint (b2z x - l) s1 →
  match tail with
  | (Ok n, s2) => readKind_good s s2 k n (if n <? 56 then Some ErrCanonSize else None)
  | (Err e, s2) => readKind_good s s2 k 0 (Some e)
  | (Panic m, s2) => False
  end.
Proof.
  intros Hv Hm Hk Hl ->. pose proof (moves_valid _ _ _ Hv Hm) as Hv1.
  assert (∀ k' n' c, starts s k' n' c → k' = k ∧ 56 <= n' ∧ Z.of_nat (bytelen n') = b2z x - l ∧
    Z.of_nat (bytelen n') <= room s1 ∧ ∃ rest, s_r s1 = big_Bytes n' ++ rest) as Hst.
  { intros k' n' c Hst. pose proof (moves_r _ _ _ Hm) as Hr.
    destruct (id Hst) as (_ & _ & _ & Hfit & _).
    apply (starts_first _ _ _ _ x (s_r s1)) in Hst; [|done|done].
    rewrite (moves_room_after _ _ _ Hm), len_cons, len_nil.
    destruct Hst as [(?&?&?&?)|[(?&?&?)|[(?&?&?)|(l' & Hk' & ? & ? & ? & ? & ?)]]];
      destruct Hk as [(->&->&?)|(->&->)]; try lia.
    all: destruct Hk' as [(->&->&?)|(->&->)]; try lia; repeat split; (lia || done). }
  destruct (readUint_spec (b2z x - l) s1 Hv1 ltac:(lia)) as
    [(b & s2 & -> & Hb & [Hm2 Hk2] & Hz)|(Hno & e & s2 & -> & He)].
  - pose proof (be_val_range b). assert (256 ^ Z.of_nat (length b) <= 256 ^ 8).
    { apply Z.pow_le_mono_r; unfold len in *; lia. }
    destruct (Z.ltb_spec (be_val b) 56) as [Hsm|Hbig]; simpl.
    + split; [done|]. intros k' n' c (_ & Hn & Hbl & Hroom & rest & Hr)%Hst.
      rewrite (moves_prefix _ _ _ _ _ Hm2 Hr) in Hsm by (rewrite len_big_Bytes; lia).
      rewrite big_SetBytes_Bytes in Hsm; lia.
    + split; [|split; [lia|by destruct Hk as [[-> _]|[-> _]]]].
      assert (b2z (hd Byte.x00 b) ≠ 0) as Hhd.
      { destruct Hz as [Hz|?]; [|done]. destruct b as [|y [|? ?]].
        - rewrite be_val_nil in Hbig. lia.
        - rewrite be_val_cons, be_val_nil in Hbig. simpl in *. lia.
        - rewrite !len_cons in Hb. pose proof (len_nonneg l0). lia. }
      assert (big_Bytes (be_val b) = b) as Hbb.
      { destruct b; [by rewrite len_nil in Hb; lia|]. by apply big_Bytes_be_val. }
      assert (kind_prefix k (be_val b) (s_byteval s2) = [x] ++ b) as ->;
        [|by eapply moves_trans].
      assert (header (if decide (k = KString) then 128 else 192) l (be_val b) = x :: b) as Hh.
      { unfold header. rewrite (proj2 (Z.ltb_ge _ _)) by lia.
        rewrite Hbb, <- length_big_Bytes, Hbb. f_equal. apply z2b_eq. unfold len in Hb. lia. }
      destruct Hk as [(-> & -> & _)|[-> ->]]; exact Hh.
  - split; [done|]. intros k' n' c (_ & Hn & Hbl & Hroom & rest & Hr)%Hst.
    destruct (big_Bytes_head n' ltac:(lia)) as (y & r & Hb & Hy).
    specialize (Hno (big_Bytes n') rest Hr). rewrite len_big_Bytes in Hno.
    rewrite Hb in Hno. simpl in Hno. lia.
Qed.

Lemma moves_set_byteval s s' b c : moves s s' b → moves s (set_byteval c s') b.
Proof. by intros []. Qed.

Lemma stream_readKind_spec s k n err s' :
  valid s → stream_readKind s = ((k, n, err), s') → readKind_good s s' k n err.
Proof.
  intros Hv. unfold stream_readKind. pose proof (room_bound s Hv) as Hroom.
  destruct (readByte_spec s Hv) as [(x & s1 & -> & Hm & Hk1)|(Hno & e & s1 & -> & He)].
  2:{ intros [= <- <- <- <-]. split.
      - destruct (s_stack s1); [|done]. by case_match.
      - intros k n c (? & ?)%starts_nonempty; [lia|done]. }
  pose proof (b2z_range x). pose proof (moves_r _ _ _ Hm) as Hr.
  apply (moves_set_byteval _ _ _ Byte.x00) in Hm.
  set (s1' := set_byteval Byte.x00 s1) in *.
  destruct (Z.ltb_spec (b2z x) 0x80).
  { intros [= <- <- <- <-]. split; [|simpl; lia]. by apply moves_set_byteval. }
  destruct (Z.ltb_spec (b2z x) 0xB8).
  { intros [= <- <- <- <-]. split; [|split; [lia|done]]. cbn [kind_prefix kind_header].
    unfold header. by rewrite (proj2 (Z.ltb_lt _ _)), (z2b_eq x) by lia. }
  destruct (Z.ltb_spec (b2z x) 0xC0).
  { pose proof (readKind_sized s s1' x KString 183 _ Hv Hm ltac:(auto) ltac:(lia) eq_refl) as Hs.
    destruct (readUint _ _) as [[] ?]; intros [= <- <- <- <-]; done. }
  destruct (Z.ltb_spec (b2z x) 0xF8).
  { intros [= <- <- <- <-]. split; [|split; [lia|done]]. cbn [kind_prefix kind_header].
    unfold header. by rewrite (proj2 (Z.ltb_lt _ _)), (z2b_eq x) by lia. }
  pose proof (readKind_sized s s1' x KList 247 _ Hv Hm ltac:(auto) ltac:(lia) eq_refl) as Hs.
  destruct (readUint _ _) as [[] ?]; intros [= <- <- <- <-]; done.
Qed.

(** Only one header can start the input. *)
Lemma starts_unique s s1 k n k' n' c' :
  valid s → starts s k' n' c' → moves s s1 (kind_prefix k n (s_byteval s1)) →
  0 <= n < 2 ^ 64 → (k = KByte → n = 0 ∧ b2z (s_byteval s1) < 128) →
  k = k' ∧ n = n' ∧ n <= room s1.
Proof.
  intros Hv Hs Hm Hn Hb. pose proof (moves_r _ _ _ Hm) as Hr.
  pose proof (kind_prefix_pos k n (s_byteval s1)) as Hp.
  destruct (kind_prefix k n (s_byteval s1)) as [|x p] eqn:E; [rewrite len_nil in Hp; lia|].
  assert (first_byte k n (s_byteval s1) x (p ++ s_r s1)) as H1.
  { apply (prefix_first _ _ _ _ _ (s_r s1)); [by rewrite E|done..]. }
  pose proof (starts_first _ _ _ _ x (p ++ s_r s1) Hv Hs Hr) as H2.
  destruct Hs as (rest & Hr' & Hn' & Hroom & _).
  destruct (first_byte_inj _ _ _ _ _ _ _ _ (proj1 Hn) Hn' H1 H2) as [-> ->].
  split; [done|]. split; [done|]. rewrite (moves_room_after _ _ _ Hm), <- E.
  replace (len (kind_prefix k' n' (s_byteval s1))) with (len (kind_prefix k' n' c'))
    by (by destruct k'). lia.
Qed.

(** The three results of [Kind] between values. *)
Lemma stream_Kind_spec s :
  fresh s →
  (at_eol s ∧ stream_Kind s = (Err EOL, set_ahead None (s_size s) None s)) ∨
  (¬ at_eol s ∧ ∃ k n s', stream_Kind s = (Ok (k, n), s') ∧ ahead s s' k n) ∨
  (¬ at_eol s ∧ (∀ k n c, ¬ starts s k n c) ∧
    ∃ e s', stream_Kind s = (Err e, s') ∧ e ≠ EOL).
Proof.
  intros [Hv Hk]. unfold stream_Kind. rewrite Hk.
  set (s0 := set_ahead None (s_size s) None s).
  assert (valid s0) as Hv0 by (destruct Hv; done).
  destruct (decide (at_eol s)) as [Heol|Heol].
  { left. unfold at_eol in *. unfold s0. simpl. destruct (s_stack s); [done|].
    by rewrite Heol, Z.eqb_refl. }
  right.
  assert (match s_stack s0 with tos :: _ => lpos tos =? lsize tos | [] => false end = false) as ->.
  { unfold at_eol in *. unfold s0. simpl. destruct (s_stack s); [done|]. by apply Z.eqb_neq. }
  destruct (stream_readKind s0) as [[[k n] err] s1] eqn:E.
  apply stream_readKind_spec in E; [|done].
  assert (∀ k' n' c', starts s k' n' c' → starts s0 k' n' c') as Hst by done.
  destruct err as [e|]; [right; simpl in E; destruct E; split; [done|]; split; eauto|].
  destruct E as (Hm & Hn & Hb).
  match goal with |- context [set_ahead (Some k) n ?e s1] => set (err := e) end.
  assert (match err with Some e => e ≠ EOL ∧ room s1 < n | None => n <= room s1 end) as Herr.
  { unfold err, room. pose proof (moves_valid _ _ _ Hv0 Hm) as [HL HR HN HC].
    rewrite HL. destruct (s_stack s1) as [|tos st]; simpl in *.
    - by destruct (Z.ltb_spec (s_remaining s1) n).
    - rewrite wrap_small by lia. by destruct (Z.ltb_spec (lsize tos - lpos tos) n). }
  destruct err as [e|] eqn:Ee.
  - right. split; [done|]. destruct Herr as [He Hr].
    split; [|eauto]. intros k' n' c' Hs%Hst.
    destruct (starts_unique _ _ _ _ _ _ _ Hv0 Hs Hm Hn Hb). lia.
  - left. split; [done|]. do 3 eexists. split; [done|]. destruct Hm. split; try done.
    split; [lia|]. done.
Qed.

(** ** Decoders that start with [Kind] *)

Lemma shape_str b :
  shape (rlp_str b) (if is_byte b then KByte else KString) (if is_byte b then 0 else len b)
    (hd Byte.x00 b) (if is_byte b then [] else b).
Proof.
  rewrite rlp_str_kind. unfold kind_bytes, shape. cbn [fst snd].
  destruct (is_byte b) eqn:E; simpl.
  - destruct b as [|x [|? ?]]; try done. simpl in *. split; [done|]. split; [done|]. lia.
  - done.
Qed.

Lemma shape_list b : shape (rlp_list b) KList (len b) Byte.x00 b.
Proof. done. Qed.

Lemma shape_pos e k n c content : shape e k n c content → 1 <= len e.
Proof.
  intros (-> & _). rewrite len_app. pose proof (kind_prefix_pos k n c).
  pose proof (len_nonneg content). lia.
Qed.

Lemma Kind_at_shape s e k n c content rest :
  fresh s → shape e k n c content → s_r s = e ++ rest → len e <= room s →
  ∃ s1, stream_Kind s = (Ok (k, n), s1) ∧ ahead s s1 k n ∧
        s_r s1 = content ++ rest ∧ (k = KByte → s_byteval s1 = c) ∧ n <= room s1.
Proof.
  intros Hf (-> & Hn & Hb) Hr Hroom. rewrite <- app_assoc in Hr. rewrite len_app in Hroom.
  assert (starts s k n c) as Hs.
  { exists (content ++ rest). split; [done|]. pose proof (len_nonneg content).
    split; [lia|]. split; [lia|done]. }
  destruct (stream_Kind_spec s Hf) as [[He _]|[(_ & k' & n' & s1 & HK & Ha)|(_ & Hno & _)]].
  - exfalso. unfold at_eol, room in *. pose proof (kind_prefix_pos k n c).
    pose proof (len_nonneg content). destruct (s_stack s); [done|]. lia.
  - destruct Ha as [Hm ? ? ? ? Hroom'].
    pose proof (room_bound _ (moves_valid _ _ _ (proj1 Hf) Hm)).
    destruct (starts_unique s s1 k' n' k n c) as (-> & -> & _); [apply Hf|done|done|lia|done|].
    exists s1. split; [done|]. split; [done|].
    assert (kind_prefix k n (s_byteval s1) = kind_prefix k n c) as Heq.
    { eapply moves_prefix; [done..|]. by destruct k. }
    split.
    { rewrite (moves_r _ _ _ Hm), Heq in Hr. by apply app_inv_head in Hr. }
    split; [|lia]. intros ->. by injection Heq.
  - by destruct (Hno k n c).
Qed.

Definition with_kind {A} (body : Kind → Z → st Stream A) : st Stream A :=
  '(k, n) ← stream_Kind; body k n.

Record body_codec {A} (fuel : nat) (body : Kind → Z → st Stream A) (enc : A → list byte) (P : A → Prop) := {
  body_sound : ∀ s s1 k n a s', fresh s → ahead s s1 k n → body k n s1 = (Ok a, s') →
    P a ∧ eats s s' (enc a);
  body_shape : ∀ a, P a → ∃ k n c content, shape (enc a) k n c content;
  body_complete : ∀ s s1 k n c a content rest, fresh s → (length (s_r s) < fuel)%nat →
    ahead s s1 k n → P a → len (enc a) < 2 ^ 63 →
    shape (enc a) k n c content → s_r s1 = content ++ rest → (k = KByte → s_byteval s1 = c) →
    ∃ s', body k n s1 = (Ok a, s');
  body_not_eol : ∀ s s1 k n s', fresh s → ahead s s1 k n → body k n s1 ≠ (Err EOL, s');
  body_total : ∀ s s1 k n s' m, fresh s → (length (s_r s) < fuel)%nat → ahead s s1 k n →
    body k n s1 ≠ (Panic m, s');
}.

Lemma set_ahead_eats s : fresh s → eats s (set_ahead None (s_size s) None s) [].
Proof. intros [Hv _]. destruct (moves_refl s Hv). by split. Qed.

Lemma with_kind_codec {A} fuel (body : Kind → Z → st Stream A) enc P :
  body_codec fuel body enc P → codec fuel (with_kind body) enc P.
Proof.
  intros [Hsound Hshape Hcomp Heol Htot]. unfold with_kind.
  assert (∀ s kn s1, stream_Kind s = (Ok kn, s1) →
    ('(k, n) ← stream_Kind; body k n) s = body kn.1 kn.2 s1) as Hrun.
  { intros s [k n] s1 HK. cbv [mbind st_bind]. by rewrite HK. }
  split.
  - intros s a s' Hf Hd.
    destruct (stream_Kind_spec s Hf) as [[_ HK]|[(_ & k & n & s1 & HK & Ha)|(_ & _ & e & s1 & HK & _)]].
    + cbv [mbind st_bind] in Hd. by rewrite HK in Hd.
    + rewrite (Hrun _ _ _ HK) in Hd. eauto.
    + cbv [mbind st_bind] in Hd. by rewrite HK in Hd.
  - intros s a rest Hf Hfu HP Hr Hroom. destruct (Hshape a HP) as (k & n & c & content & Hsh).
    destruct (Kind_at_shape _ _ _ _ _ _ _ Hf Hsh Hr Hroom) as (s1 & HK & Ha & Hr1 & Hc & _).
    rewrite (Hrun _ _ _ HK). eapply Hcomp; eauto.
    pose proof (valid_len _ (proj1 Hf)) as Hl. rewrite Hr, len_app in Hl.
    pose proof (len_nonneg rest). lia.
  - intros s Hf _ He. destruct (stream_Kind_spec s Hf) as [[_ HK]|[[? _]|[? _]]]; [|done..].
    eexists. cbv [mbind st_bind]. by rewrite HK.
  - intros s s' Hf Hd.
    destruct (stream_Kind_spec s Hf) as [[He HK]|[(_ & k & n & s1 & HK & Ha)|(_ & _ & e & s1 & HK & He)]].
    + split; [done|]. cbv [mbind st_bind] in Hd. rewrite HK in Hd. injection Hd as <-.
      by apply set_ahead_eats.
    + rewrite (Hrun _ _ _ HK) in Hd. by destruct (Heol s s1 k n s' Hf Ha).
    + cbv [mbind st_bind] in Hd. rewrite HK in Hd. congruence.
  - intros s s' m Hf Hfu Hd.
    destruct (stream_Kind_spec s Hf) as [[_ HK]|[(_ & k & n & s1 & HK & Ha)|(_ & _ & e & s1 & HK & He)]].
    + cbv [mbind st_bind] in Hd. by rewrite HK in Hd.
    + rewrite (Hrun _ _ _ HK) in Hd. by eapply Htot.
    + cbv [mbind st_bind] in Hd. by rewrite HK in Hd.
  - done.
Qed.

Lemma codec_nonempty {A} fuel (dec : st Stream A) enc P :
  codec fuel dec enc P → ∀ a, P a → 1 <= len (enc a).
Proof.
  intros Hc a Ha. destruct (codec_shape _ _ _ _ Hc a Ha) as (k & n & c & content & Hsh).
  by eapply shape_pos.
Qed.

(** Reading the content of a string or list that [Kind] announced. *)
Lemma ahead_readFull s s1 k n :
  fresh s → ahead s s1 k n → k ≠ KByte →
  ∃ b s', readFull n s1 = (Ok b, s') ∧ len b = n ∧ eats s s' (kind_header k n ++ b).
Proof.
  intros Hf [Hm _ _ _ _ Hroom] Hk. pose proof (moves_valid _ _ _ (proj1 Hf) Hm) as Hv1.
  destruct (readFull_spec n s1 Hv1 (proj1 Hroom)) as [(b & s' & -> & Hb & He)|(? & _)]; [|lia].
  exists b, s'. split; [done|]. split; [done|]. destruct He as [Hm2 Hk2]. split; [|done].
  replace (kind_header k n) with (kind_prefix k n (s_byteval s1)) by (by destruct k).
  by eapply moves_trans.
Qed.

Lemma ahead_readFull_at s s1 k n content rest :
  fresh s → ahead s s1 k n → k ≠ KByte → s_r s1 = content ++ rest → len content = n →
  ∃ s', readFull n s1 = (Ok content, s').
Proof.
  intros Hf Ha Hk Hr Hn.
  destruct (ahead_readFull _ _ _ _ Hf Ha Hk) as (b & s' & -> & Hb & [He _]).
  exists s'. do 2 f_equal. apply moves_r in He.
  rewrite (moves_r _ _ _ (ahead_moves _ _ _ _ Ha)), Hr in He.
  replace (kind_prefix k n (s_byteval s1)) with (kind_header k n) in He by (by destruct k).
  rewrite <- app_assoc in He. apply app_inv_head in He.
  apply app_inj_1 in He as [-> _]; [done|]. unfold len in *. lia.
Qed.

Lemma ahead_byte_eats s s1 n :
  ahead s s1 KByte n → eats s (set_kind None s1) [s_byteval s1].
Proof. intros [[] _ _ _ _ _]. by split. Qed.

Lemma is_byte_hd b : is_byte b = (len b =? 1) && (b2z (hd Byte.x00 b) <? 128).
Proof.
  destruct b as [|x [|y b]]; [done|done|]. cbn [is_byte].
  rewrite !len_cons. pose proof (len_nonneg b). by rewrite (proj2 (Z.eqb_neq _ _)) by lia.
Qed.

Lemma shape_unique e k n c content k' n' c' content' :
  len e < 2 ^ 63 → shape e k n c content → shape e k' n' c' content' →
  k = k' ∧ n = n' ∧ content = content' ∧ (k = KByte → c = c').
Proof.
  intros Hlen Hs Hs'. pose proof (shape_pos _ _ _ _ _ Hs) as Hpos.
  destruct Hs as (He & Hn & Hb), Hs' as (He' & Hn' & Hb').
  destruct e as [|x r]; [rewrite len_nil in Hpos; lia|].
  assert (0 <= n < 2 ^ 64 ∧ 0 <= n' < 2 ^ 64) as [Hnn Hnn'].
  { apply (f_equal len) in He, He'. rewrite len_app in He, He'.
    pose proof (kind_prefix_pos k n c). pose proof (kind_prefix_pos k' n' c').
    pose proof (len_nonneg content). pose proof (len_nonneg content'). lia. }
  pose proof (prefix_first _ _ _ _ _ _ (eq_sym He) Hnn Hb) as H1.
  pose proof (prefix_first _ _ _ _ _ _ (eq_sym He') Hnn' Hb') as H2.
  destruct (first_byte_inj _ _ _ _ _ _ _ _ (proj1 Hnn) (proj1 Hnn') H1 H2) as [-> ->].
  rewrite He in He'. apply app_inj_1 in He' as [Hp ->]; [|by destruct k'].
  repeat split; try done. intros ->. by injection Hp.
Qed.

(** Which shape a string encoding has. *)
Lemma shape_str_inv b k n c content :
  len (rlp_str b) < 2 ^ 63 → shape (rlp_str b) k n c content →
  (is_byte b = true ∧ k = KByte ∧ n = 0 ∧ b = [c]) ∨
  (is_byte b = false ∧ k = KString ∧ n = len b ∧ content = b).
Proof.
  intros Hlen Hsh. destruct (shape_unique _ _ _ _ _ _ _ _ _ Hlen Hsh (shape_str b))
    as (-> & -> & -> & Hc).
  destruct (is_byte b) eqn:E; [left|by right].
  rewrite (Hc eq_refl). destruct b as [|x [|? ?]]; done.
Qed.

Lemma stream_Bytes_codec fuel : codec fuel stream_Bytes rlp_str (λ _, True).
Proof.
  apply (with_kind_codec fuel (λ k n, _)). split.
  - intros s s1 k n a s' Hf Ha Hd. split; [done|]. destruct k.
    + injection Hd as <- <-. pose proof (ahead_byte _ _ _ _ Ha eq_refl) as [_ Hb].
      cbn [rlp_str s_byteval set_kind]. rewrite (proj2 (Z.leb_le _ _)) by lia.
      by apply (ahead_byte_eats s s1 n).
    + apply st_bind_Ok in Hd as (b & s2 & Hr & Hd).
      destruct (ahead_readFull _ _ _ _ Hf Ha ltac:(done)) as (b' & s2' & Hr' & Hb & He);
        rewrite Hr' in Hr. injection Hr as <- <-.
      rewrite <- Hb, <- is_byte_hd in Hd. destruct (is_byte b') eqn:E; [done|]. injection Hd as <- <-.
      by rewrite rlp_str_kind, E, <- Hb in *.
    + done.
  - intros a _. do 4 eexists. apply shape_str.
  - intros s s1 k n c a content rest Hf _ Ha _ Hlen Hsh Hr Hc.
    apply shape_str_inv in Hsh as [(_ & -> & -> & ->)|(Hb & -> & -> & ->)]; [..|done].
    + eexists. cbv [mbind st_bind st_modify st_gets mret st_ret].
      by rewrite <- (Hc eq_refl).
    + destruct (ahead_readFull_at _ _ _ _ _ _ Hf Ha ltac:(done) Hr eq_refl) as (s' & E).
      exists s'. cbv [mbind st_bind]. rewrite E. by rewrite <- is_byte_hd, Hb.
  - intros s s1 k n s' Hf Ha. destruct k; [done| |done]. cbv [mbind st_bind].
    destruct (ahead_readFull _ _ _ _ Hf Ha ltac:(done)) as (b & s2 & -> & _);
        by case_match.
  - intros s s1 k n s' m Hf _ Ha. destruct k; [done| |done]. cbv [mbind st_bind].
    destruct (ahead_readFull _ _ _ _ Hf Ha ltac:(done)) as (b & s2 & -> & _);
        by case_match.
Qed.

Lemma is_byte_big_Bytes v : 0 <= v → is_byte (big_Bytes v) = (0 <? v) && (v <? 128).
Proof.
  intros Hv. destruct (decide (v = 0)) as [->|Hv0]; [done|].
  destruct (big_Bytes_head v ltac:(lia)) as (c & l & E & Hc).
  pose proof (big_SetBytes_Bytes v Hv) as Hval. rewrite E in *.
  pose proof (b2z_range c). rewrite be_val_cons in Hval.
  rewrite (proj2 (Z.ltb_lt 0 v)) by lia. cbn [is_byte andb]. destruct l as [|d l].
  - rewrite be_val_nil in Hval. simpl in Hval. f_equal. lia.
  - symmetry. apply Z.ltb_ge. cbn [length] in Hval. rewrite pow256_succ in Hval.
    pose proof (pow256_pos (length l)). pose proof (be_val_range (d :: l)). nia.
Qed.

(** A string of [n] bytes read as an integer of at least 128, or of no bytes. *)
Lemma uint_enc b :
  (b = [] ∨ (128 <= be_val b ∧ (len b = 1 ∨ b2z (hd Byte.x00 b) ≠ 0))) →
  big_Bytes (be_val b) = b ∧ is_byte b = false.
Proof.
  intros [->|[Hb Hz]]; [done|]. pose proof (be_val_range b).
  assert (big_Bytes (be_val b) = b) as E.
  { destruct b as [|x b]; [rewrite be_val_nil in Hb; lia|]. apply big_Bytes_be_val.
    destruct Hz as [Hz|Hz]; [|done]. rewrite len_cons in Hz. unfold len in Hz.
    destruct b; [|simpl in Hz; lia]. rewrite be_val_cons, be_val_nil in Hb. simpl in Hb. lia. }
  split; [done|]. rewrite <- E, is_byte_big_Bytes by lia.
  rewrite (proj2 (Z.ltb_ge _ 128)) by lia. apply andb_false_r.
Qed.

Lemma uint_readUint s s1 n v s' :
  fresh s → ahead s s1 KString n → n <= 8 → readUint n s1 = (Ok v, s') →
  (0 < n → 128 <= v) → v < 2 ^ (8 * n) ∧ 0 <= v ∧ eats s s' (rlp_str (big_Bytes v)).
Proof.
  intros Hf Ha Hn Hr Hv. destruct (ahead_room _ _ _ _ Ha) as [Hn0 _].
  pose proof (ahead_moves _ _ _ _ Ha) as Hm. simpl in Hm.
  pose proof (moves_valid _ _ _ (proj1 Hf) Hm) as Hv1.
  destruct (decide (n = 0)) as [->|Hn'].
  { injection Hr as <- <-. simpl. split; [lia|]. split; [lia|]. destruct Hm. by split. }
  destruct (readUint_spec n s1 Hv1 ltac:(lia)) as [(b & s2 & E & Hb & [Hm2 Hk] & Hz)|(_ & e & s2 & E & _)];
    rewrite E in Hr; [|done]. injection Hr as <- <-.
  destruct (uint_enc b) as [E1 E2]; [right; rewrite Hb; auto with lia|].
  rewrite E1, rlp_str_kind, E2. unfold kind_bytes. cbn [fst snd kind_header].
  pose proof (be_val_range b) as Hrange. fold (len b) in Hrange. rewrite Hb, pow256_2 in * by lia.
  split; [lia|]. split; [lia|]. split; [|done]. by eapply moves_trans.
Qed.

Lemma uint_readUint_at s s1 v rest :
  fresh s → ahead s s1 KString (len (big_Bytes v)) → 0 <= v → (bytelen v <= 8)%nat →
  s_r s1 = big_Bytes v ++ rest → ∃ s', readUint (len (big_Bytes v)) s1 = (Ok v, s').
Proof.
  intros Hf Ha Hv Hbl Hr. destruct (decide (v = 0)) as [->|Hv0]; [by eexists|].
  pose proof (moves_valid _ _ _ (proj1 Hf) (ahead_moves _ _ _ _ Ha)) as Hv1.
  pose proof (bytelen_pos v ltac:(lia)). pose proof (ahead_room _ _ _ _ Ha) as Hroom.
  rewrite len_big_Bytes in *.
  destruct (readUint_spec (Z.of_nat (bytelen v)) s1 Hv1 ltac:(lia))
    as [(b & s' & -> & Hb & [Hm _] & _)|(Hno & _)].
  - exists s'. rewrite (moves_prefix _ _ _ _ _ Hm Hr), big_SetBytes_Bytes;
      rewrite ?len_big_Bytes; done.
  - destruct (big_Bytes_head v ltac:(lia)) as (c & l & E & Hc).
    specialize (Hno _ _ Hr). rewrite len_big_Bytes in Hno.
    specialize (Hno eq_refl ltac:(lia)). rewrite E in Hno. done.
Qed.

Lemma uint_readUint_cases s s1 n :
  fresh s → ahead s s1 KString n → n <= 8 →
  (∃ v s', readUint n s1 = (Ok v, s')) ∨ (∃ e s', readUint n s1 = (Err e, s') ∧ e ≠ EOL).
Proof.
  intros Hf Ha Hn. destruct (ahead_room _ _ _ _ Ha) as [Hn0 _].
  pose proof (moves_valid _ _ _ (proj1 Hf) (ahead_moves _ _ _ _ Ha)) as Hv1.
  destruct (decide (n = 0)) as [->|]; [left; by do 2 eexists|].
  destruct (readUint_spec n s1 Hv1 ltac:(lia)) as [(b & s' & E & _)|(_ & E)]; eauto.
Qed.

Lemma stream_uint_codec fuel bits m :
  bits = 8 * m → 1 <= m <= 8 →
  codec fuel (stream_uint bits) (λ v, rlp_str (big_Bytes v)) (λ v, 0 <= v < 2 ^ bits).
Proof.
  intros Hbits Hm. assert (bits / 8 = m) as Hdiv by (rewrite Hbits, Z.mul_comm; by apply Z.div_mul).
  assert (2 ^ 8 <= 2 ^ bits) by (apply Z.pow_le_mono_r; lia).
  apply (with_kind_codec fuel (λ k n, _)). split.
  - intros s s1 k n a s' Hf Ha Hd. destruct k; [..|done].
    + pose proof (ahead_byte _ _ _ _ Ha eq_refl) as [_ Hb]. cbv [mbind st_bind st_gets] in Hd.
      pose proof (b2z_range (s_byteval s1)).
      destruct (Z.eqb_spec (b2z (s_byteval s1)) 0); [done|]. injection Hd as <- <-.
      split; [lia|]. assert (big_Bytes (b2z (s_byteval s1)) = [s_byteval s1]) as ->.
      { rewrite <- (big_Bytes_be_val (s_byteval s1) []) by done.
        rewrite be_val_cons, be_val_nil. f_equal. simpl. lia. }
      cbn [rlp_str]. rewrite (proj2 (Z.leb_le _ _)) by lia. by apply (ahead_byte_eats s s1 n).
    + rewrite Hdiv in Hd. destruct (Z.ltb_spec m n); [done|].
      apply st_bind_Ok in Hd as (v & s2 & Hr & Hd). unfold st_catch in Hr.
      destruct (readUint n s1) as [[v'| |] s3] eqn:E; [|done..]. injection Hr as -> ->.
      destruct (Z.ltb_spec 0 n), (Z.ltb_spec v 128); try done; injection Hd as <- <-.
      all: destruct (uint_readUint _ _ _ _ _ Hf Ha ltac:(lia) E) as (? & ? & ?); [lia|].
      all: split; [|done].
      all: assert (2 ^ (8 * n) <= 2 ^ bits) by (apply Z.pow_le_mono_r; lia); lia.
  - intros a _. do 4 eexists. apply shape_str.
  - intros s s1 k n c a content rest Hf _ Ha Ha' Hlen Hsh Hr Hc.
    apply shape_str_inv in Hsh as [(Hb & -> & -> & E)|(Hb & -> & -> & ->)]; [..|done].
    + rewrite is_byte_big_Bytes in Hb by lia. apply (f_equal be_val) in E.
      rewrite big_SetBytes_Bytes, be_val_cons, be_val_nil in E by lia. simpl in E.
      eexists. cbv [mbind st_bind st_gets]. rewrite (Hc eq_refl).
      rewrite (proj2 (Z.eqb_neq _ _)) by lia. cbv [st_modify mret st_ret].
      do 2 f_equal. lia.
    + rewrite Hdiv, len_big_Bytes.
      pose proof (bytelen_bound a (Z.to_nat m)) as Hbl.
      rewrite Z2Nat.id, pow256_2, <- Hbits in Hbl by lia. specialize (Hbl Ha').
      rewrite (proj2 (Z.ltb_ge _ _)) by lia.
      destruct (uint_readUint_at s s1 a rest Hf Ha ltac:(lia) ltac:(lia) Hr) as (s' & E).
      exists s'. cbv [mbind st_bind st_catch]. rewrite <- len_big_Bytes, E.
      rewrite is_byte_big_Bytes in Hb by lia.
      assert ((0 <? len (big_Bytes a)) && (a <? 128) = false) as ->; [|done].
      destruct (decide (a = 0)) as [->|]; [done|].
      rewrite (proj2 (Z.ltb_lt 0 a)) in Hb by lia. simpl in Hb. rewrite Hb. apply andb_false_r.
  - intros s s1 k n s' Hf Ha. destruct k; [..|done]; cbv [mbind st_bind st_gets];
      [by case_match|]. rewrite Hdiv. destruct (Z.ltb_spec m n); [done|].
    destruct (uint_readUint_cases s s1 n Hf Ha ltac:(lia)) as [(v & s2 & E)|(e & s2 & E & He)];
      unfold st_catch; rewrite E; [by case_match|].
    unfold st_fail. case_match; [done|congruence].
  - intros s s1 k n s' p Hf _ Ha. destruct k; [..|done]; cbv [mbind st_bind st_gets];
      [by case_match|]. rewrite Hdiv. destruct (Z.ltb_spec m n); [done|].
    destruct (uint_readUint_cases s s1 n Hf Ha ltac:(lia)) as [(v & s2 & E)|(e & s2 & E & He)];
      unfold st_catch; rewrite E; [by case_match|done].
Qed.

Lemma Raw_codec fuel :
  codec fuel Raw (λ b, b) (λ b, ∃ k n c content, shape b k n c content).
Proof.
  apply (with_kind_codec fuel (λ k n, _)). split.
  - intros s s1 k n a s' Hf Ha Hd.
    destruct (ahead_room _ _ _ _ Ha) as [Hn0 Hn].
    pose proof (room_bound _ (moves_valid _ _ _ (proj1 Hf) (ahead_moves _ _ _ _ Ha))).
    destruct (decide (k = KByte)) as [->|Hk].
    { injection Hd as <- <-. pose proof (ahead_byte _ _ _ _ Ha eq_refl) as [_ Hb].
      split; [|by apply (ahead_byte_eats s s1 n)]. exists KByte, 0, (s_byteval s1), [].
      simpl. by split. }
    assert (∃ t l, (readFull n ≫= λ b, mret (puthead t l n ++ b)) s1 = (Ok a, s') ∧
      kind_header k n = header t l n) as (t & l & Hd' & Hkh)
      by (destruct k; [done|eauto..]).
    apply st_bind_Ok in Hd' as (b & s2 & Hr & [= <- <-]).
    destruct (ahead_readFull _ _ _ _ Hf Ha Hk) as (b' & s2' & Hr' & Hb & He);
        rewrite Hr' in Hr. injection Hr as <- <-.
    rewrite puthead_header, <- Hkh by lia. split; [|done].
    exists k, n, Byte.x00, b'. split; [by destruct k|done].
  - done.
  - intros s s1 k n c a content rest Hf _ Ha _ Hlen (-> & Hn & Hb) Hr Hc.
    pose proof (ahead_room _ _ _ _ Ha) as Hr0.
    pose proof (room_bound _ (moves_valid _ _ _ (proj1 Hf) (ahead_moves _ _ _ _ Ha))).
    destruct k.
    + eexists. destruct (Hb eq_refl) as [-> _]. destruct content; [|rewrite len_cons in Hn; pose proof (len_nonneg content); lia].
      cbv [mbind st_bind st_modify st_gets mret st_ret]. by rewrite <- (Hc eq_refl).
    + destruct (ahead_readFull_at _ _ _ _ _ _ Hf Ha ltac:(done) Hr Hn) as (s' & E).
      exists s'. cbv [mbind st_bind]. rewrite E, puthead_header by lia. done.
    + destruct (ahead_readFull_at _ _ _ _ _ _ Hf Ha ltac:(done) Hr Hn) as (s' & E).
      exists s'. cbv [mbind st_bind]. rewrite E, puthead_header by lia. done.
  - intros s s1 k n s' Hf Ha. destruct k; [done|..]; cbv [mbind st_bind];
      (destruct (ahead_readFull _ _ _ _ Hf Ha ltac:(done)) as (b & s2 & -> & _);
      done).
  - intros s s1 k n s' m Hf _ Ha. destruct k; [done|..]; cbv [mbind st_bind];
      (destruct (ahead_readFull _ _ _ _ Hf Ha ltac:(done)) as (b & s2 & -> & _);
      done).
Qed.

(** ** Transformers of decoders *)

Lemma codec_ext {A} fuel (m : st Stream A) enc enc' P P' :
  codec fuel m enc P → (∀ a, P a ↔ P' a) → (∀ a, P a → enc a = enc' a) → codec fuel m enc' P'.
Proof.
  intros [H1 H2 H3 H4 H5 H6] HP HE. split; auto.
  - intros s a s' Hf Hd. destruct (H1 _ _ _ Hf Hd) as [Ha He].
    rewrite <- HE by done. split; [by apply HP|done].
  - intros s a rest Hf Hfu Ha Hr Hroom. rewrite <- HE in Hr, Hroom by (by apply HP).
    apply HP in Ha. eauto.
  - intros a Ha. rewrite <- HE by (by apply HP). by apply H6, HP.
Qed.

Lemma codec_proper {A} fuel (m m' : st Stream A) enc P :
  (∀ s, fresh s → m' s = m s) → codec fuel m enc P → codec fuel m' enc P.
Proof.
  intros Heq [H1 H2 H3 H4 H5 H6]. split; try done.
  - intros s ? ? Hf. rewrite Heq by done. by apply H1.
  - intros s ? ? Hf. rewrite Heq by done. by apply H2.
  - intros s Hf. rewrite Heq by done. by apply H3.
  - intros s ? Hf. rewrite Heq by done. by apply H4.
  - intros s ? ? Hf. rewrite Heq by done. by apply H5.
Qed.

Lemma codec_map {A B} fuel (m : st Stream A) (f : A → B) enc enc' P :
  codec fuel m enc P → (∀ a, enc' (f a) = enc a) →
  codec fuel (a ← m; mret (f a)) enc' (λ b, ∃ a, b = f a ∧ P a).
Proof.
  intros [H1 H2 H3 H4 H5 H6] HE. split.
  - intros s b s' Hf (a & s1 & Ha & [= <- <-])%st_bind_Ok.
    destruct (H1 _ _ _ Hf Ha). rewrite HE. eauto.
  - intros s b rest Hf Hfu (a & -> & Ha) Hr Hroom. rewrite HE in Hr, Hroom.
    destruct (H2 _ _ _ Hf Hfu Ha Hr Hroom) as (s' & E). exists s'.
    cbv [mbind st_bind]. by rewrite E.
  - intros s Hf Hfu He. destruct (H3 s Hf Hfu He) as (s' & E). exists s'.
    cbv [mbind st_bind]. by rewrite E.
  - intros s s' Hf. cbv [mbind st_bind]. destruct (m s) as [[]] eqn:E; [done| |done].
    intros [= -> ->]. by eapply H4.
  - intros s s' p Hf Hfu. cbv [mbind st_bind]. destruct (m s) as [[]] eqn:E; [done|done|].
    by destruct (H5 s s0 msg Hf Hfu).
  - intros b (a & -> & Ha). rewrite HE. auto.
Qed.

Lemma wrapStreamError_eol e : wrapStreamError e = EOL ↔ e = EOL.
Proof.
  split; [|intros ->; done]. unfold wrapStreamError. repeat case_match; done.
Qed.

Lemma codec_wrapped {A} fuel (m : st Stream A) enc P :
  codec fuel m enc P → codec fuel (wrapped m) enc P.
Proof.
  intros [H1 H2 H3 H4 H5 H6]. unfold wrapped, st_catch, st_fail. split; [..|done].
  - intros s a s' Hf. destruct (m s) as [[]] eqn:E; [|done..]. intros [= -> ->]. eauto.
  - intros s a rest Hf Hfu Ha Hr Hroom. destruct (H2 _ _ _ Hf Hfu Ha Hr Hroom) as (s' & ->). eauto.
  - intros s Hf Hfu He. destruct (H3 s Hf Hfu He) as (s' & ->). eauto.
  - intros s s' Hf. destruct (m s) as [[]] eqn:E; [done| |done].
    intros [= ->%wrapStreamError_eol ->]. eauto.
  - intros s s' p Hf Hfu. destruct (m s) as [[]] eqn:E; [done|done|].
    by destruct (H5 s s0 msg Hf Hfu).
Qed.

(** A check or conversion of what was decoded. *)
Lemma codec_check {A B} fuel (m : st Stream A) (k : A → st Stream B) (f : A → outcome B) enc enc' P P' :
  codec fuel m enc P → (∀ a s, k a s = (f a, s)) →
  (∀ a, f a ≠ Err EOL) → (∀ a p, f a ≠ Panic p) →
  (∀ b, P' b ↔ ∃ a, P a ∧ f a = Ok b) → (∀ a b, P a → f a = Ok b → enc' b = enc a) →
  codec fuel (m ≫= k) enc' P'.
Proof.
  intros [H1 H2 H3 H4 H5 H6] Hk Heol Hpan HP HE. split.
  - intros s b s' Hf (a & s1 & Ha & Hb)%st_bind_Ok. rewrite Hk in Hb. injection Hb as Hb <-.
    destruct (H1 _ _ _ Hf Ha). rewrite HP, (HE a b) by done. eauto.
  - intros s b rest Hf Hfu (a & Ha & Hb)%HP Hr Hroom. rewrite (HE a b) in Hr, Hroom by done.
    destruct (H2 _ _ _ Hf Hfu Ha Hr Hroom) as (s' & E). exists s'.
    cbv [mbind st_bind]. by rewrite E, Hk, Hb.
  - intros s Hf Hfu He. destruct (H3 s Hf Hfu He) as (s' & E). exists s'.
    cbv [mbind st_bind]. by rewrite E.
  - intros s s' Hf. cbv [mbind st_bind]. destruct (m s) as [[a|e|p] s1] eqn:E; [|intros [= -> ->]; by eapply H4|done].
    rewrite Hk. by intros [= ?%Heol _].
  - intros s s' p Hf Hfu. cbv [mbind st_bind]. destruct (m s) as [[a|e|q] s1] eqn:E; [|done|].
    + rewrite Hk. by intros [= ?%Hpan _].
    + by destruct (H5 s s1 q Hf Hfu).
  - intros b (a & Ha & Hb)%HP. rewrite (HE a b) by done. auto.
Qed.

Lemma decodeUint_codec fuel bits m :
  bits = 8 * m → 1 <= m <= 8 →
  codec fuel (decodeUint bits) value_bytes (λ v, ∃ i, v = VUint i ∧ 0 <= i < 2 ^ bits).
Proof.
  intros. eapply codec_map; [by eapply codec_wrapped, stream_uint_codec|done].
Qed.

Lemma decodeByteSlice_codec fuel :
  codec fuel decodeByteSlice value_bytes (λ v, ∃ b, v = VBytes b ∧ True).
Proof. eapply codec_map; [apply codec_wrapped, stream_Bytes_codec|done]. Qed.

Lemma decodeBool_codec fuel : codec fuel decodeBool value_bytes (λ v, ∃ b, v = VBool b).
Proof.
  unfold decodeBool. eapply codec_ext.
  - eapply (codec_map _ _ VBool (λ b, value_bytes (VBool b))); [|done].
    apply codec_wrapped. unfold stream_Bool.
    eapply (codec_check _ _ _ (λ num, if num =? 0 then Ok false else if num =? 1 then Ok true
      else Err (ErrNew "rlp: invalid boolean value")) _ _ _ (λ _, True)).
    + apply (stream_uint_codec fuel 8 1); lia.
    + intros a s. by repeat case_match.
    + intros a. by repeat case_match.
    + intros a p. by repeat case_match.
    + intros b. split; [|done]. intros _. exists (if b then 1 else 0). by destruct b.
    + intros a b _. repeat case_match; intros [= <-]; first [replace a with 0 by lia; done | replace a with 1 by lia; done].
  - intros v. split; [intros (b & -> & _)|intros (b & ->)]; eauto.
  - done.
Qed.

Lemma decodeBigInt_codec fuel :
  codec fuel decodeBigInt value_bytes (λ v, ∃ i, v = VBigInt (Some i) ∧ 0 <= i).
Proof.
  assert (∀ b, (0 <? len b) && (b2z (hd Byte.x00 b) =? 0) = false → big_Bytes (be_val b) = b) as Hmin.
  { intros [|c b] Hb; [done|]. apply big_Bytes_be_val. rewrite len_cons in Hb.
    pose proof (len_nonneg b). simpl in Hb. lia. }
  eapply (codec_check _ _ _ (λ b, if (0 <? len b) && (b2z (hd Byte.x00 b) =? 0)
    then Err (wrapStreamError ErrCanonInt) else Ok (VBigInt (Some (be_val b))))).
  - apply codec_wrapped, stream_Bytes_codec.
  - intros a s. by case_match.
  - intros a. by case_match.
  - intros a p. by case_match.
  - intros v. split.
    + intros (i & -> & Hi). exists (big_Bytes i). split; [done|].
      rewrite big_SetBytes_Bytes by done. case_match eqn:E; [|done].
      destruct (decide (i = 0)) as [->|]; [done|].
      destruct (big_Bytes_head i ltac:(lia)) as (c & l & E' & Hc). rewrite E' in E. simpl in E. lia.
    + intros (b & _ & Hb). case_match; [done|]. injection Hb as <-.
      pose proof (be_val_range b). eauto with lia.
  - intros b v _ Hb. case_match eqn:E; [done|]. injection Hb as <-. simpl. by rewrite Hmin.
Qed.

Lemma decodeByteArray_codec fuel n :
  n ≠ 1%nat →
  codec fuel (decodeByteArray (Z.of_nat n)) value_bytes (λ v, ∃ b, v = VBytes b ∧ length b = n).
Proof.
  intros Hn. apply (with_kind_codec fuel (λ k n, _)). split.
  - intros s s1 k sz a s' Hf Ha Hd. destruct k.
    + repeat case_match; try done. lia.
    + destruct (Z.ltb_spec (Z.of_nat n) sz); [done|].
      destruct (Z.ltb_spec sz (Z.of_nat n)); [done|]. assert (sz = Z.of_nat n) as -> by lia.
      apply st_bind_Ok in Hd as (b & s2 & Hr & Hd).
      destruct (ahead_readFull _ _ _ _ Hf Ha ltac:(done)) as (b' & s2' & Hr' & Hb & He);
        rewrite Hr' in Hr. injection Hr as <- <-.
      rewrite <- Hb, <- is_byte_hd in Hd. destruct (is_byte b') eqn:E; [done|]. injection Hd as <- <-.
      split; [exists b'; unfold len in Hb; split; [done|lia]|].
      cbn [value_bytes]. by rewrite rlp_str_kind, E, <- Hb in *.
    + done.
  - intros a (b & -> & _). do 4 eexists. apply shape_str.
  - intros s s1 k sz c a content rest Hf _ Ha (b & -> & Hlb) Hlen Hsh Hr Hc.
    apply shape_str_inv in Hsh as [(Hb & -> & -> & ->)|(Hb & -> & -> & ->)]; [done|..|done].
    unfold len at 1 2. rewrite Hlb, Z.ltb_irrefl.
    destruct (ahead_readFull_at _ _ _ _ _ _ Hf Ha ltac:(done) Hr eq_refl) as (s' & E).
    exists s'. cbv [mbind st_bind]. unfold len in E at 1. rewrite Hlb in E.
    rewrite E, <- is_byte_hd, Hb. done.
  - intros s s1 k sz s' Hf Ha. destruct k; [|..|done].
    + repeat case_match; try done. lia.
    + destruct (Z.ltb_spec (Z.of_nat n) sz); [done|].
      destruct (Z.ltb_spec sz (Z.of_nat n)); [done|]. assert (sz = Z.of_nat n) as -> by lia.
      cbv [mbind st_bind].
      destruct (ahead_readFull _ _ _ _ Hf Ha ltac:(done)) as (b & s2 & -> & _);
        by case_match.
  - intros s s1 k sz s' m Hf _ Ha. destruct k; [|..|done].
    + repeat case_match; try done. lia.
    + destruct (Z.ltb_spec (Z.of_nat n) sz); [done|].
      destruct (Z.ltb_spec sz (Z.of_nat n)); [done|]. assert (sz = Z.of_nat n) as -> by lia.
      cbv [mbind st_bind].
      destruct (ahead_readFull _ _ _ _ Hf Ha ltac:(done)) as (b & s2 & -> & _);
        by case_match.
Qed.

(** ** Lists *)

(** [s1] is [s] inside a list of [n] content bytes. *)
Record entered (s s1 : Stream) (n : Z) : Prop := {
  entered_fresh : fresh s1;
  entered_limited : s_limited s1 = s_limited s;
  entered_r : s_r s = kind_header KList n ++ s_r s1;
  entered_remaining : s_remaining s1 = s_remaining s - len (kind_header KList n);
  entered_stack : s_stack s1 = Listpos 0 n :: advance (len (kind_header KList n)) (s_stack s);
  entered_room : 0 <= n ∧ len (kind_header KList n) + n <= room s;
}.

Lemma ahead_entered s s1 n :
  fresh s → ahead s s1 KList n →
  entered s (set_ahead None 0 (s_kinderr s1) (set_stack (Listpos 0 n :: s_stack s1) s1)) n.
Proof.
  intros Hf Ha. pose proof (ahead_moves _ _ _ _ Ha) as Hm. cbn [kind_prefix] in Hm.
  pose proof (moves_valid _ _ _ (proj1 Hf) Hm) as Hv1.
  pose proof (ahead_room _ _ _ _ Ha). pose proof (room_bound _ Hv1).
  pose proof (moves_room_after _ _ _ Hm).
  split; cbn [set_ahead set_stack s_limited s_r s_remaining s_stack s_kind]; try apply Hm; [|f_equal; apply Hm|lia].
  pose proof (room_remaining _ Hv1).
  split; [|done]. destruct Hv1 as [HL HR HN HC]. split; simpl; try done.
  split; [lia|]. split; [lia|]. split; [lia|]. rewrite Z.add_0_r. split; [|done].
  unfold room in *. destruct (s_stack s1); [done|lia].
Qed.

Lemma leave_list s s1 s2 n c :
  fresh s → entered s s1 n → eats s1 s2 c →
  (len c = n ∧ ∃ s3, stream_ListEnd s2 = (Ok tt, s3) ∧ eats s s3 (rlp_list c)) ∨
  (len c ≠ n ∧ stream_ListEnd s2 = (Err errNotAtEOL, s2)).
Proof.
  intros Hf [_ HL HR HM HS HF] [[L R M S F] K]. unfold stream_ListEnd.
  rewrite S, HS. cbn [advance lpos lsize]. rewrite Z.add_0_l.
  destruct (Z.eqb_spec (len c) n) as [Hn|Hn]; [left|by right].
  split; [done|]. eexists. split; [done|]. split; [|done].
  unfold rlp_list. rewrite Hn. fold (kind_header KList n).
  split; cbn [set_ahead set_stack s_limited s_r s_remaining s_stack s_kind]; rewrite ?len_app, ?Hn.
  - congruence.
  - by rewrite HR, R, app_assoc.
  - lia.
  - unfold room in *. pose proof (valid_chain _ (proj1 Hf)) as HC.
    pose proof (len_nonneg (kind_header KList n)).
    destruct (s_stack s) as [|tos st]; cbn [advance lpos lsize]; [done|]. simpl in HC.
    rewrite wrap_small by lia. do 2 f_equal. lia.
  - lia.
Qed.

(** What reads the content of a list. *)
Record inner {A} (fuel : nat) (body : Z → st Stream A) (enc : A → list byte) (P : A → Prop) : Prop := {
  inner_sound : ∀ s n a s', fresh s → s_stack s ≠ [] → body n s = (Ok a, s') →
    (n = 0 → room s = 0) → P a ∧ eats s s' (enc a);
  inner_complete : ∀ s n a rest, fresh s → s_stack s ≠ [] → (length (s_r s) < fuel)%nat → P a →
    s_r s = enc a ++ rest → len (enc a) = room s → n = room s → ∃ s', body n s = (Ok a, s');
  inner_not_eol : ∀ s n s', fresh s → s_stack s ≠ [] → body n s ≠ (Err EOL, s');
  inner_total : ∀ s n s' m, fresh s → (length (s_r s) < fuel)%nat → body n s ≠ (Panic m, s');
}.

Lemma stream_List_spec s :
  fresh s →
  (at_eol s ∧ ∃ s', wrapped stream_List s = (Err EOL, s') ∧ eats s s' []) ∨
  (¬ at_eol s ∧ ∃ n s1, wrapped stream_List s = (Ok n, s1) ∧ entered s s1 n) ∨
  (¬ at_eol s ∧ (∀ c rest, s_r s = rlp_list c ++ rest → room s < len (rlp_list c)) ∧
    ∃ e s1, wrapped stream_List s = (Err e, s1) ∧ e ≠ EOL).
Proof.
  intros Hf. unfold wrapped, st_catch, stream_List. cbv [mbind st_bind].
  assert (∀ c rest, s_r s = rlp_list c ++ rest → len (rlp_list c) <= room s →
    ∃ s1, stream_Kind s = (Ok (KList, len c), s1)) as Hc.
  { intros c rest Hr Hroom. destruct (Kind_at_shape _ _ _ _ _ _ _ Hf (shape_list c) Hr Hroom) as (s1 & ? & _).
    eauto. }
  destruct (stream_Kind_spec s Hf) as [[Heol HK]|[(Heol & k & n & s1 & HK & Ha)|(Heol & Hno & e & s1 & HK & He)]];
    rewrite HK in *.
  - left. split; [done|]. eexists. split; [done|].
    destruct (moves_refl s (proj1 Hf)). by split.
  - destruct (decide (k = KList)) as [->|Hk].
    + right; left. split; [done|]. do 2 eexists. split; [done|]. by apply ahead_entered.
    + right; right. split; [done|]. split.
      * intros c rest Hr. destruct (Z.lt_ge_cases (room s) (len (rlp_list c))); [done|].
        destruct (Hc c rest Hr) as (s2 & [= -> _]); done.
      * destruct k; [..|done]; do 2 eexists; (split; [done|]); done.
  - right; right. split; [done|]. split.
    + intros c rest Hr. destruct (Z.lt_ge_cases (room s) (len (rlp_list c))); [done|].
      by destruct (Hc c rest Hr) as (s2 & [=]).
    + do 2 eexists. split; [done|]. by rewrite wrapStreamError_eol.
Qed.

Lemma stream_List_at s c rest :
  fresh s → s_r s = rlp_list c ++ rest → len (rlp_list c) <= room s →
  ∃ s1, wrapped stream_List s = (Ok (len c), s1) ∧ entered s s1 (len c) ∧ s_r s1 = c ++ rest.
Proof.
  intros Hf Hr Hroom.
  destruct (Kind_at_shape _ _ _ _ _ _ _ Hf (shape_list c) Hr Hroom) as (s1 & HK & Ha & Hr1 & _).
  eexists. unfold wrapped, st_catch, stream_List. cbv [mbind st_bind]. rewrite HK.
  split; [done|]. split; [by apply ahead_entered|done].
Qed.

Definition ends_list (lend : st Stream ()) : Prop := ∀ s,
  match stream_ListEnd s with
  | (Err e, s') => ∃ e', lend s = (Err e', s') ∧ e' ≠ EOL
  | r => lend s = r
  end.

Lemma ends_list_plain : ends_list stream_ListEnd.
Proof.
  intros s. destruct (stream_ListEnd s) as [[[]|e|p] s'] eqn:E; try done.
  exists e. split; [done|]. unfold stream_ListEnd in E.
  destruct (s_stack s) as [|tos st]; [by simplify_eq|]. by case_match; simplify_eq.
Qed.

Lemma ends_list_wrapped : ends_list (wrapped stream_ListEnd).
Proof.
  intros s. pose proof (ends_list_plain s) as H. unfold wrapped, st_catch.
  destruct (stream_ListEnd s) as [[[]|e|p] s'] eqn:E; try done.
  destruct H as (e' & [= <-] & He). eexists. split; [done|]. by rewrite wrapStreamError_eol.
Qed.

Lemma entered_shorter s s1 n : entered s s1 n → (length (s_r s1) < length (s_r s))%nat.
Proof.
  intros [_ _ Hr _ _ _]. rewrite Hr, length_app.
  pose proof (kind_prefix_pos KList n Byte.x00) as Hp. unfold len in Hp. cbn [kind_prefix] in Hp. lia.
Qed.

Lemma codec_weaken {A} fuel fuel' (m : st Stream A) enc P :
  (fuel' <= fuel)%nat → codec fuel m enc P → codec fuel' m enc P.
Proof.
  intros Hle [H1 H2 H3 H4 H5 H6]. split; try done.
  - intros s a rest Hf Hfu. apply H2; [done|lia].
  - intros s Hf Hfu. apply H3; [done|lia].
  - intros s s' p Hf Hfu. apply H5; [done|lia].
Qed.

Lemma list_codec {A} fuel (body : Z → st Stream A) (lend : st Stream ()) enc P :
  inner fuel body enc P → ends_list lend →
  codec (S fuel) (n ← wrapped stream_List; a ← body n; lend;; mret a) (λ a, rlp_list (enc a)) P.
Proof.
  intros [H1 H2 H3 H4] Hl. cbv [mbind st_bind]. split.
  - intros s a s' Hf Hd.
    destruct (stream_List_spec s Hf) as [(_ & s1 & E & _)|[(_ & n & s1 & E & He)|(_ & _ & e & s1 & E & _)]];
      rewrite E in Hd; [done| |done].
    destruct (body n s1) as [[a'| |] s2] eqn:Eb; [|done..].
    destruct (H1 s1 n a' s2) as [HP Heat]; [apply He|by rewrite (entered_stack _ _ _ He)|done|
      intros ->; unfold room; by rewrite (entered_stack _ _ _ He)|].
    pose proof (Hl s2) as Hl2.
    destruct (leave_list s s1 s2 n (enc a') Hf He Heat) as [(Hn & s3 & E3 & He3)|[Hn E3]];
      rewrite E3 in Hl2; [|by destruct Hl2 as (e' & Hl2 & _); rewrite Hl2 in Hd].
    rewrite Hl2 in Hd. by injection Hd as <- <-.
  - intros s a rest Hf Hfu HP Hr Hroom.
    destruct (stream_List_at s (enc a) rest Hf Hr Hroom) as (s1 & -> & He & Hr1).
    assert (room s1 = len (enc a)) as Hroom1.
    { unfold room. rewrite (entered_stack _ _ _ He). simpl. lia. }
    pose proof (entered_shorter _ _ _ He).
    assert (s_stack s1 ≠ []) as Hst by (by rewrite (entered_stack _ _ _ He)).
    destruct (H2 s1 (len (enc a)) a rest) as (s2 & Eb); auto; [apply He|lia|].
    rewrite Eb. destruct (H1 s1 _ a s2 (entered_fresh _ _ _ He) Hst Eb) as [_ Heat]; [lia|].
    pose proof (Hl s2) as Hl2.
    destruct (leave_list s s1 s2 _ _ Hf He Heat) as [(_ & s3 & E3 & He3)|[Hn _]]; [|done].
    rewrite E3 in Hl2. rewrite Hl2. eauto.
  - intros s Hf _ He. destruct (stream_List_spec s Hf) as [(_ & s1 & -> & ?)|[[? _]|[? _]]]; eauto; done.
  - intros s s' Hf Hd.
    destruct (stream_List_spec s Hf) as [(? & s1 & E & He)|[(_ & n & s1 & E & He)|(_ & _ & e & s1 & E & He)]];
      rewrite E in Hd; [by injection Hd as <-| |congruence].
    assert (s_stack s1 ≠ []) as Hst by (by rewrite (entered_stack _ _ _ He)).
    destruct (body n s1) as [[a|e|p] s2] eqn:Eb; [..|done].
    + specialize (Hl s2). destruct (stream_ListEnd s2) as [[[]|e|p] s3]; [by rewrite Hl in Hd| |by rewrite Hl in Hd].
      destruct Hl as (e' & Hl & ?). rewrite Hl in Hd. congruence.
    + injection Hd as -> ->. by destruct (H3 s1 n s' (entered_fresh _ _ _ He) Hst).
  - intros s s' m Hf Hfu Hd.
    destruct (stream_List_spec s Hf) as [(_ & s1 & E & _)|[(_ & n & s1 & E & He)|(_ & _ & e & s1 & E & _)]];
      rewrite E in Hd; [done| |done].
    pose proof (entered_shorter _ _ _ He).
    destruct (body n s1) as [[a|e|p] s2] eqn:Eb; [|done|].
    + specialize (Hl s2). unfold stream_ListEnd in Hl.
      destruct (s_stack s2) as [|tos st]; [by destruct Hl as (? & Hl & _); rewrite Hl in Hd|].
      destruct (lpos tos =? lsize tos); [by rewrite Hl in Hd|].
      by destruct Hl as (? & Hl & _); rewrite Hl in Hd.
    + by destruct (H4 s1 n s2 p (entered_fresh _ _ _ He) ltac:(lia)).
  - intros a _. do 4 eexists. apply shape_list.
Qed.

(** ** Elements *)

Lemma eats_room s s' b : eats s s' b → room s' = room s - len b.
Proof. intros [? _]. by apply moves_room_after. Qed.

Lemma eats_stack s s' b : eats s s' b → s_stack s ≠ [] → s_stack s' ≠ [].
Proof. intros [[_ _ _ Hs _] _] ?. rewrite Hs. by destruct (s_stack s). Qed.

Lemma eats_shorter s s' b : eats s s' b → Z.of_nat (length (s_r s')) = Z.of_nat (length (s_r s)) - len b.
Proof. intros [[_ Hr _ _ _] _]. rewrite Hr, length_app. unfold len. lia. Qed.

Lemma room_0_eol s : s_stack s ≠ [] → room s = 0 → at_eol s.
Proof. unfold room, at_eol. destruct (s_stack s); [done|]. intros _. lia. Qed.

Lemma at_eol_room s : at_eol s → room s = 0.
Proof. unfold room, at_eol. destruct (s_stack s); [done|]. lia. Qed.

(** The slice loop: it stops at the end of the list only. *)
Lemma sliceElems_sound {A} fuel (dec : st Stream A) enc P n s vs s' :
  codec fuel dec enc P → fresh s → s_stack s ≠ [] → decodeSliceElems dec n s = (Ok vs, s') →
  Forall P vs ∧ eats s s' (concat (map enc vs)) ∧ at_eol s'.
Proof.
  intros Hc. revert s vs s'. induction n as [|n IH]; intros s vs s' Hf Hst; [done|].
  cbn [decodeSliceElems]. destruct (dec s) as [[v|e|p] s1] eqn:E; [..|done].
  - intros (vs' & s2 & Hvs & [= <- <-])%st_bind_Ok.
    destruct (codec_sound _ _ _ _ Hc _ _ _ Hf E) as [HP He].
    destruct (IH s1 vs' s2) as (? & ? & ?); eauto using eats_stack with go.
    split; [auto|]. split; [|done]. simpl. by eapply eats_trans.
  - case_bool_decide as He; [subst|done]. intros [= <- <-].
    destruct (codec_only_eol _ _ _ _ Hc _ _ Hf E) as [Heol He]. split; [done|]. split; [done|].
    apply room_0_eol; [by eapply eats_stack|]. rewrite (eats_room _ _ _ He), len_nil.
    apply at_eol_room in Heol. lia.
Qed.

Lemma sliceElems_complete {A} fuel (dec : st Stream A) enc P n s vs rest :
  codec fuel dec enc P → fresh s → s_stack s ≠ [] →
  (length (s_r s) < fuel)%nat → (length (s_r s) < n)%nat → Forall P vs →
  s_r s = concat (map enc vs) ++ rest → len (concat (map enc vs)) = room s →
  ∃ s', decodeSliceElems dec n s = (Ok vs, s').
Proof.
  intros Hc. revert s vs. induction n as [|n IH]; intros s vs Hf Hst Hfu Hn HP Hr Hroom; [lia|].
  cbn [decodeSliceElems]. destruct HP as [|v vs Hv Hvs]; simpl in Hr, Hroom.
  - destruct (codec_eol _ _ _ _ Hc s Hf Hfu) as (s' & ->); [by apply room_0_eol|].
    rewrite bool_decide_eq_true_2 by done. eauto.
  - rewrite len_app in Hroom. rewrite <- app_assoc in Hr.
    pose proof (len_nonneg (concat (map enc vs))).
    destruct (codec_complete _ _ _ _ Hc s v _ Hf Hfu Hv Hr ltac:(lia)) as (s1 & E). rewrite E.
    destruct (codec_sound _ _ _ _ Hc _ _ _ Hf E) as [_ He].
    pose proof (eats_shorter _ _ _ He). pose proof (codec_nonempty _ _ _ _ Hc v Hv).
    destruct (IH s1 vs) as (s2 & E2); eauto using eats_stack with go; [lia..| |
      rewrite (eats_room _ _ _ He); lia|].
    + destruct He as [[_ Hr1 _ _ _] _]. rewrite Hr1 in Hr. by apply app_inv_head in Hr.
    + exists s2. cbv [mbind st_bind]. by rewrite E2.
Qed.

Lemma sliceElems_not_eol {A} (dec : st Stream A) n s s' :
  decodeSliceElems dec n s ≠ (Err EOL, s').
Proof.
  revert s s'. induction n as [|n IH]; intros s s'; [done|]. cbn [decodeSliceElems].
  destruct (dec s) as [[v|e|p] s1]; [..|done].
  - cbv [mbind st_bind]. pose proof (IH s1). destruct (decodeSliceElems dec n s1) as [[]]; naive_solver.
  - case_bool_decide; [done|]. congruence.
Qed.

Lemma sliceElems_total {A} fuel (dec : st Stream A) enc P n s s' m :
  codec fuel dec enc P → fresh s → (length (s_r s) < fuel)%nat → (length (s_r s) < n)%nat →
  decodeSliceElems dec n s ≠ (Panic m, s').
Proof.
  intros Hc. revert s s'. induction n as [|n IH]; intros s s' Hf Hfu Hn; [lia|].
  cbn [decodeSliceElems]. destruct (dec s) as [[v|e|p] s1] eqn:E.
  - destruct (codec_sound _ _ _ _ Hc _ _ _ Hf E) as [HP He].
    pose proof (eats_shorter _ _ _ He). pose proof (codec_nonempty _ _ _ _ Hc v HP).
    cbv [mbind st_bind]. pose proof (λ s', IH s1 s' ltac:(eauto with go) ltac:(lia) ltac:(lia)) as Hno.
    by destruct (decodeSliceElems dec n s1) as [[]].
  - by case_bool_decide.
  - by destruct (codec_total _ _ _ _ Hc s s1 p Hf Hfu).
Qed.

Lemma decodeListSlice_codec {A} fuel (dec : st Stream A) enc P :
  codec fuel dec enc P →
  codec (S fuel) (decodeListSlice dec fuel) (λ vs, rlp_list (concat (map enc vs))) (Forall P).
Proof.
  intros Hc.
  assert (codec (S fuel) (n ← wrapped stream_List;
    vs ← (if n =? 0 then mret [] else decodeSliceElems dec fuel);
    stream_ListEnd;; mret vs) (λ vs, rlp_list (concat (map enc vs))) (Forall P)) as Hl.
  { apply list_codec; [|apply ends_list_plain]. split.
    - intros s n vs s' Hf Hst Hd Hn0. destruct (Z.eqb_spec n 0) as [->|].
      + injection Hd as <- <-. split; [done|]. split; [by apply moves_refl, Hf|apply Hf].
      + by destruct (sliceElems_sound _ _ _ _ _ _ _ _ Hc Hf Hst Hd) as (? & ? & _).
    - intros s n vs rest Hf Hst Hfu HP Hr Hroom ->. destruct (Z.eqb_spec (room s) 0) as [Hz|].
      + exists s. destruct HP as [|v vs Hv HP]; [done|]. simpl in Hroom. rewrite len_app in Hroom.
        pose proof (codec_nonempty _ _ _ _ Hc v Hv). pose proof (len_nonneg (concat (map enc vs))). lia.
      + by eapply sliceElems_complete.
    - intros s n s' Hf Hst. case_match; [done|]. apply sliceElems_not_eol.
    - intros s n s' m Hf Hfu. case_match; [done|]. by eapply sliceElems_total. }
  revert Hl. apply codec_proper. intros s _. unfold decodeListSlice. cbv [mbind st_bind].
  destruct (wrapped stream_List s) as [[n| |] s1]; try done. by case_match.
Qed.

(** The loops over array elements and struct fields differ in their error. *)
Fixpoint decodeSeq {A} (msg : string) (decs : list (st Stream A)) : st Stream (list A) := λ s,
  match decs with
  | [] => (Ok [], s)
  | dec :: decs =>
      match dec s with
      | (Ok v, s) => (vs ← decodeSeq msg decs; mret (v :: vs)) s
      | (Err e, s) => if bool_decide (e = EOL) then (Err (decodeError msg), s) else (Err e, s)
      | (Panic m, s) => (Panic m, s)
      end
  end.

Lemma decodeFields_seq {A} (decs : list (st Stream A)) s :
  decodeFields decs s = decodeSeq "too few elements" decs s.
Proof.
  revert s; induction decs as [|dec decs IH]; intros s; [done|]. simpl.
  destruct (dec s) as [[]]; try done. cbv [mbind st_bind]. by rewrite IH.
Qed.

Lemma decodeArrayElems_seq {A} (dec : st Stream A) n s :
  decodeArrayElems dec n s = decodeSeq "input list has too few elements" (replicate n dec) s.
Proof.
  revert s; induction n as [|n IH]; intros s; [done|]. simpl.
  destruct (dec s) as [[]]; try done. cbv [mbind st_bind]. by rewrite IH.
Qed.

Lemma decodeSeq_inner {A} fuel msg (decs : list (st Stream A)) enc (Ps : list (A → Prop)) :
  Forall2 (λ dec P, codec fuel dec enc P) decs Ps →
  inner fuel (λ _, decodeSeq msg decs) (λ vs, concat (map enc vs)) (λ vs, Forall2 (λ v P, P v) vs Ps).
Proof.
  intros Hcs. split.
  - intros s _ vs s' Hf _ Hd _. revert s vs s' Hf Hd.
    induction Hcs as [|dec P decs Ps Hc _ IH]; intros s vs s' Hf Hd; simpl in Hd.
    { injection Hd as <- <-. split; [done|]. split; [by apply moves_refl, Hf|apply Hf]. }
    destruct (dec s) as [[v|e|p] s1] eqn:E; [|by case_bool_decide|done].
    apply st_bind_Ok in Hd as (vs' & s2 & Hvs & [= <- <-]).
    destruct (codec_sound _ _ _ _ Hc _ _ _ Hf E) as [HP He].
    destruct (IH s1 vs' s2) as (? & ?); eauto with go. split; [auto|]. simpl. by eapply eats_trans.
  - intros s _ vs rest Hf Hst Hfu HP Hr Hroom _.
    assert (len (concat (map enc vs)) <= room s) as Hroom' by lia. clear Hroom.
    revert s vs HP Hf Hfu Hr Hst Hroom'.
    induction Hcs as [|dec P decs Ps Hc _ IH]; intros s vs HP Hf Hfu Hr Hst Hroom; simpl.
    { inversion_clear HP. eauto. }
    inversion HP as [|v ? vs' ? Hv HP']; subst. simpl in Hr, Hroom. rewrite len_app in Hroom.
    rewrite <- app_assoc in Hr. pose proof (len_nonneg (concat (map enc vs'))).
    destruct (codec_complete _ _ _ _ Hc s v _ Hf Hfu Hv Hr ltac:(lia)) as (s1 & E). rewrite E.
    destruct (codec_sound _ _ _ _ Hc _ _ _ Hf E) as [_ He].
    pose proof (eats_shorter _ _ _ He). pose proof (codec_nonempty _ _ _ _ Hc v Hv).
    destruct (IH s1 vs') as (s2 & E2); eauto using eats_stack with go; [lia| |
      rewrite (eats_room _ _ _ He); lia|].
    + destruct He as [[_ Hr1 _ _ _] _]. rewrite Hr1 in Hr. by apply app_inv_head in Hr.
    + exists s2. cbv [mbind st_bind]. by rewrite E2.
  - intros s _ s' _ _. clear Hcs. revert s. induction decs as [|dec decs IH]; intros s; simpl; [done|].
    destruct (dec s) as [[v|e|p] s1]; [..|done].
    + cbv [mbind st_bind]. pose proof (IH s1). destruct (decodeSeq msg decs s1) as [[]]; naive_solver.
    + case_bool_decide; [|congruence]. done.
  - intros s _ s' m Hf Hfu. revert s Hf Hfu.
    induction Hcs as [|dec P decs Ps Hc _ IH]; intros s Hf Hfu; simpl; [done|].
    destruct (dec s) as [[v|e|p] s1] eqn:E.
    + destruct (codec_sound _ _ _ _ Hc _ _ _ Hf E) as [HP He].
      pose proof (eats_shorter _ _ _ He). pose proof (codec_nonempty _ _ _ _ Hc v HP).
      cbv [mbind st_bind]. pose proof (IH s1 ltac:(eauto with go) ltac:(lia)) as Hno.
      destruct (decodeSeq msg decs s1) as [[]]; naive_solver.
    + by case_bool_decide.
    + by destruct (codec_total _ _ _ _ Hc s s1 p Hf Hfu).
Qed.

Lemma decodeListArray_codec {A} fuel (dec : st Stream A) n enc P :
  codec fuel dec enc P →
  codec (S fuel) (decodeListArray dec n) (λ vs, rlp_list (concat (map enc vs)))
    (λ vs, Forall P vs ∧ length vs = n).
Proof.
  intros Hc. eapply codec_ext; [| |done].
  - eapply codec_proper; [|eapply list_codec;
      [eapply (decodeSeq_inner _ "input list has too few elements" (replicate n dec) _ (replicate n P))|
       apply ends_list_wrapped]].
    + intros s _. unfold decodeListArray. cbv [mbind st_bind].
      destruct (wrapped stream_List s) as [[]]; try done. by rewrite decodeArrayElems_seq.
    + by apply Forall2_replicate.
  - intros vs. split.
    + clear. revert n. induction vs as [|v vs IH]; intros [|n] H; inversion H; subst; [done|].
      destruct (IH n) as [? <-]; [done|]. simpl. auto.
    + clear. intros [H <-]. induction H; simpl; constructor; done.
Qed.

Lemma structDecoder_codec {A} fuel (decs : list (st Stream A)) enc Ps :
  Forall2 (λ dec P, codec fuel dec enc P) decs Ps →
  codec (S fuel) (structDecoder decs) (λ vs, rlp_list (concat (map enc vs)))
    (λ vs, Forall2 (λ v P, P v) vs Ps).
Proof.
  intros Hc. eapply codec_proper; [|eapply list_codec;
    [by eapply (decodeSeq_inner _ "too few elements" decs)|apply ends_list_wrapped]].
  intros s _. unfold structDecoder. cbv [mbind st_bind].
  destruct (wrapped stream_List s) as [[]]; try done. by rewrite decodeFields_seq.
Qed.

(** ** Decoders that look at the kind first *)

Definition peeks {A} (m : st Stream A) : Prop :=
  ∀ s kn s1, stream_Kind s = (Ok kn, s1) → m s1 = m s.

Lemma stream_Kind_again s kn s1 : stream_Kind s = (Ok kn, s1) → stream_Kind s1 = (Ok kn, s1).
Proof.
  unfold stream_Kind at 1. destruct (s_kind s) as [k|] eqn:Hk.
  - destruct (s_kinderr s) eqn:He; [done|]. intros [= <- <-]. unfold stream_Kind.
    by rewrite Hk, He.
  - case_match; [done|]. destruct (stream_readKind _) as [[[k n] err] s2].
    match goal with |- context [set_ahead (Some k) n ?e s2] => destruct e end; [done|].
    intros [= <- <-]. done.
Qed.

(** Errors of [Kind] are sticky. *)
Lemma stream_Kind_err_again s e s1 : stream_Kind s = (Err e, s1) → stream_Kind s1 = (Err e, s1).
Proof.
  unfold stream_Kind at 1. destruct (s_kind s) as [k|] eqn:Hk.
  - destruct (s_kinderr s) eqn:He; [|done]. intros [= <- <-]. unfold stream_Kind.
    by rewrite Hk, He.
  - case_match eqn:E.
    + intros [= <- <-]. unfold stream_Kind. simpl in *. by rewrite E.
    + destruct (stream_readKind _) as [[[k n] err] s2].
      match goal with |- context [set_ahead (Some k) n ?e s2] => destruct e end; [|done].
      intros [= <- <-]. done.
Qed.

Lemma peeks_Kind : peeks stream_Kind.
Proof. intros s kn s1 H. by rewrite H, (stream_Kind_again _ _ _ H). Qed.

Lemma peeks_bind {A B} (m : st Stream A) (f : A → st Stream B) : peeks m → peeks (m ≫= f).
Proof. intros Hm s kn s1 H. cbv [mbind st_bind]. by rewrite (Hm _ _ _ H). Qed.

Lemma peeks_wrapped {A} (m : st Stream A) : peeks m → peeks (wrapped m).
Proof. intros Hm s kn s1 H. unfold wrapped, st_catch. by rewrite (Hm _ _ _ H). Qed.

#[export] Hint Resolve peeks_Kind peeks_bind peeks_wrapped : go.

Lemma nilPtrDecoder_codec fuel nilKind (dec : st Stream value) P :
  nilKind ≠ KByte → peeks dec → codec fuel dec value_bytes P →
  codec fuel (nilPtrDecoder nilKind dec) value_bytes
    (λ v, v = VNilPtr nilKind ∨ (P v ∧ value_bytes v ≠ kind_header KString 0 ∧
                                 value_bytes v ≠ kind_header KList 0)).
Proof.
  intros Hk Hpk Hc.
  assert (∀ s k n s1, fresh s → stream_Kind s = (Ok (k, n), s1) →
    nilPtrDecoder nilKind dec s =
      if bool_decide (k ≠ KByte) && (n =? 0) then
        if bool_decide (k = nilKind) then (Ok (VNilPtr nilKind), set_kind None s1)
        else (Err (decodeError "wrong kind of empty value"), s1)
      else dec s) as Hrun.
  { intros s k n s1 Hf HK. unfold nilPtrDecoder, wrapped, st_catch. cbv [mbind st_bind].
    rewrite HK. pose proof (Hpk _ _ _ HK) as Hd.
    destruct k, nilKind; try done; simpl; by case_match. }
  assert (∀ s e s1, stream_Kind s = (Err e, s1) →
    nilPtrDecoder nilKind dec s = (Err (wrapStreamError e), s1)) as Herr.
  { intros s e s1 HK. unfold nilPtrDecoder, wrapped, st_catch. cbv [mbind st_bind]. by rewrite HK. }
  split.
  - intros s v s' Hf Hd.
    destruct (stream_Kind_spec s Hf) as [[_ HK]|[(_ & k & n & s1 & HK & Ha)|(_ & _ & e & s1 & HK & _)]];
      [by rewrite (Herr _ _ _ HK) in Hd| |by rewrite (Herr _ _ _ HK) in Hd].
    rewrite (Hrun _ _ _ _ Hf HK) in Hd. destruct (bool_decide (k ≠ KByte) && (n =? 0)) eqn:E.
    + case_bool_decide as Hkk; [subst|done]. injection Hd as <- <-. split; [by left|].
      destruct (ahead_moves _ _ _ _ Ha). apply andb_prop in E as [E ?]. assert (n = 0) as -> by lia.
      destruct nilKind; [done|..]; by split.
    + destruct (codec_sound _ _ _ _ Hc _ _ _ Hf Hd) as [HP He]. split; [|done]. right.
      split; [done|].
      assert (∀ k', k' ≠ KByte → value_bytes v ≠ kind_header k' 0) as Hne; [|by split; apply Hne].
      intros k' Hk' Hv. rewrite Hv in He. destruct He as [He _].
      pose proof (ahead_room _ _ _ _ Ha).
      pose proof (room_bound _ (moves_valid _ _ _ (proj1 Hf) (ahead_moves _ _ _ _ Ha))).
      destruct (starts_unique s s1 k n k' 0 Byte.x00) as (-> & -> & _); [apply Hf|..|lia|apply Ha|].
      * exists (s_r s'). destruct He. destruct k'; [done|..];
          (split; [done|]; split; [done|]; split; [cbn [kind_prefix]; lia|done]).
      * apply Ha.
      * by rewrite bool_decide_eq_true_2 in E.
  - intros s v rest Hf Hfu Hv Hr Hroom. destruct Hv as [->|(Hv & Hn1 & Hn2)].
    + assert (shape (value_bytes (VNilPtr nilKind)) nilKind 0 Byte.x00 []) as Hsh
        by (destruct nilKind; done).
      destruct (Kind_at_shape _ _ _ _ _ _ _ Hf Hsh Hr Hroom) as (s1 & HK & _).
      rewrite (Hrun _ _ _ _ Hf HK). rewrite !bool_decide_eq_true_2 by done. by eexists.
    + destruct (codec_shape _ _ _ _ Hc v Hv) as (k & n & c & content & Hsh).
      destruct (Kind_at_shape _ _ _ _ _ _ _ Hf Hsh Hr Hroom) as (s1 & HK & _).
      rewrite (Hrun _ _ _ _ Hf HK).
      destruct (bool_decide (k ≠ KByte) && (n =? 0)) eqn:E; [|by eapply codec_complete].
      exfalso. apply andb_prop in E as [E ?]. apply bool_decide_eq_true in E.
      destruct Hsh as (He & Hn & _). assert (n = 0) as -> by lia.
      destruct content; [|rewrite len_cons in Hn; pose proof (len_nonneg content); lia].
      rewrite app_nil_r in He. by destruct k.
  - intros s Hf _ He. destruct (stream_Kind_spec s Hf) as [[_ HK]|[[? _]|[? _]]]; [|done..].
    rewrite (Herr _ _ _ HK). by eexists.
  - intros s s' Hf Hd.
    destruct (stream_Kind_spec s Hf) as [[? HK]|[(_ & k & n & s1 & HK & Ha)|(_ & _ & e & s1 & HK & He)]].
    + rewrite (Herr _ _ _ HK) in Hd. injection Hd as <-. split; [done|]. by apply set_ahead_eats.
    + rewrite (Hrun _ _ _ _ Hf HK) in Hd. repeat case_match; try done. by eapply codec_only_eol.
    + rewrite (Herr _ _ _ HK) in Hd. injection Hd as Hd _.
      by apply (proj1 (wrapStreamError_eol e)) in Hd.
  - intros s s' m Hf Hfu Hd.
    destruct (stream_Kind_spec s Hf) as [[_ HK]|[(_ & k & n & s1 & HK & Ha)|(_ & _ & e & s1 & HK & _)]];
      [by rewrite (Herr _ _ _ HK) in Hd| |by rewrite (Herr _ _ _ HK) in Hd].
    rewrite (Hrun _ _ _ _ Hf HK) in Hd. repeat case_match; try done. by eapply codec_total.
  - intros v [->|(Hv & _)]; [|by eapply codec_shape].
    exists nilKind, 0, Byte.x00, []. by destruct nilKind.
Qed.

Lemma decode_peeks fuel t : ty_ok t = true → peeks (decode fuel t).
Proof.
  intros Hok. destruct t; try destruct tail; try done; cbn [decode];
    unfold decodeUint, decodeBool, decodeBigInt, decodeByteSlice, decodeByteArray, Raw,
      decodeListSlice, decodeListArray, structDecoder, nilPtrDecoder, stream_uint, stream_Bool,
      stream_Bytes, stream_List; eauto 10 with go.
Qed.

Lemma decode_codec fuel t :
  ty_ok t = true → codec fuel (decode fuel t) value_bytes (has_type t).
Proof.
  induction t as [|bits| | | |n|tail t IH|n t IH|l IH|k t IH] using ty_ind'; cbn [ty_ok]; intros Hok;
    cbn [decode has_type].
  - eapply codec_map; [apply Raw_codec|done].
  - eapply (decodeUint_codec _ _ (bits / 8)).
    + apply andb_prop in Hok as [[Hm _]%andb_prop _]. pose proof (Z.div_mod bits 8). lia.
    + apply andb_prop in Hok as [[Hm ?]%andb_prop ?]. pose proof (Z.div_mod bits 8). lia.
  - apply decodeBool_codec.
  - apply decodeBigInt_codec.
  - apply decodeByteSlice_codec.
  - apply decodeByteArray_codec. intros ->. done.
  - apply andb_prop in Hok as [Ht Hok]. destruct tail; [done|].
    apply (codec_weaken (S fuel)); [lia|].
    eapply codec_map; [by apply decodeListSlice_codec, IH|done].
  - apply (codec_weaken (S fuel)); [lia|].
    eapply codec_map; [by apply decodeListArray_codec, IH|done].
  - apply (codec_weaken (S fuel)); [lia|].
    eapply codec_map; [apply (structDecoder_codec _ _ value_bytes (map has_type l))|done].
    induction IH as [|t l Ht _ IHl]; simpl; constructor; simpl in Hok;
      apply andb_prop in Hok as [? ?]; auto.
  - apply andb_prop in Hok as [Hk Hok]. apply bool_decide_eq_true in Hk.
    apply nilPtrDecoder_codec; [done|by apply decode_peeks|by apply IH].
Qed.

(** A stream with an input limit inside its data, or with the length of the
    data as its limit. *)
Lemma Reset_fresh b n : len b < 2 ^ 63 → 0 < n <= len b ∨ n = len b → fresh (Reset b n).
Proof.
  intros Hb Hn. pose proof (len_nonneg b). unfold Reset. split; [|done].
  split; simpl; try done. bool_cases.
Qed.

Lemma Reset_room b n : 0 < n <= len b ∨ n = len b → room (Reset b n) = n.
Proof. intros Hn. pose proof (len_nonneg b). unfold Reset, room. simpl. bool_cases. Qed.

(** A decoder run on a whole byte slice. *)
Lemma DecodeBytes_codec {A} fuel (dec : st Stream A) enc P b :
  codec fuel dec enc P → len b < 2 ^ 63 → (length b < fuel)%nat →
  (∀ m, DecodeBytes dec b ≠ Panic m) ∧
  ∀ a, DecodeBytes dec b = Ok a ↔ P a ∧ b = enc a.
Proof.
  intros Hc Hb Hfu. pose proof (Reset_fresh b (len b) Hb ltac:(auto)) as Hf. unfold DecodeBytes. split.
  - intros m. destruct (dec _) as [[a|e|p] s'] eqn:E; [by case_match|done|].
    by destruct (codec_total _ _ _ _ Hc _ s' p Hf Hfu).
  - intros a. split.
    + destruct (dec _) as [[a'|e|p] s'] eqn:E; [|done..].
      destruct (codec_sound _ _ _ _ Hc _ _ _ Hf E) as [HP [[_ Hr _ _ _] _]].
      destruct (Z.ltb_spec 0 (len (s_r s'))); [done|]. intros [= ->]. split; [done|].
      simpl in Hr. destruct (s_r s') eqn:Es; [by rewrite app_nil_r in Hr|].
      rewrite len_cons in *. pose proof (len_nonneg l). lia.
    + intros [HP ->].
      destruct (codec_complete _ _ _ _ Hc (Reset (enc a) (len (enc a))) a [] Hf Hfu HP) as (s' & E).
      * by rewrite app_nil_r.
      * rewrite Reset_room by auto. done.
      * rewrite E. destruct (codec_sound _ _ _ _ Hc _ _ _ Hf E) as [_ [[_ Hr _ _ _] _]].
        simpl in Hr. rewrite <- (app_nil_r (enc a)) in Hr at 1. apply app_inv_head in Hr.
        by rewrite <- Hr.
Qed.



(** ** Decoding into [interface{}] *)

Lemma stream_Bytes_peeks : peeks stream_Bytes.
Proof. unfold stream_Bytes. eauto with go. Qed.

Lemma decodeListSlice_peeks {A} (dec : st Stream A) fuel : peeks (decodeListSlice dec fuel).
Proof. unfold decodeListSlice, stream_List. eauto with go. Qed.

(** The two branches of [decodeInterface]. *)
Lemma decodeInterface_run fuel s k n s1 :
  stream_Kind s = (Ok (k, n), s1) →
  decodeInterface (S fuel) s =
    if bool_decide (k = KList)
    then (l ← decodeListSlice (decodeInterface fuel) fuel; mret (Lst l)) s
    else (b ← stream_Bytes; mret (Str b)) s.
Proof.
  intros HK. cbn [decodeInterface]. cbv [mbind st_bind]. rewrite HK.
  destruct k; simpl;
    by rewrite ?(stream_Bytes_peeks _ _ _ HK), ?(decodeListSlice_peeks _ _ _ _ _ HK).
Qed.

Lemma decodeInterface_err fuel s e s1 :
  stream_Kind s = (Err e, s1) → decodeInterface (S fuel) s = (Err e, s1).
Proof. intros HK. cbn [decodeInterface]. cbv [mbind st_bind]. by rewrite HK. Qed.

Lemma decodeInterface_codec fuel : codec fuel (decodeInterface fuel) rlp (λ _, True).
Proof.
  induction fuel as [|fuel IH].
  { split; try done; try (intros; lia).
    intros [] _; [do 4 eexists; apply shape_str|do 4 eexists; apply shape_list]. }
  assert (codec (S fuel) (l ← decodeListSlice (decodeInterface fuel) fuel; mret (Lst l)) rlp
    (λ it, ∃ l, it = Lst l ∧ Forall (λ _, True) l)) as HL.
  { eapply codec_map; [by apply decodeListSlice_codec|done]. }
  assert (codec (S fuel) (b ← stream_Bytes; mret (Str b)) rlp (λ it, ∃ b, it = Str b ∧ True)) as HS.
  { eapply codec_map; [apply stream_Bytes_codec|done]. }
  split.
  - intros s it s' Hf Hd. split; [done|].
    destruct (stream_Kind_spec s Hf) as [[_ HK]|[(_ & k & n & s1 & HK & Ha)|(_ & _ & e & s1 & HK & _)]];
      [by rewrite (decodeInterface_err _ _ _ _ HK) in Hd| |by rewrite (decodeInterface_err _ _ _ _ HK) in Hd].
    rewrite (decodeInterface_run _ _ _ _ _ HK) in Hd.
    case_bool_decide; [by apply (codec_sound _ _ _ _ HL) in Hd as [_ ?]|
                       by apply (codec_sound _ _ _ _ HS) in Hd as [_ ?]].
  - intros s it rest Hf Hfu _ Hr Hroom. destruct it as [b|l].
    + destruct (Kind_at_shape _ _ _ _ _ _ _ Hf (shape_str b) Hr Hroom) as (s1 & HK & _).
      rewrite (decodeInterface_run _ _ _ _ _ HK), bool_decide_eq_false_2 by (by destruct (is_byte b)).
      apply (codec_complete _ _ _ _ HS s (Str b) rest); eauto.
    + destruct (Kind_at_shape _ _ _ _ _ _ _ Hf (shape_list _) Hr Hroom) as (s1 & HK & _).
      rewrite (decodeInterface_run _ _ _ _ _ HK), bool_decide_eq_true_2 by done.
      apply (codec_complete _ _ _ _ HL s (Lst l) rest); eauto.
      exists l. split; [done|]. by apply Forall_true.
  - intros s Hf _ He. destruct (stream_Kind_spec s Hf) as [[_ HK]|[[? _]|[? _]]]; [|done..].
    rewrite (decodeInterface_err _ _ _ _ HK). by eexists.
  - intros s s' Hf Hd.
    destruct (stream_Kind_spec s Hf) as [[? HK]|[(_ & k & n & s1 & HK & Ha)|(_ & _ & e & s1 & HK & He)]];
      [..|rewrite (decodeInterface_err _ _ _ _ HK) in Hd; congruence].
    { rewrite (decodeInterface_err _ _ _ _ HK) in Hd. injection Hd as <-. split; [done|].
      by apply set_ahead_eats. }
    rewrite (decodeInterface_run _ _ _ _ _ HK) in Hd. case_bool_decide;
      [by apply (codec_only_eol _ _ _ _ HL)|by apply (codec_only_eol _ _ _ _ HS)].
  - intros s s' m Hf Hfu Hd.
    destruct (stream_Kind_spec s Hf) as [[_ HK]|[(_ & k & n & s1 & HK & Ha)|(_ & _ & e & s1 & HK & _)]];
      [by rewrite (decodeInterface_err _ _ _ _ HK) in Hd| |by rewrite (decodeInterface_err _ _ _ _ HK) in Hd].
    rewrite (decodeInterface_run _ _ _ _ _ HK) in Hd. case_bool_decide;
      [by apply (codec_total _ _ _ _ HL) in Hd|by apply (codec_total _ _ _ _ HS) in Hd].
  - intros it _. destruct it; [do 4 eexists; apply shape_str|do 4 eexists; apply shape_list].
Qed.

Theorem DecodeBytes_interface_correct (b : list byte) :
  len b < 2 ^ 63 →
  (∀ m, DecodeBytes (decodeInterface (S (length b))) b ≠ Panic m) ∧
  ∀ it, DecodeBytes (decodeInterface (S (length b))) b = Ok it ↔ b = rlp it.
Proof.
  intros Hb. destruct (DecodeBytes_codec _ _ _ _ b (decodeInterface_codec (S (length b))) Hb)
    as [H1 H2]; [lia|]. split; [done|]. intros it. rewrite H2. tauto.
Qed.

Lemma DecodeBytes_interface_correct_witness :
  DecodeBytes (decodeInterface 5) [Byte.xc3; Byte.x01; Byte.xc0; Byte.x80] = Ok (Lst [Str [Byte.x01]; Lst []; Str []]).
Proof.
  apply (proj2 (proj2 (DecodeBytes_interface_correct [Byte.xc3; Byte.x01; Byte.xc0; Byte.x80] ltac:(reflexivity)) _)).
  reflexivity.
Defined.

(** ** One-byte arrays *)

Theorem decode_byte_array_slice_diverges (fuel : nat) :
  DecodeBytes (decode fuel (TSlice false (TByteArray 1))) [Byte.xc1; Byte.x00]
    = Panic "out of fuel".
Proof.
  set (s0 := MkStream [Byte.x00] 1 true None 0 Byte.x00 None [Listpos 0 1]).
  set (s1 := MkStream [] 0 true (Some KByte) 0 Byte.x00 None [Listpos 1 1]).
  assert (∀ f, decodeSliceElems (decodeByteArray 1) f s1 = (Panic "out of fuel", s1)) as Hloop.
  { induction f as [|f IH]; [done|]. cbn [decodeSliceElems].
    assert (decodeByteArray 1 s1 = (Ok (VBytes [Byte.x00]), s1)) as -> by done.
    cbv [mbind st_bind]. by rewrite IH. }
  unfold DecodeBytes. cbn [decode]. unfold decodeListSlice. change (Z.of_nat 1) with 1.
  cbv [mbind st_bind].
  assert (wrapped stream_List (Reset [Byte.xc1; Byte.x00] (len [Byte.xc1; Byte.x00])) = (Ok 1, s0))
    as -> by done.
  destruct fuel as [|fuel]; [done|]. cbn [decodeSliceElems Z.eqb].
  assert (decodeByteArray 1 s0 = (Ok (VBytes [Byte.x00]), s1)) as -> by done.
  cbv [mbind st_bind]. by rewrite Hloop.
Qed.

Theorem DecodeReceiptsBytes_swallows_errors (fuel : nat) (t : ty) (b : list byte) :
  ty_ok t = true → len b < 2 ^ 63 → (length b < fuel)%nat →
  DecodeReceiptsBytes (decode fuel t) b = Ok None ↔
  ∃ e, DecodeBytes (decode fuel t) b = Err e ∧ ∀ v rest, has_type t v → b ≠ value_bytes v ++ rest.
Proof.
  intros Hok Hb Hfu. pose proof (Reset_fresh b (len b) Hb ltac:(auto)) as Hf. pose proof (decode_codec fuel t Hok) as Hc.
  unfold DecodeReceiptsBytes, DecodeBytes.
  destruct (decode fuel t _) as [[a|e|p] s'] eqn:E.
  - destruct (codec_sound _ _ _ _ Hc _ _ _ Hf E) as [HP [[_ Hr _ _ _] _]].
    split; [by case_match|]. intros (e & _ & Hno). by destruct (Hno a (s_r s')).
  - split; [|done]. intros _. exists e. split; [done|]. intros a rest HP ->.
    destruct (codec_complete _ _ _ _ Hc _ a rest Hf Hfu HP) as (s2 & E2); [done| |congruence].
    rewrite Reset_room, len_app by auto. pose proof (len_nonneg rest). lia.
  - by destruct (codec_total _ _ _ _ Hc _ s' p Hf Hfu).
Qed.

Lemma DecodeReceiptsBytes_swallows_errors_witness :
  ∃ e, DecodeBytes (decode 5 TBool) [Byte.x02] = Err e ∧ ∀ v rest, has_type TBool v → [Byte.x02] ≠ value_bytes v ++ rest.
Proof.
  apply (proj1 (DecodeReceiptsBytes_swallows_errors 5 TBool [Byte.x02] eq_refl ltac:(reflexivity) ltac:(simpl; lia))).
  vm_compute. reflexivity.
Defined.
