(* ===== verification/GoIO.v ===== *)
(** Readers of package [io].

    A reader is the data it has still to deliver, cut into the pieces its
    [Read] calls return: one piece for a [bytes.Reader], several for a
    buffered or decompressing reader.  [io.ReadFull] does not depend on how the
    data is cut, a bare [Read] does. *)

From S2P Require Import Prelude.

Definition reader : Type := list (list byte).

Definition bytes_NewReader (b : list byte) : reader := [b].

(** [r.Read(b)] with a buffer of [n] bytes. *)
Fixpoint r_Read (n : nat) (r : reader) : outcome (list byte) * reader :=
  match r with
  | [] => (Err io_EOF, [])
  | [] :: r => r_Read n r
  | c :: r => (Ok (take n c), drop n c :: r)
  end.

(** The loop of [io.ReadFull]: [acc] is what was read, [need] what is missing.
    Every round reads at least one byte, so [need] rounds are enough. *)
Fixpoint ReadFull_loop (fuel : nat) (acc : list byte) (need : nat) (r : reader)
    : outcome (list byte) * reader :=
  match need with
  | O => (Ok acc, r)
  | _ =>
      match fuel with
      | O => (Panic "out of fuel", r)
      | S fuel =>
          match r_Read need r with
          | (Ok b, r) => ReadFull_loop fuel (acc ++ b) (need - length b) r
          | (Err e, r) =>
              (Err (match acc with
                    | [] => e
                    | _ => if bool_decide (e = io_EOF) then io_ErrUnexpectedEOF else e
                    end), r)
          | (Panic m, r) => (Panic m, r)
          end
      end
  end.

Definition ReadFull (n : nat) : st reader (list byte) := ReadFull_loop n [] n.

(** [parses m S]: what [m] reads depends only on the data, not on how it is
    cut.  [S l a rest] says that [m] accepts the data [l], returning [a] and
    leaving [rest]. *)
Definition parses {A} (m : st reader A) (S : list byte → A → list byte → Prop) : Prop :=
  ∀ r a rest, (∃ r', m r = (Ok a, r') ∧ concat r' = rest) ↔ S (concat r) a rest.

(** [m] accepts exactly the encodings [enc a] of the values satisfying [P]. *)
Definition decodes {A} (m : st reader A) (enc : A → list byte) (P : A → Prop) : Prop :=
  parses m (λ l a rest, P a ∧ l = enc a ++ rest).

(** ** Lemmas *)

Lemma r_Read_spec n r :
  (0 < n)%nat →
  (concat r = [] ∧ r_Read n r = (Err io_EOF, [])) ∨
  (∃ b r', r_Read n r = (Ok b, r') ∧ concat r = b ++ concat r' ∧ (1 <= length b <= n)%nat).
Proof.
  intros Hn. induction r as [|c r IH]; [by left|]. destruct c as [|x c]; [exact IH|].
  right. exists (take n (x :: c)), (drop n (x :: c) :: r). split; [done|].
  simpl concat. rewrite app_assoc, take_drop. split; [done|].
  rewrite length_take. simpl. lia.
Qed.

Lemma ReadFull_loop_spec fuel acc need r :
  (need <= fuel)%nat →
  (∃ b r', ReadFull_loop fuel acc need r = (Ok (acc ++ b), r') ∧ length b = need ∧
           concat r = b ++ concat r') ∨
  ((length (concat r) < need)%nat ∧ ∃ r', concat r' = [] ∧ ReadFull_loop fuel acc need r =
    (Err (match acc ++ concat r with [] => io_EOF | _ => io_ErrUnexpectedEOF end), r')).
Proof.
  revert acc need r; induction fuel as [|fuel IH]; intros acc need r Hf.
  { assert (need = 0)%nat as -> by lia. left. exists [], r. by rewrite app_nil_r. }
  destruct need as [|need]; [left; exists [], r; by rewrite app_nil_r|].
  cbn [ReadFull_loop].
  destruct (r_Read_spec (S need) r ltac:(lia)) as [[Hr ->]|(b & r1 & -> & Hr & Hb)].
  - right. rewrite Hr. split; [simpl; lia|]. exists []. split; [done|].
    rewrite app_nil_r. by destruct acc.
  - destruct (IH (acc ++ b) (S need - length b)%nat r1 ltac:(lia))
      as [(b2 & r2 & -> & Hb2 & Hr2)|(Hlt & r2 & Hr2 & ->)].
    + left. exists (b ++ b2), r2. rewrite app_assoc, length_app. split; [done|].
      split; [lia|]. by rewrite Hr, Hr2, app_assoc.
    + right. rewrite Hr, length_app. split; [lia|]. exists r2. split; [done|].
      by rewrite app_assoc.
Qed.

(** [io.ReadFull] delivers the next [n] bytes, or reports the end of the data. *)
Lemma ReadFull_spec n r :
  (∃ b r', ReadFull n r = (Ok b, r') ∧ length b = n ∧ concat r = b ++ concat r') ∨
  ((length (concat r) < n)%nat ∧ ∃ r', concat r' = [] ∧ ReadFull n r =
    (Err (match concat r with [] => io_EOF | _ => io_ErrUnexpectedEOF end), r')).
Proof. apply (ReadFull_loop_spec n [] n r). lia. Qed.

Lemma ReadFull_decodes n : decodes (ReadFull n) (λ b, b) (λ b, length b = n).
Proof.
  intros r a rest. split.
  - intros (r' & E & <-).
    destruct (ReadFull_spec n r) as [(b & r2 & E2 & Hb & Hr)|(_ & r2 & _ & E2)];
      rewrite E2 in E; [|done]. by injection E as <- <-.
  - intros [Ha Hr]. destruct (ReadFull_spec n r) as [(b & r' & -> & Hb & Hr')|(Hlt & _)].
    + rewrite Hr in Hr'. apply app_inj_1 in Hr' as [-> ->]; [|lia]. eauto.
    + rewrite Hr, length_app in Hlt. lia.
Qed.

Lemma parses_bind {A B} (m : st reader A) (f : A → st reader B) S T :
  parses m S → (∀ a, parses (f a) (T a)) →
  parses (m ≫= f) (λ l b rest, ∃ a mid, S l a mid ∧ T a mid b rest).
Proof.
  intros Hm Hf r b rest. split.
  - intros (r' & (a & r1 & Ha & Hb)%st_bind_Ok & Hr'). exists a, (concat r1). split.
    + apply Hm. eauto.
    + apply Hf. eauto.
  - intros (a & mid & (r1 & Ha & <-)%Hm & (r2 & Hb & <-)%Hf). exists r2.
    cbv [mbind st_bind]. by rewrite Ha.
Qed.

Lemma parses_ret {A} (a : A) : parses (mret a) (λ l b rest, b = a ∧ rest = l).
Proof.
  intros r b rest. split.
  - by intros (r' & [= <- <-] & <-).
  - intros [-> ->]. by exists r.
Qed.

Lemma parses_fail {A} e : parses (st_fail (A:=A) e) (λ _ _ _, False).
Proof. intros r b rest. split; [|done]. by intros (? & ? & _). Qed.

Lemma parses_ext {A} (m : st reader A) S S' :
  parses m S → (∀ l a rest, S l a rest ↔ S' l a rest) → parses m S'.
Proof. intros Hm Heq r a rest. by rewrite <- Heq. Qed.

Lemma parses_if {A} (b : bool) (m1 m2 : st reader A) S1 S2 :
  parses m1 S1 → parses m2 S2 →
  parses (if b then m1 else m2) (λ l a rest, if b then S1 l a rest else S2 l a rest).
Proof. by destruct b. Qed.

#[export] Hint Resolve parses_bind parses_ret parses_fail parses_if : go.

(** A decoder whose result is checked or converted. *)
Lemma decodes_bind {A B} (m : st reader A) (f : A → st reader B) enc P T :
  decodes m enc P → (∀ a, P a → parses (f a) (T a)) →
  parses (m ≫= f) (λ l b rest, ∃ a mid, (P a ∧ l = enc a ++ mid) ∧ T a mid b rest).
Proof.
  intros Hm Hf r b rest. split.
  - intros (r' & (a & r1 & Ha & Hb)%st_bind_Ok & Hr'). exists a, (concat r1).
    assert (P a ∧ concat r = enc a ++ concat r1) as [HP ?] by (apply Hm; eauto).
    split; [done|]. apply Hf; eauto.
  - intros (a & mid & Hs & HT). destruct (id Hs) as [HP _].
    apply Hm in Hs as (r1 & Ha & <-). apply (Hf a HP) in HT as (r2 & Hb & <-). exists r2.
    cbv [mbind st_bind]. by rewrite Ha.
Qed.
