(* ===== verification/VarBytes.v ===== *)
(** Variable length integers and byte arrays, src/l2geth/common/varbytes.go.

    Writers append to a [bytes.Buffer], which never fails, and are modelled by
    the bytes they append; readers run on the readers of [GoIO].  The unused
    protocol version argument is left out.  Every value has exactly one
    encoding that the readers accept. *)

From S2P Require Import Prelude GoIO.

Definition messageError (f desc : string) : error := ErrNew (f ++ ": " ++ desc)%string.

(** ** binaryFreeList: fixed-width integers *)

Definition Uint8 : st reader Z := buf ← ReadFull 1; mret (le_val buf).
Definition Uint16 : st reader Z := buf ← ReadFull 2; mret (le_val buf).
Definition Uint32 : st reader Z := buf ← ReadFull 4; mret (le_val buf).
Definition Uint64 : st reader Z := buf ← ReadFull 8; mret (le_val buf).

Definition PutUint8 (val : Z) : list byte := le 1 val.
Definition PutUint16 (val : Z) : list byte := le 2 val.
Definition PutUint32 (val : Z) : list byte := le 4 val.
Definition PutUint64 (val : Z) : list byte := le 8 val.

(** ** Variable length integers *)

Definition errNonCanonicalVarInt : string := "non-canonical varint".

Definition ReadVarInt : st reader Z :=
  discriminant ← Uint8;
  if discriminant =? 0xff then
    rv ← Uint64;
    if rv <? 0x100000000 then st_fail (messageError "ReadVarInt" errNonCanonicalVarInt)
    else mret rv
  else if discriminant =? 0xfe then
    rv ← Uint32;
    if rv <? 0x10000 then st_fail (messageError "ReadVarInt" errNonCanonicalVarInt)
    else mret rv
  else if discriminant =? 0xfd then
    rv ← Uint16;
    if rv <? 0xfd then st_fail (messageError "ReadVarInt" errNonCanonicalVarInt)
    else mret rv
  else mret discriminant.

Definition WriteVarInt (val : Z) : list byte :=
  if val <? 0xfd then PutUint8 (u8 val)
  else if val <=? 2 ^ 16 - 1 then PutUint8 0xfd ++ PutUint16 (u16 val)
  else if val <=? 2 ^ 32 - 1 then PutUint8 0xfe ++ PutUint32 (u32 val)
  else PutUint8 0xff ++ PutUint64 val.

Definition VarIntSerializeSize (val : Z) : Z :=
  if val <? 0xfd then 1
  else if val <=? 2 ^ 16 - 1 then 3
  else if val <=? 2 ^ 32 - 1 then 5
  else 9.

(** ** Variable length strings and byte arrays *)

Definition ReadVarString : st reader (list byte) :=
  count ← ReadVarInt;
  if 2 ^ 63 <=? count then st_panic "makeslice: len out of range"
  else ReadFull (Z.to_nat count).

Definition WriteVarString (str : list byte) : list byte :=
  WriteVarInt (u64 (len str)) ++ str.

Definition ReadVarBytes (maxAllowed : Z) (fieldName : string) : st reader (list byte) :=
  count ← ReadVarInt;
  if maxAllowed <? count then
    st_fail (messageError "ReadVarBytes" (fieldName ++ " is larger than the max allowed size")%string)
  else ReadFull (Z.to_nat count).

Definition WriteVarBytes (bytes : list byte) : list byte :=
  WriteVarInt (u64 (len bytes)) ++ bytes.

(** ** Lemmas *)

(** The fixed-width readers. *)
Lemma uintN_decodes (n : nat) :
  decodes (buf ← ReadFull n; mret (le_val buf)) (le n) (λ v, 0 <= v < 256 ^ Z.of_nat n).
Proof.
  eapply parses_ext.
  - eapply (decodes_bind _ _ _ _ _ (ReadFull_decodes n)). intros a _. apply parses_ret.
  - intros l v rest. split.
    + intros (b & mid & [<- ->] & -> & ->). rewrite le_le_val. split; [apply le_val_range|done].
    + intros [Hv ->]. exists (le n v), rest.
      rewrite length_le, le_val_le, Z.mod_small by done. done.
Qed.

Lemma WriteVarInt_cases (v : Z) :
  0 <= v < 2 ^ 64 →
  (v < 0xfd ∧ WriteVarInt v = le 1 v) ∨
  (0xfd <= v < 2 ^ 16 ∧ WriteVarInt v = le 1 0xfd ++ le 2 v) ∨
  (2 ^ 16 <= v < 2 ^ 32 ∧ WriteVarInt v = le 1 0xfe ++ le 4 v) ∨
  (2 ^ 32 <= v ∧ WriteVarInt v = le 1 0xff ++ le 8 v).
Proof.
  intros Hv. unfold WriteVarInt, PutUint8, PutUint16, PutUint32, PutUint64.
  destruct (Z.ltb_spec v 0xfd); [left; by rewrite wrap_small by lia|].
  destruct (Z.leb_spec v (2 ^ 16 - 1)); [right; left; rewrite wrap_small by lia; split; [lia|done]|].
  destruct (Z.leb_spec v (2 ^ 32 - 1)); [do 2 right; left; rewrite wrap_small by lia; split; [lia|done]|].
  do 3 right. split; [lia|done].
Qed.

(** A number behind a discriminant byte. *)
Lemma wide_decodes (n : nat) min :
  decodes (rv ← (buf ← ReadFull n; mret (le_val buf));
    if rv <? min then st_fail (messageError "ReadVarInt" errNonCanonicalVarInt) else mret rv)
    (le n) (λ v, min <= v < 256 ^ Z.of_nat n ∧ 0 <= v).
Proof.
  eapply parses_ext.
  - eapply (decodes_bind _ _ _ _ _ (uintN_decodes n)). intros a _.
    apply parses_if; [apply parses_fail|apply parses_ret].
  - intros l v rest. split.
    + intros (a & mid & [Ha ->] & H). destruct (Z.ltb_spec a min); [done|].
      destruct H as [-> ->]. split; [lia|done].
    + intros [Hv ->]. exists v, rest. rewrite (proj2 (Z.ltb_ge _ _)) by lia. repeat split; lia || done.
Qed.

Lemma ReadVarInt_decodes : decodes ReadVarInt WriteVarInt (λ v, 0 <= v < 2 ^ 64).
Proof.
  eapply parses_ext.
  - eapply (decodes_bind _ _ _ _ _ (uintN_decodes 1)). intros d _.
    apply parses_if; [apply wide_decodes|]. apply parses_if; [apply wide_decodes|].
    apply parses_if; [apply wide_decodes|apply parses_ret].
  - intros l v rest. cbv [Uint64 Uint32 Uint16]. split.
    + intros (d & mid & [Hd ->] & H). change (256 ^ Z.of_nat 1) with 256 in *.
      change (256 ^ Z.of_nat 2) with (2 ^ 16) in *. change (256 ^ Z.of_nat 4) with (2 ^ 32) in *.
      change (256 ^ Z.of_nat 8) with (2 ^ 64) in *.
      destruct (Z.eqb_spec d 0xff) as [->|]; [destruct H as [? ->]|
        destruct (Z.eqb_spec d 0xfe) as [->|]; [destruct H as [? ->]|
        destruct (Z.eqb_spec d 0xfd) as [->|]; [destruct H as [? ->]|destruct H as [-> ->]]]];
        (split; [lia|]);
        match goal with |- context [WriteVarInt ?v] =>
          destruct (WriteVarInt_cases v) as [[? ->]|[[? ->]|[[? ->]|[? ->]]]] end;
        try lia; by rewrite ?app_assoc.
    + intros [Hv ->]. destruct (WriteVarInt_cases v Hv) as [[? ->]|[[? ->]|[[? ->]|[? ->]]]].
      * exists v, rest. rewrite !(proj2 (Z.eqb_neq _ _)) by lia. simpl. repeat split; lia || done.
      * exists 0xfd, (le 2 v ++ rest). rewrite app_assoc. simpl. repeat split; lia || done.
      * exists 0xfe, (le 4 v ++ rest). rewrite app_assoc. simpl. repeat split; lia || done.
      * exists 0xff, (le 8 v ++ rest). rewrite app_assoc. simpl. repeat split; lia || done.
Qed.

Lemma WriteVarInt_size v : 0 <= v < 2 ^ 64 → len (WriteVarInt v) = VarIntSerializeSize v.
Proof.
  intros Hv. unfold len, VarIntSerializeSize.
  destruct (WriteVarInt_cases v Hv) as [[? ->]|[[? ->]|[[? ->]|[? ->]]]];
    rewrite ?length_app, !length_le; bool_cases; done.
Qed.

Lemma ReadVarBytes_decodes max name :
  0 <= max < 2 ^ 32 → decodes (ReadVarBytes max name) WriteVarBytes (λ b, len b <= max).
Proof.
  intros Hmax. eapply parses_ext.
  - eapply (decodes_bind _ _ _ _ _ ReadVarInt_decodes). intros c _.
    apply parses_if; [apply parses_fail|apply ReadFull_decodes].
  - intros l b rest. unfold WriteVarBytes. split.
    + intros (c & mid & [Hc ->] & H). destruct (Z.ltb_spec max c); [done|].
      destruct H as [Hb ->]. assert (len b = c) as Hl by (unfold len; lia).
      rewrite Hl, wrap_small, app_assoc by lia. split; [lia|done].
    + intros [Hb ->]. pose proof (len_nonneg b). rewrite wrap_small by lia.
      exists (len b), (b ++ rest). rewrite app_assoc, (proj2 (Z.ltb_ge _ _)) by lia.
      unfold len in *. repeat split; lia || done.
Qed.

Lemma ReadVarString_decodes : decodes ReadVarString WriteVarString (λ b, len b < 2 ^ 63).
Proof.
  eapply parses_ext.
  - eapply (decodes_bind _ _ _ _ _ ReadVarInt_decodes). intros c _.
    apply parses_if; [|apply ReadFull_decodes].
    instantiate (1 := λ _ _ _, False). intros r b rest. split; [by intros (? & ? & _)|done].
  - intros l b rest. unfold WriteVarString. split.
    + intros (c & mid & [Hc ->] & H). destruct (Z.leb_spec (2 ^ 63) c); [done|].
      destruct H as [Hb ->]. assert (len b = c) as Hl by (unfold len; lia).
      rewrite Hl, wrap_small, app_assoc by lia. split; [lia|done].
    + intros [Hb ->]. pose proof (len_nonneg b). rewrite wrap_small by lia.
      exists (len b), (b ++ rest). rewrite app_assoc, (proj2 (Z.leb_gt _ _)) by lia.
      unfold len in *. repeat split; lia || done.
Qed.

Lemma ReadVarBytes_at max name b rest r :
  0 <= max < 2 ^ 32 → len b <= max → concat r = WriteVarBytes b ++ rest →
  ∃ r', ReadVarBytes max name r = (Ok b, r') ∧ concat r' = rest.
Proof. intros Hm Hb Hr. apply ReadVarBytes_decodes; [done|]. done. Qed.

Lemma ReadVarBytes_too_long max name b rest r :
  max < len b → len b < 2 ^ 64 → concat r = WriteVarBytes b ++ rest →
  ∃ r', ReadVarBytes max name r =
    (Err (messageError "ReadVarBytes" (name ++ " is larger than the max allowed size")%string), r').
Proof.
  intros Hm Hb Hr. pose proof (len_nonneg b). unfold WriteVarBytes in Hr.
  rewrite wrap_small, <- app_assoc in Hr by lia.
  destruct (proj2 (ReadVarInt_decodes r (len b) (b ++ rest))) as (r' & E & _); [split; [lia|done]|].
  exists r'. unfold ReadVarBytes. cbv [mbind st_bind]. rewrite E.
  by rewrite (proj2 (Z.ltb_lt _ _)) by lia.
Qed.

Theorem VarInt_VarBytes_canonical (max v : Z) (name : string) (b rest : list byte) (r : reader) :
  0 <= max < 2 ^ 32 →
  ((∃ r', ReadVarInt r = (Ok v, r') ∧ concat r' = rest) ↔
    0 <= v < 2 ^ 64 ∧ concat r = WriteVarInt v ++ rest) ∧
  ((∃ r', ReadVarBytes max name r = (Ok b, r') ∧ concat r' = rest) ↔
    len b <= max ∧ concat r = WriteVarBytes b ++ rest) ∧
  ((∃ r', ReadVarString r = (Ok b, r') ∧ concat r' = rest) ↔
    len b < 2 ^ 63 ∧ concat r = WriteVarString b ++ rest) ∧
  (0 <= v < 2 ^ 64 → len (WriteVarInt v) = VarIntSerializeSize v).
Proof.
  intros Hmax. split; [apply ReadVarInt_decodes|]. split; [by apply ReadVarBytes_decodes|].
  split; [apply ReadVarString_decodes|apply WriteVarInt_size].
Qed.

Lemma VarInt_VarBytes_canonical_witness :
  (∃ r', ReadVarInt [[Byte.xfd; Byte.x2c]; [Byte.x01; Byte.x07]] = (Ok 300, r') ∧ concat r' = [Byte.x07]) ∧
  (∃ r', ReadVarBytes 10 "field" [[Byte.x02; Byte.x61]; [Byte.x62]] = (Ok [Byte.x61; Byte.x62], r') ∧ concat r' = []).
Proof.
  split.
  - apply (proj1 (VarInt_VarBytes_canonical 10 300 "field" [] [Byte.x07]
      [[Byte.xfd; Byte.x2c]; [Byte.x01; Byte.x07]] ltac:(lia))). split; [lia | reflexivity].
  - apply (proj1 (proj2 (VarInt_VarBytes_canonical 10 0 "field" [Byte.x61; Byte.x62] []
      [[Byte.x02; Byte.x61]; [Byte.x62]] ltac:(lia)))). split; [vm_compute; discriminate | reflexivity].
Defined.
