(* ===== verification/TxMeta.v ===== *)
(** Transaction metadata and its storage format,
    src/l2geth/core/types/transaction_meta.go.

    A pointer field is an [option], an address a list of 20 bytes, a nil byte
    slice [None].  Decoding what was encoded gives the metadata back, except
    for a raw transaction that reads as the null value or is too long. *)

From S2P Require Import Prelude GoIO VarBytes.

(** ** QueueOrigin *)

Definition QueueOriginSequencer : Z := 0.
Definition QueueOriginL1ToL2 : Z := 1.

Definition QueueOrigin_String (q : Z) : string :=
  if q =? QueueOriginSequencer then "sequencer"
  else if q =? QueueOriginL1ToL2 then "l1"
  else "".

(** The JSON string without its quotes. *)
Definition QueueOrigin_UnmarshalJSON (b : string) : outcome Z :=
  if bool_decide (b = "sequencer"%string) then Ok QueueOriginSequencer
  else if bool_decide (b = "l1"%string) then Ok QueueOriginL1ToL2
  else Err (ErrNew "Unknown QueueOrigin").

(** ** TransactionMeta *)

Record TransactionMeta := {
  L1BlockNumber : option Z;
  L1Timestamp : Z;
  L1MessageSender : option (list byte);
  QueueOrigin : Z;
  Index : option Z;
  QueueIndex : option Z;
  RawTransaction : option (list byte);
}.

Definition NewTransactionMeta (l1BlockNumber : option Z) (l1timestamp : Z)
    (l1MessageSender : option (list byte)) (queueOrigin : Z)
    (index queueIndex : option Z) (rawTransaction : option (list byte)) : TransactionMeta :=
  {| L1BlockNumber := l1BlockNumber; L1Timestamp := l1timestamp;
     L1MessageSender := l1MessageSender; QueueOrigin := queueOrigin;
     Index := index; QueueIndex := queueIndex; RawTransaction := rawTransaction |}.

Definition getNullValue : list byte := [Byte.x00].

Definition isNullValue (b : list byte) : bool := bool_decide (b = [Byte.x00]).

(** [binary.Read] into a variable of [n] bytes whose error is dropped: the
    variable keeps its zero value when the input is too short. *)
Definition binary_Read (n : nat) (b : list byte) : list byte :=
  if Nat.ltb (length b) n then replicate n Byte.x00 else take n b.

Definition TxMetaDecode_fields : st reader TransactionMeta :=
  lb ← ReadVarBytes 1024 "l1BlockNumber";
  let l1BlockNumber := if isNullValue lb then None else Some (be_val lb) in
  mb ← ReadVarBytes 1024 "L1MessageSender";
  let l1MessageSender := if isNullValue mb then None else Some (binary_Read 20 mb) in
  qo ← ReadVarBytes 1024 "QueueOrigin";
  let queueOrigin := if isNullValue qo then 0 else u8 (u64 (be_val qo)) in
  l ← ReadVarBytes 1024 "L1Timestamp";
  let l1Timestamp := le_val (binary_Read 8 l) in
  i ← ReadVarBytes 1024 "Index";
  let index := if isNullValue i then None else Some (u64 (be_val i)) in
  qi ← ReadVarBytes 1024 "QueueIndex";
  let queueIndex := if isNullValue qi then None else Some (u64 (be_val qi)) in
  raw ← ReadVarBytes 130000 "RawTransaction";
  let rawTransaction := if isNullValue raw then None else Some raw in
  mret (NewTransactionMeta l1BlockNumber l1Timestamp l1MessageSender queueOrigin
          index queueIndex rawTransaction).

Definition TxMetaDecode (input : list byte) : outcome TransactionMeta :=
  (TxMetaDecode_fields (bytes_NewReader input)).1.

(** [big.Int.Bytes] is that of the absolute value. *)
Definition TxMetaEncode (meta : TransactionMeta) : list byte :=
  WriteVarBytes (match L1BlockNumber meta with
                 | None => getNullValue
                 | Some n => big_Bytes (Z.abs n)
                 end) ++
  WriteVarBytes (default getNullValue (L1MessageSender meta)) ++
  WriteVarBytes (le 1 (QueueOrigin meta)) ++
  WriteVarBytes (le 8 (L1Timestamp meta)) ++
  WriteVarBytes (match Index meta with None => getNullValue | Some i => big_Bytes i end) ++
  WriteVarBytes (match QueueIndex meta with None => getNullValue | Some i => big_Bytes i end) ++
  WriteVarBytes (default getNullValue (RawTransaction meta)).

(** ** Well-formed metadata *)

(** The field types, a block number that is not negative and fits, and an
    address of 20 bytes. *)
Definition meta_fields_ok (meta : TransactionMeta) : bool :=
  match L1BlockNumber meta with
  | None => true
  | Some n => (0 <=? n) && Nat.leb (bytelen n) 1024
  end &&
  match L1MessageSender meta with None => true | Some a => Nat.eqb (length a) 20 end &&
  ((0 <=? QueueOrigin meta) && (QueueOrigin meta <? 2 ^ 8)) &&
  ((0 <=? L1Timestamp meta) && (L1Timestamp meta <? 2 ^ 64)) &&
  match Index meta with None => true | Some i => (0 <=? i) && (i <? 2 ^ 64) end &&
  match QueueIndex meta with None => true | Some i => (0 <=? i) && (i <? 2 ^ 64) end.

(** What survives of a raw transaction. *)
Definition raw_after (raw : option (list byte)) : option (list byte) :=
  match raw with
  | None => None
  | Some b => if isNullValue b then None else Some b
  end.

(** ** Theorems *)

Lemma isNullValue_big i : 0 <= i → isNullValue (big_Bytes i) = false.
Proof.
  intros Hi. apply bool_decide_eq_false. intros E.
  destruct (decide (i = 0)) as [->|]; [done|].
  destruct (big_Bytes_head i ltac:(lia)) as (c & l & E' & Hc). rewrite E in E'. by simplify_eq.
Qed.

Lemma len_big_Bytes_bound i n : 0 <= i < 256 ^ Z.of_nat n → len (big_Bytes i) <= Z.of_nat n.
Proof. intros Hi. rewrite len_big_Bytes. pose proof (bytelen_bound i n Hi). lia. Qed.

Lemma binary_Read_exact n b : length b = n → binary_Read n b = b.
Proof.
  intros <-. unfold binary_Read. rewrite (proj2 (Nat.ltb_ge _ _)) by lia. apply firstn_all.
Qed.

(** Each optional number is read back from its field. *)
Lemma index_field (o : option Z) :
  match o with None => true | Some i => (0 <=? i) && (i <? 2 ^ 64) end = true →
  let b := match o with None => getNullValue | Some i => big_Bytes i end in
  len b <= 1024 ∧ (if isNullValue b then None else Some (u64 (be_val b))) = o.
Proof.
  destruct o as [i|]; simpl; [|done]. intros Hi.
  pose proof (len_big_Bytes_bound i 8 ltac:(simpl; lia)).
  rewrite isNullValue_big, big_SetBytes_Bytes, wrap_small by lia. split; [lia|done].
Qed.

Lemma block_field (o : option Z) :
  match o with None => true | Some n => (0 <=? n) && Nat.leb (bytelen n) 1024 end = true →
  let b := match o with None => getNullValue | Some n => big_Bytes (Z.abs n) end in
  len b <= 1024 ∧ (if isNullValue b then None else Some (be_val b)) = o.
Proof.
  destruct o as [n|]; simpl; [|done]. intros Hn. apply andb_prop in Hn as [? Hn%Nat.leb_le].
  rewrite Z.abs_eq, isNullValue_big, big_SetBytes_Bytes, len_big_Bytes by lia. split; [lia|done].
Qed.

Lemma sender_field (o : option (list byte)) :
  match o with None => true | Some a => Nat.eqb (length a) 20 end = true →
  let b := default getNullValue o in
  len b <= 1024 ∧ (if isNullValue b then None else Some (binary_Read 20 b)) = o.
Proof.
  destruct o as [a|]; simpl; [|done]. intros Ha%Nat.eqb_eq.
  unfold len. rewrite binary_Read_exact by done. split; [lia|].
  assert (isNullValue a = false) as ->; [|done]. apply bool_decide_eq_false. by intros ->.
Qed.

Lemma origin_field q :
  (0 <=? q) && (q <? 2 ^ 8) = true →
  (if isNullValue (le 1 q) then 0 else u8 (u64 (be_val (le 1 q)))) = q.
Proof.
  intros Hq. assert (be_val (le 1 q) = q) as Ebe.
  { change (be_val (le 1 q)) with (le_val (le 1 q)). rewrite le_val_le. apply Z.mod_small. simpl. lia. }
  rewrite Ebe, (wrap_small 64), (wrap_small 8) by lia. case_match eqn:E; [|done]. apply bool_decide_eq_true in E.
  rewrite E in Ebe. by rewrite <- Ebe.
Qed.

Lemma time_field t :
  (0 <=? t) && (t <? 2 ^ 64) = true → le_val (binary_Read 8 (le 8 t)) = t.
Proof.
  intros Ht. rewrite binary_Read_exact by apply length_le. rewrite le_val_le.
  apply Z.mod_small. simpl. lia.
Qed.

Theorem TxMeta_roundtrip (meta : TransactionMeta) (rest : list byte) :
  meta_fields_ok meta = true → len (default [] (RawTransaction meta)) < 2 ^ 63 →
  TxMetaDecode (TxMetaEncode meta ++ rest) =
    if len (default [] (RawTransaction meta)) <=? 130000 then
      Ok (NewTransactionMeta (L1BlockNumber meta) (L1Timestamp meta) (L1MessageSender meta)
            (QueueOrigin meta) (Index meta) (QueueIndex meta) (raw_after (RawTransaction meta)))
    else Err (messageError "ReadVarBytes" "RawTransaction is larger than the max allowed size").
Proof.
  unfold meta_fields_ok.
  intros (((((Hn & Ha)%andb_prop & Hq)%andb_prop & Ht)%andb_prop & Hi)%andb_prop & Hqi)%andb_prop Hraw.
  unfold TxMetaDecode, TxMetaDecode_fields, TxMetaEncode.
  remember (bytes_NewReader _) as r eqn:Er. apply (f_equal (@concat byte)) in Er.
  unfold bytes_NewReader in Er. cbn [concat] in Er. rewrite app_nil_r, <- !app_assoc in Er.
  destruct (block_field _ Hn) as [Hnb Enb], (sender_field _ Ha) as [Hsb Esb],
    (index_field _ Hi) as [Hib Eib], (index_field _ Hqi) as [Hqb Eqb].
  cbv [mbind st_bind].
  destruct (ReadVarBytes_at 1024 "l1BlockNumber" _ _ r ltac:(lia) Hnb Er) as (r1 & -> & Er1).
  destruct (ReadVarBytes_at 1024 "L1MessageSender" _ _ r1 ltac:(lia) Hsb Er1) as (r2 & -> & Er2).
  destruct (ReadVarBytes_at 1024 "QueueOrigin" (le 1 _) _ r2 ltac:(lia) ltac:(done) Er2) as (r3 & -> & Er3).
  destruct (ReadVarBytes_at 1024 "L1Timestamp" (le 8 _) _ r3 ltac:(lia) ltac:(done) Er3) as (r4 & -> & Er4).
  destruct (ReadVarBytes_at 1024 "Index" _ _ r4 ltac:(lia) Hib Er4) as (r5 & -> & Er5).
  destruct (ReadVarBytes_at 1024 "QueueIndex" _ _ r5 ltac:(lia) Hqb Er5) as (r6 & -> & Er6).
  destruct (Z.leb_spec (len (default [] (RawTransaction meta))) 130000) as [Hl|Hl].
  - destruct (ReadVarBytes_at 130000 "RawTransaction" (default getNullValue (RawTransaction meta)) _ r6 ltac:(lia)
      ltac:(by destruct (RawTransaction meta)) Er6) as (r7 & -> & _).
    cbv [mret st_ret fst]. rewrite Enb, Esb, origin_field, time_field, Eib, Eqb by done.
    by destruct (RawTransaction meta).
  - destruct (RawTransaction meta) as [raw|]; [|done]. simpl in Hl, Hraw.
    destruct (ReadVarBytes_too_long 130000 "RawTransaction" raw _ r6 ltac:(lia) ltac:(lia) Er6)
      as (r7 & ->). done.
Qed.

Lemma TxMeta_roundtrip_witness :
  let m := NewTransactionMeta (Some 1000) 1650000000 (Some (replicate 20 Byte.xaa)) QueueOriginL1ToL2
             (Some 7) (Some 3) (Some [Byte.x01; Byte.x02]) in
  TxMetaDecode (TxMetaEncode m ++ [Byte.xff]) = Ok m.
Proof.
  exact (TxMeta_roundtrip (NewTransactionMeta (Some 1000) 1650000000 (Some (replicate 20 Byte.xaa)) QueueOriginL1ToL2
    (Some 7) (Some 3) (Some [Byte.x01; Byte.x02])) [Byte.xff] eq_refl ltac:(reflexivity)).
Defined.
