(* ===== verification/Transaction.v ===== *)
(** Transactions of l2geth: src/l2geth/core/types/transaction.go and
    transaction_signing.go.

    [txdata] is the consensus content of a transaction, [Transaction] adds the
    rollup metadata and the caches.  The theorems: the RLP encoding of a
    transaction is canonical and decoding caches its true size; metadata never
    enters the encoding; the sender recovered from a signed transaction is the
    owner of the signature.  Keccak and public key recovery are parameters. *)

From S2P Require Import Prelude Rlp RlpStream RlpStreamFacts TxMeta.

(** ** Data *)

Record txdata := {
  AccountNonce : Z;
  Price : Z;
  GasLimit : Z;
  Recipient : option (list byte);
  Amount : Z;
  Payload : list byte;
  tx_V : Z;
  tx_R : Z;
  tx_S : Z;
}.

Inductive Signer :=
  | EIP155Signer (chainId : Z)
  | HomesteadSigner
  | FrontierSigner.

(** [tx_hash], [tx_size] and [tx_from] are the caches; the cached sender comes
    with the signer that derived it. *)
Record Transaction := {
  data : txdata;
  meta : TransactionMeta;
  tx_hash : option (list byte);
  tx_size : option Z;
  tx_from : option (Signer * list byte);
}.

Definition newTransaction (nonce : Z) (to : option (list byte)) (amount : option Z)
    (gasLimit : Z) (gasPrice : option Z) (input : list byte) : Transaction :=
  {| data := {| AccountNonce := nonce; Price := default 0 gasPrice; GasLimit := gasLimit;
                Recipient := to; Amount := default 0 amount; Payload := input;
                tx_V := 0; tx_R := 0; tx_S := 0 |};
     meta := NewTransactionMeta None 0 None QueueOriginSequencer None None None;
     tx_hash := None; tx_size := None; tx_from := None |}.

Definition NewTransaction nonce to amount gasLimit gasPrice input : Transaction :=
  newTransaction nonce (Some to) amount gasLimit gasPrice input.

Definition NewContractCreation nonce amount gasLimit gasPrice input : Transaction :=
  newTransaction nonce None amount gasLimit gasPrice input.

Definition set_data (d : txdata) (t : Transaction) : Transaction :=
  {| data := d; meta := meta t; tx_hash := tx_hash t; tx_size := tx_size t; tx_from := tx_from t |}.

Definition set_meta (m : TransactionMeta) (t : Transaction) : Transaction :=
  {| data := data t; meta := m; tx_hash := tx_hash t; tx_size := tx_size t; tx_from := tx_from t |}.

Definition SetTransactionMeta (m : option TransactionMeta) (t : Transaction) : Transaction :=
  match m with None => t | Some m => set_meta m t end.

Definition GetMeta (t : Transaction) : TransactionMeta := meta t.

Definition SetIndex (index : Z) (t : Transaction) : Transaction :=
  let m := meta t in
  set_meta (NewTransactionMeta (L1BlockNumber m) (L1Timestamp m) (L1MessageSender m)
    (QueueOrigin m) (Some index) (QueueIndex m) (RawTransaction m)) t.

Definition SetL1Timestamp (ts : Z) (t : Transaction) : Transaction :=
  let m := meta t in
  set_meta (NewTransactionMeta (L1BlockNumber m) ts (L1MessageSender m)
    (QueueOrigin m) (Index m) (QueueIndex m) (RawTransaction m)) t.

Definition SetL1BlockNumber (bn : Z) (t : Transaction) : Transaction :=
  let m := meta t in
  set_meta (NewTransactionMeta (Some bn) (L1Timestamp m) (L1MessageSender m)
    (QueueOrigin m) (Index m) (QueueIndex m) (RawTransaction m)) t.

(** [SetNonce] leaves the caches as they are. *)
Definition SetNonce (nonce : Z) (t : Transaction) : Transaction :=
  let d := data t in
  set_data {| AccountNonce := nonce; Price := Price d; GasLimit := GasLimit d;
    Recipient := Recipient d; Amount := Amount d; Payload := Payload d;
    tx_V := tx_V d; tx_R := tx_R d; tx_S := tx_S d |} t.

Definition Cost (t : Transaction) : Z :=
  Price (data t) * GasLimit (data t) + Amount (data t).

(** The message the state transition works on. *)
Record Message := {
  msg_to : option (list byte);
  msg_from : list byte;
  msg_nonce : Z;
  msg_amount : Z;
  msg_gasLimit : Z;
  msg_gasPrice : Z;
  msg_data : list byte;
  msg_checkNonce : bool;
  msg_l1Timestamp : Z;
  msg_l1BlockNumber : option Z;
  msg_queueOrigin : Z;
}.

(** ** RLP *)

(** The type [txdata] as the codec sees it: [Recipient] is tagged [nil], the
    [Hash] field is skipped. *)
Definition txdata_ty : ty :=
  TStruct [TUint 64; TBigInt; TUint 64; TNilPtr KString (TByteArray 20); TBigInt; TBytes;
           TBigInt; TBigInt; TBigInt].

Definition recipient_value (to : option (list byte)) : value :=
  match to with None => VNilPtr KString | Some a => VBytes a end.

Definition txdata_value (d : txdata) : value :=
  VStruct [VUint (AccountNonce d); VBigInt (Some (Price d)); VUint (GasLimit d);
           recipient_value (Recipient d); VBigInt (Some (Amount d)); VBytes (Payload d);
           VBigInt (Some (tx_V d)); VBigInt (Some (tx_R d)); VBigInt (Some (tx_S d))].

(** The decoded struct fields, assigned to the fields of [txdata]. *)
Definition txdata_of_value (v : value) : outcome txdata :=
  match v with
  | VStruct [VUint n; VBigInt (Some p); VUint g; to; VBigInt (Some a); VBytes b;
             VBigInt (Some v); VBigInt (Some r); VBigInt (Some s)] =>
      let mk to := {| AccountNonce := n; Price := p; GasLimit := g; Recipient := to; Amount := a;
                      Payload := b; tx_V := v; tx_R := r; tx_S := s |} in
      match to with
      | VNilPtr _ => Ok (mk None)
      | VBytes addr => Ok (mk (Some addr))
      | _ => Err (ErrNew "reflect: type mismatch")
      end
  | _ => Err (ErrNew "reflect: type mismatch")
  end.

Definition EncodeRLP (t : Transaction) : outcome (list byte) :=
  EncodeToBytes (txdata_value (data t)).

(** [s.Kind()] with its error dropped, then [s.Decode(&tx.data)]; the size of
    the list is cached. *)
Definition DecodeRLP (fuel : nat) (t : Transaction) : st Stream Transaction :=
  size ← st_catch ('(_, n) ← stream_Kind; mret n) (λ _, mret 0);
  v ← decode fuel txdata_ty;
  d ← st_lift (txdata_of_value v);
  mret {| data := d; meta := meta t; tx_hash := tx_hash t; tx_size := Some (ListSize size);
          tx_from := tx_from t |}.

(** Counts the bytes [rlp.Encode] writes. *)
Definition writeCounter_Write (b : list byte) : st Z Z := λ c, (Ok (len b), c + len b).

Definition Size (t : Transaction) : Z * Transaction :=
  match tx_size t with
  | Some n => (n, t)
  | None =>
      let c := (Encode writeCounter_Write (txdata_value (data t)) 0).2 in
      (c, {| data := data t; meta := meta t; tx_hash := tx_hash t; tx_size := Some c;
             tx_from := tx_from t |})
  end.

(** A [txdata] Go can hold and the encoder accepts. *)
Definition txdata_ok (d : txdata) : bool :=
  ((0 <=? AccountNonce d) && (AccountNonce d <? 2 ^ 64)) &&
  ((0 <=? GasLimit d) && (GasLimit d <? 2 ^ 64)) &&
  (0 <=? Price d) && (0 <=? Amount d) && (0 <=? tx_V d) && (0 <=? tx_R d) && (0 <=? tx_S d) &&
  match Recipient d with None => true | Some a => Nat.eqb (length a) 20 end.

(** ** Signers *)

Definition ErrInvalidSig : error := ErrVar "types.ErrInvalidSig" "invalid transaction v, r, s values".
Definition ErrInvalidChainId : error := ErrVar "types.ErrInvalidChainId" "invalid chain id for signer".

(** [big.Int.BitLen] and [big.Int.Uint64], both of the absolute value. *)
Definition BitLen (z : Z) : Z := if z =? 0 then 0 else Z.log2 (Z.abs z) + 1.
Definition big_Uint64 (z : Z) : Z := u64 (Z.abs z).

Definition isProtectedV (V : Z) : bool :=
  if BitLen V <=? 8 then
    let v := big_Uint64 V in negb (v =? 27) && negb (v =? 28)
  else true.

Definition deriveChainId (v : Z) : Z :=
  if BitLen v <=? 64 then
    let v := big_Uint64 v in
    if (v =? 27) || (v =? 28) then 0 else u64 (v - 35) / 2
  else (v - 35) / 2.

Definition secp256k1N : Z := 0xfffffffffffffffffffffffffffffffebaaedce6af48a03bbfd25e8cd0364141.
Definition secp256k1halfN : Z := secp256k1N / 2.

Definition ValidateSignatureValues (v r s : Z) (homestead : bool) : bool :=
  if (r <? 1) || (s <? 1) then false
  else if homestead && (secp256k1halfN <? s) then false
  else (r <? secp256k1N) && (s <? secp256k1N) && ((v =? 0) || (v =? 1)).

Definition signer_Equal (s s2 : Signer) : bool :=
  match s, s2 with
  | EIP155Signer c, EIP155Signer c2 => c2 =? c
  | HomesteadSigner, HomesteadSigner => true
  | FrontierSigner, FrontierSigner => true
  | _, _ => false
  end.

(** [NewEIP155Signer] and [MakeSigner], with the fork checks of the chain
    configuration as booleans. *)
Definition NewEIP155Signer (chainId : option Z) : Signer := EIP155Signer (default 0 chainId).

Definition MakeSigner (isEIP155 isHomestead : bool) (chainId : option Z) : Signer :=
  if isEIP155 then NewEIP155Signer chainId
  else if isHomestead then HomesteadSigner
  else FrontierSigner.

(** The R, S and V of a signature of 65 bytes. *)
Definition FrontierSigner_SignatureValues (sig : list byte) : outcome (Z * Z * Z) :=
  if negb (len sig =? 65) then Panic "wrong size for signature"
  else
    let v := b2z (nth 64 sig Byte.x00) in
    Ok (be_val (take 32 sig), be_val (take 32 (drop 32 sig)), u8 (v + 27)).

Definition signer_SignatureValues (s : Signer) (sig : list byte) : outcome (Z * Z * Z) :=
  match s with
  | EIP155Signer chainId =>
      '(r, s, v) ← FrontierSigner_SignatureValues sig;
      let V := if negb (chainId =? 0)
               then u8 (b2z (nth 64 sig Byte.x00) + 35) + chainId * 2
               else v in
      mret (r, s, V)
  | _ => FrontierSigner_SignatureValues sig
  end.

Definition WithSignature (t : Transaction) (signer : Signer) (sig : list byte) : outcome Transaction :=
  '(r, s, v) ← signer_SignatureValues signer sig;
  let d := data t in
  mret {| data := {| AccountNonce := AccountNonce d; Price := Price d; GasLimit := GasLimit d;
                     Recipient := Recipient d; Amount := Amount d; Payload := Payload d;
                     tx_V := v; tx_R := r; tx_S := s |};
          meta := meta t; tx_hash := None; tx_size := None; tx_from := None |}.

Section Crypto.
Context (Keccak256 : list byte → list byte).
Context (Ecrecover : list byte → list byte → outcome (list byte)).

(** The hasher is a writer; a value that cannot be encoded writes nothing. *)
Definition rlpHash (v : value) : list byte := Keccak256 (Encode buffer_write v []).2.

Definition signer_fields (d : txdata) : list value :=
  [VUint (AccountNonce d); VBigInt (Some (Price d)); VUint (GasLimit d);
   recipient_value (Recipient d); VBigInt (Some (Amount d)); VBytes (Payload d)].

Definition signer_Hash (s : Signer) (t : Transaction) : list byte :=
  match s with
  | EIP155Signer chainId =>
      rlpHash (VSlice false (signer_fields (data t) ++ [VBigInt (Some chainId); VUint 0; VUint 0]))
  | _ => rlpHash (VSlice false (signer_fields (data t)))
  end.

Definition pubkey_address (pub : list byte) : outcome (list byte) :=
  match pub with
  | [] => Err (ErrNew "invalid public key")
  | c :: key => if b2z c =? 4 then Ok (drop 12 (Keccak256 key)) else Err (ErrNew "invalid public key")
  end.

Definition recoverPlain (sighash : list byte) (R Sv Vb : Z) (homestead : bool) : outcome (list byte) :=
  if 8 <? BitLen Vb then Err ErrInvalidSig
  else
    let V := u8 (u64 (big_Uint64 Vb - 27)) in
    if negb (ValidateSignatureValues V R Sv homestead) then Err ErrInvalidSig
    else
      let r := big_Bytes R in
      let s := big_Bytes Sv in
      let sig := replicate (32 - length r) Byte.x00 ++ r ++
                 replicate (32 - length s) Byte.x00 ++ s ++ [z2b V] in
      pub ← Ecrecover sighash sig;
      pubkey_address pub.

Definition signer_Sender (s : Signer) (t : Transaction) : outcome (list byte) :=
  let d := data t in
  match s with
  | EIP155Signer chainId =>
      if negb (isProtectedV (tx_V d))
      then recoverPlain (signer_Hash HomesteadSigner t) (tx_R d) (tx_S d) (tx_V d) true
      else if negb (deriveChainId (tx_V d) =? chainId) then Err ErrInvalidChainId
      else recoverPlain (signer_Hash s t) (tx_R d) (tx_S d) (tx_V d - chainId * 2 - 8) true
  | HomesteadSigner => recoverPlain (signer_Hash s t) (tx_R d) (tx_S d) (tx_V d) true
  | FrontierSigner => recoverPlain (signer_Hash s t) (tx_R d) (tx_S d) (tx_V d) false
  end.

(** [Sender] with its cache. *)
Definition Sender (signer : Signer) : st Transaction (list byte) := λ t,
  let derive :=
    match signer_Sender signer t with
    | Ok addr => (Ok addr, {| data := data t; meta := meta t; tx_hash := tx_hash t;
                              tx_size := tx_size t; tx_from := Some (signer, addr) |})
    | Err e => (Err e, t)
    | Panic m => (Panic m, t)
    end in
  match tx_from t with
  | Some (signer', from) => if signer_Equal signer' signer then (Ok from, t) else derive
  | None => derive
  end.

(** The sender of [AsMessage]. *)
Definition AsMessage_from (usingBVM : bool) (s : Signer) : st Transaction (list byte) := λ t,
  if usingBVM then
    match L1MessageSender (meta t) with
    | Some from =>
        if QueueOrigin (meta t) =? QueueOriginL1ToL2 then (Ok from, t) else Sender s t
    | None => Sender s t
    end
  else Sender s t.

Definition AsMessage (usingBVM : bool) (s : Signer) : st Transaction Message := λ t,
  match AsMessage_from usingBVM s t with
  | (Ok from, t') =>
      (Ok {| msg_to := Recipient (data t); msg_from := from; msg_nonce := AccountNonce (data t);
             msg_amount := Amount (data t); msg_gasLimit := GasLimit (data t);
             msg_gasPrice := Price (data t); msg_data := Payload (data t); msg_checkNonce := true;
             msg_l1Timestamp := L1Timestamp (meta t); msg_l1BlockNumber := L1BlockNumber (meta t);
             msg_queueOrigin := QueueOrigin (meta t) |}, t')
  | (Err e, t') => (Err e, t')
  | (Panic m, t') => (Panic m, t')
  end.

Definition SignTx {key} (Sign : list byte → key → outcome (list byte))
    (t : Transaction) (s : Signer) (prv : key) : outcome Transaction :=
  sig ← Sign (signer_Hash s t) prv;
  WithSignature t s sig.

(** [Transaction.Hash] with its cache. *)
Definition Hash (t : Transaction) : list byte * Transaction :=
  match tx_hash t with
  | Some h => (h, t)
  | None =>
      let v := rlpHash (txdata_value (data t)) in
      (v, {| data := data t; meta := meta t; tx_hash := Some v; tx_size := tx_size t;
             tx_from := tx_from t |})
  end.
End Crypto.

(** ** RLP: theorems *)

Lemma txdata_value_ok d : txdata_ok d = true → value_ok (txdata_value d) = true.
Proof.
  unfold txdata_ok, txdata_value. intros H. cbn [value_ok forallb].
  rewrite !andb_true_iff in *. destruct (Recipient d); cbn [recipient_value value_ok]; tauto.
Qed.

Lemma txdata_has_type d : txdata_ok d = true → has_type txdata_ty (txdata_value d).
Proof.
  unfold txdata_ok. rewrite !andb_true_iff, !Z.leb_le, !Z.ltb_lt. intros H.
  cbn [txdata_ty has_type]. eexists. split; [done|]. cbn [map].
  repeat (apply Forall2_cons; split); try apply Forall2_nil; try done; try (eexists; split; [done|lia]).
  - destruct (Recipient d) as [a|]; [right|by left]. cbn [recipient_value].
    assert (length a = 20%nat) as Ha by (apply Nat.eqb_eq; tauto).
    split; [by exists a|]. cbn [value_bytes].
    pose proof (len_rlp_str a) as Hl. unfold len in Hl at 1. rewrite Ha in Hl.
    split; intros E; rewrite E in Hl; done.
Qed.

Lemma has_type_txdata v :
  has_type txdata_ty v → ∃ d, txdata_of_value v = Ok d ∧ txdata_ok d = true ∧ v = txdata_value d.
Proof.
  cbn [txdata_ty has_type map]. intros (l & -> & Hl).
  repeat (apply Forall2_cons_inv_r in Hl as (? & ? & ? & Hl & ->)).
  apply Forall2_nil_inv_r in Hl as ->.
  repeat match goal with H : ∃ _, _ |- _ => destruct H as (? & -> & ?) end.
  match goal with H : _ ∨ _ |- _ => destruct H as [->|((a & -> & Ha) & _)] end.
  all: eexists; split; [done|]; split; [|done]; unfold txdata_ok; simpl;
    rewrite !andb_true_iff, !Z.leb_le, !Z.ltb_lt, ?Nat.eqb_eq; tauto || (repeat split; lia).
Qed.

Lemma txdata_of_value_value d : txdata_of_value (txdata_value d) = Ok d.
Proof. destruct d as [? ? ? [a|] ? ? ? ? ?]; done. Qed.

Lemma txdata_peeks fuel : peeks (decode fuel txdata_ty).
Proof. by apply decode_peeks. Qed.

Lemma ListSize_len c : len (rlp_list c) < 2 ^ 63 → ListSize (len c) = len (rlp_list c).
Proof.
  intros Hlen. pose proof (len_rlp_list c). pose proof (len_nonneg c).
  unfold ListSize, rlp_list. rewrite len_app, len_header by lia.
  apply wrap_small. pose proof (headsize_range (len c) ltac:(lia)). lia.
Qed.

Definition with_data (t : Transaction) (d : txdata) (n : Z) : Transaction :=
  {| data := d; meta := meta t; tx_hash := tx_hash t; tx_size := Some n; tx_from := tx_from t |}.

Definition txdata_result (t : Transaction) (v : value) : outcome Transaction :=
  d ← txdata_of_value v; mret (with_data t d (len (value_bytes v))).

(** [DecodeRLP] is the struct decoder and a conversion. *)
Lemma DecodeRLP_run fuel t s :
  fresh s → DecodeRLP fuel t s = (v ← decode fuel txdata_ty; st_lift (txdata_result t v)) s.
Proof.
  intros Hf. pose proof (decode_codec fuel txdata_ty eq_refl) as Hc.
  unfold DecodeRLP, st_catch. cbv [mbind st_bind].
  destruct (stream_Kind s) as [[[k n]|e|p] s1] eqn:HK; cbv [mret st_ret].
  - rewrite (txdata_peeks fuel _ _ _ HK).
    destruct (decode fuel txdata_ty s) as [[v|e|p] s'] eqn:Ed; [|done..].
    destruct (codec_sound _ _ _ _ Hc _ _ _ Hf Ed) as [Ht [[_ Hr _ _ Hroom] _]].
    destruct (has_type_txdata v Ht) as (d & Hd & Hok & ->).
    destruct (Kind_at_shape _ _ _ _ _ _ _ Hf (shape_list _) Hr Hroom) as (s2 & HK' & _).
    rewrite HK in HK'. injection HK' as -> -> _.
    cbv [st_lift txdata_result mbind outcome_bind mret outcome_ret]. rewrite Hd.
    unfold with_data. rewrite ListSize_len; [done|].
    pose proof (valid_len _ (proj1 Hf)) as Hl. rewrite Hr, len_app in Hl.
    pose proof (len_nonneg (s_r s')). change (len (value_bytes (txdata_value d)) < 2 ^ 63). lia.
  - assert (∀ s e s1, stream_Kind s = (Err e, s1) →
      decode fuel txdata_ty s = (Err (wrapStreamError e), s1)) as Herr.
    { intros s0 e0 s2 E. cbn [decode txdata_ty]. unfold structDecoder, wrapped, st_catch, stream_List.
      cbv [mbind st_bind]. by rewrite E. }
    by rewrite (Herr _ _ _ HK), (Herr _ _ _ (stream_Kind_err_again _ _ _ HK)).
  - by destruct (stream_Kind_spec s Hf) as [[_ E]|[(_ & ? & ? & ? & E & _)|(_ & _ & ? & ? & E & _)]];
      rewrite HK in E.
Qed.

Lemma DecodeRLP_codec fuel t :
  codec fuel (DecodeRLP fuel t) (λ t', value_bytes (txdata_value (data t')))
    (λ t', ∃ d, txdata_ok d = true ∧ t' = with_data t d (len (value_bytes (txdata_value d)))).
Proof.
  eapply codec_proper; [by apply DecodeRLP_run|].
  eapply (codec_check _ _ _ (txdata_result t)).
  - by apply decode_codec.
  - done.
  - intros v. unfold txdata_result, txdata_of_value. by repeat case_match.
  - intros v p. unfold txdata_result, txdata_of_value. by repeat case_match.
  - intros t'. split.
    + intros (d & Hok & ->). exists (txdata_value d). split; [by apply txdata_has_type|].
      unfold txdata_result. by rewrite txdata_of_value_value.
    + intros (v & Ht & Hv). destruct (has_type_txdata v Ht) as (d & Hd & Hok & ->). exists d.
      split; [done|]. unfold txdata_result in Hv. rewrite Hd in Hv. by injection Hv as <-.
  - intros v t' Ht Hv. destruct (has_type_txdata v Ht) as (d & Hd & Hok & ->).
    unfold txdata_result in Hv. rewrite Hd in Hv. by injection Hv as <-.
Qed.

Lemma EncodeRLP_bytes t :
  txdata_ok (data t) = true → len (value_bytes (txdata_value (data t))) < 2 ^ 63 →
  EncodeRLP t = Ok (value_bytes (txdata_value (data t))).
Proof.
  intros Hok Hlen. by apply EncodeToBytes_bytes; [apply txdata_value_ok|].
Qed.

(** A transaction for the examples. *)
Definition example_tx : Transaction :=
  {| data := {| AccountNonce := 5; Price := 1000; GasLimit := 21000; Recipient := Some (replicate 20 Byte.x11);
                Amount := 300; Payload := [Byte.x01; Byte.x00]; tx_V := 0; tx_R := 0; tx_S := 0 |};
     meta := NewTransactionMeta None 0 None QueueOriginSequencer None None None;
     tx_hash := None; tx_size := None; tx_from := None |}.

(** C38: Decoding bytes into a transaction succeeds exactly when they are the encoding of the result,
    whose metadata and caches stay except for the size, which is set to the length. *)
Theorem Transaction_rlp_roundtrip (fuel : nat) (t t' : Transaction) (b : list byte) :
  len b < 2 ^ 63 → (length b < fuel)%nat →
  DecodeBytes (DecodeRLP fuel t) b = Ok t' ↔
  txdata_ok (data t') = true ∧ len (value_bytes (txdata_value (data t'))) < 2 ^ 63 ∧
  EncodeRLP t' = Ok b ∧
  t' = {| data := data t'; meta := meta t; tx_hash := tx_hash t;
          tx_size := Some (len b); tx_from := tx_from t |}.
Proof.
  intros Hb Hfu. destruct (DecodeBytes_codec _ _ _ _ b (DecodeRLP_codec fuel t) Hb Hfu) as [_ H].
  rewrite H. clear H. split.
  - intros [(d & Hok & ->) ->]. cbn [data with_data] in *. by rewrite EncodeRLP_bytes.
  - intros (Hok & Hl & He & Ht). rewrite EncodeRLP_bytes in He by done. injection He as <-.
    split; [|done]. by exists (data t').
Qed.

Lemma Transaction_rlp_roundtrip_witness :
  let b := [Byte.xe5; Byte.x05; Byte.x82; Byte.x03; Byte.xe8; Byte.x82; Byte.x52; Byte.x08; Byte.x94] ++
    replicate 20 Byte.x11 ++
    [Byte.x82; Byte.x01; Byte.x2c; Byte.x82; Byte.x01; Byte.x00; Byte.x80; Byte.x80; Byte.x80] in
  DecodeBytes (DecodeRLP 100 example_tx) b =
    Ok {| data := data example_tx; meta := meta example_tx; tx_hash := None; tx_size := Some 38; tx_from := None |}.
Proof.
  intros b. refine (proj2 (Transaction_rlp_roundtrip 100 example_tx
    {| data := data example_tx; meta := meta example_tx; tx_hash := None; tx_size := Some 38; tx_from := None |} b _ _) _).
  - vm_compute. reflexivity.
  - vm_compute. lia.
  - split; [reflexivity |]. split; [vm_compute; reflexivity |]. split; [vm_compute; reflexivity | reflexivity].
Defined.

(** ** Caches *)

(** The caches hold what they stand for. *)
Definition caches_ok Keccak256 Ecrecover (t : Transaction) : Prop :=
  (∀ n, tx_size t = Some n → n = len (value_bytes (txdata_value (data t)))) ∧
  (∀ h, tx_hash t = Some h → h = rlpHash Keccak256 (txdata_value (data t))) ∧
  (∀ s a, tx_from t = Some (s, a) → signer_Sender Keccak256 Ecrecover s t = Ok a).

Lemma counter_accepting : accepting writeCounter_Write (λ c b, c + len b).
Proof. split; [done| |]; intros; rewrite ?len_nil, ?len_app; lia. Qed.

Lemma signer_Equal_eq s s' : signer_Equal s s' = true → s = s'.
Proof. destruct s, s'; try done. simpl. intros ->%Z.eqb_eq. done. Qed.

Lemma Sender_cached Keccak256 Ecrecover s t :
  caches_ok Keccak256 Ecrecover t →
  (Sender Keccak256 Ecrecover s t).1 = signer_Sender Keccak256 Ecrecover s t ∧
  caches_ok Keccak256 Ecrecover (Sender Keccak256 Ecrecover s t).2.
Proof.
  intros (Hs & Hh & Hf). assert (Hc : caches_ok Keccak256 Ecrecover t) by done. unfold Sender.
  destruct (tx_from t) as [[s' from]|] eqn:E; [destruct (signer_Equal s' s) eqn:Eq|].
  - apply signer_Equal_eq in Eq as ->. split; [|done]. by rewrite (Hf _ _ eq_refl).
  - destruct (signer_Sender Keccak256 Ecrecover s t) eqn:Es; (split; [done|]); [|done..].
    split; [done|]. split; [done|]. by intros ? ? [= <- <-].
  - destruct (signer_Sender Keccak256 Ecrecover s t) eqn:Es; (split; [done|]); [|done..].
    split; [done|]. split; [done|]. by intros ? ? [= <- <-].
Qed.

Theorem caches_coherent Keccak256 Ecrecover (t : Transaction) :
  caches_ok Keccak256 Ecrecover t → txdata_ok (data t) = true →
  len (value_bytes (txdata_value (data t))) < 2 ^ 63 →
  ((Size t).1 = len (value_bytes (txdata_value (data t))) ∧
    caches_ok Keccak256 Ecrecover (Size t).2) ∧
  ((Hash Keccak256 t).1 = rlpHash Keccak256 (txdata_value (data t)) ∧
    caches_ok Keccak256 Ecrecover (Hash Keccak256 t).2) ∧
  (∀ s, (Sender Keccak256 Ecrecover s t).1 = signer_Sender Keccak256 Ecrecover s t ∧
    caches_ok Keccak256 Ecrecover (Sender Keccak256 Ecrecover s t).2) ∧
  (∀ m, caches_ok Keccak256 Ecrecover (SetTransactionMeta m t)) ∧
  (∀ nonce, (Hash Keccak256 (SetNonce nonce (Hash Keccak256 t).2)).1
            = rlpHash Keccak256 (txdata_value (data t))).
Proof.
  intros Hc Hok Hlen. destruct (id Hc) as (Hs & Hh & Hf).
  assert ((Hash Keccak256 t).1 = rlpHash Keccak256 (txdata_value (data t))) as Hhash.
  { unfold Hash. destruct (tx_hash t) eqn:E; [by apply Hh|done]. }
  split; [|split; [|split; [|split]]].
  - unfold Size. destruct (tx_size t) eqn:E; [split; [by apply Hs|done]|].
    rewrite (Encode_accepting _ _ counter_accepting) by (done || by apply txdata_value_ok).
    split; [done|]. split; [|done]. intros n [= <-]. done.
  - split; [done|]. unfold Hash. destruct (tx_hash t) eqn:E; [done|].
    split; [done|]. split; [|done]. by intros h [= <-].
  - intros s. by apply Sender_cached.
  - intros [m|]; done.
  - intros nonce. rewrite <- Hhash. unfold Hash. by destruct (tx_hash t) eqn:E; simpl; rewrite ?E.
Qed.

Lemma caches_coherent_witness :
  (Size example_tx).1 = 38 ∧
  (Hash (λ b, take 2 b) example_tx).1 = [Byte.xe5; Byte.x05] ∧
  (Hash (λ b, take 2 b) (SetNonce 6 (Hash (λ b, take 2 b) example_tx).2)).1 = [Byte.xe5; Byte.x05].
Proof.
  destruct (caches_coherent (λ b, take 2 b) (λ _ _, Ok []) example_tx) as ([H1 _] & [H2 _] & _ & _ & H5).
  - split; [discriminate | split; discriminate].
  - reflexivity.
  - vm_compute. reflexivity.
  - rewrite H1, H2, (H5 6). vm_compute. split; [reflexivity | split; reflexivity].
Defined.

(** ** Signing *)

Lemma BitLen_le n z : 0 <= n → 0 <= z < 2 ^ n → BitLen z <= n.
Proof.
  intros Hn Hz. unfold BitLen. destruct (Z.eqb_spec z 0); [done|].
  rewrite Z.abs_eq by lia. assert (Z.log2 z < n); [|lia]. apply Z.log2_lt_pow2; lia.
Qed.

Lemma BitLen_gt n z : 0 <= n → 2 ^ n <= z → n < BitLen z.
Proof.
  intros Hn Hz. assert (0 < 2 ^ n) by (apply Z.pow_pos_nonneg; lia). unfold BitLen.
  rewrite (proj2 (Z.eqb_neq z 0)), Z.abs_eq by lia.
  assert (n <= Z.log2 z); [|lia]. apply Z.log2_le_pow2; lia.
Qed.

(** The chain id is read back from the V of a replay-protected signature. *)
Lemma deriveChainId_V c v :
  0 < c → 0 <= v <= 1 →
  isProtectedV (v + 35 + c * 2) = true ∧ deriveChainId (v + 35 + c * 2) = c.
Proof.
  intros Hc Hv. assert ((v + c * 2) / 2 = c) as Hdiv.
  { rewrite Z.div_add by lia. rewrite Z.div_small by lia. lia. }
  unfold isProtectedV, deriveChainId, big_Uint64. rewrite Z.abs_eq by lia. split.
  - destruct (Z.leb_spec (BitLen (v + 35 + c * 2)) 8); [|done].
    destruct (Z.lt_ge_cases (v + 35 + c * 2) (2 ^ 8)).
    + rewrite wrap_small by lia. lia.
    + pose proof (BitLen_gt 8 (v + 35 + c * 2)). lia.
  - destruct (Z.leb_spec (BitLen (v + 35 + c * 2)) 64).
    + destruct (Z.lt_ge_cases (v + 35 + c * 2) (2 ^ 64)).
      * rewrite (wrap_small 64 (v + 35 + c * 2)) by lia.
        rewrite !(proj2 (Z.eqb_neq _ _)) by lia. simpl.
        rewrite wrap_small by lia. rewrite <- Hdiv at 2. f_equal. lia.
      * pose proof (BitLen_gt 64 (v + 35 + c * 2)). lia.
    + rewrite <- Hdiv at 2. f_equal. lia.
Qed.

(** Padding the minimal bytes of a number restores a fixed-width field. *)
Lemma pad_big_Bytes n b :
  length b = n → replicate (n - length (big_Bytes (be_val b))) Byte.x00 ++ big_Bytes (be_val b) = b.
Proof.
  intros <-. pose proof (be_val_range b) as Hr. pose proof (bytelen_bound _ _ Hr) as Hb.
  apply be_val_inj.
  - rewrite length_app, length_replicate, length_big_Bytes. lia.
  - rewrite be_val_app, be_val_replicate_0, big_SetBytes_Bytes by lia. lia.
Qed.

(** What is documented of [crypto.Sign] and [crypto.Ecrecover]: signatures are
    65 bytes R, S and V with V zero or one and S in the lower half, and the
    recovered key is the uncompressed public key of the signer. *)
Record signature_scheme {key} (Sign : list byte → key → outcome (list byte))
    (Ecrecover : list byte → list byte → outcome (list byte)) (pubkey : key → list byte) : Prop := {
  Sign_format : ∀ h k sig, Sign h k = Ok sig →
    length sig = 65%nat ∧ 1 <= be_val (take 32 sig) < secp256k1N ∧
    1 <= be_val (take 32 (drop 32 sig)) <= secp256k1halfN ∧
    0 <= b2z (nth 64 sig Byte.x00) <= 1;
  Ecrecover_Sign : ∀ h k sig, Sign h k = Ok sig → Ecrecover h sig = Ok (pubkey k);
  pubkey_format : ∀ k, ∃ xy, pubkey k = Byte.x04 :: xy;
}.

Lemma split_signature sig :
  length sig = 65%nat →
  sig = take 32 sig ++ take 32 (drop 32 sig) ++ [nth 64 sig Byte.x00].
Proof.
  intros Hl. rewrite <- (take_drop 32 sig) at 1. f_equal.
  rewrite <- (take_drop 32 (drop 32 sig)) at 1. f_equal. rewrite drop_drop.
  assert (length (drop (32 + 32) sig) = 1%nat) as Hd by (rewrite length_drop; lia).
  destruct (drop (32 + 32) sig) as [|x [|? ?]] eqn:E; try done. f_equal.
  rewrite <- (take_drop (32 + 32) sig), E, app_nth2; rewrite length_take; [|lia].
  by replace (64 - (32 + 32) `min` length sig)%nat with 0%nat by lia.
Qed.

Lemma recoverPlain_signature Keccak256 Ecrecover h sig :
  length sig = 65%nat → 1 <= be_val (take 32 sig) < secp256k1N →
  1 <= be_val (take 32 (drop 32 sig)) <= secp256k1halfN → 0 <= b2z (nth 64 sig Byte.x00) <= 1 →
  recoverPlain Keccak256 Ecrecover h (be_val (take 32 sig)) (be_val (take 32 (drop 32 sig)))
    (b2z (nth 64 sig Byte.x00) + 27) true
  = (pub ← Ecrecover h sig; pubkey_address Keccak256 pub).
Proof.
  intros Hl Hr Hs Hv. unfold recoverPlain, big_Uint64.
  rewrite (proj2 (Z.ltb_ge 8 _)) by (apply BitLen_le; lia).
  rewrite Z.abs_eq, (wrap_small 64 (_ + 27)) by lia. rewrite Z.add_simpl_r, (wrap_small 64), (wrap_small 8) by lia.
  assert (secp256k1halfN < secp256k1N) by done.
  unfold ValidateSignatureValues. rewrite !(proj2 (Z.ltb_ge _ 1)), !(proj2 (Z.ltb_lt _ secp256k1N)) by lia.
  rewrite (proj2 (Z.ltb_ge secp256k1halfN _)) by lia. simpl.
  replace ((b2z (nth 64 sig Byte.x00) =? 0) || (b2z (nth 64 sig Byte.x00) =? 1)) with true by lia.
  simpl. rewrite z2b_b2z, app_assoc, pad_big_Bytes by (rewrite length_take; lia).
  rewrite (app_assoc (replicate _ _)), pad_big_Bytes by (rewrite length_take, length_drop; lia).
  by rewrite <- split_signature.
Qed.

(** C39: The sender of a transaction signed with EIP-155 is the address of the signing key; for any
    other chain id the sender is refused, and the signed fields are those of the original. *)
Theorem SignTx_Sender {key} Keccak256 Ecrecover (Sign : list byte → key → outcome (list byte))
    (pubkey : key → list byte) (t t' : Transaction) (c : Z) (prv : key) :
  signature_scheme Sign Ecrecover pubkey → 0 < c →
  SignTx Keccak256 Sign t (EIP155Signer c) prv = Ok t' →
  (Sender Keccak256 Ecrecover (EIP155Signer c) t').1
    = Ok (drop 12 (Keccak256 (tail (pubkey prv)))) ∧
  (∀ c', c' ≠ c → (Sender Keccak256 Ecrecover (EIP155Signer c') t').1 = Err ErrInvalidChainId) ∧
  signer_fields (data t') = signer_fields (data t).
Proof.
  intros Hsch Hc (sig & Hsig & Ht)%outcome_bind_Ok.
  destruct (Sign_format _ _ _ Hsch _ _ _ Hsig) as (Hl & Hr & Hs & Hv).
  pose proof (Ecrecover_Sign _ _ _ Hsch _ _ _ Hsig) as Hrec.
  destruct (pubkey_format _ _ _ Hsch prv) as (xy & Hpub).
  unfold WithSignature, signer_SignatureValues, FrontierSigner_SignatureValues, len in Ht.
  rewrite Hl, (proj2 (Z.eqb_neq c 0)), (wrap_small 8 (_ + 35)) in Ht by lia.
  cbn [negb Z.eqb mbind outcome_bind mret outcome_ret] in Ht. simpl in Ht. injection Ht as <-.
  destruct (deriveChainId_V c (b2z (nth 64 sig Byte.x00)) Hc Hv) as [Hp Hd].
  unfold Sender. cbn [tx_from signer_Sender data tx_V]. rewrite Hp, Hd, Z.eqb_refl. cbn [negb].
  split; [|split; [|done]].
  - replace (b2z (nth 64 sig Byte.x00) + 35 + c * 2 - c * 2 - 8)
      with (b2z (nth 64 sig Byte.x00) + 27) by lia.
    cbn [tx_R tx_S data]. rewrite recoverPlain_signature by done.
    change (signer_Hash Keccak256 (EIP155Signer c) _) with (signer_Hash Keccak256 (EIP155Signer c) t).
    rewrite Hrec. cbn [mbind outcome_bind]. by rewrite Hpub.
  - intros c' Hne. rewrite (proj2 (Z.eqb_neq c c')) by done. done.
Qed.

(** A signature scheme with two keys; the recovery byte tells which one. *)
Definition toy_Sign (h : list byte) (k : bool) : outcome (list byte) :=
  Ok (replicate 31 Byte.x00 ++ Byte.x01 :: replicate 31 Byte.x00 ++ [Byte.x01; if k then Byte.x01 else Byte.x00]).
Definition toy_pubkey (k : bool) : list byte := Byte.x04 :: replicate 64 (if k then Byte.x01 else Byte.x00).
Definition toy_Ecrecover (h sig : list byte) : outcome (list byte) :=
  Ok (toy_pubkey (b2z (nth 64 sig Byte.x00) =? 1)).

Lemma toy_scheme : signature_scheme toy_Sign toy_Ecrecover toy_pubkey.
Proof.
  split.
  - intros h [|] sig [= <-]; vm_compute; repeat split; done.
  - intros h [|] sig [= <-]; done.
  - intros k. by exists (replicate 64 (if k then Byte.x01 else Byte.x00)).
Qed.

Definition toy_Keccak256 (b : list byte) : list byte := take 32 (b ++ replicate 32 Byte.x00).

(** [example_tx] signed with the second key. *)
Definition example_signed : Transaction :=
  {| data := {| AccountNonce := 5; Price := 1000; GasLimit := 21000; Recipient := Some (replicate 20 Byte.x11);
                Amount := 300; Payload := [Byte.x01; Byte.x00]; tx_V := 10036; tx_R := 1; tx_S := 1 |};
     meta := meta example_tx; tx_hash := None; tx_size := None; tx_from := None |}.

Lemma SignTx_Sender_witness :
  (Sender toy_Keccak256 toy_Ecrecover (EIP155Signer 5000) example_signed).1 = Ok (replicate 20 Byte.x01) ∧
  (Sender toy_Keccak256 toy_Ecrecover (EIP155Signer 1) example_signed).1 = Err ErrInvalidChainId.
Proof.
  destruct (SignTx_Sender toy_Keccak256 toy_Ecrecover toy_Sign toy_pubkey example_tx example_signed 5000 true
    toy_scheme) as (H1 & H2 & _); [lia | vm_compute; reflexivity |].
  split; [exact H1 | exact (H2 1 ltac:(lia))].
Defined.
