(* ===== verification/TrieEncoding.v ===== *)
(** The encodings of trie keys, src/l2geth/trie/encoding.go. *)

From S2P Require Import Prelude.

Definition hasTerm (s : list byte) : bool := match last s with Some b => b2z b =? 16 | None => false end.

Definition keybytesToHex (str : list byte) : list byte :=
  concat (map (λ b, [z2b (b2z b / 16); z2b (b2z b mod 16)]) str) ++ [z2b 16].

(** The bytes that the loop writes. *)
Fixpoint decodeNibbles (nibbles : list byte) : outcome (list byte) :=
  match nibbles with
  | [] => Ok []
  | [_] => Panic "index out of range"
  | a :: b :: nibbles =>
      l ← decodeNibbles nibbles;
      Ok (z2b (Z.lor (u8 (Z.shiftl (b2z a) 4)) (b2z b)) :: l)
  end.

Definition hexToCompact (hex : list byte) : outcome (list byte) :=
  let terminator := if hasTerm hex then 1 else 0 in
  let hex := if hasTerm hex then take (length hex - 1) hex else hex in
  let flag := Z.shiftl terminator 5 in
  match hex with
  | b :: rest =>
      if len hex mod 2 =? 1 then
        l ← decodeNibbles rest; Ok (z2b (Z.lor (Z.lor flag (Z.shiftl 1 4)) (b2z b)) :: l)
      else l ← decodeNibbles hex; Ok (z2b flag :: l)
  | [] => Ok [z2b flag]
  end.

Definition compactToHex (compact : list byte) : list byte :=
  match compact with
  | [] => compact
  | _ =>
      let base := keybytesToHex compact in
      let b0 := b2z (hd Byte.x00 base) in
      let base := if b0 <? 2 then take (length base - 1) base else base in
      drop (Z.to_nat (2 - Z.land b0 1)) base
  end.

Definition hexToKeybytes (hex : list byte) : outcome (list byte) :=
  let hex := if hasTerm hex then take (length hex - 1) hex else hex in
  if negb (len hex mod 2 =? 0) then Panic "can't convert hex key of odd length" else decodeNibbles hex.

Fixpoint prefixLen (a b : list byte) : nat :=
  match a, b with
  | x :: a, y :: b => if decide (x = y) then S (prefixLen a b) else O
  | _, _ => O
  end.

(** ** Nibbles *)

Definition nibble (b : byte) : Prop := b2z b < 16.

(** A byte as an index. *)
Definition ix (c : byte) : nat := Z.to_nat (b2z c).

(** The terminator. *)
Definition term : byte := z2b 16.

(** Nibbles and a terminator. *)
Definition terminated (k : list byte) : Prop := ∃ l, Forall nibble l ∧ k = l ++ [term].

Definition nibs (str : list byte) : list byte := concat (map (λ b, [z2b (b2z b / 16); z2b (b2z b mod 16)]) str).

Lemma nibs_cons b str : nibs (b :: str) = z2b (b2z b / 16) :: z2b (b2z b mod 16) :: nibs str.
Proof. done. Qed.

Lemma length_nibs str : length (nibs str) = (2 * length str)%nat.
Proof. induction str as [| b str IH]; [done |]. rewrite nibs_cons. cbn [length]. lia. Qed.

Lemma nibble_parts b : 0 <= b2z b / 16 < 16 ∧ 0 <= b2z b mod 16 < 16.
Proof. pose proof (b2z_range b). pose proof (Z.div_mod (b2z b) 16 ltac:(lia)). pose proof (Z.mod_pos_bound (b2z b) 16 ltac:(lia)). lia. Qed.

Lemma nibs_nibbles str : Forall nibble (nibs str).
Proof.
  induction str as [| b str IH]; [constructor |]. rewrite nibs_cons. destruct (nibble_parts b).
  repeat constructor; [| | done]; unfold nibble; rewrite b2z_z2b_small; lia.
Qed.

Lemma nibble_or a b : 0 <= a < 16 → 0 <= b < 16 → Z.lor (u8 (Z.shiftl a 4)) b = 16 * a + b.
Proof.
  intros Ha Hb. assert (E : u8 (Z.shiftl a 4) = Z.shiftl a 4) by (apply wrap_small; rewrite Z.shiftl_mul_pow2; lia).
  rewrite E, lor_shiftl_add by lia. rewrite ?Z.shiftl_mul_pow2 by lia. lia.
Qed.

Lemma decodeNibbles_nibs str : decodeNibbles (nibs str) = Ok str.
Proof.
  induction str as [| b str IH]; [done |]. rewrite nibs_cons. cbn [decodeNibbles]. rewrite IH. cbn. do 2 f_equal.
  destruct (nibble_parts b). rewrite !b2z_z2b_small, nibble_or by lia. rewrite <- Z.div_mod by lia. apply z2b_b2z.
Qed.

(** An even number of nibbles are those of some bytes. *)
Lemma even_nibs n l : length l = (2 * n)%nat → Forall nibble l → ∃ str, l = nibs str.
Proof.
  revert l. induction n as [| n IH]; intros l Hn Hl; [destruct l; [by exists [] | done] |].
  destruct l as [| a [| b l]]; [done | cbn in Hn; lia |]. apply Forall_cons in Hl as [Ha [Hb Hl]%Forall_cons].
  destruct (IH l) as [str ->]; [cbn in Hn; lia | done |]. exists (z2b (16 * b2z a + b2z b) :: str).
  unfold nibble in *. pose proof (b2z_range a). pose proof (b2z_range b). rewrite nibs_cons, b2z_z2b_small by lia.
  rewrite (Z.mul_comm 16), Z.div_add_l, Z.div_small, Z.add_0_r by lia.
  rewrite (Z.add_comm (_ * 16)), Z.mod_add, Z.mod_small, !z2b_b2z by lia. done.
Qed.

(** ** Round trips *)

Lemma last_term l : last (l ++ [term]) = Some term.
Proof. apply last_snoc. Qed.

Lemma hasTerm_app l : hasTerm (l ++ [term]) = true.
Proof. unfold hasTerm. by rewrite last_term. Qed.

Lemma hasTerm_nibbles l : Forall nibble l → hasTerm l = false.
Proof.
  intros Hl. unfold hasTerm. destruct (last l) as [b |] eqn:E; [| done]. apply last_Some in E as [l' ->].
  apply Forall_app in Hl as [_ [Hb _]%Forall_cons]. unfold nibble in Hb. apply Z.eqb_neq. lia.
Qed.

Lemma take_all_but_last {A} (l : list A) x : take (length (l ++ [x]) - 1) (l ++ [x]) = l.
Proof. rewrite length_app. cbn. rewrite Nat.add_sub. by rewrite take_app_length. Qed.

Lemma hexToKeybytes_keybytesToHex key : hexToKeybytes (keybytesToHex key) = Ok key.
Proof.
  unfold hexToKeybytes, keybytesToHex. fold term (nibs key). rewrite hasTerm_app, take_all_but_last. unfold len. rewrite length_nibs.
  replace (Z.of_nat (2 * length key)) with (Z.of_nat (length key) * 2) by lia. rewrite Z_mod_mult. apply decodeNibbles_nibs.
Qed.

Lemma keybytesToHex_terminated key : terminated (keybytesToHex key).
Proof. exists (nibs key). split; [apply nibs_nibbles | done]. Qed.

Lemma keybytesToHex_inj a b : keybytesToHex a = keybytesToHex b → a = b.
Proof. intros E. pose proof (hexToKeybytes_keybytesToHex a) as H. rewrite E, hexToKeybytes_keybytesToHex in H. by injection H. Qed.

(** The first byte of the compact form: the flags, and the first nibble of an odd number. *)
Lemma odd_flag (t : bool) x :
  0 <= x < 16 → Z.lor (Z.lor (Z.shiftl (Z.b2z t) 5) (Z.shiftl 1 4)) x = 32 * Z.b2z t + 16 + x.
Proof.
  intros Hx. replace (Z.lor (Z.shiftl (Z.b2z t) 5) (Z.shiftl 1 4)) with (Z.shiftl (2 * Z.b2z t + 1) 4) by (by destruct t).
  rewrite lor_shiftl_add by lia. lia.
Qed.

Lemma strip_term (t : bool) l :
  Forall nibble l →
  let h := if t then l ++ [term] else l in
  (if hasTerm h then take (length h - 1) h else h) = l ∧ (if hasTerm h then 1 else 0) = Z.b2z t.
Proof. intros Hl. destruct t; cbv zeta; [by rewrite hasTerm_app, take_all_but_last | by rewrite hasTerm_nibbles]. Qed.

Lemma compact_even str (t : bool) :
  hexToCompact (if t then nibs str ++ [term] else nibs str) = Ok (z2b (32 * Z.b2z t) :: str).
Proof.
  unfold hexToCompact. destruct (strip_term t (nibs str) (nibs_nibbles str)) as [-> ->].
  assert (Hm : len (nibs str) mod 2 =? 1 = false).
  { unfold len. rewrite length_nibs. replace (Z.of_nat (2 * _)) with (Z.of_nat (length str) * 2) by lia. by rewrite Z_mod_mult. }
  pose proof (decodeNibbles_nibs str) as Hd. destruct (nibs str) as [| x l]; [injection Hd as <-; by destruct t |].
  rewrite Hm, Hd. by destruct t.
Qed.

Lemma compact_odd x str (t : bool) :
  nibble x → hexToCompact (if t then (x :: nibs str) ++ [term] else x :: nibs str) = Ok (z2b (32 * Z.b2z t + 16 + b2z x) :: str).
Proof.
  intros Hx. unfold hexToCompact. destruct (strip_term t (x :: nibs str)) as [-> ->]; [constructor; [done | apply nibs_nibbles] |].
  assert (Hm : len (x :: nibs str) mod 2 =? 1 = true).
  { rewrite len_cons. unfold len. rewrite length_nibs. replace (Z.of_nat (2 * _)) with (Z.of_nat (length str) * 2) by lia. by rewrite Z.mod_add by lia. }
  rewrite Hm, decodeNibbles_nibs. cbn [mbind outcome_bind]. unfold nibble in Hx. pose proof (b2z_range x). by rewrite odd_flag by lia.
Qed.

Lemma compactToHex_bytes c str :
  compactToHex (c :: str) =
    let l := if b2z c / 16 <? 2 then z2b (b2z c mod 16) :: nibs str else z2b (b2z c mod 16) :: nibs str ++ [term] in
    if Z.odd (b2z c / 16) then l else tail l.
Proof.
  unfold compactToHex, keybytesToHex. fold term (nibs (c :: str)). rewrite nibs_cons. cbn [app hd]. destruct (nibble_parts c) as [H1 H2].
  rewrite b2z_z2b_small by lia. set (h := b2z c / 16) in *. rewrite !app_comm_cons.
  assert (Hl : Z.land h 1 = Z.b2z (Z.odd h)) by (change 1 with (Z.ones 1); rewrite Z.land_ones by lia; change (2 ^ 1) with 2; by rewrite Zmod_odd; destruct (Z.odd h)).
  rewrite Hl. destruct (h <? 2); [rewrite take_all_but_last |]; by destruct (Z.odd h).
Qed.

(** The nibbles of a key in its compact form come back, with or without a terminator. *)
Lemma compactToHex_hexToCompact l (t : bool) :
  Forall nibble l → let hex := if t then l ++ [term] else l in
  ∃ c str, hexToCompact hex = Ok (c :: str) ∧ compactToHex (c :: str) = hex ∧ (length str <= length l)%nat.
Proof.
  intros Hl hex. assert (Hs : (∃ str, l = nibs str) ∨ ∃ x str, nibble x ∧ l = x :: nibs str).
  { destruct (Nat.Even_or_Odd (length l)) as [[n Hn] | [n Hn]]; [left; by apply (even_nibs n) |].
    destruct l as [| x l]; [cbn in Hn; lia |]. apply Forall_cons in Hl as [Hx Hl]. cbn in Hn.
    destruct (even_nibs n l) as [str ->]; [lia | done |]. right. by exists x, str. }
  destruct Hs as [[str ->] | (x & str & Hx & ->)]; subst hex.
  - rewrite compact_even. do 2 eexists. split; [done |]. rewrite compactToHex_bytes, length_nibs. split; [by destruct t | lia].
  - rewrite compact_odd by done. do 2 eexists. split; [done |]. rewrite compactToHex_bytes. cbn [length]. rewrite length_nibs.
    split; [| lia]. unfold nibble in Hx. pose proof (b2z_range x).
    replace (32 * Z.b2z t + 16 + b2z x) with ((2 * Z.b2z t + 1) * 16 + b2z x) by lia. rewrite b2z_z2b_small by (destruct t; cbn; lia).
    rewrite Z.div_add_l, Z.div_small, Z.add_0_r by lia. rewrite (Z.add_comm _ (b2z x)), Z.mod_add, Z.mod_small, z2b_b2z by lia. by destruct t.
Qed.

(** ** Indices *)

Lemma ix_inj a b : ix a = ix b → a = b.
Proof. unfold ix. intros. pose proof (b2z_range a). pose proof (b2z_range b). apply b2z_inj. lia. Qed.

Lemma ix_of_nat i : (i < 256)%nat → ix (z2b (Z.of_nat i)) = i.
Proof. intros. unfold ix. rewrite b2z_z2b_small by lia. lia. Qed.

Lemma ix_nibble c : nibble c ↔ (ix c < 16)%nat.
Proof. unfold nibble, ix. pose proof (b2z_range c). lia. Qed.

Lemma nibble_term : ¬ nibble term.
Proof. by intros H. Qed.

Lemma ix_term c : ix c = 16%nat → c = term.
Proof. intros. by apply ix_inj. Qed.

(** ** Terminated keys *)

Lemma terminated_nil : ¬ terminated [].
Proof. intros (l & _ & H). by destruct l. Qed.

Lemma terminated_cons c k : terminated (c :: k) ↔ (c = term ∧ k = []) ∨ (nibble c ∧ terminated k).
Proof.
  split.
  - intros ([| x l] & Hl & Heq); cbn in Heq; injection Heq as -> ->; [by left |].
    apply Forall_cons in Hl as [Hx Hl]. right. split; [done |]. by exists l.
  - intros [[-> ->] | [Hc (l & Hl & ->)]]; [by exists [] |]. exists (c :: l). by split; [constructor |].
Qed.

Lemma terminated_app l k : Forall nibble l → terminated (l ++ k) ↔ terminated k.
Proof.
  induction 1 as [| c l Hc Hl IH]; [done |]. cbn [app]. rewrite terminated_cons, IH.
  split; [intros [[-> _] | [_ ?]]; [by destruct nibble_term | done] | auto].
Qed.

(** No terminated key is a proper prefix of another. *)
Lemma terminated_prefix k l : terminated k → terminated (k ++ l) → l = [].
Proof.
  intros (x & Hx & ->). rewrite <- app_assoc, terminated_app by done. cbn [app].
  rewrite terminated_cons. intros [[_ ?] | [? _]]; [done | by destruct nibble_term].
Qed.

(** ** Common prefixes *)

Lemma prefixLen_spec a b :
  ∃ p x y, a = p ++ x ∧ b = p ++ y ∧ prefixLen a b = length p ∧ ∀ c x' y', x = c :: x' → y ≠ c :: y'.
Proof.
  revert b. induction a as [| c a IH]; intros b; [by exists [], [], b |]. destruct b as [| d b]; [by exists [], (c :: a), [] |].
  cbn [prefixLen]. case_decide as Hcd.
  - subst d. destruct (IH b) as (p & x & y & -> & -> & -> & H). by exists (c :: p), x, y.
  - exists [], (c :: a), (d :: b). repeat split; [done..|]. by intros e x' y' [= -> ->] [= -> ->].
Qed.
