(* ===== verification/TrieNode.v ===== *)
(** The nodes of Merkle Patricia tries: src/l2geth/trie/node.go, the collapsed
    nodes of src/l2geth/trie/database.go and the hasher of
    src/l2geth/trie/hasher.go.

    Every Go type that implements the interface [node] is a constructor of
    [node]; a nil interface is [nilNode].  A nil slice and an empty one are both
    the empty list, except in a cached hash, where nil means that there is none.
    Numbers and paths in the messages of errors are left out. *)

From S2P Require Import Prelude Rlp TrieEncoding.

Definition HashLength : nat := 32.

Definition BytesToHash (b : list byte) : list byte :=
  let b := drop (length b - HashLength) b in
  replicate (HashLength - length b) Byte.x00 ++ b.

Lemma BytesToHash_id h : length h = HashLength → BytesToHash h = h.
Proof. intros Hl. unfold BytesToHash. by rewrite Hl, Nat.sub_diag, drop_0, Hl, Nat.sub_diag. Qed.

Record nodeFlag := NodeFlag { fl_hash : option (list byte); dirty : bool }.

Inductive node :=
  | nilNode
  | fullNode (Children : list node) (flags : nodeFlag)
  | shortNode (Key : list byte) (Val : node) (flags : nodeFlag)
  | hashNode (h : list byte)
  | valueNode (v : list byte)
  | rawNode (b : list byte)
  | rawFullNode (Children : list node)
  | rawShortNode (Key : list byte) (Val : node).

Definition cache (n : node) : outcome (option (list byte) * bool) :=
  match n with
  | fullNode _ fl | shortNode _ _ fl => Ok (fl_hash fl, dirty fl)
  | hashNode _ | valueNode _ => Ok (None, true)
  | nilNode => Panic "nil pointer dereference"
  | rawNode _ | rawFullNode _ | rawShortNode _ _ => Panic "this should never end up in a live trie"
  end.

(** What the encoder writes for a node: the interfaces of the children are
    written as their values, those of a full node after nil children have
    become empty strings. *)
Fixpoint node_value (n : node) : value :=
  match n with
  | nilNode => VNilInterface
  | fullNode ns _ | rawFullNode ns =>
      VSlice false (map (λ n, match n with nilNode => VBytes [] | _ => node_value n end) ns)
  | shortNode k n _ | rawShortNode k n => VStruct [VBytes k; node_value n]
  | hashNode b | valueNode b | rawNode b => VBytes b
  end.

(** ** node.go: decoding *)

Definition hashLen : Z := 32.

(** The sixteen references of [decodeFull]. *)
Fixpoint decodeRefs (decodeRef : list byte → outcome (node * list byte)) (count : nat) (elems : list byte)
    : outcome (list node * list byte) :=
  match count with
  | O => Ok ([], elems)
  | S count =>
      '(cld, rest) ← wrap_err "[]" (decodeRef elems);
      '(ns, rest) ← decodeRefs decodeRef count rest;
      Ok (cld :: ns, rest)
  end.

Definition decodeShort (decodeRef : list byte → outcome (node * list byte)) (hash : option (list byte))
    (elems : list byte) : outcome node :=
  '(kbuf, rest) ← SplitString elems;
  let flag := NodeFlag hash false in
  let key := compactToHex kbuf in
  if hasTerm key then
    '(val, _) ← wrap_err "invalid value node" (SplitString rest);
    Ok (shortNode key (valueNode val) flag)
  else
    '(r, _) ← wrap_err "val" (decodeRef rest);
    Ok (shortNode key r flag).

Definition decodeFull (decodeRef : list byte → outcome (node * list byte)) (hash : option (list byte))
    (elems : list byte) : outcome node :=
  '(ns, elems) ← decodeRefs decodeRef 16 elems;
  '(val, _) ← SplitString elems;
  Ok (fullNode (ns ++ [if 0 <? len val then valueNode val else nilNode]) (NodeFlag hash false)).

(** [decodeRef], with [decodeNode nil] as a parameter. *)
Definition decodeRef (decodeNode : list byte → outcome node) (buf : list byte) : outcome (node * list byte) :=
  '(kind, val, rest) ← Split buf;
  match kind with
  | KList =>
      if hashLen <? len buf - len rest then Err (ErrNew "oversized embedded node")
      else n ← decodeNode buf; Ok (n, rest)
  | KString =>
      if len val =? 0 then Ok (nilNode, rest)
      else if len val =? 32 then Ok (hashNode val, rest)
      else Err (ErrNew "invalid RLP string size (want 0 or 32)")
  | KByte => Err (ErrNew "invalid RLP string size (want 0 or 32)")
  end.

(** The fuel is the depth of embedded nodes.  The number of values is zero when
    [CountValues] fails. *)
Fixpoint decodeNode_fuel (fuel : nat) (hash : option (list byte)) (buf : list byte) : outcome node :=
  match fuel with
  | O => Panic "out of fuel"
  | S fuel =>
      match buf with
      | [] => Err io_ErrUnexpectedEOF
      | _ =>
          '(elems, _) ← wrap_err "decode error" (SplitList buf);
          let ref := decodeRef (decodeNode_fuel fuel None) in
          let c := match CountValues elems with Ok c => Ok c | Err _ => Ok 0 | Panic m => Panic m end in
          c ← c;
          if c =? 2 then wrap_err "short" (decodeShort ref hash elems)
          else if c =? 17 then wrap_err "full" (decodeFull ref hash elems)
          else Err (ErrNew "invalid number of list elements")
      end
  end.

(** An embedded node is shorter than the node that holds it. *)
Definition decodeNode (hash : option (list byte)) (buf : list byte) : outcome node :=
  decodeNode_fuel (S (length buf)) hash buf.

Definition mustDecodeNode (hash : option (list byte)) (buf : list byte) : outcome node :=
  match decodeNode hash buf with Err _ => Panic "node" | r => r end.

(** ** database.go: collapsed nodes *)

Definition unknown_node {A} : outcome A := Panic "unknown node type".

Fixpoint simplifyNode (n : node) : outcome node :=
  match n with
  | shortNode k n _ => n ← simplifyNode n; Ok (rawShortNode k n)
  | fullNode ns _ => rawFullNode <$> mapM (λ n, match n with nilNode => Ok nilNode | _ => simplifyNode n end) ns
  | valueNode _ | hashNode _ | rawNode _ => Ok n
  | _ => unknown_node
  end.

Fixpoint expandNode (hash : option (list byte)) (n : node) : outcome node :=
  match n with
  | rawShortNode k n => n ← expandNode None n; Ok (shortNode (compactToHex k) n (NodeFlag hash false))
  | rawFullNode ns =>
      ns ← mapM (λ n, match n with nilNode => Ok nilNode | _ => expandNode None n end) ns;
      Ok (fullNode ns (NodeFlag hash false))
  | valueNode _ | hashNode _ => Ok n
  | _ => unknown_node
  end.

(** The loop over the first children of a full node. *)
Definition gather_each (gather : node → outcome (list (list byte))) : nat → list node → outcome (list (list byte)) :=
  fix each (count : nat) (ns : list node) :=
    match count, ns with
    | S count, n :: ns => l ← gather n; ls ← each count ns; Ok (l ++ ls)
    | _, _ => Ok []
    end.

(** The hashes in a collapsed node, in the order of the callbacks. *)
Fixpoint forGatherChildren (n : node) : outcome (list (list byte)) :=
  match n with
  | rawShortNode _ n => forGatherChildren n
  | rawFullNode ns => gather_each forGatherChildren 16 ns
  | hashNode h => Ok [BytesToHash h]
  | valueNode _ | nilNode => Ok []
  | _ => unknown_node
  end.

(** ** The interface of the node database

    What tries use of [Database]: [node], where [None] is a node that is not
    found, and [insert], with an invariant [ok] of the database and a relation
    [named] between the hashes and the encodings to insert.  A node that was
    inserted is read back in its expanded form, unless another one was there
    under its hash, and nothing else changes; it is then held in memory. *)

Class NodeDatabase (D : Type) := {
  db_node : D → list byte → outcome (option node);
  db_insert : list byte → list byte → node → D → outcome D;
  db_held : D → list byte → Prop;
}.

Class NodeDatabaseLaws (D : Type) `{NodeDatabase D} (named : list byte → list byte → Prop) (ok : D → Prop) : Prop := {
  db_insert_spec : ∀ d h blob n raw, ok d → named h blob → simplifyNode n = Ok raw → length h = HashLength →
    EncodeToBytes (node_value raw) = Ok blob → is_Ok (forGatherChildren raw) = true →
    ∃ d', db_insert h blob n d = Ok d' ∧ ok d' ∧ db_held d' h ∧
      (∀ h', h' ≠ h → db_node d' h' = db_node d h') ∧
      (db_node d' h = Some <$> expandNode (Some h) raw ∨ (db_node d' h = db_node d h ∧ db_node d h ≠ Ok None));
}.

(** ** hasher.go *)

(** A callback for a leaf and the hash of its parent. *)
Definition LeafCallback (D : Type) : Type := list byte → list byte → st D ().

Section Hasher.
  Context (Keccak256 : list byte → list byte) {D : Type} `{NodeDatabase D}.
  (** The callback for the leaves of account tries; its error is ignored. *)
  Context (onleaf : option (LeafCallback D)).

Definition report_leaf (hash : list byte) (n : node) : st D () :=
  match onleaf, n with
  | Some f, valueNode child => λ d, match f child hash d with (Panic m, d) => (Panic m, d) | (_, d) => (Ok tt, d) end
  | _, _ => mret tt
  end.

Fixpoint report_each (hash : list byte) (ns : list node) : st D () :=
  match ns with [] => mret tt | n :: ns => report_leaf hash n;; report_each hash ns end.

Definition report_leaves (hash : list byte) (n : node) : st D () :=
  match n with
  | shortNode _ val _ => report_leaf hash val
  | fullNode ns _ => report_each hash (take 16 ns)
  | _ => mret tt
  end.

(** [store]; [None] is a nil database. *)
Definition store (n : node) (force : bool) : st (option D) node := λ db,
  match n with
  | nilNode | hashNode _ => (Ok n, db)
  | _ =>
      match EncodeToBytes (node_value n) with
      | Ok tmp =>
          if (len tmp <? 32) && negb force then (Ok n, db)
          else
            match cache n with
            | Ok (cached, _) =>
                let hash := default (Keccak256 tmp) cached in
                match db with
                | None => (Ok (hashNode hash), None)
                | Some d =>
                    match db_insert (BytesToHash hash) tmp n d with
                    | Ok d =>
                        match report_leaves (BytesToHash hash) n d with
                        | (Ok _, d) => (Ok (hashNode hash), Some d)
                        | (Err e, d) => (Err e, Some d)
                        | (Panic m, d) => (Panic m, Some d)
                        end
                    | Err e => (Err e, db)
                    | Panic m => (Panic m, db)
                    end
                end
            | Err e => (Err e, db)
            | Panic m => (Panic m, db)
            end
      | Err _ | Panic _ => (Panic "encode error", db)
      end
  end.

(** The loop of [hashChildren] over the children of a full node: the collapsed
    and the cached ones. *)
Fixpoint hash_each (hash : node → st (option D) (node * node)) (ns : list node) : st (option D) (list node * list node) :=
  match ns with
  | [] => mret ([], [])
  | n :: ns =>
      '(collapsed, cached) ← match n with nilNode => mret (nilNode, nilNode) | _ => hash n end;
      '(collapseds, cacheds) ← hash_each hash ns;
      mret (collapsed :: collapseds, cached :: cacheds)
  end.

(** [hashChildren], with [hash] without force as a parameter. *)
Definition hashChildren (hash : node → st (option D) (node * node)) (n : node) : st (option D) (node * node) :=
  match n with
  | shortNode k val fl =>
      ck ← st_lift (hexToCompact k);
      match val with
      | valueNode _ => mret (shortNode ck val fl, shortNode k val fl)
      | _ => '(collapsed, cached) ← hash val; mret (shortNode ck collapsed fl, shortNode k cached fl)
      end
  | fullNode ns fl =>
      '(collapseds, cacheds) ← hash_each hash (take 16 ns);
      mret (fullNode (collapseds ++ drop 16 ns) fl, fullNode (cacheds ++ drop 16 ns) fl)
  | _ => mret (n, n)
  end.

(** The cached node with its flags after its hash is known. *)
Definition set_cached (hashed : node) (commit : bool) (cached : node) : node :=
  let set fl := NodeFlag (match hashed with hashNode h => Some h | _ => None end) (if commit then false else dirty fl) in
  match cached with
  | shortNode k val fl => shortNode k val (set fl)
  | fullNode ns fl => fullNode ns (set fl)
  | _ => cached
  end.

(** The part of [hash] after the walk over the children. *)
Definition finish_hash (force : bool) (r : node * node) : st (option D) (node * node) :=
  let '(collapsed, cached) := r in
  hashed ← store collapsed force;
  commit ← st_gets (λ db : option D, bool_decide (is_Some db));
  mret (hashed, set_cached hashed commit cached).

(** [hash]; the fuel is the height of the trie. *)
Fixpoint hash (fuel : nat) (force : bool) (n : node) : st (option D) (node * node) := λ db,
  match fuel with
  | O => (Panic "out of fuel", db)
  | S fuel =>
      let walk := r ← hashChildren (hash fuel false) n; finish_hash force r in
      match cache n with
      | Ok (None, _) => walk db
      | Ok (Some h, dirty) =>
          match db with
          | None => (Ok (hashNode h, n), db)
          | Some _ => if negb dirty then (Ok (hashNode h, hashNode h), db) else walk db
          end
      | Err e => (Err e, db)
      | Panic m => (Panic m, db)
      end
  end.

End Hasher.
