(* ===== verification/Trie.v ===== *)
(** Merkle Patricia tries: src/l2geth/trie/trie.go and proof.go,
    and [DeriveSha] of src/l2geth/core/types/derive_sha.go.

    A trie is its root node; the database that it points to is an argument, as
    other tries share it.  The recursive functions take the part of the key
    that is left, [key[pos:]] in [tryGet], and a fuel, which every call lowers by
    one; running out of it is a panic that the code does not have. *)

From S2P Require Import Prelude Rlp TrieEncoding TrieNode.

(** The root hash of an empty trie. *)
Definition emptyRoot : list byte :=
  be 32 0x56e81f171bcc55a6ff8345e692c0f86e5b48e01b996cadc001622fb5e363b421.

(** [MissingNodeError], without its hash and path. *)
Definition missing_node : error := ErrNew "missing trie node".

Definition newFlag : nodeFlag := NodeFlag None true.

Definition invalid_node {A} : outcome A := Panic "invalid node".

Definition no_child {A} : outcome A := Panic "index out of range".

(** [n.Children[c]] *)
Definition child (ns : list node) (c : byte) : outcome node :=
  match ns !! ix c with Some n => Ok n | None => no_child end.

Definition set_child (ns : list node) (c : byte) (n : node) : list node := <[ix c := n]> ns.

Definition is_nil (n : node) : bool := match n with nilNode => true | _ => false end.

(** The number of calls that an operation on a key makes at most: a node of the
    path takes at least one nibble, and may have to be resolved first. *)
Definition path_fuel (key : list byte) : nat := 2 * length key + 2.

Section Operations.
  Context {D : Type} `{NodeDatabase D} (db : D).

Definition resolveHash (h : list byte) : outcome node :=
  n ← db_node db (BytesToHash h);
  match n with Some n => Ok n | None => Err missing_node end.

Definition resolve (n : node) : outcome node := match n with hashNode h => resolveHash h | _ => Ok n end.

Definition New (root : list byte) : outcome node :=
  if bool_decide (root ≠ replicate HashLength Byte.x00) && bool_decide (root ≠ emptyRoot)
  then resolveHash root else Ok nilNode.

(** ** Reading *)

(** The value, the new node and whether a node was resolved. *)
Fixpoint tryGet (fuel : nat) (n : node) (key : list byte) : outcome (list byte * node * bool) :=
  match fuel with
  | O => Panic "out of fuel"
  | S fuel =>
      match n with
      | nilNode => Ok ([], nilNode, false)
      | valueNode v => Ok (v, n, false)
      | shortNode k val fl =>
          if (len key <? len k) || negb (bool_decide (k = take (length k) key)) then Ok ([], n, false)
          else
            '(value, newnode, didResolve) ← tryGet fuel val (drop (length k) key);
            Ok (value, if didResolve : bool then shortNode k newnode fl else n, didResolve)
      | fullNode ns fl =>
          match key with
          | [] => no_child
          | c :: key =>
              cld ← child ns c;
              '(value, newnode, didResolve) ← tryGet fuel cld key;
              Ok (value, if didResolve : bool then fullNode (set_child ns c newnode) fl else n, didResolve)
          end
      | hashNode h =>
          cld ← resolveHash h;
          '(value, newnode, _) ← tryGet fuel cld key;
          Ok (value, newnode, true)
      | _ => invalid_node
      end
  end.

Definition TryGet (key : list byte) : st node (list byte) := λ root,
  let key := keybytesToHex key in
  match tryGet (path_fuel key) root key with
  | Ok (value, newroot, didResolve) => (Ok value, if didResolve : bool then newroot else root)
  | Err e => (Err e, root)
  | Panic m => (Panic m, root)
  end.

(** ** Inserting *)

(** [insert] into an empty trie, at the end of a key or not. *)
Definition insert_nil (key : list byte) (value : node) : node :=
  match key with [] => value | _ => shortNode key value newFlag end.

(** The branch that replaces a short node whose key differs. *)
Definition branch_out (k key : list byte) (val value : node) : outcome node :=
  match k, key with
  | c :: k, c' :: key =>
      let branch := replicate 17 nilNode in
      if (ix c <? 17)%nat && (ix c' <? 17)%nat then
        let branch := set_child branch c (insert_nil k val) in
        Ok (fullNode (set_child branch c' (insert_nil key value)) newFlag)
      else no_child
  | _, _ => no_child
  end.

(** Whether the trie changed, and the new node. *)
Fixpoint insert (fuel : nat) (n : node) (key : list byte) (value : node) : outcome (bool * node) :=
  match fuel with
  | O => Panic "out of fuel"
  | S fuel =>
      match key with
      | [] =>
          match n, value with
          | valueNode v, valueNode v' => Ok (negb (bool_decide (v = v')), value)
          | valueNode _, _ => Panic "interface conversion"
          | _, _ => Ok (true, value)
          end
      | c :: rest =>
          match n with
          | shortNode k val fl =>
              let matchlen := prefixLen key k in
              if (matchlen =? length k)%nat then
                '(dirty, nn) ← insert fuel val (drop matchlen key) value;
                Ok (if dirty : bool then (true, shortNode k nn newFlag) else (false, n))
              else
                branch ← branch_out (drop matchlen k) (drop matchlen key) val value;
                Ok (true, if (matchlen =? 0)%nat then branch else shortNode (take matchlen key) branch newFlag)
          | fullNode ns fl =>
              cld ← child ns c;
              '(dirty, nn) ← insert fuel cld rest value;
              Ok (if dirty : bool then (true, fullNode (set_child ns c nn) newFlag) else (false, n))
          | nilNode => Ok (true, shortNode key value newFlag)
          | hashNode h =>
              rn ← resolveHash h;
              '(dirty, nn) ← insert fuel rn key value;
              Ok (if dirty : bool then (true, nn) else (false, rn))
          | _ => invalid_node
          end
      end
  end.

Definition TryUpdate (key value : list byte) : st node () := λ root,
  let k := keybytesToHex key in
  match insert (path_fuel k) root k (valueNode value) with
  | Ok (_, n) => (Ok tt, n)
  | Err e => (Err e, root)
  | Panic m => (Panic m, root)
  end.

(** ** Deleting *)

(** The loop over the children: the index of the only one that is left, where
    [pos] is the one that was found before [i]. *)
Fixpoint only_child (i : nat) (pos : option nat) (ns : list node) : option nat :=
  match ns with
  | [] => pos
  | cld :: ns =>
      if is_nil cld then only_child (S i) pos ns
      else match pos with None => only_child (S i) (Some i) ns | Some _ => None end
  end.

(** The full node after a deletion, reduced to a short node when one child is
    left. *)
Definition reduce (ns : list node) : outcome node :=
  match only_child 0 None ns with
  | None => Ok (fullNode ns newFlag)
  | Some pos =>
      let cld := default nilNode (ns !! pos) in
      let key := [z2b (Z.of_nat pos)] in
      if negb (pos =? 16)%nat then
        cnode ← resolve cld;
        match cnode with
        | shortNode k val _ => Ok (shortNode (key ++ k) val newFlag)
        | _ => Ok (shortNode key cld newFlag)
        end
      else Ok (shortNode key cld newFlag)
  end.

Fixpoint delete (fuel : nat) (n : node) (key : list byte) : outcome (bool * node) :=
  match fuel with
  | O => Panic "out of fuel"
  | S fuel =>
      match n with
      | shortNode k val fl =>
          let matchlen := prefixLen key k in
          if (matchlen <? length k)%nat then Ok (false, n)
          else if (matchlen =? length key)%nat then Ok (true, nilNode)
          else
            '(dirty, cld) ← delete fuel val (drop (length k) key);
            Ok (if dirty : bool then
                  match cld with
                  | shortNode k' val' _ => (true, shortNode (k ++ k') val' newFlag)
                  | _ => (true, shortNode k cld newFlag)
                  end
                else (false, n))
      | fullNode ns fl =>
          match key with
          | [] => no_child
          | c :: key =>
              cld ← child ns c;
              '(dirty, nn) ← delete fuel cld key;
              if dirty : bool then n ← reduce (set_child ns c nn); Ok (true, n) else Ok (false, n)
          end
      | valueNode _ => Ok (true, nilNode)
      | nilNode => Ok (false, nilNode)
      | hashNode h =>
          rn ← resolveHash h;
          '(dirty, nn) ← delete fuel rn key;
          Ok (if dirty : bool then (true, nn) else (false, rn))
      | _ => invalid_node
      end
  end.

Definition TryDelete (key : list byte) : st node () := λ root,
  let k := keybytesToHex key in
  match delete (path_fuel k) root k with
  | Ok (_, n) => (Ok tt, n)
  | Err e => (Err e, root)
  | Panic m => (Panic m, root)
  end.

End Operations.

(** [Update] and [Delete]: the error is only logged. *)
Definition logged {S} (m : st S ()) : st S () := st_catch m (λ _, mret tt).

Definition Update {D} `{NodeDatabase D} (db : D) (key value : list byte) : st node () := logged (TryUpdate db key value).

(** ** Hashing and committing *)

Fixpoint height (n : node) : nat :=
  match n with
  | fullNode ns _ => S (foldr (λ n h, Nat.max (height n) h) O ns)
  | shortNode _ n _ => S (height n)
  | _ => 1
  end.

Section Hashing.
  Context (Keccak256 : list byte → list byte) {D : Type} `{NodeDatabase D}.

Definition hashRoot (onleaf : option (LeafCallback D)) (root : node) : st (option D) (node * node) :=
  match root with
  | nilNode => mret (hashNode emptyRoot, nilNode)
  | _ => hash Keccak256 onleaf (height root) true root
  end.

Definition hash_result (n : node) : outcome (list byte) :=
  match n with hashNode h => Ok (BytesToHash h) | _ => Panic "interface conversion" end.

(** [Hash] ignores the error of [hashRoot], which has none without a database. *)
Definition Hash : st node (list byte) := λ root,
  match hashRoot None root None with
  | (Ok (hashed, cached), _) => (hash_result hashed, cached)
  | (Err e, _) => (Err e, root)
  | (Panic m, _) => (Panic m, root)
  end.

(** [Commit], on the database and the root. *)
Definition Commit (onleaf : option (LeafCallback D)) : st (D * node) (list byte) := λ '(db, root),
  match hashRoot onleaf root (Some db) with
  | (Ok (hashed, cached), db') => (hash_result hashed, (default db db', cached))
  | (Err e, db') => (Err e, (default db db', root))
  | (Panic m, db') => (Panic m, (default db db', root))
  end.

(** ** proof.go *)

(** The nodes on the path to a key. *)
Fixpoint proof_path (db : D) (fuel : nat) (tn : node) (key : list byte) : outcome (list node) :=
  match fuel with
  | O => Panic "out of fuel"
  | S fuel =>
      match key, tn with
      | [], _ | _, nilNode => Ok []
      | c :: rest, shortNode k val _ =>
          let found := negb ((len key <? len k) || negb (bool_decide (k = take (length k) key))) in
          nodes ← (if found then proof_path db fuel val (drop (length k) key) else Ok []);
          Ok (tn :: nodes)
      | c :: rest, fullNode ns _ =>
          cld ← child ns c;
          nodes ← proof_path db fuel cld rest;
          Ok (tn :: nodes)
      | _, hashNode h => n ← resolveHash db h; proof_path db fuel n key
      | _, _ => invalid_node
      end
  end.

(** The elements of the proof: the writes to [proofDb] in their order. *)
Fixpoint proof_elements (i : nat) (fromLevel : Z) (nodes : list node) : outcome (list (list byte * list byte)) :=
  match nodes with
  | [] => Ok []
  | n :: nodes =>
      '(n, _) ← (hashChildren (D := D) (hash Keccak256 None (height n) false) n None).1;
      hn ← (store (D := D) Keccak256 None n false None).1;
      let ok := match hn with hashNode _ => true | _ => false end in
      if ok || (i =? 0)%nat then
        if 0 <? fromLevel then proof_elements (S i) (fromLevel - 1) nodes
        else
          enc ← EncodeToBytes (node_value n);
          let hash := match hn with hashNode h => h | _ => Keccak256 enc end in
          rest ← proof_elements (S i) fromLevel nodes;
          Ok ((hash, enc) :: rest)
      else proof_elements (S i) fromLevel nodes
  end.

Definition Prove (db : D) (key : list byte) (fromLevel : Z) (root : node) : outcome (list (list byte * list byte)) :=
  let key := keybytesToHex key in
  nodes ← proof_path db (path_fuel key) root key;
  proof_elements 0 fromLevel nodes.

End Hashing.

(** The part of the key that is left and the node that was reached. *)
Fixpoint get (tn : node) (key : list byte) : outcome (list byte * node) :=
  match tn with
  | shortNode k val _ =>
      if (len key <? len k) || negb (bool_decide (k = take (length k) key)) then Ok ([], nilNode)
      else get val (drop (length k) key)
  | fullNode ns _ =>
      match key with
      | [] => no_child
      | c :: key => default no_child (map (λ n, get n key) ns !! ix c)
      end
  | hashNode _ => Ok (key, tn)
  | nilNode => Ok (key, nilNode)
  | valueNode _ => Ok ([], tn)
  | _ => invalid_node
  end.

(** The loop of [VerifyProof]; a value and the number of nodes. *)
Fixpoint verify_loop (fuel : nat) (proofDb : list byte → option (list byte)) (i : nat) (wantHash key : list byte)
    : outcome (list byte * nat) :=
  match fuel with
  | O => Panic "out of fuel"
  | S fuel =>
      match proofDb wantHash with
      | None => Err (ErrNew "proof node missing")
      | Some buf =>
          n ← wrap_err "bad proof node" (decodeNode (Some wantHash) buf);
          '(keyrest, cld) ← get n key;
          match cld with
          | nilNode => Ok ([], i)
          | hashNode h => verify_loop fuel proofDb (S i) (take HashLength h ++ drop (length h) wantHash) keyrest
          | valueNode v => Ok (v, S i)
          | _ => verify_loop fuel proofDb (S i) wantHash key
          end
      end
  end.

Definition VerifyProof (rootHash key : list byte) (proofDb : list byte → option (list byte)) : outcome (list byte * nat) :=
  let key := keybytesToHex key in
  verify_loop (path_fuel key) proofDb 0 rootHash key.

(** ** DeriveSha *)

(** A trie without a database. *)
#[export] Instance no_database : NodeDatabase () := {|
  db_node _ _ := Panic "nil pointer dereference";
  db_insert _ _ _ _ := Panic "nil pointer dereference";
  db_held _ _ := False;
|}.

(** The loop of [DeriveSha] from the [i]-th element on. *)
Fixpoint derive_loop (i : Z) (l : list (list byte)) : st node () :=
  match l with
  | [] => mret tt
  | b :: l =>
      keybuf ← st_lift (EncodeToBytes (VUint i));
      Update tt keybuf b;;
      derive_loop (i + 1) l
  end.

(** [list.GetRlp(0)], ... are the elements of [l]. *)
Definition DeriveSha (Keccak256 : list byte → list byte) (l : list (list byte)) : outcome (list byte) :=
  ((derive_loop 0 l;; Hash (D := ()) Keccak256) nilNode).1.
