(* ===== verification/TrieTree.v ===== *)
(** What a trie stands for: a tree without caches, hashes or a database, and the
    map from keys to values that it holds.

    [wf] is the minimal form that insertion and deletion keep: a short node is a
    leaf or leads to a full node, and a full node has two children at least.  A
    tree in minimal form is determined by its map, [wf_unique]. *)

From S2P Require Import Prelude TrieEncoding.

#[local] Set Warnings "-register-all".

Inductive tree :=
  | TNil
  | TVal (v : list byte)
  | TShort (k : list byte) (t : tree)
  | TFull (ts : list tree).

Lemma tree_ind' (P : tree → Prop) :
  P TNil → (∀ v, P (TVal v)) → (∀ k t, P t → P (TShort k t)) → (∀ ts, Forall P ts → P (TFull ts)) → ∀ t, P t.
Proof.
  intros Hn Hv Hs Hf. fix rec 1. intros [| v | k t | ts]; [done | apply Hv | apply Hs, rec |].
  apply Hf. induction ts as [| t ts IH]; constructor; [apply rec | done].
Qed.

#[export] Instance tree_nil_dec t : Decision (t = TNil).
Proof. destruct t; (by left) || (by right). Defined.

(** The key without its prefix [k]. *)
Definition strip (k key : list byte) : option (list byte) :=
  if decide (take (length k) key = k) then Some (drop (length k) key) else None.

Fixpoint lookup (t : tree) (key : list byte) : option (list byte) :=
  match t with
  | TNil => None
  | TVal v => match key with [] => Some v | _ => None end
  | TShort k t => key ← strip k key; lookup t key
  | TFull ts =>
      match key with
      | [] => None
      | c :: key => map (λ t, lookup t key) ts !! ix c ≫= id
      end
  end.

Inductive wf : tree → Prop :=
  | wf_leaf k v : terminated k → wf (TShort k (TVal v))
  | wf_ext k ts : k ≠ [] → Forall nibble k → wf (TFull ts) → wf (TShort k (TFull ts))
  | wf_full ts :
      length ts = 17%nat →
      (∀ i t, ts !! i = Some t → (i < 16)%nat → t ≠ TNil → wf t) →
      (∀ t, ts !! 16%nat = Some t → t ≠ TNil → ∃ v, t = TVal v) →
      (∃ i j ti tj, i ≠ j ∧ ts !! i = Some ti ∧ ts !! j = Some tj ∧ ti ≠ TNil ∧ tj ≠ TNil) →
      wf (TFull ts).

(** A tree that may stand where [key] is left: it is empty, or a value at the
    end of the key, or in minimal form before. *)
Definition fits (key : list byte) (t : tree) : Prop :=
  t ≠ TNil → match key with [] => ∃ v, t = TVal v | _ => wf t end.

Definition key_ok (key : list byte) : Prop := key = [] ∨ terminated key.

(** ** Looking up *)

Lemma strip_Some k key rest : strip k key = Some rest ↔ key = k ++ rest.
Proof.
  unfold strip. case_decide as Hd; split.
  - intros [= <-]. pose proof (take_drop (length k) key). congruence.
  - intros ->. by rewrite drop_app_length.
  - done.
  - intros ->. by rewrite take_app_length in Hd.
Qed.

Lemma strip_app k rest : strip k (k ++ rest) = Some rest.
Proof. by apply strip_Some. Qed.

Lemma lookup_short k t key v : lookup (TShort k t) key = Some v ↔ ∃ rest, key = k ++ rest ∧ lookup t rest = Some v.
Proof.
  cbn [lookup]. rewrite bind_Some. split; intros (rest & H1 & H2); exists rest; by rewrite strip_Some in *.
Qed.

Lemma lookup_short_app k t rest : lookup (TShort k t) (k ++ rest) = lookup t rest.
Proof. cbn [lookup]. by rewrite strip_app. Qed.

Lemma lookup_full ts c key : lookup (TFull ts) (c :: key) = t ← ts !! ix c; lookup t key.
Proof. cbn [lookup]. rewrite list_lookup_fmap. by destruct (ts !! ix c). Qed.

Lemma lookup_full_at ts c key t : ts !! ix c = Some t → lookup (TFull ts) (c :: key) = lookup t key.
Proof. intros H. by rewrite lookup_full, H. Qed.

Lemma wf_not_nil t : wf t → t ≠ TNil.
Proof. by destruct 1. Qed.

Lemma wf_child ts c t : wf (TFull ts) → ts !! ix c = Some t → t ≠ TNil →
  (nibble c ∧ wf t) ∨ (c = term ∧ ∃ v, t = TVal v).
Proof.
  intros Hw Ht Hn. inversion Hw as [| | ? Hl Hc Hv _]; subst. pose proof (lookup_lt_Some _ _ _ Ht).
  destruct (decide (ix c < 16)%nat) as [Hi | Hi].
  - left. split; [by apply ix_nibble | eauto].
  - right. assert (ix c = 16%nat) as Hix by lia. rewrite Hix in Ht. split; [by apply ix_term | eauto].
Qed.

Lemma lookup_terminated t : wf t → ∀ key v, lookup t key = Some v → terminated key.
Proof.
  induction 1 as [k v Hk | k ts Hk Hn Hw IH | ts Hl Hw IH Hv Htwo]; intros key v'.
  - rewrite lookup_short. intros (rest & -> & Hr). destruct rest; [by rewrite app_nil_r | done].
  - rewrite lookup_short. intros (rest & -> & Hr). rewrite terminated_app by done. eauto.
  - destruct key as [| c key]; [done |]. rewrite lookup_full. destruct (ts !! ix c) as [t |] eqn:Ht; [| done]. cbn [mbind option_bind].
    intros Hlk. assert (t ≠ TNil) as Hne by (by intros ->). rewrite terminated_cons.
    destruct (wf_child ts c t) as [[Hc _] | [-> [w ->]]]; [by constructor | done | done | right | left].
    + split; [done |]. apply (IH (ix c) t) with (v := v'); [done | by apply ix_nibble | done..].
    + by destruct key.
Qed.

Lemma fits_cons c key t : fits (c :: key) t ↔ (t = TNil ∨ wf t).
Proof. unfold fits. split; [destruct (decide (t = TNil)); auto | intros [-> | ?]; done]. Qed.

Lemma fits_lookup key t k v : key_ok key → fits key t → lookup t k = Some v → key_ok k ∧ (k = [] ↔ key = []).
Proof.
  intros Hk Hf Hl. assert (t ≠ TNil) as Hn by (by intros ->). specialize (Hf Hn). destruct key as [| c key].
  - destruct Hf as [w ->]. destruct k; [| done]. split; [by left | done].
  - pose proof (lookup_terminated t Hf k v Hl) as Ht. split; [by right |]. split; [| done]. intros ->. by apply terminated_nil in Ht.
Qed.

(** A tree in minimal form holds a key, a full node two that differ at once. *)
Lemma wf_inhabited t : wf t → ∃ key v, lookup t key = Some v.
Proof.
  induction 1 as [k v Hk | k ts Hk Hn Hw IH | ts Hl Hw IH Hv (i & j & ti & tj & _ & Hi & _ & Hti & _)].
  - exists k, v. rewrite <- (app_nil_r k) at 2. by rewrite lookup_short_app.
  - destruct IH as (key & v & H). exists (k ++ key), v. by rewrite lookup_short_app.
  - assert (∃ key v, lookup ti key = Some v) as (key & v & Hk).
    { pose proof (lookup_lt_Some _ _ _ Hi). destruct (decide (i < 16)%nat); [eauto |].
      replace i with 16%nat in Hi by lia. destruct (Hv ti Hi Hti) as [v ->]. by exists [], v. }
    pose proof (lookup_lt_Some _ _ _ Hi). exists (z2b (Z.of_nat i) :: key), v.
    rewrite (lookup_full_at _ _ _ ti); [done |]. by rewrite ix_of_nat by lia.
Qed.

Lemma child_inhabited ts i t : wf (TFull ts) → ts !! i = Some t → t ≠ TNil →
  ∃ c key v, ix c = i ∧ lookup (TFull ts) (c :: key) = Some v.
Proof.
  intros Hw Ht Hn. inversion Hw as [| | ? Hl Hc Hv _]; subst. pose proof (lookup_lt_Some _ _ _ Ht).
  assert (ix (z2b (Z.of_nat i)) = i) as Hix by (rewrite ix_of_nat; lia). rewrite <- Hix in Ht.
  destruct (wf_child _ _ _ Hw Ht Hn) as [[_ Hwt] | [_ [v ->]]].
  - destruct (wf_inhabited t Hwt) as (key & v & Hk). exists (z2b (Z.of_nat i)), key, v. by rewrite (lookup_full_at _ _ _ t).
  - exists (z2b (Z.of_nat i)), [], v. by rewrite (lookup_full_at _ _ _ (TVal v)).
Qed.

Lemma full_two ts : wf (TFull ts) → ∃ a b ka kb va vb, a ≠ b ∧
  lookup (TFull ts) (a :: ka) = Some va ∧ lookup (TFull ts) (b :: kb) = Some vb.
Proof.
  intros Hw. inversion Hw as [| | ? Hl Hc Hv (i & j & ti & tj & Hij & Hi & Hj & Hti & Htj)]; subst.
  destruct (child_inhabited ts i ti) as (a & ka & va & Ha & Hka); [done.. |].
  destruct (child_inhabited ts j tj) as (b & kb & vb & Hb & Hkb); [done.. |].
  exists a, b, ka, kb, va, vb. split; [| done]. intros ->. congruence.
Qed.

(** ** Trees in minimal form with the same map are the same *)

Lemma leaf_only k v key w : lookup (TShort k (TVal v)) key = Some w → key = k ∧ w = v.
Proof. rewrite lookup_short. intros ([| ? ?] & -> & Hr); [| done]. injection Hr as <-. by rewrite app_nil_r. Qed.

Lemma leaf_not_two k v a b ka kb p va vb : a ≠ b →
  lookup (TShort k (TVal v)) (p ++ a :: ka) = Some va → lookup (TShort k (TVal v)) (p ++ b :: kb) = Some vb → False.
Proof.
  intros Hab Ha Hb. apply leaf_only in Ha as [Ha _]. apply leaf_only in Hb as [Hb _]. rewrite <- Hb in Ha.
  apply app_inv_head in Ha. congruence.
Qed.

Lemma short_not_full k t ts : k ≠ [] → wf (TFull ts) → ¬ ∀ key, lookup (TShort k t) key = lookup (TFull ts) key.
Proof.
  intros Hk Hw Heq. destruct (full_two ts Hw) as (a & b & ka & kb & va & vb & Hab & Ha & Hb).
  rewrite <- Heq, lookup_short in Ha, Hb. destruct Ha as (ra & Ha & _), Hb as (rb & Hb & _).
  destruct k as [| c k]; [done |]. cbn in Ha, Hb. congruence.
Qed.

Lemma common_prefix (k k' : list byte) a b ra rb ra' rb' :
  a ≠ b → k ++ a :: ra = k' ++ ra' → k ++ b :: rb = k' ++ rb' → k' `prefix_of` k.
Proof.
  revert k'. induction k as [| c k IH]; intros [| c' k'] Hab Ha Hb; [done | | apply prefix_nil |].
  - cbn in Ha, Hb. congruence.
  - cbn in Ha, Hb. injection Ha as <- Ha. injection Hb as Hb. apply prefix_cons. eauto.
Qed.

Lemma short_prefix k k' ts ts' : wf (TFull ts) → (∀ key, lookup (TShort k (TFull ts)) key = lookup (TShort k' (TFull ts')) key) →
  k' `prefix_of` k.
Proof.
  intros Hw Heq. destruct (full_two ts Hw) as (a & b & ka & kb & va & vb & Hab & Ha & Hb).
  rewrite <- (lookup_short_app k), Heq, lookup_short in Ha, Hb.
  destruct Ha as (ra & Ha & _), Hb as (rb & Hb & _). by apply (common_prefix k k' a b ka kb ra rb).
Qed.

Lemma full_children ts ts' i t t' :
  wf (TFull ts) → wf (TFull ts') → (∀ key, lookup (TFull ts) key = lookup (TFull ts') key) →
  ts !! i = Some t → ts' !! i = Some t' → t ≠ TNil → t' ≠ TNil ∧ ∀ key, lookup t key = lookup t' key.
Proof.
  intros Hw Hw' Heq Ht Ht' Hn. destruct (child_inhabited ts i t Hw Ht Hn) as (c & key & v & <- & Hk). split.
  - intros ->. rewrite Heq, (lookup_full_at _ _ _ TNil Ht') in Hk. done.
  - intros key'. by rewrite <- (lookup_full_at ts c key' t), Heq, (lookup_full_at ts' c key' t').
Qed.

(** A tree in minimal form is determined by the keys and values that it holds. *)
Lemma wf_unique t1 : wf t1 → ∀ t2, wf t2 → (∀ key, lookup t1 key = lookup t2 key) → t1 = t2.
Proof.
  induction 1 as [k v Hk | k ts Hk Hn Hw IH | ts Hl Hw IH Hv Htwo]; intros t2 Hw2 Heq.
  - destruct Hw2 as [k' v' Hk' | k' ts' Hk' Hn' Hw' | ts' Hl' Hw' Hv' Htwo'].
    + assert (lookup (TShort k (TVal v)) k = Some v) as Hl by (rewrite <- (app_nil_r k) at 2; by rewrite lookup_short_app).
      rewrite Heq in Hl. apply leaf_only in Hl as [-> ->]. done.
    + exfalso. destruct (full_two ts' Hw') as (a & b & ka & kb & va & vb & Hab & Ha & Hb).
      rewrite <- (lookup_short_app k'), <- Heq in Ha, Hb. by apply (leaf_not_two k v a b ka kb k' va vb).
    + exfalso. apply (short_not_full k (TVal v) ts'); [| by constructor | done]. intros ->. by apply terminated_nil in Hk.
  - inversion Hw2 as [k' v' Hk' | k' ts' Hk' Hn' Hw' | ts' Hl' Hw' Hv' Htwo']; subst t2.
    + exfalso. destruct (full_two ts Hw) as (a & b & ka & kb & va & vb & Hab & Ha & Hb).
      rewrite <- (lookup_short_app k), Heq in Ha, Hb. by apply (leaf_not_two k' v' a b ka kb k va vb).
    + assert (k = k') as <-.
      { apply (anti_symm (prefix (A := byte))); [apply (short_prefix _ _ ts' ts); [done | intros key; by rewrite Heq] | exact (short_prefix _ _ ts ts' Hw Heq)]. }
      f_equal. apply IH; [done |]. intros key. by rewrite <- (lookup_short_app k (TFull ts)), Heq, lookup_short_app.
    + exfalso. by apply (short_not_full k (TFull ts) ts').
  - assert (wf (TFull ts)) as Hw1 by (by constructor). inversion Hw2 as [k' v' Hk' | k' ts' Hk' Hn' Hw' | ts' Hl' Hw' Hv' Htwo']; subst t2.
    + exfalso. apply (short_not_full k' (TVal v') ts); [| done | intros key; by rewrite Heq]. intros ->. by apply terminated_nil in Hk'.
    + exfalso. apply (short_not_full k' (TFull ts') ts); [done.. |]. intros key. by rewrite Heq.
    + f_equal. apply list_eq_same_length with (n := 17%nat); [done.. |]. intros i t t' Hi Ht Ht'.
      destruct (decide (t = TNil)) as [-> | Hne].
      * destruct (decide (t' = TNil)) as [-> | Hne']; [done |].
        by destruct (full_children ts' ts i t' TNil).
      * destruct (full_children ts ts' i t t') as [Hne' Hlk]; [done.. |].
        destruct (decide (i < 16)%nat); [apply (IH i t Ht); [done.. | by apply (Hw' i) | done] |].
        replace i with 16%nat in * by lia. destruct (Hv t Ht Hne) as [v ->], (Hv' t' Ht' Hne') as [v' ->].
        specialize (Hlk []). cbn in Hlk. congruence.
Qed.
