(* ===== verification/TrieRep.v ===== *)
(** How the nodes of a trie and its database represent a tree.

    [item_of] is the item that is encoded for a tree and [load] the node that is
    read back; [stored] says that the database has the nodes of a tree.  [rep]
    relates a node to its tree: a part that is not loaded is a hash under which
    the database has it, and the caches in the flags are right. *)

From S2P Require Import Prelude Rlp TrieEncoding TrieNode Trie TrieTree.

(** The result of [hexToCompact] on a key of nibbles. *)
Definition compact (k : list byte) : list byte := match hexToCompact k with Ok c => c | _ => [] end.

Section Rep.
  Context (Keccak256 : list byte → list byte).

(** A child as its parent refers to it: a node of 32 bytes or more by its hash. *)
Definition reference (it : item) : item :=
  match it with
  | Lst _ => if len (rlp it) <? 32 then it else Str (Keccak256 (rlp it))
  | Str _ => it
  end.

Fixpoint item_of (t : tree) : item :=
  match t with
  | TNil => Str []
  | TVal v => Str v
  | TShort k t => Lst [Str (compact k); reference (item_of t)]
  | TFull ts => Lst (map (λ t, reference (item_of t)) ts)
  end.

Definition tree_hash (t : tree) : list byte := Keccak256 (rlp (item_of t)).

(** Whether a parent refers to a tree by its hash. *)
Definition big (t : tree) : bool :=
  match t with
  | TShort _ _ | TFull _ => negb (len (rlp (item_of t)) <? 32)
  | _ => false
  end.

Fixpoint load (hash : option (list byte)) (t : tree) : node :=
  let ref t := if big t then hashNode (tree_hash t) else load None t in
  match t with
  | TNil => nilNode
  | TVal v => valueNode v
  | TShort k t => shortNode k (ref t) (NodeFlag hash false)
  | TFull ts => fullNode (map ref ts) (NodeFlag hash false)
  end.

Definition load_ref (t : tree) : node := if big t then hashNode (tree_hash t) else load None t.

  Context {D : Type} `{NodeDatabase D} (db : D).

Definition has (t : tree) : Prop := db_node db (tree_hash t) = Ok (Some (load (Some (tree_hash t)) t)).

(** The database has the nodes below the root. *)
Fixpoint kept (t : tree) : Prop :=
  match t with
  | TShort _ t => (big t = true → has t) ∧ kept t
  | TFull ts => foldr (λ t P, ((big t = true → has t) ∧ kept t) ∧ P) True ts
  | _ => True
  end.

Definition stored (t : tree) : Prop := has t ∧ kept t.

(** Flags at the root of a trie ([root]) or below. *)
Definition flag_ok (root : bool) (fl : nodeFlag) (t : tree) : Prop :=
  match fl_hash fl with
  | Some h => h = tree_hash t ∧ root || big t = true ∧ (dirty fl = false → stored t)
  | None => dirty fl = false → root || big t = false
  end.

Definition is_branch (t : tree) : bool := match t with TShort _ _ | TFull _ => true | _ => false end.

Inductive rep : bool → node → tree → Prop :=
  | rep_nil r : rep r nilNode TNil
  | rep_val r v : rep r (valueNode v) (TVal v)
  | rep_short r k n t fl : rep false n t → flag_ok r fl (TShort k t) → rep r (shortNode k n fl) (TShort k t)
  | rep_full r ns ts fl : Forall2 (rep false) ns ts → flag_ok r fl (TFull ts) → rep r (fullNode ns fl) (TFull ts)
  | rep_hash r t : is_branch t = true → stored t → r || big t = true → rep r (hashNode (tree_hash t)) t.

Lemma kept_full ts : kept (TFull ts) ↔ Forall (λ t, (big t = true → has t) ∧ kept t) ts.
Proof. cbn [kept]. induction ts as [| t ts IH]; cbn [foldr]; rewrite ?Forall_nil, ?Forall_cons; [done |]. by rewrite IH. Qed.

Lemma flag_new r t : flag_ok r newFlag t.
Proof. done. Qed.

Lemma big_branch t : big t = true → is_branch t = true.
Proof. by destruct t. Qed.

(** What is read from the database represents the tree. *)
Lemma load_rep t : kept t → ∀ r hash, flag_ok r (NodeFlag hash false) t → rep r (load hash t) t.
Proof.
  induction t as [| v | k t IH | ts IH] using tree_ind'; intros Hk r hash Hfl; [constructor | constructor | |].
  - constructor; [| done]. destruct Hk as [Hh Hk]. destruct (big t) eqn:Hb.
    + constructor; [by apply big_branch | by split; [apply Hh |] | done].
    + apply IH; [done |]. intros _. by rewrite Hb.
  - constructor; [| done]. apply kept_full in Hk. clear Hfl. induction IH as [| t ts IHt _ IHts]; [constructor |].
    apply Forall_cons in Hk as [[Hh Hk] Hks]. constructor; [| by apply IHts]. destruct (big t) eqn:Hb.
    + constructor; [by apply big_branch | by split; [apply Hh |] | done].
    + apply IHt; [done |]. intros _. by rewrite Hb.
Qed.

Lemma stored_rep r t : stored t → r || big t = true → rep r (load (Some (tree_hash t)) t) t.
Proof. intros Hs Hr. apply load_rep; [apply Hs |]. done. Qed.

(** ** Resolving *)

Context (length_Keccak256 : ∀ b, length (Keccak256 b) = HashLength).

Lemma resolveHash_stored t : stored t → resolveHash db (tree_hash t) = Ok (load (Some (tree_hash t)) t).
Proof. intros [Hh _]. unfold resolveHash. rewrite BytesToHash_id by apply length_Keccak256. by rewrite Hh. Qed.

Definition is_hash (n : node) : bool := match n with hashNode _ => true | _ => false end.

Lemma load_loaded h t : is_hash (load h t) = false.
Proof. by destruct t. Qed.

End Rep.

(** ** The parts of a tree in minimal form *)

Lemma wf_value v : ¬ wf (TVal v).
Proof. intros H. inversion H. Qed.

Lemma fits_value key v : fits key (TVal v) → key = [].
Proof. intros Hf. destruct key; [done |]. by destruct (wf_value v); apply Hf. Qed.

Lemma fits_short key k t : fits key (TShort k t) → key ≠ [] ∧ wf (TShort k t).
Proof. intros Hf. destruct key; [by destruct Hf | by split; [| apply Hf]]. Qed.

Lemma fits_full key ts : fits key (TFull ts) → key ≠ [] ∧ wf (TFull ts).
Proof. intros Hf. destruct key; [by destruct Hf | by split; [| apply Hf]]. Qed.

Lemma terminated_not_nil k : terminated k → k ≠ [].
Proof. by intros H ->; apply terminated_nil in H. Qed.

Lemma fits_wf key t : key ≠ [] → t = TNil ∨ wf t → fits key t.
Proof. destruct key; [done |]. intros _. by rewrite fits_cons. Qed.

Lemma short_key k t : wf (TShort k t) → k ≠ [].
Proof. inversion 1; [by apply terminated_not_nil | done]. Qed.

Lemma short_rest k t rest : wf (TShort k t) → terminated (k ++ rest) → fits rest t ∧ key_ok rest.
Proof.
  inversion 1 as [? v Hk | ? ts Hk Hn Hw |]; subst; intros Ht.
  - apply terminated_prefix in Ht; [| done]. subst. split; [by exists v | by left].
  - rewrite terminated_app in Ht by done. split; [| by right].
    apply fits_wf; [by apply terminated_not_nil | by right].
Qed.

Lemma full_rest ts c rest : wf (TFull ts) → terminated (c :: rest) →
  ∃ t, ts !! ix c = Some t ∧ fits rest t ∧ key_ok rest.
Proof.
  intros Hw Ht. apply terminated_cons in Ht. inversion Hw as [| | ? Hl Hc Hv _]; subst.
  assert (ix c < 17)%nat as Hi by (destruct Ht as [[-> _] | [Hc' _]]; [by cbv; lia | apply ix_nibble in Hc'; lia]).
  destruct (lookup_lt_is_Some_2 ts (ix c)) as [t Hl']; [lia |]. exists t. split; [done |].
  destruct Ht as [[-> ->] | [Hn Hr]].
  - split; [| by left]. intros Hn. by apply Hv.
  - split; [| by right]. apply fits_wf; [by apply terminated_not_nil |].
    destruct (decide (t = TNil)); [by left | right]. apply (Hc (ix c)); [done | by apply ix_nibble | done].
Qed.

(** The test for a key that does not start with the key of a short node. *)
Lemma mismatch_strip k key :
  (len key <? len k) || negb (bool_decide (k = take (length k) key)) = match strip k key with Some _ => false | None => true end.
Proof.
  unfold strip. destruct (decide (take (length k) key = k)) as [Hd | Hd].
  - apply orb_false_iff. split; [| by rewrite bool_decide_eq_true_2]. apply Z.ltb_ge.
    apply (f_equal length) in Hd. rewrite length_take in Hd. unfold len. lia.
  - apply orb_true_iff. right. by rewrite bool_decide_eq_false_2 by congruence.
Qed.

Lemma key_ok_cons c k : key_ok (c :: k) ↔ terminated (c :: k).
Proof. split; [by intros [? | ?] | by right]. Qed.
