(* ===== verification/TrieOps.v ===== *)
(** Reading, inserting and deleting on represented tries. *)

From S2P Require Import Prelude Rlp TrieEncoding TrieNode Trie TrieTree TrieRep.

Section Operations.
  Context (Keccak256 : list byte → list byte) (length_Keccak256 : ∀ b, length (Keccak256 b) = HashLength).
  Context {D : Type} `{NodeDatabase D} (db : D).

#[local] Abbreviation rep := (rep Keccak256 db).

(** The calls that are left on a key. *)
Definition cost (n : node) (key : list byte) : nat := 2 * length key + (if is_hash n then 2 else 1).

Lemma cost_rest n n' k rest : k ≠ [] → (cost n' rest < cost n (k ++ rest))%nat.
Proof. intros Hk. unfold cost. rewrite length_app. destruct k; [done |]. cbn [length]. destruct (is_hash n), (is_hash n'); lia. Qed.

Lemma path_fuel_cost n key : (cost n key <= path_fuel key)%nat.
Proof. unfold cost, path_fuel. destruct (is_hash n); lia. Qed.

Lemma resolve_rep r t : is_branch t = true → stored Keccak256 db t → r || big Keccak256 t = true →
  ∃ n, resolveHash db (tree_hash Keccak256 t) = Ok n ∧ is_hash n = false ∧ rep r n t.
Proof.
  intros Hn Hs Hr. exists (load Keccak256 (Some (tree_hash Keccak256 t)) t).
  split; [by apply resolveHash_stored |]. split; [apply load_loaded | by apply stored_rep].
Qed.

(** A child of a represented full node. *)
Lemma child_rep ns ts c t : Forall2 (rep false) ns ts → ts !! ix c = Some t →
  ∃ n, ns !! ix c = Some n ∧ child ns c = Ok n ∧ rep false n t.
Proof.
  intros Hf Ht. destruct (Forall2_lookup_r _ _ _ _ _ Hf Ht) as (n & Hn & Hr). exists n. unfold child. by rewrite Hn.
Qed.

Lemma set_child_rep ns ts c n t : Forall2 (rep false) ns ts → rep false n t →
  Forall2 (rep false) (set_child ns c n) (<[ix c := t]> ts).
Proof. intros. by apply Forall2_insert. Qed.

Lemma set_child_same ns ts c n t : Forall2 (rep false) ns ts → ts !! ix c = Some t → rep false n t →
  Forall2 (rep false) (set_child ns c n) ts.
Proof. intros Hf Ht Hr. rewrite <- (list_insert_id ts (ix c) t Ht). by apply Forall2_insert. Qed.

Lemma tryGet_spec fuel : ∀ r n t key, rep r n t → key_ok key → fits key t → (cost n key <= fuel)%nat →
  ∃ n' b, tryGet db fuel n key = Ok (default [] (lookup t key), n', b) ∧ rep r n' t.
Proof.
  induction fuel as [| fuel IH]; intros r n t key Hr Hk Hf Hc; [unfold cost in Hc; destruct (is_hash n); lia |].
  inversion Hr as [r' | r' v | r' k n' t' fl Hr' Hfl | r' ns ts fl Hrs Hfl | r' t' Hn Hs Hb]; subst; cbn [tryGet].
  - by exists nilNode, false.
  - apply fits_value in Hf as ->. by exists (valueNode v), false.
  - apply fits_short in Hf as [Hne Hw]. rewrite mismatch_strip. cbn [lookup].
    destruct (strip k key) as [rest |] eqn:Hst; [| by exists (shortNode k n' fl), false].
    apply strip_Some in Hst as ->. rewrite drop_app_length. destruct Hk as [? | Hk]; [done |].
    destruct (short_rest k t' rest Hw Hk) as [Hf' Hk']. pose proof (cost_rest (shortNode k n' fl) n' k rest (short_key _ _ Hw)).
    destruct (IH false n' t' rest) as (n'' & b & -> & Hr''); [done.. | lia |]. cbn [mbind outcome_bind].
    do 2 eexists. split; [done |]. destruct b; [by constructor | done].
  - apply fits_full in Hf as [Hne Hw]. destruct key as [| c rest]; [done |]. apply key_ok_cons in Hk.
    destruct (full_rest ts c rest Hw Hk) as (t & Ht & Hf' & Hk').
    destruct (child_rep ns ts c t Hrs Ht) as (n & Hn & -> & Hrn). cbn [mbind outcome_bind]. rewrite (lookup_full_at _ _ _ t Ht).
    pose proof (cost_rest (fullNode ns fl) n [c] rest ltac:(done)). cbn [app] in *.
    destruct (IH false n t rest) as (n'' & b & -> & Hr''); [done.. | lia |]. cbn [mbind outcome_bind].
    do 2 eexists. split; [done |]. destruct b; [constructor; [by apply (set_child_same _ _ _ _ t) | done] | done].
  - destruct (resolve_rep r t Hn Hs Hb) as (n & -> & Hh & Hrn). cbn [mbind outcome_bind].
    destruct (IH r n t key) as (n'' & b & -> & Hr''); [done.. | unfold cost in *; cbn [is_hash] in Hc; rewrite Hh; lia |].
    by exists n'', true.
Qed.

(** ** Inserting *)

(** The map with a value under [key], or without one. *)
Definition alter_map (m : list byte → option (list byte)) (key : list byte) (v : option (list byte)) (k : list byte) :=
  if decide (k = key) then v else m k.

Lemma lookup_full_insert ts c t k : (ix c < length ts)%nat →
  lookup (TFull (<[ix c := t]> ts)) k = match k with c' :: k' => if decide (c' = c) then lookup t k' else lookup (TFull ts) k | [] => None end.
Proof.
  intros Hl. destruct k as [| c' k']; [done |]. rewrite !lookup_full. case_decide as Hd.
  - subst. by rewrite list_lookup_insert_eq.
  - rewrite list_lookup_insert_ne; [done |]. intros Hi. by apply Hd, ix_inj.
Qed.

Lemma lookup_full_alter ts c rest t t' v : ts !! ix c = Some t → (∀ k, lookup t' k = alter_map (lookup t) rest v k) →
  ∀ k, lookup (TFull (<[ix c := t']> ts)) k = alter_map (lookup (TFull ts)) (c :: rest) v k.
Proof.
  intros Ht Hl k. rewrite lookup_full_insert by (by eapply lookup_lt_Some). unfold alter_map. destruct k as [| c' k']; [done |].
  destruct (decide (c' = c)) as [-> | Hne].
  - rewrite Hl, (lookup_full_at _ _ _ t Ht). unfold alter_map. repeat case_decide; congruence.
  - rewrite decide_False; [done |]. congruence.
Qed.

Lemma lookup_short_alter p t t' rest v : (∀ k, lookup t' k = alter_map (lookup t) rest v k) →
  ∀ k, lookup (TShort p t') k = alter_map (lookup (TShort p t)) (p ++ rest) v k.
Proof.
  intros Hl k. unfold alter_map. cbn [lookup]. destruct (strip p k) as [k' |] eqn:Hst; cbn [mbind option_bind].
  - apply strip_Some in Hst as ->. rewrite Hl. unfold alter_map. repeat case_decide; [done | congruence | | done].
    by destruct (app_inv_head p k' rest).
  - rewrite decide_False; [done |]. intros ->. by rewrite strip_app in Hst.
Qed.

(** The children of a full node, of which any number may be empty. *)
Record slots (ts : list tree) : Prop := {
  slots_length : length ts = 17%nat;
  slots_inner : ∀ i t, ts !! i = Some t → (i < 16)%nat → t ≠ TNil → wf t;
  slots_value : ∀ t, ts !! 16%nat = Some t → t ≠ TNil → ∃ v, t = TVal v;
}.

Lemma wf_slots ts : wf (TFull ts) → slots ts.
Proof. inversion 1; by constructor. Qed.

Lemma slots_insert ts c rest t : slots ts → terminated (c :: rest) → fits rest t → slots (<[ix c := t]> ts).
Proof.
  intros [Hl Hi Hv] Ht Hf. apply terminated_cons in Ht. split; [by rewrite length_insert | |].
  - intros i t' Hi' Hlt Hn. destruct (decide (ix c = i)) as [<- | Hd]; [| rewrite list_lookup_insert_ne in Hi'; eauto].
    rewrite list_lookup_insert_eq in Hi' by lia. injection Hi' as <-. destruct Ht as [[-> _] | [_ Hr]]; [by cbv in Hlt; lia |].
    apply terminated_not_nil in Hr. destruct rest; [done | by apply Hf].
  - intros t' Hi' Hn. destruct (decide (ix c = 16%nat)) as [Hd | Hd]; [| rewrite list_lookup_insert_ne in Hi'; eauto].
    rewrite Hd, list_lookup_insert_eq in Hi' by lia. injection Hi' as <-.
    destruct Ht as [[_ ->] | [Hc _]]; [by apply Hf | apply ix_nibble in Hc; lia].
Qed.

Lemma slots_full ts : slots ts →
  (∃ i j ti tj, i ≠ j ∧ ts !! i = Some ti ∧ ts !! j = Some tj ∧ ti ≠ TNil ∧ tj ≠ TNil) → wf (TFull ts).
Proof. intros [] ?. by constructor. Qed.

(** A full node stays in minimal form when a child becomes another that is not
    empty. *)
Lemma wf_full_insert ts c rest t' : wf (TFull ts) → terminated (c :: rest) → t' ≠ TNil → fits rest t' → wf (TFull (<[ix c := t']> ts)).
Proof.
  intros Hw Ht Hn Hf. destruct (full_rest ts c rest Hw Ht) as (t0 & Ht0 & _). apply lookup_lt_Some in Ht0.
  apply slots_full; [by apply (slots_insert ts c rest); [apply wf_slots | ..] |].
  inversion Hw as [| | ? _ _ _ (i & j & ti & tj & Hij & Hi & Hj & Hni & Hnj)]; subst.
  assert (∀ k tk, ts !! k = Some tk → tk ≠ TNil → ∃ t, <[ix c := t']> ts !! k = Some t ∧ t ≠ TNil) as Hk.
  { intros k tk Hk Hnk. destruct (decide (ix c = k)) as [<- | Hd]; [exists t'; by rewrite list_lookup_insert_eq |].
    exists tk. by rewrite list_lookup_insert_ne. }
  destruct (Hk i ti Hi Hni) as (ti' & ? & ?), (Hk j tj Hj Hnj) as (tj' & ? & ?). by exists i, j, ti', tj'.
Qed.

(** [insert_nil] as a tree. *)
Definition leaf_at (key : list byte) (t : tree) : tree := match key with [] => t | _ => TShort key t end.

Lemma insert_nil_rep key n t : rep false n t → rep false (insert_nil key n) (leaf_at key t).
Proof. intros Hr. destruct key; [done |]. by constructor. Qed.

Lemma lookup_leaf_at key t k : lookup (leaf_at key t) k = lookup (TShort key t) k.
Proof. by destruct key. Qed.

Lemma terminated_split p x : x ≠ [] → terminated (p ++ x) → Forall nibble p ∧ terminated x.
Proof.
  intros Hx. induction p as [| c p IH]; [done |]. cbn [app]. rewrite terminated_cons.
  intros [[_ Hn] | [Hc Ht]]; [by apply app_eq_nil in Hn as [_ ?] | destruct (IH Ht); auto].
Qed.

Lemma lookup_short_split p q t k : lookup (TShort (p ++ q) t) k = lookup (TShort p (TShort q t)) k.
Proof.
  apply option_eq. intros v. rewrite !lookup_short. split.
  - intros (rest & -> & Hl). exists (q ++ rest). by rewrite <- app_assoc, lookup_short_app.
  - intros (rest & -> & Hl). apply lookup_short in Hl as (rest' & -> & Hl). exists rest'. by rewrite <- app_assoc.
Qed.

(** A child of a full node under the index [c]. *)
Definition in_slot (c : byte) (t : tree) : Prop := (c = term ∧ ∃ v, t = TVal v) ∨ (nibble c ∧ wf t).

Lemma short_in_slot p c k t : wf (TShort (p ++ c :: k) t) → Forall nibble p ∧ in_slot c (leaf_at k t).
Proof.
  inversion 1 as [? v Hk | ? ts Hk Hn Hw |]; subst.
  - apply terminated_split in Hk as [Hp Hk]; [| done]. split; [done |]. apply terminated_cons in Hk as [[-> ->] | [Hc Hk]]; [left; eauto |].
    right. split; [done |]. apply terminated_not_nil in Hk as Hne. destruct k; [done |]. by constructor.
  - apply Forall_app in Hn as [Hp Hn]. apply Forall_cons in Hn as [Hc Hn]. split; [done |]. right. split; [done |].
    destruct k; [done |]. by constructor.
Qed.

Definition branch_of (c1 : byte) (t1 : tree) (c2 : byte) (t2 : tree) : tree :=
  TFull (<[ix c2 := t2]> (<[ix c1 := t1]> (replicate 17 TNil))).

Lemma in_slot_lt c t : in_slot c t → (ix c < 17)%nat ∧ t ≠ TNil.
Proof. intros [[-> [v ->]] | [Hc Hw]]; [by cbv; split; [lia |] |]. apply ix_nibble in Hc. split; [lia | by apply wf_not_nil]. Qed.

Lemma branch_lookup c1 t1 c2 t2 i t : (ix c1 < 17)%nat → (ix c2 < 17)%nat → c1 ≠ c2 →
  <[ix c2 := t2]> (<[ix c1 := t1]> (replicate 17 TNil)) !! i = Some t →
  (i = ix c1 ∧ t = t1) ∨ (i = ix c2 ∧ t = t2) ∨ t = TNil.
Proof.
  intros H1 H2 Hne. destruct (decide (ix c2 = i)) as [<- | Hd2].
  - rewrite list_lookup_insert_eq by (by rewrite length_insert, length_replicate). intros [= <-]. auto.
  - rewrite list_lookup_insert_ne by done. destruct (decide (ix c1 = i)) as [<- | Hd1].
    + rewrite list_lookup_insert_eq by (by rewrite length_replicate). intros [= <-]. auto.
    + rewrite list_lookup_insert_ne by done. rewrite lookup_replicate. intros [<- _]. auto.
Qed.

Lemma wf_branch c1 t1 c2 t2 : c1 ≠ c2 → in_slot c1 t1 → in_slot c2 t2 → wf (branch_of c1 t1 c2 t2).
Proof.
  intros Hne H1 H2. destruct (in_slot_lt _ _ H1) as [L1 N1], (in_slot_lt _ _ H2) as [L2 N2]. constructor.
  - by rewrite !length_insert.
  - intros i t Hi Hlt Hn. apply branch_lookup in Hi as [[-> ->] | [[-> ->] | ->]]; [| | done..].
    + destruct H1 as [[-> _] | [_ ?]]; [by cbv in Hlt; lia | done].
    + destruct H2 as [[-> _] | [_ ?]]; [by cbv in Hlt; lia | done].
  - intros t Hi Hn. apply branch_lookup in Hi as [[Hi ->] | [[Hi ->] | ->]]; [| | done..].
    + destruct H1 as [[_ ?] | [Hc _]]; [done | apply ix_nibble in Hc; lia].
    + destruct H2 as [[_ ?] | [Hc _]]; [done | apply ix_nibble in Hc; lia].
  - assert (ix c1 ≠ ix c2) as Hix by (intros ?; by apply Hne, ix_inj). exists (ix c1), (ix c2), t1, t2. split; [done |].
    rewrite (list_lookup_insert_ne _ (ix c2) (ix c1)), !list_lookup_insert_eq by (done || by rewrite ?length_insert, ?length_replicate). done.
Qed.

(** Branching out under a key adds it to the map. *)
Lemma lookup_branch_of c k t c' k' v key : (ix c < 17)%nat → (ix c' < 17)%nat → c ≠ c' →
  lookup (branch_of c (leaf_at k t) c' (leaf_at k' (TVal v))) key = alter_map (lookup (TShort (c :: k) t)) (c' :: k') (Some v) key.
Proof.
  intros L1 L2 Hne. unfold branch_of. rewrite lookup_full_insert by (by rewrite length_insert, length_replicate). unfold alter_map.
  destruct key as [| x key]; [done |]. destruct (decide (x = c')) as [-> | Hx].
  - rewrite lookup_leaf_at. destruct (decide (c' :: key = c' :: k')) as [Heq | Hd].
    + injection Heq as ->. rewrite <- (app_nil_r k') at 2. by rewrite lookup_short_app.
    + transitivity (None : option (list byte)).
      * destruct (lookup (TShort k' (TVal v)) key) eqn:E; [| done]. apply leaf_only in E as [-> _]. congruence.
      * symmetry. destruct (lookup (TShort (c :: k) t) (c' :: key)) eqn:E; [| done]. apply lookup_short in E as (rest & E & _). cbn in E. congruence.
  - rewrite (decide_False (P := x :: key = c' :: k')) by congruence. rewrite lookup_full_insert by (by rewrite length_replicate).
    change (c :: k) with ([c] ++ k). rewrite lookup_short_split. destruct (decide (x = c)) as [-> | Hx'].
    + change (c :: key) with ([c] ++ key). by rewrite lookup_leaf_at, lookup_short_app.
    + transitivity (None : option (list byte)).
      * rewrite lookup_full. destruct (replicate 17 TNil !! ix x) eqn:E; [by apply lookup_replicate in E as [-> _] | done].
      * symmetry. destruct (lookup _ (x :: key)) eqn:E; [| done]. apply lookup_short in E as (rest & E & _). cbn in E. congruence.
Qed.

Lemma wf_leaf_at p ts : Forall nibble p → wf (TFull ts) → wf (leaf_at p (TFull ts)).
Proof. intros Hp Hw. destruct p; [done |]. by constructor. Qed.

Lemma branch_out_rep c k val t c' k' v :
  rep false val t → (ix c < 17)%nat → (ix c' < 17)%nat →
  ∃ n, branch_out (c :: k) (c' :: k') val (valueNode v) = Ok n ∧ rep false n (branch_of c (leaf_at k t) c' (leaf_at k' (TVal v))) ∧
    ∃ ns, n = fullNode ns newFlag.
Proof.
  intros Hr L1 L2. unfold branch_out. destruct (Nat.ltb_spec (ix c) 17), (Nat.ltb_spec (ix c') 17); try lia.
  eexists. split; [done |]. split; [| by eexists]. constructor; [| done].
  apply set_child_rep; [| by apply insert_nil_rep; constructor].
  apply set_child_rep; [| by apply insert_nil_rep]. apply Forall2_replicate. constructor.
Qed.

(** The result of [insert] and of [delete] on a node that represents [t]. *)
Definition altered (r : bool) (t : tree) (key : list byte) (v : option (list byte)) (res : outcome (bool * node)) : Prop :=
  ∃ b n' t', res = Ok (b, n') ∧ rep r n' t' ∧ fits key t' ∧ (∀ k, lookup t' k = alter_map (lookup t) key v k) ∧
    if b then is_hash n' = false else t' = t.

Lemma alter_not_nil t key v : (∀ k, lookup t k = alter_map (lookup TNil) key (Some v) k) → t ≠ TNil.
Proof. intros Hl ->. specialize (Hl key). unfold alter_map in Hl. by rewrite decide_True in Hl. Qed.

(** Splitting a short node whose key differs. *)
Lemma insert_split r p c k t c' k' val v :
  rep false val t → wf (TShort (p ++ c :: k) t) → terminated (p ++ c' :: k') → c ≠ c' →
  altered r (TShort (p ++ c :: k) t) (p ++ c' :: k') (Some v)
    (branch ← branch_out (c :: k) (c' :: k') val (valueNode v);
     Ok (true, if (length p =? 0)%nat then branch else shortNode p branch newFlag)).
Proof.
  intros Hr Hw Ht Hne. destruct (short_in_slot p c k t Hw) as [Hp Hs]. apply terminated_split in Ht as Ht'; [| done]. destruct Ht' as [_ Ht'].
  assert (in_slot c' (leaf_at k' (TVal v))) as Hs'.
  { destruct (short_in_slot [] c' k' (TVal v)) as [_ ?]; [by constructor | done]. }
  destruct (in_slot_lt _ _ Hs) as [L1 _], (in_slot_lt _ _ Hs') as [L2 _].
  destruct (branch_out_rep c k val t c' k' v Hr L1 L2) as (n & -> & Hn & ns & ->). cbn [mbind outcome_bind].
  pose proof (wf_branch _ _ _ _ Hne Hs Hs') as Hwb.
  do 2 eexists. exists (leaf_at p (branch_of c (leaf_at k t) c' (leaf_at k' (TVal v)))). split; [done |]. split; [| split; [| split]].
  - destruct p; cbn [length Nat.eqb leaf_at]; [| by constructor]. inversion Hn; subst. by constructor.
  - apply fits_wf; [by destruct p |]. right. by apply wf_leaf_at.
  - intros key. rewrite lookup_leaf_at. rewrite (lookup_short_alter p (TShort (c :: k) t) _ (c' :: k') (Some v)).
    + unfold alter_map. case_decide; [done |]. by rewrite lookup_short_split.
    + intros. by apply lookup_branch_of.
  - by destruct p.
Qed.

(** A tree with keys that differ at once is a full node. *)
Lemma full_of_two t a b ka kb va vb :
  wf t → a ≠ b → lookup t (a :: ka) = Some va → lookup t (b :: kb) = Some vb → ∃ ts, t = TFull ts.
Proof.
  intros Hw Hab Ha Hb. destruct t as [| v | k t | ts]; [done | done | | by eexists]. exfalso. apply short_key in Hw.
  apply lookup_short in Ha as (ra & Ha & _). apply lookup_short in Hb as (rb & Hb & _). destruct k; [done |]. cbn in Ha, Hb. congruence.
Qed.

Lemma alter_Some m key v k w : m k = Some w → ∃ w', alter_map m key (Some v) k = Some w'.
Proof. intros Hm. unfold alter_map. case_decide; eauto. Qed.

Lemma alter_same m key v : alter_map m key v key = v.
Proof. unfold alter_map. by rewrite decide_True. Qed.

Lemma wf_short_alter k t t' rest v :
  wf (TShort k t) → terminated (k ++ rest) → fits rest t' → (∀ key, lookup t' key = alter_map (lookup t) rest (Some v) key) →
  wf (TShort k t').
Proof.
  intros Hw Ht Hf Hl. assert (t' ≠ TNil) as Hn' by (intros ->; specialize (Hl rest); by rewrite alter_same in Hl).
  specialize (Hf Hn'). inversion Hw as [? v0 Hk | ? ts Hk Hn Hwf |]; subst.
  - apply terminated_prefix in Ht; [| done]. subst. destruct Hf as [w ->]. by constructor.
  - rewrite terminated_app in Ht by done. apply terminated_not_nil in Ht. destruct rest as [| c rest]; [done |].
    destruct (full_two ts Hwf) as (a & b & ka & kb & va & vb & Hab & Ha & Hb).
    destruct (alter_Some _ (c :: rest) v _ _ Ha) as [wa Ha'], (alter_Some _ (c :: rest) v _ _ Hb) as [wb Hb'].
    rewrite <- Hl in Ha', Hb'. destruct (full_of_two t' a b ka kb wa wb) as [ts' ->]; [done.. |]. by constructor.
Qed.

Lemma short_key_longer p d y t : wf (TShort (p ++ d :: y) t) → ¬ terminated p.
Proof.
  inversion 1 as [? v Hk | ? ts Hk Hn Hw |]; subst; intros Hp; [by apply (terminated_prefix p (d :: y)) in Hk |].
  apply Forall_app in Hn as [Hn _]. rewrite <- (app_nil_r p), terminated_app in Hp by done. by apply terminated_nil in Hp.
Qed.

Lemma altered_short r k n t fl rest v res :
  rep r (shortNode k n fl) (TShort k t) → wf (TShort k t) → terminated (k ++ rest) → altered false t rest (Some v) res →
  altered r (TShort k t) (k ++ rest) (Some v)
    ('(dirty, nn) ← res; Ok (if dirty : bool then (true, shortNode k nn newFlag) else (false, shortNode k n fl))).
Proof.
  intros Hr Hw Ht (b & n' & t' & -> & Hr' & Hf & Hl & Hb). cbn [mbind outcome_bind].
  pose proof (lookup_short_alter k t t' rest (Some v) Hl) as Hlk. pose proof (terminated_not_nil _ Ht) as Hne.
  destruct b; [| subst t']; do 2 eexists; eexists; (split; [done |]).
  - split; [by constructor |]. split; [| done]. apply fits_wf; [done |]. right. by apply (wf_short_alter k t t' rest v).
  - split; [done |]. split; [| done]. apply fits_wf; [done |]. by right.
Qed.

Lemma altered_full r ns ts fl c rest t v res :
  rep r (fullNode ns fl) (TFull ts) → wf (TFull ts) → terminated (c :: rest) → ts !! ix c = Some t → altered false t rest (Some v) res →
  altered r (TFull ts) (c :: rest) (Some v)
    ('(dirty, nn) ← res; Ok (if dirty : bool then (true, fullNode (set_child ns c nn) newFlag) else (false, fullNode ns fl))).
Proof.
  intros Hr Hw Ht Hc (b & n' & t' & -> & Hr' & Hf & Hl & Hb). cbn [mbind outcome_bind].
  inversion Hr as [| | | ? ? ? ? Hrs _ |]; subst. pose proof (lookup_full_alter ts c rest t t' (Some v) Hc Hl) as Hlk.
  destruct b; [| subst t']; do 2 eexists; eexists; (split; [done |]).
  - split; [constructor; [by apply set_child_rep | done] |]. split; [| done]. apply fits_wf; [done |]. right.
    apply (wf_full_insert ts c rest); [done.. | | done]. intros ->. specialize (Hl rest). by rewrite alter_same in Hl.
  - split; [done |]. rewrite (list_insert_id ts (ix c) t Hc) in Hlk. split; [| done]. apply fits_wf; [done |]. by right.
Qed.

Lemma altered_resolved r t key v rn res :
  rep r rn t → altered r t key v res →
  altered r t key v ('(dirty, nn) ← res; Ok (if dirty : bool then (true, nn) else (false, rn))).
Proof.
  intros Hr (b & n' & t' & -> & Hr' & Hf & Hl & Hb). cbn [mbind outcome_bind].
  destruct b; [by exists true, n', t' |]. subst t'. by exists false, rn, t.
Qed.

Lemma lookup_leaf k v key : lookup (TShort k (TVal v)) key = alter_map (lookup TNil) k (Some v) key.
Proof.
  unfold alter_map. case_decide as Hd; [subst; rewrite <- (app_nil_r k) at 2; by rewrite lookup_short_app |].
  destruct (lookup _ key) eqn:E; [| done]. by apply leaf_only in E as [-> _].
Qed.

Lemma insert_value r n t v : rep r n t → fits [] t →
  altered r t [] (Some v) (match n with
    | valueNode v' => Ok (negb (bool_decide (v' = v)), valueNode v)
    | _ => Ok (true, valueNode v) end).
Proof.
  intros Hr Hf. assert (∀ k, lookup (TVal v) k = alter_map (lookup t) [] (Some v) k) as Hl.
  { intros k. unfold alter_map. case_decide as Hk; [by subst |]. destruct k; [done |]. symmetry.
    destruct (decide (t = TNil)) as [-> | Hn]; [done |]. by destruct (Hf Hn) as [w ->]. }
  assert (fits [] (TVal v)) as Hf' by (by exists v).
  inversion Hr as [r' | r' w | r' k n' t' fl Hr' Hfl | r' ns ts fl Hrs Hfl | r' t' Hn Hs Hb]; subst.
  - exists true, (valueNode v), (TVal v). by repeat (split; [done || constructor |]).
  - exists (negb (bool_decide (w = v))), (valueNode v), (TVal v). repeat (split; [done || constructor |]).
    case_bool_decide; [by subst | done].
  - by apply fits_short in Hf as [? _].
  - by apply fits_full in Hf as [? _].
  - destruct t; try done; [by apply fits_short in Hf as [? _] | by apply fits_full in Hf as [? _]].
Qed.

Lemma insert_spec v fuel : ∀ r n t key, rep r n t → key_ok key → fits key t → (cost n key <= fuel)%nat →
  altered r t key (Some v) (insert db fuel n key (valueNode v)).
Proof.
  induction fuel as [| fuel IH]; intros r n t key Hr Hk Hf Hc; [unfold cost in Hc; destruct (is_hash n); lia |].
  destruct key as [| c rest]; cbn [insert]; [by apply insert_value |]. apply key_ok_cons in Hk.
  inversion Hr as [r' | r' w | r' k n' t' fl Hr' Hfl | r' ns ts fl Hrs Hfl | r' t' Hn Hs Hb]; subst.
  - exists true, (shortNode (c :: rest) (valueNode v) newFlag), (TShort (c :: rest) (TVal v)). split; [done |].
    split; [by repeat constructor |]. split; [by apply fits_wf; [| right; constructor] |]. split; [| done].
    intros key. apply lookup_leaf.
  - by apply fits_value in Hf.
  - apply fits_short in Hf as [_ Hw]. destruct (prefixLen_spec (c :: rest) k) as (p & x & y & Hkey & -> & -> & Hd).
    rewrite Hkey in *. rewrite !drop_app_length, length_app. destruct y as [| d y].
    + rewrite app_nil_r, Nat.add_0_r, Nat.eqb_refl in *. destruct (short_rest p t' x Hw Hk) as [Hf' Hk'].
      pose proof (cost_rest (shortNode p n' fl) n' p x (short_key _ _ Hw)). apply altered_short; [done.. |]. apply IH; [done.. | lia].
    + rewrite take_app_length. destruct (Nat.eqb_spec (length p) (length p + length (d :: y))) as [He | _]; [cbn in He; lia |].
      destruct x as [| c' x].
      { rewrite app_nil_r in Hk. by destruct (short_key_longer p d y t' Hw). }
      apply insert_split; [done.. |]. intros ->. by apply (Hd c' x y).
  - apply fits_full in Hf as [_ Hw]. destruct (full_rest ts c rest Hw Hk) as (t & Ht & Hf' & Hk').
    destruct (child_rep ns ts c t Hrs Ht) as (n & Hn & -> & Hrn). cbn [mbind outcome_bind].
    pose proof (cost_rest (fullNode ns fl) n [c] rest ltac:(done)). cbn [app] in *.
    apply (altered_full r ns ts fl c rest t); [done.. |]. apply IH; [done.. | lia].
  - destruct (resolve_rep r t Hn Hs Hb) as (n & -> & Hh & Hrn). cbn [mbind outcome_bind].
    apply altered_resolved; [done |]. apply IH; [done | by right | done |]. unfold cost in *. cbn [is_hash] in Hc. rewrite Hh. lia.
Qed.

(** ** Deleting *)

Lemma only_child_found i p ns q : only_child i (Some p) ns = Some q → q = p ∧ Forall (λ n, is_nil n = true) ns.
Proof.
  revert i. induction ns as [| n ns IH]; intros i; cbn [only_child]; [by intros [= ->] |].
  destruct (is_nil n) eqn:Hn; [| done]. intros Hq. destruct (IH _ Hq). auto.
Qed.

Lemma only_child_not_found i p ns : only_child i (Some p) ns = None → ∃ j n, ns !! j = Some n ∧ is_nil n = false.
Proof.
  revert i. induction ns as [| n ns IH]; intros i; cbn [only_child]; [done |].
  destruct (is_nil n) eqn:Hn; [| by exists O, n]. intros Hq. destruct (IH _ Hq) as (j & n' & ? & ?). by exists (S j), n'.
Qed.

Lemma only_child_Some i ns q : only_child i None ns = Some q →
  ∃ j n, q = (i + j)%nat ∧ ns !! j = Some n ∧ is_nil n = false ∧ ∀ j' n', ns !! j' = Some n' → j' ≠ j → is_nil n' = true.
Proof.
  revert i. induction ns as [| n ns IH]; intros i; cbn [only_child]; [done |]. destruct (is_nil n) eqn:Hn; intros Hq.
  - destruct (IH _ Hq) as (j & n' & -> & Hj & Hn' & Hall). exists (S j), n'. split; [lia |]. split; [done |]. split; [done |].
    intros [| j'] n'' Hj' Hne; [by injection Hj' as <- | eauto].
  - apply only_child_found in Hq as [-> Hall]. exists O, n. split; [lia |]. split; [done |]. split; [done |].
    intros [| j'] n'' Hj' Hne; [done |]. rewrite Forall_lookup in Hall. by apply (Hall j').
Qed.

Lemma only_child_None i ns j n : only_child i None ns = None → ns !! j = Some n → is_nil n = false →
  ∃ j' n', j' ≠ j ∧ ns !! j' = Some n' ∧ is_nil n' = false.
Proof.
  revert i j. induction ns as [| n0 ns IH]; intros i j; cbn [only_child]; [done |]. destruct (is_nil n0) eqn:Hn0; intros Hq Hj Hn.
  - destruct j as [| j]; [cbn in Hj; congruence |]. destruct (IH _ j Hq Hj Hn) as (j' & n' & ? & ? & ?). exists (S j'), n'. auto.
  - destruct j as [| j]; [| by exists O, n0]. destruct (only_child_not_found _ _ _ Hq) as (j' & n' & ? & ?). by exists (S j'), n'.
Qed.

Lemma rep_is_nil r n t : rep r n t → is_nil n = true ↔ t = TNil.
Proof. destruct 1 as [| | | | r t Hb]; cbn [is_nil]; (split; [done |]); try done. by intros ->. Qed.

Lemma rep_not_nil r n t : rep r n t → is_nil n = false ↔ t ≠ TNil.
Proof. intros Hr. rewrite <- (rep_is_nil r n t Hr). by destruct (is_nil n). Qed.

(** A full node with one child holds what a short node to the child does. *)
Lemma lookup_only ts c t : ts !! ix c = Some t → (∀ j t', ts !! j = Some t' → j ≠ ix c → t' = TNil) →
  ∀ k, lookup (TFull ts) k = lookup (TShort [c] t) k.
Proof.
  intros Hc Hall [| x k]; [done |]. destruct (decide (x = c)) as [-> | Hx].
  - rewrite (lookup_full_at _ _ _ t Hc). change (c :: k) with ([c] ++ k). by rewrite lookup_short_app.
  - transitivity (None : option (list byte)).
    + rewrite lookup_full. destruct (ts !! ix x) as [t' |] eqn:E; [| done]. apply Hall in E as ->; [done |]. intros ?. by apply Hx, ix_inj.
    + symmetry. destruct (lookup (TShort [c] t) (x :: k)) eqn:E; [| done]. apply lookup_short in E as (rest & E & _). cbn in E. congruence.
Qed.

Lemma resolve_child n t : rep false n t → t ≠ TNil → ∃ n', resolve db n = Ok n' ∧ is_hash n' = false ∧ rep false n' t.
Proof.
  intros Hr Hn. destruct (is_hash n) eqn:Hh; [| by exists n; destruct n].
  inversion Hr; subst; try done. by apply resolve_rep.
Qed.

(** A short node to a tree, merged with the short node that the tree may be. *)
Definition merge (k : list byte) (t : tree) : tree := match t with TShort k' t => TShort (k ++ k') t | _ => TShort k t end.

Lemma wf_merge k t : k ≠ [] → Forall nibble k → wf t → wf (merge k t).
Proof.
  intros Hk Hn. inversion 1 as [k' v Hk' | k' ts Hk' Hn' Hw | ts]; subst; cbn [merge].
  - constructor. by apply terminated_app.
  - constructor; [by destruct k | by apply Forall_app | done].
  - by constructor.
Qed.

Lemma lookup_merge k t key : lookup (merge k t) key = lookup (TShort k t) key.
Proof. destruct t; try done. apply lookup_short_split. Qed.

Lemma merge_rep r k n n0 t : rep false n t → rep false n0 t → is_hash n = false →
  rep r (match n with shortNode k' val _ => shortNode (k ++ k') val newFlag | _ => shortNode k n0 newFlag end) (merge k t).
Proof. intros Hr Hr0 Hh. inversion Hr; subst; try done; by constructor. Qed.

Lemma only_nibble (i : nat) : (i < 16)%nat → nibble (z2b (Z.of_nat i)).
Proof. intros. apply ix_nibble. by rewrite ix_of_nat by lia. Qed.

Lemma reduce_rep r ns ts i ti :
  Forall2 (rep false) ns ts → slots ts → ts !! i = Some ti → ti ≠ TNil →
  ∃ n t, reduce db ns = Ok n ∧ rep r n t ∧ wf t ∧ (∀ k, lookup t k = lookup (TFull ts) k) ∧ is_hash n = false.
Proof.
  intros Hrs Hs Hi Hti. unfold reduce. destruct (only_child 0 None ns) as [pos |] eqn:Ho.
  - apply only_child_Some in Ho as (j & n & -> & Hj & Hn & Hall). cbn [Nat.add].
    destruct (Forall2_lookup_l _ _ _ _ _ Hrs Hj) as (t & Ht & Hr). pose proof (proj1 (rep_not_nil _ _ _ Hr) Hn) as Hnt. rewrite Hj. cbn [default id from_option].
    pose proof (lookup_lt_Some _ _ _ Ht) as Hlt. rewrite slots_length in Hlt by done. pose proof (ix_of_nat j ltac:(lia)) as Hix.
    assert (∀ k, lookup (TFull ts) k = lookup (TShort [z2b (Z.of_nat j)] t) k) as Hlk.
    { apply lookup_only; [by rewrite Hix |]. rewrite Hix. intros j' t' Hj' Hne.
      destruct (Forall2_lookup_r _ _ _ _ _ Hrs Hj') as (n' & Hn' & Hr'). apply (rep_is_nil _ _ _ Hr'). eauto. }
    destruct (Nat.eqb_spec j 16) as [-> | Hj16]; cbn [negb].
    + destruct (slots_value ts Hs t Ht Hnt) as [v ->]. do 2 eexists. split; [done |]. split; [by constructor |].
      split; [| by split]. constructor. by exists [].
    + destruct (resolve_child n t Hr Hnt) as (n' & -> & Hh & Hr'). cbn [mbind outcome_bind].
      exists (match n' with shortNode k' val _ => shortNode ([z2b (Z.of_nat j)] ++ k') val newFlag | _ => shortNode [z2b (Z.of_nat j)] n newFlag end),
        (merge [z2b (Z.of_nat j)] t). split; [by destruct n' |]. split; [by apply merge_rep |]. split.
      { apply wf_merge; [done | | apply (slots_inner ts Hs j); [done | lia | done]]. repeat constructor. apply only_nibble. lia. }
      split; [intros k; by rewrite lookup_merge, Hlk | by destruct n'].
  - destruct (Forall2_lookup_r _ _ _ _ _ Hrs Hi) as (n & Hn & Hr). pose proof (proj2 (rep_not_nil _ _ _ Hr) Hti) as Hnn.
    destruct (only_child_None 0 ns i n Ho Hn Hnn) as (j & n' & Hij & Hj & Hnj).
    destruct (Forall2_lookup_l _ _ _ _ _ Hrs Hj) as (tj & Htj & Hrj). apply (rep_not_nil _ _ _ Hrj) in Hnj.
    do 2 eexists. split; [done |]. split; [by constructor |]. split; [| done]. apply slots_full; [done |]. exists j, i, tj, ti. done.
Qed.

Lemma alter_None m key k : m key = None → alter_map m key None k = m k.
Proof. intros Hm. unfold alter_map. case_decide; congruence. Qed.

(** Two keys that differ leave one after a deletion. *)
Lemma delete_leaves (t t' : tree) key k1 k2 v1 v2 :
  lookup t k1 = Some v1 → lookup t k2 = Some v2 → k1 ≠ k2 → (∀ k, lookup t' k = alter_map (lookup t) key None k) → t' ≠ TNil.
Proof.
  intros H1 H2 Hne Hl ->. pose proof (Hl k1) as E1. pose proof (Hl k2) as E2. unfold alter_map in E1, E2. cbn [lookup] in E1, E2.
  repeat case_decide; congruence.
Qed.

Lemma deleted_short r k n t fl rest res :
  rep r (shortNode k n fl) (TShort k t) → wf (TShort k t) → terminated (k ++ rest) → rest ≠ [] → altered false t rest None res →
  altered r (TShort k t) (k ++ rest) None
    ('(dirty, cld) ← res;
     Ok (if dirty : bool then
           match cld with
           | shortNode k' val' _ => (true, shortNode (k ++ k') val' newFlag)
           | _ => (true, shortNode k cld newFlag)
           end
         else (false, shortNode k n fl))).
Proof.
  intros Hr Hw Ht Hrest (b & n' & t' & -> & Hr' & Hf & Hl & Hb). cbn [mbind outcome_bind].
  pose proof (lookup_short_alter k t t' rest None Hl) as Hlk. pose proof (terminated_not_nil _ Ht) as Hne.
  destruct b; [| subst t'; do 2 eexists; eexists; split; [done |]; split; [done |]; split; [apply fits_wf; auto | done]].
  inversion Hw as [? v0 Hk | ? ts Hk Hn Hwf |]; subst.
  { by apply terminated_prefix in Ht. }
  destruct (full_two ts Hwf) as (a & c & ka & kb & va & vb & Hab & Ha & Hc).
  assert (t' ≠ TNil) as Hn' by (apply (delete_leaves (TFull ts) t' rest (a :: ka) (c :: kb) va vb); congruence).
  assert (wf t') as Hwt by (destruct rest; [done | by apply Hf]).
  exists true, (match n' with shortNode k' val _ => shortNode (k ++ k') val newFlag | _ => shortNode k n' newFlag end), (merge k t').
  split; [by destruct n' |]. split; [by apply merge_rep |]. split; [apply fits_wf; [done |]; right; by apply wf_merge |].
  split; [intros key; by rewrite lookup_merge, Hlk | by destruct n'].
Qed.

Lemma deleted_full r ns ts fl c rest t res :
  rep r (fullNode ns fl) (TFull ts) → wf (TFull ts) → terminated (c :: rest) → ts !! ix c = Some t → altered false t rest None res →
  altered r (TFull ts) (c :: rest) None
    ('(dirty, nn) ← res;
     if dirty : bool then n ← reduce db (set_child ns c nn); Ok (true, n) else Ok (false, fullNode ns fl)).
Proof.
  intros Hr Hw Ht Hc (b & n' & t' & -> & Hr' & Hf & Hl & Hb). cbn [mbind outcome_bind].
  pose proof (lookup_full_alter ts c rest t t' None Hc Hl) as Hlk.
  destruct b; [| subst t'; do 2 eexists; eexists; split; [done |]; split; [done |];
    rewrite (list_insert_id ts (ix c) t Hc) in Hlk; split; [apply fits_wf; auto | done]].
  inversion Hr as [| | | ? ? ? ? Hrs _ |]; subst.
  inversion Hw as [| | ? _ _ _ (i & j & ti & tj & Hij & Hi & Hj & Hni & Hnj)]; subst.
  assert (∃ p tp, <[ix c := t']> ts !! p = Some tp ∧ tp ≠ TNil) as (p & tp & Hp & Htp).
  { destruct (decide (ix c = i)) as [Hd | Hd]; [exists j, tj | exists i, ti]; by rewrite list_lookup_insert_ne by congruence. }
  destruct (reduce_rep r (set_child ns c n') (<[ix c := t']> ts) p tp) as (n & tr & -> & Hrn & Hwt & Hltr & Hh);
    [by apply set_child_rep | apply (slots_insert ts c rest); [by apply wf_slots | done..] | done.. |].
  cbn [mbind outcome_bind]. exists true, n, tr. split; [done |]. split; [done |]. split; [apply fits_wf; auto |].
  split; [intros k; by rewrite Hltr, Hlk | done].
Qed.

Lemma fits_nil key : fits key TNil.
Proof. by intros []. Qed.

Lemma delete_mismatch r n t key : rep r n t → fits key t → lookup t key = None → altered r t key None (Ok (false, n)).
Proof. intros Hr Hf Hl. exists false, n, t. repeat (split; [done |]). split; [| done]. intros k. by rewrite alter_None. Qed.

Lemma delete_spec fuel : ∀ r n t key, rep r n t → key_ok key → fits key t → (cost n key <= fuel)%nat →
  altered r t key None (delete db fuel n key).
Proof.
  induction fuel as [| fuel IH]; intros r n t key Hr Hk Hf Hc; [unfold cost in Hc; destruct (is_hash n); lia |].
  inversion Hr as [r' | r' w | r' k n' t' fl Hr' Hfl | r' ns ts fl Hrs Hfl | r' t' Hn Hs Hb]; subst; cbn [delete].
  - by apply delete_mismatch.
  - apply fits_value in Hf as ->. exists true, nilNode, TNil. split; [done |]. split; [constructor |]. split; [apply fits_nil |]. split; [| done].
    intros k. unfold alter_map. case_decide; [done |]. by destruct k.
  - apply fits_short in Hf as Hf'. destruct Hf' as [Hne Hw]. destruct (prefixLen_spec key k) as (p & x & y & -> & -> & -> & Hd).
    destruct Hk as [? | Hk]; [done |]. rewrite length_app. destruct y as [| d y].
    + rewrite app_nil_r, Nat.add_0_r, Nat.ltb_irrefl in *. rewrite length_app, drop_app_length.
      destruct (short_rest p t' x Hw Hk) as [Hf' Hk']. destruct x as [| d x].
      * rewrite app_nil_r, Nat.add_0_r, Nat.eqb_refl in *. exists true, nilNode, TNil. split; [done |]. split; [constructor |]. split; [apply fits_nil |]. split; [| done].
        intros k. inversion Hw as [? v0 Hkt | ? ts Hkn Hn Hwf |]; subst.
        -- unfold alter_map. case_decide; [done |]. rewrite lookup_leaf. unfold alter_map. by rewrite decide_False.
        -- exfalso. rewrite <- (app_nil_r p), terminated_app in Hk by done. by apply terminated_nil in Hk.
      * destruct (Nat.eqb_spec (length p) (length p + length (d :: x))) as [He | _]; [cbn in He; lia |].
        pose proof (cost_rest (shortNode p n' fl) n' p (d :: x) (short_key _ _ Hw)).
        apply deleted_short; [done.. |]. apply IH; [done.. | lia].
    + destruct (Nat.ltb_spec (length p) (length p + length (d :: y))) as [_ | He]; [| cbn in He; lia].
      apply delete_mismatch; [done.. |]. destruct (lookup _ _) eqn:E; [| done]. apply lookup_short in E as (rest & E & _).
      rewrite <- app_assoc in E. apply app_inv_head in E. cbn in E. subst x. by destruct (Hd d (y ++ rest) y).
  - apply fits_full in Hf as [Hne Hw]. destruct key as [| c rest]; [done |]. apply key_ok_cons in Hk.
    destruct (full_rest ts c rest Hw Hk) as (t & Ht & Hf' & Hk').
    destruct (child_rep ns ts c t Hrs Ht) as (n & Hn & -> & Hrn). cbn [mbind outcome_bind].
    pose proof (cost_rest (fullNode ns fl) n [c] rest ltac:(done)). cbn [app] in *.
    apply (deleted_full r ns ts fl c rest t); [done.. |]. apply IH; [done.. | lia].
  - destruct (resolve_rep r t Hn Hs Hb) as (n & -> & Hh & Hrn). cbn [mbind outcome_bind].
    apply altered_resolved; [done |]. apply IH; [done.. |]. unfold cost in *. cbn [is_hash] in Hc. rewrite Hh. lia.
Qed.

End Operations.
