(* ===== verification/TrieHash.v ===== *)
(** Hashing and encoding of represented tries.

    The hasher computes the hash of the tree that a node represents, whatever is
    cached in it; with a database it stores the nodes of the tree.  The decoder
    and [expandNode] give back what was stored. *)

From S2P Require Import Prelude Rlp TrieEncoding TrieNode Trie TrieTree TrieRep.

#[local] Set Warnings "-register-all".

Lemma node_ind' (P : node → Prop) :
  P nilNode → (∀ ns fl, Forall P ns → P (fullNode ns fl)) → (∀ k n fl, P n → P (shortNode k n fl)) →
  (∀ h, P (hashNode h)) → (∀ v, P (valueNode v)) → (∀ b, P (rawNode b)) →
  (∀ ns, Forall P ns → P (rawFullNode ns)) → (∀ k n, P n → P (rawShortNode k n)) → ∀ n, P n.
Proof.
  intros Hn Hf Hs Hh Hv Hr Hrf Hrs. fix rec 1. intros [| ns fl | k n fl | h | v | b | ns | k n];
    [apply Hn | | apply Hs, rec | apply Hh | apply Hv | apply Hr | | apply Hrs, rec].
  - apply Hf. induction ns as [| n ns IH]; constructor; [apply rec | done].
  - apply Hrf. induction ns as [| n ns IH]; constructor; [apply rec | done].
Qed.

(** ** Keys *)

Definition key_form (k : list byte) : Prop := terminated k ∨ Forall nibble k.

Lemma compact_spec k : key_form k → hexToCompact k = Ok (compact k) ∧ compactToHex (compact k) = k ∧ (length (compact k) <= S (length k))%nat.
Proof.
  intros Hk. assert (∃ l (t : bool), Forall nibble l ∧ k = if t then l ++ [term] else l) as (l & t & Hl & ->).
  { destruct Hk as [(l & Hl & ->) | Hl]; [by exists l, true | by exists k, false]. }
  destruct (compactToHex_hexToCompact l t Hl) as (c & str & He & Hd & Hlen). unfold compact. rewrite He.
  split; [done |]. split; [done |]. cbn [length]. destruct t; rewrite ?length_app; lia.
Qed.

Lemma wf_key_form k t : wf (TShort k t) → key_form k.
Proof. inversion 1; [by left | by right]. Qed.

(** ** Encodings *)

(** The encoding does not depend on the flags. *)
Lemma simplify_bytes n raw : simplifyNode n = Ok raw → value_bytes (node_value n) = value_bytes (node_value raw).
Proof.
  revert raw. induction n as [| ns fl IH | k n fl IH | h | v | b | ns IH | k n IH] using node_ind'; intros raw Hs; cbn [simplifyNode] in Hs; try (by injection Hs as <-); [done | | | done..].
  - apply outcome_bind_Ok in Hs as (raws & Hm & [= <-]). cbn [node_value value_bytes]. do 2 f_equal. rewrite !map_map.
    revert raws Hm. induction IH as [| n ns Hn _ IHns]; intros raws Hm; [by injection Hm as <- |].
    cbn [mapM] in Hm. apply outcome_bind_Ok in Hm as (raw & H1 & Hm). apply outcome_bind_Ok in Hm as (raws' & H2 & [= <-]).
    cbn [map]. f_equal; [| by apply IHns]. destruct n; try (by injection H1 as <-); try done.
    + rewrite (Hn raw H1). cbn [simplifyNode] in H1. apply outcome_bind_Ok in H1 as (? & _ & [= <-]). done.
    + rewrite (Hn raw H1). cbn [simplifyNode] in H1. apply outcome_bind_Ok in H1 as (? & _ & [= <-]). done.
  - apply outcome_bind_Ok in Hs as (raw' & Hn & [= <-]). cbn [node_value value_bytes map]. by rewrite (IH raw' Hn).
Qed.

Lemma node_value_ok n : value_ok (node_value n) = true.
Proof.
  induction n as [| ns fl IH | k n fl IH | h | v | b | ns IH | k n IH] using node_ind'; cbn [node_value value_ok forallb]; try done.
  - apply forallb_forall. intros v Hv. apply in_map_iff in Hv as (n & <- & Hn). rewrite Forall_forall in IH. specialize (IH n).
    destruct n; (done || by apply IH, list_elem_of_In).
  - by rewrite IH.
  - apply forallb_forall. intros v Hv. apply in_map_iff in Hv as (n & <- & Hn). rewrite Forall_forall in IH. specialize (IH n).
    destruct n; (done || by apply IH, list_elem_of_In).
  - by rewrite IH.
Qed.

(** All nodes of a tree. *)
Fixpoint nodes (t : tree) : list tree :=
  match t with
  | TShort _ t' => t :: nodes t'
  | TFull ts => t :: concat (map nodes ts)
  | _ => []
  end.

Section Encoding.
  Context (Keccak256 : list byte → list byte).

#[local] Abbreviation item_of := (item_of Keccak256).
#[local] Abbreviation tree_hash := (tree_hash Keccak256).
#[local] Abbreviation big := (big Keccak256).
#[local] Abbreviation load := (load Keccak256).

(** The collapsed node of a tree, without flags. *)
Fixpoint raw (t : tree) : node :=
  let ref t := if big t then hashNode (tree_hash t) else raw t in
  match t with
  | TNil => nilNode
  | TVal v => valueNode v
  | TShort k t => rawShortNode (compact k) (ref t)
  | TFull ts => rawFullNode (map ref ts)
  end.

Definition raw_ref (t : tree) : node := if big t then hashNode (tree_hash t) else raw t.

Definition enc (t : tree) : list byte := rlp (item_of t).

Lemma reference_big t : reference Keccak256 (item_of t) = if big t then Str (tree_hash t) else item_of t.
Proof. destruct t as [| v | k t | ts]; try done; cbn [big reference item_of]; by destruct (_ <? 32). Qed.

Lemma raw_ref_bytes t : (t ≠ TNil → value_bytes (node_value (raw t)) = enc t) → t ≠ TNil →
  value_bytes (node_value (raw_ref t)) = rlp (reference Keccak256 (item_of t)).
Proof. intros Hr Hn. unfold raw_ref. rewrite reference_big. destruct (big t); [done | by apply Hr]. Qed.

(** A child of a full node in minimal form is empty, a value, or in minimal
    form itself. *)
Lemma slot_cases ts t : wf (TFull ts) → t ∈ ts → t = TNil ∨ (∃ v, t = TVal v) ∨ wf t.
Proof.
  intros Hw Ht. apply list_elem_of_lookup in Ht as [i Hi]. inversion Hw as [| | ? Hl Hc Hv _]; subst.
  destruct (decide (t = TNil)); [by left | right]. pose proof (lookup_lt_Some _ _ _ Hi).
  destruct (decide (i < 16)%nat); [right; eauto | left; replace i with 16%nat in Hi by lia; eauto].
Qed.

Lemma raw_bytes t : wf t → value_bytes (node_value (raw t)) = enc t.
Proof.
  intros Hw. induction t as [| v | k t IH | ts IH] using tree_ind'; [inversion Hw | inversion Hw | |].
  - cbn [raw]. fold (raw_ref t). cbn [node_value value_bytes map]. unfold enc. cbn [item_of rlp map concat].
    do 3 f_equal. apply raw_ref_bytes; [| inversion Hw; done]. intros _. inversion Hw as [? v Hk | ? ts Hk Hn Hw' |]; subst; [done |]. by apply IH.
  - cbn [raw]. unfold enc. cbn [item_of]. cbn [rlp node_value value_bytes]. do 2 f_equal. rewrite !map_map. apply map_ext_in. intros t Ht.
    fold (raw_ref t). apply list_elem_of_In in Ht. rewrite Forall_forall in IH. specialize (IH t Ht).
    destruct (slot_cases ts t Hw Ht) as [-> | [[v ->] | Hwt]]; [done | done |].
    rewrite <- raw_ref_bytes; [| by intros; apply IH | by apply wf_not_nil]. by destruct (raw_ref t) eqn:E; [destruct Hwt; unfold raw_ref in E; destruct (big _) | ..].
Qed.

(** The hashes in the collapsed node of a tree are found. *)
Lemma gather_raw t : t = TNil ∨ (∃ v, t = TVal v) ∨ wf t → is_Ok (forGatherChildren (raw t)) = true.
Proof.
  induction t as [| v | k t IH | ts IH] using tree_ind'; [done | done | |]; intros [? | [[? ?] | Hw]]; try done.
  - cbn [raw forGatherChildren]. destruct (big t); [done |]. apply IH. inversion Hw; subst; eauto.
  - cbn [raw forGatherChildren]. assert (Forall (λ t, is_Ok (forGatherChildren (raw_ref t)) = true) ts) as Hall.
    { rewrite Forall_forall in IH |- *. intros t Ht. unfold raw_ref. destruct (big t); [done |]. by apply IH, (slot_cases ts). }
    clear -Hall. fold raw_ref. generalize 16%nat. induction Hall as [| t ts Ht _ IH]; intros [| count]; try done. cbn [map gather_each].
    destruct (forGatherChildren (raw_ref t)); try done. cbn [mbind outcome_bind]. specialize (IH count). by destruct (gather_each _ count _).
Qed.

(** ** Expanding and decoding *)

#[local] Abbreviation load_ref := (load_ref Keccak256).

Lemma load_short hash k t : load hash (TShort k t) = shortNode k (load_ref t) (NodeFlag hash false).
Proof. done. Qed.

Lemma load_full hash ts : load hash (TFull ts) = fullNode (map load_ref ts) (NodeFlag hash false).
Proof. done. Qed.

Lemma expand_ref t : (∃ v, t = TVal v) ∨ (wf t ∧ expandNode None (raw t) = Ok (load None t)) → expandNode None (raw_ref t) = Ok (load_ref t).
Proof. intros [[v ->] | [_ He]]; [done |]. unfold raw_ref, TrieRep.load_ref. by destruct (big t). Qed.

Lemma expand_raw t : wf t → ∀ hash, expandNode hash (raw t) = Ok (load hash t).
Proof.
  induction t as [| v | k t IH | ts IH] using tree_ind'; intros Hw hash; [inversion Hw | inversion Hw | |].
  - cbn [raw]. fold (raw_ref t). cbn [expandNode]. destruct (compact_spec k (wf_key_form _ _ Hw)) as (_ & -> & _).
    rewrite expand_ref; [done |]. inversion Hw as [? v Hk | ? ts Hk Hn Hw' |]; subst; [left; by eexists | right; eauto].
  - cbn [raw]. fold raw_ref. cbn [expandNode]. rewrite load_full.
    assert (mapM (λ n, match n with nilNode => Ok nilNode | _ => expandNode None n end) (map raw_ref ts) = Ok (map load_ref ts)) as Hm; [| by rewrite Hm].
    assert (Forall (λ t, t = TNil ∨ (∃ v, t = TVal v) ∨ (wf t ∧ expandNode None (raw t) = Ok (load None t))) ts) as Hall.
    { rewrite Forall_forall in IH |- *. intros t Ht. destruct (slot_cases ts t Hw Ht) as [? | [? | ?]]; eauto 6. }
    clear -Hall. induction Hall as [| t ts Ht _ IH]; [done |]. cbn [map mapM]. rewrite IH. destruct Ht as [-> | Ht]; [done |].
    pose proof (expand_ref t Ht) as He. destruct (raw_ref t) eqn:E; try (by rewrite He). exfalso.
    destruct Ht as [[v ->] | [Hw _]]; [done |]. unfold raw_ref in E. destruct Hw; destruct (big _); done.
Qed.

Lemma Split_rlp it rest : len (rlp it ++ rest) < 2 ^ 63 →
  Split (rlp it ++ rest) = match it with Str b => Ok (if is_byte b then KByte else KString, b, rest) | Lst l => Ok (KList, concat (map rlp l), rest) end.
Proof.
  intros Hl. destruct it as [b | l].
  - apply Split_correct; [done |]. cbn [rlp]. rewrite rlp_str_kind. unfold kind_bytes. cbn [fst snd]. rewrite app_assoc. split; [done |].
    destruct (is_byte b) eqn:E; cbn [kind_ok]; by rewrite E.
  - apply Split_correct; [done |]. cbn [rlp]. unfold rlp_list. cbn [kind_header]. by rewrite app_assoc.
Qed.

Lemma SplitString_rlp b rest : len (rlp_str b ++ rest) < 2 ^ 63 → SplitString (rlp_str b ++ rest) = Ok (b, rest).
Proof. intros Hl. unfold SplitString. rewrite (Split_rlp (Str b)) by done. cbn [mbind outcome_bind]. by destruct (is_byte b). Qed.

Lemma CountValues_rlp its : len (concat (map rlp its)) < 2 ^ 63 → CountValues (concat (map rlp its)) = Ok (len its).
Proof.
  intros Hl. apply CountValues_correct; [done |].
  assert (∃ vs, Forall (λ kc, kind_ok kc.1 kc.2 = true) vs ∧ concat (map rlp its) = concat (map kind_bytes vs) ∧ length its = length vs) as (vs & H1 & H2 & H3).
  { clear. induction its as [| it its (vs & H1 & H2 & H3)]; [by exists [] |]. destruct (rlp_kind it) as (k & c & Hr & Hok & _).
    exists ((k, c) :: vs). cbn [map concat length]. rewrite Hr, H2, H3. auto. }
  exists vs. split; [done |]. split; [done |]. unfold len. lia.
Qed.

Context (length_Keccak256 : ∀ b, length (Keccak256 b) = HashLength).

Lemma is_byte_hash b : is_byte (Keccak256 b) = false.
Proof. apply is_byte_long. unfold len. rewrite length_Keccak256. by cbv. Qed.

Lemma decodeRef_rlp dn t rest :
  t = TNil ∨ wf t → len (rlp (reference Keccak256 (item_of t)) ++ rest) < 2 ^ 63 →
  (wf t → big t = false → dn (enc t ++ rest) = Ok (load None t)) →
  decodeRef dn (rlp (reference Keccak256 (item_of t)) ++ rest) = Ok (load_ref t, rest).
Proof.
  intros Ht Hl Hd. unfold decodeRef. rewrite Split_rlp by done. unfold TrieRep.load_ref. rewrite reference_big in *.
  destruct Ht as [-> | Hw]; [done |]. destruct (big t) eqn:Hb.
  - cbn [mbind outcome_bind]. unfold TrieRep.tree_hash. rewrite is_byte_hash. unfold len. by rewrite length_Keccak256.
  - specialize (Hd Hw eq_refl). unfold enc in Hd. assert (len (rlp (item_of t)) < 32) as Hlt.
    { assert (is_branch t = true) as Hbr by (by destruct Hw). destruct t; try done; cbn [TrieRep.big] in Hb; apply negb_false_iff, Z.ltb_lt in Hb; exact Hb. }
    assert (∃ l, item_of t = Lst l) as [l Hlst] by (destruct Hw; cbn; eauto). rewrite Hlst in *. cbn [mbind outcome_bind].
    rewrite len_app. unfold hashLen. destruct (Z.ltb_spec 32 (len (rlp (Lst l)) + len rest - len rest)); [lia |]. by rewrite Hd.
Qed.

(** No full node holds an empty value, which decoding drops. *)
Definition solid (t : tree) : Prop := ∀ ts, TFull ts ∈ nodes t → ts !! 16%nat ≠ Some (TVal []).

Lemma nodes_short k t s : s ∈ nodes t → s ∈ nodes (TShort k t).
Proof. cbn [nodes]. by right. Qed.

Lemma nodes_full ts t s : t ∈ ts → s ∈ nodes t → s ∈ nodes (TFull ts).
Proof. intros Ht Hs. cbn [nodes]. right. apply list_elem_of_In, in_concat. exists (nodes t). split; [apply in_map |]; by apply list_elem_of_In. Qed.

Lemma nodes_trans t s u : s ∈ nodes t → u ∈ nodes s → u ∈ nodes t.
Proof.
  induction t as [| v | k t IH | ts IH] using tree_ind'; intros Hs Hu; cbn [nodes] in Hs; try by apply not_elem_of_nil in Hs.
  - apply elem_of_cons in Hs as [-> | Hs]; [done | by apply nodes_short, IH].
  - apply elem_of_cons in Hs as [-> | Hs]; [done |]. apply list_elem_of_In, in_concat in Hs as (l & Hl & Hs). apply in_map_iff in Hl as (t & <- & Ht).
    apply list_elem_of_In in Hs, Ht. rewrite Forall_forall in IH. apply (nodes_full ts t); [done | by apply IH].
Qed.

Lemma decodeRefs_rlp dn ts rest :
  Forall (λ t, t = TNil ∨ wf t) ts → len (concat (map (λ t, rlp (reference Keccak256 (item_of t))) ts) ++ rest) < 2 ^ 63 →
  (∀ t r, t ∈ ts → wf t → big t = false → len (enc t ++ r) < 2 ^ 63 → dn (enc t ++ r) = Ok (load None t)) →
  decodeRefs (decodeRef dn) (length ts) (concat (map (λ t, rlp (reference Keccak256 (item_of t))) ts) ++ rest) = Ok (map load_ref ts, rest).
Proof.
  induction 1 as [| t ts Ht _ IH]; intros Hl Hd; [done |]. cbn [map concat length decodeRefs] in *. rewrite <- app_assoc in *.
  rewrite decodeRef_rlp; [| done.. |].
  - cbn [wrap_err mbind outcome_bind]. rewrite IH; [done | |].
    + rewrite len_app in Hl. pose proof (len_nonneg (rlp (reference Keccak256 (item_of t)))). lia.
    + intros t' r Hin. apply Hd. by right.
  - intros Hw Hb. apply Hd; [by left | done | done |]. unfold enc. by rewrite reference_big, Hb in Hl.
Qed.

Lemma list_split_last {A} (l : list A) n : length l = S n → ∃ l' x, l = l' ++ [x] ∧ length l' = n.
Proof.
  intros Hl. destruct (decide (l = [])) as [-> | Hne]; [done |]. apply exists_last in Hne as (l' & x & ->). exists l', x.
  rewrite length_app in Hl. cbn in Hl. split; [done | lia].
Qed.

(** The fuel for an embedded child. *)
Lemma length_in_concat {A} (x : list A) ls : x ∈ ls → (length x <= length (concat ls))%nat.
Proof. induction 1 as [x ls | x y ls _ IH]; cbn [concat]; rewrite length_app; lia. Qed.

Lemma embedded_shorter t its : big t = false → rlp (reference Keccak256 (item_of t)) ∈ map rlp its → (length (enc t) < length (rlp (Lst its)))%nat.
Proof.
  rewrite reference_big. intros -> Hin. apply length_in_concat in Hin. unfold enc. cbn [rlp]. unfold rlp_list. rewrite length_app.
  enough (1 <= length (header 192 247 (len (concat (map rlp its)))))%nat by lia. unfold header. destruct (_ <? 56); cbn [length]; lia.
Qed.

Lemma decode_list fuel hash its rest :
  len (rlp (Lst its) ++ rest) < 2 ^ 63 →
  decodeNode_fuel (S fuel) hash (rlp (Lst its) ++ rest) =
    let elems := concat (map rlp its) in
    let ref := decodeRef (decodeNode_fuel fuel None) in
    if len its =? 2 then wrap_err "short" (decodeShort ref hash elems)
    else if len its =? 17 then wrap_err "full" (decodeFull ref hash elems)
    else Err (ErrNew "invalid number of list elements").
Proof.
  intros Hl. cbn [decodeNode_fuel]. pose proof (rlp_nonempty (Lst its)) as Hne. unfold SplitList. rewrite (Split_rlp (Lst its)) by done.
  destruct (rlp (Lst its) ++ rest) as [| x b] eqn:E; [apply (f_equal len) in E; rewrite len_app, len_nil in E; pose proof (len_nonneg rest); lia |].
  cbn [mbind outcome_bind wrap_err]. unfold mret, outcome_ret. cbn [mbind outcome_bind wrap_err]. rewrite CountValues_rlp; [done |].
  pose proof (len_rlp_list (concat (map rlp its))). rewrite <- E, len_app in Hl. cbn [rlp] in Hl. pose proof (len_nonneg rest). lia.
Qed.

Lemma concat_bound its rest : len (rlp (Lst its) ++ rest) < 2 ^ 63 → len (concat (map rlp its)) < 2 ^ 63.
Proof. rewrite len_app. cbn [rlp]. pose proof (len_rlp_list (concat (map rlp its))). pose proof (len_nonneg rest). lia. Qed.

(** The encoding of a tree is decoded to the node that [load] gives. *)
Lemma decodeNode_rlp t : wf t → solid t → ∀ hash fuel rest, (length (enc t) <= fuel)%nat → len (enc t ++ rest) < 2 ^ 63 →
  decodeNode_fuel (S fuel) hash (enc t ++ rest) = Ok (load hash t).
Proof.
  induction t as [| v | k t IH | ts IH] using tree_ind'; intros Hw Hs hash fuel rest Hf Hl; [inversion Hw | inversion Hw | |].
  - unfold enc in Hf, Hl |- *. cbn [TrieRep.item_of] in Hf, Hl |- *. rewrite decode_list by done. apply concat_bound in Hl. cbn [map concat] in Hl |- *.
    change (len [Str (compact k); reference Keccak256 (item_of t)]) with 2. cbn [Z.eqb Pos.eqb]. unfold decodeShort. rewrite app_nil_r in *. cbn [rlp] in Hl |- *.
    rewrite SplitString_rlp by done. cbn [mbind outcome_bind]. destruct (compact_spec k (wf_key_form _ _ Hw)) as (_ & -> & _).
    assert (len (rlp (reference Keccak256 (item_of t))) < 2 ^ 63) as Hl' by (rewrite len_app in Hl; pose proof (len_nonneg (rlp_str (compact k))); lia).
    rewrite load_short. inversion Hw as [? v Hk | ? ts Hk Hn Hw' |]; subst.
    + destruct Hk as (l & Hn & ->). rewrite hasTerm_app. cbn [reference TrieRep.item_of rlp] in Hl' |- *.
      rewrite <- (app_nil_r (rlp_str v)), SplitString_rlp by (by rewrite app_nil_r). done.
    + rewrite hasTerm_nibbles by done. rewrite <- (app_nil_r (rlp _)). rewrite decodeRef_rlp; [done | by right | by rewrite app_nil_r |].
      intros Hwt Hb. assert (length (enc (TFull ts)) < fuel)%nat as Hlt.
      { eapply Nat.lt_le_trans; [apply (embedded_shorter _ [Str (compact k); reference Keccak256 (item_of (TFull ts))] Hb) | exact Hf]. cbn [map]. right. by left. }
      destruct fuel as [| fuel]; [lia |]. apply IH; [done | intros ts' Hin; by apply Hs, nodes_short | lia |].
      rewrite app_nil_r. unfold enc. by rewrite reference_big, Hb in Hl'.
  - unfold enc in Hf, Hl |- *. cbn [TrieRep.item_of] in Hf, Hl |- *. rewrite decode_list by done. apply concat_bound in Hl.
    inversion Hw as [| | ? Hlen Hc Hv _]; subst. rewrite map_map in *. unfold len in Hl |- *. rewrite length_map, Hlen. change (Z.of_nat 17 =? 2) with false. change (Z.of_nat 17 =? 17) with true. cbv iota.
    destruct (list_split_last ts 16 Hlen) as (ts' & tv & -> & Hlen'). rewrite map_app, concat_app in Hl |- *. cbn [map concat] in Hl |- *. rewrite app_nil_r in Hl |- *.
    unfold decodeFull. rewrite <- Hlen'. rewrite decodeRefs_rlp.
    + cbn [mbind outcome_bind]. assert (len (rlp (reference Keccak256 (item_of tv)) ++ []) < 2 ^ 63) as Hlv.
      { unfold len. rewrite app_nil_r. rewrite length_app in Hl. lia. }
      assert ((ts' ++ [tv]) !! 16%nat = Some tv) as H16 by (by rewrite lookup_app_r, Hlen' by lia).
      rewrite load_full, map_app. rewrite <- (app_nil_r (rlp (reference Keccak256 (item_of tv)))).
      destruct (decide (tv = TNil)) as [-> | Hne]; [done |].
      destruct (Hv tv H16 Hne) as [v ->]. cbn [reference TrieRep.item_of rlp] in Hlv |- *. rewrite SplitString_rlp by done. cbn [mbind outcome_bind].
      destruct (Z.ltb_spec 0 (len v)) as [_ | Hz]; [done |]. exfalso. apply (Hs (ts' ++ [TVal v])); [by left |].
      rewrite H16. destruct v; [done |]. rewrite len_cons in Hz. pose proof (len_nonneg v). lia.
    + apply Forall_lookup. intros i t Hi. destruct (decide (t = TNil)); [by left | right]. pose proof (lookup_lt_Some _ _ _ Hi).
      apply (Hc i); [by apply lookup_app_l_Some | lia | done].
    + done.
    + intros t r Hin Hwt Hb Hlr. assert (length (enc t) < fuel)%nat as Hlt.
      { eapply Nat.lt_le_trans; [apply (embedded_shorter t (map (λ t, reference Keccak256 (item_of t)) (ts' ++ [tv])) Hb) | exact Hf].
        rewrite map_map, map_app. apply elem_of_app. left. apply list_elem_of_In. apply (in_map (λ t, rlp (reference Keccak256 (item_of t)))). by apply list_elem_of_In. }
      assert (t ∈ ts' ++ [tv]) as Hin' by (apply elem_of_app; by left).
      destruct fuel as [| fuel]; [lia |]. rewrite Forall_forall in IH. apply IH; [done | done | intros ts'' Hin''; apply Hs; by apply (nodes_full _ t) | lia | done].
Qed.

Lemma decodeNode_enc t hash : wf t → solid t → len (enc t) < 2 ^ 63 → decodeNode hash (enc t) = Ok (load hash t).
Proof.
  intros Hw Hs Hl. unfold decodeNode. rewrite <- (app_nil_r (enc t)) at 2. apply decodeNode_rlp; [done.. |]. by rewrite app_nil_r.
Qed.

(** ** Encodings determine trees *)

(** A tree whose nodes decode to it and have encodings in [P]. *)
Definition good (P : list byte → Prop) (t : tree) : Prop := solid t ∧ ∀ s, s ∈ nodes t → P (enc s) ∧ len (enc s) < 2 ^ 63.

Lemma good_sub P t t' : good P t → (∀ s, s ∈ nodes t' → s ∈ nodes t) → good P t'.
Proof. intros [Hs Hn] Hsub. split; [intros ts Hts; apply Hs, Hsub, Hts | auto]. Qed.

Lemma good_self P t : wf t → good P t → P (enc t) ∧ len (enc t) < 2 ^ 63.
Proof. intros Hw [_ Hn]. apply Hn. destruct Hw; by left. Qed.

Lemma load_inj P t1 : (∀ a b, P a → P b → Keccak256 a = Keccak256 b → a = b) → wf t1 → good P t1 →
  ∀ t2 hash, wf t2 → good P t2 → load hash t1 = load hash t2 → t1 = t2.
Proof.
  intros Hinj. assert (∀ t1 t2, (wf t1 → good P t1 → ∀ t2 hash, wf t2 → good P t2 → load hash t1 = load hash t2 → t1 = t2) →
    t1 = TNil ∨ (∃ v, t1 = TVal v) ∨ wf t1 → good P t1 → t2 = TNil ∨ (∃ v, t2 = TVal v) ∨ wf t2 → good P t2 → load_ref t1 = load_ref t2 → t1 = t2) as Hrefs.
  { intros t1' t2 IH H1 G1 H2 G2. unfold TrieRep.load_ref. destruct (big t1') eqn:B1, (big t2) eqn:B2; intros Heq.
    - destruct H1 as [-> | [[v ->] | W1]]; [done | done |]. destruct H2 as [-> | [[v ->] | W2]]; [done | done |].
      destruct (good_self P t1' W1 G1) as [P1 L1], (good_self P t2 W2 G2) as [P2 L2]. injection Heq as Heq. apply Hinj in Heq; [| done..].
      fold (enc t1') (enc t2) in Heq. apply (IH W1 G1 t2 None W2 G2).
      pose proof (decodeNode_enc t1' None W1 (proj1 G1) L1) as D1. rewrite Heq, (decodeNode_enc t2 None W2 (proj1 G2) L2) in D1. by injection D1.
    - destruct t2; done.
    - destruct t1'; done.
    - destruct H1 as [-> | [[v ->] | W1]], H2 as [-> | [[v' ->] | W2]]; try done; try (by destruct W2); try (by destruct W1); [by injection Heq as -> |].
      by apply (IH W1 G1 t2 None). }
  induction t1 as [| v | k t1 IH | ts IH] using tree_ind'; intros W1 G1 t2 hash W2 G2 Heq; [inversion W1 | inversion W1 | |].
  - destruct t2 as [| v | k2 t2 | ts2]; [done | done | | done]. rewrite !load_short in Heq. injection Heq as -> Heq. f_equal.
    apply Hrefs; [done | | by apply (good_sub P _ _ G1), nodes_short | | by apply (good_sub P _ _ G2), nodes_short | done].
    + inversion W1; subst; eauto.
    + inversion W2; subst; eauto.
  - destruct t2 as [| v | k2 t2 | ts2]; [done | done | done |]. rewrite !load_full in Heq. injection Heq as Heq. f_equal.
    assert (∀ t, t ∈ ts → (t = TNil ∨ (∃ v, t = TVal v) ∨ wf t) ∧ good P t) as A1.
    { intros t Ht. split; [by apply (slot_cases ts) | apply (good_sub P _ _ G1); intros s; by apply nodes_full]. }
    assert (∀ t, t ∈ ts2 → (t = TNil ∨ (∃ v, t = TVal v) ∨ wf t) ∧ good P t) as A2.
    { intros t Ht. split; [by apply (slot_cases ts2) | apply (good_sub P _ _ G2); intros s; by apply nodes_full]. }
    clear W1 G1 W2 G2. revert ts2 Heq A2. induction IH as [| t ts Ht _ IHts]; intros [| t2 ts2] Heq A2; [done | done | done |].
    cbn [map] in Heq. injection Heq as Hh Heq. destruct (A1 t) as [? ?]; [by left |]. destruct (A2 t2) as [? ?]; [by left |]. f_equal; [by apply Hrefs |].
    apply IHts; [intros; apply A1; by right | done | intros; apply A2; by right].
Qed.

End Encoding.
