(* ===== verification/TrieCommit.v ===== *)
(** The hasher on represented tries: the hash is that of the tree, and with a
    database every node of the tree is stored. *)

From S2P Require Import Prelude Rlp TrieEncoding TrieNode Trie TrieTree TrieRep TrieHash.

(** A callback for leaves that does not change the nodes of the database. *)
Definition callback_ok {D} `{NodeDatabase D} (ok : D → Prop) (onleaf : option (LeafCallback D)) : Prop :=
  ∀ f leaf parent d, onleaf = Some f → len leaf < 2 ^ 63 → ok d → db_held d parent →
    ∃ r d', f leaf parent d = (r, d') ∧ (∀ m, r ≠ Panic m) ∧ ok d' ∧ db_held d' parent ∧ ∀ h, db_node d' h = db_node d h.

Section Commit.
  Context (Keccak256 : list byte → list byte) (length_Keccak256 : ∀ b, length (Keccak256 b) = HashLength).
  Context {D : Type} `{NodeDatabase D}.
  Context (onleaf : option (LeafCallback D)).
  Context (named : list byte → list byte → Prop) (ok : D → Prop) (onleaf_ok : callback_ok ok onleaf).
  (** The database for what is not loaded when there is none to commit to, and
      the tree that is hashed. *)
  Context (d0 : D) (T : tree).
  Context (sized : ∀ s, s ∈ nodes T → len (enc Keccak256 s) < 2 ^ 63).

#[local] Abbreviation rep := (rep Keccak256).
#[local] Abbreviation has := (has Keccak256).
#[local] Abbreviation kept := (kept Keccak256).
#[local] Abbreviation stored := (stored Keccak256).
#[local] Abbreviation big := (big Keccak256).
#[local] Abbreviation tree_hash := (tree_hash Keccak256).
#[local] Abbreviation raw := (raw Keccak256).
#[local] Abbreviation raw_ref := (raw_ref Keccak256).
#[local] Abbreviation load := (load Keccak256).
#[local] Abbreviation enc := (enc Keccak256).

(** ** Databases that have more nodes *)

Definition extends (d d' : D) : Prop := ∀ h n, db_node d h = Ok (Some n) → db_node d' h = Ok (Some n).

#[export] Instance extends_preorder : PreOrder extends.
Proof. split; [by intros d h n | intros d1 d2 d3 H1 H2 h n Hn; by apply H2, H1]. Qed.

Lemma has_extends d d' t : extends d d' → has d t → has d' t.
Proof. intros He Hh. by apply He. Qed.

Lemma kept_extends d d' t : extends d d' → kept d t → kept d' t.
Proof.
  intros He. induction t as [| v | k t IH | ts IH] using tree_ind'; [done | done | |].
  - intros [Hh Hk]. split; [intros Hb; by apply (has_extends d), Hh | auto].
  - rewrite !kept_full. intros Hk. rewrite Forall_forall in IH, Hk |- *. intros t Ht. destruct (Hk t Ht) as [Hh Hkt].
    split; [intros Hb; by apply (has_extends d), Hh | auto].
Qed.

Lemma stored_extends d d' t : extends d d' → stored d t → stored d' t.
Proof. intros He [Hh Hk]. split; [by apply (has_extends d) | by apply (kept_extends d)]. Qed.

Lemma flag_extends d d' r fl t : extends d d' → flag_ok Keccak256 d r fl t → flag_ok Keccak256 d' r fl t.
Proof. unfold flag_ok. intros He. destruct (fl_hash fl); [| done]. intros (? & ? & Hs). repeat (split; [done |]). intros Hd. by apply (stored_extends d), Hs. Qed.

Lemma rep_extends d d' t : extends d d' → ∀ r n, rep d r n t → rep d' r n t.
Proof.
  intros He. induction t as [| v | k t IH | ts IH] using tree_ind'; intros r n Hr;
    (inversion Hr as [r' | r' w | r' k' n' t' fl Hr' Hfl | r' ns ts' fl Hrs Hfl | r' t' Hn Hs Hb]; subst;
     [.. | constructor; [done | by apply (stored_extends d) | done]]).
  - constructor.
  - constructor.
  - constructor; [by apply IH | by apply (flag_extends d)].
  - constructor; [| by apply (flag_extends d)]. clear -IH Hrs. revert ns Hrs. induction IH as [| t ts Ht _ IHts]; intros ns Hrs; inversion Hrs; subst; constructor; auto.
Qed.

(** ** Storing a node *)

(** Under the hash of a node of the tree the database has that node or none. *)
Definition agrees (d : D) : Prop := ∀ s, s ∈ nodes T → db_node d (tree_hash s) = Ok None ∨ has d s.

(** Nodes of the tree with the same hash are the same. *)
Definition distinct : Prop := ∀ s1 s2, s1 ∈ nodes T → s2 ∈ nodes T → tree_hash s1 = tree_hash s2 →
  load (Some (tree_hash s1)) s1 = load (Some (tree_hash s2)) s2.

Definition inv (odb : option D) : Prop := match odb with Some d => (NodeDatabaseLaws D named ok ∧ ∀ s, s ∈ nodes T → named (tree_hash s) (enc s)) ∧ ok d ∧ agrees d ∧ distinct | None => True end.

Definition view (odb : option D) : D := default d0 odb.

Lemma raw_encoded s : wf s → s ∈ nodes T → EncodeToBytes (node_value (raw s)) = Ok (enc s).
Proof. intros Hw Hs. rewrite <- raw_bytes by done. apply EncodeToBytes_bytes; [apply node_value_ok |]. rewrite raw_bytes by done. by apply sized. Qed.

Lemma insert_has `{!NodeDatabaseLaws D named ok} d s n : wf s → s ∈ nodes T → named (tree_hash s) (enc s) → ok d → agrees d → distinct → simplifyNode n = Ok (raw s) →
  ∃ d', db_insert (tree_hash s) (enc s) n d = Ok d' ∧ ok d' ∧ extends d d' ∧ agrees d' ∧ has d' s ∧ db_held d' (tree_hash s) ∧ ∀ h, h ≠ tree_hash s → db_node d' h = db_node d h.
Proof.
  intros Hw Hs Hname Hok Ha Hd Hn. destruct (db_insert_spec d (tree_hash s) (enc s) n (raw s) Hok Hname Hn) as (d' & -> & Hok' & Hheld & Hne & Heq);
    [apply length_Keccak256 | by apply raw_encoded | by apply gather_raw; auto |]. exists d'.
  assert (has d' s) as Hh.
  { unfold TrieRep.has. destruct Heq as [-> | [-> Hsome]]; [by rewrite expand_raw |]. by destruct (Ha s Hs). }
  split; [done |]. split; [done |]. split; [| split; [| by split]].
  - intros h m Hm. destruct (decide (h = tree_hash s)) as [-> | Hh']; [| by rewrite Hne].
    destruct (Ha s Hs) as [Hnone | Hsome]; [congruence |]. unfold TrieRep.has in Hsome, Hh. congruence.
  - intros s' Hs'. destruct (decide (tree_hash s' = tree_hash s)) as [He | Hne']; [right | unfold TrieRep.has; rewrite Hne by done; by apply Ha].
    unfold TrieRep.has in Hh |- *. rewrite (Hd s' s) by done. by rewrite He.
Qed.

(** What reporting leaves does. *)
Definition reported (hash : list byte) (d : D) (res : outcome () * D) : Prop :=
  ∃ d', res = (Ok tt, d') ∧ ok d' ∧ db_held d' hash ∧ ∀ h, db_node d' h = db_node d h.

Definition small_leaf (n : node) : Prop := match n with valueNode b => len b < 2 ^ 63 | _ => True end.

Lemma report_leaf_ok hash n d : small_leaf n → ok d → db_held d hash → reported hash d (report_leaf onleaf hash n d).
Proof.
  intros Hl Hok Hh. unfold report_leaf. destruct onleaf as [f |]; [| by exists d]. destruct n as [| | | | b | | |]; try (by exists d).
  destruct (onleaf_ok f b hash d eq_refl Hl Hok Hh) as (r & d' & -> & Hr & H'). destruct r as [[] | e | m]; [by exists d' | by exists d' | by destruct (Hr m)].
Qed.

Lemma report_each_ok hash ns : Forall small_leaf ns → ∀ d, ok d → db_held d hash → reported hash d (report_each onleaf hash ns d).
Proof.
  induction 1 as [| n ns Hl _ IH]; intros d Hok Hh; [by exists d |]. cbn [report_each]. unfold mbind, st_bind.
  destruct (report_leaf_ok hash n d Hl Hok Hh) as (d1 & -> & Hok1 & Hh1 & Hn1), (IH d1 Hok1 Hh1) as (d2 & -> & Hok2 & Hh2 & Hn2).
  exists d2. split; [done |]. split; [done |]. split; [done |]. intros h. by rewrite Hn2, Hn1.
Qed.

Lemma len_concat_in (l : list (list byte)) b : b ∈ l → len b <= len (concat l).
Proof.
  induction l as [| c l IH]; [by intros ?%not_elem_of_nil |]. cbn [concat]. rewrite len_app. pose proof (len_nonneg c). pose proof (len_nonneg (concat l)).
  intros [-> | Hb]%elem_of_cons; [lia |]. specialize (IH Hb). lia.
Qed.

Lemma report_leaves_ok hash n d : len (value_bytes (node_value n)) < 2 ^ 63 → ok d → db_held d hash → reported hash d (report_leaves onleaf hash n d).
Proof.
  intros Hlen Hok Hh. destruct n as [| ns fl | k n fl | | | | |]; cbn [report_leaves]; try (by exists d); cbn [node_value value_bytes] in Hlen.
  - apply report_each_ok; [| done | done]. apply Forall_take, Forall_forall. intros n Hn. destruct n as [| | | | b | | |]; try done. cbn.
    pose proof (len_rlp_str b). match type of Hlen with len (rlp_list ?x) < _ => pose proof (len_rlp_list x); enough (len (rlp_str b) <= len x) by lia end.
    apply len_concat_in. rewrite map_map. apply list_elem_of_fmap. by exists (valueNode b).
  - apply report_leaf_ok; [| done | done]. destruct n as [| | | | b | | |]; try done. cbn. cbn [map concat value_bytes node_value] in Hlen. pose proof (len_rlp_str b).
    match type of Hlen with len (rlp_list ?x) < _ => pose proof (len_rlp_list x); assert (len (rlp_str b) <= len x) by (rewrite !len_app; pose proof (len_nonneg (rlp_str k)); pose proof (len_nonneg (A := byte) []); lia) end. lia.
Qed.

(** The reference that stands for a tree: its hash, or the collapsed node. *)
Definition collapsed (r : bool) (t : tree) (hashed : node) : Prop :=
  if r || big t then hashed = hashNode (tree_hash t) else simplifyNode hashed = Ok (raw t) ∧ is_hash hashed = false.

(** What changes is a node of the tree. *)
Definition only_adds (d d' : D) : Prop := ∀ h, db_node d' h = db_node d h ∨ ∃ s, s ∈ nodes T ∧ h = tree_hash s ∧ has d' s.

(** What is kept from one state of the database to the next. *)
Definition grows (odb odb' : option D) : Prop :=
  bool_decide (is_Some odb') = bool_decide (is_Some odb) ∧ extends (view odb) (view odb') ∧ inv odb' ∧ only_adds (view odb) (view odb').

Lemma grows_refl odb : inv odb → grows odb odb.
Proof. intros Hi. split; [done |]. split; [done |]. split; [done |]. by left. Qed.

Lemma grows_trans odb1 odb2 odb3 : grows odb1 odb2 → grows odb2 odb3 → grows odb1 odb3.
Proof.
  intros (H1 & H2 & H3 & H4) (H5 & H6 & H7 & H8). split; [congruence |]. split; [by transitivity (view odb2) |]. split; [done |].
  intros h. destruct (H8 h) as [-> | ?]; [| by right]. destruct (H4 h) as [-> | (s & ? & ? & ?)]; [by left | right]. exists s. eauto using has_extends.
Qed.

Lemma big_size t : is_branch t = true → big t = negb (len (enc t) <? 32).
Proof. by destruct t. Qed.

Lemma wf_is_branch t : wf t → is_branch t = true.
Proof. by destruct 1. Qed.

Lemma store_spec odb r t n c b :
  wf t → t ∈ nodes T → inv odb → simplifyNode n = Ok (raw t) → cache n = Ok (c, b) → default (tree_hash t) c = tree_hash t →
  is_hash n = false →
  ∃ hashed odb', store Keccak256 onleaf n r odb = (Ok hashed, odb') ∧ grows odb odb' ∧ collapsed r t hashed ∧
    (is_Some odb → r || big t = true → has (view odb') t).
Proof.
  intros Hw Ht Hi Hn Hc Hdef Hh. pose proof (simplify_bytes n _ Hn) as Hb. rewrite raw_bytes in Hb by done.
  assert (EncodeToBytes (node_value n) = Ok (enc t)) as He.
  { rewrite <- Hb. apply EncodeToBytes_bytes; [apply node_value_ok | rewrite Hb; by apply sized]. }
  unfold collapsed. pose proof (big_size t (wf_is_branch t Hw)) as Hbig.
  assert (store Keccak256 onleaf n r odb = if (len (enc t) <? 32) && negb r then (Ok n, odb) else
    match odb with None => (Ok (hashNode (tree_hash t)), None) | Some d =>
      match db_insert (tree_hash t) (enc t) n d with
      | Ok d => match report_leaves onleaf (tree_hash t) n d with (Ok _, d) => (Ok (hashNode (tree_hash t)), Some d) | (Err e, d) => (Err e, Some d) | (Panic m, d) => (Panic m, Some d) end
      | Err e => (Err e, odb) | Panic m => (Panic m, odb) end end) as ->.
  { unfold store. rewrite He, Hc. fold (tree_hash t). change (Keccak256 (enc t)) with (tree_hash t). rewrite Hdef.
    rewrite BytesToHash_id by apply length_Keccak256. destruct n; try done. }
  destruct (len (enc t) <? 32), r; cbn [negb andb orb] in Hbig |- *; rewrite ?Hbig; try (by exists n, odb; split; [| split; [apply grows_refl |]]).
  all: destruct odb as [d |]; [| exists (hashNode (tree_hash t)), None; split; [done |]; split; [by apply grows_refl |]; split; [done | by intros []]].
  all: destruct Hi as ([Hlaws Hnames] & Hok & Ha & Hd); destruct (insert_has d t n Hw Ht (Hnames t Ht) Hok Ha Hd Hn) as (d' & -> & Hok' & Hex & Ha' & Hhas & Hheld & Hother).
  all: destruct (report_leaves_ok (tree_hash t) n d' ltac:(rewrite Hb; by apply sized) Hok' Hheld) as (d'' & -> & Hok'' & _ & Hrep); eexists _, (Some d''); split; [done |].
  all: split; [| split; [done |]; intros _ _; unfold TrieRep.has, view; cbn [default from_option id]; by rewrite Hrep].
  all: split; [done |]; split; [intros h m Hm; unfold view; cbn [default from_option id]; rewrite Hrep; by apply Hex |].
  all: split; [split; [done |]; split; [done |]; split; [| done]; intros s Hs; unfold TrieRep.has; rewrite !Hrep; by apply Ha' |].
  all: intros h; unfold TrieRep.has, view; cbn [default from_option id]; rewrite Hrep; destruct (decide (h = tree_hash t)) as [-> | ?]; [right; exists t; by rewrite Hrep | left; by apply Hother].
Qed.

(** ** Hashing *)

(** The result of [hash] on a node of the tree. *)
Definition hashes (odb : option D) (r : bool) (t : tree) (res : outcome (node * node) * option D) : Prop :=
  ∃ hashed cached odb', res = (Ok (hashed, cached), odb') ∧ grows odb odb' ∧ collapsed r t hashed ∧ rep (view odb') r cached t ∧
    (is_Some odb → (r || big t = true → has (view odb') t) ∧ kept (view odb') t).

Definition with_flags (fl : nodeFlag) (n : node) : node :=
  match n with shortNode k val _ => shortNode k val fl | fullNode ns _ => fullNode ns fl | _ => n end.

(** The result of [hashChildren]: the collapsed and the cached node, which keep
    the flags. *)
Definition walks (odb : option D) (r : bool) (t : tree) (fl : nodeFlag) (res : outcome (node * node) * option D) : Prop :=
  ∃ n cached odb', res = (Ok (n, cached), odb') ∧ grows odb odb' ∧ simplifyNode n = Ok (raw t) ∧ cache n = Ok (fl_hash fl, dirty fl) ∧
    is_hash n = false ∧ rep (view odb') r (with_flags newFlag cached) t ∧ with_flags fl cached = cached ∧
    (is_Some odb → kept (view odb') t).

Lemma finish_spec odb r t fl res :
  wf t → t ∈ nodes T → inv odb → flag_ok Keccak256 (view odb) r fl t → (odb = None → fl_hash fl = None) → walks odb r t fl res →
  hashes odb r t (match res with (Ok p, odb') => finish_hash Keccak256 onleaf r p odb' | (Err e, odb') => (Err e, odb') | (Panic m, odb') => (Panic m, odb') end).
Proof.
  intros Hw Ht Hi Hfl Hnone (n & cached & odb1 & -> & Hg & Hn & Hc & Hh & Hrep & Hcfl & Hk).
  destruct (store_spec odb1 r t n (fl_hash fl) (dirty fl)) as (hashed & odb2 & Hst & Hg2 & Hcol & Hhas); [done | done | apply Hg | done | done | | done |].
  { unfold flag_ok in Hfl. destruct (fl_hash fl); [by destruct Hfl as [-> _] | done]. }
  unfold finish_hash. cbv [mbind st_bind st_gets mret st_ret]. rewrite Hst. eexists _, _, odb2. split; [done |].
  pose proof (grows_trans _ _ _ Hg Hg2) as Hg'. split; [done |]. split; [done |].
  assert (is_Some odb → is_Some odb1) as Hsome by (intros Hs; destruct Hg as (Hb & _); case_bool_decide; [done |]; by rewrite bool_decide_eq_true_2 in Hb).
  assert (is_Some odb → (r || big t = true → has (view odb2) t) ∧ kept (view odb2) t) as Hfinal.
  { intros Hs. split; [by apply Hhas, Hsome |]. apply (kept_extends (view odb1)); [apply Hg2 | by apply Hk]. }
  split; [| done].
  assert (flag_ok Keccak256 (view odb2) r (NodeFlag (match hashed with hashNode h => Some h | _ => None end) (if bool_decide (is_Some odb2) then false else dirty fl)) t) as Hflag.
  { destruct Hg' as (Hb & _). rewrite Hb. clear Hb. unfold collapsed in Hcol. unfold flag_ok in Hfl |- *. cbn [fl_hash dirty]. destruct (r || big t) eqn:Hrb.
    - subst hashed. split; [done |]. split; [done |]. case_bool_decide as Hs; [intros _; destruct (Hfinal Hs) as [Hhas' Hkept]; by split; [apply Hhas' |] |].
      assert (odb = None) as -> by (destruct odb; [by destruct Hs |done]). rewrite Hnone in Hfl by done. intros Hd. by specialize (Hfl Hd).
    - destruct Hcol as [_ Hnh]. by destruct hashed. }
  apply (rep_extends _ (view odb2)) in Hrep; [| apply Hg2]. rewrite <- Hcfl.
  destruct cached; inversion Hrep; subst; (done || by constructor || (by destruct Hw)).
Qed.

Lemma collapsed_child t hashed : collapsed false t hashed → simplifyNode hashed = Ok (raw_ref t).
Proof. unfold collapsed, TrieHash.raw_ref. cbn [orb]. destruct (big t); [by intros -> | by intros [? _]]. Qed.

(** Children of full nodes after they are hashed. *)
Definition simplified (n : node) : outcome node := match n with nilNode => Ok nilNode | _ => simplifyNode n end.

Definition kept_child (d : D) (t : tree) : Prop := (big t = true → has d t) ∧ kept d t.

Lemma kept_child_extends d d' t : extends d d' → kept_child d t → kept_child d' t.
Proof. intros He [Hh Hk]. split; [intros Hb; by apply (has_extends d), Hh | by apply (kept_extends d)]. Qed.

Lemma collapsed_simplified t hashed : wf t → collapsed false t hashed → simplified hashed = Ok (raw_ref t).
Proof. intros Hw Hc. apply collapsed_child in Hc. by destruct hashed. Qed.

Lemma hash_each_spec hash ns ts : ∀ odb,
  Forall2 (rep (view odb) false) ns ts → inv odb →
  (∀ n t odb, n ∈ ns → t ∈ ts → rep (view odb) false n t → wf t → inv odb → hashes odb false t (hash n odb)) →
  Forall (λ t, t = TNil ∨ wf t) ts →
  ∃ cs cas odb', hash_each hash ns odb = (Ok (cs, cas), odb') ∧ grows odb odb' ∧ mapM simplified cs = Ok (map raw_ref ts) ∧
    Forall2 (rep (view odb') false) cas ts ∧ (is_Some odb → Forall (kept_child (view odb')) ts).
Proof.
  revert ts. induction ns as [| n ns IH]; intros ts odb Hrs Hi Hhash Hts.
  { inversion Hrs; subst. exists [], [], odb. split; [done |]. split; [by apply grows_refl |]. by repeat (split; [done || constructor |]). }
  inversion Hrs as [| ? t ? ts' Hr Hrs']; subst. inversion Hts as [| ? ? Ht Hts']; subst. cbn [hash_each].
  assert (∃ c ca odb', (match n with nilNode => mret (nilNode, nilNode) | _ => hash n end : st (option D) (node * node)) odb = (Ok (c, ca), odb') ∧ grows odb odb' ∧
    simplified c = Ok (raw_ref t) ∧ rep (view odb') false ca t ∧ (is_Some odb → kept_child (view odb') t)) as (c & ca & odb1 & Hh & Hg & Hc & Hca & Hk).
  { destruct Ht as [-> | Hw].
    - inversion Hr; subst; [| done]. exists nilNode, nilNode, odb. split; [done |]. split; [by apply grows_refl |]. by repeat (split; [done || constructor |]).
    - assert ((match n with nilNode => mret (nilNode, nilNode) | _ => hash n end : st (option D) (node * node)) = hash n) as -> by (destruct n; try done; by inversion Hr; subst; inversion Hw).
      destruct (Hhash n t odb) as (c & ca & odb1 & -> & Hg & Hc & Hca & Hk); [by left | by left | done.. |].
      exists c, ca, odb1. repeat (split; [done |]). split; [by apply collapsed_simplified |]. split; [done |]. intros Hs. by destruct (Hk Hs). }
  unfold mbind at 1, st_bind at 1. rewrite Hh.
  destruct (IH ts' odb1) as (cs & cas & odb2 & Hhs & Hg2 & Hcs & Hcas & Hks); [| apply Hg | | done |].
  - eapply Forall2_impl; [exact Hrs' |]. intros. eapply rep_extends; [apply Hg | done].
  - intros n' t' odb' Hn' Ht'. apply Hhash; by right.
  - unfold mbind, st_bind. rewrite Hhs. eexists _, _, odb2. split; [done |]. split; [by apply (grows_trans _ odb1) |]. split.
    { cbn [mapM map]. rewrite Hc. cbn [mbind outcome_bind]. by rewrite Hcs. }
    assert (is_Some odb → is_Some odb1) as Hsome by (intros Hs; destruct Hg as (Hb & _); case_bool_decide; [done |]; by rewrite bool_decide_eq_true_2 in Hb).
    split; [constructor; [eapply rep_extends; [apply Hg2 | done] | done] |]. intros Hs.
    constructor; [eapply kept_child_extends; [apply Hg2 | by apply Hk] | by apply Hks, Hsome].
Qed.

Lemma walks_short hash odb r k n t fl :
  rep (view odb) false n t → wf (TShort k t) → inv odb → (wf t → hashes odb false t (hash n odb)) →
  walks odb r (TShort k t) fl (hashChildren hash (shortNode k n fl) odb).
Proof.
  intros Hr Hw Hi Hh. cbn [hashChildren]. unfold mbind at 1, st_bind at 1. unfold st_lift at 1.
  destruct (compact_spec k (wf_key_form _ _ Hw)) as (-> & _). inversion Hw as [? v Hk | ? ts Hk Hn Hwf |]; subst.
  - inversion Hr; subst; [| done]. eexists _, _, odb. split; [done |]. split; [by apply grows_refl |]. repeat (split; [done |]). split; [by repeat constructor | by repeat split].
  - assert ((match n with
      | valueNode _ => mret (shortNode (compact k) n fl, shortNode k n fl)
      | _ => '(collapsed, cached) ← hash n; mret (shortNode (compact k) collapsed fl, shortNode k cached fl)
      end : st (option D) (node * node)) = ('(collapsed, cached) ← hash n; mret (shortNode (compact k) collapsed fl, shortNode k cached fl))) as ->
      by (destruct n; try done; by inversion Hr).
    unfold mbind, st_bind. destruct (Hh Hwf) as (c & ca & odb' & -> & Hg & Hc & Hca & Hkept). eexists _, _, odb'. split; [done |]. split; [done |].
    split; [cbn [simplifyNode]; by rewrite (collapsed_child _ _ Hc) |]. repeat (split; [done |]). split; [by constructor |]. split; [done |].
    intros Hs. destruct (Hkept Hs). by split.
Qed.

Lemma mapM_app_Ok {A B} (f : A → outcome B) l1 l2 k1 k2 : mapM f l1 = Ok k1 → mapM f l2 = Ok k2 → mapM f (l1 ++ l2) = Ok (k1 ++ k2).
Proof.
  revert k1. induction l1 as [| x l1 IH]; intros k1 H1 H2; [by injection H1 as <- |]. cbn [mapM app] in *.
  apply outcome_bind_Ok in H1 as (y & -> & H1). apply outcome_bind_Ok in H1 as (k & H1 & [= <-]). cbn [mbind outcome_bind]. by rewrite (IH k H1 H2).
Qed.

Lemma walks_full hash odb r ns ts fl :
  Forall2 (rep (view odb) false) ns ts → wf (TFull ts) → inv odb →
  (∀ n t odb, n ∈ ns → t ∈ ts → rep (view odb) false n t → wf t → inv odb → hashes odb false t (hash n odb)) →
  walks odb r (TFull ts) fl (hashChildren hash (fullNode ns fl) odb).
Proof.
  intros Hrs Hw Hi Hh. inversion Hw as [| | ? Hlen Hc Hv _]; subst. destruct (list_split_last ts 16 Hlen) as (ts' & tv & -> & Hlen').
  apply Forall2_app_inv_r in Hrs as (ns' & nv & Hrs' & Hrv & ->). inversion Hrv as [| n ? nil ? Hrn Hnil]; subst. inversion Hnil; subst. clear Hrv Hnil.
  pose proof (Forall2_length _ _ _ Hrs') as Hln. cbn [hashChildren]. rewrite take_app_exact, drop_app_exact by lia. unfold mbind, st_bind.
  assert ((ts' ++ [tv]) !! 16%nat = Some tv) as H16 by (by rewrite lookup_app_r, Hlen' by lia).
  destruct (hash_each_spec hash ns' ts' odb) as (cs & cas & odb' & -> & Hg & Hcs & Hcas & Hks); [done | done | | |].
  { intros n' t' odb' Hn' Ht'. apply Hh; apply elem_of_app; by left. }
  { apply Forall_lookup. intros i t Ht. destruct (decide (t = TNil)); [by left | right]. pose proof (lookup_lt_Some _ _ _ Ht).
    apply (Hc i); [by apply lookup_app_l_Some | lia | done]. }
  assert (simplified n = Ok (raw_ref tv) ∧ kept_child (view odb') tv) as [Hsn Hkn].
  { destruct (decide (tv = TNil)) as [-> | Hne]; [by inversion Hrn; subst | destruct (Hv tv H16 Hne) as [v ->]; by inversion Hrn; subst]. }
  eexists _, _, odb'. split; [done |]. split; [done |]. split; [| repeat (split; [done |]); split; [| split; [done |]]].
  - cbn [simplifyNode]. fold simplified. rewrite (mapM_app_Ok simplified cs [n] _ [raw_ref tv] Hcs) by (cbn [mapM]; by rewrite Hsn).
    cbn [TrieHash.raw]. by rewrite map_app.
  - constructor; [| done]. apply Forall2_app; [done |]. repeat constructor. eapply rep_extends; [apply Hg | done].
  - intros Hs. apply kept_full. apply Forall_app. split; [by apply Hks | by constructor; [exact Hkn |]].
Qed.

Lemma height_child ns n : n ∈ ns → (height n <= foldr (λ n h, Nat.max (height n) h) O ns)%nat.
Proof. induction 1; cbn [foldr]; lia. Qed.

(** A cached hash is used when nothing is to be stored. *)
Lemma hash_cached odb r n t fl (walk : st (option D) (node * node)) :
  rep (view odb) r n t → is_branch t = true → inv odb → flag_ok Keccak256 (view odb) r fl t →
  ((odb = None → fl_hash fl = None) → hashes odb r t (walk odb)) →
  hashes odb r t
    (match fl_hash fl with
     | None => walk odb
     | Some h =>
         match odb with
         | None => (Ok (hashNode h, n), odb)
         | Some _ => if negb (dirty fl) then (Ok (hashNode h, hashNode h), odb) else walk odb
         end
     end).
Proof.
  intros Hr Hb Hi Hfl Hwalk. unfold flag_ok in Hfl. destruct (fl_hash fl) as [h |]; [| by apply Hwalk]. destruct Hfl as (-> & Hrb & Hs).
  destruct odb as [d |]; [destruct (dirty fl); cbn [negb]; [by apply Hwalk |] |]; (eexists _, _, _; split; [done |]; split; [by apply grows_refl |]);
    (split; [unfold collapsed; by rewrite Hrb |]).
  - specialize (Hs eq_refl). split; [by constructor |]. intros _. by destruct Hs.
  - split; [done |]. by intros [].
Qed.

(** [hash] on a node that represents a part of the tree. *)
Lemma hash_spec fuel : ∀ odb r n t,
  rep (view odb) r n t → wf t → (∀ s, s ∈ nodes t → s ∈ nodes T) → inv odb → (height n <= fuel)%nat →
  hashes odb r t (hash Keccak256 onleaf fuel r n odb).
Proof.
  induction fuel as [| fuel IH]; intros odb r n t Hr Hw Hsub Hi Hf; [by destruct n; cbn in Hf; lia |].
  assert (t ∈ nodes T) as Ht by (apply Hsub; destruct Hw; by left).
  (* the walk, when there is no cached hash to use *)
  assert (∀ fl, cache n = Ok (fl_hash fl, dirty fl) → flag_ok Keccak256 (view odb) r fl t → (odb = None → fl_hash fl = None) → is_hash n = false →
    hashes odb r t ((res ← hashChildren (hash Keccak256 onleaf fuel false) n; finish_hash Keccak256 onleaf r res) odb)) as Hwalk.
  { intros fl Hc Hfl Hnone Hh. apply (finish_spec odb r t fl); [done.. |].
    inversion Hr as [r' | r' w | r' k n' t' fl' Hr' Hfl' | r' ns ts fl' Hrs Hfl' | r' t' Hn Hs Hb]; subst; [inversion Hw | inversion Hw | | | done].
    - injection Hc as H1 H2. assert (fl' = fl) as -> by (destruct fl, fl'; cbn in H1, H2; congruence). apply walks_short; [done.. |].
      intros Hwt. apply IH; [done | done | intros s Hs; by apply Hsub, nodes_short | done | cbn in Hf; lia].
    - injection Hc as H1 H2. assert (fl' = fl) as -> by (destruct fl, fl'; cbn in H1, H2; congruence). apply walks_full; [done.. |].
      intros n' t' odb' Hn' Ht' Hr' Hwt Hi'. apply height_child in Hn'.
      apply IH; [done | done | intros s Hs; apply Hsub; by apply (nodes_full _ t') | done | cbn in Hf; lia]. }
  cbn [hash]. inversion Hr as [r' | r' w | r' k n' t' fl Hr' Hfl | r' ns ts fl Hrs Hfl | r' t' Hn Hs Hb]; subst; [inversion Hw | inversion Hw | | |].
  - apply (hash_cached odb r _ _ fl); [done.. |]. intros Hnone. by apply (Hwalk fl).
  - apply (hash_cached odb r _ _ fl); [done.. |]. intros Hnone. by apply (Hwalk fl).
  - eexists _, _, odb. split; [done |]. split; [by apply grows_refl |]. split; [unfold collapsed; by rewrite Hb |]. split; [done |].
    intros _. by destruct Hs.
Qed.

End Commit.
