(* ===== verification/TrieContents.v ===== *)
(** The map that a trie holds, and what follows from it for the nodes of the
    tree: their sizes, and that no value is lost when they are decoded. *)

From S2P Require Import Prelude Rlp TrieEncoding TrieNode Trie TrieTree TrieRep TrieOps TrieHash.

(** The tree holds the keys and values of [m]. *)
Definition contents (t : tree) (m : gmap (list byte) (list byte)) : Prop :=
  ∀ k v, lookup t k = Some v ↔ ∃ key, k = keybytesToHex key ∧ m !! key = Some v.

(** A tree in minimal form that holds [m]. *)
Definition tree_for (t : tree) (m : gmap (list byte) (list byte)) : Prop := (t = TNil ∨ wf t) ∧ contents t m.

Lemma keybytesToHex_nibs key : keybytesToHex key = nibs key ++ [term].
Proof. done. Qed.

Lemma contents_get t m key : contents t m → lookup t (keybytesToHex key) = m !! key.
Proof.
  intros Hc. apply option_eq. intros v. rewrite (Hc (keybytesToHex key) v). split; [| by exists key].
  intros (key' & Heq & Hm). apply keybytesToHex_inj in Heq as ->. done.
Qed.

Lemma contents_unique t m1 m2 : contents t m1 → contents t m2 → m1 = m2.
Proof. intros H1 H2. apply map_eq. intros key. by rewrite <- (contents_get t m1), <- (contents_get t m2). Qed.

Lemma contents_alter t t' m key v :
  contents t m → (∀ k, lookup t' k = alter_map (lookup t) (keybytesToHex key) v k) → contents t' (partial_alter (λ _, v) key m).
Proof.
  intros Hc Hl k w. rewrite Hl. unfold alter_map. case_decide as Hd.
  - subst k. split.
    + intros ->. exists key. by rewrite lookup_partial_alter_eq.
    + intros (key' & Heq & Hm). apply keybytesToHex_inj in Heq as <-. by rewrite lookup_partial_alter_eq in Hm.
  - rewrite (Hc k w). split; intros (key' & -> & Hm); exists key'; (split; [done |]).
    + rewrite lookup_partial_alter_ne; [done |]. by intros ->.
    + rewrite lookup_partial_alter_ne in Hm; [done |]. by intros ->.
Qed.

Lemma contents_nil : contents TNil ∅.
Proof. intros k v. split; [done |]. intros (key & _ & Hm). by rewrite lookup_empty in Hm. Qed.

(** Trees for the same map are the same. *)
Lemma tree_for_unique t1 t2 m : tree_for t1 m → tree_for t2 m → t1 = t2.
Proof.
  intros [H1 C1] [H2 C2]. assert (∀ k, lookup t1 k = lookup t2 k) as Hl by (intros k; apply option_eq; intros v; by rewrite (C1 k v), (C2 k v)).
  destruct H1 as [-> | H1], H2 as [-> | H2]; [done | | | by apply wf_unique].
  - destruct (wf_inhabited t2 H2) as (k & v & Hk). by rewrite <- Hl in Hk.
  - destruct (wf_inhabited t1 H1) as (k & v & Hk). by rewrite Hl in Hk.
Qed.

(** ** Nodes *)

(** A node of the tree is in minimal form and holds the keys of the tree with
    some prefix. *)
Lemma nodes_suffix t : wf t → ∀ s, s ∈ nodes t → wf s ∧ ∃ p, ∀ k, lookup s k = lookup t (p ++ k).
Proof.
  induction t as [| v | k t IH | ts IH] using tree_ind'; intros Hw s Hs; cbn [nodes] in Hs; try by apply not_elem_of_nil in Hs.
  - apply elem_of_cons in Hs as [-> | Hs]; [split; [done | by exists []] |]. inversion Hw as [? v Hk | ? ts Hk Hn Hwf |]; subst.
    { by apply not_elem_of_nil in Hs. }
    destruct (IH Hwf s Hs) as [Hws [p Hp]]. split; [done |]. exists (k ++ p). intros x. by rewrite <- app_assoc, lookup_short_app.
  - apply elem_of_cons in Hs as [-> | Hs]; [split; [done | by exists []] |]. apply list_elem_of_In, in_concat in Hs as (l & Hl & Hs).
    apply in_map_iff in Hl as (t & <- & Ht). apply list_elem_of_In in Hs, Ht. destruct (slot_cases ts t Hw Ht) as [-> | [[v ->] | Hwt]]; [by apply not_elem_of_nil in Hs.. |].
    rewrite Forall_forall in IH. destruct (IH t Ht Hwt s Hs) as [Hws [p Hp]]. split; [done |].
    apply list_elem_of_lookup in Ht as [i Hi]. pose proof (lookup_lt_Some _ _ _ Hi) as Hlt. inversion Hw as [| | ? Hlen _ _ _]; subst.
    exists (z2b (Z.of_nat i) :: p). intros x. cbn [app]. by rewrite (lookup_full_at _ _ _ t) by (by rewrite ix_of_nat by lia).
Qed.

(** Keys and values that fit in memory. *)
Definition small_map (m : gmap (list byte) (list byte)) : Prop := ∀ key v, m !! key = Some v → len key < 2 ^ 60 ∧ len v < 2 ^ 60.

(** No key with an empty value is a proper prefix of another. *)
Definition no_empty_prefix (m : gmap (list byte) (list byte)) : Prop :=
  ∀ key key' v, m !! key = Some [] → m !! key' = Some v → key `prefix_of` key' → key' = key.

Lemma len_rlp_str_le b : len b < 2 ^ 64 → len (rlp_str b) <= len b + 9.
Proof.
  intros Hb. pose proof (len_nonneg b). assert (∀ c, len (header 128 183 (len b) ++ c) <= 9 + len c).
  { intros c. rewrite len_app, len_header by lia. pose proof (headsize_range (len b) ltac:(lia)). lia. }
  unfold rlp_str. destruct b as [| x [| y b]]; [by cbv | | rewrite Z.add_comm; apply H0].
  destruct (b2z x <=? 127); [by cbv | by cbv].
Qed.

Lemma len_rlp_list_le b : len b < 2 ^ 64 → len (rlp_list b) <= len b + 9.
Proof.
  intros Hb. pose proof (len_nonneg b). unfold rlp_list. rewrite len_app, len_header by lia. pose proof (headsize_range (len b) ltac:(lia)). lia.
Qed.

Section Sizes.
  Context (Keccak256 : list byte → list byte) (length_Keccak256 : ∀ b, length (Keccak256 b) = HashLength).

Lemma len_reference t : t = TNil ∨ wf t → len (rlp (reference Keccak256 (item_of Keccak256 t))) <= 41.
Proof.
  intros Ht. rewrite reference_big. destruct Ht as [-> | Hw]; [by cbv |]. destruct (big Keccak256 t) eqn:Hb.
  - cbn [rlp]. assert (len (tree_hash Keccak256 t) = 32) as Hl by (unfold len, tree_hash; by rewrite length_Keccak256).
    pose proof (len_rlp_str_le (tree_hash Keccak256 t) ltac:(lia)). lia.
  - destruct Hw; cbn [big] in Hb; apply negb_false_iff, Z.ltb_lt in Hb; lia.
Qed.

Lemma len_children ts : Forall (λ t, t = TNil ∨ wf t) ts →
  len (concat (map (λ t, rlp (reference Keccak256 (item_of Keccak256 t))) ts)) <= 41 * len ts.
Proof. induction 1 as [| t ts Ht _ IH]; [by cbv |]. cbn [map concat]. rewrite len_app, len_cons. pose proof (len_reference t Ht). lia. Qed.

(** The size of a node, from bounds on the keys and values that it holds. *)
Lemma len_enc s : wf s → (∀ k v, lookup s k = Some v → len k < 2 ^ 62 ∧ len v < 2 ^ 61) → len (enc Keccak256 s) < 2 ^ 63.
Proof.
  intros Hw Hb. unfold enc. inversion Hw as [k v Hk | k ts Hk Hn Hwf | ts Hlen Hc Hv _]; subst; cbn [item_of rlp].
  - destruct (Hb k v) as [H1 H2]; [rewrite <- (app_nil_r k) at 2; by rewrite lookup_short_app |].
    destruct (compact_spec k (wf_key_form _ _ Hw)) as (_ & _ & Hl). assert (len (compact k) <= 1 + len k) as Hck by (unfold len; lia).
    cbn [map concat reference item_of rlp]. rewrite app_nil_r. pose proof (len_nonneg k). pose proof (len_nonneg v). pose proof (len_nonneg (compact k)).
    pose proof (len_rlp_str_le (compact k) ltac:(lia)). pose proof (len_rlp_str_le v ltac:(lia)).
    pose proof (len_rlp_list_le (rlp_str (compact k) ++ rlp_str v)) as Hll. rewrite len_app in Hll. specialize (Hll ltac:(lia)). lia.
  - destruct (wf_inhabited _ Hw) as (key & v & Hkey). destruct (Hb _ _ Hkey) as [H1 _]. apply lookup_short in Hkey as (rest & -> & _).
    rewrite len_app in H1. pose proof (len_nonneg rest). pose proof (len_nonneg k).
    destruct (compact_spec k (wf_key_form _ _ Hw)) as (_ & _ & Hl). assert (len (compact k) <= 1 + len k) as Hck by (unfold len; lia).
    pose proof (len_nonneg (compact k)). pose proof (len_rlp_str_le (compact k) ltac:(lia)). cbn [map concat]. rewrite app_nil_r.
    pose proof (len_reference (TFull ts) ltac:(by right)) as Hr. change (rlp (Str (compact k))) with (rlp_str (compact k)).
    match goal with |- len (rlp_list (?a ++ ?b)) < _ => change (len b <= 41) in Hr; pose proof (len_rlp_list_le (a ++ b)) as Hll; rewrite len_app in Hll; specialize (Hll ltac:(lia)) end. lia.
  - rewrite map_map. destruct (list_split_last ts 16 Hlen) as (ts' & tv & -> & Hlen'). rewrite map_app, concat_app. cbn [map concat]. rewrite app_nil_r.
    assert (len (concat (map (λ t, rlp (reference Keccak256 (item_of Keccak256 t))) ts')) <= 41 * len ts') as Hcs.
    { apply len_children, Forall_lookup. intros i t Hi. destruct (decide (t = TNil)); [by left | right]. pose proof (lookup_lt_Some _ _ _ Hi).
      apply (Hc i); [by apply lookup_app_l_Some | lia | done]. }
    assert (len ts' = 16) as Hl16 by (unfold len; lia). assert ((ts' ++ [tv]) !! 16%nat = Some tv) as H16 by (by rewrite lookup_app_r, Hlen' by lia).
    assert (len (rlp (reference Keccak256 (item_of Keccak256 tv))) <= 2 ^ 61 + 9) as Hv'.
    { destruct (decide (tv = TNil)) as [-> | Hne]; [by cbv |]. destruct (Hv tv H16 Hne) as [v ->]. cbn [reference item_of rlp].
      destruct (Hb [term] v) as [_ H2]; [by rewrite (lookup_full_at _ _ _ (TVal v)) by done |]. pose proof (len_nonneg v). pose proof (len_rlp_str_le v ltac:(lia)). lia. }
    match goal with |- len (rlp_list (?a ++ ?b)) < _ => pose proof (len_rlp_list_le (a ++ b)) as Hll; rewrite len_app in Hll; specialize (Hll ltac:(lia)) end. lia.
Qed.

Lemma small_sized t m : tree_for t m → small_map m → ∀ s, s ∈ nodes t → len (enc Keccak256 s) < 2 ^ 63.
Proof.
  intros [[-> | Hw] Hc] Hm s Hs; [by apply not_elem_of_nil in Hs |]. destruct (nodes_suffix t Hw s Hs) as [Hws [p Hp]]. apply len_enc; [done |].
  intros k v Hk. rewrite Hp in Hk. apply Hc in Hk as (key & Heq & Hkey). destruct (Hm key v Hkey) as [H1 H2]. split; [| lia].
  apply (f_equal len) in Heq. rewrite len_app, keybytesToHex_nibs, len_app in Heq. unfold len at 3 in Heq. rewrite length_nibs in Heq.
  change (len [term]) with 1 in Heq. pose proof (len_nonneg p). unfold len in H1. lia.
Qed.

End Sizes.

Lemma nibs_prefix a b rest : nibs b = nibs a ++ rest → a `prefix_of` b.
Proof.
  revert b. induction a as [| x a IH]; intros [| y b] Heq; [apply prefix_nil | apply prefix_nil | done |].
  rewrite !nibs_cons in Heq. cbn [app] in Heq. injection Heq as H1 H2 H3. destruct (nibble_parts x), (nibble_parts y).
  apply (f_equal b2z) in H1, H2. rewrite !b2z_z2b_small in H1, H2 by lia.
  assert (x = y) as -> by (apply b2z_inj; rewrite (Z.div_mod (b2z x) 16), (Z.div_mod (b2z y) 16) by lia; lia). by apply prefix_cons, IH.
Qed.

(** No value is lost when the nodes are decoded. *)
Lemma no_empty_solid t m : tree_for t m → no_empty_prefix m → solid t.
Proof.
  intros [[-> | Hw] Hc] Hm ts Hts Hv; [by apply not_elem_of_nil in Hts |]. destruct (nodes_suffix t Hw _ Hts) as [Hws [p Hp]].
  destruct (full_two ts Hws) as (a & b & ka & kb & va & vb & Hab & Ha & Hb).
  assert (∃ c k v, c ≠ term ∧ lookup (TFull ts) (c :: k) = Some v) as (c & k & v & Hct & Hk).
  { destruct (decide (a = term)) as [-> | ?]; [exists b, kb, vb | exists a, ka, va]; (split; [congruence | done]). }
  assert (lookup (TFull ts) [term] = Some []) as Ht by (by rewrite (lookup_full_at _ _ _ (TVal []))).
  rewrite Hp in Hk, Ht. apply Hc in Hk as (key' & Heq' & Hk'). apply Hc in Ht as (key & Heq & Hkey).
  rewrite keybytesToHex_nibs in Heq, Heq'. apply app_inj_tail in Heq as [-> _].
  assert (∃ rest, nibs key' = nibs key ++ rest ∧ rest ≠ []) as (rest & Hrest & Hne).
  { destruct (exists_last (l := c :: k) ltac:(done)) as (l & x & Hl). rewrite Hl, app_assoc in Heq'. apply app_inj_tail in Heq' as [Heq' ->].
    exists l. split; [done |]. intros ->. cbn in Hl. congruence. }
  rewrite (Hm key key' v Hkey Hk' (nibs_prefix _ _ _ Hrest)) in Hrest. apply (f_equal length) in Hrest. rewrite length_app in Hrest.
  destruct rest; [done | cbn in Hrest; lia].
Qed.
