(* ===== verification/TrieTheorems.v ===== *)
(** Tries are maps from keys to values whose root hash stands for the map. *)

From S2P Require Import Prelude Rlp TrieEncoding TrieNode Trie TrieTree TrieRep TrieOps TrieHash TrieCommit TrieContents.

(** ** Operations on a trie and on a map *)

Inductive op := GetOp (key : list byte) | UpdateOp (key value : list byte) | DeleteOp (key : list byte).

Definition run_op {D} `{NodeDatabase D} (db : D) (o : op) : st node (list byte) :=
  match o with
  | GetOp key => TryGet db key
  | UpdateOp key value => TryUpdate db key value;; mret []
  | DeleteOp key => TryDelete db key;; mret []
  end.

Fixpoint run_ops {D} `{NodeDatabase D} (db : D) (ops : list op) : st node (list (list byte)) :=
  match ops with
  | [] => mret []
  | o :: ops => r ← run_op db o; rs ← run_ops db ops; mret (r :: rs)
  end.

Definition spec_op (o : op) (m : gmap (list byte) (list byte)) : list byte * gmap (list byte) (list byte) :=
  match o with
  | GetOp key => (default [] (m !! key), m)
  | UpdateOp key value => ([], <[key := value]> m)
  | DeleteOp key => ([], base.delete key m)
  end.

Fixpoint spec_ops (ops : list op) (m : gmap (list byte) (list byte)) : list (list byte) * gmap (list byte) (list byte) :=
  match ops with
  | [] => ([], m)
  | o :: ops => let '(r, m) := spec_op o m in let '(rs, m) := spec_ops ops m in (r :: rs, m)
  end.

(** ** Hash functions without collisions *)

Section Collisions.
  Context (Keccak256 : list byte → list byte).

(** The encodings that occur have no collisions, and no hash that stands for the
    empty trie. *)
Record collision_free (P : list byte → Prop) : Prop := {
  no_collision : ∀ a b, P a → P b → Keccak256 a = Keccak256 b → a = b;
  not_empty_root : ∀ a, P a → Keccak256 a ≠ emptyRoot ∧ Keccak256 a ≠ replicate HashLength Byte.x00;
}.

(** The nodes of a trie for the map are among them. *)
Definition encoded (P : list byte → Prop) (m : gmap (list byte) (list byte)) : Prop :=
  ∀ t, tree_for t m → ∀ s, s ∈ nodes t → P (enc Keccak256 s).

(** They are inserted under their hashes. *)
Definition named (P : list byte → Prop) (h b : list byte) : Prop := P b ∧ Keccak256 b = h.

(** What the database has under a hash is the decoding of one of them, if that is
    a node and not contract code; the zero hash is the key of its meta root. *)
Definition backed {D} `{NodeDatabase D} (P : list byte → Prop) (db : D) : Prop :=
  ∀ h, h ≠ replicate HashLength Byte.x00 →
    db_node db h = Ok None ∨ ∃ b, P b ∧ Keccak256 b = h ∧ ∀ n, decodeNode (Some h) b = Ok n → db_node db h = Ok (Some n).

End Collisions.

Section Theorems.
  Context (Keccak256 : list byte → list byte) (length_Keccak256 : ∀ b, length (Keccak256 b) = HashLength).
  Context {D : Type} `{NodeDatabase D}.

(** The trie with the root [root] holds the map [m]. *)
Definition holds (db : D) (root : node) (m : gmap (list byte) (list byte)) : Prop :=
  ∃ t, rep Keccak256 db true root t ∧ tree_for t m.

Lemma tree_for_fits t m key : tree_for t m → fits (keybytesToHex key) t.
Proof. intros [Ht _]. apply fits_wf; [| done]. apply terminated_not_nil, keybytesToHex_terminated. Qed.

Lemma key_ok_hex key : key_ok (keybytesToHex key).
Proof. right. apply keybytesToHex_terminated. Qed.

Lemma fits_hex t key : fits (keybytesToHex key) t → t = TNil ∨ wf t.
Proof. destruct (keybytesToHex key) eqn:E; [by apply app_nil in E as [_ ?] | by rewrite fits_cons]. Qed.

Lemma altered_holds db t m key v res :
  tree_for t m → altered Keccak256 db true t (keybytesToHex key) v res →
  ∃ b n, res = Ok (b, n) ∧ holds db n (partial_alter (λ _, v) key m).
Proof.
  intros [Ht Hc] (b & n & t' & -> & Hr & Hf & Hl & _). exists b, n. split; [done |]. exists t'. split; [done |].
  split; [by apply (fits_hex t' key) | by apply (contents_alter t)].
Qed.

Lemma run_op_spec db root m o : holds db root m →
  ∃ root', run_op db o root = (Ok (spec_op o m).1, root') ∧ holds db root' (spec_op o m).2.
Proof.
  intros (t & Hr & Ht). destruct o as [key | key value | key]; cbn [run_op spec_op fst snd].
  - destruct (tryGet_spec Keccak256 length_Keccak256 db (path_fuel (keybytesToHex key)) true root t (keybytesToHex key)) as (n & b & Hg & Hn);
      [done | apply key_ok_hex | by apply (tree_for_fits t m) | apply path_fuel_cost |].
    unfold TryGet. rewrite Hg, (contents_get t m) by apply Ht. eexists. split; [done |]. destruct b; by exists t.
  - destruct (altered_holds db t m key (Some value) (insert db (path_fuel (keybytesToHex key)) root (keybytesToHex key) (valueNode value))) as (b & n & Hi & Hn); [done | |].
    { apply insert_spec; [done | done | apply key_ok_hex | by apply (tree_for_fits t m) | apply path_fuel_cost]. }
    unfold mbind, st_bind, TryUpdate. rewrite Hi. by exists n.
  - destruct (altered_holds db t m key None (delete db (path_fuel (keybytesToHex key)) root (keybytesToHex key))) as (b & n & Hi & Hn); [done | |].
    { apply delete_spec; [done | done | apply key_ok_hex | by apply (tree_for_fits t m) | apply path_fuel_cost]. }
    unfold mbind, st_bind, TryDelete. rewrite Hi. by exists n.
Qed.

(** C9: A trie is a map: any sequence of TryGet, TryUpdate and TryDelete gives the answers of a finite
    map of byte strings, whatever part of the trie is in memory and whatever is only in the
    database, and never fails or panics. An update with an empty value stores the empty value. *)
Theorem trie_refines_map (db : D) (ops : list op) : ∀ (root : node) (m : gmap (list byte) (list byte)),
  holds db root m →
  ∃ root', run_ops db ops root = (Ok (spec_ops ops m).1, root') ∧ holds db root' (spec_ops ops m).2.
Proof.
  induction ops as [| o ops IH]; intros root m Hm; cbn [run_ops spec_ops]; [by exists root |].
  destruct (run_op_spec db root m o Hm) as (root1 & H1 & Hm1). unfold mbind, st_bind. rewrite H1.
  destruct (spec_op o m) as [r m1]. cbn [fst snd] in *. destruct (IH root1 m1 Hm1) as (root2 & -> & Hm2).
  destruct (spec_ops ops m1) as [rs m2]. by exists root2.
Qed.

(** ** Hashing *)

Definition root_hash (t : tree) : list byte := match t with TNil => emptyRoot | _ => tree_hash Keccak256 t end.

Lemma root_hash_wf t : wf t → root_hash t = tree_hash Keccak256 t.
Proof. by destruct 1. Qed.

Lemma rep_wf db r n t : rep Keccak256 db r n t → wf t → is_nil n = false.
Proof. intros Hr Hw. by apply (rep_not_nil _ _ _ _ _ Hr), wf_not_nil. Qed.

Lemma BytesToHash_emptyRoot : BytesToHash emptyRoot = emptyRoot.
Proof. apply BytesToHash_id. unfold emptyRoot. apply length_be. Qed.

#[local] Opaque emptyRoot.

Lemma Hash_spec db root t m : rep Keccak256 db true root t → tree_for t m → small_map m →
  ∃ root', Hash Keccak256 (D := D) root = (Ok (root_hash t), root') ∧ rep Keccak256 db true root' t.
Proof.
  intros Hr Ht Hm. pose proof Ht as [[-> | Hw] Hc].
  { inversion Hr; subst; [| done]. exists nilNode. split; [| constructor].
    unfold Hash, hashRoot, mret, st_ret. cbn [hash_result]. by rewrite BytesToHash_emptyRoot. }
  pose proof (hash_spec Keccak256 length_Keccak256 None (λ _ _, False) (λ _, False) ltac:(done) db t (small_sized Keccak256 length_Keccak256 t m Ht Hm) (height root) None true root t Hr Hw
    ltac:(done) ltac:(done) ltac:(done)) as (hashed & cached & odb' & Hh & Hg & Hcol & Hcr & _).
  unfold Hash, hashRoot. assert (∀ A (x y : A), match root with nilNode => x | _ => y end = y) as -> by (intros; pose proof (rep_wf db true root t Hr Hw); by destruct root).
  rewrite Hh. unfold collapsed in Hcol. cbn [orb] in Hcol. subst hashed. exists cached. cbn [hash_result].
  rewrite BytesToHash_id by apply length_Keccak256. rewrite root_hash_wf by done. split; [done |].
  destruct odb'; [| done]. destruct Hg as [Hb _]. by rewrite bool_decide_eq_true_2 in Hb by (by eexists).
Qed.

Lemma Hash_total db root m : holds db root m → small_map m → ∃ h, (Hash Keccak256 (D := D) root).1 = Ok h.
Proof. intros (t & Hr & Ht) Hm. destruct (Hash_spec db root t m Hr Ht Hm) as (root' & -> & _). by eexists. Qed.

Theorem Hash_of_contents (db1 db2 : D) (root1 root2 : node) (m : gmap (list byte) (list byte)) :
  holds db1 root1 m → holds db2 root2 m → small_map m →
  ∃ h root1' root2', Hash Keccak256 (D := D) root1 = (Ok h, root1') ∧ Hash Keccak256 (D := D) root2 = (Ok h, root2') ∧ holds db1 root1' m.
Proof.
  intros (t1 & Hr1 & Ht1) (t2 & Hr2 & Ht2) Hm. pose proof (tree_for_unique t1 t2 m Ht1 Ht2) as <-.
  destruct (Hash_spec db1 root1 t1 m Hr1 Ht1 Hm) as (root1' & H1 & Hr1'), (Hash_spec db2 root2 t1 m Hr2 Ht2 Hm) as (root2' & H2 & _).
  exists (root_hash t1), root1', root2'. split; [done |]. split; [done |]. by exists t1.
Qed.

(** ** Different contents have different hashes *)

Lemma tree_for_good t m P : tree_for t m → small_map m → no_empty_prefix m → encoded Keccak256 P m → good Keccak256 P t.
Proof.
  intros Ht Hm He HP. split; [by apply (no_empty_solid t m) |]. intros s Hs. split; [by apply (HP t) | by apply (small_sized Keccak256 length_Keccak256 t m)].
Qed.

Lemma same_hash (db1 db2 : D) (root1 root2 : node) (m1 m2 : gmap (list byte) (list byte)) (P : list byte → Prop) :
  holds db1 root1 m1 → holds db2 root2 m2 → small_map m1 → small_map m2 → no_empty_prefix m1 → no_empty_prefix m2 →
  collision_free Keccak256 P → encoded Keccak256 P m1 → encoded Keccak256 P m2 →
  (Hash Keccak256 (D := D) root1).1 = (Hash Keccak256 (D := D) root2).1 → m1 = m2.
Proof.
  intros (t1 & Hr1 & Ht1) (t2 & Hr2 & Ht2) Hm1 Hm2 He1 He2 [Hinj Hne] HP1 HP2.
  destruct (Hash_spec db1 root1 t1 m1 Hr1 Ht1 Hm1) as (root1' & -> & _), (Hash_spec db2 root2 t2 m2 Hr2 Ht2 Hm2) as (root2' & -> & _).
  cbn [fst]. intros Hh. injection Hh as Hh. enough (t1 = t2) as -> by (apply (contents_unique t2); [apply Ht1 | apply Ht2]).
  pose proof (tree_for_good t1 m1 P Ht1 Hm1 He1 HP1) as G1. pose proof (tree_for_good t2 m2 P Ht2 Hm2 He2 HP2) as G2.
  destruct Ht1 as [[-> | W1] _], Ht2 as [[-> | W2] _]; [done | | |].
  - destruct (good_self Keccak256 P t2 W2 G2) as [P2 _]. rewrite (root_hash_wf t2 W2) in Hh. destruct (Hne _ P2) as [Hn _]. by destruct (Hn (eq_sym Hh)).
  - destruct (good_self Keccak256 P t1 W1 G1) as [P1 _]. rewrite (root_hash_wf t1 W1) in Hh. destruct (Hne _ P1) as [Hn _]. by destruct (Hn Hh).
  - destruct (good_self Keccak256 P t1 W1 G1) as [P1 L1], (good_self Keccak256 P t2 W2 G2) as [P2 L2].
    rewrite (root_hash_wf t1 W1), (root_hash_wf t2 W2) in Hh. apply Hinj in Hh; [| done..]. fold (enc Keccak256 t1) (enc Keccak256 t2) in Hh. apply (load_inj Keccak256 length_Keccak256 P t1 Hinj W1 G1 t2 None W2 G2).
    pose proof (decodeNode_enc Keccak256 length_Keccak256 t1 None W1 (proj1 G1) L1) as D1.
    rewrite Hh, (decodeNode_enc Keccak256 length_Keccak256 t2 None W2 (proj1 G2) L2) in D1. by injection D1.
Qed.


(** ** Committing *)

(** Nodes that decode from an encoding in [P] agree with a database that is
    backed by [P]. *)
Lemma backed_agrees db t P : collision_free Keccak256 P → good Keccak256 P t → wf t → backed Keccak256 P db →
  agrees Keccak256 t db ∧ distinct Keccak256 t.
Proof.
  intros [Hinj Hne] G Hw Hb. assert (∀ s, s ∈ nodes t → wf s ∧ P (enc Keccak256 s) ∧ ∀ h, decodeNode h (enc Keccak256 s) = Ok (load Keccak256 h s)) as Hnode.
  { intros s Hs. destruct (nodes_suffix t Hw s Hs) as [Hws _]. destruct (proj2 G s Hs) as [HP HL]. split; [done |]. split; [done |]. intros h.
    apply decodeNode_enc; [done.. | | done]. intros ts Hts. apply (proj1 G). by apply (nodes_trans t s). }
  split.
  - intros s Hs. destruct (Hnode s Hs) as (Hws & HP & Hd). destruct (Hb (tree_hash Keccak256 s) (proj2 (Hne _ HP))) as [? | (b & Pb & Hk & Hdb)]; [by left | right].
    apply Hinj in Hk; [| done..]. subst b. fold (enc Keccak256 s) in Hdb. by apply Hdb.
  - intros s1 s2 H1 H2 Heq. destruct (Hnode s1 H1) as (_ & P1 & D1), (Hnode s2 H2) as (_ & P2 & D2).
    pose proof (Hinj _ _ P1 P2 Heq) as He. enough (Ok (load Keccak256 (Some (tree_hash Keccak256 s1)) s1) = Ok (load Keccak256 (Some (tree_hash Keccak256 s2)) s2)) as [= ?] by done.
    by rewrite <- Heq, <- D1, <- D2, He.
Qed.

Lemma New_empty db : New (D := D) db emptyRoot = Ok nilNode.
Proof. unfold New. rewrite (bool_decide_eq_false_2 (emptyRoot ≠ emptyRoot)) by (intros Hn; by destruct (Hn eq_refl)). by rewrite andb_false_r. Qed.

Context (P : list byte → Prop) (ok : D → Prop) `{!NodeDatabaseLaws D (named Keccak256 P) ok}.

(** What [Commit] does. *)
Lemma Commit_stores (db : D) (root : node) (m : gmap (list byte) (list byte))
    (onleaf : option (LeafCallback D)) :
  holds db root m → small_map m → no_empty_prefix m →
  collision_free Keccak256 P → encoded Keccak256 P m → backed Keccak256 P db →
  ok db → callback_ok ok onleaf →
  ∃ h db' root' root'',
    Commit Keccak256 onleaf (db, root) = (Ok h, (db', root')) ∧ (Hash Keccak256 (D := D) root).1 = Ok h ∧
    holds db' root' m ∧ New db' h = Ok root'' ∧ holds db' root'' m ∧
    extends db db' ∧ backed Keccak256 P db' ∧ ok db'.
Proof.
  intros (t & Hr & Ht) Hm He HP Henc Hb Hok Hol. destruct (Hash_spec db root t m Hr Ht Hm) as (? & Hhash & _).
  pose proof (tree_for_good t m P Ht Hm He Henc) as G. pose proof Ht as [[-> | Hw] _].
  { inversion Hr; subst; [| done]. exists emptyRoot, db, nilNode, nilNode.
    split; [unfold Commit, hashRoot, mret, st_ret; cbn [hash_result default from_option id]; by rewrite BytesToHash_emptyRoot |]. split; [by rewrite Hhash |].
    assert (holds db nilNode m) as Hh by (exists TNil; by split; [constructor |]). split; [exact Hh |]. split; [apply New_empty |].
    split; [exact Hh |]. split; [reflexivity | by split]. }
  destruct (backed_agrees db t P HP G Hw Hb) as [Ha Hd].
  assert (∀ s, s ∈ nodes t → named Keccak256 P (tree_hash Keccak256 s) (enc Keccak256 s)) as Hnamed by (intros s Hs; split; [by apply G | done]).
  pose proof (hash_spec Keccak256 length_Keccak256 onleaf (named Keccak256 P) ok Hol db t (small_sized Keccak256 length_Keccak256 t m Ht Hm) (height root) (Some db) true root t Hr Hw
    ltac:(done) ltac:(done) ltac:(done)) as (hashed & cached & odb' & Hh & (Hsome & Hext & Hinv & Hadds) & Hcol & Hcr & Hst).
  unfold collapsed in Hcol. cbn [orb] in Hcol. subst hashed. destruct odb' as [db' |]; [| by rewrite bool_decide_eq_false_2, bool_decide_eq_true_2 in Hsome].
  destruct (Hst ltac:(done)) as [Hhas Hkept]. unfold view in *. cbn [default from_option id orb] in *. specialize (Hhas eq_refl).
  exists (tree_hash Keccak256 t), db', cached, (load Keccak256 (Some (tree_hash Keccak256 t)) t). split; [| split; [| split; [| split; [| split; [| split; [| split]]]]]].
  - unfold Commit, hashRoot. assert (∀ A (x y : A), match root with nilNode => x | _ => y end = y) as -> by (intros; pose proof (rep_wf db true root t Hr Hw); by destruct root).
    rewrite Hh. cbn [hash_result default from_option id]. by rewrite BytesToHash_id by apply length_Keccak256.
  - by rewrite Hhash, root_hash_wf.
  - by exists t.
  - destruct (not_empty_root _ _ HP _ (proj1 (good_self _ P t Hw G))) as [H1 H2]. unfold New. fold (tree_hash Keccak256 t) in H1, H2.
    rewrite !bool_decide_eq_true_2 by done. cbn [andb]. by apply resolveHash_stored.
  - exists t. split; [| done]. by apply stored_rep.
  - exact Hext.
  - intros h Hh0. destruct (Hadds h) as [-> | (s & Hs & -> & Hhs)]; [by apply Hb | right]. destruct (proj2 G s Hs) as [Ps Ls].
    exists (enc Keccak256 s). split; [done |]. split; [done |]. intros n Hn. enough (Ok n = Ok (load Keccak256 (Some (tree_hash Keccak256 s)) s)) as [= ->] by done.
    rewrite <- Hn. apply decodeNode_enc; [done | by apply (nodes_suffix t Hw) | | done]. intros ts Hts. apply (proj1 G). by apply (nodes_trans t s).
  - apply Hinv.
Qed.


End Theorems.
