(* ===== verification/TrieProofs.v ===== *)
(** Merkle proofs: [Prove] writes a proof that [VerifyProof] accepts, and what
    [VerifyProof] accepts is what the trie holds. *)

From S2P Require Import Prelude Rlp TrieEncoding TrieNode Trie TrieTree TrieRep TrieOps TrieHash TrieCommit TrieContents TrieTheorems.

(** The nodes on the path to a key. *)
Fixpoint path (t : tree) (key : list byte) : list tree :=
  match t with
  | TShort k t' => t :: match strip k key with Some rest => path t' rest | None => [] end
  | TFull ts => t :: match key with c :: rest => default [] (map (λ t', path t' rest) ts !! ix c) | [] => [] end
  | _ => []
  end.

Lemma path_full ts c rest t : ts !! ix c = Some t → path (TFull ts) (c :: rest) = TFull ts :: path t rest.
Proof. intros Ht. cbn [path]. by rewrite list_lookup_fmap, Ht. Qed.

Section Proofs.
  Context (Keccak256 : list byte → list byte) (length_Keccak256 : ∀ b, length (Keccak256 b) = HashLength).

#[local] Abbreviation tree_hash := (tree_hash Keccak256).
#[local] Abbreviation big := (big Keccak256).
#[local] Abbreviation load := (load Keccak256).
#[local] Abbreviation load_ref := (load_ref Keccak256).
#[local] Abbreviation enc := (enc Keccak256).

(** ** Reading decoded nodes *)

(** What [get] finds below a node: nothing, a value, or the hash of a node on
    the path, with [b] bytes of the key left at most. *)
Definition found (b : nat) (s : tree) (k : list byte) (res : outcome (list byte * node)) : Prop :=
  ∃ rest cld, res = Ok (rest, cld) ∧
    ((cld = nilNode ∧ lookup s k = None) ∨ (∃ v, cld = valueNode v ∧ lookup s k = Some v) ∨
     (∃ s', cld = hashNode (tree_hash s') ∧ big s' = true ∧ wf s' ∧ terminated rest ∧ (length rest <= b)%nat ∧
       lookup s k = lookup s' rest ∧ s' ∈ nodes s ∧ s' ∈ path s k ∧ ∀ u, u ∈ path s' rest → u ∈ path s k)).

Lemma wf_nodes_self t : wf t → t ∈ nodes t ∧ ∀ k, t ∈ path t k.
Proof. destruct 1; (split; [by left | intros; cbn [path]; by left]). Qed.

(** A step down the path. *)
Lemma found_step b b' s t k rest res : found b t rest res → lookup s k = lookup t rest → (b <= b')%nat →
  (∀ u, u ∈ nodes t → u ∈ nodes s) → (∀ u, u ∈ path t rest → u ∈ path s k) → found b' s k res.
Proof.
  intros (r & cld & -> & Hc) Hl Hlen Hn Hp. exists r, cld. split; [done |]. rewrite Hl.
  destruct Hc as [? | [? | (s' & ? & ? & ? & ? & ? & ? & ? & ? & ?)]]; [by left | by right; left |]. right. right. exists s'.
  repeat (split; [done || lia || auto |]). auto.
Qed.

Lemma found_ref t rest : fits rest t → key_ok rest →
  (wf t → ∀ hash k, terminated k → found (pred (length k)) t k (get (load hash t) k)) → found (length rest) t rest (get (load_ref t) rest).
Proof.
  intros Hf Hk IH. destruct (decide (t = TNil)) as [-> | Hn]; [by exists rest, nilNode; split; [| left] |]. specialize (Hf Hn).
  destruct rest as [| c rest]; [destruct Hf as [v ->]; exists [], (valueNode v); split; [done |]; right; left; by eexists |].
  apply key_ok_cons in Hk. unfold TrieRep.load_ref. destruct (big t) eqn:Hb.
  2:{ apply (found_step (length rest) _ t t (c :: rest) (c :: rest)); [by apply (IH Hf) | done | cbn; lia | done | done]. }
  eexists _, _. split; [done |]. right. right. exists t. destruct (wf_nodes_self t Hf). by repeat (split; [done |]).
Qed.

Lemma get_load s : wf s → ∀ hash k, terminated k → found (pred (length k)) s k (get (load hash s) k).
Proof.
  induction s as [| v | k t IH | ts IH] using tree_ind'; intros Hw hash key Hk; [inversion Hw | inversion Hw | |].
  - rewrite load_short. cbn [get]. rewrite mismatch_strip. destruct (strip k key) as [rest |] eqn:Hst.
    + apply strip_Some in Hst as ->. rewrite drop_app_length. destruct (short_rest k t rest Hw Hk) as [Hf Hk'].
      pose proof (short_key k t Hw). assert (0 < length k)%nat by (destruct k; [done | cbn; lia]).
      apply (found_step (length rest) _ _ t _ rest); [by apply found_ref | by rewrite lookup_short_app | rewrite length_app; lia | intros u; apply nodes_short |].
      intros u Hu. cbn [path]. rewrite strip_app. by right.
    + exists [], nilNode. split; [done |]. left. split; [done |]. cbn [lookup]. by rewrite Hst.
  - rewrite load_full. destruct key as [| c rest]; [by apply terminated_nil in Hk |]. cbn [get].
    destruct (full_rest ts c rest Hw Hk) as (t & Ht & Hf & Hk'). rewrite !list_lookup_fmap, Ht. cbn [fmap option_fmap option_map default from_option id].
    apply list_elem_of_lookup_2 in Ht as Hin. rewrite Forall_forall in IH.
    apply (found_step (length rest) _ _ t _ rest); [apply found_ref; [done.. | by apply IH] | by apply lookup_full_at | cbn; lia | intros u; by apply nodes_full |].
    intros u Hu. rewrite (path_full ts c rest t Ht). by right.
Qed.

(** ** Verifying *)

Lemma next_hash s wantHash : length wantHash = HashLength →
  take HashLength (tree_hash s) ++ drop (length (tree_hash s)) wantHash = tree_hash s.
Proof.
  intros Hl. assert (length (tree_hash s) = HashLength) as Hs by apply length_Keccak256.
  rewrite Hs, drop_ge, app_nil_r by lia. apply take_ge. lia.
Qed.

Context (P : list byte → Prop) (P_inj : ∀ a b, P a → P b → Keccak256 a = Keccak256 b → a = b).
Context (proofDb : list byte → option (list byte)).

(** One round with a node of the tree. *)
Lemma verify_round fuel i s k : wf s → good Keccak256 P s → terminated k → proofDb (tree_hash s) = Some (enc s) →
  (∃ j, verify_loop (S fuel) proofDb i (tree_hash s) k = Ok (default [] (lookup s k), j)) ∨
  ∃ s' rest, verify_loop (S fuel) proofDb i (tree_hash s) k = verify_loop fuel proofDb (S i) (tree_hash s') rest ∧
    wf s' ∧ good Keccak256 P s' ∧ terminated rest ∧ (length rest < length k)%nat ∧ lookup s k = lookup s' rest ∧ big s' = true ∧
    s' ∈ path s k ∧ ∀ u, u ∈ path s' rest → u ∈ path s k.
Proof.
  intros Hw G Hk Hdb. destruct (get_load s Hw (Some (tree_hash s)) k Hk) as (rest & cld & Hg & Hc). cbn [verify_loop]. rewrite Hdb.
  rewrite decodeNode_enc; [| done | done | apply G | by apply (good_self _ P)]. cbn [wrap_err mbind outcome_bind]. rewrite Hg. cbn [mbind outcome_bind].
  destruct Hc as [[-> ->] | [(v & -> & ->) | (s' & -> & Hb & Hw' & Ht & Hlen & -> & Hn & Hp & Hps)]]; [left; by eexists | left; by eexists | right].
  exists s', rest. rewrite next_hash by apply length_Keccak256. pose proof (terminated_not_nil k Hk). assert (0 < length k)%nat by (destruct k; [done | cbn; lia]).
  split; [done |]. split; [done |]. split; [apply (good_sub _ P s); [done |]; intros u; by apply nodes_trans |]. repeat (split; [done || lia |]). done.
Qed.

Lemma verify_complete fuel : ∀ i s k, wf s → good Keccak256 P s → terminated k → (length k <= fuel)%nat →
  proofDb (tree_hash s) = Some (enc s) → (∀ u, u ∈ path s k → big u = true → proofDb (tree_hash u) = Some (enc u)) →
  ∃ j, verify_loop fuel proofDb i (tree_hash s) k = Ok (default [] (lookup s k), j).
Proof.
  induction fuel as [| fuel IH]; intros i s k Hw G Hk Hf Hdb Hp; [destruct k; [by apply terminated_nil in Hk | cbn in Hf; lia] |].
  destruct (verify_round fuel i s k Hw G Hk Hdb) as [? | (s' & rest & -> & Hw' & G' & Ht & Hlen & -> & Hb & Hs' & Hps)]; [done |].
  apply IH; [done.. | lia | by apply Hp | eauto].
Qed.

(** Every element of the proof is stored under its hash. *)
Context (honest : ∀ h b, proofDb h = Some b → Keccak256 b = h ∧ P b).

Lemma verify_sound fuel : ∀ i s k, wf s → good Keccak256 P s → terminated k → (length k <= fuel)%nat →
  (∃ j, verify_loop fuel proofDb i (tree_hash s) k = Ok (default [] (lookup s k), j)) ∨ ∃ e, verify_loop fuel proofDb i (tree_hash s) k = Err e.
Proof.
  induction fuel as [| fuel IH]; intros i s k Hw G Hk Hf; [destruct k; [by apply terminated_nil in Hk | cbn in Hf; lia] |].
  destruct (proofDb (tree_hash s)) as [b |] eqn:Hdb; [| right; eexists; cbn [verify_loop]; by rewrite Hdb].
  destruct (honest _ _ Hdb) as [Hh HP]. apply P_inj in Hh; [| done | by apply (good_self _ P)]. subst b. fold (enc s) in Hdb.
  destruct (verify_round fuel i s k Hw G Hk Hdb) as [? | (s' & rest & -> & Hw' & G' & Ht & Hlen & -> & _)]; [by left |].
  apply IH; [done.. | lia].
Qed.

End Proofs.

(** ** Constructing a proof *)

Section Prove.
  Context (Keccak256 : list byte → list byte) (length_Keccak256 : ∀ b, length (Keccak256 b) = HashLength).
  Context {D : Type} `{NodeDatabase D} (db : D).

#[local] Abbreviation rep := (rep Keccak256 db).
#[local] Abbreviation tree_hash := (tree_hash Keccak256).
#[local] Abbreviation big := (big Keccak256).
#[local] Abbreviation enc := (enc Keccak256).

(** A loaded node of the trie. *)
Definition on_path (n : node) (s : tree) : Prop := (∃ r, rep r n s) ∧ wf s ∧ is_hash n = false.

Lemma proof_path_spec fuel : ∀ r n t key, rep r n t → key_ok key → fits key t → (cost n key <= fuel)%nat →
  ∃ ns, proof_path db fuel n key = Ok ns ∧ Forall2 on_path ns (path t key).
Proof.
  induction fuel as [| fuel IH]; intros r n t key Hr Hk Hf Hc; [unfold cost in Hc; destruct (is_hash n); lia |].
  inversion Hr as [r' | r' v | r' k n' t' fl Hr' Hfl | r' ns ts fl Hrs Hfl | r' t' Hn Hs Hb]; subst; cbn [proof_path].
  - exists []. split; [by destruct key | constructor].
  - apply fits_value in Hf as ->. exists []. by split; [| constructor].
  - apply fits_short in Hf as [Hne Hw]. destruct Hk as [? | Hk]; [done |].
    assert (on_path (shortNode k n' fl) (TShort k t')) as Hon by (split; [by exists r |]; done).
    rewrite mismatch_strip. cbn [path]. destruct (strip k key) as [rest |] eqn:Hst; cbn [negb].
    + apply strip_Some in Hst as Heq. subst key. rewrite drop_app_length. destruct (short_rest k t' rest Hw Hk) as [Hf' Hk'].
      pose proof (cost_rest (shortNode k n' fl) n' k rest (short_key _ _ Hw)).
      destruct (IH false n' t' rest) as (ns & -> & Hns); [done.. | lia |]. exists (shortNode k n' fl :: ns).
      split; [by destruct (k ++ rest) | by constructor].
    + exists [shortNode k n' fl]. split; [by destruct key | by constructor].
  - apply fits_full in Hf as [Hne Hw]. destruct key as [| c rest]; [done |]. apply key_ok_cons in Hk.
    destruct (full_rest ts c rest Hw Hk) as (t & Ht & Hf' & Hk'). destruct (child_rep Keccak256 db ns ts c t Hrs Ht) as (n & Hn & -> & Hrn).
    cbn [mbind outcome_bind]. rewrite (path_full ts c rest t Ht). pose proof (cost_rest (fullNode ns fl) n [c] rest ltac:(done)). cbn [app] in *.
    destruct (IH false n t rest) as (ns' & -> & Hns); [done.. | lia |]. eexists. split; [done |]. constructor; [| done]. split; [by exists r |]. done.
  - destruct (resolve_rep Keccak256 length_Keccak256 db r t Hn Hs Hb) as (n & -> & Hh & Hrn).
    destruct key as [| c rest].
    { exfalso. destruct t; try done; [by apply fits_short in Hf as [? _] | by apply fits_full in Hf as [? _]]. }
    cbn [mbind outcome_bind]. apply (IH r n t (c :: rest)); [done.. |]. unfold cost in *. cbn [is_hash] in Hc. rewrite Hh. lia.
Qed.

(** What [Prove] computes for one node. *)
Lemma element_spec n s : on_path n s → (∀ u, u ∈ nodes s → len (enc u) < 2 ^ 63) →
  ∃ n' c hn, (hashChildren (D := D) (hash Keccak256 None (height n) false) n None).1 = Ok (n', c) ∧
    (store (D := D) Keccak256 None n' false None).1 = Ok hn ∧ EncodeToBytes (node_value n') = Ok (enc s) ∧ collapsed Keccak256 false s hn.
Proof.
  intros ([r Hr] & Hw & Hh) Hsz.
  assert (∃ fl, walks Keccak256 (λ _ _, False) (λ _, False) db s None r s fl (hashChildren (hash Keccak256 None (height n) false) n None) ∧ default (tree_hash s) (fl_hash fl) = tree_hash s)
    as (fl & (n' & c & odb' & Hwk & _ & Hn' & Hc & Hh' & _) & Hdef).
  { assert (∀ fl, flag_ok Keccak256 db r fl s → default (tree_hash s) (fl_hash fl) = tree_hash s) as Hdef.
    { intros fl Hfl. unfold flag_ok in Hfl. destruct (fl_hash fl); [by destruct Hfl as [-> _] | done]. }
    inversion Hr as [r' | r' v | r' k m t' fl Hr' Hfl | r' ns ts fl Hrs Hfl | r' t' Hn Hs Hb]; subst; [inversion Hw | inversion Hw | | | done]; exists fl; (split; [| by apply Hdef]).
    - apply walks_short; [done.. |]. intros Hwt. apply hash_spec; [done.. | intros u; apply nodes_short | done | cbn; lia].
    - apply walks_full; [done.. |]. intros m t' odb Hm Ht' Hrm Hwt Hi. apply hash_spec; [done.. | intros u; by apply nodes_full | done |].
      cbn [height]. apply height_child in Hm. lia. }
  destruct (store_spec Keccak256 length_Keccak256 None (λ _ _, False) (λ _, False) ltac:(done) db s Hsz None false s n' (fl_hash fl) (dirty fl)) as (hn & odb2 & Hst & _ & Hcol & _);
    [done | by apply wf_nodes_self | done.. |].
  exists n', c, hn. rewrite Hwk, Hst. split; [done |]. split; [done |]. split; [| done].
  pose proof (simplify_bytes n' _ Hn') as Hb. rewrite raw_bytes in Hb by done. rewrite <- Hb. apply EncodeToBytes_bytes; [apply node_value_ok |].
  rewrite Hb. by apply Hsz, wf_nodes_self.
Qed.

(** The elements for the nodes on a path. *)
Fixpoint elements (i : nat) (ss : list tree) : list (list byte * list byte) :=
  match ss with
  | [] => []
  | s :: ss => if big s || (i =? 0)%nat then (tree_hash s, enc s) :: elements (S i) ss else elements (S i) ss
  end.

Lemma proof_elements_spec ns ss : Forall2 on_path ns ss → (∀ s u, s ∈ ss → u ∈ nodes s → len (enc u) < 2 ^ 63) → ∀ i,
  proof_elements Keccak256 (D := D) i 0 ns = Ok (elements i ss).
Proof.
  induction 1 as [| n s ns ss Hon _ IH]; intros Hsz i; [done |]. cbn [proof_elements elements].
  destruct (element_spec n s Hon) as (n' & c & hn & -> & Hst & He & Hcol); [intros u; apply Hsz; by left |]. cbn [mbind outcome_bind].
  rewrite Hst. cbn [mbind outcome_bind]. unfold collapsed in Hcol. cbn [orb] in Hcol.
  assert (∀ i, proof_elements Keccak256 (D := D) i 0 ns = Ok (elements i ss)) as IH' by (apply IH; intros; eapply Hsz; [by right | done]).
  destruct (big s) eqn:Hb; [subst hn | destruct Hcol as [_ Hnh]; assert (match hn with hashNode _ => true | _ => false end = false) as -> by (by destruct hn)];
    cbn [orb]; [| destruct (i =? 0)%nat; [| apply IH']]; change (0 <? 0) with false; cbv iota; rewrite He; cbn [mbind outcome_bind]; rewrite IH'; cbn [mbind outcome_bind]; [done |].
  by destruct hn.
Qed.

End Prove.

Lemma path_nodes t : ∀ key u, u ∈ path t key → u ∈ nodes t.
Proof.
  induction t as [| v | k t IH | ts IH] using tree_ind'; intros key u Hu; cbn [path] in Hu; try by apply not_elem_of_nil in Hu.
  - apply elem_of_cons in Hu as [-> | Hu]; [by left |]. destruct (strip k key); [by eapply nodes_short, IH | by apply not_elem_of_nil in Hu].
  - apply elem_of_cons in Hu as [-> | Hu]; [by left |]. destruct key as [| c rest]; [by apply not_elem_of_nil in Hu |].
    rewrite list_lookup_fmap in Hu. destruct (ts !! ix c) as [t |] eqn:Ht; [| by apply not_elem_of_nil in Hu].
    apply list_elem_of_lookup_2 in Ht. rewrite Forall_forall in IH. by apply (nodes_full ts t), (IH t Ht rest).
Qed.

Lemma elements_in K i ss h b : (h, b) ∈ elements K i ss → ∃ s, s ∈ ss ∧ h = tree_hash K s ∧ b = enc K s.
Proof.
  revert i. induction ss as [| s ss IH]; intros i Hin; cbn [elements] in Hin; [by apply not_elem_of_nil in Hin |].
  destruct (_ || _); [apply elem_of_cons in Hin as [[= -> ->] | Hin]; [exists s; by split; [left |] |] |];
    destruct (IH _ Hin) as (u & Hu & ? & ?); exists u; by split; [right |].
Qed.

Lemma elements_big K i ss s : s ∈ ss → big K s = true → (tree_hash K s, enc K s) ∈ elements K i ss.
Proof.
  intros Hs Hb. revert i. induction Hs as [s ss | s s' ss _ IH]; intros i; cbn [elements]; [rewrite Hb; by left |].
  destruct (_ || _); [right |]; auto.
Qed.

(** The reader of a database to which the elements of a proof were written, the
    last one under a hash. *)
Definition proof_reader (proof : list (list byte * list byte)) (h : list byte) : option (list byte) :=
  (list_to_map (reverse proof) : gmap (list byte) (list byte)) !! h.

Section Theorems.
  Context (Keccak256 : list byte → list byte) (length_Keccak256 : ∀ b, length (Keccak256 b) = HashLength).
  Context {D : Type} `{NodeDatabase D}.

#[local] Opaque emptyRoot.

(** C22: Merkle proofs are sound: from any set of proof nodes that are stored under their hashes,
    whoever chose them, VerifyProof with the root hash of a trie returns the value that the trie
    holds for the key, or none for an absent key, or an error. *)
Theorem VerifyProof_sound (db : D) (root : node) (m : gmap (list byte) (list byte)) (P : list byte → Prop)
    (proofDb : list byte → option (list byte)) (h key : list byte) :
  holds Keccak256 db root m → small_map m → no_empty_prefix m → collision_free Keccak256 P → encoded Keccak256 P m →
  (∀ h b, proofDb h = Some b → Keccak256 b = h ∧ P b) → (Hash Keccak256 (D := D) root).1 = Ok h →
  (∃ n, VerifyProof h key proofDb = Ok (default [] (m !! key), n)) ∨ ∃ e, VerifyProof h key proofDb = Err e.
Proof.
  intros (t & Hr & Ht) Hm He [Hinj Hne] Henc Hhonest. destruct (Hash_spec Keccak256 length_Keccak256 db root t m Hr Ht Hm) as (? & -> & _).
  cbn [fst]. intros [= <-]. pose proof (tree_for_good Keccak256 length_Keccak256 t m P Ht Hm He Henc) as G.
  rewrite <- (contents_get t m key) by apply Ht. unfold VerifyProof. destruct Ht as [[-> | Hw] _].
  - right. cbn [root_hash]. destruct (proofDb emptyRoot) as [b |] eqn:Hdb; [destruct (Hhonest _ _ Hdb) as [Hk HP]; by destruct (Hne b HP) |].
    exists (ErrNew "proof node missing"). unfold path_fuel. rewrite Nat.add_comm. cbn [Nat.add verify_loop]. by rewrite Hdb.
  - rewrite root_hash_wf by done. apply (verify_sound Keccak256 length_Keccak256 P Hinj proofDb Hhonest); [done | done | apply keybytesToHex_terminated |].
    unfold path_fuel. lia.
Qed.

(** C23: Merkle proofs are complete: for every key of a non-empty trie, present or absent, Prove
    succeeds and VerifyProof accepts what it wrote, with the value that the trie holds. *)
Theorem Prove_complete (db : D) (root : node) (m : gmap (list byte) (list byte)) (P : list byte → Prop) (h key : list byte) :
  holds Keccak256 db root m → small_map m → no_empty_prefix m → collision_free Keccak256 P → encoded Keccak256 P m → m ≠ ∅ →
  (Hash Keccak256 (D := D) root).1 = Ok h →
  ∃ proof n, Prove Keccak256 db key 0 root = Ok proof ∧ VerifyProof h key (proof_reader proof) = Ok (default [] (m !! key), n).
Proof.
  intros (t & Hr & Ht) Hm He [Hinj Hne] Henc Hnonempty. destruct (Hash_spec Keccak256 length_Keccak256 db root t m Hr Ht Hm) as (? & -> & _).
  cbn [fst]. intros [= <-]. pose proof (tree_for_good Keccak256 length_Keccak256 t m P Ht Hm He Henc) as G.
  pose proof (tree_for_fits t m key Ht) as Hf. rewrite <- (contents_get t m key) by apply Ht. destruct Ht as [[-> | Hw] Hc].
  { destruct Hnonempty. by apply (contents_unique TNil); [| apply contents_nil]. }
  destruct (proof_path_spec Keccak256 length_Keccak256 db (path_fuel (keybytesToHex key)) true root t (keybytesToHex key)) as (ns & Hns & Hon);
    [done | apply key_ok_hex | done | apply path_fuel_cost |].
  pose proof (proof_elements_spec Keccak256 length_Keccak256 db ns _ Hon) as Hel.
  specialize (Hel ltac:(intros s u Hs Hu; apply G, (nodes_trans t s); [by apply (path_nodes t (keybytesToHex key)) | done]) 0%nat).
  set (proof := elements Keccak256 0 (path t (keybytesToHex key))) in *.
  assert (∀ s, s ∈ nodes t → (tree_hash Keccak256 s, enc Keccak256 s) ∈ proof → proof_reader proof (tree_hash Keccak256 s) = Some (enc Keccak256 s)) as Hread.
  { intros s Hs Hin. unfold proof_reader. apply elem_of_list_to_map_1'; [| by apply elem_of_reverse].
    intros b Hb. apply elem_of_reverse, elements_in in Hb as (u & Hu & Hh & ->). apply path_nodes in Hu.
    apply Hinj; [by apply G | by apply G | done]. }
  destruct (verify_complete Keccak256 length_Keccak256 P (proof_reader proof) (path_fuel (keybytesToHex key)) 0 t (keybytesToHex key)) as [j Hj];
    [done | done | apply keybytesToHex_terminated | unfold path_fuel; lia | | |].
  - apply Hread; [by apply wf_nodes_self |]. unfold proof. destruct Hw; cbn [path elements Nat.eqb]; rewrite orb_true_r; by left.
  - intros u Hu Hb. apply Hread; [by apply (path_nodes t (keybytesToHex key)) | by apply elements_big].
  - exists proof, j. unfold Prove, VerifyProof. rewrite Hns. cbn [mbind outcome_bind]. split; [done |]. by rewrite root_hash_wf.
Qed.

End Theorems.
