(* ===== verification/TrieDerive.v ===== *)
(** [DeriveSha]: the root of transactions and of receipts is the root hash of the
    trie that maps the encoding of each index to the element, and stands for
    the list. *)

From S2P Require Import Prelude Rlp TrieEncoding TrieNode Trie TrieTree TrieRep TrieOps TrieHash TrieContents TrieTheorems.

Definition index_key (i : Z) : list byte := rlp_str (big_Bytes i).

(** The map that the loop has built. *)
Fixpoint derived (i : Z) (l : list (list byte)) (m : gmap (list byte) (list byte)) : gmap (list byte) (list byte) :=
  match l with
  | [] => m
  | b :: l => derived (i + 1) l (<[index_key i := b]> m)
  end.

Definition index_map (l : list (list byte)) : gmap (list byte) (list byte) := derived 0 l ∅.

(** ** Keys *)

Lemma index_key_small i : 0 <= i < 2 ^ 64 → len (index_key i) <= 17.
Proof.
  intros Hi. pose proof (bytelen_bound i 8 ltac:(lia)) as Hb. assert (len (big_Bytes i) <= 8) as Hl by (rewrite len_big_Bytes; lia).
  pose proof (len_rlp_str_le (big_Bytes i) ltac:(lia)). unfold index_key. lia.
Qed.

Lemma index_key_inj i j : 0 <= i < 2 ^ 64 → 0 <= j → index_key i = index_key j → i = j.
Proof.
  intros Hi Hj Heq. pose proof (index_key_small i Hi). apply big_Bytes_inj; [lia | done |].
  destruct (rlp_inj (Str (big_Bytes i)) (Str (big_Bytes j)) [] []) as [[= ?] _]; [rewrite app_nil_r; cbn [rlp]; fold (index_key i); lia | | done].
  rewrite !app_nil_r. exact Heq.
Qed.

Lemma EncodeToBytes_index i : 0 <= i < 2 ^ 64 → EncodeToBytes (VUint i) = Ok (index_key i).
Proof.
  intros Hi. pose proof (index_key_small i Hi). apply EncodeToBytes_bytes; [cbn [value_ok]; lia |].
  cbn [value_bytes]. fold (index_key i). lia.
Qed.

(** ** The map *)

Lemma derived_other l : ∀ i m key, (∀ j, i <= j < i + len l → key ≠ index_key j) → derived i l m !! key = m !! key.
Proof.
  induction l as [| b l IH]; intros i m key Hk; [done |]. rewrite len_cons in Hk. pose proof (len_nonneg l). cbn [derived].
  rewrite IH by (intros j Hj; apply Hk; lia). rewrite lookup_insert_ne; [done |]. intros Heq. by apply (Hk i); [lia |].
Qed.

Lemma derived_at l : ∀ i m (j : nat), 0 <= i → i + len l < 2 ^ 64 → (j < length l)%nat → derived i l m !! index_key (i + Z.of_nat j) = l !! j.
Proof.
  induction l as [| b l IH]; intros i m j Hi Hl Hj; [cbn in Hj; lia |]. rewrite len_cons in Hl. pose proof (len_nonneg l). cbn [derived length] in *.
  destruct j as [| j].
  - rewrite Z.add_0_r, derived_other; [by rewrite lookup_insert_eq |]. intros k Hk Heq. apply index_key_inj in Heq; lia.
  - replace (i + Z.of_nat (S j)) with (i + 1 + Z.of_nat j) by lia. rewrite IH; [done | lia..].
Qed.

Lemma derived_elem l : ∀ i m key v, derived i l m !! key = Some v → (∃ j, i <= j < i + len l ∧ key = index_key j ∧ v ∈ l) ∨ m !! key = Some v.
Proof.
  induction l as [| b l IH]; intros i m key v Hk; [by right |]. cbn [derived] in Hk. rewrite len_cons. pose proof (len_nonneg l).
  destruct (IH _ _ _ _ Hk) as [(j & Hj & -> & Hv) | Hm]; [left; exists j; split; [lia |]; split; [done | by right] |].
  apply lookup_insert_Some in Hm as [[<- <-] | [_ Hm]]; [| by right]. left. exists i. split; [lia |]. split; [done | by left].
Qed.

(** Elements of a list that [DeriveSha] is used on. *)
Definition derivable (l : list (list byte)) : Prop := len l < 2 ^ 64 ∧ ∀ b, b ∈ l → b ≠ [] ∧ len b < 2 ^ 60.

Lemma index_map_ok l : derivable l → small_map (index_map l) ∧ no_empty_prefix (index_map l).
Proof.
  intros [Hl He]. split.
  - intros key v Hk. apply derived_elem in Hk as [(j & Hj & -> & Hv) | Hm]; [| by rewrite lookup_empty in Hm].
    pose proof (index_key_small j ltac:(lia)). destruct (He v Hv). lia.
  - intros key key' v Hk _ _. apply derived_elem in Hk as [(j & _ & _ & Hv) | Hm]; [by destruct (He [] Hv) | by rewrite lookup_empty in Hm].
Qed.

Lemma index_map_inj l1 l2 : derivable l1 → derivable l2 → index_map l1 = index_map l2 → l1 = l2.
Proof.
  intros [H1 _] [H2 _] Heq. assert (∀ l l', len l < 2 ^ 64 → len l' < 2 ^ 64 → index_map l = index_map l' → ∀ j : nat, (j < length l)%nat → l !! j = l' !! j) as Hone.
  { intros l l' Hl Hl' He j Hj. pose proof (derived_at l 0 ∅ j ltac:(lia) ltac:(lia) Hj) as Hd. cbn [Z.add] in Hd. rewrite <- Hd. fold (index_map l). rewrite He.
    destruct (decide (j < length l')%nat) as [Hlt | Hge]; [apply (derived_at l' 0 ∅ j); [lia.. | done] |].
    rewrite lookup_ge_None_2 by lia. unfold index_map. rewrite derived_other; [apply lookup_empty |].
    intros k Hk Heq'. apply index_key_inj in Heq'; unfold len in *; lia. }
  apply list_eq. intros j. destruct (decide (j < length l1)%nat) as [Hj | Hj]; [by apply Hone |].
  destruct (decide (j < length l2)%nat) as [Hj2 | Hj2]; [symmetry; by apply Hone | by rewrite !lookup_ge_None_2 by lia].
Qed.

(** ** The root *)

Section Derive.
  Context (Keccak256 : list byte → list byte) (length_Keccak256 : ∀ b, length (Keccak256 b) = HashLength).

Lemma derive_loop_spec l : ∀ i root m, 0 <= i → i + len l < 2 ^ 64 → holds Keccak256 tt root m →
  ∃ root', derive_loop i l root = (Ok tt, root') ∧ holds Keccak256 tt root' (derived i l m).
Proof.
  induction l as [| b l IH]; intros i root m Hi Hl Hm; [by exists root |]. rewrite len_cons in Hl. pose proof (len_nonneg l). cbn [derive_loop derived].
  unfold mbind, st_bind, st_lift. rewrite EncodeToBytes_index by lia.
  destruct (run_op_spec Keccak256 length_Keccak256 tt root m (UpdateOp (index_key i) b) Hm) as (root1 & Hr & Hm1).
  cbn [run_op spec_op fst snd] in Hr, Hm1. unfold Update, logged, st_catch. unfold mbind, st_bind in Hr.
  destruct (TryUpdate tt (index_key i) b root) as [[[] | e | msg] root2]; [| done | done]. injection Hr as ->.
  apply IH; [lia | lia | done].
Qed.

Lemma derived_hashes (l1 l2 : list (list byte)) (P : list byte → Prop) :
  derivable l1 → derivable l2 → collision_free Keccak256 P → encoded Keccak256 P (index_map l1) → encoded Keccak256 P (index_map l2) →
  ∃ h1 h2, DeriveSha Keccak256 l1 = Ok h1 ∧ DeriveSha Keccak256 l2 = Ok h2 ∧ (h1 = h2 → l1 = l2).
Proof.
  intros D1 D2 HP E1 E2. assert (holds Keccak256 tt nilNode ∅) as Hnil by (exists TNil; split; [constructor | split; [by left | apply contents_nil]]).
  destruct (derive_loop_spec l1 0 nilNode ∅ ltac:(lia) (proj1 D1) Hnil) as (root1 & Hl1 & Hm1).
  destruct (derive_loop_spec l2 0 nilNode ∅ ltac:(lia) (proj1 D2) Hnil) as (root2 & Hl2 & Hm2).
  destruct (index_map_ok l1 D1) as [S1 N1], (index_map_ok l2 D2) as [S2 N2].
  pose proof (Hash_total Keccak256 length_Keccak256 tt root1 (index_map l1) Hm1 S1) as [h1 Hh1].
  pose proof (Hash_total Keccak256 length_Keccak256 tt root2 (index_map l2) Hm2 S2) as [h2 Hh2].
  exists h1, h2. unfold DeriveSha, mbind, st_bind. rewrite Hl1, Hl2. split; [done |]. split; [done |]. intros <-.
  apply index_map_inj; [done.. |]. apply (same_hash Keccak256 length_Keccak256 tt tt root1 root2 _ _ P); [done.. | congruence].
Qed.

Theorem DeriveSha_binds (l1 l2 : list (list byte)) (P : list byte → Prop) :
  derivable l1 → derivable l2 → collision_free Keccak256 P → encoded Keccak256 P (index_map l1) → encoded Keccak256 P (index_map l2) →
  ∃ h1 h2, DeriveSha Keccak256 l1 = Ok h1 ∧ DeriveSha Keccak256 l2 = Ok h2 ∧ (h1 = h2 → l1 = l2).
Proof. apply derived_hashes. Qed.

End Derive.
