(* ===== verification/TrieDatabase.v ===== *)
(** The node database of tries, src/l2geth/trie/database.go: nodes that are not
    on disk yet, with their reference counts and the list in which they are
    flushed.

    The clean cache is absent, as in [NewDatabase]; meters, timers and the
    statistics of garbage collection are left out, and so are the locks.  Sizes
    are exact here and floats in the code.  The disk is a key-value store whose
    batches are written as a whole or not at all; [faults] tells for each of the
    coming writes whether it fails.  The order of a range over a map is that of
    [map_to_list]. *)

From S2P Require Import Prelude Rlp TrieEncoding TrieNode.

(** The hash of the meta root. *)
Definition hash0 : list byte := replicate HashLength Byte.x00.

Record cachedNode := CachedNode {
  cn_node : node;
  cn_size : Z;
  parents : Z;
  children : option (gmap (list byte) Z);
  flushPrev : list byte;
  flushNext : list byte;
}.

Definition set_parents z c := CachedNode (cn_node c) (cn_size c) z (children c) (flushPrev c) (flushNext c).
Definition set_children m c := CachedNode (cn_node c) (cn_size c) (parents c) m (flushPrev c) (flushNext c).
Definition set_flushPrev h c := CachedNode (cn_node c) (cn_size c) (parents c) (children c) h (flushNext c).
Definition set_flushNext h c := CachedNode (cn_node c) (cn_size c) (parents c) (children c) (flushPrev c) h.

Record Disk := { kv : gmap (list byte) (list byte); faults : list bool }.

(** The writes of a batch in their order. *)
Definition Batch : Type := list (list byte * list byte).

Record Database := {
  diskdb : Disk;
  dirties : gmap (list byte) cachedNode;
  oldest : list byte;
  newest : list byte;
  preimages : gmap (list byte) (list byte);
  dirtiesSize : Z;
  childrenSize : Z;
  preimagesSize : Z;
}.

Definition set_diskdb k d := {| diskdb := k; dirties := dirties d; oldest := oldest d; newest := newest d; preimages := preimages d;
  dirtiesSize := dirtiesSize d; childrenSize := childrenSize d; preimagesSize := preimagesSize d |}.
Definition set_dirties m d := {| diskdb := diskdb d; dirties := m; oldest := oldest d; newest := newest d; preimages := preimages d;
  dirtiesSize := dirtiesSize d; childrenSize := childrenSize d; preimagesSize := preimagesSize d |}.
Definition set_oldest h d := {| diskdb := diskdb d; dirties := dirties d; oldest := h; newest := newest d; preimages := preimages d;
  dirtiesSize := dirtiesSize d; childrenSize := childrenSize d; preimagesSize := preimagesSize d |}.
Definition set_newest h d := {| diskdb := diskdb d; dirties := dirties d; oldest := oldest d; newest := h; preimages := preimages d;
  dirtiesSize := dirtiesSize d; childrenSize := childrenSize d; preimagesSize := preimagesSize d |}.
Definition set_preimages m z d := {| diskdb := diskdb d; dirties := dirties d; oldest := oldest d; newest := newest d; preimages := m;
  dirtiesSize := dirtiesSize d; childrenSize := childrenSize d; preimagesSize := z |}.
Definition add_dirtiesSize z d := {| diskdb := diskdb d; dirties := dirties d; oldest := oldest d; newest := newest d; preimages := preimages d;
  dirtiesSize := dirtiesSize d + z; childrenSize := childrenSize d; preimagesSize := preimagesSize d |}.
Definition add_childrenSize z d := {| diskdb := diskdb d; dirties := dirties d; oldest := oldest d; newest := newest d; preimages := preimages d;
  dirtiesSize := dirtiesSize d; childrenSize := childrenSize d + z; preimagesSize := preimagesSize d |}.

(** The size of a [cachedNode] in memory on a 64-bit platform. *)
Definition cachedNodeSize : Z := 96.
Definition cachedNodeChildrenSize : Z := 48.

Definition NewDatabase (disk : Disk) : Database := {|
  diskdb := disk;
  dirties := {[ hash0 := CachedNode nilNode 0 0 (Some ∅) hash0 hash0 ]};
  oldest := hash0; newest := hash0; preimages := ∅;
  dirtiesSize := 0; childrenSize := 0; preimagesSize := 0;
|}.

(** ** Cached nodes *)

Definition cn_rlp (c : cachedNode) : outcome (list byte) :=
  match cn_node c with
  | rawNode b => Ok b
  | n => match EncodeToBytes (node_value n) with Err _ => Panic "rlp" | r => r end
  end.

Definition cn_obj (hash : list byte) (c : cachedNode) : outcome node :=
  match cn_node c with
  | rawNode b => mustDecodeNode (Some hash) b
  | n => expandNode (Some hash) n
  end.

(** The children on which [forChilds] calls its argument. *)
Definition forChilds (c : cachedNode) : outcome (list (list byte)) :=
  let external := (map_to_list (default ∅ (children c))).*1 in
  match cn_node c with
  | rawNode _ => Ok external
  | n => l ← forGatherChildren n; Ok (external ++ l)
  end.

(** ** Reading *)

Definition db_get (d : Database) (hash : list byte) : outcome (option node) :=
  match dirties d !! hash with
  | Some dirty => Some <$> cn_obj hash dirty
  | None =>
      match kv (diskdb d) !! hash with
      | None => Ok None
      | Some enc => Some <$> mustDecodeNode (Some hash) enc
      end
  end.

Definition not_found : error := ErrNew "not found".

(** [Node] *)
Definition Node (d : Database) (hash : list byte) : outcome (list byte) :=
  if bool_decide (hash = hash0) then Err not_found
  else
    match dirties d !! hash with
    | Some dirty => cn_rlp dirty
    | None => match kv (diskdb d) !! hash with Some enc => Ok enc | None => Err not_found end
    end.

Definition secureKey (key : list byte) : list byte := list_byte_of_string "secure-key-" ++ key.

Definition preimage (d : Database) (hash : list byte) : outcome (list byte) :=
  match preimages d !! hash with
  | Some p => Ok p
  | None => match kv (diskdb d) !! secureKey hash with Some p => Ok p | None => Err not_found end
  end.

(** [db.dirties[h]] and an assignment to a field of it. *)
Definition dirty_at (h : list byte) : st Database cachedNode := λ d,
  match dirties d !! h with Some c => (Ok c, d) | None => (Panic "nil pointer dereference", d) end.

Definition modify_dirty (h : list byte) (f : cachedNode → cachedNode) : st Database () :=
  c ← dirty_at h; st_modify (λ d, set_dirties (<[h := f c]> (dirties d)) d).

(** ** Inserting *)

Definition count_parent (child : list byte) : st Database () := λ d,
  match dirties d !! child with
  | Some c => (Ok tt, set_dirties (<[child := set_parents (u32 (parents c + 1)) c]> (dirties d)) d)
  | None => (Ok tt, d)
  end.

Fixpoint each (f : list byte → st Database ()) (l : list (list byte)) : st Database () :=
  match l with [] => mret tt | h :: l => f h;; each f l end.

Definition insert_dirty (hash blob : list byte) (n : node) : st Database () :=
  known ← st_gets (λ d, bool_decide (is_Some (dirties d !! hash)));
  if known : bool then mret tt
  else
    raw ← st_lift (simplifyNode n);
    prev ← st_gets newest;
    let entry := CachedNode raw (u16 (len blob)) 0 None prev hash0 in
    childs ← st_lift (forChilds entry);
    each count_parent childs;;
    st_modify (λ d, set_dirties (<[hash := entry]> (dirties d)) d);;
    empty ← st_gets (λ d, bool_decide (oldest d = hash0));
    (if empty : bool then st_modify (λ d, set_newest hash (set_oldest hash d))
     else last ← st_gets newest; modify_dirty last (set_flushNext hash);; st_modify (set_newest hash));;
    st_modify (add_dirtiesSize (u16 (32 + cn_size entry))).

Definition InsertBlob (hash blob : list byte) : st Database () := insert_dirty hash blob (rawNode blob).

Definition insertPreimage (hash p : list byte) : st Database () := λ d,
  match preimages d !! hash with
  | Some _ => (Ok tt, d)
  | None => (Ok tt, set_preimages (<[hash := p]> (preimages d)) (preimagesSize d + (32 + len p)) d)
  end.

(** ** Reference counting *)

Definition reference_dirty (child parent : list byte) : st Database () :=
  known ← st_gets (λ d, bool_decide (is_Some (dirties d !! child)));
  if negb known then mret tt
  else
    p ← dirty_at parent;
    match children p with
    | Some m =>
        if bool_decide (is_Some (m !! child)) && negb (bool_decide (parent = hash0)) then mret tt
        else
          modify_dirty child (λ c, set_parents (u32 (parents c + 1)) c);;
          let n := u16 (default 0 (m !! child) + 1) in
          modify_dirty parent (set_children (Some (<[child := n]> m)));;
          if n =? 1 then st_modify (add_childrenSize (32 + 2)) else mret tt
    | None =>
        st_modify (add_childrenSize cachedNodeChildrenSize);;
        modify_dirty child (λ c, set_parents (u32 (parents c + 1)) c);;
        modify_dirty parent (set_children (Some {[ child := 1 ]}));;
        st_modify (add_childrenSize (32 + 2))
    end.

Definition Reference (child parent : list byte) : st Database () := reference_dirty child parent.

(** The removal of a node from the flush list. *)
Definition unlink (hash : list byte) (c : cachedNode) : st Database () :=
  d ← st_get;
  if bool_decide (hash = oldest d) then
    st_modify (set_oldest (flushNext c));;
    modify_dirty (flushNext c) (set_flushPrev hash0)
  else if bool_decide (hash = newest d) then
    st_modify (set_newest (flushPrev c));;
    modify_dirty (flushPrev c) (set_flushNext hash0)
  else
    modify_dirty (flushPrev c) (set_flushNext (flushNext c));;
    modify_dirty (flushNext c) (set_flushPrev (flushPrev c)).

Definition drop_child (child parent : list byte) : st Database () :=
  p ← dirty_at parent;
  match children p with
  | Some m =>
      let n := default 0 (m !! child) in
      if 0 <? n then
        if n - 1 =? 0 then
          modify_dirty parent (set_children (Some (base.delete child m)));;
          st_modify (add_childrenSize (- (32 + 2)))
        else modify_dirty parent (set_children (Some (<[child := n - 1]> m)))
      else mret tt
  | None => mret tt
  end.

(** The rest of [dereference], with [dereference] itself as a parameter. *)
Definition drop_parent (dereference : list byte → list byte → st Database ()) (child : list byte) : st Database () :=
  known ← st_gets (λ d, dirties d !! child);
  match known with
  | None => mret tt
  | Some c =>
      let left := if 0 <? parents c then parents c - 1 else parents c in
      modify_dirty child (set_parents left);;
      if left =? 0 then
        unlink child c;;
        childs ← st_lift (forChilds c);
        each (λ h, dereference h child) childs;;
        c ← dirty_at child;
        st_modify (λ d, set_dirties (delete child (dirties d)) d);;
        st_modify (add_dirtiesSize (- (32 + cn_size c)));;
        match children c with
        | Some _ => st_modify (add_childrenSize (- cachedNodeChildrenSize))
        | None => mret tt
        end
      else mret tt
  end.

(** The fuel is the depth of the references that are followed. *)
Fixpoint dereference (fuel : nat) (child parent : list byte) : st Database () :=
  match fuel with
  | O => st_panic "out of fuel"
  | S fuel => drop_child child parent;; drop_parent (dereference fuel) child
  end.

Definition Dereference (root : list byte) : st Database () :=
  if bool_decide (root = hash0) then mret tt
  else fuel ← st_gets (λ d, S (base.size (dirties d))); dereference fuel root hash0.

(** ** Writing to disk *)

Definition IdealBatchSize : Z := 100 * 1024.

Definition ValueSize (b : Batch) : Z := foldr (λ w n, len w.2 + n) 0 b.

Definition write_failed : error := ErrNew "write failed".

(** [batch.Write] *)
Definition Write_batch (b : Batch) : st Database () := λ d,
  let disk := diskdb d in
  match faults disk with
  | true :: fs => (Err write_failed, set_diskdb {| kv := kv disk; faults := fs |} d)
  | fs => (Ok tt, set_diskdb {| kv := foldl (λ m w, <[w.1 := w.2]> m) (kv disk) b; faults := tail fs |} d)
  end.

(** [cleaner.Put] *)
Definition cleaner_Put (key : list byte) : st Database () :=
  let hash := BytesToHash key in
  known ← st_gets (λ d, dirties d !! hash);
  match known with
  | None => mret tt
  | Some c =>
      unlink hash c;;
      st_modify (λ d, set_dirties (delete hash (dirties d)) d);;
      st_modify (add_dirtiesSize (- (32 + cn_size c)));;
      match children c with
      | Some m => st_modify (add_dirtiesSize (- (cachedNodeChildrenSize + Z.of_nat (base.size m) * (32 + 2))))
      | None => mret tt
      end
  end.

(** [batch.Replay(uncacher)] *)
Definition Replay (b : Batch) : st Database () := each cleaner_Put b.*1.

(** The loop of [Commit] and [Cap] over the preimages; the batch that is left. *)
Fixpoint put_preimages (l : list (list byte * list byte)) (b : Batch) : st Database Batch :=
  match l with
  | [] => mret b
  | (h, p) :: l =>
      let b := b ++ [(secureKey h, p)] in
      if IdealBatchSize <? ValueSize b then Write_batch b;; put_preimages l [] else put_preimages l b
  end.

(** The callbacks of [commit] on the children. *)
Fixpoint commit_each (f : list byte → Batch → st Database Batch) (l : list (list byte)) (b : Batch) : st Database Batch :=
  match l with [] => mret b | h :: l => b ← f h b; commit_each f l b end.

(** [commit]; the batch that is left. *)
Fixpoint commit (fuel : nat) (hash : list byte) (b : Batch) : st Database Batch :=
  match fuel with
  | O => st_panic "out of fuel"
  | S fuel =>
      known ← st_gets (λ d, dirties d !! hash);
      match known with
      | None => mret b
      | Some c =>
          childs ← st_lift (forChilds c);
          b ← commit_each (commit fuel) childs b;
          enc ← st_lift (cn_rlp c);
          let b := b ++ [(hash, enc)] in
          if IdealBatchSize <=? ValueSize b then Write_batch b;; Replay b;; mret [] else mret b
      end
  end.

Definition Commit_database (hash : list byte) : st Database () :=
  l ← st_gets (λ d, map_to_list (preimages d));
  b ← put_preimages l [];
  Write_batch b;;
  fuel ← st_gets (λ d, S (base.size (dirties d)));
  b ← commit fuel hash [];
  Write_batch b;;
  Replay b;;
  st_modify (set_preimages ∅ 0).

(** A batch of [Cap] that has become large is written. *)
Definition write_large (b : Batch) : st Database Batch :=
  if IdealBatchSize <=? ValueSize b then Write_batch b;; mret [] else mret b.

(** The first loop of [Cap]: the batch that is left and the oldest node that
    stays.  The fuel is the number of nodes. *)
Fixpoint cap_loop (fuel : nat) (limit sz : Z) (old : list byte) (b : Batch) : st Database (Batch * list byte) :=
  if (limit <? sz) && negb (bool_decide (old = hash0)) then
    match fuel with
    | O => st_panic "out of fuel"
    | S fuel =>
        c ← dirty_at old;
        enc ← st_lift (cn_rlp c);
        let b := b ++ [(old, enc)] in
        b ← write_large b;
        let sz := sz - (32 + cn_size c + cachedNodeSize) in
        let sz := match children c with Some m => sz - (cachedNodeChildrenSize + Z.of_nat (base.size m) * (32 + 2)) | None => sz end in
        cap_loop fuel limit sz (flushNext c) b
    end
  else mret (b, old).

(** The second loop of [Cap]. *)
Fixpoint uncache_loop (fuel : nat) (old : list byte) : st Database () :=
  d ← st_get;
  if bool_decide (oldest d = old) then mret tt
  else
    match fuel with
    | O => st_panic "out of fuel"
    | S fuel =>
        c ← dirty_at (oldest d);
        st_modify (λ d, set_oldest (flushNext c) (set_dirties (delete (oldest d) (dirties d)) d));;
        st_modify (add_dirtiesSize (- (32 + cn_size c)));;
        match children c with
        | Some m => st_modify (add_childrenSize (- (cachedNodeChildrenSize + Z.of_nat (base.size m) * (32 + 2))))
        | None => mret tt
        end;;
        uncache_loop fuel old
    end.

(** The references of the meta root. *)
Definition metaroot_refs (d : Database) : Z :=
  match dirties d !! hash0 with Some c => Z.of_nat (base.size (default ∅ (children c))) * (32 + 2) | None => 0 end.

(** [Size] without the preimages. *)
Definition Size (d : Database) : Z :=
  dirtiesSize d + childrenSize d + (Z.of_nat (base.size (dirties d)) - 1) * cachedNodeSize - metaroot_refs d.

(** The preimages in the batch that [Cap] starts with. *)
Definition cap_preimages (flush : bool) : st Database Batch :=
  if flush then l ← st_gets (λ d, map_to_list (preimages d)); put_preimages l [] else mret [].

(** What [Cap] does after its writes: [old] is the oldest node that stays. *)
Definition cap_uncache (flush : bool) (fuel : nat) (old : list byte) : st Database () :=
  (if flush then st_modify (set_preimages ∅ 0) else mret tt);;
  uncache_loop fuel old;;
  d ← st_get;
  if bool_decide (oldest d = hash0) then mret tt else modify_dirty (oldest d) (set_flushPrev hash0).

Definition Cap (limit : Z) : st Database () :=
  d ← st_get;
  let flushPreimages := 4 * 1024 * 1024 <? preimagesSize d in
  b ← cap_preimages flushPreimages;
  '(b, old) ← cap_loop (base.size (dirties d)) limit (Size d) (oldest d) b;
  Write_batch b;;
  cap_uncache flushPreimages (base.size (dirties d)) old.
