(* ===== verification/TrieDatabaseFacts.v ===== *)
(** The node database implements the interface that tries rely on, and loses no
    node when it moves them to disk. *)

From S2P Require Import Prelude Rlp TrieEncoding TrieNode TrieDatabase.

#[local] Opaque hash0.

Lemma default_head_in {A} (x : A) l : l ≠ [] → default x (head l) ∈ l.
Proof. destruct l; [done |]. by left. Qed.

(** ** The flush list *)

(** The nodes of [order] are linked: [p] is before the first, if it matters, and
    [e] after the last. *)
Fixpoint chain (m : gmap (list byte) cachedNode) (p : option (list byte)) (order : list (list byte)) (e : list byte) : Prop :=
  match order with
  | [] => True
  | h :: rest =>
      (∃ c, m !! h = Some c ∧ (∀ x, p = Some x → flushPrev c = x) ∧ flushNext c = default e (head rest)) ∧ chain m (Some h) rest e
  end.

Lemma chain_app m p l1 l2 e :
  chain m p (l1 ++ l2) e ↔ chain m p l1 (default e (head l2)) ∧ chain m (match last l1 with Some x => Some x | None => p end) l2 e.
Proof.
  revert p. induction l1 as [| h l1 IH]; intros p; cbn [app chain]; [tauto |]. rewrite IH.
  assert (default e (head (l1 ++ l2)) = default (default e (head l2)) (head l1)) as -> by (by destruct l1).
  assert (match last (h :: l1) with Some x => Some x | None => p end = match last l1 with Some x => Some x | None => Some h end) as ->
    by (destruct l1; [done |]; rewrite last_cons; by destruct (last _) eqn:E; [| apply last_None in E]).
  tauto.
Qed.

Lemma chain_outside m h c p order e : h ∉ order → chain m p order e → chain (<[h := c]> m) p order e.
Proof.
  revert p. induction order as [| x order IH]; intros p Hn; [done |]. apply not_elem_of_cons in Hn as [Hne Hn]. cbn [chain]. intros [(cx & Hx & H) Hc].
  split; [exists cx; by rewrite lookup_insert_ne | auto].
Qed.

Lemma chain_delete m h p order e : h ∉ order → chain m p order e → chain (base.delete h m) p order e.
Proof.
  revert p. induction order as [| x order IH]; intros p Hn; [done |]. apply not_elem_of_cons in Hn as [Hne Hn]. cbn [chain]. intros [(cx & Hx & H) Hc].
  split; [exists cx; by rewrite lookup_delete_ne | auto].
Qed.

Lemma chain_any_prev m p order e : chain m p order e → chain m None order e.
Proof. destruct order as [| h order]; [done |]. cbn [chain]. intros [(c & Hc & _ & Hn) H]. split; [by exists c | done]. Qed.

Lemma chain_in m p order e h : chain m p order e → h ∈ order → is_Some (m !! h).
Proof.
  revert p. induction order as [| x order IH]; intros p; [by intros _ ?%not_elem_of_nil |]. cbn [chain]. intros [(c & Hc & _) H].
  rewrite elem_of_cons. intros [-> | Hin]; [by eexists | eauto].
Qed.

(** Changes of an entry that keep its links. *)
Definition same_links (c c' : cachedNode) : Prop := flushPrev c' = flushPrev c ∧ flushNext c' = flushNext c.

Lemma chain_same m h c c' p order e : m !! h = Some c → same_links c c' → chain m p order e → chain (<[h := c']> m) p order e.
Proof.
  intros Hc [Hp Hn]. revert p. induction order as [| x order IH]; intros p; [done |]. cbn [chain]. intros [(cx & Hx & Hpx & Hnx) Hr]. split; [| auto].
  destruct (decide (h = x)) as [-> | Hne]; [| exists cx; by rewrite lookup_insert_ne].
  exists c'. rewrite lookup_insert_eq. rewrite Hc in Hx. injection Hx as <-. by rewrite Hp, Hn.
Qed.

Lemma chain_set_last m p order h c e x : NoDup (order ++ [h]) → m !! h = Some c → chain m p (order ++ [h]) e →
  chain (<[h := set_flushNext x c]> m) p (order ++ [h]) x.
Proof.
  intros Hd Hc. apply NoDup_app in Hd as (_ & Hd & _). rewrite !chain_app. cbn [head default from_option id chain]. intros [H1 [(c' & Hc' & Hp & _) _]].
  split; [apply chain_outside; [| done]; intros Hin; by apply (Hd h Hin), list_elem_of_singleton |]. split; [| done].
  exists (set_flushNext x c). rewrite lookup_insert_eq. split; [done |]. split; [| done]. intros y Hy. rewrite Hc in Hc'. injection Hc' as <-. by apply Hp.
Qed.

Lemma chain_set_first m p order h c e x : NoDup (h :: order) → m !! h = Some c → chain m p (h :: order) e →
  chain (<[h := set_flushPrev x c]> m) (Some x) (h :: order) e.
Proof.
  intros Hd Hc. apply NoDup_cons in Hd as [Hd _]. cbn [chain]. intros [(c' & Hc' & _ & Hn) Hr]. rewrite Hc in Hc'. injection Hc' as <-.
  split; [| by apply chain_outside]. exists (set_flushPrev x c). rewrite lookup_insert_eq. split; [done |]. split; [by intros y [= <-] | done].
Qed.

(** The flush list of a database. *)
Record flush_list (d : Database) (order : list (list byte)) : Prop := {
  fl_nodup : NoDup order;
  fl_dom : ∀ h, is_Some (dirties d !! h) ↔ h = hash0 ∨ h ∈ order;
  fl_meta : hash0 ∉ order;
  fl_oldest : oldest d = default hash0 (head order);
  fl_newest : order ≠ [] → last order = Some (newest d);
  fl_chain : chain (dirties d) None order hash0;
}.

(** An entry other than the meta root can be encoded and its children found. *)
Definition entry_ok (h : list byte) (c : cachedNode) : Prop :=
  h ≠ hash0 → length h = HashLength ∧ is_Ok (cn_rlp c) = true ∧ is_Ok (forChilds c) = true.

(** The invariant of the database. *)
Definition database_ok (d : Database) : Prop :=
  (∃ order, flush_list d order) ∧ map_Forall entry_ok (dirties d) ∧ map_Forall (λ h _, length h = HashLength) (preimages d).

(** ** Reference counts do not matter for what is read *)

Definition erase (m : gmap (list byte) cachedNode) : gmap (list byte) cachedNode := set_parents 0 <$> m.

Definition same_but_parents (d d' : Database) : Prop := d' = set_dirties (dirties d') d ∧ erase (dirties d') = erase (dirties d).

Lemma set_dirties_id d : set_dirties (dirties d) d = d.
Proof. by destruct d. Qed.

Lemma same_but_parents_refl d : same_but_parents d d.
Proof. split; [by rewrite set_dirties_id | done]. Qed.

Lemma same_but_parents_trans d1 d2 d3 : same_but_parents d1 d2 → same_but_parents d2 d3 → same_but_parents d1 d3.
Proof. intros [H1 H2] [H3 H4]. split; [| congruence]. rewrite H3, H1. done. Qed.

Lemma erase_lookup m m' h c : erase m' = erase m → m !! h = Some c → ∃ z, m' !! h = Some (set_parents z c).
Proof.
  intros He Hc. apply (f_equal (λ m, m !! h)) in He. unfold erase in He. rewrite !lookup_fmap, Hc in He. destruct (m' !! h) as [c' |]; [| done].
  injection He as Hn Hs Hch Hp Hx. exists (parents c'). f_equal. destruct c, c'. cbn in *. by subst.
Qed.

Lemma erase_None m m' h : erase m' = erase m → m !! h = None → m' !! h = None.
Proof. intros He Hc. apply (f_equal (λ m, m !! h)) in He. unfold erase in He. rewrite !lookup_fmap, Hc in He. by destruct (m' !! h). Qed.

Lemma erase_insert m h c z : m !! h = Some c → erase (<[h := set_parents z c]> m) = erase m.
Proof.
  intros Hc. unfold erase. rewrite fmap_insert. apply insert_id. rewrite lookup_fmap, Hc. done.
Qed.

Lemma chain_erase m m' p order e : erase m' = erase m → chain m p order e → chain m' p order e.
Proof.
  intros He. revert p. induction order as [| h order IH]; intros p; [done |]. cbn [chain]. intros [(c & Hc & Hp & Hn) Hr]. split; [| auto].
  destruct (erase_lookup m m' h c He Hc) as [z Hz]. by exists (set_parents z c).
Qed.

Lemma flush_list_parents d d' order : same_but_parents d d' → flush_list d order → flush_list d' order.
Proof.
  intros [Hd He] [Hnd Hdom Hm Ho Hn Hc]. rewrite Hd. split; cbn [dirties oldest newest set_dirties]; [done | | done | done | done | by apply (chain_erase (dirties d))].
  intros h. rewrite <- Hdom. split; intros [c Hc'].
  - destruct (erase_lookup _ (dirties d) h c (eq_sym He) Hc') as [z ->]. by eexists.
  - destruct (erase_lookup _ (dirties d') h c He Hc') as [z ->]. by eexists.
Qed.

Lemma entry_ok_parents h c z : entry_ok h c → entry_ok h (set_parents z c).
Proof. done. Qed.

Lemma database_ok_parents d d' : same_but_parents d d' → database_ok d → database_ok d'.
Proof.
  intros Hs ([order Ho] & He & Hp). split; [exists order; by apply (flush_list_parents d) |]. destruct Hs as [-> Her]. split; [| done]. intros h c Hc.
  destruct (erase_lookup _ (dirties d) h c (eq_sym Her) Hc) as [z Hz]. apply He in Hz. exact Hz.
Qed.

Lemma db_get_parents d d' h : same_but_parents d d' → db_get d' h = db_get d h.
Proof.
  intros [Hd He]. unfold db_get. rewrite Hd. cbn [dirties diskdb set_dirties]. destruct (dirties d !! h) as [c |] eqn:Hc.
  - by destruct (erase_lookup _ _ h c He Hc) as [z ->].
  - by rewrite (erase_None _ _ h He Hc).
Qed.

Lemma Node_parents d d' h : same_but_parents d d' → Node d' h = Node d h.
Proof.
  intros [Hd He]. unfold Node. rewrite Hd. cbn [dirties diskdb set_dirties]. destruct (dirties d !! h) as [c |] eqn:Hc.
  - by destruct (erase_lookup _ _ h c He Hc) as [z ->].
  - by rewrite (erase_None _ _ h He Hc).
Qed.

Lemma count_parent_spec h d : ∃ d', count_parent h d = (Ok tt, d') ∧ same_but_parents d d'.
Proof.
  unfold count_parent. destruct (dirties d !! h) as [c |] eqn:Hc; [| exists d; split; [done | apply same_but_parents_refl]].
  eexists. split; [done |]. split; [done |]. cbn [dirties set_dirties]. by apply erase_insert.
Qed.

Lemma count_parents_spec l : ∀ d, ∃ d', each count_parent l d = (Ok tt, d') ∧ same_but_parents d d'.
Proof.
  induction l as [| h l IH]; intros d; [exists d; split; [done | apply same_but_parents_refl] |]. cbn [each]. unfold mbind, st_bind.
  destruct (count_parent_spec h d) as (d1 & -> & H1), (IH d1) as (d2 & -> & H2). exists d2. split; [done | by apply (same_but_parents_trans _ d1)].
Qed.

(** ** Inserting *)

(** The end of [insert]: a new entry at the end of the flush list. *)
Definition append_dirty (hash : list byte) (entry : cachedNode) : st Database () :=
  st_modify (λ d, set_dirties (<[hash := entry]> (dirties d)) d);;
  empty ← st_gets (λ d, bool_decide (oldest d = hash0));
  (if empty : bool then st_modify (λ d, set_newest hash (set_oldest hash d))
   else last ← st_gets newest; modify_dirty last (set_flushNext hash);; st_modify (set_newest hash));;
  st_modify (add_dirtiesSize (u16 (32 + cn_size entry))).

Lemma append_dirty_spec d order hash entry :
  flush_list d order → dirties d !! hash = None → flushPrev entry = newest d → flushNext entry = hash0 →
  ∃ d', append_dirty hash entry d = (Ok tt, d') ∧ flush_list d' (order ++ [hash]) ∧ diskdb d' = diskdb d ∧ preimages d' = preimages d ∧ dirties d' !! hash = Some entry ∧
    ∀ h, h ≠ hash → ∃ f, dirties d' !! h = f <$> dirties d !! h ∧ ∀ c, cn_node (f c) = cn_node c ∧ children (f c) = children c ∧ parents (f c) = parents c.
Proof.
  intros [Hnd Hdom Hm Ho Hn Hc] Hnone Hp Hnx. assert (hash ∉ order) as Hnin.
  { intros Hin. assert (is_Some (dirties d !! hash)) as [? ?] by (apply Hdom; by right). congruence. }
  assert (hash ≠ hash0) as Hne0 by (intros ->; assert (is_Some (dirties d !! hash0)) as [? ?] by (apply Hdom; by left); congruence).
  assert (NoDup (order ++ [hash])) as Hnd' by (apply NoDup_app; split; [done |]; split; [intros x Hx ->%list_elem_of_singleton; done | apply NoDup_singleton]).
  assert (hash0 ∉ order ++ [hash]) as Hm' by (rewrite elem_of_app, list_elem_of_singleton; intros [? | ?]; [done | congruence]).
  unfold append_dirty, mbind, st_bind, st_modify, st_gets. cbn [oldest set_dirties]. destruct (decide (order = [])) as [-> | Hne].
  - rewrite Ho. cbn [head default from_option id]. rewrite bool_decide_eq_true_2 by done. eexists. split; [done |].
    split; [| split; [done |]; split; [done |]; split; [cbn; by rewrite lookup_insert_eq |]; intros h Hh; exists id; cbn; rewrite lookup_insert_ne by done; by destruct (dirties d !! h)].
    split; cbn; [done | | done | done | done |].
    + intros h. destruct (decide (h = hash)) as [-> | Hh]; [rewrite lookup_insert_eq; split; [right; by left | by eexists] |].
      rewrite lookup_insert_ne, Hdom by done. rewrite list_elem_of_singleton. split; [intros [? | ?%not_elem_of_nil]; [by left | done] | intros [? | ?]; [by left | done]].
    + split; [| done]. exists entry. by rewrite lookup_insert_eq.
  - destruct (exists_last Hne) as (pre & lst & ->). specialize (Hn Hne). rewrite last_snoc in Hn. injection Hn as Hlast.
    assert (is_Some (dirties d !! lst)) as [c Hlst] by (apply Hdom; right; apply elem_of_app; right; by left).
    assert (lst ≠ hash) as Hlh by (intros ->; congruence).
    rewrite bool_decide_eq_false_2 by (rewrite Ho; intros Heq; apply Hm; rewrite <- Heq at 1; by apply default_head_in).
    unfold modify_dirty, mbind, st_bind, dirty_at, st_modify. cbn [dirties newest set_dirties]. rewrite <- Hlast, lookup_insert_ne, Hlst by done.
    eexists. split; [done |]. cbn [dirties diskdb set_dirties set_newest add_dirtiesSize].
    split; [| split; [done |]; split; [done |]; split; [by rewrite lookup_insert_ne, lookup_insert_eq by done |]].
    + split; cbn [dirties oldest newest set_dirties set_newest add_dirtiesSize]; [done | | done | by rewrite Ho; destruct pre | by rewrite last_snoc |].
      * intros h. rewrite elem_of_app, list_elem_of_singleton. destruct (decide (h = lst)) as [-> | Hh1]; [rewrite lookup_insert_eq; split; [right; left; apply elem_of_app; right; by left | by eexists] |].
        rewrite lookup_insert_ne by done. destruct (decide (h = hash)) as [-> | Hh2]; [rewrite lookup_insert_eq; split; [by right; right | by eexists] |].
        rewrite lookup_insert_ne, Hdom by done. tauto.
      * rewrite chain_app. cbn [head default from_option id]. split; [apply (chain_set_last _ _ _ _ _ hash0); [done | by rewrite lookup_insert_ne | by apply chain_outside] |].
        rewrite last_snoc. split; [| done]. exists entry. rewrite lookup_insert_ne, lookup_insert_eq by done. split; [done |]. split; [| done]. intros x [= <-]. congruence.
    + intros h Hh. destruct (decide (h = lst)) as [-> | Hh1]; [exists (set_flushNext hash); by rewrite lookup_insert_eq, Hlst |].
      exists id. rewrite !lookup_insert_ne by done. by destruct (dirties d !! h).
Qed.

(** The entry of a node that is new. *)
Definition new_entry (d : Database) (blob : list byte) (raw : node) : cachedNode := CachedNode raw (u16 (len blob)) 0 None (newest d) hash0.

(** The references in a node or a blob. *)
Definition node_childs (raw : node) : outcome (list (list byte)) := match raw with rawNode _ => Ok [] | n => forGatherChildren n end.

(** Its bytes. *)
Definition node_blob (raw : node) : outcome (list byte) := match raw with rawNode b => Ok b | n => EncodeToBytes (node_value n) end.

Lemma gather_childs raw : is_Ok (forGatherChildren raw) = true → is_Ok (node_childs raw) = true ∧ node_blob raw = EncodeToBytes (node_value raw).
Proof. by destruct raw. Qed.

Lemma node_blob_rlp c blob : node_blob (cn_node c) = Ok blob → cn_rlp c = Ok blob.
Proof. unfold node_blob, cn_rlp. intros Hb. destruct (cn_node c); try done; by rewrite Hb. Qed.

Lemma new_entry_childs d blob raw : is_Ok (node_childs raw) = true → forChilds (new_entry d blob raw) = node_childs raw.
Proof. intros Hg. unfold forChilds. cbn [cn_node new_entry children]. destruct raw; try done; cbn [node_childs] in *; by destruct (forGatherChildren _). Qed.

Lemma insert_dirty_new d hash blob n raw l d1 : dirties d !! hash = None → simplifyNode n = Ok raw → node_childs raw = Ok l → each count_parent l d = (Ok tt, d1) →
  insert_dirty hash blob n d = append_dirty hash (new_entry d blob raw) d1.
Proof.
  intros Hnone Hn Hl Hc. unfold insert_dirty. unfold mbind at 1, st_bind at 1, st_gets at 1. rewrite bool_decide_eq_false_2 by (rewrite Hnone; by intros [? ?]).
  unfold mbind at 1, st_bind at 1, st_lift at 1. rewrite Hn. unfold mbind at 1, st_bind at 1, st_gets at 1. fold (new_entry d blob raw).
  unfold mbind at 1, st_bind at 1, st_lift at 1. rewrite new_entry_childs, Hl by (by rewrite Hl). unfold mbind at 1, st_bind at 1. by rewrite Hc.
Qed.

(** What [insert] does. *)
Lemma insert_dirty_spec d hash blob n raw :
  database_ok d → simplifyNode n = Ok raw → length hash = HashLength → node_blob raw = Ok blob → is_Ok (node_childs raw) = true →
  ∃ d', insert_dirty hash blob n d = (Ok tt, d') ∧ database_ok d' ∧ diskdb d' = diskdb d ∧ preimages d' = preimages d ∧
    (∀ h, h ≠ hash → db_get d' h = db_get d h ∧ Node d' h = Node d h) ∧
    if bool_decide (is_Some (dirties d !! hash)) then d' = d else ∃ c, dirties d' !! hash = Some c ∧ cn_node c = raw.
Proof.
  intros Hok Hn Hlen Henc Hg. case_bool_decide as Hk.
  { exists d. unfold insert_dirty. unfold mbind at 1, st_bind at 1, st_gets at 1. by rewrite bool_decide_eq_true_2. }
  assert (dirties d !! hash = None) as Hnone by (destruct (dirties d !! hash) eqn:E; [destruct Hk; by eexists | done]).
  pose proof (new_entry_childs d blob raw Hg) as Hl. destruct (node_childs raw) as [l | |] eqn:Egc; [| done..].
  destruct (count_parents_spec l d) as (d1 & Hd1c & Hs). rewrite (insert_dirty_new d hash blob n raw l d1 Hnone Hn Egc Hd1c). set (entry := new_entry d blob raw) in *.
  destruct (database_ok_parents d d1 Hs Hok) as ([order Ho] & He & Hpre). destruct Hs as [Hd1 Her].
  assert (newest d1 = newest d ∧ diskdb d1 = diskdb d ∧ preimages d1 = preimages d) as (Hnew & Hdisk & Hpred) by (by rewrite Hd1).
  destruct (append_dirty_spec d1 order hash entry Ho) as (d2 & -> & Ho2 & Hdisk2 & Hpre2 & Hentry & Hother); [by apply (erase_None (dirties d)) | done | done |].
  exists d2. split; [done |]. split; [| split; [congruence |]; split; [congruence |]; split; [| by exists entry]].
  - split; [by eexists |]. split; [| by rewrite Hpre2]. intros h c Hc. destruct (decide (h = hash)) as [-> | Hh].
    + rewrite Hentry in Hc. injection Hc as <-. intros _. split; [done |]. split; [| by rewrite Hl]. by rewrite (node_blob_rlp entry blob).
    + destruct (Hother h Hh) as (f & Hf & Hfc). rewrite Hf in Hc. apply fmap_Some in Hc as (c0 & Hc0 & ->). specialize (He h c0 Hc0).
      intros Hh0. destruct (He Hh0) as (? & H1 & H2). destruct (Hfc c0) as (Hfn & Hfch & _). unfold cn_rlp, forChilds in *. by rewrite Hfn, Hfch.
  - intros h Hh. rewrite <- (db_get_parents d d1), <- (Node_parents d d1) by done. unfold db_get, Node. destruct (Hother h Hh) as (f & -> & Hfc). rewrite Hdisk2.
    destruct (dirties d1 !! h) as [c |]; [| done]. cbn [fmap option_fmap option_map]. destruct (Hfc c) as [Hfn _]. unfold cn_obj, cn_rlp. by rewrite Hfn.
Qed.

(** ** The interface of tries *)

#[export] Instance database_NodeDatabase : NodeDatabase Database := {|
  db_node := db_get;
  db_insert hash blob n d :=
    match insert_dirty hash blob n d with
    | (Ok _, d) => Ok d
    | (Err e, _) => Err e
    | (Panic m, _) => Panic m
    end;
  db_held d h := is_Some (dirties d !! h);
|}.

(** The disk and the preimages stay the same. *)
#[export] Instance database_laws_for named disk pre : NodeDatabaseLaws Database named (λ d, database_ok d ∧ diskdb d = disk ∧ preimages d = pre).
Proof.
  constructor. intros d h blob n raw (Hok & <- & <-) _ Hn Hlen Henc Hg. cbn [db_node db_insert database_NodeDatabase] in *.
  destruct (gather_childs raw Hg) as [Hch Hbl]. rewrite <- Hbl in Henc. destruct (insert_dirty_spec d h blob n raw Hok Hn Hlen Henc Hch) as (d' & -> & Hok' & Hdisk & Hpre & Hother & Hh). exists d'. repeat (split; [done |]).
  case_bool_decide as Hk.
  - subst d'. split; [done |]. split; [done |]. right. split; [done |]. destruct Hk as [c Hc]. unfold db_get. rewrite Hc. by destruct (cn_obj h c).
  - destruct Hh as (c & Hc & <-). split; [cbn; by eexists |]. split; [intros h' Hh'; by apply Hother |]. left. unfold db_get. rewrite Hc. f_equal. unfold cn_obj. by destruct (cn_node c).
Qed.

#[export] Instance database_laws named : NodeDatabaseLaws Database named database_ok.
Proof.
  constructor. intros d h blob n raw Hok. destruct (database_laws_for named (diskdb d) (preimages d)) as [Hlaw]. intros Hname Hn Hlen Henc Hg.
  destruct (Hlaw d h blob n raw) as (d' & Hi & (Hok' & _) & Hd); [done.. |]. by exists d'.
Qed.

(** ** Removing a node *)

(** The nodes and the disk stay the same. *)
Definition same_nodes (d d' : Database) : Prop :=
  diskdb d' = diskdb d ∧ preimages d' = preimages d ∧
  ∀ h, ((λ c, (cn_node c, children c, cn_size c, parents c)) <$> dirties d' !! h) = ((λ c, (cn_node c, children c, cn_size c, parents c)) <$> dirties d !! h).

#[export] Instance same_nodes_preorder : PreOrder same_nodes.
Proof. split; [done |]. intros d1 d2 d3 (H1 & H2 & H3) (H4 & H5 & H6). split; [congruence |]. split; [congruence |]. intros h. by rewrite H6, H3. Qed.

Lemma same_nodes_at d d' h c : same_nodes d d' → dirties d' !! h = Some c →
  ∃ c0, dirties d !! h = Some c0 ∧ cn_node c = cn_node c0 ∧ children c = children c0 ∧ parents c = parents c0.
Proof. intros (_ & _ & Hs) Hc. specialize (Hs h). rewrite Hc in Hs. destruct (dirties d !! h) as [c0 |]; [| done]. injection Hs as -> -> _ ->. by exists c0. Qed.

Lemma modify_dirty_spec h f d c : dirties d !! h = Some c → cn_node (f c) = cn_node c → children (f c) = children c → cn_size (f c) = cn_size c → parents (f c) = parents c →
  modify_dirty h f d = (Ok tt, set_dirties (<[h := f c]> (dirties d)) d) ∧ same_nodes d (set_dirties (<[h := f c]> (dirties d)) d).
Proof.
  intros Hc Hn Hch Hsz Hp. unfold modify_dirty, mbind, st_bind, dirty_at. rewrite Hc. split; [done |]. split; [done |]. split; [done |]. intros x. cbn [dirties set_dirties].
  destruct (decide (h = x)) as [<- | ?]; [by rewrite lookup_insert_eq, Hc; cbn; rewrite Hn, Hch, Hsz, Hp | by rewrite lookup_insert_ne].
Qed.

(** The flush list after [h] is taken out of it and of the dirty nodes. *)
Definition without (h : list byte) (d : Database) : Database := set_dirties (base.delete h (dirties d)) d.

(** What [unlink] achieves. *)
Definition unlinked (h : list byte) (d : Database) (order : list (list byte)) (res : outcome () * Database) : Prop :=
  ∃ d', res = (Ok tt, d') ∧ flush_list (without h d') order ∧ same_nodes d d'.

Lemma dom_without d d' h (order order' : list (list byte)) : flush_list d order → same_nodes d d' → hash0 ∉ order → (∀ x, x ∈ order ↔ x = h ∨ x ∈ order') → h ∉ order' → h ∈ order →
  ∀ x, is_Some (dirties (without h d') !! x) ↔ x = hash0 ∨ x ∈ order'.
Proof.
  intros Hf (_ & _ & Hs) Hm Hin Hnin Hh x. cbn [dirties without set_dirties].
  destruct (decide (h = x)) as [<- | Hne].
  - rewrite lookup_delete_eq. split; [by intros [] |]. intros [-> | ?]; done.
  - rewrite lookup_delete_ne by done. transitivity (is_Some (dirties d !! x)).
    + specialize (Hs x). destruct (dirties d' !! x), (dirties d !! x); try done.
    + rewrite (fl_dom d order Hf x), Hin. naive_solver.
Qed.

Lemma unlink_first d h c l : flush_list d (h :: l) → dirties d !! h = Some c → unlinked h d l (unlink h c d).
Proof.
  intros Hf Hc. pose proof Hf as [Hnd Hdom Hm Ho Hn [(c' & Hc' & _ & Hnext) Hch]]. rewrite Hc in Hc'. injection Hc' as <-.
  unfold unlink. unfold mbind at 1, st_bind at 1, st_get at 1. rewrite Ho. rewrite bool_decide_eq_true_2 by done. unfold mbind, st_bind, st_modify.
  assert (is_Some (dirties d !! flushNext c)) as [cn Hcn].
  { apply Hdom. rewrite Hnext. destruct l; cbn; [by left | right; right; by left]. }
  destruct (modify_dirty_spec (flushNext c) (set_flushPrev hash0) (set_oldest (flushNext c) d) cn) as [-> Hs]; [done.. |].
  eexists. split; [done |]. apply NoDup_cons in Hnd as [Hnin Hnd']. split; [| done].
  split; [done | | set_solver | | |].
  - apply (dom_without d _ h (h :: l)); [done | exact Hs | done | | done | by left]. intros x. apply elem_of_cons.
  - cbn [oldest without set_dirties set_oldest]. done.
  - intros Hne. cbn [newest without set_dirties set_oldest]. rewrite <- Hn by done. rewrite last_cons. by destruct (last l) eqn:E; [| apply last_None in E].
  - cbn [dirties without set_dirties set_oldest]. apply chain_delete; [done |]. destruct l as [| x l]; [done |]. rewrite Hnext in *. cbn [head default from_option id] in *.
    eapply chain_any_prev, chain_set_first; [done | done | exact Hch].
Qed.

Lemma unlink_last d h c pre p : flush_list d ((pre ++ [p]) ++ [h]) → dirties d !! h = Some c → oldest d ≠ h →
  unlinked h d (pre ++ [p]) (unlink h c d).
Proof.
  intros Hf Hc Hold. pose proof Hf as [Hnd Hdom Hm Ho Hn Hch]. specialize (Hn ltac:(by destruct pre)). rewrite last_snoc in Hn. injection Hn as Hnew.
  apply chain_app in Hch as [Hch1 [(c' & Hc' & Hprev & _) _]]. rewrite Hc in Hc'. injection Hc' as <-. rewrite last_snoc in Hprev. specialize (Hprev p eq_refl).
  unfold unlink. unfold mbind at 1, st_bind at 1, st_get at 1. rewrite bool_decide_eq_false_2 by congruence. rewrite bool_decide_eq_true_2 by done. unfold mbind, st_bind, st_modify. rewrite Hprev.
  assert (is_Some (dirties d !! p)) as [cp Hcp] by (apply Hdom; set_solver).
  destruct (modify_dirty_spec p (set_flushNext hash0) (set_newest p d) cp) as [-> Hs]; [done.. |].
  apply NoDup_app in Hnd as (Hnd' & Hdis & _). assert (h ∉ pre ++ [p]) as Hnin by (intros Hin; by apply (Hdis h Hin), list_elem_of_singleton).
  eexists. split; [done |]. split; [| done]. split; [done | | set_solver | | |].
  - apply (dom_without d _ h ((pre ++ [p]) ++ [h])); [done | exact Hs | done | | done | set_solver]. set_solver.
  - cbn [oldest without set_dirties set_newest]. rewrite Ho. by destruct pre.
  - intros _. cbn [newest without set_dirties set_newest]. apply last_snoc.
  - cbn [dirties without set_dirties set_newest]. apply chain_delete; [done |]. by eapply chain_set_last.
Qed.

Lemma unlink_middle d h c pre p n post : flush_list d ((pre ++ [p]) ++ h :: n :: post) → dirties d !! h = Some c → oldest d ≠ h → newest d ≠ h →
  unlinked h d ((pre ++ [p]) ++ n :: post) (unlink h c d).
Proof.
  intros Hf Hc Hold Hnew. pose proof Hf as [Hnd Hdom Hm Ho Hn Hch]. specialize (Hn ltac:(by destruct pre)).
  apply chain_app in Hch as [Hch1 [(c' & Hc' & Hprev & Hnext) Hch2]]. rewrite Hc in Hc'. injection Hc' as <-. rewrite last_snoc in Hprev. specialize (Hprev p eq_refl).
  cbn [head default from_option id] in Hnext, Hch1.
  unfold unlink. unfold mbind at 1, st_bind at 1, st_get at 1. rewrite !bool_decide_eq_false_2 by congruence. rewrite Hprev, Hnext. unfold mbind, st_bind.
  assert (is_Some (dirties d !! p)) as [cp Hcp] by (apply Hdom; set_solver). assert (is_Some (dirties d !! n)) as [cn Hcn] by (apply Hdom; set_solver).
  apply NoDup_app in Hnd as (Hnd1 & Hdis & Hnd2). apply NoDup_cons in Hnd2 as [Hh2 Hnd2].
  assert (h ∉ pre ++ [p]) as Hh1 by (intros Hin; apply (Hdis h Hin); by left). assert (p ≠ n) as Hpn by (intros ->; apply (Hdis n); set_solver).
  assert (n ∉ pre ++ [p]) as Hn1 by (intros Hin; apply (Hdis n Hin); set_solver). assert (p ∉ n :: post) as Hp2 by (intros Hin; apply (Hdis p); set_solver).
  destruct (modify_dirty_spec p (set_flushNext n) d cp) as [-> Hs1]; [done.. |].
  destruct (modify_dirty_spec n (set_flushPrev p) (set_dirties (<[p := set_flushNext n cp]> (dirties d)) d) cn) as [-> Hs2];
    [cbn [dirties set_dirties]; by rewrite lookup_insert_ne | done.. |].
  pose proof (transitivity Hs1 Hs2) as Hs. eexists. split; [done |]. split; [| exact Hs]. split; [apply NoDup_app; set_solver | | set_solver | | |].
  - apply (dom_without d _ h ((pre ++ [p]) ++ h :: n :: post)); [done | exact Hs | done | set_solver | set_solver | set_solver].
  - cbn [oldest without set_dirties]. rewrite Ho. by destruct pre.
  - intros _. cbn [newest without set_dirties]. rewrite <- Hn. rewrite !last_app, !last_cons. by destruct (last post).
  - cbn [dirties without set_dirties]. apply chain_delete; [set_solver |]. rewrite chain_app, last_snoc. cbn [head default from_option id]. split.
    + apply chain_outside; [done |]. by eapply chain_set_last.
    + eapply chain_set_first; [done | by rewrite lookup_insert_ne | by apply chain_outside].
Qed.

Lemma unlink_spec d order h c : flush_list d order → h ∈ order → dirties d !! h = Some c → ∃ order', unlinked h d order' (unlink h c d).
Proof.
  intros Hf Hin Hc. apply list_elem_of_split in Hin as (l1 & l2 & ->). pose proof Hf as [Hnd _ _ Ho Hn _].
  destruct (decide (l1 = [])) as [-> | Hne]; [eexists; by apply unlink_first |]. destruct (exists_last Hne) as (pre & p & ->).
  apply NoDup_app in Hnd as (Hnd1 & Hdis & Hnd2). assert (oldest d ≠ h) as Hold.
  { rewrite Ho. intros Heq. apply (Hdis h); [| by left]. rewrite <- Heq. destruct pre; cbn; by left. }
  destruct l2 as [| n post]; [eexists; by apply unlink_last |]. exists ((pre ++ [p]) ++ n :: post). apply unlink_middle; [done.. |].
  specialize (Hn ltac:(by destruct pre)). rewrite last_app in Hn. intros Heq. apply NoDup_cons in Hnd2 as [Hnin _]. apply Hnin.
  rewrite last_cons in Hn. destruct (last (n :: post)) as [y |] eqn:E; [| by apply last_None in E]. injection Hn as ->. rewrite Heq in E.
  apply last_Some in E as [l' ->]. set_solver.
Qed.
