(* ===== verification/TrieFlush.v ===== *)
(** The node database loses no node when it moves them to disk, also when a
    write fails: [Commit] and [Cap] of src/l2geth/trie/database.go. *)

From S2P Require Import Prelude Rlp TrieEncoding TrieNode TrieDatabase TrieDatabaseFacts.

#[local] Opaque hash0.

(** ** Moving nodes to disk *)

(** What can be read under a hash stays the same. *)
Definition keeps (d d' : Database) : Prop := ∀ h enc, length h = HashLength → Node d h = Ok enc ↔ Node d' h = Ok enc.

#[export] Instance keeps_preorder : PreOrder keeps.
Proof. split; [by intros d h enc | intros d1 d2 d3 H1 H2 h enc Hl; rewrite (H1 h enc Hl); by apply H2]. Qed.

(** The writes of nodes in a batch are what is read now. *)
Definition sound_batch (d : Database) (b : Batch) : Prop := ∀ h enc, (h, enc) ∈ b → length h = HashLength → h ≠ hash0 ∧ Node d h = Ok enc.

Lemma sound_keeps d d' b : keeps d d' → sound_batch d b → sound_batch d' b.
Proof. intros Hk Hb h enc Hin Hl. destruct (Hb h enc Hin Hl). split; [done | by apply Hk]. Qed.

(** The data of a node is on disk, or in the batch that is written next. *)
Definition secured (d : Database) (b : Batch) (h : list byte) : Prop :=
  ∀ enc, length h = HashLength → Node d h = Ok enc → (h, enc) ∈ b ∨ kv (diskdb d) !! h = Some enc.

(** The dirty nodes of a database that is moved to disk: they become fewer, the
    disk has more, and still the same under the hashes of dirty nodes. *)
Definition disk_agrees (d : Database) : Prop :=
  ∀ h c enc, dirties d !! h = Some c → length h = HashLength → h ≠ hash0 → kv (diskdb d) !! h = Some enc → cn_rlp c = Ok enc.

Record shrinks (d d' : Database) : Prop := {
  sk_entries : ∀ h c, dirties d' !! h = Some c → ∃ c0, dirties d !! h = Some c0 ∧ cn_node c = cn_node c0 ∧ children c = children c0 ∧ parents c = parents c0;
  sk_disk : ∀ h, is_Some (kv (diskdb d) !! h) → is_Some (kv (diskdb d') !! h);
  sk_agrees : disk_agrees d → disk_agrees d';
}.

#[export] Instance shrinks_preorder : PreOrder shrinks.
Proof.
  split; [intros d; split; [eauto | done | done] |]. intros d1 d2 d3 [H1 K1 A1] [H2 K2 A2]. split; [| auto | auto]. intros h c Hc.
  destruct (H2 h c Hc) as (c2 & Hc2 & -> & -> & ->). destruct (H1 h c2 Hc2) as (c1 & ? & -> & -> & ->). by exists c1.
Qed.

(** A step from a database and a batch to others. *)
Record moves (d : Database) (b : Batch) (d' : Database) (b' : Batch) : Prop := {
  mv_ok : database_ok d';
  mv_keeps : keeps d d';
  mv_shrinks : shrinks d d';
  mv_sound : sound_batch d' b';
  mv_secured : ∀ h, secured d b h → secured d' b' h;
}.

Lemma moves_then d1 b1 d2 b2 d3 b3 : moves d1 b1 d2 b2 → moves d2 b2 d3 b3 → moves d1 b1 d3 b3.
Proof. intros [] []. split; [done | by transitivity d2 | by transitivity d2 | done | auto]. Qed.

Lemma moves_here d b : database_ok d → sound_batch d b → moves d b d b.
Proof. intros. split; done || auto. Qed.

Lemma Node_on_disk d h enc : h ≠ hash0 → dirties d !! h = None → kv (diskdb d) !! h = Some enc → Node d h = Ok enc.
Proof. intros Hh Hn Hk. unfold Node. rewrite bool_decide_eq_false_2 by done. by rewrite Hn, Hk. Qed.

Lemma kv_after (b : Batch) : ∀ (m : gmap (list byte) (list byte)) k,
  let m' := foldl (λ m w, <[w.1 := w.2]> m) m b in
  (∃ v, (k, v) ∈ b ∧ m' !! k = Some v) ∨ ((k ∉ b.*1) ∧ m' !! k = m !! k).
Proof.
  induction b as [| [x y] b IH]; intros m k; cbn [foldl fst snd fmap list_fmap]; [right; split; [apply not_elem_of_nil | done] |].
  destruct (IH (<[x := y]> m) k) as [(v & Hin & Hv) | [Hnin Hv]]; [left; exists v; split; [by right | done] |]. rewrite Hv.
  destruct (decide (x = k)) as [-> | Hne]; [left; exists y; by rewrite lookup_insert_eq; split; [left |] |].
  right. rewrite lookup_insert_ne by done. split; [| done]. by apply not_elem_of_cons.
Qed.

(** Writing a sound batch, or failing to. *)
Lemma Write_batch_spec d b : database_ok d → sound_batch d b →
  match Write_batch b d with
  | (Ok _, d') => moves d b d' [] ∧ dirties d' = dirties d ∧ ∀ h enc, (h, enc) ∈ b → length h = HashLength → kv (diskdb d') !! h = Some enc
  | (Err _, d') => moves d b d' b
  | (Panic _, _) => False
  end.
Proof.
  intros Hok Hb. assert (∀ kv' fs, (∀ h, (∃ v, (h, v) ∈ b ∧ kv' !! h = Some v) ∨ kv' !! h = kv (diskdb d) !! h) →
    let d' := set_diskdb {| kv := kv'; faults := fs |} d in database_ok d' ∧ keeps d d' ∧ shrinks d d') as Hdisk.
  { intros kv' fs Hkv d'. destruct Hok as ([order Ho] & He & Hp). split; [split; [| done] |].
    { exists order. destruct Ho. by split. }
    split; [| split; [by intros h c Hc; exists c | intros h Hs; cbn; by destruct (Hkv h) as [(v & _ & ->) | ->]; [eexists |] |]].
    2:{ intros Ha h c enc Hc Hl Hh Hk. cbn in Hc, Hk. destruct (Hkv h) as [(v & Hin & Hv) | Hv]; rewrite Hv in Hk; [| by apply (Ha h c)]. injection Hk as ->.
      destruct (Hb h enc Hin Hl) as [_ Hn]. unfold Node in Hn. by rewrite bool_decide_eq_false_2, Hc in Hn. }
    intros h enc Hl. unfold Node. cbn [dirties diskdb kv d' set_diskdb]. case_bool_decide as Hh; [done |].
    destruct (dirties d !! h) as [c |] eqn:Hc; [done |]. destruct (Hkv h) as [(v & Hin & ->) | ->]; [| done].
    destruct (Hb h v Hin Hl) as [_ Hn]. unfold Node in Hn. rewrite bool_decide_eq_false_2, Hc in Hn by done.
    destruct (kv (diskdb d) !! h) as [e |]; [| done]. injection Hn as ->. done. }
  unfold Write_batch. destruct (faults (diskdb d)) as [| [|] fs] eqn:Hf.
  2:{ destruct (Hdisk (kv (diskdb d)) fs) as (H1 & H2 & H3); [by right |]. split; [done | done | done | by apply (sound_keeps d) |].
    intros h Hs enc Hl Hn. apply Hs; [done |]. by apply (H2 h enc Hl). }
  all: match goal with |- context [set_diskdb {| kv := ?m; faults := ?f |} _] => destruct (Hdisk m f) as (H1 & H2 & H3) end;
    [intros h; destruct (kv_after b (kv (diskdb d)) h) as [? | [_ ?]]; auto |].
  all: assert (∀ h enc, (h, enc) ∈ b → length h = HashLength → foldl (λ m w, <[w.1 := w.2]> m) (kv (diskdb d)) b !! h = Some enc) as Hin
    by (intros h enc Hin Hl; destruct (kv_after b (kv (diskdb d)) h) as [(v & Hv & ->) | [Hn _]];
      [destruct (Hb h enc Hin Hl) as [_ E1], (Hb h v Hv Hl) as [_ E2]; congruence | destruct Hn; apply list_elem_of_fmap; by exists (h, enc)]).
  all: split; [| by split]; split; [done | done | done | by intros h enc ?%not_elem_of_nil |]; intros h Hs enc Hl Hn; right; cbn [diskdb kv set_diskdb];
    apply (H2 h enc Hl) in Hn; destruct (Hs enc Hl Hn) as [? | Hkv]; [by apply Hin |];
    destruct (kv_after b (kv (diskdb d)) h) as [(v & Hv & ->) | [_ ->]]; [| done]; destruct (Hb h v Hv Hl) as [_ E2]; congruence.
Qed.

(** ** The cleaner *)

Lemma same_nodes_Node d d' h : same_nodes d d' → Node d' h = Node d h.
Proof.
  intros (Hd & _ & Hs). unfold Node. rewrite Hd. specialize (Hs h). unfold cn_rlp.
  destruct (dirties d' !! h), (dirties d !! h); try done. by injection Hs as -> _ _ _.
Qed.

Lemma without_ok d d1 h order : database_ok d → same_nodes d d1 → flush_list (without h d1) order → database_ok (without h d1).
Proof.
  intros (_ & He & Hp) Hs Ho. pose proof Hs as (_ & Hpre & _). split; [by eexists | split; [| by rewrite <- Hpre in Hp]].
  intros x cx Hx. cbn [dirties without set_dirties] in Hx. apply lookup_delete_Some in Hx as [_ Hx].
  destruct (same_nodes_at d d1 x cx Hs Hx) as (c0 & Hc0 & Hnode & Hch & _). specialize (He x c0 Hc0). unfold entry_ok, cn_rlp, forChilds in *. by rewrite Hnode, Hch.
Qed.

(** A node that is on disk leaves the dirty nodes. *)
Lemma without_spec d d1 h order : database_ok d → same_nodes d d1 → flush_list (without h d1) order → length h = HashLength → h ≠ hash0 →
  (∀ enc, Node d h = Ok enc → kv (diskdb d) !! h = Some enc) →
  is_Some (dirties d !! h) → database_ok (without h d1) ∧ keeps d (without h d1) ∧ shrinks d (without h d1) ∧ diskdb (without h d1) = diskdb d.
Proof.
  intros Hok Hs Ho Hl Hh Hdisk [c Hc]. pose proof Hok as (_ & He & Hp). pose proof Hs as (Hd & Hpre & Hn). split; [by apply (without_ok d d1 h order) |].
  split; [| split; [| done]].
  - intros x enc Hlx. rewrite <- (same_nodes_Node d d1 x Hs). unfold Node. cbn [dirties diskdb without set_dirties]. case_bool_decide as Hx0; [done |].
    destruct (decide (h = x)) as [<- | Hne]; [| by rewrite lookup_delete_ne]. rewrite lookup_delete_eq, Hd. split.
    + intros Hn'. assert (Node d h = Ok enc) as Hnode by (rewrite <- (same_nodes_Node d d1 h Hs); unfold Node; by rewrite bool_decide_eq_false_2, Hd).
      by rewrite (Hdisk enc Hnode).
    + intros Hkv. destruct (kv (diskdb d) !! h) as [e |] eqn:Ek; [| done]. injection Hkv as ->.
      destruct (He h c Hc Hh) as (_ & Hrlp & _). destruct (cn_rlp c) as [e | |] eqn:Er; [| done..].
      assert (Node d h = Ok e) as Hnode by (unfold Node; by rewrite bool_decide_eq_false_2, Hc). pose proof (Hdisk e Hnode) as [= ->].
      rewrite <- (same_nodes_Node d d1 h Hs) in Hnode. unfold Node in Hnode. by rewrite bool_decide_eq_false_2, Hd, Ek in Hnode by done.
  - assert (∀ x cx, dirties (without h d1) !! x = Some cx → ∃ c0, dirties d !! x = Some c0 ∧ cn_node cx = cn_node c0 ∧ children cx = children c0 ∧ parents cx = parents c0) as Hsub.
    { intros x cx Hx. cbn [dirties without set_dirties] in Hx. apply lookup_delete_Some in Hx as [_ Hx]. by apply (same_nodes_at d d1). }
    split; [done | intros x; cbn [diskdb without set_dirties]; by rewrite Hd |]. intros Ha x cx enc Hx Hlx Hx0 Hk. destruct (Hsub x cx Hx) as (c0 & Hc0 & Hnode & _).
    unfold cn_rlp. rewrite Hnode. apply (Ha x c0 enc); [done.. |]. by rewrite <- Hd.
Qed.

Lemma resized_ok d z : database_ok d → database_ok (add_dirtiesSize z d).
Proof. intros ([order []] & He & Hp). split; [exists order; by split | done]. Qed.

(** Only nodes under [keys] are removed. *)
Definition removes (d d' : Database) (keys : list (list byte)) : Prop := ∀ h, is_Some (dirties d !! h) → is_Some (dirties d' !! h) ∨ h ∈ keys.

(** [cleaner.Put] on a node that is on disk. *)
Lemma cleaner_Put_spec d b h : database_ok d → sound_batch d b → length h = HashLength → h ≠ hash0 →
  (∀ enc, Node d h = Ok enc → kv (diskdb d) !! h = Some enc) →
  ∃ d', cleaner_Put h d = (Ok tt, d') ∧ moves d b d' b ∧ diskdb d' = diskdb d ∧ removes d d' [h].
Proof.
  intros Hok Hb Hl Hh Hdisk. unfold cleaner_Put. rewrite BytesToHash_id by done. unfold mbind at 1, st_bind at 1, st_gets at 1.
  destruct (dirties d !! h) as [c |] eqn:Hc; [| exists d; split; [done |]; split; [by apply moves_here |]; split; [done | by left]].
  pose proof Hok as ([order Ho] & _ & _). assert (h ∈ order) as Hin by (destruct (proj1 (fl_dom d order Ho h)) as [? | ?]; [by eexists | done | done]).
  destruct (unlink_spec d order h c Ho Hin Hc) as (order' & d1 & Hu & Ho' & Hs).
  destruct (without_spec d d1 h order' Hok Hs Ho' Hl Hh Hdisk ltac:(by eexists)) as (Hok' & Hk & Hsh & Hdk).
  unfold mbind, st_bind, st_modify. rewrite Hu. fold (without h d1).
  assert (∀ d', database_ok d' → dirties d' = dirties (without h d1) → diskdb d' = diskdb d → moves d b d' b ∧ diskdb d' = diskdb d ∧ removes d d' [h]) as Hend.
  { intros d' Hok'' Hdd Hdk'. split; [| split; [done |]].
    2:{ intros x [cx Hx]. rewrite Hdd. cbn [dirties without set_dirties]. destruct (decide (h = x)) as [<- | Hne]; [right; by left | left].
      rewrite lookup_delete_ne by done. destruct Hs as (_ & _ & Hs). specialize (Hs x). rewrite Hx in Hs. by destruct (dirties d1 !! x). }
    assert (∀ x, Node d' x = Node (without h d1) x) as Hnn by (intros x; unfold Node; by rewrite Hdd, Hdk', Hdk).
    assert (keeps d d') as Hk' by (intros x enc Hx; rewrite Hnn; by apply Hk).
    split; [done | done | | by apply (sound_keeps d) |].
    { destruct Hsh as [S1 S2 S3]. split; [intros x cx; rewrite Hdd; apply S1 | by rewrite Hdk' |]. intros Ha x cx enc. rewrite Hdd, Hdk', <- Hdk. by apply S3. }
    intros x Hsec enc Hx Hn. rewrite Hdk'. apply Hsec; [done |]. by apply (Hk' x enc Hx). }
  destruct (children c) as [m |]; eexists; (split; [done |]); apply Hend; try done.
  - by apply resized_ok, resized_ok.
  - by apply resized_ok.
Qed.

Lemma Replay_spec keys : ∀ d b, database_ok d → sound_batch d b →
  (∀ h, h ∈ keys → length h = HashLength ∧ h ≠ hash0 ∧ ∀ enc, Node d h = Ok enc → kv (diskdb d) !! h = Some enc) →
  ∃ d', each cleaner_Put keys d = (Ok tt, d') ∧ moves d b d' b ∧ diskdb d' = diskdb d ∧ removes d d' keys.
Proof.
  induction keys as [| h keys IH]; intros d b Hok Hb Hkeys; [exists d; split; [done |]; split; [by apply moves_here |]; split; [done | by left] |].
  destruct (Hkeys h) as (Hl & Hh & Hd); [by left |]. destruct (cleaner_Put_spec d b h Hok Hb Hl Hh Hd) as (d1 & H1 & Hm & Hdk & Hr1).
  cbn [each]. unfold mbind, st_bind. rewrite H1. destruct (IH d1 b (mv_ok _ _ _ _ Hm) (mv_sound _ _ _ _ Hm)) as (d2 & -> & Hm2 & Hdk2 & Hr2).
  - intros x Hx. destruct (Hkeys x) as (Hlx & Hx0 & Hdx); [by right |]. split; [done |]. split; [done |]. intros enc Hn. rewrite Hdk. apply Hdx.
    by apply (mv_keeps _ _ _ _ Hm x enc Hlx).
  - exists d2. split; [done |]. split; [by apply (moves_then _ _ d1 b) |]. split; [congruence |].
    intros x Hx. destruct (Hr1 x Hx) as [Hx1 | ->%list_elem_of_singleton]; [| right; by left]. destruct (Hr2 x Hx1); [by left | right; by right].
Qed.

(** A batch of nodes that is written and replayed. *)
Lemma flush_spec d b : database_ok d → sound_batch d b → Forall (λ w, length w.1 = HashLength) b →
  match (Write_batch b;; Replay b) d with
  | (Ok _, d') => moves d b d' [] ∧ removes d d' b.*1
  | (Err _, d') => moves d b d' b
  | (Panic _, _) => False
  end.
Proof.
  intros Hok Hb Hlen. unfold mbind, st_bind. pose proof (Write_batch_spec d b Hok Hb) as Hw. destruct (Write_batch b d) as [[[] | e | m] d1]; [| done | done].
  destruct Hw as (Hm & Hdd & Hkv). unfold Replay. destruct (Replay_spec b.*1 d1 [] (mv_ok _ _ _ _ Hm) (mv_sound _ _ _ _ Hm)) as (d2 & -> & Hm2 & _ & Hr).
  - intros h Hin. apply list_elem_of_fmap in Hin as ([h' enc] & -> & Hin). rewrite Forall_forall in Hlen. specialize (Hlen _ Hin). cbn [fst] in *.
    destruct (Hb h' enc Hin Hlen) as [Hh Hn]. split; [done |]. split; [done |]. intros enc' Hn'. rewrite (Hkv h' enc Hin Hlen).
    apply (mv_keeps _ _ _ _ Hm h' enc Hlen) in Hn. congruence.
  - split; [by apply (moves_then _ _ d1 []) |]. unfold removes in *. by rewrite Hdd in Hr.
Qed.

(** ** commit *)

Section Commit.
  (** The database at the start. *)
  Context (d0 : Database).

(** The nodes that are reached from a dirty node. *)
Inductive reach : list byte → list byte → Prop :=
  | reach_here h : reach h h
  | reach_child h c l y x : dirties d0 !! h = Some c → forChilds c = Ok l → y ∈ l → reach y x → reach h x.

Definition done_with (d : Database) (b : Batch) (h : list byte) : Prop := ∀ x, reach h x → secured d b x.

Record commit_inv (d : Database) (b : Batch) : Prop := {
  ci_ok : database_ok d;
  ci_sound : sound_batch d b;
  ci_hashes : Forall (λ w, length w.1 = HashLength) b;
  ci_shrinks : shrinks d0 d;
  ci_done : ∀ h, is_Some (dirties d0 !! h) → dirties d !! h = None ∨ h ∈ b.*1 → done_with d b h;
}.

(** The references have no cycles and do not lead to the meta root. *)
Context (rank : list byte → nat).
Context (ranked : ∀ h c l, dirties d0 !! h = Some c → forChilds c = Ok l →
  ∀ x, x ∈ l → x ≠ hash0 ∧ (is_Some (dirties d0 !! x) → (rank x < rank h)%nat)).

(** The result of [commit]. *)
Definition committed (d : Database) (b : Batch) (h : list byte) (res : outcome Batch * Database) : Prop :=
  match res with
  | (Ok b', d') => moves d b d' b' ∧ commit_inv d' b' ∧ done_with d' b' h
  | (Err _, d') => ∃ b', moves d b d' b'
  | (Panic _, _) => False
  end.

Lemma done_moves d b d' b' h : moves d b d' b' → done_with d b h → done_with d' b' h.
Proof. intros Hm Hd x Hx. by apply (mv_secured _ _ _ _ Hm), Hd. Qed.

Lemma secured_clean d b h : dirties d !! h = None → secured d b h.
Proof.
  intros Hn enc Hl He. right. unfold Node in He. case_bool_decide; [done |]. rewrite Hn in He. destruct (kv (diskdb d) !! h); [by injection He as -> | done].
Qed.

Lemma commit_each_spec f l : (∀ h b d, h ∈ l → commit_inv d b → committed d b h (f h b d)) → ∀ b d, commit_inv d b →
  match commit_each f l b d with
  | (Ok b', d') => moves d b d' b' ∧ commit_inv d' b' ∧ ∀ h, h ∈ l → done_with d' b' h
  | (Err _, d') => ∃ b', moves d b d' b'
  | (Panic _, _) => False
  end.
Proof.
  induction l as [| h l IH]; intros Hf b d Hi; cbn [commit_each].
  { split; [apply moves_here; apply Hi |]. split; [done |]. by intros h ?%not_elem_of_nil. }
  unfold mbind, st_bind. pose proof (Hf h b d ltac:(by left) Hi) as Hc. destruct (f h b d) as [[b1 | e | m] d1]; [| done | done].
  destruct Hc as (Hm & Hi1 & Hd1). specialize (IH ltac:(intros; apply Hf; [by right | done]) b1 d1 Hi1).
  destruct (commit_each f l b1 d1) as [[b2 | e | m] d2]; [| destruct IH as [b2 IH]; exists b2; by apply (moves_then _ _ d1 b1) | done].
  destruct IH as (Hm2 & Hi2 & Hd2). split; [by apply (moves_then _ _ d1 b1) |]. split; [done |].
  intros x [-> | Hx]%elem_of_cons; [by apply (done_moves d1 b1) | auto].
Qed.

(** A node whose children are done joins the batch. *)
Lemma join_batch d b h c l enc : commit_inv d b → h ≠ hash0 → dirties d0 !! h = Some c → forChilds c = Ok l →
  (∀ y, y ∈ l → done_with d b y) → Node d h = Ok enc → length h = HashLength →
  moves d b d (b ++ [(h, enc)]) ∧ commit_inv d (b ++ [(h, enc)]) ∧ done_with d (b ++ [(h, enc)]) h.
Proof.
  intros [Hok Hb Hl Hsh Hdone] Hh Hc Hch Hd Hn Hlen.
  assert (sound_batch d (b ++ [(h, enc)])) as Hb' by (intros x e [Hin | [= -> ->]%list_elem_of_singleton]%elem_of_app Hx; [by apply Hb | done]).
  assert (∀ x, secured d b x → secured d (b ++ [(h, enc)]) x) as Hsec by (intros x Hs e Hx He; destruct (Hs e Hx He); [left; apply elem_of_app; by left | by right]).
  assert (done_with d (b ++ [(h, enc)]) h) as Hdh.
  { intros x Hx. inversion Hx as [| ? c' l' y ? Hc' Hch' Hy Hr]; subst; [| rewrite Hc in Hc'; injection Hc' as <-; rewrite Hch in Hch'; injection Hch' as <-; by apply Hsec, (Hd y)].
    intros e _ He. left. rewrite Hn in He. injection He as <-. apply elem_of_app. right. by left. }
  split; [split; [done | done | done | done | done] |]. split; [| done]. split; [done | done | apply Forall_app; split; [done | by repeat constructor] | done |].
  intros x Hx Hor y Hy. destruct (decide (x = h)) as [-> | Hne]; [by apply Hdh |]. apply Hsec, (Hdone x Hx); [| done].
  destruct Hor as [? | Hin]; [by left | right]. rewrite fmap_app in Hin. apply elem_of_app in Hin as [? | ->%list_elem_of_singleton]; done.
Qed.

Lemma flushed_inv d b d' : commit_inv d b → moves d b d' [] → removes d d' b.*1 → commit_inv d' [].
Proof.
  intros Hi Hm Hr. split; [apply Hm | apply Hm | done | transitivity d; [apply Hi | apply Hm] |]. intros x Hx [Hnone | ?%not_elem_of_nil]; [| done].
  apply (done_moves d b d' [] x Hm), (ci_done _ _ Hi x Hx). destruct (dirties d !! x) as [c |] eqn:Hc; [right | by left].
  destruct (Hr x ltac:(by eexists)) as [[? ?] | ?]; [congruence | done].
Qed.

Lemma commit_spec fuel : ∀ h b d, commit_inv d b → h ≠ hash0 → (0 < fuel)%nat → (is_Some (dirties d0 !! h) → (S (rank h) < fuel)%nat) →
  committed d b h (commit fuel h b d).
Proof.
  induction fuel as [| fuel IH]; intros h b d Hi Hh Hf0 Hf; [lia |]. cbn [commit]. unfold mbind at 1, st_bind at 1, st_gets at 1.
  destruct (dirties d !! h) as [c |] eqn:Hc.
  2:{ split; [apply moves_here; apply Hi |]. split; [done |]. destruct (dirties d0 !! h) as [c0 |] eqn:Hc0; [apply (ci_done _ _ Hi); [by eexists | by left] |].
    intros x Hx. inversion Hx as [| ? c' l' y ? Hc']; subst; [by apply secured_clean | congruence]. }
  destruct (sk_entries _ _ (ci_shrinks _ _ Hi) h c Hc) as (c0 & Hc0 & Hnode & Hchild & _). destruct (ci_ok _ _ Hi) as (_ & He & _).
  destruct (He h c Hc Hh) as (Hlen & Hrlp & Hchs). destruct (forChilds c) as [l | |] eqn:Hl; [| done..]. destruct (cn_rlp c) as [enc | |] eqn:Henc; [| done..].
  assert (forChilds c0 = Ok l) as Hl0 by (unfold forChilds in *; by rewrite <- Hnode, <- Hchild).
  specialize (Hf ltac:(by eexists)). unfold mbind at 1, st_bind at 1, st_lift at 1. unfold mbind at 1, st_bind at 1.
  pose proof (commit_each_spec (commit fuel) l) as Hev. specialize (Hev ltac:(intros x b' d' Hx Hi'; destruct (ranked h c0 l Hc0 Hl0 x Hx) as [Hx0 Hr]; apply IH; [done | done | lia | intros Hs; specialize (Hr Hs); lia]) b d Hi).
  destruct (commit_each (commit fuel) l b d) as [[b1 | e | m] d1]; [| done | done]. destruct Hev as (Hm & Hi1 & Hd1).
  unfold mbind at 1, st_bind at 1, st_lift at 1.
  assert (Node d1 h = Ok enc) as Hn by (apply (mv_keeps _ _ _ _ Hm h enc Hlen); unfold Node; by rewrite bool_decide_eq_false_2, Hc).
  destruct (join_batch d1 b1 h c0 l enc Hi1 Hh Hc0 Hl0 Hd1 Hn Hlen) as (Hm2 & Hi2 & Hd2).
  destruct (IdealBatchSize <=? _); [| split; [by apply (moves_then _ _ d1 b1) | by split]].
  pose proof (flush_spec d1 _ (ci_ok _ _ Hi2) (ci_sound _ _ Hi2) (ci_hashes _ _ Hi2)) as Hfl. pose proof (moves_then _ _ _ _ _ _ Hm Hm2) as Hm'.
  unfold mbind, st_bind in Hfl |- *. destruct (Write_batch _ d1) as [[[] | e | m] d2]; [| by eexists; apply (moves_then _ _ d1 (b1 ++ [(h, enc)])) | done].
  destruct (Replay _ d2) as [[[] | e | m] d3]; [| by eexists; apply (moves_then _ _ d1 (b1 ++ [(h, enc)])) | done]. destruct Hfl as [Hm3 Hr].
  split; [by apply (moves_then _ _ d1 (b1 ++ [(h, enc)])) |]. split; [| by apply (done_moves d1 (b1 ++ [(h, enc)]))]. by apply (flushed_inv d1 (b1 ++ [(h, enc)])).
Qed.

End Commit.

(** ** Commit *)

Lemma secureKey_length h : length h = HashLength → length (secureKey h) ≠ HashLength.
Proof. intros Hl. unfold secureKey. rewrite length_app, Hl. by cbv. Qed.

(** Batches of preimages have no keys that are hashes. *)
Definition no_hashes (b : Batch) : Prop := Forall (λ w, length w.1 ≠ HashLength) b.

Lemma no_hashes_in b h enc : no_hashes b → (h, enc) ∈ b → length h ≠ HashLength.
Proof. intros Hb Hin. unfold no_hashes in Hb. rewrite Forall_forall in Hb. by apply (Hb _ Hin). Qed.

Lemma no_hashes_sound d b : no_hashes b → sound_batch d b.
Proof. intros Hb h enc Hin Hl. by apply (no_hashes_in b h enc) in Hin. Qed.

Lemma no_hashes_secured d b b' h : no_hashes b → secured d (b' ++ b) h ↔ secured d b' h.
Proof.
  intros Hb. split; intros Hs enc Hl Hn; destruct (Hs enc Hl Hn) as [Hin | ?]; [| by right | left; apply elem_of_app; by left | by right].
  apply elem_of_app in Hin as [? | Hin]; [by left | by apply (no_hashes_in b h enc) in Hin].
Qed.

Lemma moves_no_hashes d b d' b' : no_hashes b → no_hashes b' → moves d b d' b' → moves d [] d' [].
Proof.
  intros Hb Hb' [Hok Hk Hsh _ Hsec]. split; [done | done | done | by intros ? ? ?%not_elem_of_nil |]. intros h Hs.
  apply (no_hashes_secured d' b' [] h Hb'), Hsec. by apply (no_hashes_secured d b [] h Hb).
Qed.

Lemma Write_preimages d b : database_ok d → no_hashes b →
  match Write_batch b d with (Panic _, _) => False | (_, d') => moves d [] d' [] end.
Proof.
  intros Hok Hb. pose proof (Write_batch_spec d b Hok (no_hashes_sound d b Hb)) as Hw.
  destruct (Write_batch b d) as [[[] | e | m] d']; [| by apply (moves_no_hashes _ b _ b) | done].
  destruct Hw as (Hm & _). by apply (moves_no_hashes _ b _ []); [| constructor |].
Qed.

(** Writes change the disk only. *)
Lemma Write_batch_frame b d : ∃ disk, (Write_batch b d).2 = set_diskdb disk d.
Proof. unfold Write_batch. destruct (faults (diskdb d)) as [| [|] fs]; by eexists. Qed.

Lemma put_preimages_frame l : ∀ b d, ∃ disk, (put_preimages l b d).2 = set_diskdb disk d.
Proof.
  induction l as [| [h p] l IH]; intros b d; cbn [put_preimages]; [exists (diskdb d); by destruct d |].
  destruct (IdealBatchSize <? _); [| apply IH]. unfold mbind, st_bind. pose proof (Write_batch_frame (b ++ [(secureKey h, p)]) d) as [disk Hw].
  destruct (Write_batch _ d) as [[[] | e | m] d1]; cbn [snd] in *; subst d1; [| by eexists..]. apply (IH [] (set_diskdb disk d)).
Qed.

Lemma put_preimages_spec l : Forall (λ w, length w.1 = HashLength) l → ∀ b d, database_ok d → no_hashes b →
  match put_preimages l b d with
  | (Ok b', d') => moves d [] d' [] ∧ no_hashes b'
  | (Err _, d') => moves d [] d' []
  | (Panic _, _) => False
  end.
Proof.
  induction 1 as [| [h p] l Hl _ IH]; intros b d Hok Hb; cbn [put_preimages].
  { split; [apply moves_here; [done | by intros ? ? ?%not_elem_of_nil] | done]. }
  assert (no_hashes (b ++ [(secureKey h, p)])) as Hb' by (apply Forall_app; split; [done |]; constructor; [by apply secureKey_length | done]).
  destruct (IdealBatchSize <? _); [| by apply IH]. unfold mbind, st_bind. pose proof (Write_preimages d _ Hok Hb') as Hm.
  destruct (Write_batch _ d) as [[[] | e | m] d1]; [| done | done].
  specialize (IH [] d1 (mv_ok _ _ _ _ Hm) ltac:(by constructor)). destruct (put_preimages l [] d1) as [[b' | e | m] d2]; [| by apply (moves_then _ _ d1 []) | done].
  destruct IH as [Hm2 ?]. split; [by apply (moves_then _ _ d1 []) | done].
Qed.

Lemma preimages_hashes d : database_ok d → Forall (λ w, length w.1 = HashLength) (map_to_list (preimages d)).
Proof. intros (_ & _ & Hp). apply Forall_forall. intros [h p] Hin. apply elem_of_map_to_list in Hin. by apply (Hp h p). Qed.

Lemma clear_preimages_ok d : database_ok d → database_ok (set_preimages ∅ 0 d) ∧ keeps d (set_preimages ∅ 0 d).
Proof. intros ([order []] & He & _). split; [split; [exists order; by split | split; [done | apply map_Forall_empty]] | done]. Qed.

(** The children of an entry. *)
Definition child_list (c : cachedNode) : list (list byte) := match forChilds c with Ok l => l | _ => [] end.

(** References without cycles that do not lead to the meta root. *)
Definition acyclic (d : Database) (rank : list byte → nat) : Prop :=
  ∀ h c x, dirties d !! h = Some c → x ∈ child_list c → x ≠ hash0 ∧ (is_Some (dirties d !! x) → (rank x < rank h)%nat).

(** A rank that counts the nodes below is less than the number of nodes. *)
Lemma acyclic_ranked d rank : acyclic d rank → ∃ rk : list byte → nat,
  (∀ h c l, dirties d !! h = Some c → forChilds c = Ok l → ∀ x, x ∈ l → x ≠ hash0 ∧ (is_Some (dirties d !! x) → (rk x < rk h)%nat)) ∧
  ∀ h, is_Some (dirties d !! h) → (rk h < base.size (dirties d))%nat.
Proof.
  intros Ha. set (below h := filter (λ z, (rank z < rank h)%nat) (dom (dirties d))). exists (λ h, base.size (below h)). split.
  - intros h c l Hc Hl x Hx. destruct (Ha h c x Hc ltac:(unfold child_list; by rewrite Hl)) as [Hx0 Hr]. split; [done |]. intros Hs. specialize (Hr Hs).
    apply subset_size. split.
    + intros z. unfold below. rewrite !elem_of_filter. intros [? ?]. split; [lia | done].
    + intros Hsub. assert (x ∈ below x) as Hin by (apply Hsub; unfold below; rewrite elem_of_filter, elem_of_dom; done). unfold below in Hin. rewrite elem_of_filter in Hin. lia.
  - intros h Hs. rewrite <- size_dom. apply subset_size. split.
    + intros z. unfold below. rewrite elem_of_filter. tauto.
    + intros Hsub. apply elem_of_dom in Hs. specialize (Hsub h Hs). unfold below in Hsub. rewrite elem_of_filter in Hsub. lia.
Qed.

(** What moving nodes to disk achieves. *)
Definition settled (d d' : Database) : Prop := database_ok d' ∧ keeps d d' ∧ shrinks d d'.

Lemma moves_settled d b d' b' : moves d b d' b' → settled d d'.
Proof. by intros []. Qed.

Lemma settled_trans d1 d2 d3 : settled d1 d2 → settled d2 d3 → settled d1 d3.
Proof. intros (_ & K1 & S1) (H & K2 & S2). split; [done |]. split; by transitivity d2. Qed.

Lemma clear_preimages_settled d d' : settled d d' → settled d (set_preimages ∅ 0 d').
Proof.
  intros (Hok & Hk & Hs). destruct (clear_preimages_ok d' Hok) as [Hok' Hk']. split; [done |]. split; [by transitivity d' |]. by destruct Hs.
Qed.

Lemma Commit_settles (d : Database) (root : list byte) (rank : list byte → nat) :
  database_ok d → root ≠ hash0 → acyclic d rank →
  match Commit_database root d with
  | (Ok _, d') => settled d d' ∧ ∀ x enc, reach d root x → length x = HashLength → Node d x = Ok enc → kv (diskdb d') !! x = Some enc
  | (Err _, d') => settled d d'
  | (Panic _, _) => False
  end.
Proof.
  intros Hok Hroot Ha. destruct (acyclic_ranked d rank Ha) as (rk & Hrank & Hsize). unfold Commit_database. unfold mbind at 1, st_bind at 1, st_gets at 1. unfold mbind at 1, st_bind at 1.
  pose proof (put_preimages_spec _ (preimages_hashes d Hok) [] d Hok ltac:(by constructor)) as Hp.
  pose proof (put_preimages_frame (map_to_list (preimages d)) [] d) as [k1 Hd1].
  destruct (put_preimages _ [] d) as [[b1 | e | m] d1]; [| exact (moves_settled _ _ _ _ Hp) | done]. destruct Hp as [Hm1 Hb1].
  unfold mbind at 1, st_bind at 1. pose proof (Write_preimages d1 b1 (mv_ok _ _ _ _ Hm1) Hb1) as Hm2. pose proof (Write_batch_frame b1 d1) as [k2 Hd2].
  destruct (Write_batch b1 d1) as [[[] | e | m] d2]; [| exact (moves_settled _ _ _ _ (moves_then _ _ _ _ _ _ Hm1 Hm2)) | done].
  assert (dirties d2 = dirties d) as Hd by (cbn [snd] in *; by subst d2 d1).
  pose proof (moves_then _ _ _ _ _ _ Hm1 Hm2) as Hm. unfold mbind at 1, st_bind at 1, st_gets at 1. unfold mbind at 1, st_bind at 1.
  assert (commit_inv d d2 []) as Hi.
  { split; [apply Hm | by intros ? ? ?%not_elem_of_nil | constructor | apply Hm |]. intros h [c Hc] [Hn | ?%not_elem_of_nil]; [congruence | done]. }
  pose proof (commit_spec d rk Hrank (S (base.size (dirties d2))) root [] d2 Hi Hroot ltac:(lia)) as Hc.
  specialize (Hc ltac:(intros Hs; rewrite Hd; specialize (Hsize root Hs); lia)). unfold committed in Hc.
  destruct (commit _ root [] d2) as [[b3 | e | m] d3]; [| destruct Hc as [b' Hc]; exact (moves_settled _ _ _ _ (moves_then _ _ _ _ _ _ Hm Hc)) | done].
  destruct Hc as (Hm3 & Hi3 & Hd3). pose proof (moves_then _ _ _ _ _ _ Hm Hm3) as Hm'.
  pose proof (flush_spec d3 b3 (ci_ok _ _ _ Hi3) (ci_sound _ _ _ Hi3) (ci_hashes _ _ _ Hi3)) as Hf. unfold mbind, st_bind in Hf |- *.
  destruct (Write_batch b3 d3) as [[[] | e | m] d4]; [| exact (moves_settled _ _ _ _ (moves_then _ _ _ _ _ _ Hm' Hf)) | done].
  destruct (Replay b3 d4) as [[[] | e | m] d5]; [| exact (moves_settled _ _ _ _ (moves_then _ _ _ _ _ _ Hm' Hf)) | done]. destruct Hf as [Hm5 _].
  pose proof (moves_then _ _ _ _ _ _ Hm' Hm5) as Hend. cbn [st_modify]. split; [apply clear_preimages_settled, (moves_settled _ _ _ _ Hend) |]. intros x enc Hx Hlx Hn.
  pose proof (done_moves d d3 b3 d5 [] root Hm5 Hd3 x Hx) as Hs. apply (mv_keeps _ _ _ _ Hend x enc Hlx) in Hn.
  destruct (Hs enc Hlx Hn) as [?%not_elem_of_nil | ?]; done.
Qed.

(** C12: Committing a root to disk loses no node: whether the batches are written or one of the writes
    fails, every node reads as before, from memory or from disk, the flush list stays well-formed
    and nothing panics; after a success every node that is reached from the root is on disk. *)
Theorem Commit_keeps_nodes (d : Database) (root : list byte) (rank : list byte → nat) :
  database_ok d → root ≠ hash0 → acyclic d rank →
  match Commit_database root d with
  | (Ok _, d') => database_ok d' ∧ keeps d d' ∧
      ∀ x enc, reach d root x → length x = HashLength → Node d x = Ok enc → kv (diskdb d') !! x = Some enc
  | (Err _, d') => database_ok d' ∧ keeps d d'
  | (Panic _, _) => False
  end.
Proof.
  intros Hok Hroot Ha. pose proof (Commit_settles d root rank Hok Hroot Ha) as Hc. destruct (Commit_database root d) as [[[] | e | m] d'].
  - destruct Hc as [(? & ? & _) ?]. done.
  - by destruct Hc as (? & ? & _).
  - done.
Qed.
