(* ===== verification/TrieCap.v ===== *)
(** [Database.Cap] of src/l2geth/trie/database.go: it moves the oldest nodes of
    the flush list to disk, in their order, until the nodes that are left fit
    the limit, and loses none of them, whether its writes succeed or not. *)

From Stdlib Require Import ZArith Lia.
From stdpp Require Import base list gmap.
From S2P Require Import Prelude TrieNode TrieDatabase TrieDatabaseFacts TrieFlush.

#[local] Open Scope Z_scope.
#[local] Opaque hash0.

(** ** Databases that differ in their counters *)

Definition same_data (d d' : Database) : Prop :=
  diskdb d' = diskdb d ∧ dirties d' = dirties d ∧ oldest d' = oldest d ∧ newest d' = newest d ∧ preimages d' = preimages d.

Lemma same_data_flush d d' order : same_data d d' → flush_list d order → flush_list d' order.
Proof. intros (_ & Hd & Ho & Hn & _) []. split; rewrite ?Hd, ?Ho, ?Hn; done. Qed.

Lemma same_data_ok d d' : same_data d d' → database_ok d → database_ok d'.
Proof.
  intros Hs ([order Ho] & He & Hp). split; [exists order; by apply (same_data_flush d) |]. destruct Hs as (_ & Hd & _ & _ & Hpre). by rewrite Hd, Hpre.
Qed.

Lemma same_data_keeps d d' : same_data d d' → keeps d d'.
Proof. intros (Hk & Hd & _) h enc _. unfold Node. by rewrite Hk, Hd. Qed.

Lemma same_data_settled d d' : same_data d d' → database_ok d → settled d d'.
Proof.
  intros Hs Hok. split; [by apply (same_data_ok d) |]. split; [by apply same_data_keeps |]. destruct Hs as (Hk & Hd & _).
  split; unfold disk_agrees; rewrite ?Hk, ?Hd; [eauto | done | done].
Qed.

Lemma set_diskdb_flush disk d order : flush_list d order → flush_list (set_diskdb disk d) order.
Proof. intros []. by split. Qed.

(** ** What a node costs *)

Definition node_cost (c : cachedNode) : Z :=
  32 + cn_size c + cachedNodeSize + match children c with Some m => cachedNodeChildrenSize + Z.of_nat (base.size m) * (32 + 2) | None => 0 end.

Fixpoint cost (m : gmap (list byte) cachedNode) (l : list (list byte)) : Z :=
  match l with
  | [] => 0
  | h :: l => match m !! h with Some c => node_cost c | None => 0 end + cost m l
  end.

Lemma cost_app m l1 l2 : cost m (l1 ++ l2) = cost m l1 + cost m l2.
Proof. induction l1 as [| h l1 IH]; [done |]. cbn [app cost]. rewrite IH. lia. Qed.

Lemma cost_delete m h l : h ∉ l → cost (base.delete h m) l = cost m l.
Proof.
  induction l as [| x l IH]; [done |]. intros Hn. apply not_elem_of_cons in Hn as [Hne Hn]. cbn [cost].
  rewrite IH by done. by rewrite lookup_delete_ne.
Qed.

(** ** The loop that writes *)

Lemma flush_entry d pre h rest : database_ok d → flush_list d (pre ++ h :: rest) →
  ∃ c enc, dirties d !! h = Some c ∧ cn_rlp c = Ok enc ∧ h ≠ hash0 ∧ Node d h = Ok enc ∧ flushNext c = default hash0 (head rest) ∧ length h = HashLength.
Proof.
  intros (_ & He & _) [_ _ Hm _ _ Hch]. assert (h ≠ hash0) as Hh by (intros ->; apply Hm, elem_of_app; right; by left).
  apply chain_app in Hch as [_ [(c & Hc & _ & Hnext) _]]. destruct (He h c Hc Hh) as (Hl & Hr & _). destruct (cn_rlp c) as [enc | |] eqn:Er; [| done..].
  exists c, enc. split; [done |]. split; [done |]. split; [done |]. split; [| done]. unfold Node. by rewrite bool_decide_eq_false_2, Hc.
Qed.

(** A node joins the batch, which is written when it is large. *)
Lemma cap_write d b h enc : database_ok d → sound_batch d b → h ≠ hash0 → Node d h = Ok enc →
  let b1 := b ++ [(h, enc)] in
  match write_large b1 d with
  | (Ok b', d') => moves d b d' b' ∧ secured d' b' h ∧ ∃ k, d' = set_diskdb k d
  | (Err _, d') => ∃ b', moves d b d' b'
  | (Panic _, _) => False
  end.
Proof.
  intros Hok Hb Hh Hn b1.
  assert (sound_batch d b1) as Hb1.
  { intros x e Hin Hl. apply elem_of_app in Hin as [Hin | Hin]; [by apply Hb |]. apply list_elem_of_singleton in Hin as [= -> ->]. done. }
  assert (moves d b d b1) as Hm1.
  { split; [done | done | done | done |]. intros x Hs e Hl He. destruct (Hs e Hl He); [left; apply elem_of_app; by left | by right]. }
  assert (secured d b1 h) as Hsec by (intros e _ He; left; apply elem_of_app; right; rewrite Hn in He; injection He as ->; by left).
  unfold write_large. destruct (IdealBatchSize <=? _); [| split; [done |]; split; [done |]; exists (diskdb d); by destruct d]. unfold mbind, st_bind. pose proof (Write_batch_spec d b1 Hok Hb1) as Hw.
  destruct (Write_batch_frame b1 d) as [disk Hf]. destruct (Write_batch b1 d) as [[[] | e | m] d']; [| exists b1; by apply (moves_then _ _ d b1) | done].
  cbn [snd] in Hf. destruct Hw as (Hm2 & Hd & _). split; [by apply (moves_then _ _ d b1) |]. split; [by apply (mv_secured _ _ _ _ Hm2) | by exists disk].
Qed.

(** The result of the loop: the nodes of [pre] are secured, those of [rest]
    stay, and fit the limit when there are any. *)
Definition capped (d : Database) (order : list (list byte)) (b : Batch) (limit S0 : Z) (res : outcome (Batch * list byte) * Database) : Prop :=
  match res with
  | (Ok (b', old), d') => ∃ pre rest, pre ++ rest = order ∧ old = default hash0 (head rest) ∧ moves d b d' b' ∧
      (∀ h, h ∈ pre → secured d' b' h) ∧ (∃ k, d' = set_diskdb k d) ∧ (S0 - cost (dirties d) pre ≤ limit ∨ rest = [])
  | (Err _, d') => ∃ b', moves d b d' b'
  | (Panic _, _) => False
  end.

Lemma cap_loop_spec limit S0 rest : ∀ pre fuel sz b d, database_ok d → flush_list d (pre ++ rest) → sound_batch d b →
  (∀ h, h ∈ pre → secured d b h) → (length rest ≤ fuel)%nat → sz = S0 - cost (dirties d) pre →
  capped d (pre ++ rest) b limit S0 (cap_loop fuel limit sz (default hash0 (head rest)) b d).
Proof.
  induction rest as [| h rest IH]; intros pre fuel sz b d Hok Ho Hb Hpre Hf Hsz.
  { destruct fuel; cbn [cap_loop head default from_option]; rewrite (bool_decide_eq_true_2 (hash0 = hash0)), andb_false_r by done;
      exists pre, []; (split; [done |]; split; [done |]; split; [by apply moves_here |]; split; [done |]; split; [exists (diskdb d); by destruct d | by right]). }
  destruct (flush_entry d pre h rest Hok Ho) as (c & enc & Hc & Hr & Hh & Hn & Hnext & _). destruct fuel as [| fuel]; [cbn in Hf; lia |].
  cbn [cap_loop head default from_option id]. rewrite bool_decide_eq_false_2 by done. cbn [negb]. rewrite andb_true_r.
  destruct (limit <? sz) eqn:El.
  2:{ exists pre, (h :: rest). split; [done |]. split; [done |]. split; [by apply moves_here |]. split; [done |]. split; [exists (diskdb d); by destruct d |]. left. apply Z.ltb_ge in El. lia. }
  unfold mbind at 1, st_bind at 1, dirty_at at 1. rewrite Hc. unfold mbind at 1, st_bind at 1, st_lift at 1. rewrite Hr. unfold mbind at 1, st_bind at 1.
  pose proof (cap_write d b h enc Hok Hb Hh Hn) as Hw. cbn zeta in Hw |- *.
  destruct (write_large _ d) as [[b1 | e | m] d1]; [| exact Hw | exact Hw].
  destruct Hw as (Hm1 & Hs1 & k & ->). rewrite Hnext. pose proof (set_diskdb_flush k d _ Ho) as Ho1.
  match goal with |- capped _ _ _ _ _ (cap_loop fuel limit ?s _ b1 _) => assert (s = S0 - cost (dirties (set_diskdb k d)) (pre ++ [h])) as Hs end.
  { rewrite cost_app. cbn [dirties set_diskdb]. cbn [cost]. rewrite Hc, Hsz. unfold node_cost. destruct (children c); lia. }
  rewrite (cons_middle h pre rest), app_assoc in Ho1 |- *.
  match type of Hs with ?s = _ => specialize (IH (pre ++ [h]) fuel s b1 (set_diskdb k d) (mv_ok _ _ _ _ Hm1) Ho1 (mv_sound _ _ _ _ Hm1)) end. unfold capped in *.
  specialize (IH ltac:(intros x [Hx | ->%list_elem_of_singleton]%elem_of_app; [by apply (mv_secured _ _ _ _ Hm1), Hpre | done]) ltac:(cbn in Hf; lia) Hs).
  destruct (cap_loop fuel limit _ _ b1 _) as [[[b2 old] | e | m] d2]; [| destruct IH as [b2 IH]; exists b2; by apply (moves_then _ _ (set_diskdb k d) b1) | done].
  destruct IH as (pre' & rest' & ? & ? & ? & ? & (k' & ->) & ?). exists pre', rest'. split; [done |]. split; [done |]. split; [by apply (moves_then _ _ (set_diskdb k d) b1) |].
  split; [done |]. split; [by exists k' | done].
Qed.

(** ** The loop that removes *)

Lemma drop_first d h l c : flush_list d (h :: l) → dirties d !! h = Some c → flush_list (without h (set_oldest (flushNext c) d)) l.
Proof.
  intros Hf Hc. pose proof Hf as [Hnd Hdom Hm Ho Hn [(c' & Hc' & _ & Hnext) Hch]]. rewrite Hc in Hc'. injection Hc' as <-. apply NoDup_cons in Hnd as [Hnin Hnd'].
  split; [done | | set_solver | done | |].
  - apply (dom_without d _ h (h :: l)); [done | done | done | | done | by left]. intros x. apply elem_of_cons.
  - intros Hne. cbn [newest without set_dirties set_oldest]. rewrite <- Hn by done. rewrite last_cons. by destruct (last l) eqn:E; [| apply last_None in E].
  - cbn [dirties without set_dirties set_oldest]. apply chain_delete; [done |]. by apply (chain_any_prev _ (Some h)).
Qed.

Lemma Size_without d d' h c : h ≠ hash0 → dirties d !! h = Some c → dirties d' = base.delete h (dirties d) →
  dirtiesSize d' + childrenSize d' = dirtiesSize d + childrenSize d - (node_cost c - cachedNodeSize) → Size d' = Size d - node_cost c.
Proof.
  intros Hh Hc Hd Hs. unfold Size, metaroot_refs. rewrite Hd, lookup_delete_ne by done. rewrite map_size_delete_Some by (by eexists).
  assert (base.size (dirties d) ≠ 0%nat) by (intros Hz; apply map_size_empty_inv in Hz; by rewrite Hz, lookup_empty in Hc). unfold cachedNodeSize in *. lia.
Qed.

(** One round of the loop. *)
Lemma uncache_round d h l fuel old : database_ok d → flush_list d (h :: l) → secured d [] h → old ≠ h →
  ∃ d' c, uncache_loop (S fuel) old d = uncache_loop fuel old d' ∧ dirties d !! h = Some c ∧ settled d d' ∧ flush_list d' l ∧
    diskdb d' = diskdb d ∧ dirties d' = base.delete h (dirties d) ∧ Size d' = Size d - node_cost c.
Proof.
  intros Hok Ho Hs Hne. destruct (flush_entry d [] h l Hok Ho) as (c & enc & Hc & Hr & Hh & Hn & Hnext & Hl).
  assert (oldest d = h) as Hold by apply (fl_oldest d _ Ho). set (d1 := without h (set_oldest (flushNext c) d)).
  pose proof (drop_first d h l c Ho Hc) as Ho1. fold d1 in Ho1.
  destruct (without_spec d (set_oldest (flushNext c) d) h l Hok ltac:(done) Ho1 Hl Hh) as (Hok1 & Hk1 & Hsk1 & Hdk1).
  { intros e He. destruct (Hs e Hl He) as [?%not_elem_of_nil | ?]; done. }
  { by eexists. }
  assert (∃ d', uncache_loop (S fuel) old d = uncache_loop fuel old d' ∧ same_data d1 d' ∧
    dirtiesSize d' + childrenSize d' = dirtiesSize d + childrenSize d - (node_cost c - cachedNodeSize)) as (d' & Heq & Hsd & Hsz).
  { cbn [uncache_loop]. unfold mbind at 1, st_bind at 1, st_get at 1. rewrite Hold, bool_decide_eq_false_2 by done.
    unfold mbind, st_bind, dirty_at, st_modify. rewrite Hc, Hold. unfold node_cost.
    destruct (children c) as [m |]; eexists; (split; [reflexivity |]); (split; [done |]); cbn; lia. }
  exists d', c. split; [done |]. split; [done |]. split; [apply (settled_trans d d1); [done | by apply same_data_settled] |].
  split; [by apply (same_data_flush d1) |]. destruct Hsd as (Hdk & Hdd & _). split; [by rewrite Hdk |]. split; [done |]. by apply (Size_without d d' h c).
Qed.

Lemma uncache_loop_spec pre : ∀ rest fuel d, database_ok d → flush_list d (pre ++ rest) → (∀ h, h ∈ pre → secured d [] h) → (length pre ≤ fuel)%nat →
  ∃ d', uncache_loop fuel (default hash0 (head rest)) d = (Ok tt, d') ∧ settled d d' ∧ flush_list d' rest ∧ diskdb d' = diskdb d ∧
    Size d' = Size d - cost (dirties d) pre.
Proof.
  induction pre as [| h pre IH]; intros rest fuel d Hok Ho Hpre Hf.
  { exists d. split; [| split; [done |]; split; [done |]; split; [done |]; cbn; lia].
    pose proof (fl_oldest d _ Ho) as Hold. cbn [app] in Hold. destruct fuel; cbn [uncache_loop]; unfold mbind, st_bind, st_get; by rewrite Hold, bool_decide_eq_true_2. }
  destruct fuel as [| fuel]; [cbn in Hf; lia |]. pose proof (fl_nodup d _ Ho) as Hnd. cbn [app] in Hnd. apply NoDup_cons in Hnd as [Hnin _].
  assert (default hash0 (head rest) ≠ h) as Hne.
  { destruct rest as [| x rest]; cbn; [intros <-; by apply (fl_meta d _ Ho); left | intros ->; apply Hnin, elem_of_app; right; by left]. }
  destruct (uncache_round d h (pre ++ rest) fuel _ Hok Ho (Hpre h ltac:(by left)) Hne) as (d1 & c & -> & Hc & Hst1 & Ho1 & Hdk1 & Hdd1 & Hsz1). pose proof Hst1 as (Hok1 & Hk1 & _).
  destruct (IH rest fuel d1 Hok1 Ho1) as (d2 & -> & Hst2 & Ho2 & Hdk2 & Hsz2); [| cbn in Hf; lia |].
  { intros x Hx e Hl He. rewrite Hdk1. apply Hpre; [by right | done |]. by apply (Hk1 x e Hl). }
  exists d2. split; [done |]. split; [by apply (settled_trans d d1) |]. split; [done |]. split; [congruence |].
  rewrite Hsz2, Hsz1, Hdd1, cost_delete by set_solver. cbn [cost]. rewrite Hc. lia.
Qed.

(** ** Cap *)

Lemma order_size d order : flush_list d order → (length order ≤ base.size (dirties d))%nat.
Proof.
  intros [Hnd Hdom _ _ _ _]. rewrite <- size_dom, <- (size_list_to_set (C := gset (list byte)) order) by done. apply subseteq_size. intros h Hh.
  apply elem_of_dom, Hdom. right. by apply elem_of_list_to_set in Hh.
Qed.

(** The end of [Cap]: the first node of the list has no predecessor. *)
Lemma cap_end d order : database_ok d → flush_list d order →
  ∃ d', (d ← st_get; if bool_decide (oldest d = hash0) then mret tt else modify_dirty (oldest d) (set_flushPrev hash0)) d = (Ok tt, d') ∧
    settled d d' ∧ flush_list d' order ∧ diskdb d' = diskdb d ∧ Size d' = Size d.
Proof.
  intros Hok Ho. unfold mbind, st_bind, st_get. rewrite (fl_oldest d order Ho). destruct order as [| h order]; cbn [head default from_option id].
  { rewrite bool_decide_eq_true_2 by done. exists d. done. }
  destruct (flush_entry d [] h order Hok Ho) as (c & enc & Hc & _ & Hh & _). rewrite bool_decide_eq_false_2 by done.
  destruct (modify_dirty_spec h (set_flushPrev hash0) d c Hc) as [-> Hs]; [done.. |]. eexists. split; [reflexivity |].
  set (d' := set_dirties _ d) in *.
  assert (flush_list d' (h :: order)) as Ho'.
  { destruct Ho as [Hnd Hdom Hm Hold Hnew Hch]. split; [done | | done | done | done |].
    - intros x. rewrite <- Hdom. cbn. destruct (decide (h = x)) as [<- | Hne]; [rewrite lookup_insert_eq, Hc; naive_solver | by rewrite lookup_insert_ne].
    - by eapply chain_any_prev, chain_set_first. }
  split; [split; [| split; [intros x e _; by rewrite (same_nodes_Node d d' x Hs) |]] | split; [done | split; [done |]]].
  - destruct Hok as (_ & He & Hp). split; [by eexists | split; [| done]]. intros x cx Hx. destruct (same_nodes_at d d' x cx Hs Hx) as (c0 & Hc0 & Hnode & Hch & _).
    specialize (He x c0 Hc0). unfold entry_ok, cn_rlp, forChilds in *. by rewrite Hnode, Hch.
  - split; [intros x cx Hx; by apply (same_nodes_at d d') | done |]. intros Ha x cx e Hx Hl Hx0 Hk. destruct (same_nodes_at d d' x cx Hs Hx) as (c0 & Hc0 & Hnode & _).
    unfold cn_rlp. rewrite Hnode. by apply (Ha x c0 e).
  - unfold Size, metaroot_refs. cbn. rewrite lookup_insert_ne by done. by rewrite map_size_insert_Some.
Qed.

Lemma cap_preimages_spec d flush : database_ok d →
  match cap_preimages flush d with
  | (Ok b', d') => moves d [] d' [] ∧ no_hashes b' ∧ ∃ k, d' = set_diskdb k d
  | (Err _, d') => settled d d'
  | (Panic _, _) => False
  end.
Proof.
  intros Hok. unfold cap_preimages. destruct flush.
  2:{ split; [apply moves_here; [done | by intros ? ? ?%not_elem_of_nil] |]. split; [constructor | exists (diskdb d); by destruct d]. }
  unfold mbind, st_bind, st_gets. pose proof (put_preimages_spec _ (preimages_hashes d Hok) [] d Hok ltac:(by constructor)) as Hp.
  pose proof (put_preimages_frame (map_to_list (preimages d)) [] d) as [k Hk].
  destruct (put_preimages _ [] d) as [[b | e | m] d']; [| exact (moves_settled _ _ _ _ Hp) | done]. destruct Hp. split; [done |]. split; [done | by exists k].
Qed.

Lemma cap_uncache_spec d flush pre rest fuel : database_ok d → flush_list d (pre ++ rest) → (∀ h, h ∈ pre → secured d [] h) → (length pre ≤ fuel)%nat →
  ∃ d', cap_uncache flush fuel (default hash0 (head rest)) d = (Ok tt, d') ∧ settled d d' ∧ flush_list d' rest ∧ diskdb d' = diskdb d ∧
    Size d' = Size d - cost (dirties d) pre.
Proof.
  intros Hok Ho Hsec Hf. unfold cap_uncache. set (d1 := if flush then set_preimages ∅ 0 d else d).
  assert (settled d d1 ∧ flush_list d1 (pre ++ rest) ∧ diskdb d1 = diskdb d ∧ dirties d1 = dirties d ∧ Size d1 = Size d) as (Hst1 & Ho1 & Hdk & Hdd & Hs).
  { unfold d1. destruct flush; [| done]. split; [by apply clear_preimages_settled |]. split; [| done]. destruct Ho. by split. }
  pose proof Hst1 as (Hok1 & Hk1 & _). destruct (uncache_loop_spec pre rest fuel d1 Hok1 Ho1) as (d2 & H2 & Hst2 & Ho2 & Hdk2 & Hs2); [| done |].
  { intros h Hh enc Hl Hn. rewrite Hdk. apply Hsec; [done | done |]. by apply (Hk1 h enc Hl). }
  destruct (cap_end d2 rest (proj1 Hst2) Ho2) as (d3 & H3 & Hst3 & Ho3 & Hdk3 & Hs3). exists d3.
  split; [| split; [apply (settled_trans d d2); [by apply (settled_trans d d1) | done] |]; split; [done |]; split; [congruence |]; rewrite Hs3, Hs2, Hdd; lia].
  unfold mbind at 1, st_bind at 1. assert ((if flush then st_modify (set_preimages ∅ 0) else mret tt) d = (Ok tt, d1)) as -> by (unfold d1; by destruct flush).
  unfold mbind at 1, st_bind at 1. rewrite H2. exact H3.
Qed.

Lemma Cap_settles (d : Database) (limit : Z) : database_ok d →
  match Cap limit d with
  | (Ok _, d') => settled d d' ∧ ∃ flushed kept, flush_list d (flushed ++ kept) ∧ flush_list d' kept ∧
      (∀ h enc, h ∈ flushed → Node d h = Ok enc → kv (diskdb d') !! h = Some enc) ∧ (Size d' ≤ limit ∨ kept = [])
  | (Err _, d') => settled d d'
  | (Panic _, _) => False
  end.
Proof.
  intros Hok. pose proof Hok as ([order Ho] & _). pose proof (order_size d order Ho) as Hlen. unfold Cap.
  unfold mbind at 1, st_bind at 1, st_get at 1. unfold mbind at 1, st_bind at 1. cbn zeta. generalize (4 * 1024 * 1024 <? preimagesSize d) as flush. intros flush.
  pose proof (cap_preimages_spec d flush Hok) as Hp. destruct (cap_preimages flush d) as [[b1 | e | m] d1]; [| done | done]. destruct Hp as (Hm1 & Hb1 & k1 & ->).
  unfold mbind at 1, st_bind at 1. pose proof (cap_loop_spec limit (Size d) order [] (base.size (dirties d)) (Size d) b1 (set_diskdb k1 d)) as Hl.
  specialize (Hl (mv_ok _ _ _ _ Hm1) (set_diskdb_flush k1 d order Ho) (no_hashes_sound _ b1 Hb1) ltac:(by intros ? ?%not_elem_of_nil) Hlen ltac:(cbn; lia)).
  rewrite <- (fl_oldest d order Ho) in Hl. cbn [app] in Hl. unfold capped in Hl.
  assert (∀ d' b', moves (set_diskdb k1 d) b1 d' b' → settled d d') as Hok'.
  { intros d' b' Hm. apply (settled_trans d (set_diskdb k1 d)); by eapply moves_settled. }
  destruct (cap_loop _ _ _ _ b1 _) as [[[b2 old] | e | m] d2]; [| destruct Hl as [b' Hl]; by apply (Hok' _ b') | done].
  destruct Hl as (pre & rest & <- & -> & Hm2 & Hsec & (k2 & ->) & Hfit). unfold mbind at 1, st_bind at 1.
  pose proof (Write_batch_spec _ b2 (mv_ok _ _ _ _ Hm2) (mv_sound _ _ _ _ Hm2)) as Hw. pose proof (Write_batch_frame b2 (set_diskdb k2 (set_diskdb k1 d))) as [k3 Hd3].
  destruct (Write_batch b2 _) as [[[] | e | m] d3]; [| by apply (Hok' _ b2), (moves_then _ _ _ b2 _ _ Hm2) | done]. destruct Hw as (Hm3 & _).
  pose proof (Hok' _ _ (moves_then _ _ _ _ _ _ Hm2 Hm3)) as Hst3. pose proof Hst3 as (Hok3 & Hk3 & _). cbn [snd] in Hd3. subst d3.
  destruct (cap_uncache_spec _ flush pre rest (base.size (dirties d)) Hok3) as (d4 & -> & Hst4 & Ho4 & Hdk4 & Hs4).
  { by apply set_diskdb_flush, set_diskdb_flush, set_diskdb_flush. }
  { intros h Hh. by apply (mv_secured _ _ _ _ Hm3), Hsec. }
  { rewrite length_app in Hlen. lia. }
  split; [by eapply settled_trans |]. exists pre, rest. split; [done |]. split; [done |]. split; [| rewrite Hs4; exact Hfit].
  intros h enc Hh Hn.
  assert (length h = HashLength) as Hl.
  { apply list_elem_of_split in Hh as (l1 & l2 & ->). rewrite <- app_assoc in Ho. by destruct (flush_entry d l1 h (l2 ++ rest) Hok Ho) as (? & ? & ? & ? & ? & ? & ? & ?). }
  rewrite Hdk4. destruct (mv_secured _ _ _ _ Hm3 h (Hsec h Hh) enc Hl) as [?%not_elem_of_nil | ?]; [by apply (Hk3 h enc Hl) | done | done].
Qed.

Theorem Cap_keeps_nodes (d : Database) (limit : Z) : database_ok d →
  match Cap limit d with
  | (Ok _, d') => database_ok d' ∧ keeps d d' ∧ ∃ flushed kept, flush_list d (flushed ++ kept) ∧ flush_list d' kept ∧
      (∀ h enc, h ∈ flushed → Node d h = Ok enc → kv (diskdb d') !! h = Some enc) ∧ (Size d' ≤ limit ∨ kept = [])
  | (Err _, d') => database_ok d' ∧ keeps d d'
  | (Panic _, _) => False
  end.
Proof.
  intros Hok. pose proof (Cap_settles d limit Hok) as Hc. destruct (Cap limit d) as [[[] | e | m] d'].
  - destruct Hc as [(? & ? & _) ?]. done.
  - by destruct Hc as (? & ? & _).
  - done.
Qed.
