(* ===== verification/TrieGC.v ===== *)
(** Garbage collection in the node database of tries: [Dereference] of
    src/l2geth/trie/database.go removes only nodes that nothing refers to any
    more.

    The reference counts are bounds, not equal to the number of references: a
    node that was on disk and is inserted again starts with none, and writing a
    parent to disk leaves the counts of its children.  So the invariant is that a
    node that is not on disk has at least as many counted parents as there are
    references to it, and that every reference leads to a node that is in memory
    or on disk. *)

From S2P Require Import Prelude TrieNode TrieDatabase TrieDatabaseFacts TrieFlush TrieCap.

#[local] Opaque hash0.

(** ** Counting references *)

Definition occurrences (x : list byte) (l : list (list byte)) : Z := Z.of_nat (length (filter (eq x) l)).

Lemma occurrences_nonneg x l : 0 <= occurrences x l.
Proof. unfold occurrences. lia. Qed.

Lemma occurrences_cons x y l : occurrences x (y :: l) = (if bool_decide (x = y) then 1 else 0) + occurrences x l.
Proof. unfold occurrences. rewrite filter_cons. case_decide; [rewrite bool_decide_eq_true_2 by done | rewrite bool_decide_eq_false_2 by done]; cbn [length]; lia. Qed.

Lemma occurrences_app x l1 l2 : occurrences x (l1 ++ l2) = occurrences x l1 + occurrences x l2.
Proof. unfold occurrences. rewrite filter_app, length_app. lia. Qed.

Lemma occurrences_in x l : x ∈ l ↔ 0 < occurrences x l.
Proof.
  induction l as [| y l IH]; [split; [by intros ?%not_elem_of_nil | done] |]. rewrite elem_of_cons, occurrences_cons, IH. pose proof (occurrences_nonneg x l).
  case_bool_decide; split; intros; [lia | by left | naive_solver lia | naive_solver lia].
Qed.

(** The references of an entry to [x]: those of the meta root are counted, those
    of a node are its children. *)
Definition refs (x h : list byte) (c : cachedNode) : Z :=
  if bool_decide (h = hash0) then default 0 (default ∅ (children c) !! x) else occurrences x (child_list c).

(** The sum of a function over the entries. *)
Definition total (f : list byte → cachedNode → Z) (m : gmap (list byte) cachedNode) : Z := foldr (λ e n, f e.1 e.2 + n) 0 (map_to_list m).

Lemma total_insert f m h c : m !! h = None → total f (<[h := c]> m) = f h c + total f m.
Proof.
  intros Hn. unfold total. pose proof (map_to_list_insert m h c Hn) as Hp. generalize dependent (map_to_list (<[h := c]> m)). generalize (map_to_list m).
  intros l l' Hp. change (f h c + foldr (λ e n, f e.1 e.2 + n) 0 l) with (foldr (λ e n, f e.1 e.2 + n) 0 ((h, c) :: l)).
  induction Hp as [| e l1 l2 _ IH | e1 e2 l1 | l1 l2 l3 _ IH1 _ IH2]; cbn [foldr]; lia.
Qed.

Lemma total_delete f m h c : m !! h = Some c → total f m = f h c + total f (base.delete h m).
Proof. intros Hc. rewrite <- total_insert by apply lookup_delete_eq. by rewrite insert_delete_id. Qed.

Lemma total_ext f m m' : (∀ h, (f h <$> m !! h) = (f h <$> m' !! h)) → total f m = total f m'.
Proof.
  revert m'. induction m as [| h c m Hn IH] using map_ind; intros m' Heq.
  - destruct (decide (m' = ∅)) as [-> | Hne]; [done |]. apply map_choose in Hne as (h & c & Hc). specialize (Heq h). by rewrite Hc, lookup_empty in Heq.
  - rewrite total_insert by done. pose proof (Heq h) as Hh. rewrite lookup_insert_eq in Hh. destruct (m' !! h) as [c' |] eqn:Hc'; [| done]. injection Hh as Hh.
    rewrite (total_delete f m' h c' Hc'), Hh. f_equal. apply IH. intros x. specialize (Heq x). destruct (decide (h = x)) as [<- | Hne].
    + by rewrite Hn, lookup_delete_eq.
    + by rewrite lookup_insert_ne in Heq by done; rewrite lookup_delete_ne.
Qed.

Lemma total_nonneg f m : (∀ h c, m !! h = Some c → 0 <= f h c) → 0 <= total f m.
Proof.
  induction m as [| h c m Hn IH] using map_ind; intros Hf; [done |]. rewrite total_insert by done.
  assert (0 <= f h c) by (apply Hf; by rewrite lookup_insert_eq). assert (0 <= total f m); [| lia]. apply IH. intros x cx Hx. apply Hf. rewrite lookup_insert_ne; [done |]. congruence.
Qed.

Lemma total_ge f m h c : (∀ h c, m !! h = Some c → 0 <= f h c) → m !! h = Some c → f h c <= total f m.
Proof.
  intros Hf Hc. rewrite (total_delete f m h c Hc). assert (0 <= total f (base.delete h m)); [| lia]. apply total_nonneg. intros x cx Hx.
  apply lookup_delete_Some in Hx as [_ Hx]. by apply Hf.
Qed.

(** ** The invariant of reference counts *)

Definition on_disk (d : Database) (x : list byte) : Prop := is_Some (kv (diskdb d) !! x).

Definition available (d : Database) (x : list byte) : Prop := is_Some (dirties d !! x) ∨ on_disk d x.

(** [pending] has references that are about to be dropped. *)
Record gc_ok (d : Database) (pending : list (list byte)) : Prop := {
  gc_database : database_ok d;
  gc_meta : ∀ c, dirties d !! hash0 = Some c → cn_node c = nilNode ∧ map_Forall (λ _ n, 0 <= n) (default ∅ (children c));
  gc_parents : ∀ x c, dirties d !! x = Some c → x ≠ hash0 →
    0 <= parents c ∧ (¬ on_disk d x → total (refs x) (dirties d) + occurrences x pending <= parents c);
  gc_closed : ∀ h c x, dirties d !! h = Some c → 0 < refs x h c → available d x;
  gc_agree : ∀ x c enc, dirties d !! x = Some c → x ≠ hash0 → kv (diskdb d) !! x = Some enc → cn_rlp c = Ok enc;
}.

(** Entries may go, and lose parents. *)
Definition collects (d d' : Database) : Prop :=
  diskdb d' = diskdb d ∧ preimages d' = preimages d ∧
  ∀ h c, dirties d' !! h = Some c → ∃ c0, dirties d !! h = Some c0 ∧ cn_node c = cn_node c0 ∧ children c = children c0.

#[export] Instance collects_preorder : PreOrder collects.
Proof.
  split; [intros d; repeat (split; [done |]); eauto |]. intros d1 d2 d3 (H1 & H2 & H3) (H4 & H5 & H6). split; [congruence |]. split; [congruence |]. intros h c Hc.
  destruct (H6 h c Hc) as (c2 & Hc2 & -> & ->). destruct (H3 h c2 Hc2) as (c1 & ? & -> & ->). by exists c1.
Qed.

Lemma child_list_same c c' : cn_node c' = cn_node c → children c' = children c → child_list c' = child_list c.
Proof. intros Hn Hc. unfold child_list, forChilds. by rewrite Hn, Hc. Qed.

Lemma refs_same x h c c' : cn_node c' = cn_node c → children c' = children c → refs x h c' = refs x h c.
Proof. intros Hn Hc. unfold refs. by rewrite (child_list_same c c' Hn Hc), Hc. Qed.

(** There are fewer entries and fewer references. *)
Definition fewer_links (d d' : Database) : Prop :=
  ∀ h c, dirties d' !! h = Some c → ∃ c0, dirties d !! h = Some c0 ∧ ∀ x, x ∈ child_list c → x ∈ child_list c0.

Lemma fewer_links_trans d1 d2 d3 : fewer_links d1 d2 → fewer_links d2 d3 → fewer_links d1 d3.
Proof. intros H1 H2 h c Hc. destruct (H2 h c Hc) as (c2 & Hc2 & ?), (H1 h c2 Hc2) as (c1 & ? & ?). exists c1. auto. Qed.

Lemma collects_fewer d d' : collects d d' → fewer_links d d'.
Proof. intros (_ & _ & Hs) h c Hc. destruct (Hs h c Hc) as (c0 & ? & Hn & Hch). exists c0. by rewrite (child_list_same c0 c). Qed.

Lemma acyclic_fewer d d' rank : fewer_links d d' → acyclic d rank → acyclic d' rank.
Proof.
  intros Hf Ha h c x Hc Hx. destruct (Hf h c Hc) as (c0 & Hc0 & Hsub). destruct (Ha h c0 x Hc0 (Hsub x Hx)) as [? Hr]. split; [done |].
  intros [cx Hcx]. apply Hr. destruct (Hf x cx Hcx) as (? & ? & _). by eexists.
Qed.

Lemma acyclic_collects d d' rank : collects d d' → acyclic d rank → acyclic d' rank.
Proof. intros Hc. by apply acyclic_fewer, collects_fewer. Qed.

Lemma refs_nonneg d pending x h c : gc_ok d pending → dirties d !! h = Some c → 0 <= refs x h c.
Proof.
  intros Hg Hc. unfold refs. case_bool_decide as Hh; [subst h | apply occurrences_nonneg]. destruct (default ∅ (children c) !! x) as [n |] eqn:E; [| done].
  by apply (proj2 (gc_meta d pending Hg c Hc) x n E).
Qed.

(** Pending references matter for the nodes that are only in memory. *)
Lemma gc_pending d pending pending' :
  gc_ok d pending → (∀ x, is_Some (dirties d !! x) → ¬ on_disk d x → occurrences x pending' <= occurrences x pending) → gc_ok d pending'.
Proof.
  intros [Hd Hm Hp Hc Ha] Hle. split; [done.. | | done | done]. intros x c Hx Hx0. destruct (Hp x c Hx Hx0) as [H0 Hp']. split; [done |]. intros Hn. specialize (Hp' Hn).
  specialize (Hle x ltac:(by eexists) Hn). lia.
Qed.

(** Dropping a pending reference to a node that stays. *)
Lemma gc_drop d pending y : gc_ok d (y :: pending) → dirties d !! y = None ∨ on_disk d y → gc_ok d pending.
Proof. intros Hg Hy. apply (gc_pending d _ _ Hg). intros x [c Hx] Hn. rewrite occurrences_cons. case_bool_decide; lia. Qed.

(** The parents of an entry do not matter for the rest. *)
Lemma total_parents m x y c z : m !! y = Some c → total (refs x) (<[y := set_parents z c]> m) = total (refs x) m.
Proof.
  intros Hc. apply total_ext. intros h. destruct (decide (y = h)) as [<- | Hne]; [by rewrite lookup_insert_eq, Hc | by rewrite lookup_insert_ne].
Qed.

Lemma gc_set_parents d pending pending' y c z : gc_ok d pending → dirties d !! y = Some c →
  (y ≠ hash0 → 0 <= z ∧ (¬ on_disk d y → total (refs y) (dirties d) + occurrences y pending' <= z)) → (∀ x, x ≠ y → occurrences x pending' <= occurrences x pending) →
  gc_ok (set_dirties (<[y := set_parents z c]> (dirties d)) d) pending'.
Proof.
  intros [Hd Hm Hp Hc Ha] Hy Hz Hle. set (d' := set_dirties _ d).
  assert (∀ h c', dirties d' !! h = Some c' → ∃ c0, dirties d !! h = Some c0 ∧ cn_node c' = cn_node c0 ∧ children c' = children c0 ∧ (h ≠ y → c' = c0) ∧ (h = y → parents c' = z)) as Hsame.
  { intros h c' Hc'. cbn [dirties set_dirties d'] in Hc'. apply lookup_insert_Some in Hc' as [[<- <-] | [Hne Hc']]; [by exists c | exists c'; naive_solver]. }
  split.
  - apply (database_ok_parents d); [| done]. split; [done |]. by apply erase_insert.
  - intros c' Hc'. destruct (Hsame hash0 c' Hc') as (c0 & Hc0 & -> & -> & _). by apply (Hm c0).
  - intros x c' Hx Hx0. destruct (Hsame x c' Hx) as (c0 & Hc0 & _ & _ & Hne & Heq). destruct (Hp x c0 Hc0 Hx0) as [H0 Hp']. cbn [dirties set_dirties d']. rewrite total_parents by done.
    change (on_disk d' x) with (on_disk d x). destruct (decide (x = y)) as [-> | Hxy]; [rewrite Heq by done; by apply Hz |].
    rewrite Hne by done. split; [done |]. intros Hn. specialize (Hp' Hn). specialize (Hle x Hxy). lia.
  - intros h c' x Hc' Hr. destruct (Hsame h c' Hc') as (c0 & Hc0 & Hn & Hch & _). rewrite (refs_same x h c0 c') in Hr by done.
    destruct (Hc h c0 x Hc0 Hr) as [[cx Hcx] | ?]; [left | by right]. cbn [dirties set_dirties d']. destruct (decide (y = x)) as [-> | ?]; [rewrite lookup_insert_eq; by eexists | rewrite lookup_insert_ne by done; by eexists].
  - intros x c' enc Hx Hx0 Hk. destruct (Hsame x c' Hx) as (c0 & Hc0 & Hn & _). unfold cn_rlp. rewrite Hn. by apply (Ha x c0 enc).
Qed.

Lemma set_parents_collects y c z d : dirties d !! y = Some c → collects d (set_dirties (<[y := set_parents z c]> (dirties d)) d).
Proof.
  intros Hc. split; [done |]. split; [done |]. intros h c' Hc'. cbn [dirties set_dirties] in Hc'. apply lookup_insert_Some in Hc' as [[<- <-] | [_ ?]]; [by exists c | by exists c'].
Qed.

(** The count after a reference is dropped. *)
Definition fewer_parents (c : cachedNode) : Z := if 0 <? parents c then parents c - 1 else parents c.

Lemma total_refs_nonneg d pending x : gc_ok d pending → 0 <= total (refs x) (dirties d).
Proof. intros Hg. apply total_nonneg. intros h c. by apply (refs_nonneg d pending). Qed.

Lemma gc_decrement d pending y c : gc_ok d (y :: pending) → dirties d !! y = Some c → y ≠ hash0 →
  let d' := set_dirties (<[y := set_parents (fewer_parents c) c]> (dirties d)) d in gc_ok d' pending ∧ collects d d'.
Proof.
  intros Hg Hy Hy0 d'. split; [| by apply set_parents_collects]. apply (gc_set_parents d (y :: pending)); [done | done | intros _ |].
  - destruct (gc_parents d _ Hg y c Hy Hy0) as [H0 Hle]. pose proof (total_refs_nonneg d _ y Hg). pose proof (occurrences_nonneg y pending).
    rewrite occurrences_cons, bool_decide_eq_true_2 in Hle by done. unfold fewer_parents.
    destruct (0 <? parents c) eqn:Ep; [apply Z.ltb_lt in Ep | apply Z.ltb_ge in Ep]; (split; [lia |]); intros Hn; specialize (Hle Hn); lia.
  - intros x Hx. rewrite occurrences_cons, bool_decide_eq_false_2 by done. lia.
Qed.

(** Removing a node that nothing else refers to. *)
Lemma gc_remove d pending y c l : gc_ok d pending → dirties d !! y = Some c → y ≠ hash0 → parents c = 0 → forChilds c = Ok l →
  ∃ d1, unlink y c d = (Ok tt, d1) ∧ same_nodes d d1 ∧ gc_ok (without y d1) (l ++ pending) ∧ collects d (without y d1).
Proof.
  intros Hg Hy Hy0 Hpar Hl. pose proof Hg as [Hd Hm Hp Hc Ha]. pose proof Hd as ([order Ho] & _).
  assert (y ∈ order) as Hin by (destruct (proj1 (fl_dom d order Ho y)) as [? | ?]; [by eexists | done | done]).
  destruct (unlink_spec d order y c Ho Hin Hy) as (order' & d1 & Hu & Ho' & Hs). exists d1. split; [done |]. split; [done |]. pose proof Hs as (Hdk & Hpre & Hsn).
  assert (∀ h c', dirties (without y d1) !! h = Some c' → h ≠ y ∧ ∃ c0, dirties d !! h = Some c0 ∧ cn_node c' = cn_node c0 ∧ children c' = children c0 ∧ parents c' = parents c0) as Hsame.
  { intros h c' Hc'. cbn [dirties without set_dirties] in Hc'. apply lookup_delete_Some in Hc' as [? Hc']. split; [done |]. by apply (same_nodes_at d d1). }
  assert (∀ x, is_Some (dirties d !! x) → x = y ∨ is_Some (dirties (without y d1) !! x)) as Hother.
  { intros x [cx Hx]. destruct (decide (y = x)) as [<- | Hne]; [by left | right]. cbn [dirties without set_dirties]. rewrite lookup_delete_ne by done.
    specialize (Hsn x). rewrite Hx in Hsn. by destruct (dirties d1 !! x). }
  assert (∀ x, total (refs x) (dirties d) = occurrences x l + total (refs x) (dirties (without y d1))) as Htotal.
  { intros x. rewrite (total_delete _ _ y c Hy). f_equal; [unfold refs, child_list; by rewrite bool_decide_eq_false_2, Hl |]. apply total_ext. intros h. cbn [dirties without set_dirties].
    destruct (decide (y = h)) as [<- | Hne]; [by rewrite !lookup_delete_eq |]. rewrite !lookup_delete_ne by done. specialize (Hsn h).
    destruct (dirties d1 !! h), (dirties d !! h); try done. injection Hsn as Hn' Hch' _ _. cbn. f_equal. by apply refs_same. }
  assert (¬ on_disk d y → ∀ h c', dirties d !! h = Some c' → refs y h c' = 0) as Hnone.
  { intros Hn h c' Hc'. destruct (Hp y c Hy Hy0) as [_ Hle]. specialize (Hle Hn). pose proof (occurrences_nonneg y pending).
    pose proof (refs_nonneg d _ y h c' Hg Hc'). pose proof (total_ge (refs y) (dirties d) h c' (λ h c, refs_nonneg d _ y h c Hg) Hc'). lia. }
  assert (∀ x, on_disk (without y d1) x ↔ on_disk d x) as Hdisk by (intros x; unfold on_disk; cbn [diskdb without set_dirties]; by rewrite Hdk).
  split; [split |].
  - by apply (without_ok d d1 y order').
  - intros c' Hc'. destruct (Hsame hash0 c' Hc') as (_ & c0 & Hc0 & -> & -> & _). by apply (Hm c0).
  - intros x c' Hx Hx0. destruct (Hsame x c' Hx) as (Hxy & c0 & Hc0 & _ & _ & ->). destruct (Hp x c0 Hc0 Hx0) as [H0 Hle]. split; [done |]. rewrite Hdisk. intros Hn. specialize (Hle Hn).
    rewrite (Htotal x) in Hle. rewrite occurrences_app. lia.
  - intros h c' x Hc' Hr. destruct (Hsame h c' Hc') as (_ & c0 & Hc0 & Hn & Hch & _). rewrite (refs_same x h c0 c') in Hr by done. unfold available. rewrite Hdisk.
    destruct (Hc h c0 x Hc0 Hr) as [Hx | ?]; [| by right]. destruct (Hother x Hx) as [-> | ?]; [right | by left].
    destruct (decide (on_disk d y)) as [? | Hny]; [done |]. rewrite (Hnone Hny h c0 Hc0) in Hr. lia.
  - intros x c' enc Hx Hx0 Hk. destruct (Hsame x c' Hx) as (_ & c0 & Hc0 & Hn & _). unfold cn_rlp. rewrite Hn. apply (Ha x c0 enc); [done.. |]. by rewrite <- Hdk.
  - split; [done |]. split; [done |]. intros h c' Hc'. destruct (Hsame h c' Hc') as (_ & c0 & ? & ? & ? & _). by exists c0.
Qed.

(** ** The collection *)

(** [dereference] as it acts on the nodes that are not being removed. *)
Fixpoint collect (fuel : nat) (y : list byte) : st Database () :=
  match fuel with
  | O => st_panic "out of fuel"
  | S fuel =>
      known ← st_gets (λ d, dirties d !! y);
      match known with
      | None => mret tt
      | Some c =>
          modify_dirty y (set_parents (fewer_parents c));;
          if fewer_parents c =? 0 then
            unlink y c;;
            childs ← st_lift (forChilds c);
            st_modify (without y);;
            each (collect fuel) childs
          else mret tt
      end
  end.

Section Collect.
  Context (rank : list byte → nat).

(** Enough fuel for a node. *)
Definition enough (fuel : nat) (d : Database) (y : list byte) : Prop := (1 <= fuel)%nat ∧ (is_Some (dirties d !! y) → (rank y + 1 < fuel)%nat).

Definition collected (d : Database) (pending : list (list byte)) (res : outcome () * Database) : Prop :=
  ∃ d', res = (Ok tt, d') ∧ gc_ok d' pending ∧ collects d d'.

Lemma each_collected d0 f l : (∀ y pending d, y ∈ l → collects d0 d → gc_ok d (y :: pending) → acyclic d rank → collected d pending (f y d)) →
  ∀ pending d, collects d0 d → gc_ok d (l ++ pending) → acyclic d rank → collected d pending (each f l d).
Proof.
  induction l as [| y l IH]; intros Hf pending d H0 Hg Ha; cbn [each]; [exists d; split; [done |]; by split |].
  destruct (Hf y (l ++ pending) d ltac:(by left) H0 Hg Ha) as (d1 & H1 & Hg1 & Hc1). unfold mbind, st_bind. rewrite H1.
  destruct (IH ltac:(intros; apply Hf; [by right | done | done | done]) pending d1 ltac:(by transitivity d) Hg1 (acyclic_collects d d1 rank Hc1 Ha)) as (d2 & -> & Hg2 & Hc2).
  exists d2. split; [done |]. split; [done | by transitivity d1].
Qed.

Lemma collect_spec fuel : ∀ y pending d, gc_ok d (y :: pending) → acyclic d rank → y ≠ hash0 → enough fuel d y → collected d pending (collect fuel y d).
Proof.
  induction fuel as [| fuel IH]; intros y pending d Hg Ha Hy0 [Hf1 Hf]; [lia |]. cbn [collect]. unfold mbind at 1, st_bind at 1, st_gets at 1.
  destruct (dirties d !! y) as [c |] eqn:Hy; [| exists d; split; [done |]; split; [apply (gc_drop _ _ y Hg); by left | done]]. specialize (Hf ltac:(by eexists)).
  destruct (gc_decrement d pending y c Hg Hy Hy0) as [Hg' Hc']. set (c' := set_parents (fewer_parents c) c) in *. set (d' := set_dirties (<[y := c']> (dirties d)) d) in *.
  assert (dirties d' !! y = Some c') as Hy' by apply lookup_insert_eq. unfold mbind at 1, st_bind at 1, modify_dirty, mbind at 1, st_bind at 1, dirty_at. rewrite Hy.
  unfold st_modify at 1. fold c'. fold d'. destruct (fewer_parents c =? 0) eqn:Hp; [| by exists d']. apply Z.eqb_eq in Hp.
  destruct (gc_database _ _ Hg) as (_ & He & _). destruct (He y c Hy Hy0) as (_ & _ & Hch). destruct (forChilds c) as [l | |] eqn:Hl; [| done..].
  destruct (gc_remove d' pending y c' l Hg' Hy' Hy0 Hp Hl) as (d1 & Hu & _ & Hg1 & Hc1). change (unlink y c) with (unlink y c'). unfold mbind, st_bind. rewrite Hu. unfold st_lift, st_modify. cbv beta iota.
  pose proof (transitivity Hc' Hc1) as Hc2.
  destruct (each_collected (without y d1) (collect fuel) l) with (pending := pending) (d := without y d1) as (d2 & H2 & Hg2 & Hc3); [| done | done | by apply (acyclic_collects d) |].
  - intros x pend dx Hx Hdx Hgx Hax. destruct (Ha y c x Hy ltac:(unfold child_list; by rewrite Hl)) as [Hx0 Hr]. apply IH; [done.. |]. split; [lia |].
    intros [cx Hcx]. enough (is_Some (dirties d !! x)) as Hs by (specialize (Hr Hs); lia). pose proof (transitivity Hc2 Hdx) as (_ & _ & Hsub).
    destruct (Hsub x cx Hcx) as (c0 & ? & _). by eexists.
  - exists d2. split; [done |]. split; [done | by transitivity (without y d1)].
Qed.

End Collect.

(** ** [dereference] collects

    While a node is removed it stays in the map until its children have been
    dereferenced.  On the nodes that are not being removed, [dereference] does
    what [collect] does. *)

Definition live (dead : gset (list byte)) (d : Database) : Database := set_dirties (filter (λ e, e.1 ∉ dead) (dirties d)) d.

Record sim (dead : gset (list byte)) (d dl : Database) : Prop := {
  sim_live : same_data (live dead d) dl;
  sim_dead : ∀ z, z ∈ dead → is_Some (dirties d !! z);
}.

Lemma sim_lookup dead d dl y : sim dead d dl → y ∉ dead → dirties dl !! y = dirties d !! y.
Proof.
  intros [(_ & Hd & _) _] Hy. rewrite Hd. cbn [dirties live set_dirties]. rewrite map_lookup_filter. destruct (dirties d !! y); [| done]. cbn. by rewrite option_guard_True.
Qed.

Lemma sim_dead_lookup dead d dl y : sim dead d dl → y ∈ dead → dirties dl !! y = None.
Proof. intros [(_ & Hd & _) _] Hy. rewrite Hd. cbn [dirties live set_dirties]. rewrite map_lookup_filter. destruct (dirties d !! y); [| done]. cbn. by rewrite option_guard_False by tauto. Qed.

(** A change of a live entry. *)
Lemma modify_sim dead d dl dl' p f : sim dead d dl → modify_dirty p f dl = (Ok tt, dl') → ∃ d', modify_dirty p f d = (Ok tt, d') ∧ sim dead d' dl'.
Proof.
  intros Hs. unfold modify_dirty, mbind, st_bind, dirty_at. destruct (dirties dl !! p) as [c |] eqn:Hp; [| done]. intros [= <-].
  assert (p ∉ dead) as Hn by (intros Hin; by rewrite (sim_dead_lookup dead d dl p Hs Hin) in Hp). rewrite (sim_lookup dead d dl p Hs Hn) in Hp. rewrite Hp.
  eexists. split; [done |]. destruct Hs as [(H1 & H2 & H3 & H4 & H5) Hd]. split.
  - repeat (split; [done |]). cbn [dirties live set_dirties]. split; [| done]. rewrite H2. cbn [dirties live set_dirties]. by rewrite map_filter_insert_True.
  - intros z Hz. cbn [dirties set_dirties]. rewrite lookup_insert_ne by (by intros ->). by apply Hd.
Qed.

(** A change of an entry that is being removed. *)
Lemma sim_dead_insert dead d dl x c : sim dead d dl → x ∈ dead → sim dead (set_dirties (<[x := c]> (dirties d)) d) dl.
Proof.
  intros [(H1 & H2 & H3 & H4 & H5) Hd] Hx. split.
  - split; [done |]. split; [| done]. rewrite H2. cbn [dirties live set_dirties]. apply map_eq. intros h. rewrite !map_lookup_filter.
    destruct (decide (x = h)) as [<- | Hne]; [| by rewrite lookup_insert_ne]. rewrite lookup_insert_eq. destruct (dirties d !! x); cbn; by rewrite ?option_guard_False by tauto.
  - intros z Hz. cbn [dirties set_dirties]. destruct (decide (x = z)) as [<- | ?]; [rewrite lookup_insert_eq; by eexists | rewrite lookup_insert_ne by done; by apply Hd].
Qed.

Lemma sim_childrenSize dead d dl z : sim dead d dl → sim dead (add_childrenSize z d) dl.
Proof. by intros []. Qed.

Lemma sim_dirtiesSize dead d dl z : sim dead d dl → sim dead (add_dirtiesSize z d) dl.
Proof. by intros []. Qed.

Lemma drop_child_sim dead d dl y x : sim dead d dl → x ∈ dead → ∃ d', drop_child y x d = (Ok tt, d') ∧ sim dead d' dl.
Proof.
  intros Hs Hx. destruct (sim_dead _ _ _ Hs x Hx) as [c Hc]. unfold drop_child. unfold mbind at 1, st_bind at 1, dirty_at. rewrite Hc.
  destruct (children c) as [m |]; [| by exists d]. cbv zeta. destruct (0 <? _); [| by exists d].
  assert (∀ f, modify_dirty x f d = (Ok tt, set_dirties (<[x := f c]> (dirties d)) d)) as Hmod by (intros f; unfold modify_dirty, mbind, st_bind, dirty_at; by rewrite Hc).
  destruct (_ - 1 =? 0); unfold mbind, st_bind; rewrite ?Hmod; eexists; (split; [done |]); [apply sim_childrenSize |]; by apply sim_dead_insert.
Qed.

Lemma unlink_sim dead d dl dl' y c : sim dead d dl → unlink y c dl = (Ok tt, dl') → ∃ d', unlink y c d = (Ok tt, d') ∧ sim dead d' dl'.
Proof.
  intros Hs. pose proof Hs as [(_ & _ & Ho & Hn & _) _]. unfold unlink, mbind, st_bind, st_get, st_modify. rewrite Ho, Hn.
  cbn [oldest newest live set_dirties]. assert (∀ h, sim dead (set_oldest h d) (set_oldest h dl) ∧ sim dead (set_newest h d) (set_newest h dl)) as Hends.
  { intros h. destruct Hs as [(H1 & H2 & H3 & H4 & H5) Hd]. by split; split. }
  case_bool_decide; [apply modify_sim, Hends |]. case_bool_decide; [apply modify_sim, Hends |].
  destruct (modify_dirty (flushPrev c) _ dl) as [[[] | |] dl1] eqn:E1; [| done..].
  destruct (modify_sim dead d dl dl1 _ _ Hs E1) as (d1 & -> & Hs1). by apply modify_sim.
Qed.

(** A node begins to be removed, and is removed. *)
Lemma sim_begin dead d dl y : sim dead d dl → is_Some (dirties d !! y) → sim ({[y]} ∪ dead) d (without y dl).
Proof.
  intros [(H1 & H2 & H3 & H4 & H5) Hd] Hy. split.
  - split; [done |]. split; [| done]. cbn [dirties without set_dirties live]. rewrite H2. cbn [dirties live set_dirties]. apply map_eq. intros h. rewrite lookup_delete, !map_lookup_filter.
    destruct (decide (y = h)) as [<- | Hne].
    + destruct (dirties d !! y); cbn; [| done]. by rewrite option_guard_False by set_solver.
    + destruct (dirties d !! h); cbn; [| done]. destruct (decide (h ∈ dead)); [by rewrite !option_guard_False by set_solver | by rewrite !option_guard_True by set_solver].
  - intros z [->%elem_of_singleton | Hz]%elem_of_union; [done | by apply Hd].
Qed.

Lemma sim_end dead d dl y : sim ({[y]} ∪ dead) d dl → y ∉ dead → sim dead (set_dirties (base.delete y (dirties d)) d) dl.
Proof.
  intros [(H1 & H2 & H3 & H4 & H5) Hd] Hy. split.
  - split; [done |]. split; [| done]. rewrite H2. cbn [dirties live set_dirties]. apply map_eq. intros h. rewrite !map_lookup_filter, lookup_delete.
    destruct (decide (y = h)) as [<- | Hne].
    + destruct (dirties d !! y); cbn; [| done]. by rewrite option_guard_False by set_solver.
    + destruct (dirties d !! h); cbn; [| done]. destruct (decide (h ∈ dead)); [by rewrite !option_guard_False by set_solver | by rewrite !option_guard_True by set_solver].
  - intros z Hz. cbn [dirties set_dirties]. rewrite lookup_delete_ne by (by intros ->). apply Hd. set_solver.
Qed.

Lemma unlink_same y c d d' : unlink y c d = (Ok tt, d') → same_nodes d d'.
Proof.
  assert (∀ d d' p f, modify_dirty p f d = (Ok tt, d') → (∀ c, cn_node (f c) = cn_node c ∧ children (f c) = children c ∧ cn_size (f c) = cn_size c ∧ parents (f c) = parents c) → same_nodes d d') as Hmod.
  { intros d0 d1 p f Hm Hf. destruct (dirties d0 !! p) as [cp |] eqn:Hp; [| unfold modify_dirty, mbind, st_bind, dirty_at in Hm; by rewrite Hp in Hm].
    destruct (Hf cp) as (H1 & H2 & H3 & H4). destruct (modify_dirty_spec p f d0 cp Hp H1 H2 H3 H4) as [Heq Hs]. rewrite Hm in Heq. by injection Heq as ->. }
  unfold unlink, mbind, st_bind, st_get, st_modify. case_bool_decide; [intros Hu; by apply (Hmod _ _ _ _ Hu) |]. case_bool_decide; [intros Hu; by apply (Hmod _ _ _ _ Hu) |].
  destruct (modify_dirty (flushPrev c) _ d) as [[[] | |] d1] eqn:E; [| done..]. intros Hu. transitivity d1; [by apply (Hmod _ _ _ _ E) | by apply (Hmod _ _ _ _ Hu)].
Qed.

Lemma same_nodes_collects d d' : same_nodes d d' → collects d d'.
Proof. intros Hs. pose proof Hs as (H1 & H2 & _). split; [done |]. split; [done |]. intros h c Hc. destruct (same_nodes_at d d' h c Hs Hc) as (c0 & ? & ? & ? & _). by exists c0. Qed.

Lemma without_collects y d : collects d (without y d).
Proof. split; [done |]. split; [done |]. intros h c Hc. cbn [dirties without set_dirties] in Hc. apply lookup_delete_Some in Hc as [_ Hc]. by exists c. Qed.

Lemma collect_collects fuel : ∀ y d d', collect fuel y d = (Ok tt, d') → collects d d'.
Proof.
  induction fuel as [| fuel IH]; intros y d d'; [done |]. cbn [collect]. unfold mbind at 1, st_bind at 1, st_gets at 1. destruct (dirties d !! y) as [c |] eqn:Hy; [| by intros [= <-]].
  unfold mbind at 1, st_bind at 1, modify_dirty, mbind at 1, st_bind at 1, dirty_at. rewrite Hy. unfold st_modify at 1. pose proof (set_parents_collects y c (fewer_parents c) d Hy) as H1.
  destruct (fewer_parents c =? 0); [| by intros [= <-]]. unfold mbind, st_bind. destruct (unlink y c _) as [[[] | |] d2] eqn:Hu; [| done..]. apply unlink_same, same_nodes_collects in Hu.
  unfold st_lift. destruct (forChilds c) as [l | |]; [| done..]. unfold st_modify. intros He. transitivity (without y d2); [do 2 (etransitivity; [eassumption |]); apply without_collects |].
  revert He. generalize (without y d2). clear -IH. induction l as [| x l IHl]; intros d He; cbn [each] in He; [by injection He as <- |].
  unfold mbind, st_bind in He. destruct (collect fuel x d) as [[[] | |] d1] eqn:E; [| done..]. transitivity d1; [by apply (IH x) | by apply IHl].
Qed.

Section Dereference.
  Context (rank : list byte → nat).

(** The children of live nodes have a lower rank. *)
Definition ordered (dead : gset (list byte)) (dl : Database) : Prop :=
  ∀ h c w, dirties dl !! h = Some c → w ∈ child_list c → is_Some (dirties dl !! w) ∨ w ∈ dead → (rank w < rank h)%nat.

Definition below (dead : gset (list byte)) (dl : Database) (y : list byte) : Prop :=
  ∀ z, z ∈ dead → is_Some (dirties dl !! y) ∨ y ∈ dead → (rank y < rank z)%nat.

Lemma collects_dirty d d' w : collects d d' → is_Some (dirties d' !! w) → is_Some (dirties d !! w).
Proof. intros (_ & _ & Hs) [c Hc]. destruct (Hs w c Hc) as (c0 & ? & _). by eexists. Qed.

Lemma ordered_collects dead dl dl' : collects dl dl' → ordered dead dl → ordered dead dl'.
Proof.
  intros Hc Ho h c w Hh Hw Hd. pose proof Hc as (_ & _ & Hs). destruct (Hs h c Hh) as (c0 & Hc0 & Hn & Hch). rewrite (child_list_same c0 c) in Hw by done.
  apply (Ho h c0 w Hc0 Hw). destruct Hd as [Hd | ?]; [left; by apply (collects_dirty dl dl') | by right].
Qed.

Lemma below_collects dead dl dl' y : collects dl dl' → below dead dl y → below dead dl' y.
Proof. intros Hc Hb z Hz Hd. apply Hb; [done |]. destruct Hd as [Hd | ?]; [left; by apply (collects_dirty dl dl') | by right]. Qed.

Lemma each_sim fuel x l dead :
  (∀ y d dl dl', y ∈ l → sim dead d dl → ordered dead dl → below dead dl y → collect fuel y dl = (Ok tt, dl') → ∃ d', dereference fuel y x d = (Ok tt, d') ∧ sim dead d' dl') →
  ∀ d dl dl', sim dead d dl → ordered dead dl → (∀ y, y ∈ l → below dead dl y) → each (collect fuel) l dl = (Ok tt, dl') →
  ∃ d', each (λ h, dereference fuel h x) l d = (Ok tt, d') ∧ sim dead d' dl'.
Proof.
  induction l as [| y l IH]; intros Hf d dl dl' Hs Ho Hb He; cbn [each] in *; [injection He as <-; by exists d |].
  unfold mbind, st_bind in *. destruct (collect fuel y dl) as [[[] | |] dl1] eqn:E; [| done..].
  destruct (Hf y d dl dl1 ltac:(by left) Hs Ho (Hb y ltac:(by left)) E) as (d1 & -> & Hs1). pose proof (collect_collects fuel y dl dl1 E) as Hc.
  apply (IH ltac:(intros; eapply Hf; [by right | done..]) d1 dl1 dl' Hs1); [by apply (ordered_collects _ dl) | | done].
  intros y' Hy'. apply (below_collects _ dl); [done |]. apply Hb. by right.
Qed.

(** The rest of [dereference]. *)
Lemma drop_parent_sim fuel y dead d dl dl' :
  (∀ w dead d dl dl', sim dead d dl → y ∈ dead → ordered dead dl → below dead dl w → collect fuel w dl = (Ok tt, dl') → ∃ d', dereference fuel w y d = (Ok tt, d') ∧ sim dead d' dl') →
  sim dead d dl → ordered dead dl → below dead dl y → collect (S fuel) y dl = (Ok tt, dl') → ∃ d', drop_parent (dereference fuel) y d = (Ok tt, d') ∧ sim dead d' dl'.
Proof.
  intros IH Hs Ho Hb. assert (y ∉ dead) as Hy by (intros Hin; specialize (Hb y Hin (or_intror Hin)); lia). cbn [collect]. unfold drop_parent, mbind, st_bind, st_gets.
  pose proof (sim_lookup dead d dl y Hs Hy) as Hlk. rewrite <- Hlk. destruct (dirties dl !! y) as [c |] eqn:Hc; [| intros [= <-]; by exists d].
  fold (fewer_parents c). destruct (modify_dirty y (set_parents (fewer_parents c)) dl) as [[[] | |] dl1] eqn:E1; [| done..].
  destruct (modify_sim dead d dl dl1 _ _ Hs E1) as (d1 & -> & Hs1). destruct (fewer_parents c =? 0); [| intros [= <-]; by exists d1].
  destruct (unlink y c dl1) as [[[] | |] dl2] eqn:E2; [| done..]. destruct (unlink_sim dead d1 dl1 dl2 y c Hs1 E2) as (d2 & -> & Hs2).
  assert (dl1 = set_dirties (<[y := set_parents (fewer_parents c) c]> (dirties dl)) dl) as Hdl1.
  { unfold modify_dirty, mbind, st_bind, dirty_at in E1. rewrite Hc in E1. by injection E1. }
  assert (collects dl (without y dl2)) as Hcol.
  { transitivity dl1; [rewrite Hdl1; by apply set_parents_collects |]. transitivity dl2; [by apply same_nodes_collects, (unlink_same y c) | apply without_collects]. }
  assert (is_Some (dirties d2 !! y)) as Hy2.
  { rewrite <- (sim_lookup dead d2 dl2 y Hs2 Hy). destruct (unlink_same y c dl1 dl2 E2) as (_ & _ & Hsn). specialize (Hsn y). rewrite Hdl1 in Hsn. cbn [dirties set_dirties] in Hsn.
    rewrite lookup_insert_eq in Hsn. by destruct (dirties dl2 !! y). }
  unfold st_lift. destruct (forChilds c) as [l | |] eqn:Hl; [| done..]. unfold st_modify at 1. intros He.
  assert (∀ w, w ∈ l → is_Some (dirties dl !! w) ∨ w ∈ dead → (rank w < rank y)%nat) as Hlow by (intros w Hw; apply (Ho y c w Hc); unfold child_list; by rewrite Hl).
  destruct (each_sim fuel y l ({[y]} ∪ dead)) with (d := d2) (dl := without y dl2) (dl' := dl') as (d3 & -> & Hs3).
  - intros w dw dlw dlw' _ Hsw How Hbw. apply IH; [done | set_solver | done..].
  - by apply sim_begin.
  - intros h ch w Hh Hw Hd. pose proof Hcol as (_ & _ & Hsub). destruct (Hsub h ch Hh) as (c0 & Hc0 & Hn & Hch). rewrite (child_list_same c0 ch) in Hw by done.
    apply (Ho h c0 w Hc0 Hw). destruct Hd as [Hd | [->%elem_of_singleton | ?]%elem_of_union]; [left; by apply (collects_dirty _ _ w Hcol) | left; by eexists | by right].
  - intros w Hw z Hz Hd. assert (is_Some (dirties dl !! w) ∨ w ∈ dead) as Hd'.
    { destruct Hd as [Hd | [->%elem_of_singleton | ?]%elem_of_union]; [left; by apply (collects_dirty _ _ w Hcol) | left; by eexists | by right]. }
    specialize (Hlow w Hw Hd'). apply elem_of_union in Hz as [->%elem_of_singleton | Hz]; [done |]. specialize (Hb z Hz ltac:(left; by eexists)). lia.
  - done.
  - destruct (sim_dead _ _ _ Hs3 y ltac:(set_solver)) as [c3 Hc3]. unfold dirty_at. rewrite Hc3. unfold st_modify.
    pose proof (sim_end dead d3 dl' y Hs3 Hy) as Hs4. destruct (children c3); eexists; (split; [done |]); [apply sim_childrenSize |]; by apply sim_dirtiesSize.
Qed.

Lemma dereference_sim fuel : ∀ y x dead d dl dl', sim dead d dl → x ∈ dead → ordered dead dl → below dead dl y → collect fuel y dl = (Ok tt, dl') →
  ∃ d', dereference fuel y x d = (Ok tt, d') ∧ sim dead d' dl'.
Proof.
  induction fuel as [| fuel IH]; intros y x dead d dl dl' Hs Hx Ho Hb He; [done |]. cbn [dereference]. destruct (drop_child_sim dead d dl y x Hs Hx) as (d1 & H1 & Hs1).
  unfold mbind, st_bind. rewrite H1. apply (drop_parent_sim fuel y dead d1 dl); [| done..]. intros w dead' dw dlw dlw' Hsw Hy. by apply IH.
Qed.
End Dereference.

(** ** Dropping a root *)

(** The references of the meta root. *)
Definition meta_refs (d : Database) (r : list byte) : Z := match dirties d !! hash0 with Some c => refs r hash0 c | None => 0 end.

Lemma refs_meta x c : refs x hash0 c = default 0 (default ∅ (children c) !! x).
Proof. unfold refs. by rewrite bool_decide_eq_true_2. Qed.

Lemma meta_children c x : cn_node c = nilNode → x ∈ child_list c ↔ is_Some (default ∅ (children c) !! x).
Proof.
  intros Hn. unfold child_list, forChilds. rewrite Hn. cbn [forGatherChildren mbind outcome_bind]. rewrite app_nil_r, list_elem_of_fmap. split.
  - intros ([x' n] & -> & Hin). apply elem_of_map_to_list in Hin. by eexists.
  - intros [n Hn']. exists (x, n). split; [done | by apply elem_of_map_to_list].
Qed.

Lemma meta_child x c : cn_node c = nilNode → 0 < refs x hash0 c → x ∈ child_list c.
Proof. intros Hn. rewrite refs_meta, meta_children by done. destruct (default ∅ (children c) !! x); [by eexists | cbn; lia]. Qed.

(** [dereference] on the meta root. *)
Lemma drop_root_spec d root m n c : dirties d !! hash0 = Some c → children c = Some m → m !! root = Some n → 0 < n →
  ∃ d1 m', drop_child root hash0 d = (Ok tt, d1) ∧ same_data (set_dirties (<[hash0 := set_children (Some m') c]> (dirties d)) d) d1 ∧
    (∀ x, default 0 (m' !! x) = default 0 (m !! x) - if bool_decide (x = root) then 1 else 0) ∧ (∀ x, is_Some (m' !! x) → is_Some (m !! x)) ∧
    ∀ x k, m' !! x = Some k → k = n - 1 ∧ 0 < k ∨ m !! x = Some k.
Proof.
  intros Hc Hm Hn Hpos. unfold drop_child, modify_dirty, mbind, st_bind, dirty_at. rewrite Hc, Hm. cbv zeta. rewrite Hn. cbn [default from_option id].
  rewrite (proj2 (Z.ltb_lt 0 n) Hpos). destruct (n - 1 =? 0) eqn:E; rewrite Hc.
  - apply Z.eqb_eq in E. eexists _, (base.delete root m). split; [done |]. split; [done |]. split; [| split].
    + intros x. case_bool_decide as Hx; [subst x; rewrite lookup_delete_eq, Hn; cbn; lia | rewrite lookup_delete_ne by done; lia].
    + intros x [k Hk]. apply lookup_delete_Some in Hk as [_ ?]. by eexists.
    + intros x k Hk. apply lookup_delete_Some in Hk as [_ ?]. by right.
  - apply Z.eqb_neq in E. eexists _, (<[root := n - 1]> m). split; [done |]. split; [done |]. split; [| split].
    + intros x. case_bool_decide as Hx; [subst x; rewrite lookup_insert_eq, Hn; cbn; lia | rewrite lookup_insert_ne by done; lia].
    + intros x [k Hk]. apply lookup_insert_Some in Hk as [[<- _] | [_ ?]]; by eexists.
    + intros x k Hk. apply lookup_insert_Some in Hk as [[<- <-] | [_ ?]]; [left; lia | by right].
Qed.

Lemma gc_same_data d d' pending : same_data d d' → gc_ok d pending → gc_ok d' pending.
Proof.
  intros Hs [Hd Hm Hp Hc Ha]. pose proof (same_data_ok d d' Hs Hd) as Hd'. destruct Hs as (H1 & H2 & _). split; unfold available, on_disk in *; rewrite ?H1, ?H2; done.
Qed.

(** An entry gets other references: a pending one more for each that it loses. *)
Lemma gc_set_children d pending pending' h c m : gc_ok d pending → dirties d !! h = Some c → let c' := set_children (Some m) c in
  (∀ x, refs x h c' + occurrences x pending' <= refs x h c + occurrences x pending) → (∀ x, 0 < refs x h c' → available d x) →
  (h = hash0 → map_Forall (λ _ n, 0 <= n) m) → (h ≠ hash0 → is_Ok (forChilds c') = true) →
  gc_ok (set_dirties (<[h := c']> (dirties d)) d) pending'.
Proof.
  intros [Hd Hm Hp Hc Ha] Hh c' Hrefs Hav Hmeta Hchilds. set (d1 := set_dirties _ d).
  assert (∀ x cx, dirties d1 !! x = Some cx → ∃ c0, dirties d !! x = Some c0 ∧ cn_node cx = cn_node c0 ∧ parents cx = parents c0 ∧ (x ≠ h → cx = c0) ∧ (x = h → cx = c')) as Hsame.
  { intros x cx Hx. cbn [dirties set_dirties d1] in Hx. apply lookup_insert_Some in Hx as [[<- <-] | [Hne Hx]]; [by exists c | exists cx; naive_solver]. }
  assert (∀ x, available d x → available d1 x) as Hkeep.
  { intros x [[cx Hx] | ?]; [left | by right]. cbn [dirties set_dirties d1]. destruct (decide (h = x)) as [<- | ?]; [rewrite lookup_insert_eq | rewrite lookup_insert_ne by done]; by eexists. }
  split.
  - destruct Hd as ([order Ho] & He & Hpre). split; [exists order | split; [| done]].
    + destruct Ho as [H1 H2 H3 H4 H5 H6]. split; [done | | done | done | done | by apply (chain_same _ _ c)]. intros x. rewrite <- H2. cbn [dirties set_dirties d1].
      destruct (decide (h = x)) as [<- | Hne]; [rewrite lookup_insert_eq, Hh; naive_solver | by rewrite lookup_insert_ne].
    + intros x cx Hx Hx0. destruct (Hsame x cx Hx) as (c0 & Hc0 & Hn & _ & Hne & Heq). destruct (He x c0 Hc0 Hx0) as (Hl & Hr & Hf). split; [done |]. unfold cn_rlp. rewrite Hn. split; [done |].
      destruct (decide (x = h)) as [-> | ?]; [rewrite (Heq eq_refl); by apply Hchilds | by rewrite (Hne ltac:(done))].
  - intros cx Hx. destruct (Hsame hash0 cx Hx) as (c0 & Hc0 & Hn & _ & Hne & Heq). rewrite Hn. destruct (Hm c0 Hc0) as [? Hpos]. split; [done |].
    destruct (decide (h = hash0)) as [-> | Hh0]; [rewrite (Heq eq_refl); by apply Hmeta | by rewrite (Hne (not_eq_sym Hh0))].
  - intros x cx Hx Hx0. destruct (Hsame x cx Hx) as (c0 & Hc0 & _ & -> & _). destruct (Hp x c0 Hc0 Hx0) as [? Hle]. split; [done |]. change (on_disk d1 x) with (on_disk d x). intros Hn. specialize (Hle Hn).
    rewrite (total_delete _ (dirties d1) h c') by apply lookup_insert_eq. rewrite (total_delete _ _ h c Hh) in Hle. cbn [dirties set_dirties d1]. rewrite delete_insert_eq. specialize (Hrefs x). lia.
  - intros x cx y Hx Hr. apply Hkeep. destruct (Hsame x cx Hx) as (c0 & Hc0 & _ & _ & Hne & Heq). destruct (decide (x = h)) as [-> | Hxh]; [rewrite (Heq eq_refl) in Hr; by apply Hav |].
    rewrite (Hne Hxh) in Hr. by apply (Hc x c0).
  - intros x cx enc Hx Hx0. destruct (Hsame x cx Hx) as (c0 & Hc0 & Hn & _). unfold cn_rlp. rewrite Hn. by apply (Ha x c0 enc).
Qed.

(** Taking a reference away from the meta root makes it pending. *)
Lemma gc_drop_root d root c m' : gc_ok d [] → dirties d !! hash0 = Some c →
  (∀ x, default 0 (m' !! x) = default 0 (default ∅ (children c) !! x) - if bool_decide (x = root) then 1 else 0) → map_Forall (λ _ n, 0 <= n) m' →
  gc_ok (set_dirties (<[hash0 := set_children (Some m') c]> (dirties d)) d) [root].
Proof.
  intros Hg Hc Hm' Hpos. assert (∀ x, refs x hash0 (set_children (Some m') c) = refs x hash0 c - if bool_decide (x = root) then 1 else 0) as Hrefs by (intros x; rewrite !refs_meta; apply Hm').
  apply (gc_set_children d []); [done | done | | | done | done].
  - intros x. rewrite Hrefs, occurrences_cons. lia.
  - intros x. rewrite Hrefs. intros Hr. apply (gc_closed d [] Hg hash0 c x Hc). case_bool_decide; lia.
Qed.

Lemma sim_refl d : sim ∅ d d.
Proof.
  split; [| by intros z ?%not_elem_of_empty]. repeat (split; [done |]). split; [| done]. cbn [dirties live set_dirties]. symmetry. apply map_filter_id. set_solver.
Qed.

Lemma sim_same d dl : sim ∅ d dl → same_data dl d.
Proof.
  intros [(H1 & H2 & H3 & H4 & H5) _]. repeat (split; [done |]). split; [| done]. rewrite H2. cbn [dirties live set_dirties]. symmetry. apply map_filter_id. set_solver.
Qed.

(** What the nodes in memory refer to can be read. *)
Lemma gc_reach d r x rank : gc_ok d [] → acyclic d rank → available d r → r ≠ hash0 → reach d r x → available d x ∧ x ≠ hash0.
Proof.
  intros Hg Ha Hr Hr0 Hx. revert Hr Hr0. induction Hx as [h | h c l y x Hc Hl Hy _ IH]; intros Hav Hh0; [done |].
  assert (y ∈ child_list c) as Hy' by (unfold child_list; by rewrite Hl). destruct (Ha h c y Hc Hy') as [Hy0 _]. apply IH; [| done].
  apply (gc_closed d [] Hg h c y Hc). unfold refs. rewrite bool_decide_eq_false_2 by done. by apply occurrences_in.
Qed.

(** A node that is there after a collection reads as before. *)
Lemma collects_Node d d' pending x enc : gc_ok d pending → collects d d' → available d' x → x ≠ hash0 → Node d x = Ok enc → Node d' x = Ok enc.
Proof.
  intros Hg (Hd & _ & Hs) Hav Hx0 Hn. unfold Node in *. rewrite bool_decide_eq_false_2 in * by done. destruct (dirties d' !! x) as [c' |] eqn:Hc'.
  - destruct (Hs x c' Hc') as (c & Hc & Hnode & _). rewrite Hc in Hn. unfold cn_rlp in *. by rewrite Hnode.
  - destruct Hav as [[? ?] | [e He]]; [congruence |]. rewrite He. rewrite Hd in He. destruct (dirties d !! x) as [c |] eqn:Hc; [| by rewrite He in Hn].
    rewrite (gc_agree d pending Hg x c e Hc Hx0 He) in Hn. done.
Qed.

(** The first step of [Dereference]. *)
Lemma drop_root d root rank : gc_ok d [] → acyclic d rank → 0 < meta_refs d root →
  ∃ d1, drop_child root hash0 d = (Ok tt, d1) ∧ gc_ok d1 [root] ∧ fewer_links d d1 ∧ root ≠ hash0 ∧ dom (dirties d1) = dom (dirties d) ∧
    (∀ x, Node d1 x = Node d x) ∧ ∀ r, meta_refs d1 r = meta_refs d r - if bool_decide (r = root) then 1 else 0.
Proof.
  intros Hg Ha Hroot. unfold meta_refs in Hroot. destruct (dirties d !! hash0) as [c |] eqn:Hc; [| lia]. destruct (gc_meta d [] Hg c Hc) as [Hnil Hmeta].
  assert (root ≠ hash0) as Hr0 by (by apply (Ha hash0 c root Hc), meta_child).
  rewrite refs_meta in Hroot. destruct (children c) as [m |] eqn:Hm; [| cbn in Hroot; rewrite lookup_empty in Hroot; cbn in Hroot; lia]. cbn [default from_option id] in *.
  destruct (m !! root) as [n |] eqn:Hn; [| cbn in Hroot; lia]. cbn in Hroot.
  destruct (drop_root_spec d root m n c Hc Hm Hn Hroot) as (d1 & m' & Hdrop & Hsd & Hm' & Hsub & Hpos). exists d1. split; [done |].
  set (c1 := set_children (Some m') c) in *. pose proof Hsd as (Hdk & Hdd & _). cbn [diskdb dirties set_dirties] in Hdk, Hdd.
  assert (dirties d1 !! hash0 = Some c1) as Hc1 by (by rewrite Hdd, lookup_insert_eq).
  assert (dom (dirties d1) = dom (dirties d)) as Hdom by (rewrite Hdd; apply dom_insert_lookup_L; by eexists).
  split; [| split; [| split; [done | split; [done | split]]]].
  - apply (gc_same_data _ _ _ Hsd), gc_drop_root; [done | done | by rewrite Hm |]. intros x k Hk. destruct (Hpos x k Hk) as [? | Hk']; [lia | by apply (Hmeta x k)].
  - intros h ch Hh. destruct (decide (h = hash0)) as [-> | Hne]; [| exists ch; by rewrite Hdd, lookup_insert_ne in Hh]. rewrite Hc1 in Hh. injection Hh as <-. exists c. split; [done |].
    intros x. rewrite !meta_children, Hm by done. apply Hsub.
  - intros x. unfold Node. case_bool_decide as Hx; [done |]. by rewrite Hdd, Hdk, lookup_insert_ne.
  - intros r. unfold meta_refs. rewrite Hc1, Hc, !refs_meta, Hm. apply Hm'.
Qed.

(** [Dereference] takes one reference to a root away and collects garbage. *)
Lemma Dereference_collects d root rank : gc_ok d [] → acyclic d rank → 0 < meta_refs d root →
  ∃ d1 d', Dereference root d = (Ok tt, d') ∧ gc_ok d' [] ∧ gc_ok d1 [root] ∧ collects d1 d' ∧ fewer_links d d' ∧ (∀ x, Node d1 x = Node d x) ∧
    ∀ r, meta_refs d' r = meta_refs d r - if bool_decide (r = root) then 1 else 0.
Proof.
  intros Hg Har Hroot. destruct (acyclic_ranked d rank Har) as (rk & Hrk & Hlt).
  assert (acyclic d rk) as Ha by (intros h c x Hc Hx; unfold child_list in Hx; destruct (forChilds c) as [l | |] eqn:Hl; [by apply (Hrk h c l) | by apply not_elem_of_nil in Hx..]).
  clear Har Hrk rank. rename rk into rank. destruct (drop_root d root rank Hg Ha Hroot) as (d1 & Hdrop & Hg1 & Hacy & Hr0 & Hdom & Hnode & Hmeta). pose proof (acyclic_fewer d d1 rank Hacy Ha) as Ha1.
  assert (enough rank (S (base.size (dirties d))) d1 root) as Hf.
  { split; [lia |]. intros Hs. enough (rank root < base.size (dirties d))%nat by lia. apply Hlt, elem_of_dom. rewrite <- Hdom. by apply elem_of_dom. }
  destruct (collect_spec rank (S (base.size (dirties d))) root [] d1 Hg1 Ha1 Hr0 Hf) as (dl & Hcol & Hgl & Hcl).
  destruct (drop_parent_sim rank (base.size (dirties d)) root ∅ d1 d1 dl) as (d' & Hd' & Hs).
  { intros w dead dw dlw dlw' Hsw Hin How Hbw. by apply (dereference_sim rank). }
  { apply sim_refl. }
  { intros h ch w Hh Hw [Hs | ?%not_elem_of_empty]; [by apply (Ha1 h ch w) | done]. }
  { by intros z ?%not_elem_of_empty. }
  { done. }
  pose proof (sim_same d' dl Hs) as Hsd. pose proof (gc_same_data dl d' [] Hsd Hgl) as Hg'. exists d1, d'. split; [| split; [done |]; split; [done |]].
  { unfold Dereference. rewrite bool_decide_eq_false_2 by done. unfold mbind at 1, st_bind at 1, st_gets at 1. cbn [dereference]. unfold mbind, st_bind. by rewrite Hdrop. }
  assert (collects d1 d') as Hc'.
  { destruct Hsd as (H1 & H2 & _ & _ & H5). destruct Hcl as (H6 & H7 & H8). split; [congruence |]. split; [congruence |]. by rewrite H2. }
  split; [done |]. split; [by apply (fewer_links_trans d d1), collects_fewer |]. split; [done |].
  intros r. rewrite <- Hmeta. unfold meta_refs. pose proof Hc' as (_ & _ & Hsub). destruct (gc_database _ _ Hg') as ([order Ho] & _).
  destruct (proj2 (fl_dom d' order Ho hash0) (or_introl eq_refl)) as [c' Hc0]. destruct (Hsub hash0 c' Hc0) as (c1 & Hc1 & Hn1 & Hch1). rewrite Hc0, Hc1. by apply refs_same.
Qed.

(** A referenced root is there. *)
Lemma referenced_available d r rank : gc_ok d [] → acyclic d rank → 0 < meta_refs d r → available d r ∧ r ≠ hash0.
Proof.
  intros Hg Ha Hr. unfold meta_refs in Hr. destruct (dirties d !! hash0) as [c |] eqn:Hc; [| lia].
  split; [by apply (gc_closed d [] Hg hash0 c) |]. apply (Ha hash0 c r Hc), meta_child; [by apply (gc_meta d [] Hg) | done].
Qed.

Theorem Dereference_keeps_referenced (d : Database) (root : list byte) (rank : list byte → nat) :
  gc_ok d [] → acyclic d rank → 0 < meta_refs d root →
  ∃ d', Dereference root d = (Ok tt, d') ∧ gc_ok d' [] ∧
    (∀ r, meta_refs d' r = meta_refs d r - if bool_decide (r = root) then 1 else 0) ∧
    ∀ r x enc, 0 < meta_refs d' r ∨ is_Some (dirties d' !! r) ∧ r ≠ hash0 → reach d' r x → Node d x = Ok enc → Node d' x = Ok enc.
Proof.
  intros Hg Ha Hroot. destruct (Dereference_collects d root rank Hg Ha Hroot) as (d1 & d' & Hd & Hg' & Hg1 & Hc & Hacy & Hnode & Hmeta). apply (fun H => acyclic_fewer d d' rank H Ha) in Hacy.
  exists d'. split; [done |]. split; [done |]. split; [done |]. intros r x enc Hr Hx Hn.
  assert (available d' r ∧ r ≠ hash0) as [Hav Hr0] by (destruct Hr as [Hr | [? ?]]; [by apply (referenced_available d' r rank) | by split; [left |]]).
  destruct (gc_reach d' r x rank Hg' Hacy Hav Hr0 Hx) as [Hax Hx0]. apply (collects_Node d1 d' [root]); [done.. |]. by rewrite Hnode.
Qed.
