(* ===== verification/TrieRefs.v ===== *)
(** Sequences of operations on the node database of tries
    (src/l2geth/trie/database.go): inserting, referencing, dereferencing, capping
    and committing in any order keep the reference counts right, so every node
    that a referenced root leads to can be read. *)

From S2P Require Import Prelude Rlp TrieNode TrieDatabase TrieDatabaseFacts TrieFlush TrieCap TrieGC.

#[local] Opaque hash0.

(** ** Moving nodes to disk *)

Lemma total_mono f m m' : (∀ h c, m !! h = Some c → 0 <= f h c) → (∀ h c', m' !! h = Some c' → ∃ c, m !! h = Some c ∧ f h c' = f h c) → total f m' <= total f m.
Proof.
  revert m. induction m' as [| h c' m' Hn IH] using map_ind; intros m Hpos Hsub; [by apply total_nonneg |].
  rewrite total_insert by done. destruct (Hsub h c') as (c & Hc & ->); [by rewrite lookup_insert_eq |]. rewrite (total_delete f m h c Hc). apply Z.add_le_mono_l. apply IH.
  - intros x cx Hx. apply lookup_delete_Some in Hx as [_ Hx]. by apply Hpos.
  - intros x cx Hx. assert (h ≠ x) as Hne by congruence. destruct (Hsub x cx) as (c2 & ? & ?); [by rewrite lookup_insert_ne |]. exists c2. by rewrite lookup_delete_ne.
Qed.

Lemma dirty_readable d x c : database_ok d → dirties d !! x = Some c → x ≠ hash0 → length x = HashLength ∧ ∃ enc, Node d x = Ok enc ∧ cn_rlp c = Ok enc.
Proof.
  intros (_ & He & _) Hc Hx0. destruct (He x c Hc Hx0) as (Hl & Hr & _). split; [done |]. destruct (cn_rlp c) as [enc | |] eqn:E; [| done..]. exists enc.
  unfold Node. by rewrite bool_decide_eq_false_2, Hc, E.
Qed.

Lemma settled_available d d' x : database_ok d → settled d d' → available d x → available d' x.
Proof.
  intros Hok (Hok' & Hk & Hs) [[c Hc] | Hd]; [| right; by apply (sk_disk _ _ Hs)]. destruct (decide (x = hash0)) as [-> | Hx0].
  - left. destruct Hok' as ([order Ho] & _). apply (fl_dom _ _ Ho). by left.
  - destruct (dirty_readable d x c Hok Hc Hx0) as (Hl & enc & Hn & _). apply (Hk x enc Hl) in Hn. unfold Node in Hn. rewrite bool_decide_eq_false_2 in Hn by done.
    unfold available, on_disk. destruct (dirties d' !! x); [left; by eexists | right]. destruct (kv (diskdb d') !! x); [by eexists | done].
Qed.

Lemma gc_settled d d' : gc_ok d [] → settled d d' → gc_ok d' [].
Proof.
  intros Hg Hset. pose proof Hg as [Hd Hm Hp Hc Ha]. pose proof Hset as (Hok' & Hk & [He Hdisk Hagree]). split; [done | | | |].
  - intros c Hc0. destruct (He hash0 c Hc0) as (c0 & H0 & -> & -> & _). by apply Hm.
  - intros x c Hx Hx0. destruct (He x c Hx) as (c0 & H0 & _ & _ & ->). destruct (Hp x c0 H0 Hx0) as [Hpos Hle]. split; [done |]. intros Hn.
    specialize (Hle ltac:(intros Hin; by apply Hn, Hdisk)). enough (total (refs x) (dirties d') <= total (refs x) (dirties d)) by lia. apply total_mono; [intros h ch; by apply (refs_nonneg d []) |].
    intros h ch Hh. destruct (He h ch Hh) as (c1 & ? & ? & ? & _). exists c1. split; [done | by apply refs_same].
  - intros h c x Hh Hr. destruct (He h c Hh) as (c0 & H0 & Hn & Hch & _). rewrite (refs_same x h c0 c) in Hr by done. apply (settled_available d); [done.. | by apply (Hc h c0)].
  - intros x c enc Hx Hx0. apply Hagree; [| done | | done].
    + intros h ch e Hh _ Hh0. by apply Ha.
    + by apply (dirty_readable d' x c).
Qed.

Lemma settled_fewer d d' : settled d d' → fewer_links d d'.
Proof. intros (_ & _ & [He _ _]) h c Hc. destruct (He h c Hc) as (c0 & ? & ? & ? & _). exists c0. by rewrite (child_list_same c0 c). Qed.

(** ** Inserting *)

Definition no_overflow (l : list (list byte)) (d : Database) : Prop := ∀ x c, x ∈ l → dirties d !! x = Some c → 0 <= parents c ∧ parents c + occurrences x l < 2 ^ 32.

Lemma u32_small z : 0 <= z < 2 ^ 32 → u32 z = z.
Proof. intros Hz. unfold u32. by apply Z.mod_small. Qed.

Lemma gc_count d pending y : gc_ok d pending → no_overflow [y] d → ∃ d', count_parent y d = (Ok tt, d') ∧ gc_ok d' (y :: pending).
Proof.
  intros Hg Ho. unfold count_parent. destruct (dirties d !! y) as [c |] eqn:Hy.
  - destruct (Ho y c ltac:(by left) Hy) as [Hpos Hlt]. rewrite occurrences_cons, bool_decide_eq_true_2 in Hlt by done. change (occurrences y []) with 0 in Hlt.
    rewrite u32_small by lia. eexists. split; [done |]. apply (gc_set_parents d pending); [done | done | |].
    + intros Hy0. destruct (gc_parents d _ Hg y c Hy Hy0) as [_ Hle]. split; [lia |]. intros Hn. specialize (Hle Hn). rewrite occurrences_cons, bool_decide_eq_true_2 by done. lia.
    + intros x Hx. rewrite occurrences_cons, bool_decide_eq_false_2 by done. lia.
  - exists d. split; [done |]. apply (gc_pending d _ _ Hg). intros x [c Hx] _. rewrite occurrences_cons, bool_decide_eq_false_2 by congruence. lia.
Qed.

Lemma gc_counts l : ∀ d pending, gc_ok d pending → no_overflow l d → ∃ d', each count_parent l d = (Ok tt, d') ∧ gc_ok d' (l ++ pending).
Proof.
  induction l as [| y l IH]; intros d pending Hg Ho; [by exists d |]. cbn [each]. unfold mbind, st_bind.
  destruct (gc_count d pending y Hg) as (d1 & Hd1 & Hg1).
  { intros x c ->%list_elem_of_singleton Hc. destruct (Ho y c ltac:(by left) Hc) as [? Hlt]. rewrite occurrences_cons, bool_decide_eq_true_2 in * by done. pose proof (occurrences_nonneg y l).
    change (occurrences y []) with 0. lia. }
  rewrite Hd1. destruct (IH d1 (y :: pending) Hg1) as (d2 & -> & Hg2).
  { intros x c Hx Hc. unfold count_parent in Hd1. destruct (dirties d !! y) as [cy |] eqn:Hy.
    - injection Hd1 as <-. cbn [dirties set_dirties] in Hc. destruct (Ho y cy ltac:(by left) Hy) as [Hpos Hlt]. rewrite occurrences_cons, bool_decide_eq_true_2 in Hlt by done.
      pose proof (occurrences_nonneg y l). rewrite u32_small in Hc by lia. apply lookup_insert_Some in Hc as [[<- <-] | [Hne Hc]]; [cbn; lia |].
      destruct (Ho x c ltac:(by right) Hc) as [? Hlt']. rewrite occurrences_cons, bool_decide_eq_false_2 in Hlt' by done. lia.
    - injection Hd1 as <-. destruct (Ho x c ltac:(by right) Hc) as [? Hlt]. rewrite occurrences_cons in Hlt. case_bool_decide; lia. }
  exists d2. split; [done |]. apply (gc_pending d2 _ _ Hg2). intros x _ _. cbn [app]. rewrite occurrences_cons, !occurrences_app, occurrences_cons. lia.
Qed.

Lemma total_zero f m : (∀ h c, m !! h = Some c → f h c = 0) → total f m = 0.
Proof.
  induction m as [| h c m Hn IH] using map_ind; intros Hf; [done |]. rewrite total_insert by done. rewrite (Hf h c) by (by rewrite lookup_insert_eq).
  rewrite IH; [done |]. intros x cx Hx. apply Hf. rewrite lookup_insert_ne; [done | congruence].
Qed.

(** The entries of [d'] are those of [d] and a new one. *)
Record adds (d d' : Database) (hash : list byte) (entry : cachedNode) : Prop := {
  ad_disk : diskdb d' = diskdb d;
  ad_new : dirties d !! hash = None;
  ad_entry : dirties d' !! hash = Some entry;
  ad_other : ∀ h, h ≠ hash → ((λ c, (cn_node c, children c, parents c)) <$> dirties d' !! h) = ((λ c, (cn_node c, children c, parents c)) <$> dirties d !! h);
}.

Lemma adds_other d d' hash entry h c : adds d d' hash entry → h ≠ hash → dirties d' !! h = Some c →
  ∃ c0, dirties d !! h = Some c0 ∧ cn_node c = cn_node c0 ∧ children c = children c0 ∧ parents c = parents c0.
Proof. intros Ha Hne Hc. pose proof (ad_other _ _ _ _ Ha h Hne) as Ho. rewrite Hc in Ho. destruct (dirties d !! h) as [c0 |]; [| done]. injection Ho as ? ? ?. by exists c0. Qed.

Lemma adds_total d d' hash entry x : adds d d' hash entry → total (refs x) (dirties d') = refs x hash entry + total (refs x) (dirties d).
Proof.
  intros Ha. rewrite (total_delete _ _ hash entry (ad_entry _ _ _ _ Ha)). f_equal. apply total_ext. intros h. destruct (decide (hash = h)) as [<- | Hne].
  - by rewrite lookup_delete_eq, (ad_new _ _ _ _ Ha).
  - rewrite lookup_delete_ne by done. pose proof (ad_other _ _ _ _ Ha h (not_eq_sym Hne)) as Ho. destruct (dirties d' !! h), (dirties d !! h); try done.
    injection Ho as ? ? _. cbn. f_equal. by apply refs_same.
Qed.

Lemma adds_available d d' hash entry x : adds d d' hash entry → available d x → available d' x.
Proof.
  intros Ha [Hx | Hx]; [left | right; unfold on_disk; by rewrite (ad_disk _ _ _ _ Ha)]. destruct (decide (x = hash)) as [-> | Hne]; [by rewrite (ad_entry _ _ _ _ Ha) |].
  pose proof (ad_other _ _ _ _ Ha x Hne) as Ho. destruct Hx as [c Hx]. rewrite Hx in Ho. by destruct (dirties d' !! x).
Qed.

(** The counted references become those of the new node. *)
Lemma gc_add d d' hash entry : gc_ok d (child_list entry) → adds d d' hash entry → database_ok d' → hash ≠ hash0 → parents entry = 0 →
  hash ∉ child_list entry → (∀ x, x ∈ child_list entry → available d x) → (∀ enc, kv (diskdb d) !! hash = Some enc → cn_rlp entry = Ok enc) → gc_ok d' [].
Proof.
  intros Hg Ha Hok' Hh0 Hpar Hnin Hav Henc. pose proof Hg as [Hd Hm Hp Hc Hagree].
  assert (∀ x, refs x hash entry = occurrences x (child_list entry)) as Hrefs by (intros x; unfold refs; by rewrite bool_decide_eq_false_2).
  split; [done | | | |].
  - intros c Hc0. destruct (adds_other _ _ _ _ hash0 c Ha ltac:(done) Hc0) as (c0 & H0 & -> & -> & _). by apply Hm.
  - intros x c Hx Hx0. rewrite (adds_total _ _ _ _ x Ha), Hrefs. change (occurrences x []) with 0. unfold on_disk. rewrite (ad_disk _ _ _ _ Ha). destruct (decide (x = hash)) as [-> | Hne].
    + rewrite (ad_entry _ _ _ _ Ha) in Hx. injection Hx as <-. rewrite Hpar. split; [done |]. intros Hn.
      rewrite (total_zero (refs hash)).
      * pose proof (proj2 (occurrences_in hash (child_list entry))). pose proof (occurrences_nonneg hash (child_list entry)). destruct (decide (0 < occurrences hash (child_list entry))); [tauto | lia].
      * intros h ch Hh. pose proof (refs_nonneg d _ hash h ch Hg Hh). destruct (decide (0 < refs hash h ch)) as [Hr | ?]; [| lia].
        destruct (Hc h ch hash Hh Hr) as [[? ?] | ?]; [| done]. pose proof (ad_new _ _ _ _ Ha). congruence.
    + destruct (adds_other _ _ _ _ x c Ha Hne Hx) as (c0 & H0 & _ & _ & ->). destruct (Hp x c0 H0 Hx0) as [? Hle]. split; [done |]. intros Hn. specialize (Hle Hn). lia.
  - intros h c x Hh Hr. apply (adds_available _ _ _ _ _ Ha). destruct (decide (h = hash)) as [-> | Hne].
    + rewrite (ad_entry _ _ _ _ Ha) in Hh. injection Hh as <-. rewrite Hrefs in Hr. by apply Hav, occurrences_in.
    + destruct (adds_other _ _ _ _ h c Ha Hne Hh) as (c0 & H0 & Hn & Hch & _). rewrite (refs_same x h c0 c) in Hr by done. by apply (Hc h c0).
  - intros x c enc Hx Hx0. rewrite (ad_disk _ _ _ _ Ha). destruct (decide (x = hash)) as [-> | Hne]; [rewrite (ad_entry _ _ _ _ Ha) in Hx; injection Hx as <-; apply Henc |].
    destruct (adds_other _ _ _ _ x c Ha Hne Hx) as (c0 & H0 & Hn & _). unfold cn_rlp. rewrite Hn. by apply Hagree.
Qed.

Lemma count_parents_adds l d d1 d2 hash entry : each count_parent l d = (Ok tt, d1) → adds d1 d2 hash entry →
  diskdb d2 = diskdb d ∧ ∀ h c, h ≠ hash → dirties d2 !! h = Some c → ∃ c0, dirties d !! h = Some c0 ∧ cn_node c = cn_node c0 ∧ children c = children c0.
Proof.
  intros Hl Ha. destruct (count_parents_spec l d) as (d1' & Hl' & Hd & He). rewrite Hl in Hl'. injection Hl' as <-. split; [rewrite (ad_disk _ _ _ _ Ha); by rewrite Hd |].
  intros h c Hne Hc. destruct (adds_other _ _ _ _ h c Ha Hne Hc) as (c1 & Hc1 & -> & -> & _). destruct (erase_lookup _ (dirties d) h c1 (eq_sym He) Hc1) as [z Hz]. by exists (set_parents z c1).
Qed.

Lemma gc_insert d hash blob n raw l :
  gc_ok d [] → dirties d !! hash = None → length hash = HashLength → simplifyNode n = Ok raw → node_blob raw = Ok blob → node_childs raw = Ok l →
  no_overflow l d → hash ∉ l → (∀ x, x ∈ l → available d x) → (∀ enc, kv (diskdb d) !! hash = Some enc → enc = blob) →
  ∃ d' entry, insert_dirty hash blob n d = (Ok tt, d') ∧ gc_ok d' [] ∧ diskdb d' = diskdb d ∧ dirties d' !! hash = Some entry ∧ cn_rlp entry = Ok blob ∧ child_list entry = l ∧
    ∀ h c, h ≠ hash → dirties d' !! h = Some c → ∃ c0, dirties d !! h = Some c0 ∧ cn_node c = cn_node c0 ∧ children c = children c0.
Proof.
  intros Hg Hnone Hlen Hn Henc Hl Hov Hnin Hav Hdisk. destruct (gc_counts l d [] Hg Hov) as (d1 & Hd1 & Hg1). rewrite app_nil_r in Hg1.
  destruct (insert_dirty_spec d hash blob n raw (gc_database _ _ Hg) Hn Hlen Henc ltac:(by rewrite Hl)) as (d' & Hi & Hok' & _).
  rewrite (insert_dirty_new d hash blob n raw l d1 Hnone Hn Hl Hd1) in *. set (entry := new_entry d blob raw) in *.
  assert (child_list entry = l) as Hcl by (unfold child_list, entry; by rewrite new_entry_childs, Hl by (by rewrite Hl)).
  assert (cn_rlp entry = Ok blob) as Hrlp by (by apply node_blob_rlp).
  destruct (count_parents_spec l d) as (d1' & Hd1' & Hsame). rewrite Hd1 in Hd1'. injection Hd1' as <-. destruct Hsame as [Heq Her].
  destruct (gc_database _ _ Hg1) as ([order Ho] & _). assert (dirties d1 !! hash = None) as Hnone1 by (by apply (erase_None (dirties d))).
  destruct (append_dirty_spec d1 order hash entry Ho Hnone1) as (d2 & Happ & _ & Hdk & _ & He & Hother); [cbn; by rewrite Heq | done |].
  rewrite Hi in Happ. injection Happ as <-.
  assert (adds d1 d' hash entry) as Ha.
  { split; [done.. |]. intros h Hh. destruct (Hother h Hh) as (f & -> & Hf). destruct (dirties d1 !! h) as [c |]; [| done]. cbn. destruct (Hf c) as (-> & -> & ->). done. }
  destruct (count_parents_adds l d d1 d' hash entry Hd1 Ha) as [Hdk' Hsub]. exists d', entry. split; [done |]. split; [| by repeat split].
  assert (hash ≠ hash0) as Hh0.
  { intros ->. destruct (gc_database _ _ Hg) as ([order0 Ho0] & _). destruct (proj2 (fl_dom d order0 Ho0 hash0) (or_introl eq_refl)) as [? ?]. congruence. }
  apply (gc_add d1 d' hash entry); rewrite ?Hcl; [done | done | done | done | done | done | |].
  - intros x Hx. destruct (Hav x Hx) as [[c Hc] | Hdx]; [left | right; unfold on_disk in *; by rewrite Heq]. destruct (erase_lookup _ (dirties d1) x c Her Hc) as [z Hz]. by eexists.
  - intros enc Hk. rewrite Heq in Hk. cbn [diskdb set_dirties] in Hk. by rewrite (Hdisk enc Hk).
Qed.

(** ** Referencing *)

(** The entries after a reference is added. *)
Definition referenced (child parent : list byte) (c p : cachedNode) (m : gmap (list byte) Z) (n : Z) (d : Database) : Database :=
  set_dirties (<[parent := set_children (Some (<[child := n]> m)) p]> (<[child := set_parents (u32 (parents c + 1)) c]> (dirties d))) d.

Lemma reference_dirty_spec d child parent c p : dirties d !! child = Some c → dirties d !! parent = Some p → child ≠ parent →
  let m := default ∅ (children p) in
  ∃ d', reference_dirty child parent d = (Ok tt, d') ∧
    (d' = d ∨ (m !! child = None ∨ parent = hash0) ∧ same_data (referenced child parent c p m (u16 (default 0 (m !! child) + 1)) d) d').
Proof.
  intros Hc Hp Hne m. unfold reference_dirty. unfold mbind at 1, st_bind at 1, st_gets at 1. rewrite bool_decide_eq_true_2 by (by eexists). cbn [negb].
  unfold mbind at 1, st_bind at 1, dirty_at at 1. rewrite Hp. subst m. destruct (children p) as [m |] eqn:Hm; cbn [default from_option id].
  - destruct (bool_decide (is_Some (m !! child)) && negb (bool_decide (parent = hash0))) eqn:E; [exists d; split; [done | by left] |].
    assert (m !! child = None ∨ parent = hash0) as Hcase.
    { apply andb_false_iff in E as [E | E]; [left; apply bool_decide_eq_false in E; by destruct (m !! child); [destruct E; eexists |] | right; apply negb_false_iff in E; by apply bool_decide_eq_true in E]. }
    unfold modify_dirty, mbind, st_bind, dirty_at, st_modify. rewrite Hc. cbn [dirties set_dirties]. rewrite lookup_insert_ne, Hp by done. cbn [dirties set_dirties].
    destruct (_ =? 1); (eexists; split; [done |]; right; split; [done |]); repeat split.
  - unfold modify_dirty, mbind, st_bind, dirty_at, st_modify. cbn [dirties set_dirties add_childrenSize]. rewrite Hc. cbn [dirties set_dirties add_childrenSize]. rewrite lookup_insert_ne, Hp by done.
    cbn [dirties set_dirties]. eexists. split; [done |]. right. rewrite lookup_empty. split; [by left |]. repeat split.
Qed.

Lemma occurrences_perm x l l' : l ≡ₚ l' → occurrences x l = occurrences x l'.
Proof. intros Hp. unfold occurrences. by rewrite Hp. Qed.

Lemma forChilds_split c l : forChilds c = Ok l → ∃ g, l = (map_to_list (default ∅ (children c))).*1 ++ g ∧ ∀ m, forChilds (set_children m c) = Ok ((map_to_list (default ∅ m)).*1 ++ g).
Proof.
  unfold forChilds. cbn [cn_node children set_children]. destruct (cn_node c).
  all: try (intros [= <-]; exists []; split; [by rewrite app_nil_r | intros m; by rewrite app_nil_r]).
  all: destruct (forGatherChildren _) as [g | |]; cbn [mbind outcome_bind]; [| done..]; intros [= <-]; by exists g.
Qed.

(** The references of the parent. *)
Lemma referenced_childs child p n l : forChilds p = Ok l → let m := default ∅ (children p) in
  ∃ l', forChilds (set_children (Some (<[child := n]> m)) p) = Ok l' ∧ (∀ x, x ∈ l' → x = child ∨ x ∈ l) ∧
    (m !! child = None → ∀ x, occurrences x l' = (if bool_decide (x = child) then 1 else 0) + occurrences x l).
Proof.
  intros Hl m. destruct (forChilds_split p l Hl) as (g & -> & Hset). fold m. eexists. split; [apply Hset |]. cbn [default from_option id]. split.
  - intros x. rewrite !elem_of_app, !list_elem_of_fmap. intros [([x' k] & -> & Hin) | ?]; [| tauto]. apply elem_of_map_to_list, lookup_insert_Some in Hin as [[<- _] | [_ Hin]]; [by left |].
    right. left. exists (x', k). split; [done | by apply elem_of_map_to_list].
  - intros Hn x. rewrite !occurrences_app. rewrite (occurrences_perm x _ (((child, n) :: map_to_list m).*1)) by (by rewrite map_to_list_insert). cbn [fmap list_fmap fst]. rewrite occurrences_cons. lia.
Qed.

Lemma u16_succ z : 0 <= z → 0 <= u16 (z + 1) <= z + 1.
Proof. intros Hz. unfold u16. split; [by apply Z.mod_pos_bound | apply Z.mod_le; lia]. Qed.

Lemma gc_reference d child parent c p : gc_ok d [] → dirties d !! child = Some c → dirties d !! parent = Some p → child ≠ hash0 → child ≠ parent → parents c + 1 < 2 ^ 32 →
  ∃ d', reference_dirty child parent d = (Ok tt, d') ∧ gc_ok d' [] ∧ diskdb d' = diskdb d ∧
    ∀ h c', dirties d' !! h = Some c' → ∃ c0, dirties d !! h = Some c0 ∧ cn_node c' = cn_node c0 ∧ ∀ x, x ∈ child_list c' → x ∈ child_list c0 ∨ h = parent ∧ x = child.
Proof.
  intros Hg Hc Hp Hc0 Hne Hlt. destruct (reference_dirty_spec d child parent c p Hc Hp Hne) as (d' & Hrun & Hd'). exists d'. split; [done |].
  destruct Hd' as [-> | [Hcase Hsd]]; [split; [done |]; split; [done |]; intros h c' Hc'; exists c'; auto |].
  destruct (gc_parents d [] Hg child c Hc Hc0) as [Hpos _]. set (m := default ∅ (children p)) in *. set (n := u16 (default 0 (m !! child) + 1)) in *.
  assert (∃ l, forChilds p = Ok l) as [l Hl].
  { destruct (decide (parent = hash0)) as [-> | Hp0].
    - destruct (gc_meta d [] Hg p Hp) as [Hnil _]. unfold forChilds. rewrite Hnil. by eexists.
    - destruct (gc_database d [] Hg) as (_ & He & _). destruct (He parent p Hp Hp0) as (_ & _ & Hf). destruct (forChilds p) as [l | |]; [by exists l | done..]. }
  destruct (referenced_childs child p n l Hl) as (l' & Hl' & Hsub & Hocc). fold m in Hl', Hsub, Hocc.
  destruct (gc_count d [] child Hg) as (d1 & Hd1 & Hg1).
  { intros x cx ->%list_elem_of_singleton Hx. rewrite Hc in Hx. injection Hx as <-. rewrite occurrences_cons, bool_decide_eq_true_2 by done. change (occurrences child []) with 0. lia. }
  unfold count_parent in Hd1. rewrite Hc in Hd1. injection Hd1 as Hd1.
  assert (dirties d1 !! parent = Some p) as Hp1 by (rewrite <- Hd1; cbn [dirties set_dirties]; by rewrite lookup_insert_ne).
  assert (map_Forall (λ _ k, 0 <= k) m → 0 <= default 0 (m !! child)) as Hdef by (intros Hf; destruct (m !! child) as [k |] eqn:E; [by apply (Hf child k E) | done]).
  split; [| split].
  - apply (gc_same_data _ _ _ Hsd). unfold referenced. replace (set_dirties _ d) with (set_dirties (<[parent := set_children (Some (<[child := n]> m)) p]> (dirties d1)) d1) by (by rewrite <- Hd1).
    assert (∀ x, refs x parent (set_children (Some (<[child := n]> m)) p) <= refs x parent p + if bool_decide (x = child) then 1 else 0) as Hrefs.
    { intros x. unfold refs. case_bool_decide as Hp0.
      - cbn [children set_children default from_option id]. subst parent. destruct (gc_meta d [] Hg p Hp) as [_ Hpm]. fold m in Hpm |- *. case_bool_decide as Hx.
        + subst x. rewrite lookup_insert_eq. cbn [default from_option id]. pose proof (u16_succ (default 0 (m !! child)) (Hdef Hpm)). unfold n. lia.
        + rewrite lookup_insert_ne by done. lia.
      - destruct Hcase as [Hn | ?]; [| done]. unfold child_list. rewrite Hl', Hl, (Hocc Hn x). lia. }
    apply (gc_set_children d1 [child]); [done | done | | | |].
    + intros x. specialize (Hrefs x). rewrite occurrences_cons. change (occurrences x []) with 0. lia.
    + intros x Hr. specialize (Hrefs x). case_bool_decide as Hx; [subst x; left; rewrite <- Hd1; cbn [dirties set_dirties]; rewrite lookup_insert_eq; by eexists |].
      apply (gc_closed d1 _ Hg1 parent p x Hp1). lia.
    + intros ->. destruct (gc_meta d [] Hg p Hp) as [_ Hpm]. fold m in Hpm. apply map_Forall_insert_2; [apply u16_succ; auto | done].
    + intros _. by rewrite Hl'.
  - by destruct Hsd as (-> & _).
  - intros h c' Hc'. destruct Hsd as (_ & Hdd & _). rewrite Hdd in Hc'. cbn [dirties set_dirties referenced] in Hc'. apply lookup_insert_Some in Hc' as [[<- <-] | [_ Hc']].
    + exists p. split; [done |]. split; [done |]. unfold child_list. rewrite Hl', Hl. intros x Hx. destruct (Hsub x Hx); tauto.
    + apply lookup_insert_Some in Hc' as [[<- <-] | [_ Hc']]; [exists c | exists c']; (split; [done |]; split; [done |]); auto.
Qed.

(** ** Sequences of operations *)

Inductive db_op :=
  | OpInsert (hash blob : list byte) (n : node)
  | OpPreimage (hash p : list byte)
  | OpReference (child parent : list byte)
  | OpDereference (root : list byte)
  | OpCap (limit : Z)
  | OpCommit (root : list byte).

Definition db_run_op (op : db_op) : st Database () :=
  match op with
  | OpInsert hash blob n => insert_dirty hash blob n
  | OpPreimage hash p => insertPreimage hash p
  | OpReference child parent => Reference child parent
  | OpDereference root => Dereference root
  | OpCap limit => Cap limit
  | OpCommit root => Commit_database root
  end.

(** The operations one after the other; an error, such as a write that fails, does
    not stop the caller. *)
Fixpoint db_run (ops : list db_op) : st Database () :=
  match ops with
  | [] => mret tt
  | op :: ops => λ d, match db_run_op op d with (Panic m, d) => (Panic m, d) | (_, d) => db_run ops d end
  end.

Section Sequences.
  (** The encoding of the node with a hash, and the height of a node. *)
  Context (content : list byte → list byte) (rank : list byte → nat).

(** What a caller guarantees: nodes are inserted under their hash and after their
    children, a reference is from a node in memory to one below it, and a root is
    dereferenced only as often as it was referenced. *)
Definition db_op_ok (d : Database) (op : db_op) : Prop :=
  match op with
  | OpInsert hash blob n =>
      length hash = HashLength ∧ content hash = blob ∧
      match simplifyNode n with
      | Ok raw =>
          node_blob raw = Ok blob ∧
          match node_childs raw with
          | Ok l => Forall (λ x, x ≠ hash0 ∧ (rank x < rank hash)%nat ∧ available d x ∧ default 0 (parents <$> dirties d !! x) + occurrences x l < 2 ^ 32) l
          | _ => False
          end
      | _ => False
      end
  | OpPreimage hash _ => length hash = HashLength
  | OpReference child parent =>
      match dirties d !! child with
      | Some c => child ≠ hash0 ∧ is_Some (dirties d !! parent) ∧ (rank child < rank parent)%nat ∧ parents c + 1 < 2 ^ 32
      | None => True
      end
  | OpDereference root => root = hash0 ∨ 0 < meta_refs d root
  | OpCap _ => True
  | OpCommit root => root ≠ hash0
  end.

Fixpoint db_ops_ok (d : Database) (ops : list db_op) : Prop :=
  match ops with [] => True | op :: ops => db_op_ok d op ∧ db_ops_ok (db_run_op op d).2 ops end.

Record refs_ok (d : Database) : Prop := {
  rf_gc : gc_ok d [];
  rf_rank : ∀ h c x, dirties d !! h = Some c → x ∈ child_list c → x ≠ hash0 ∧ (rank x < rank h)%nat;
  rf_content : ∀ x enc, length x = HashLength → Node d x = Ok enc → enc = content x;
}.

Lemma rf_acyclic d : refs_ok d → acyclic d rank.
Proof. intros Hr h c x Hc Hx. destruct (rf_rank d Hr h c x Hc Hx). done. Qed.

Lemma rank_fewer d d' : fewer_links d d' → refs_ok d → ∀ h c x, dirties d' !! h = Some c → x ∈ child_list c → x ≠ hash0 ∧ (rank x < rank h)%nat.
Proof. intros Hf Hr h c x Hc Hx. destruct (Hf h c Hc) as (c0 & Hc0 & Hsub). apply (rf_rank d Hr h c0); auto. Qed.

Lemma settled_refs d d' : refs_ok d → settled d d' → refs_ok d'.
Proof.
  intros Hr Hs. split; [apply (gc_settled d); [apply Hr | done] | by apply (rank_fewer d), Hr; apply settled_fewer |].
  intros x enc Hl Hn. destruct Hs as (_ & Hk & _). apply (rf_content d Hr x enc Hl). by apply Hk.
Qed.

(** The entries are those of [d], with other links and counts. *)
Definition same_content (d d' : Database) : Prop := diskdb d' = diskdb d ∧ ∀ h c', dirties d' !! h = Some c' → ∃ c, dirties d !! h = Some c ∧ cn_node c' = cn_node c.

Lemma same_content_Node d d' pending x enc : gc_ok d pending → same_content d d' → Node d' x = Ok enc → Node d x = Ok enc.
Proof.
  intros Hg [Hd Hs]. unfold Node. case_bool_decide as Hx0; [done |]. destruct (dirties d' !! x) as [c' |] eqn:Hc'.
  - destruct (Hs x c' Hc') as (c & -> & Hn). unfold cn_rlp. by rewrite Hn.
  - rewrite Hd. destruct (kv (diskdb d) !! x) as [e |] eqn:He; [| done]. intros [= <-]. destruct (dirties d !! x) as [c |] eqn:Hc; [by apply (gc_agree d pending Hg x c) | done].
Qed.

Lemma collects_content d d' : collects d d' → same_content d d'.
Proof. intros (Hd & _ & Hs). split; [done |]. intros h c' Hc'. destruct (Hs h c' Hc') as (c & ? & ? & _). by exists c. Qed.

Lemma insert_refs d hash blob n : refs_ok d → db_op_ok d (OpInsert hash blob n) → ∃ d', insert_dirty hash blob n d = (Ok tt, d') ∧ refs_ok d'.
Proof.
  intros Hr (Hlen & Hcont & Hop). pose proof Hr as [Hg Hrank Hc]. destruct (dirties d !! hash) as [c |] eqn:Hh.
  { exists d. split; [| done]. unfold insert_dirty, mbind, st_bind, st_gets. by rewrite bool_decide_eq_true_2 by (by eexists). }
  destruct (simplifyNode n) as [raw | |] eqn:Hn; [| done..]. destruct Hop as [Henc Hop]. destruct (node_childs raw) as [l | |] eqn:Hl; [| done..]. rewrite Forall_forall in Hop.
  destruct (gc_insert d hash blob n raw l) as (d' & entry & Hd' & Hg' & Hdk & He & Hrlp & Hcl & Hother); [done.. | | | | |].
  - intros x cx Hx Hcx. destruct (Hop x Hx) as (Hx0 & _ & _ & Hlt). rewrite Hcx in Hlt. cbn in Hlt. split; [by apply (gc_parents d [] Hg x) | done].
  - intros Hin. destruct (Hop hash Hin) as (_ & ? & _). lia.
  - intros x Hx. by apply Hop.
  - intros enc Hk. rewrite <- Hcont. apply Hc; [done |]. unfold Node. rewrite Hh, Hk. rewrite bool_decide_eq_false_2; [done |]. intros ->.
    destruct (gc_database _ _ Hg) as ([order Ho] & _). destruct (proj2 (fl_dom d order Ho hash0) (or_introl eq_refl)) as [? ?]. congruence.
  - exists d'. split; [done |]. split; [done | |].
    + intros h c x Hc' Hx. destruct (decide (h = hash)) as [-> | Hne].
      * rewrite He in Hc'. injection Hc' as <-. rewrite Hcl in Hx. destruct (Hop x Hx) as (? & ? & _). done.
      * destruct (Hother h c Hne Hc') as (c0 & Hc0 & Hn0 & Hch0). rewrite (child_list_same c0 c) in Hx by done. by apply (Hrank h c0).
    + intros x enc Hlx. unfold Node. case_bool_decide as Hx0; [done |]. destruct (decide (x = hash)) as [-> | Hne]; [rewrite He, Hrlp; by intros [= <-] |].
      intros Hnode. apply (Hc x enc Hlx). unfold Node. rewrite bool_decide_eq_false_2 by done. destruct (dirties d' !! x) as [cx |] eqn:Hx.
      * destruct (Hother x cx Hne Hx) as (c0 & -> & Hn0 & _). unfold cn_rlp in *. by rewrite <- Hn0.
      * rewrite Hdk in Hnode. destruct (kv (diskdb d) !! x) as [e |] eqn:Hk; [| done]. injection Hnode as <-. destruct (dirties d !! x) as [c0 |] eqn:Hc0; [by apply (gc_agree d [] Hg x c0) | done].
Qed.

Lemma reference_refs d child parent : refs_ok d → db_op_ok d (OpReference child parent) → ∃ d', Reference child parent d = (Ok tt, d') ∧ refs_ok d'.
Proof.
  intros Hr Hop. pose proof Hr as [Hg Hrank Hc]. cbn [db_op_ok] in Hop. unfold Reference. destruct (dirties d !! child) as [c |] eqn:Hch.
  - destruct Hop as (Hc0 & [p Hp] & Hlow & Hlt). destruct (gc_reference d child parent c p Hg Hch Hp Hc0) as (d' & Hd' & Hg' & Hdk & Hs); [by intros ->; lia | done |].
    exists d'. split; [done |]. split; [done | |].
    + intros h c' x Hc' Hx. destruct (Hs h c' Hc') as (c0 & H0 & _ & Hsub). destruct (Hsub x Hx) as [? | [-> ->]]; [by apply (Hrank h c0) | done].
    + intros x enc Hl Hn. apply (Hc x enc Hl), (same_content_Node d d' [] x enc Hg); [| done]. split; [done |]. intros h c' Hc'. destruct (Hs h c' Hc') as (c0 & ? & ? & _). by exists c0.
  - exists d. split; [| done]. unfold reference_dirty, mbind, st_bind, st_gets. by rewrite bool_decide_eq_false_2 by (rewrite Hch; by intros [? ?]).
Qed.

Lemma dereference_refs d root : refs_ok d → db_op_ok d (OpDereference root) → ∃ d', Dereference root d = (Ok tt, d') ∧ refs_ok d'.
Proof.
  intros Hr Hop. destruct (decide (root = hash0)) as [-> | Hne]; [exists d; split; [| done]; unfold Dereference; by rewrite bool_decide_eq_true_2 |]. destruct Hop as [? | Hop]; [done |].
  destruct (Dereference_collects d root rank (rf_gc d Hr) (rf_acyclic d Hr) Hop) as (d1 & d' & Hd' & Hg' & Hg1 & Hcol & Hfew & Hnode & _). exists d'. split; [done |].
  split; [done | by apply (rank_fewer d) |]. intros x enc Hl Hn. apply (rf_content d Hr x enc Hl). rewrite <- Hnode. by apply (same_content_Node d1 d' [root] x enc Hg1), Hn; apply collects_content.
Qed.

Lemma preimage_refs d hash p : refs_ok d → length hash = HashLength → ∃ d', insertPreimage hash p d = (Ok tt, d') ∧ refs_ok d'.
Proof.
  intros Hr Hl. unfold insertPreimage. destruct (preimages d !! hash) as [? |] eqn:E; [by exists d |]. eexists. split; [done |]. destruct Hr as [[Hd Hm Hp Hc Ha] Hrank Hcont].
  split; [split; [| done..] | done | done]. destruct Hd as ([order Ho] & He & Hpre). split; [exists order; by destruct Ho |]. split; [done |]. by apply map_Forall_insert_2.
Qed.

(** Every operation keeps the invariant and does not panic. *)
Lemma db_op_refs d op : refs_ok d → db_op_ok d op → match db_run_op op d with (Panic _, _) => False | (_, d') => refs_ok d' end.
Proof.
  intros Hr Hop. destruct op as [hash blob n | hash p | child parent | root | limit | root]; cbn [db_run_op].
  - by destruct (insert_refs d hash blob n Hr Hop) as (d' & -> & ?).
  - by destruct (preimage_refs d hash p Hr Hop) as (d' & -> & ?).
  - by destruct (reference_refs d child parent Hr Hop) as (d' & -> & ?).
  - by destruct (dereference_refs d root Hr Hop) as (d' & -> & ?).
  - pose proof (Cap_settles d limit (gc_database _ _ (rf_gc d Hr))) as Hs. destruct (Cap limit d) as [[[] | |] d']; [destruct Hs as [Hs _] | | done]; by apply (settled_refs d).
  - pose proof (Commit_settles d root rank (gc_database _ _ (rf_gc d Hr)) Hop (rf_acyclic d Hr)) as Hs. destruct (Commit_database root d) as [[[] | |] d']; [destruct Hs as [Hs _] | | done]; by apply (settled_refs d).
Qed.

Lemma db_run_refs ops : ∀ d, refs_ok d → db_ops_ok d ops → ∃ d', db_run ops d = (Ok tt, d') ∧ refs_ok d'.
Proof.
  induction ops as [| op ops IH]; intros d Hr Hops; [by exists d |]. destruct Hops as [Hop Hops]. pose proof (db_op_refs d op Hr Hop) as Hd. cbn [db_run].
  destruct (db_run_op op d) as [[[] | |] d1]; [by apply IH | by apply IH | done].
Qed.

Lemma new_refs disk : (∀ x enc, length x = HashLength → kv disk !! x = Some enc → enc = content x) → refs_ok (NewDatabase disk).
Proof.
  intros Hdisk. assert (∀ h c, dirties (NewDatabase disk) !! h = Some c → h = hash0 ∧ c = CachedNode nilNode 0 0 (Some ∅) hash0 hash0) as Hone
    by (intros h c; cbn [dirties NewDatabase]; rewrite lookup_singleton_Some; intuition).
  split.
  - split.
    + split; [exists [] | split; [by intros h c [-> _]%Hone | by apply map_Forall_empty]]. split; [by constructor | | by apply not_elem_of_nil | done | done | done].
      intros h. split; [intros [c Hc]; left; by apply (Hone h c) | intros [-> | ?%not_elem_of_nil]; [| done]]. cbn [dirties NewDatabase]. rewrite lookup_singleton_eq. by eexists.
    + intros c [_ ->]%Hone. split; [done | cbn; intros ? ? Hx; by rewrite lookup_empty in Hx].
    + intros x c [-> _]%Hone. done.
    + intros h c x [-> ->]%Hone. rewrite refs_meta. cbn. rewrite lookup_empty. cbn. lia.
    + intros x c enc [-> _]%Hone. done.
  - intros h c x [_ ->]%Hone Hx. apply meta_children in Hx; [| done]. cbn in Hx. rewrite lookup_empty in Hx. by destruct Hx.
  - intros x enc Hl. unfold Node. case_bool_decide as Hx; [done |]. destruct (dirties _ !! x) as [c |] eqn:Hc; [by apply Hone in Hc as [? _] |].
    cbn [diskdb NewDatabase]. destruct (kv disk !! x) as [e |] eqn:E; [| done]. intros [= <-]. by apply Hdisk.
Qed.

Lemma available_readable d x : refs_ok d → available d x → x ≠ hash0 → length x = HashLength → Node d x = Ok (content x).
Proof.
  intros Hr Hav Hx0 Hl. assert (∃ enc, Node d x = Ok enc) as [enc Hn]; [| by rewrite Hn, (rf_content d Hr x enc Hl Hn)].
  destruct (dirties d !! x) as [c |] eqn:Hc; [destruct (dirty_readable d x c (gc_database _ _ (rf_gc d Hr)) Hc Hx0) as (_ & enc & ? & _); by exists enc |].
  destruct Hav as [[? ?] | [enc He]]; [congruence |]. exists enc. unfold Node. by rewrite bool_decide_eq_false_2, Hc, He.
Qed.

(** C13: Reference counting and flushing work together: after any sequence of inserts, preimages,
    references, dereferences, caps and commits in a database that was opened on any disk, failing
    writes included, nothing has panicked and every node that a referenced root leads to through the
    nodes in memory reads as what was inserted under its hash. Inserts come after those of the
    children, counts stay below 2^32, and a root is dereferenced only while it is referenced. *)
Theorem referenced_nodes_readable (disk : Disk) (ops : list db_op) :
  (∀ x enc, length x = HashLength → kv disk !! x = Some enc → enc = content x) → db_ops_ok (NewDatabase disk) ops →
  ∃ d, db_run ops (NewDatabase disk) = (Ok tt, d) ∧ database_ok d ∧
    ∀ r x, 0 < meta_refs d r → reach d r x → length x = HashLength → Node d x = Ok (content x).
Proof.
  intros Hdisk Hops. destruct (db_run_refs ops (NewDatabase disk) (new_refs disk Hdisk) Hops) as (d & Hd & Hr). exists d. split; [done |]. pose proof (rf_gc d Hr) as Hg.
  split; [apply Hg |]. intros r x Hmeta Hx Hl. pose proof (rf_acyclic d Hr) as Ha. destruct (referenced_available d r rank Hg Ha Hmeta) as [Hav Hr0].
  destruct (gc_reach d r x rank Hg Ha Hav Hr0 Hx) as [Hax Hx0]. by apply available_readable.
Qed.

End Sequences.
