(* ===== verification/TrieShape.v ===== *)
(** References between the nodes of the database leave the nodes, the flush list,
    the disk and the preimages as they are. *)

From S2P Require Import Prelude TrieNode TrieDatabase TrieDatabaseFacts.

(** The node and the links of an entry stay. *)
Definition same_entry (c c' : cachedNode) : Prop := cn_node c' = cn_node c ∧ same_links c c'.

(** The databases differ in counts, children and sizes only. *)
Record same_shape (d d' : Database) : Prop := {
  sp_disk : diskdb d' = diskdb d;
  sp_preimages : preimages d' = preimages d;
  sp_oldest : oldest d' = oldest d;
  sp_newest : newest d' = newest d;
  sp_dirties : ∀ h, option_Forall2 same_entry (dirties d !! h) (dirties d' !! h);
}.

#[export] Instance same_entry_preorder : PreOrder same_entry.
Proof. split; [by intros c |]. intros c1 c2 c3 (H1 & H2 & H3) (H4 & H5 & H6). split; [congruence |]. split; congruence. Qed.

#[export] Instance same_shape_preorder : PreOrder same_shape.
Proof.
  split; [intros d; split; try done; intros h; destruct (dirties d !! h); by constructor |]. intros d1 d2 d3 [A1 A2 A3 A4 A5] [B1 B2 B3 B4 B5]. split; [congruence.. |].
  intros h. specialize (A5 h). specialize (B5 h). destruct A5 as [c1 c2 H12 |]; inversion B5; constructor. by transitivity c2.
Qed.

Lemma shape_lookup d d' h c : same_shape d d' → dirties d !! h = Some c → ∃ c', dirties d' !! h = Some c' ∧ same_entry c c'.
Proof. intros Hs Hc. pose proof (sp_dirties d d' Hs h) as Hh. rewrite Hc in Hh. inversion Hh as [c0 c' Hsame Hc0 Hc' |]. by exists c'. Qed.

Lemma shape_lookup_None d d' h : same_shape d d' → dirties d !! h = None → dirties d' !! h = None.
Proof. intros Hs Hc. pose proof (sp_dirties d d' Hs h) as Hh. rewrite Hc in Hh. by inversion Hh. Qed.

Lemma shape_held d d' h : same_shape d d' → is_Some (dirties d' !! h) ↔ is_Some (dirties d !! h).
Proof. intros Hs. by destruct (sp_dirties d d' Hs h) as [c c' |]; split; intros [? ?]; try done; eexists. Qed.

Lemma chain_shape d d' p order e : same_shape d d' → chain (dirties d) p order e → chain (dirties d') p order e.
Proof.
  intros Hs. revert p. induction order as [| h order IH]; intros p; [done |]. cbn [chain]. intros [(c & Hc & Hp & Hn) Hr]. split; [| auto].
  destruct (shape_lookup d d' h c Hs Hc) as (c' & Hc' & _ & Hpv & Hnx). exists c'. by rewrite Hpv, Hnx.
Qed.

Lemma forChilds_node c c' : cn_node c' = cn_node c → is_Ok (forChilds c) = true → is_Ok (forChilds c') = true.
Proof. unfold forChilds. intros ->. destruct (cn_node c); try done; by destruct (forGatherChildren _). Qed.

Lemma database_ok_shape d d' : same_shape d d' → database_ok d → database_ok d'.
Proof.
  intros Hs ([order [Hnd Hdom Hm Ho Hn Hc]] & He & Hp). split; [| split].
  - exists order. split; rewrite ?(sp_oldest d d' Hs), ?(sp_newest d d' Hs); try done; [intros h; rewrite (shape_held d d' h Hs); apply Hdom | by apply (chain_shape d)].
  - intros h c' Hc'. destruct (dirties d !! h) as [c |] eqn:E; [| by rewrite (shape_lookup_None d d' h Hs E) in Hc']. destruct (shape_lookup d d' h c Hs E) as (c0 & Hc0 & Hcn & _).
    rewrite Hc' in Hc0. injection Hc0 as <-. intros Hh. destruct (He h c E Hh) as (H1 & H2 & H3). split; [done |]. split; [unfold cn_rlp; by rewrite Hcn | by apply (forChilds_node c)].
  - by rewrite (sp_preimages d d' Hs).
Qed.

Lemma reads_shape d d' h : same_shape d d' → db_get d' h = db_get d h ∧ Node d' h = Node d h.
Proof.
  intros Hs. unfold db_get, Node. rewrite (sp_disk d d' Hs). destruct (dirties d !! h) as [c |] eqn:E; [| by rewrite (shape_lookup_None d d' h Hs E)].
  destruct (shape_lookup d d' h c Hs E) as (c' & -> & Hcn & _). unfold cn_obj, cn_rlp. by rewrite Hcn.
Qed.

(** ** References *)

Lemma modify_shape h f d : is_Some (dirties d !! h) → (∀ c, same_entry c (f c)) → ∃ d', modify_dirty h f d = (Ok tt, d') ∧ same_shape d d'.
Proof.
  intros [c Hc] Hf. unfold modify_dirty, mbind, st_bind, dirty_at, st_modify. rewrite Hc. eexists. split; [done |]. split; try done. intros x. cbn [dirties set_dirties].
  destruct (decide (h = x)) as [<- | Hne]; [rewrite Hc, lookup_insert_eq; by constructor | rewrite lookup_insert_ne by done; destruct (dirties d !! x); by constructor].
Qed.

Lemma modify_then {A} h f (k : st Database A) d : is_Some (dirties d !! h) → (∀ c, same_entry c (f c)) → ∃ d', (modify_dirty h f;; k) d = k d' ∧ same_shape d d'.
Proof. intros Hh Hf. destruct (modify_shape h f d Hh Hf) as (d' & Hd & Hs). exists d'. split; [| done]. unfold mbind, st_bind. by rewrite Hd. Qed.

Lemma size_shape z d : same_shape d (add_childrenSize z d).
Proof. by split. Qed.

(** A reference from a node in memory. *)
Lemma Reference_shape d child parent : is_Some (dirties d !! parent) → ∃ d', Reference child parent d = (Ok tt, d') ∧ same_shape d d'.
Proof.
  intros Hp. unfold Reference, reference_dirty. unfold mbind at 1, st_bind at 1, st_gets at 1. case_bool_decide as Hch; cbn [negb]; [| by exists d].
  unfold mbind at 1, st_bind at 1. destruct Hp as [p Hp]. unfold dirty_at at 1. rewrite Hp. destruct (children p) as [m |].
  - destruct (_ && _); [by exists d |]. destruct (modify_then child (λ c, set_parents (u32 (parents c + 1)) c)
      (modify_dirty parent (set_children (Some (<[child := u16 (default 0 (m !! child) + 1)]> m)));; if u16 (default 0 (m !! child) + 1) =? 1 then st_modify (add_childrenSize (32 + 2)) else mret tt) d Hch ltac:(done)) as (d1 & -> & Hs1).
    destruct (modify_then parent (set_children (Some (<[child := u16 (default 0 (m !! child) + 1)]> m))) (if u16 (default 0 (m !! child) + 1) =? 1 then st_modify (add_childrenSize (32 + 2)) else mret tt) d1
      ltac:(rewrite shape_held by exact Hs1; by eexists) ltac:(done)) as (d2 & -> & Hs2).
    assert (same_shape d d2) as Hs by (by transitivity d1). destruct (_ =? 1); eexists; (split; [done |]); [| done]. by transitivity d2; [| apply size_shape].
  - unfold mbind at 1, st_bind at 1, st_modify at 1. set (d0 := add_childrenSize cachedNodeChildrenSize d).
    assert (same_shape d d0) as Hs0 by apply size_shape.
    destruct (modify_then child (λ c, set_parents (u32 (parents c + 1)) c) (modify_dirty parent (set_children (Some {[child := 1]}));; st_modify (add_childrenSize (32 + 2))) d0 Hch ltac:(done)) as (d1 & -> & Hs1).
    destruct (modify_then parent (set_children (Some {[child := 1]})) (st_modify (add_childrenSize (32 + 2))) d1 ltac:(rewrite shape_held by exact Hs1; by eexists) ltac:(done)) as (d2 & -> & Hs2).
    eexists. split; [done |]. transitivity d1; [by transitivity d0 |]. transitivity d2; [done | apply size_shape].
Qed.
