(* ===== verification/TrieSecure.v ===== *)
(** Tries with hashed keys, src/l2geth/trie/secure_trie.go, and that they are
    maps of the keys themselves, which can be found again from their hashes.

    A trie has an identity, since its cache of keys belongs to the trie that
    made it: a copy starts with a cache of its own. *)

From S2P Require Import Prelude TrieNode Trie TrieCommit TrieContents TrieTheorems TrieDatabase TrieDatabaseFacts.

Record SecureTrie := {
  self : nat;
  trie_root : node;
  secKeyCache : gmap (list byte) (list byte);
  secKeyCacheOwner : option nat;
}.

Definition set_trie_root (n : node) (s : SecureTrie) : SecureTrie :=
  {| self := self s; trie_root := n; secKeyCache := secKeyCache s; secKeyCacheOwner := secKeyCacheOwner s |}.

Definition set_secKeyCache (m : gmap (list byte) (list byte)) (s : SecureTrie) : SecureTrie :=
  {| self := self s; trie_root := trie_root s; secKeyCache := m; secKeyCacheOwner := secKeyCacheOwner s |}.

(** The trie at the address [id]. *)
Definition NewSecure (id : nat) (d : Database) (root : list byte) : outcome SecureTrie :=
  n ← New d root; Ok {| self := id; trie_root := n; secKeyCache := ∅; secKeyCacheOwner := None |}.

Definition Copy (id : nat) (s : SecureTrie) : SecureTrie :=
  {| self := id; trie_root := trie_root s; secKeyCache := secKeyCache s; secKeyCacheOwner := secKeyCacheOwner s |}.

(** The trie after [getSecKeyCache]: its cache is its own. *)
Definition getSecKeyCache (s : SecureTrie) : SecureTrie :=
  if bool_decide (secKeyCacheOwner s = Some (self s)) then s
  else {| self := self s; trie_root := trie_root s; secKeyCache := ∅; secKeyCacheOwner := Some (self s) |}.

(** An operation of the trie below. *)
Definition on_trie {A} (m : Database → st node A) : st (Database * SecureTrie) A := λ '(d, s),
  let '(r, n) := m d (trie_root s) in (r, (d, set_trie_root n s)).

Definition on_cache (f : gmap (list byte) (list byte) → gmap (list byte) (list byte)) : st (Database * SecureTrie) () :=
  st_modify (λ '(d, s), let s := getSecKeyCache s in (d, set_secKeyCache (f (secKeyCache s)) s)).

(** The loop of [Commit] over the keys. *)
Definition insert_preimages (l : list (list byte * list byte)) (d : Database) : Database :=
  foldl (λ d '(hk, key), (insertPreimage (BytesToHash hk) key d).2) d l.

(** The keys of the cache go to the database. *)
Definition flush_keys : Database * SecureTrie → Database * SecureTrie := λ '(d, s),
  if bool_decide (0 < base.size (secKeyCache s))%nat then (insert_preimages (map_to_list (secKeyCache s)) d, set_secKeyCache ∅ s) else (d, s).

Inductive secure_op := SecureGet (k : list byte) | SecureUpdate (k v : list byte) | SecureDelete (k : list byte) | SecureCommit.

Definition spec_sop (o : secure_op) (m : gmap (list byte) (list byte)) : list byte * gmap (list byte) (list byte) :=
  match o with
  | SecureGet k => (default [] (m !! k), m)
  | SecureUpdate k v => ([], <[k := v]> m)
  | SecureDelete k => ([], base.delete k m)
  | SecureCommit => ([], m)
  end.

Fixpoint spec_sops (ops : list secure_op) (m : gmap (list byte) (list byte)) : list (list byte) * gmap (list byte) (list byte) :=
  match ops with
  | [] => ([], m)
  | o :: ops => let '(r, m) := spec_sop o m in let '(rs, m) := spec_sops ops m in (r :: rs, m)
  end.

Section Secure.
  Context (Keccak256 : list byte → list byte).

Definition hashKey (key : list byte) : list byte := Keccak256 key.

Definition commit_trie (onleaf : option (LeafCallback Database)) : st (Database * SecureTrie) (list byte) := λ '(d, s),
  let '(r, (d, n)) := Commit Keccak256 onleaf (d, trie_root s) in (r, (d, set_trie_root n s)).

Definition SecureTrie_TryGet (key : list byte) : st (Database * SecureTrie) (list byte) := on_trie (λ d, TryGet d (hashKey key)).

Definition SecureTrie_TryUpdate (key value : list byte) : st (Database * SecureTrie) () :=
  let hk := hashKey key in
  on_trie (λ d, TryUpdate d hk value);;
  on_cache (<[hk := key]>).

Definition SecureTrie_TryDelete (key : list byte) : st (Database * SecureTrie) () :=
  let hk := hashKey key in
  on_cache (base.delete hk);;
  on_trie (λ d, TryDelete d hk).

(** The key of the cache, or else of the database; none is an empty slice. *)
Definition SecureTrie_GetKey (shaKey : list byte) : st (Database * SecureTrie) (list byte) :=
  on_cache id;;
  '(d, s) ← st_get;
  match secKeyCache s !! shaKey with
  | Some key => mret key
  | None => match preimage d (BytesToHash shaKey) with Ok key => mret key | Err _ => mret [] | Panic m => st_panic m end
  end.

Definition SecureTrie_Commit (onleaf : option (LeafCallback Database)) : st (Database * SecureTrie) (list byte) :=
  on_cache id;;
  st_modify flush_keys;;
  commit_trie onleaf.

Definition SecureTrie_Hash : st (Database * SecureTrie) (list byte) := on_trie (λ _, Hash Keccak256 (D := Database)).

(** ** Sequences of operations and their specification *)

Definition run_sop (onleaf : option (LeafCallback Database)) (o : secure_op) : st (Database * SecureTrie) (list byte) :=
  match o with
  | SecureGet k => SecureTrie_TryGet k
  | SecureUpdate k v => SecureTrie_TryUpdate k v;; mret []
  | SecureDelete k => SecureTrie_TryDelete k;; mret []
  | SecureCommit => SecureTrie_Commit onleaf;; mret []
  end.

Fixpoint run_sops (onleaf : option (LeafCallback Database)) (ops : list secure_op) : st (Database * SecureTrie) (list (list byte)) :=
  match ops with
  | [] => mret []
  | o :: ops => r ← run_sop onleaf o; rs ← run_sops onleaf ops; mret (r :: rs)
  end.

(** ** What a secure trie holds *)

(** The entries of [m] under the hashes of their keys. *)
Definition hashed (m hm : gmap (list byte) (list byte)) : Prop :=
  ∀ hk v, hm !! hk = Some v ↔ ∃ k, Keccak256 k = hk ∧ m !! k = Some v.

(** The cache that a trie uses. *)
Definition key_cache (s : SecureTrie) : gmap (list byte) (list byte) := secKeyCache (getSecKeyCache s).

(** The keys that are in use have no collisions. *)
Context (length_Keccak256 : ∀ b, length (Keccak256 b) = HashLength).
Context (Q : list byte → Prop) (Q_inj : ∀ a b, Q a → Q b → Keccak256 a = Keccak256 b → a = b).

(** A cache of keys that are in use, under their hashes. *)
Definition keys_ok (cache : gmap (list byte) (list byte)) : Prop := map_Forall (λ hk k, Keccak256 k = hk ∧ Q k) cache.

Definition preimages_ok (d : Database) : Prop := ∀ hk k, length hk = HashLength → preimage d hk = Ok k → Keccak256 k = hk ∧ Q k.

(** The key of a hash is known to the cache or to the database. *)
Definition known (d : Database) (cache : gmap (list byte) (list byte)) (k : list byte) : Prop :=
  is_Some (cache !! Keccak256 k) ∨ is_Ok (preimage d (Keccak256 k)) = true.

Record secure_holds (d : Database) (s : SecureTrie) (m : gmap (list byte) (list byte)) : Prop := {
  sh_trie : ∃ hm, holds Keccak256 d (trie_root s) hm ∧ hashed m hm;
  sh_used : ∀ k v, m !! k = Some v → Q k;
  sh_cache : keys_ok (key_cache s);
  sh_preimages : preimages_ok d;
  sh_known : ∀ k v, m !! k = Some v → known d (key_cache s) k;
}.

Lemma hashed_get m hm k : hashed m hm → (∀ k v, m !! k = Some v → Q k) → Q k → hm !! Keccak256 k = m !! k.
Proof.
  intros Hh Hm Hk. apply option_eq. intros v. rewrite (Hh (Keccak256 k) v). split; [| by exists k].
  intros (k' & Heq & Hv). by rewrite <- (Q_inj k' k (Hm k' v Hv) Hk Heq).
Qed.

Lemma hashed_alter m hm k v : hashed m hm → (∀ k v, m !! k = Some v → Q k) → Q k →
  hashed (partial_alter (λ _, v) k m) (partial_alter (λ _, v) (Keccak256 k) hm).
Proof.
  intros Hh Hm Hk hk w. destruct (decide (Keccak256 k = hk)) as [<- | Hne].
  - rewrite lookup_partial_alter_eq. split; [intros ->; exists k; by rewrite lookup_partial_alter_eq |]. intros (k' & Heq & Hv).
    destruct (decide (k = k')) as [<- | Hkk]; [by rewrite lookup_partial_alter_eq in Hv |]. rewrite lookup_partial_alter_ne in Hv by done.
    by destruct Hkk; symmetry; apply Q_inj; [apply (Hm k' w) | |].
  - rewrite lookup_partial_alter_ne by done. rewrite (Hh hk w). split; intros (k' & <- & Hv); exists k'; (split; [done |]).
    + by rewrite lookup_partial_alter_ne by congruence.
    + by rewrite lookup_partial_alter_ne in Hv by congruence.
Qed.

Lemma key_cache_root n s : key_cache (set_trie_root n s) = key_cache s.
Proof. unfold key_cache, getSecKeyCache. cbn [secKeyCacheOwner self set_trie_root]. by case_bool_decide. Qed.

(** The trie after [on_cache]. *)
Lemma on_cache_spec f d s : ∃ s', on_cache f (d, s) = (Ok tt, (d, s')) ∧ trie_root s' = trie_root s ∧ secKeyCache s' = f (key_cache s) ∧ key_cache s' = f (key_cache s).
Proof.
  eexists. split; [done |]. unfold key_cache, getSecKeyCache. case_bool_decide as Ho; cbn [trie_root set_secKeyCache secKeyCache secKeyCacheOwner self];
    [by rewrite bool_decide_eq_true_2 | by rewrite bool_decide_eq_true_2].
Qed.

(** ** The operations *)

Lemma TryUpdate_holds d root hm hk v : holds Keccak256 d root hm → ∃ root', TryUpdate d hk v root = (Ok tt, root') ∧ holds Keccak256 d root' (<[hk := v]> hm).
Proof.
  intros Hh. destruct (run_op_spec Keccak256 length_Keccak256 d root hm (UpdateOp hk v) Hh) as (n & Hr & Hn). unfold run_op, mbind, st_bind in Hr.
  destruct (TryUpdate d hk v root) as [[[] | |] n']; [| done..]. injection Hr as ->. by exists n.
Qed.

Lemma TryDelete_holds d root hm hk : holds Keccak256 d root hm → ∃ root', TryDelete d hk root = (Ok tt, root') ∧ holds Keccak256 d root' (base.delete hk hm).
Proof.
  intros Hh. destruct (run_op_spec Keccak256 length_Keccak256 d root hm (DeleteOp hk) Hh) as (n & Hr & Hn). unfold run_op, mbind, st_bind in Hr.
  destruct (TryDelete d hk root) as [[[] | |] n']; [| done..]. injection Hr as ->. by exists n.
Qed.

Lemma TryGet_secure d s m k : secure_holds d s m → Q k →
  ∃ s', SecureTrie_TryGet k (d, s) = (Ok (default [] (m !! k)), (d, s')) ∧ secure_holds d s' m.
Proof.
  intros [(hm & Hh & Hm) Hu Hc Hp Hk] Hq. destruct (run_op_spec Keccak256 length_Keccak256 d (trie_root s) hm (GetOp (Keccak256 k)) Hh) as (n & Hr & Hn).
  cbn [run_op spec_op fst snd] in *. rewrite (hashed_get m hm k Hm Hu Hq) in Hr. unfold SecureTrie_TryGet, on_trie, hashKey. rewrite Hr. eexists. split; [done |].
  split; rewrite ?key_cache_root; [by exists hm | done..].
Qed.

Lemma TryUpdate_secure d s m k v : secure_holds d s m → Q k →
  ∃ s', SecureTrie_TryUpdate k v (d, s) = (Ok tt, (d, s')) ∧ secure_holds d s' (<[k := v]> m).
Proof.
  intros [(hm & Hh & Hm) Hu Hc Hp Hk] Hq. destruct (TryUpdate_holds d (trie_root s) hm (Keccak256 k) v Hh) as (n & Hr & Hn).
  unfold SecureTrie_TryUpdate. unfold mbind, st_bind, on_trie at 1, hashKey. rewrite Hr.
  destruct (on_cache_spec (<[Keccak256 k := k]>) d (set_trie_root n s)) as (s' & -> & Hroot & _ & Hcache). rewrite key_cache_root in Hcache. exists s'. split; [done |].
  split; rewrite ?Hcache, ?Hroot.
  - exists (<[Keccak256 k := v]> hm). split; [done | by apply hashed_alter].
  - intros k' v' Hk'. apply lookup_insert_Some in Hk' as [[<- _] | [_ Hk']]; [done | by apply (Hu k' v')].
  - by apply map_Forall_insert_2.
  - done.
  - intros k' v' Hk'. unfold known. destruct (decide (Keccak256 k = Keccak256 k')) as [-> | Hne]; [left; rewrite lookup_insert_eq; by eexists |].
    rewrite lookup_insert_ne by done. apply lookup_insert_Some in Hk' as [[<- _] | [_ Hk']]; [done | by apply (Hk k' v')].
Qed.

Lemma TryDelete_secure d s m k : secure_holds d s m → Q k →
  ∃ s', SecureTrie_TryDelete k (d, s) = (Ok tt, (d, s')) ∧ secure_holds d s' (base.delete k m).
Proof.
  intros [(hm & Hh & Hm) Hu Hc Hp Hk] Hq. unfold SecureTrie_TryDelete. unfold mbind, st_bind, hashKey.
  destruct (on_cache_spec (base.delete (Keccak256 k)) d s) as (s' & -> & Hroot & _ & Hcache). unfold on_trie. rewrite Hroot.
  destruct (TryDelete_holds d (trie_root s) hm (Keccak256 k) Hh) as (n & -> & Hn). eexists. split; [done |].
  split; rewrite ?key_cache_root, ?Hcache.
  - exists (base.delete (Keccak256 k) hm). split; [done | by apply hashed_alter].
  - intros k' v' Hk'. apply lookup_delete_Some in Hk' as [_ Hk']. by apply (Hu k' v').
  - by apply map_Forall_delete.
  - done.
  - intros k' v' Hk'. apply lookup_delete_Some in Hk' as [Hne Hk']. unfold known. rewrite lookup_delete_ne; [by apply (Hk k' v') |].
    intros Heq. apply Hne, Q_inj; [done | by apply (Hu k' v') | done].
Qed.

Lemma GetKey_secure d s m k : secure_holds d s m → is_Some (m !! k) → (SecureTrie_GetKey (Keccak256 k) (d, s)).1 = Ok k.
Proof.
  intros [_ Hu Hc Hp Hk] [v Hv]. unfold SecureTrie_GetKey. unfold mbind at 1, st_bind at 1. destruct (on_cache_spec id d s) as (s' & -> & _ & Hcache & _).
  unfold mbind, st_bind, st_get. cbn [fst snd]. rewrite Hcache. cbn [id]. rewrite BytesToHash_id by apply length_Keccak256.
  assert (∀ k', Keccak256 k' = Keccak256 k ∧ Q k' → k' = k) as Hq by (intros k' [Heq Hq]; apply Q_inj; [done | by apply (Hu k v) | done]).
  destruct (key_cache s !! Keccak256 k) as [k' |] eqn:Ek; [cbn; f_equal; by apply Hq, (Hc _ _ Ek) |].
  destruct (Hk k v Hv) as [[? ?] | Hpre]; [congruence |]. destruct (preimage d (Keccak256 k)) as [k' | |] eqn:Ep; [| done..].
  cbn. f_equal. apply Hq, Hp; [apply length_Keccak256 | done].
Qed.
(** ** Committing *)

Lemma preimage_inserted d hk k hk' : preimage (insertPreimage hk k d).2 hk' =
  if bool_decide (hk = hk' ∧ preimages d !! hk = None) then Ok k else preimage d hk'.
Proof.
  unfold insertPreimage, preimage. destruct (preimages d !! hk) eqn:E; cbn [snd]; [rewrite bool_decide_eq_false_2 by (by intros [_ ?]); done |].
  cbn [preimages diskdb set_preimages]. destruct (decide (hk = hk')) as [<- | Hne]; [by rewrite lookup_insert_eq, bool_decide_eq_true_2 |].
  rewrite lookup_insert_ne by done. by rewrite bool_decide_eq_false_2 by (by intros [? _]).
Qed.

Lemma insertPreimage_ok d hk k : database_ok d → length hk = HashLength →
  let d' := (insertPreimage hk k d).2 in database_ok d' ∧ dirties d' = dirties d ∧ diskdb d' = diskdb d.
Proof.
  intros ([order []] & He & Hp) Hl. unfold insertPreimage. destruct (preimages d !! hk); cbn [snd]; (split; [| done]); (split; [exists order; by split | split; [done |]]); [done |].
  by apply map_Forall_insert_2.
Qed.

Lemma insert_preimages_spec l : Forall (λ w, Keccak256 w.2 = w.1 ∧ Q w.2) l → ∀ d, database_ok d → preimages_ok d →
  let d' := insert_preimages l d in
  database_ok d' ∧ preimages_ok d' ∧ (dirties d' = dirties d ∧ diskdb d' = diskdb d) ∧
  ∀ hk, is_Ok (preimage d hk) = true ∨ hk ∈ l.*1 → is_Ok (preimage d' hk) = true.
Proof.
  induction 1 as [| [hk k] l [Hhk Hq] _ IH]; intros d Hok Hp; cbn [insert_preimages foldl].
  { split; [done |]. split; [done |]. split; [done |]. intros hk [? | ?%not_elem_of_nil]; done. }
  cbn [fst snd] in *. assert (length hk = HashLength) as Hl by (rewrite <- Hhk; apply length_Keccak256). rewrite BytesToHash_id by done.
  destruct (insertPreimage_ok d hk k Hok Hl) as [Hok1 Hget1]. destruct (IH _ Hok1) as (Hok2 & Hp2 & Hget2 & Hpre2).
  - intros hk' k' Hl' Hk'. rewrite preimage_inserted in Hk'. case_bool_decide as Hb; [destruct Hb as [<- _]; by injection Hk' as <- | by apply Hp].
  - split; [done |]. split; [done |]. split; [destruct Hget1, Hget2; split; etransitivity; eassumption |]. intros hk' Hhk'. apply Hpre2. rewrite preimage_inserted.
    case_bool_decide as Hb; [by left |]. cbn [fmap list_fmap fst] in Hhk'. rewrite elem_of_cons in Hhk'. destruct Hhk' as [? | [-> | ?]]; [by left | | by right].
    left. unfold preimage. destruct (preimages d !! hk) eqn:E; [done | by destruct Hb].
Qed.

(** After [flush_keys] the keys are in the database. *)
Lemma flush_keys_spec d s m : secure_holds d s m → database_ok d → secKeyCache s = key_cache s →
  ∃ d' s', flush_keys (d, s) = (d', s') ∧ trie_root s' = trie_root s ∧ database_ok d' ∧ (dirties d' = dirties d ∧ diskdb d' = diskdb d) ∧ preimages_ok d' ∧ keys_ok (key_cache s') ∧
    (∀ k v, m !! k = Some v → is_Ok (preimage d' (Keccak256 k)) = true) ∧ ∀ hk, is_Ok (preimage d hk) = true → is_Ok (preimage d' hk) = true.
Proof.
  intros [_ Hu Hc Hp Hk] Hok Hs. unfold flush_keys. case_bool_decide as Hsz.
  - destruct (insert_preimages_spec (map_to_list (secKeyCache s))) with (d := d) as (Hok1 & Hp1 & Hget & Hall); [| done | done |].
    { rewrite Hs. apply Forall_forall. intros [hk k] Hin. apply elem_of_map_to_list in Hin. by apply Hc. }
    eexists _, _. split; [done |]. split; [done |]. split; [done |]. split; [done |]. split; [done |]. split.
    + unfold key_cache, getSecKeyCache. case_bool_decide; apply map_Forall_empty.
    + split; [| intros hk Hhk; apply Hall; by left]. intros k v Hv. apply Hall. destruct (Hk k v Hv) as [[k' Hk'] | ?]; [right | by left]. apply list_elem_of_fmap. exists (Keccak256 k, k'). split; [done |].
      apply elem_of_map_to_list. by rewrite Hs.
  - exists d, s. split; [done |]. split; [done |]. split; [done |]. split; [done |]. split; [done |]. split; [done |]. split; [| done]. intros k v Hv.
    destruct (Hk k v Hv) as [[k' Hk'] | ?]; [| done]. rewrite <- Hs in Hk'. destruct Hsz. apply Nat.neq_0_lt_0. intros Hz. apply map_size_empty_inv in Hz.
    by rewrite Hz, lookup_empty in Hk'.
Qed.

(** The map of a trie that is committed: its values are small, and the nodes of
    the trie are among the encodings without collisions. *)
Context (P : list byte → Prop) (P_free : collision_free Keccak256 P).

Definition committable (m : gmap (list byte) (list byte)) : Prop :=
  (∀ k v, m !! k = Some v → len v < 2 ^ 60) ∧ ∀ hm, hashed m hm → encoded Keccak256 P hm.

Lemma hashed_small m hm : hashed m hm → (∀ k v, m !! k = Some v → len v < 2 ^ 60) → small_map hm ∧ no_empty_prefix hm.
Proof.
  intros Hh Hv. split.
  - intros hk v Hk. apply Hh in Hk as (k & <- & Hk). split; [unfold len; rewrite length_Keccak256; done | by apply (Hv k)].
  - intros hk hk' v Hk Hk' Hpre. apply Hh in Hk as (k & <- & _), Hk' as (k' & <- & _). symmetry. apply prefix_length_eq; [done |]. by rewrite !length_Keccak256.
Qed.

(** The encodings and blobs of the database are under their hashes. *)
Definition addressed (d : Database) : Prop := ∀ h enc, length h = HashLength → Node d h = Ok enc → named Keccak256 P h enc.

Record db_inv (d : Database) : Prop := {
  di_ok : database_ok d;
  di_backed : backed Keccak256 P d;
  di_addressed : addressed d;
}.

(** What is kept while a trie is committed. *)
Definition store_ok (d0 d : Database) : Prop :=
  database_ok d ∧ diskdb d = diskdb d0 ∧ preimages d = preimages d0 ∧ addressed d ∧ ∀ h enc, length h = HashLength → Node d0 h = Ok enc → Node d h = Ok enc.

#[local] Instance store_laws d0 : NodeDatabaseLaws Database (named Keccak256 P) (store_ok d0).
Proof.
  constructor. intros d h blob n raw (Hok & Hdk & Hpre & Hadr & Hkeep) Hname Hn Hlen Henc Hg.
  destruct (database_laws_for (named Keccak256 P) (diskdb d) (preimages d)) as [Hlaw].
  destruct (Hlaw d h blob n raw) as (d' & Hi & (Hok' & Hdk' & Hpre') & Hd); [done.. |]. exists d'. split; [done |]. split; [| done].
  destruct (gather_childs raw Hg) as [Hch Hbl]. rewrite <- Hbl in Henc.
  destruct (insert_dirty_spec d h blob n raw Hok Hn Hlen Henc Hch) as (d1 & Hi' & _ & _ & _ & Hother & Hh). cbn [db_insert database_NodeDatabase] in Hi. rewrite Hi' in Hi. injection Hi as ->.
  case_bool_decide as Hk; [by subst d' |]. destruct Hh as (c & Hc & Hraw). destruct (decide (h = hash0)) as [-> | Hh0].
  { destruct Hok as ([order Ho] & _). destruct Hk. apply (fl_dom d order Ho). by left. }
  assert (Node d' h = Ok blob) as Hblob by (unfold Node; rewrite bool_decide_eq_false_2, Hc by done; apply node_blob_rlp; by rewrite Hraw).
  split; [done |]. split; [congruence |]. split; [congruence |]. split.
  - intros x enc Hl Hx. destruct (decide (x = h)) as [-> | Hne]; [rewrite Hblob in Hx; by injection Hx as <- |]. rewrite (proj2 (Hother x Hne)) in Hx. by apply Hadr.
  - intros x enc Hl Hx. apply Hkeep in Hx; [| done]. destruct (decide (x = h)) as [-> | Hne]; [| by rewrite (proj2 (Hother x Hne))].
    rewrite Hblob. f_equal. destruct (Hadr h enc Hl Hx) as [Pe He], Hname as [Pb Hb]. apply (no_collision _ _ P_free); congruence.
Qed.

(** A callback that leaves the nodes, the disk and the preimages alone. *)
Definition leaf_callback (onleaf : option (LeafCallback Database)) : Prop := ∀ d0, callback_ok (store_ok d0) onleaf.

(** What a database may do between the operations on a trie. *)
Record grown (d d' : Database) : Prop := {
  gr_nodes : extends d d';
  gr_known : ∀ hk, is_Ok (preimage d hk) = true → is_Ok (preimage d' hk) = true;
  gr_preimages : preimages_ok d → preimages_ok d';
  gr_blobs : ∀ h enc, length h = HashLength → Node d h = Ok enc → Node d' h = Ok enc;
}.

#[export] Instance grown_preorder : PreOrder grown.
Proof. split; [intros d; by split | intros d1 d2 d3 [H1 H2 H3 H4] [H5 H6 H7 H8]; split; [by transitivity d2 | auto..]]. Qed.

Lemma secure_grown d d' s m : grown d d' → secure_holds d s m → secure_holds d' s m.
Proof.
  intros [Hn Hk Hp _] [(hm & (t & Hr & Ht) & Hm) Hu Hc Hpre Hkn]. split; [| done | done | by apply Hp |].
  - exists hm. split; [| done]. exists t. split; [by apply (rep_extends Keccak256 d) | done].
  - intros k v Hv. destruct (Hkn k v Hv) as [? | ?]; [by left | right; by apply Hk].
Qed.

Lemma NewSecure_grown id d d' root s : grown d d' → NewSecure id d root = Ok s → NewSecure id d' root = Ok s.
Proof.
  intros [Hn _ _ _]. unfold NewSecure, New. destruct (_ && _); [| done]. unfold resolveHash. destruct (db_node d (BytesToHash root)) as [[n |] | |] eqn:E; [| done..]. pose proof (Hn _ _ E) as E'. by rewrite E'.
Qed.

Lemma same_nodes_grown d d' : dirties d' = dirties d → diskdb d' = diskdb d → preimages_ok d' → (∀ hk, is_Ok (preimage d hk) = true → is_Ok (preimage d' hk) = true) → grown d d'.
Proof.
  intros Hd Hk Hp Hpre. split; [| done | done |].
  - intros h n. cbn. unfold db_get. by rewrite Hd, Hk.
  - intros h enc _. unfold Node. by rewrite Hd, Hk.
Qed.

Lemma same_nodes_inv d d' : dirties d' = dirties d → diskdb d' = diskdb d → database_ok d' → db_inv d → db_inv d'.
Proof.
  intros Hd Hk Hok [_ Hb Ha]. split; [done | |].
  - intros h. specialize (Hb h). cbn in *. unfold db_get in *. by rewrite Hd, Hk.
  - intros h enc. unfold Node. rewrite Hd, Hk. apply Ha.
Qed.

Lemma Commit_secure onleaf d s m : leaf_callback onleaf → secure_holds d s m → committable m → db_inv d →
  ∃ h d' s', SecureTrie_Commit onleaf (d, s) = (Ok h, (d', s')) ∧ (Hash Keccak256 (D := Database) (trie_root s)).1 = Ok h ∧ secure_holds d' s' m ∧
    (∀ id, ∃ t, NewSecure id d' h = Ok t ∧ secure_holds d' t m) ∧ grown d d' ∧ db_inv d'.
Proof.
  intros Hcb Hs [Hv Henc] Hinv. unfold SecureTrie_Commit. unfold mbind, st_bind. destruct (on_cache_spec id d s) as (s1 & -> & Hroot1 & Hc1 & Hc1').
  assert (secure_holds d s1 m) as Hs1 by (destruct Hs; split; rewrite ?Hc1', ?Hroot1; done).
  destruct (flush_keys_spec d s1 m Hs1 (di_ok d Hinv) ltac:(congruence)) as (d2 & s2 & Hf & Hroot2 & Hok2 & [Hdd Hkk] & Hp2 & Hc2 & Hall2 & Hmono).
  pose proof (same_nodes_grown d d2 Hdd Hkk Hp2 Hmono) as Hg2. pose proof (same_nodes_inv d d2 Hdd Hkk Hok2 Hinv) as [_ Hb2 Ha2].
  unfold st_modify. rewrite Hf. pose proof (secure_grown d d2 s1 m Hg2 Hs1) as [(hm & Hh2 & Hm) Hu _ _ _]. rewrite <- Hroot2 in Hh2. destruct (hashed_small m hm Hm Hv) as [Hsm Hne].
  destruct (Commit_stores Keccak256 length_Keccak256 P (store_ok d2) d2 (trie_root s2) hm onleaf)
    as (h & d3 & root3 & root4 & Hcm & Hhash & Hh3 & Hnew & Hh4 & Hext & Hb3 & (Hok3 & Hdk3 & Hpre3 & Ha3 & Hkeep3)); [done | done | done | done | by apply Henc | done | done | apply Hcb |].
  assert (∀ hk, preimage d3 hk = preimage d2 hk) as Hpi by (intros hk; unfold preimage; by rewrite Hdk3, Hpre3).
  assert (preimages_ok d3) as Hp3 by (intros hk k; rewrite Hpi; apply Hp2).
  unfold commit_trie. rewrite Hcm. exists h, d3, (set_trie_root root3 s2). split; [done |]. split; [by rewrite <- Hroot1, <- Hroot2 |].
  assert (∀ k v, m !! k = Some v → is_Ok (preimage d3 (Keccak256 k)) = true) as Hall3 by (intros k v Hk; rewrite Hpi; by apply (Hall2 k v)).
  split; [| split; [| split]].
  - split; rewrite ?key_cache_root; [by exists hm | done | done | done | intros k v Hk; right; by apply (Hall3 k v)].
  - intros id. eexists. unfold NewSecure. rewrite Hnew. split; [done |]. split; [by exists hm | done | apply map_Forall_empty | done | intros k v Hk; right; by apply (Hall3 k v)].
  - transitivity d2; [done |]. split; [done | intros hk; by rewrite Hpi | done | exact Hkeep3].
  - by split.
Qed.

(** ** Sequences of operations *)

Definition sop_ok (o : secure_op) (m : gmap (list byte) (list byte)) : Prop :=
  match o with
  | SecureGet k | SecureUpdate k _ | SecureDelete k => Q k
  | SecureCommit => committable m
  end.

Fixpoint sops_ok (ops : list secure_op) (m : gmap (list byte) (list byte)) : Prop :=
  match ops with [] => True | o :: ops => sop_ok o m ∧ sops_ok ops (spec_sop o m).2 end.

Lemma run_sop_spec onleaf d s m o : leaf_callback onleaf → secure_holds d s m → sop_ok o m → db_inv d →
  ∃ d' s', run_sop onleaf o (d, s) = (Ok (spec_sop o m).1, (d', s')) ∧ secure_holds d' s' (spec_sop o m).2 ∧ db_inv d'.
Proof.
  intros Hcb Hs Ho Hinv. destruct o as [k | k v | k |]; cbn [run_sop spec_sop fst snd sop_ok] in *.
  - destruct (TryGet_secure d s m k Hs Ho) as (s' & Hr & Hs'). by exists d, s'.
  - destruct (TryUpdate_secure d s m k v Hs Ho) as (s' & Hr & Hs'). exists d, s'. unfold mbind, st_bind. by rewrite Hr.
  - destruct (TryDelete_secure d s m k Hs Ho) as (s' & Hr & Hs'). exists d, s'. unfold mbind, st_bind. by rewrite Hr.
  - destruct (Commit_secure onleaf d s m Hcb Hs Ho Hinv) as (h & d' & s' & Hr & _ & Hs' & _ & _ & Hinv'). exists d', s'. unfold mbind, st_bind. by rewrite Hr.
Qed.

(** C26: A secure trie is a map of the keys themselves: any sequence of TryGet, TryUpdate, TryDelete and
    Commit answers as a finite map, as long as the keys in use have no colliding hashes, and
    afterwards GetKey finds the key of every entry from its hash, in the cache or among the
    preimages of the database. *)
Theorem secure_trie_refines_map onleaf (ops : list secure_op) : leaf_callback onleaf → ∀ (d : Database) (s : SecureTrie) (m : gmap (list byte) (list byte)),
  secure_holds d s m → sops_ok ops m → db_inv d →
  ∃ d' s', run_sops onleaf ops (d, s) = (Ok (spec_sops ops m).1, (d', s')) ∧ secure_holds d' s' (spec_sops ops m).2 ∧
    ∀ k, is_Some ((spec_sops ops m).2 !! k) → (SecureTrie_GetKey (Keccak256 k) (d', s')).1 = Ok k.
Proof.
  intros Hcb. induction ops as [| o ops IH]; intros d s m Hs Ho Hinv; cbn [run_sops spec_sops].
  - exists d, s. split; [done |]. split; [done |]. intros k. by apply (GetKey_secure d s m).
  - destruct Ho as [Ho Hos]. destruct (run_sop_spec onleaf d s m o Hcb Hs Ho Hinv) as (d1 & s1 & H1 & Hs1 & Hinv1). unfold mbind, st_bind. rewrite H1.
    destruct (spec_sop o m) as [r m1]. cbn [fst snd] in *. destruct (IH d1 s1 m1 Hs1 Hos Hinv1) as (d2 & s2 & -> & Hs2 & Hk2).
    destruct (spec_sops ops m1) as [rs m2]. by exists d2, s2.
Qed.
End Secure.
