(* ===== verification/TrieExamples.v ===== *)
(** Tries of a few entries, on which the theorems about tries and their database
    are applied. *)

From S2P Require Import Prelude Rlp Transaction TrieEncoding TrieNode Trie TrieTree TrieRep TrieOps TrieHash TrieCommit TrieContents TrieTheorems TrieProofs TrieDerive TrieDatabase TrieDatabaseFacts TrieFlush TrieCap TrieGC TrieRefs TrieSecure.

Lemma length_toy_Keccak256 d : length (toy_Keccak256 d) = HashLength.
Proof. unfold toy_Keccak256. rewrite length_take, length_app, length_replicate. unfold HashLength. lia. Qed.

(** ** The tree of a trie that is in memory *)

Fixpoint tree_of (n : node) : tree :=
  match n with
  | valueNode v => TVal v
  | shortNode k n _ => TShort k (tree_of n)
  | fullNode ns _ => TFull (map tree_of ns)
  | _ => TNil
  end.

Fixpoint in_memory (n : node) : bool :=
  match n with
  | nilNode | valueNode _ => true
  | shortNode _ n _ => in_memory n
  | fullNode ns _ => forallb in_memory ns
  | _ => false
  end.

Section Loaded.
  Context {D : Type} `{NodeDatabase D}.

Lemma loaded_tree (db : D) n : ∀ r t, in_memory n = true → rep toy_Keccak256 db r n t → t = tree_of n.
Proof.
  induction n as [| ns fl IH | k n fl IH | h | v | b | ns IH | k n IH] using node_ind'; intros r t Hm Hr; inversion Hr as [| | ? ? ? ? ? Hr' | ? ? ts ? Hr' |]; subst; try done; cbn [tree_of].
  - f_equal. cbn [in_memory] in Hm. clear - IH Hm Hr'. revert ts Hr'. induction IH as [| n ns IHn _ IHns]; intros ts Hr'; inversion Hr'; subst; [done |].
    cbn [forallb] in Hm. apply andb_true_iff in Hm as [Hm Hms]. cbn [map]. f_equal; [by eapply IHn | by apply IHns].
  - f_equal. by eapply IH.
Qed.

(** The encodings of its nodes. *)
Definition encodings (n : node) : list (list byte) := map (enc toy_Keccak256) (nodes (tree_of n)).

Lemma encoded_loaded (db : D) n m P : holds toy_Keccak256 db n m → in_memory n = true → (∀ b, b ∈ encodings n → P b) → encoded toy_Keccak256 P m.
Proof.
  intros (t0 & Hr & Ht0) Hm HP t Ht s Hs. rewrite (tree_for_unique t t0 m Ht Ht0) in Hs. rewrite (loaded_tree db n true t0 Hm Hr) in Hs.
  apply HP. unfold encodings. apply list_elem_of_fmap. by exists s.
Qed.

Lemma empty_holds (db : D) : holds toy_Keccak256 db nilNode ∅.
Proof. exists TNil. split; [constructor | split; [by left | apply contents_nil]]. Qed.

(** Two insertions. *)
Lemma two_hold (db : D) k1 v1 k2 v2 root : run_ops db [UpdateOp k1 v1; UpdateOp k2 v2] nilNode = (Ok [[]; []], root) →
  holds toy_Keccak256 db root (<[k2 := v2]> (<[k1 := v1]> ∅)).
Proof.
  destruct (run_op_spec toy_Keccak256 length_toy_Keccak256 db nilNode ∅ (UpdateOp k1 v1) (empty_holds db)) as (r1 & H1 & Hm1).
  destruct (run_op_spec toy_Keccak256 length_toy_Keccak256 db r1 _ (UpdateOp k2 v2) Hm1) as (r2 & H2 & Hm2). cbn [run_ops]. unfold mbind, st_bind. rewrite H1, H2.
  by intros [= <-].
Qed.
End Loaded.

(** ** A set of encodings without collisions *)

Definition hashes_ok (l : list (list byte)) : bool :=
  bool_decide (NoDup (map toy_Keccak256 l)) && forallb (λ b, negb (bool_decide (toy_Keccak256 b = emptyRoot)) && negb (bool_decide (toy_Keccak256 b = replicate HashLength Byte.x00))) l.

Lemma hashes_collision_free l : hashes_ok l = true → collision_free toy_Keccak256 (λ b, b ∈ l).
Proof.
  unfold hashes_ok. rewrite andb_true_iff. intros [Hnd%bool_decide_eq_true Hf]. split.
  - intros a b Ha Hb Heq. apply list_elem_of_lookup in Ha as [i Ha], Hb as [j Hb]. assert (i = j) as <-; [| congruence].
    apply (NoDup_lookup (map toy_Keccak256 l) i j (toy_Keccak256 a) Hnd); apply list_lookup_fmap_Some; [by exists a | exists b; by rewrite Heq].
  - intros a Ha. apply list_elem_of_In in Ha. rewrite forallb_forall in Hf. specialize (Hf a Ha). apply andb_true_iff in Hf as [H1 H2].
    apply negb_true_iff, bool_decide_eq_false in H1. apply negb_true_iff, bool_decide_eq_false in H2. done.
Qed.

(** ** Two entries *)

Definition key1 : list byte := [Byte.x12; Byte.x34].
Definition key2 : list byte := [Byte.x12; Byte.x56].
Definition value1 : list byte := replicate 40 Byte.xaa.
Definition value2 : list byte := replicate 40 Byte.xbb.
Definition pair_map : gmap (list byte) (list byte) := <[key2 := value2]> (<[key1 := value1]> ∅).
Definition pair_root : node := Eval vm_compute in (run_ops tt [UpdateOp key1 value1; UpdateOp key2 value2] nilNode).2.
Definition pair_root' : node := Eval vm_compute in (run_ops tt [UpdateOp key2 value2; UpdateOp key1 value1] nilNode).2.
Definition pair_encodings : list (list byte) := Eval vm_compute in encodings pair_root.
Definition pair_hash : list byte := Eval vm_compute in match (Hash toy_Keccak256 (D := ()) pair_root).1 with Ok h => h | _ => [] end.

Section Pair.
  Context {D : Type} `{NodeDatabase D}.

Lemma pair_holds (db : D) : holds toy_Keccak256 db pair_root pair_map.
Proof. apply two_hold. vm_compute. reflexivity. Qed.

Lemma pair_holds' (db : D) : holds toy_Keccak256 db pair_root' pair_map.
Proof. unfold pair_map. rewrite insert_insert_ne by done. apply two_hold. vm_compute. reflexivity. Qed.
End Pair.

Lemma pair_small : small_map pair_map.
Proof. intros key v Hk. unfold pair_map in Hk. apply lookup_insert_Some in Hk as [[<- <-] | [_ Hk]]; [done |]. by apply lookup_singleton_Some in Hk as [<- <-]. Qed.

Lemma pair_no_empty : no_empty_prefix pair_map.
Proof.
  intros key key' v Hk. unfold pair_map in Hk. apply lookup_insert_Some in Hk as [[_ ?] | [_ Hk]]; [done |]. by apply lookup_singleton_Some in Hk as [_ ?].
Qed.

Lemma pair_free : collision_free toy_Keccak256 (λ b, b ∈ pair_encodings).
Proof. apply hashes_collision_free. vm_compute. reflexivity. Qed.

Lemma pair_encoded : encoded toy_Keccak256 (λ b, b ∈ pair_encodings) pair_map.
Proof. by apply (encoded_loaded tt pair_root); [apply pair_holds | |]. Qed.

Lemma trie_refines_map_witness :
  ∃ root', run_ops tt [GetOp key1; DeleteOp key2; GetOp key2] pair_root = (Ok [value1; []; []], root') ∧ holds toy_Keccak256 tt root' (base.delete key2 pair_map).
Proof. exact (trie_refines_map toy_Keccak256 length_toy_Keccak256 tt [GetOp key1; DeleteOp key2; GetOp key2] pair_root pair_map (pair_holds tt)). Defined.

Lemma Hash_of_contents_witness :
  ∃ h root1' root2', Hash toy_Keccak256 (D := ()) pair_root = (Ok h, root1') ∧ Hash toy_Keccak256 (D := ()) pair_root' = (Ok h, root2') ∧ holds toy_Keccak256 tt root1' pair_map.
Proof. exact (Hash_of_contents toy_Keccak256 length_toy_Keccak256 tt tt pair_root pair_root' pair_map (pair_holds tt) (pair_holds' tt) pair_small). Defined.


Definition new_database : Database := NewDatabase {| kv := ∅; faults := [] |}.

Lemma new_dirty h c : dirties new_database !! h = Some c → h = hash0.
Proof. unfold new_database, NewDatabase. cbn [dirties]. by intros [<- _]%lookup_singleton_Some. Qed.

Lemma new_database_ok : database_ok new_database.
Proof.
  split; [exists []; split; [constructor | | set_solver | done | done | done] | split; [| apply map_Forall_empty]].
  - intros h. split; [intros [c Hc%new_dirty]; by left |]. intros [-> | ?%not_elem_of_nil]; [| done].
    unfold new_database, NewDatabase. cbn [dirties]. rewrite lookup_singleton_eq. by eexists.
  - by intros h c Hc%new_dirty Hh.
Qed.

Lemma new_database_backed P : backed toy_Keccak256 P new_database.
Proof.
  intros h Hh. left. unfold db_node, database_NodeDatabase, db_get. destruct (dirties new_database !! h) eqn:E; [by apply new_dirty in E | done].
Qed.

Lemma new_database_inv P : db_inv toy_Keccak256 P new_database.
Proof.
  split; [apply new_database_ok | apply new_database_backed |]. intros h enc _. unfold Node. case_bool_decide as Hh; [done |].
  destruct (dirties new_database !! h) eqn:E; [by apply new_dirty in E | done].
Qed.


(** ** Proofs *)

(** A database that holds the encodings under their hashes. *)
Definition reader (l : list (list byte)) (h : list byte) : option (list byte) := snd <$> list_find (λ b, toy_Keccak256 b = h) l.

Lemma reader_honest l h b : reader l h = Some b → toy_Keccak256 b = h ∧ b ∈ l.
Proof.
  unfold reader. intros Hr. apply fmap_Some in Hr as ([i b'] & Hf & ->). apply list_find_Some in Hf as (Hi & Hh & _). split; [done |]. by apply list_elem_of_lookup_2 in Hi.
Qed.

Lemma VerifyProof_sound_witness : ∃ n, VerifyProof pair_hash key2 (reader pair_encodings) = Ok (value2, n).
Proof.
  destruct (VerifyProof_sound toy_Keccak256 length_toy_Keccak256 tt pair_root pair_map (λ b, b ∈ pair_encodings) (reader pair_encodings) pair_hash key2
    (pair_holds tt) pair_small pair_no_empty pair_free pair_encoded (reader_honest _) ltac:(vm_compute; reflexivity)) as [[n Hn] | [e He]]; [exists n; exact Hn |].
  vm_compute in He. discriminate He.
Defined.

Lemma Prove_complete_witness :
  ∃ proof n, Prove toy_Keccak256 tt key1 0 pair_root = Ok proof ∧ VerifyProof pair_hash key1 (proof_reader proof) = Ok (value1, n).
Proof.
  exact (Prove_complete toy_Keccak256 length_toy_Keccak256 tt pair_root pair_map (λ b, b ∈ pair_encodings) pair_hash key1
    (pair_holds tt) pair_small pair_no_empty pair_free pair_encoded (insert_non_empty _ _ _) ltac:(vm_compute; reflexivity)).
Defined.

(** ** Lists *)

Definition list1 : list (list byte) := [value1; value2].
Definition list2 : list (list byte) := [value2; value1; value2].
Definition list_root (l : list (list byte)) : node := (derive_loop 0 l nilNode).2.
Definition list_encodings : list (list byte) := Eval vm_compute in remove_dups (encodings (list_root list1) ++ encodings (list_root list2)).

Lemma list_encoded l : len l < 2 ^ 64 → in_memory (list_root l) = true → Forall (λ b, b ∈ list_encodings) (encodings (list_root l)) →
  encoded toy_Keccak256 (λ b, b ∈ list_encodings) (index_map l).
Proof.
  intros Hl Hm He. destruct (derive_loop_spec toy_Keccak256 length_toy_Keccak256 l 0 nilNode ∅ ltac:(lia) Hl (empty_holds tt)) as (root & Hd & Hh).
  unfold list_root in *. rewrite Hd in *. apply (encoded_loaded tt root); [done | done |]. by apply Forall_forall.
Qed.

Lemma list_derivable l : len l < 2 ^ 64 → Forall (λ b, b = value1 ∨ b = value2) l → derivable l.
Proof. intros Hl Hf. split; [done |]. intros b Hb. rewrite Forall_forall in Hf. by destruct (Hf b Hb) as [-> | ->]. Qed.

Lemma DeriveSha_binds_witness :
  ∃ h1 h2, DeriveSha toy_Keccak256 list1 = Ok h1 ∧ DeriveSha toy_Keccak256 list2 = Ok h2 ∧ (h1 = h2 → list1 = list2).
Proof.
  apply (DeriveSha_binds toy_Keccak256 length_toy_Keccak256 list1 list2 (λ b, b ∈ list_encodings)).
  - apply list_derivable; [done | repeat (constructor; [tauto |]); constructor].
  - apply list_derivable; [done | repeat (constructor; [tauto |]); constructor].
  - apply hashes_collision_free. vm_compute. reflexivity.
  - apply list_encoded; [done | vm_compute; reflexivity |]. apply (bool_decide_eq_true _). vm_compute. reflexivity.
  - apply list_encoded; [done | vm_compute; reflexivity |]. apply (bool_decide_eq_true _). vm_compute. reflexivity.
Defined.

(** ** A leaf and its parent in a database *)

Definition new_node (n : node) : list byte * list byte :=
  match (raw ← simplifyNode n; node_blob raw) with Ok blob => (toy_Keccak256 blob, blob) | _ => ([], []) end.
Definition leaf : node := shortNode [Byte.x31] (valueNode value1) newFlag.
Definition leaf_hash : list byte := Eval vm_compute in (new_node leaf).1.
Definition parent : node := fullNode (hashNode leaf_hash :: replicate 15 nilNode ++ [valueNode value2]) newFlag.
Definition parent_hash : list byte := Eval vm_compute in (new_node parent).1.
Definition family : Database :=
  (insert_dirty parent_hash (new_node parent).2 parent (insert_dirty leaf_hash (new_node leaf).2 leaf new_database).2).2.

Lemma inserted_ok d n h : database_ok d → (new_node n).1 = h → length h = HashLength → match simplifyNode n with Ok raw => is_Ok (node_childs raw) | _ => false end = true →
  database_ok (insert_dirty h (new_node n).2 n d).2.
Proof.
  intros Hd <- Hl Hg. unfold new_node in *. destruct (simplifyNode n) as [raw | |] eqn:Hs; [| done..]. cbn [mbind outcome_bind] in *.
  destruct (node_blob raw) as [blob | |] eqn:He; [| done..]. cbn [fst snd] in *.
  destruct (insert_dirty_spec d (toy_Keccak256 blob) blob n raw Hd Hs Hl He Hg) as (d' & -> & Hok & _). exact Hok.
Qed.

Lemma family_ok : database_ok family.
Proof.
  unfold family. apply inserted_ok; [apply inserted_ok; [apply new_database_ok | | |] | | |]; vm_compute; reflexivity.
Qed.

(** The leaf comes before its parent. *)
Definition family_rank (h : list byte) : nat := if bool_decide (h = parent_hash) then 1 else 0.

Definition acyclic_entry (d : Database) (rank : list byte → nat) (h : list byte) (c : cachedNode) : Prop :=
  Forall (λ x, x ≠ hash0 ∧ (is_Some (dirties d !! x) → (rank x < rank h)%nat)) (child_list c).

#[local] Instance acyclic_entry_decision d rank h c : Decision (acyclic_entry d rank h c).
Proof. unfold acyclic_entry. apply _. Defined.

Lemma acyclic_entries d rank : map_Forall (acyclic_entry d rank) (dirties d) → acyclic d rank.
Proof. intros Hf h c x Hc Hx. specialize (Hf h c Hc). unfold acyclic_entry in Hf. rewrite Forall_forall in Hf. by apply Hf. Qed.

Lemma family_acyclic : acyclic family family_rank.
Proof. apply acyclic_entries. apply (bool_decide_eq_true _). vm_compute. reflexivity. Qed.

Lemma Commit_keeps_nodes_witness :
  match Commit_database parent_hash family with
  | (Ok _, d') => database_ok d' ∧ kv (diskdb d') !! leaf_hash = Some (new_node leaf).2 ∧ dirties d' !! leaf_hash = None
  | _ => False
  end.
Proof.
  pose proof (Commit_keeps_nodes family parent_hash family_rank family_ok ltac:(intros H; vm_compute in H; discriminate H) family_acyclic) as H.
  assert (is_Ok (Commit_database parent_hash family).1 = true ∧ dirties (Commit_database parent_hash family).2 !! leaf_hash = None) as [Hok Hn] by (vm_compute; split; reflexivity).
  destruct (Commit_database parent_hash family) as [[[] | e | m] d']; cbn [fst snd is_Ok] in Hok, Hn; [| discriminate Hok | discriminate Hok]. destruct H as (H1 & _ & H2).
  split; [exact H1 |]. split; [| exact Hn]. apply H2; [| vm_compute; reflexivity | vm_compute; reflexivity].
  destruct (dirties family !! parent_hash) as [c |] eqn:Hc; [| vm_compute in Hc; discriminate Hc].
  destruct (forChilds c) as [l | |] eqn:Hl; [| vm_compute in Hc; injection Hc as <-; vm_compute in Hl; discriminate Hl ..].
  apply (reach_child _ _ c l leaf_hash); [exact Hc | exact Hl | | apply reach_here]. vm_compute in Hc. injection Hc as <-. vm_compute in Hl. injection Hl as <-. by left.
Defined.

Lemma Cap_keeps_nodes_witness :
  match Cap 300 family with
  | (Ok _, d') => database_ok d' ∧ keeps family d' ∧ dirties d' !! leaf_hash = None ∧ is_Some (dirties d' !! parent_hash)
  | _ => False
  end.
Proof.
  pose proof (Cap_keeps_nodes family 300 family_ok) as H.
  assert (is_Ok (Cap 300 family).1 = true ∧ dirties (Cap 300 family).2 !! leaf_hash = None ∧ bool_decide (is_Some (dirties (Cap 300 family).2 !! parent_hash)) = true) as (Hok & Hn & Hp)
    by (vm_compute; split; [| split]; reflexivity).
  destruct (Cap 300 family) as [[[] | e | m] d']; cbn [fst snd is_Ok] in Hok, Hn, Hp; [| discriminate Hok | discriminate Hok]. destruct H as (H1 & H2 & _).
  apply bool_decide_eq_true in Hp. exact (conj H1 (conj H2 (conj Hn Hp))).
Defined.

(** ** Two roots that share a node *)

Definition family_content (h : list byte) : list byte :=
  if bool_decide (h = leaf_hash) then (new_node leaf).2 else if bool_decide (h = parent_hash) then (new_node parent).2 else [].

(** The meta root comes last. *)
Definition family_height (h : list byte) : nat := if bool_decide (h = hash0) then 2 else family_rank h.

#[local] Instance is_value_decision (r : outcome (list byte)) (b : list byte) : Decision (r = Ok b).
Proof. refine (match r with Ok a => cast_if (decide (a = b)) | _ => right _ end); congruence. Defined.

#[local] Instance op_ok_decision content rank d op : Decision (db_op_ok content rank d op).
Proof.
  destruct op as [hash blob n | | child p | | |]; cbn [db_op_ok]; unfold available, on_disk.
  - destruct (simplifyNode n) as [raw | |]; [destruct (node_childs raw) as [l | |] |..]; apply _.
  - apply _.
  - destruct (dirties d !! child); apply _.
  - apply _.
  - apply _.
  - apply _.
Defined.

#[local] Instance ops_ok_decision content rank ops : ∀ d, Decision (db_ops_ok content rank d ops).
Proof. induction ops as [| op ops IH]; intros d; cbn [db_ops_ok]; apply _. Defined.

(** The disk fails on the second write. *)
Definition failing_disk : Disk := {| kv := ∅; faults := [false; true] |}.

Definition family_ops : list db_op :=
  [OpInsert leaf_hash (new_node leaf).2 leaf; OpInsert parent_hash (new_node parent).2 parent; OpReference parent_hash hash0; OpReference leaf_hash hash0].

Lemma family_ops_ok : db_ops_ok family_content family_height (NewDatabase failing_disk) family_ops.
Proof. apply (bool_decide_eq_true _). vm_compute. reflexivity. Qed.

Lemma failing_disk_empty x enc : length x = HashLength → kv failing_disk !! x = Some enc → enc = family_content x.
Proof. intros _. cbn [kv failing_disk]. by rewrite lookup_empty. Qed.

Definition two_roots : Database := (db_run family_ops (NewDatabase failing_disk)).2.

Lemma two_roots_ok : gc_ok two_roots [] ∧ acyclic two_roots family_height.
Proof.
  destruct (db_run_refs family_content family_height family_ops (NewDatabase failing_disk) (new_refs _ _ failing_disk failing_disk_empty) family_ops_ok) as (d & Hd & Hr).
  unfold two_roots. rewrite Hd. split; [apply Hr | by apply (rf_acyclic family_content)].
Qed.

(** The parent goes; the leaf, which is a root of its own, stays. *)
Lemma Dereference_keeps_referenced_witness :
  ∃ d', Dereference parent_hash two_roots = (Ok tt, d') ∧ gc_ok d' [] ∧ meta_refs d' parent_hash = 0 ∧ meta_refs d' leaf_hash = 1 ∧
    Node d' leaf_hash = Ok (new_node leaf).2 ∧ dirties d' !! parent_hash = None.
Proof.
  destruct (Dereference_keeps_referenced two_roots parent_hash family_height (proj1 two_roots_ok) (proj2 two_roots_ok)) as (d' & Hd' & Hg & Hm & Hk); [vm_compute; reflexivity |].
  exists d'. split; [exact Hd' |]. split; [exact Hg |]. split; [rewrite Hm; vm_compute; reflexivity |].
  assert (meta_refs d' leaf_hash = 1) as Hleaf by (rewrite Hm; vm_compute; reflexivity).
  split; [exact Hleaf |]. split; [apply (Hk leaf_hash); [left; rewrite Hleaf; reflexivity | apply reach_here | vm_compute; reflexivity] |].
  assert (dirties (Dereference parent_hash two_roots).2 !! parent_hash = None) as Hn by (vm_compute; reflexivity). rewrite Hd' in Hn. exact Hn.
Defined.

(** The commit of the parent fails once; then everything goes on. *)
Definition family_run : list db_op := family_ops ++ [OpCommit parent_hash; OpCommit parent_hash; OpDereference parent_hash; OpCap 0; OpInsert parent_hash (new_node parent).2 parent].

Lemma referenced_nodes_readable_witness :
  ∃ d, db_run family_run (NewDatabase failing_disk) = (Ok tt, d) ∧ Node d leaf_hash = Ok (family_content leaf_hash) ∧ dirties d !! leaf_hash = None.
Proof.
  destruct (referenced_nodes_readable family_content family_height failing_disk family_run failing_disk_empty) as (d & Hd & _ & Hr).
  - apply (bool_decide_eq_true _). vm_compute. reflexivity.
  - assert (let d := (db_run family_run (NewDatabase failing_disk)).2 in meta_refs d leaf_hash = 1 ∧ dirties d !! leaf_hash = None) as [Hm Hn] by (vm_compute; split; reflexivity).
    rewrite Hd in Hm, Hn. cbn [snd] in Hm, Hn. exists d. split; [exact Hd |]. split; [| exact Hn]. apply (Hr leaf_hash); [rewrite Hm; reflexivity | apply reach_here | vm_compute; reflexivity].
Defined.

(** ** A secure trie *)

Definition secure_key1 : list byte := [Byte.x01].
Definition secure_key2 : list byte := replicate 32 Byte.x23.
Definition secure_ops : list secure_op :=
  [SecureUpdate secure_key1 value1; SecureUpdate secure_key2 value2; SecureCommit; SecureGet secure_key1; SecureDelete secure_key1; SecureGet secure_key1].
Definition secure_root : node :=
  Eval vm_compute in (run_ops tt [UpdateOp (toy_Keccak256 secure_key1) value1; UpdateOp (toy_Keccak256 secure_key2) value2] nilNode).2.
Definition secure_encodings : list (list byte) := Eval vm_compute in encodings secure_root.
Definition secure_trie : SecureTrie := {| self := 0; trie_root := nilNode; secKeyCache := ∅; secKeyCacheOwner := None |}.

Definition secure_keys (k : list byte) : Prop := k = secure_key1 ∨ k = secure_key2.

Lemma secure_keys_inj a b : secure_keys a → secure_keys b → toy_Keccak256 a = toy_Keccak256 b → a = b.
Proof. intros [-> | ->] [-> | ->]; done. Qed.

Lemma secure_free : collision_free toy_Keccak256 (λ b, b ∈ secure_encodings).
Proof. apply hashes_collision_free. vm_compute. reflexivity. Qed.

Lemma secure_committable : committable toy_Keccak256 (λ b, b ∈ secure_encodings) (<[secure_key2 := value2]> (<[secure_key1 := value1]> ∅)).
Proof.
  split.
  - intros k v Hk. apply lookup_insert_Some in Hk as [[_ <-] | [_ Hk]]; [done |]. by apply lookup_singleton_Some in Hk as [_ <-].
  - intros hm Hh. apply (encoded_loaded tt secure_root); [| done | done].
    assert (hm = <[toy_Keccak256 secure_key2 := value2]> (<[toy_Keccak256 secure_key1 := value1]> ∅)) as ->.
    { apply map_eq. intros hk. apply option_eq. intros v. rewrite (Hh hk v). split.
      - intros (k & <- & Hk). apply lookup_insert_Some in Hk as [[<- <-] | [_ Hk]]; [by rewrite lookup_insert_eq |]. by apply lookup_singleton_Some in Hk as [<- <-].
      - intros Hk. apply lookup_insert_Some in Hk as [[<- <-] | [_ Hk]]; [by exists secure_key2; rewrite lookup_insert_eq |].
        apply lookup_singleton_Some in Hk as [<- <-]. by exists secure_key1. }
    apply two_hold. vm_compute. reflexivity.
Qed.

Lemma secure_trie_holds : secure_holds toy_Keccak256 secure_keys new_database secure_trie ∅.
Proof.
  split; [| done | apply map_Forall_empty | | done].
  - exists ∅. split; [apply empty_holds |]. intros hk v. rewrite lookup_empty. split; [done |]. intros (k & _ & Hk). by rewrite lookup_empty in Hk.
  - intros hk k _ Hk. unfold preimage in Hk. cbn in Hk. by rewrite !lookup_empty in Hk.
Qed.

Lemma secure_trie_refines_map_witness :
  ∃ d' s', run_sops toy_Keccak256 None secure_ops (new_database, secure_trie) = (Ok [[]; []; []; value1; []; []], (d', s')) ∧
    (SecureTrie_GetKey (toy_Keccak256 secure_key2) (d', s')).1 = Ok secure_key2.
Proof.
  destruct (secure_trie_refines_map toy_Keccak256 length_toy_Keccak256 secure_keys secure_keys_inj (λ b, b ∈ secure_encodings) secure_free None secure_ops
    ltac:(done) new_database secure_trie ∅ secure_trie_holds) as (d' & s' & Hr & _ & Hk).
  - cbn [secure_ops sops_ok sop_ok spec_sop snd]. split; [by left |]. split; [by right |]. split; [exact secure_committable |].
    split; [by left |]. split; [by left |]. split; [by left | done].
  - apply new_database_inv.
  - exists d', s'. split; [exact Hr |]. apply Hk. exists value2. vm_compute. reflexivity.
Defined.
