(* ===== verification/BigFloat.v ===== *)
(** Go's [big.Float] and [float64] as far as src/l2geth uses them.

    A value is a dyadic number with the precision its mantissa is rounded to.
    Every operation computes the exact result and rounds it to nearest, ties
    to even, which is the default mode of math/big and the mode of [float64]. *)

From S2P Require Import Prelude.

(** [mant * 2 ^ expo], kept with [prec] bits. *)
Record bigfloat := { prec : Z; mant : Z; expo : Z }.

Definition bitlen (z : Z) : Z := if z =? 0 then 0 else Z.log2 (Z.abs z) + 1.

(** The integer nearest to [n / d], ties to even, for [0 <= n] and [0 < d]. *)
Definition div_nearest (n d : Z) : Z :=
  let q := n / d in
  let r := n mod d in
  match Z.compare (2 * r) d with
  | Lt => q
  | Gt => q + 1
  | Eq => if Z.even q then q else q + 1
  end.

(** [n * 2 ^ k] and [d] as a fraction of integers, for any sign of [k]. *)
Definition scale_num (n k : Z) : Z := if 0 <=? k then n * 2 ^ k else n.
Definition scale_den (d k : Z) : Z := if 0 <=? k then d else d * 2 ^ (- k).

(** The exponent that leaves [p] bits of [n / d]. *)
Definition quot_expo (p n d : Z) : Z :=
  let e := bitlen n - bitlen d - p in
  (* n / d < 2 ^ (bitlen n - bitlen d + 1): one more bit may be needed *)
  if scale_num n (- e) <? scale_den d (- e) * 2 ^ p then e else e + 1.

(** [n / d] rounded to a multiple of [2 ^ e], for [0 < d]. *)
Definition round_at (p e n d : Z) : bigfloat :=
  let m := div_nearest (scale_num (Z.abs n) (- e)) (scale_den d (- e)) in
  {| prec := p; mant := Z.sgn n * m; expo := e |}.

(** [n / d] rounded to [p] bits, for [0 < d]. *)
Definition round_quot (p n d : Z) : bigfloat :=
  if n =? 0 then {| prec := p; mant := 0; expo := 0 |}
  else round_at p (quot_expo p (Z.abs n) d) n d.

(** [new(big.Float).SetUint64(x)]: 64 bits, exact. *)
Definition SetUint64 (x : Z) : bigfloat := {| prec := 64; mant := x; expo := 0 |}.

(** [new(big.Float).SetInt(x)]: at least 64 bits and as many as needed. *)
Definition SetInt (x : Z) : bigfloat := {| prec := Z.max (bitlen x) 64; mant := x; expo := 0 |}.

(** [big.NewFloat(x)] of a float64, given as a dyadic number. *)
Definition NewFloat (m e : Z) : bigfloat := {| prec := 53; mant := m; expo := e |}.

(** [z.Mul(x, y)] where the precision of [z] is [p]. *)
Definition Mul (p : Z) (x y : bigfloat) : bigfloat :=
  let m := mant x * mant y in
  let e := expo x + expo y in
  round_quot p (scale_num m e) (scale_den 1 e).

(** [new(big.Float).Quo(x, y)]: the larger precision of the operands.
    Dividing by zero gives an infinity, which is not represented. *)
Definition Quo (x y : bigfloat) : bigfloat :=
  let k := expo x - expo y in
  let s := Z.sgn (mant y) in
  round_quot (Z.max (prec x) (prec y)) (scale_num (s * mant x) k) (scale_den (Z.abs (mant y)) k).

(** [x.Float64()]: 53 bits, fewer below the normal range.  Values beyond the
    largest float64 stay finite here. *)
Definition Float64 (x : bigfloat) : bigfloat :=
  let n := scale_num (mant x) (expo x) in
  let d := scale_den 1 (expo x) in
  if n =? 0 then {| prec := 53; mant := 0; expo := 0 |}
  else round_at 53 (Z.max (quot_expo 53 (Z.abs n) d) (-1074)) n d.

(** [math.Ceil]: the least integer that is not below. *)
Definition Ceil (x : bigfloat) : Z := - ((- scale_num (mant x) (expo x)) / scale_den 1 (expo x)).

(** ** The value of a number, and rounding errors *)

(** [x] times [scale_den 1 (expo x)] is [scale_num (mant x) (expo x)]. *)
Definition num (x : bigfloat) : Z := scale_num (mant x) (expo x).
Definition den (x : bigfloat) : Z := scale_den 1 (expo x).

Lemma div_nearest_spec n d :
  0 <= n → 0 < d → 2 * Z.abs (d * div_nearest n d - n) <= d.
Proof.
  intros Hn Hd. unfold div_nearest.
  pose proof (Z.div_mod n d ltac:(lia)) as E. pose proof (Z.mod_pos_bound n d Hd).
  destruct (Z.compare_spec (2 * (n mod d)) d); [destruct (Z.even (n / d)) | |]; nia.
Qed.

(** An integer is its own nearest integer. *)
Lemma div_nearest_exact q d : 0 < d → div_nearest (q * d) d = q.
Proof.
  intros Hd. unfold div_nearest. rewrite Z.div_mul, Z.mod_mul by lia.
  destruct (Z.compare_spec (2 * 0) d); [lia | done | lia].
Qed.

Lemma scale_den_pos d k : 0 < d → 0 < scale_den d k.
Proof.
  intros Hd. unfold scale_den. destruct (Z.leb_spec 0 k); [done |].
  apply Z.mul_pos_pos; [done | apply Z.pow_pos_nonneg; lia].
Qed.

Lemma scale_num_nonneg n k : 0 <= n → 0 <= scale_num n k.
Proof.
  intros Hn. unfold scale_num. destruct (Z.leb_spec 0 k); [| done].
  apply Z.mul_nonneg_nonneg; [done | apply Z.pow_nonneg; lia].
Qed.

Lemma bitlen_bounds z : 0 < z → 2 ^ (bitlen z - 1) <= z < 2 ^ bitlen z ∧ 0 < bitlen z.
Proof.
  intros Hz. unfold bitlen. rewrite (proj2 (Z.eqb_neq z 0)), Z.abs_eq by lia.
  pose proof (Z.log2_spec z Hz). pose proof (Z.log2_nonneg z).
  replace (Z.log2 z + 1 - 1) with (Z.log2 z) by lia.
  replace (Z.log2 z + 1) with (Z.succ (Z.log2 z)) by lia. lia.
Qed.

(** Comparisons of scaled fractions, without the case distinction. *)
Lemma scale_le n d k x J :
  0 <= J → 0 <= J + k → scale_den d k * x <= scale_num n k ↔ d * 2 ^ J * x <= n * 2 ^ (J + k).
Proof.
  intros HJ HJk. unfold scale_den, scale_num.
  destruct (Z.leb_spec 0 k).
  - rewrite Z.pow_add_r by lia. assert (0 < 2 ^ J) by (apply Z.pow_pos_nonneg; lia). nia.
  - replace (2 ^ J) with (2 ^ (J + k) * 2 ^ (- k)) by (rewrite <- Z.pow_add_r by lia; f_equal; lia).
    assert (0 < 2 ^ (J + k)) by (apply Z.pow_pos_nonneg; lia). nia.
Qed.

Lemma quot_expo_bounds p n d :
  0 < p → 0 < n → 0 < d →
  let e := quot_expo p n d in
  scale_den d (- e) * 2 ^ (p - 1) <= scale_num n (- e) ∧
  scale_num n (- e) < scale_den d (- e) * 2 ^ p.
Proof.
  intros Hp Hn Hd. cbv zeta. unfold quot_expo. set (e := bitlen n - bitlen d - p).
  destruct (bitlen_bounds n Hn) as [[Hn1 Hn2] Hbn]. destruct (bitlen_bounds d Hd) as [[Hd1 Hd2] Hbd].
  set (J := Z.abs e + 1).
  assert (Hlo : d * 2 ^ J * 2 ^ (p - 1) <= n * 2 ^ (J - e)).
  { transitivity (2 ^ bitlen d * 2 ^ J * 2 ^ (p - 1)).
    { apply Z.mul_le_mono_nonneg_r; [apply Z.pow_nonneg; lia |].
      apply Z.mul_le_mono_nonneg_r; [apply Z.pow_nonneg; lia | lia]. }
    rewrite <- !Z.pow_add_r by lia. transitivity (2 ^ (bitlen n - 1) * 2 ^ (J - e)).
    { rewrite <- Z.pow_add_r by lia. apply Z.pow_le_mono_r; lia. }
    apply Z.mul_le_mono_nonneg_r; [apply Z.pow_nonneg; lia | done]. }
  destruct (Z.ltb_spec (scale_num n (- e)) (scale_den d (- e) * 2 ^ p)) as [Hlt | Hge].
  - split; [| done]. apply (scale_le n d (- e) _ J); [lia | lia |].
    by replace (J + - e) with (J - e) by lia.
  - apply (scale_le n d (- e) _ J) in Hge; [| lia | lia]. split.
    + apply (scale_le n d _ _ J); [lia | lia |]. replace (J + - e) with (1 + (J + - (e + 1))) in Hge by lia.
      replace p with (1 + (p - 1)) in Hge by lia. rewrite !Z.pow_add_r in Hge by lia.
      change (2 ^ 1) with 2 in Hge. nia.
    + apply Z.nle_gt. rewrite (scale_le n d _ _ J) by lia. apply Z.nle_gt.
      apply Z.lt_le_trans with (2 ^ bitlen n * 2 ^ (J + - (e + 1))).
      { apply Z.mul_lt_mono_pos_r; [apply Z.pow_pos_nonneg; lia | done]. }
      transitivity (2 ^ (bitlen d - 1) * 2 ^ J * 2 ^ p).
      { rewrite <- !Z.pow_add_r by lia. apply Z.pow_le_mono_r; lia. }
      apply Z.mul_le_mono_nonneg_r; [apply Z.pow_nonneg; lia |].
      apply Z.mul_le_mono_nonneg_r; [apply Z.pow_nonneg; lia | done].
Qed.

(** Rounding to [p] bits has a relative error of at most [2 ^ - p]. *)
Lemma round_quot_error p n d :
  0 < p → 0 < n → 0 < d →
  let x := round_quot p n d in
  0 < num x ∧ 0 < den x ∧ Z.abs (num x * d - n * den x) * 2 ^ p <= n * den x.
Proof.
  intros Hp Hn Hd. cbv zeta. unfold round_quot, round_at. rewrite (proj2 (Z.eqb_neq n 0)) by lia.
  rewrite Z.sgn_pos, Z.mul_1_l, (Z.abs_eq n) by lia. set (e := quot_expo p n d).
  destruct (quot_expo_bounds p n d Hp Hn Hd) as [Hlo Hhi]. fold e in Hlo, Hhi.
  pose proof (scale_den_pos d (- e) Hd) as HD. pose proof (scale_num_nonneg n (- e) ltac:(lia)) as HN.
  pose proof (div_nearest_spec _ _ HN HD) as Hm.
  set (m := div_nearest (scale_num n (- e)) (scale_den d (- e))) in *.
  assert (H2 : 0 < 2 ^ (p - 1)) by (apply Z.pow_pos_nonneg; lia).
  assert (Hp2 : 2 ^ p = 2 * 2 ^ (p - 1)).
  { replace p with (1 + (p - 1)) at 1 by lia. rewrite Z.pow_add_r by lia. done. }
  assert (Hm0 : 0 < m) by nia.
  assert (Herr : Z.abs (scale_den d (- e) * m - scale_num n (- e)) * 2 ^ p <= scale_num n (- e)) by nia.
  unfold num, den. cbn [mant expo]. unfold scale_num, scale_den in *.
  destruct (Z.leb_spec 0 e), (Z.leb_spec 0 (- e)); try lia.
  - assert (e = 0) as -> by lia. change (2 ^ 0) with 1. rewrite !Z.mul_1_r in *.
    change (- 0) with 0 in *. change (2 ^ 0) with 1 in *. split_and!; nia.
  - replace (- - e) with e in * by lia. assert (0 < 2 ^ e) by (apply Z.pow_pos_nonneg; lia).
    split_and!; [nia | lia |]. replace (m * 2 ^ e * d - n * 1) with (d * 2 ^ e * m - n) by lia. lia.
Qed.

(** Relative bounds compose: [n2 / d2] against [n1 / d1] against [n / d]. *)
Lemma ratio_compose n d n1 d1 n2 d2 p q p' q' :
  0 < n1 → 0 < d1 → 0 <= n → 0 <= d → 0 <= n2 → 0 <= d2 →
  0 <= p → 0 <= q → 0 <= p' → 0 <= q' →
  n * d1 * p <= n1 * d * q → n1 * d2 * p' <= n2 * d1 * q' → n * d2 * (p * p') <= n2 * d * (q * q').
Proof.
  intros Hn1 Hd1 Hn Hd Hn2 Hd2 Hp Hq Hp' Hq' H1 H2.
  assert (0 <= n * d1 * p) by (repeat apply Z.mul_nonneg_nonneg; lia).
  assert (0 <= n1 * d2 * p') by (repeat apply Z.mul_nonneg_nonneg; lia).
  pose proof (Z.mul_le_mono_nonneg _ _ _ _ H H1 H0 H2) as Hm.
  apply (Z.mul_le_mono_pos_r _ _ (n1 * d1)); [by apply Z.mul_pos_pos |].
  replace (n * d2 * (p * p') * (n1 * d1)) with (n * d1 * p * (n1 * d2 * p')) by ring.
  replace (n2 * d * (q * q') * (n1 * d1)) with (n1 * d * q * (n2 * d1 * q')) by ring. done.
Qed.

(** The two directions of [round_quot_error]. *)
Lemma round_quot_bounds p n d :
  0 < p → 0 < n → 0 < d →
  let x := round_quot p n d in
  0 < num x ∧ 0 < den x ∧
  n * den x * (2 ^ p - 1) <= num x * d * 2 ^ p ∧ num x * d * 2 ^ p <= n * den x * (2 ^ p + 1).
Proof.
  intros Hp Hn Hd. cbv zeta. destruct (round_quot_error p n d Hp Hn Hd) as (H1 & H2 & He).
  split; [done |]. split; [done |]. rewrite !Z.mul_sub_distr_l, !Z.mul_add_distr_l, !Z.mul_1_r.
  assert (0 < 2 ^ p) by (apply Z.pow_pos_nonneg; lia).
  set (a := num _ * d) in *. set (b := n * den _) in *. destruct (Z.abs_spec (a - b)) as [[? Ha] | [? Ha]]; rewrite Ha in He; nia.
Qed.

Lemma bitlen_le z k : 0 < z → z <= 2 ^ k → 0 <= k → bitlen z <= k + 1.
Proof.
  intros Hz Hk Hk0. destruct (bitlen_bounds z Hz) as [[H1 _] _].
  destruct (Z.le_gt_cases (bitlen z) (k + 1)) as [| Hgt]; [done |]. exfalso.
  assert (2 ^ (k + 1) <= 2 ^ (bitlen z - 1)) by (apply Z.pow_le_mono_r; lia).
  assert (2 ^ (k + 1) = 2 * 2 ^ k) by (rewrite Z.pow_add_r by lia; lia).
  assert (0 < 2 ^ k) by (apply Z.pow_pos_nonneg; lia). lia.
Qed.

Lemma quot_expo_lower p n d : 0 < n → bitlen n - bitlen d - p <= quot_expo p n d.
Proof. intros Hn. unfold quot_expo. destruct (_ <? _); lia. Qed.

(** [Float64] rounds to 53 bits when its argument is not too small. *)
Lemma Float64_normal x :
  0 < mant x → -1000 <= expo x → Float64 x = round_quot 53 (num x) (den x).
Proof.
  intros Hm He. unfold Float64, round_quot. fold (num x). fold (den x).
  destruct (num x =? 0) eqn:E; [done |]. apply Z.eqb_neq in E. f_equal. apply Z.max_l.
  assert (Hn : 0 < num x).
  { pose proof (scale_num_nonneg (mant x) (expo x) ltac:(lia)). unfold num in *. lia. }
  assert (Hd : 0 < den x ∧ den x <= 2 ^ 1000).
  { split; [apply scale_den_pos; lia |]. unfold den, scale_den.
    destruct (Z.leb_spec 0 (expo x)); [apply (Z.pow_le_mono_r 2 0 1000); lia |].
    rewrite Z.mul_1_l. apply Z.pow_le_mono_r; lia. }
  pose proof (quot_expo_lower 53 (Z.abs (num x)) (den x) ltac:(lia)).
  pose proof (bitlen_bounds (Z.abs (num x)) ltac:(lia)).
  pose proof (bitlen_le (den x) 1000 ltac:(lia) ltac:(lia) ltac:(lia)). lia.
Qed.

Lemma Ceil_spec x : den x * (Ceil x - 1) < num x <= den x * Ceil x.
Proof.
  unfold Ceil. fold (num x). fold (den x).
  assert (Hd : 0 < den x) by (apply scale_den_pos; lia).
  pose proof (Z.div_mod (- num x) (den x) ltac:(lia)). pose proof (Z.mod_pos_bound (- num x) (den x) Hd). nia.
Qed.
