(* ===== verification/Fees.v ===== *)
(** Rollup fees, src/l2geth/rollup/fees/rollup_fee.go, and the cache of the
    gas price oracle, src/l2geth/eth/gasprice/rollup_gasprice.go.

    The fee the node checks when a transaction arrives ([CalculateTotalFee],
    with the cached oracle values) is compared with the fee the state
    transition charges ([CalculateTotalMsgFee], with the values of the
    oracle's storage). *)

From S2P Require Import Prelude Rlp TxMeta Transaction BigFloat.

Definition ErrGasPriceTooLow : error := ErrVar "fees.ErrGasPriceTooLow" "gas price too low".
Definition ErrGasPriceTooHigh : error := ErrVar "fees.ErrGasPriceTooHigh" "gas price too high".
Definition errMissingInput : error := ErrVar "fees.errMissingInput" "missing input".
Definition errTransactionSigned : error := ErrVar "fees.errTransactionSigned" "transaction is signed".

Definition TxDataZeroGas : Z := 4.
Definition TxDataNonZeroGasEIP2028 : Z := 16.

(** ** The oracle's storage slots and their cache *)

(** The slots of the BVM_GasPriceOracle predeploy, rcfg/config.go. *)
Definition L2GasPriceOracleOwnerSlot : Z := 0.
Definition L2GasPriceSlot : Z := 1.
Definition L1GasPriceSlot : Z := 2.
Definition OverheadSlot : Z := 3.
Definition ScalarSlot : Z := 4.
Definition DecimalsSlot : Z := 5.
Definition IsBurningSlot : Z := 6.
Definition ChargeSlot : Z := 7.
Definition SccAddressSlot : Z := 8.
Definition DaGasPriceSlot : Z := 9.
Definition DaSwitchSlot : Z := 10.

(** The storage of the predeploy: slot to word. *)
Abbreviation gpo_storage := (Z → Z).

Definition ScaleDecimals (scalar decimals : Z) : bigfloat :=
  let divisor := 10 ^ decimals in
  Quo (SetInt scalar) (SetInt divisor).

(** [None] is a nil pointer: [NewRollupOracle] leaves two fields unset. *)
Record RollupOracle := {
  l1GasPrice : Z;
  l2GasPrice : Z;
  daGasPrice : option Z;
  overhead : Z;
  scalar : bigfloat;
  isBurning : Z;
  charge : Z;
  daSwitch : option Z;
  sccAddress : list byte;
}.

Definition NewRollupOracle : RollupOracle :=
  {| l1GasPrice := 0; l2GasPrice := 0; daGasPrice := None; overhead := 0;
     scalar := {| prec := 0; mant := 0; expo := 0 |}; isBurning := 0; charge := 0;
     daSwitch := None; sccAddress := replicate 20 Byte.x00 |}.

(** [common.BigToAddress]: the low 20 bytes. *)
Definition BigToAddress (z : Z) : list byte := be 20 z.

(** The setters that [updateGasPriceOracleCache] calls, in one record update. *)
Definition oracle_of (slots : gpo_storage) : RollupOracle :=
  {| l1GasPrice := slots L1GasPriceSlot; l2GasPrice := slots L2GasPriceSlot;
     daGasPrice := Some (slots DaGasPriceSlot); overhead := slots OverheadSlot;
     scalar := ScaleDecimals (slots ScalarSlot) (slots DecimalsSlot);
     isBurning := slots IsBurningSlot; charge := slots ChargeSlot;
     daSwitch := Some (slots DaSwitchSlot); sccAddress := BigToAddress (slots SccAddressSlot) |}.

(** ** Fee arithmetic *)

Definition zeroesAndOnes (data : list byte) : Z * Z :=
  foldl (λ '(zeroes, ones) byt,
    if b2z byt =? 0 then (u64 (zeroes + 1), ones) else (zeroes, u64 (ones + 1))) (0, 0) data.

Definition CalculateL1GasUsed (data : list byte) (overhead daSwitch : Z) : Z :=
  if daSwitch =? 1 then overhead
  else
    let '(zeroes, ones) := zeroesAndOnes data in
    let zeroesGas := u64 (zeroes * TxDataZeroGas) in
    let onesGas := u64 (u64 (ones + 68) * TxDataNonZeroGasEIP2028) in
    u64 (zeroesGas + onesGas) + overhead.

Definition CalculateDAGasUsed (data : list byte) : Z := len data.

Definition CalculateDAFee (data : list byte) (daGasPrice : Z) : Z := CalculateDAGasUsed data * daGasPrice.

Section Fees.
(** Go leaves the conversion of a float64 outside of the range of [uint64] to
    the implementation. *)
Context (uint64_out_of_range : Z → Z).

Definition mulByFloat (num : Z) (float : bigfloat) : Z :=
  let n := SetUint64 (big_Uint64 num) in
  let product := Mul 64 n float in
  let rounded := Ceil (Float64 product) in
  if (0 <=? rounded) && (rounded <? 2 ^ 64) then rounded else uint64_out_of_range rounded.

Definition CalculateL1Fee (data : list byte) (overhead l1GasPrice : Z) (scalar : bigfloat) (daSwitch : Z) : Z :=
  let l1GasUsed := CalculateL1GasUsed data overhead daSwitch in
  mulByFloat (l1GasUsed * l1GasPrice) scalar.

(** The encoding without the three bytes of the empty signature. *)
Definition rlpEncode (tx : Transaction) : outcome (list byte) :=
  raw ← EncodeRLP tx;
  let d := data tx in
  if negb (tx_R d =? 0) || negb (tx_V d =? 0) || negb (tx_S d =? 0) then Err errTransactionSigned
  else slice raw 0 (len raw - 3).

Definition asTransaction (msg : Message) : Transaction :=
  match msg_to msg with
  | None => NewContractCreation (msg_nonce msg) (Some (msg_amount msg)) (msg_gasLimit msg)
              (Some (msg_gasPrice msg)) (msg_data msg)
  | Some to => NewTransaction (msg_nonce msg) to (Some (msg_amount msg)) (msg_gasLimit msg)
              (Some (msg_gasPrice msg)) (msg_data msg)
  end.

Definition copyTransaction (tx : Transaction) : Transaction :=
  let d := data tx in
  match Recipient d with
  | None => NewContractCreation (AccountNonce d) (Some (Amount d)) (GasLimit d) (Some (Price d)) (Payload d)
  | Some to => NewTransaction (AccountNonce d) to (Some (Amount d)) (GasLimit d) (Some (Price d)) (Payload d)
  end.

(** Dereferencing a nil field of the oracle panics. *)
Definition deref {A} (o : option A) : outcome A :=
  match o with Some a => Ok a | None => Panic "invalid memory address or nil pointer dereference" end.

Definition CalculateTotalFee (tx : Transaction) (gpo : RollupOracle) : outcome Z :=
  raw ← rlpEncode (copyTransaction tx);
  switch ← deref (daSwitch gpo);
  let l1Fee := CalculateL1Fee raw (overhead gpo) (l1GasPrice gpo) (scalar gpo) switch in
  let l2Fee := Price (data tx) * GasLimit (data tx) in
  let fee := l1Fee + l2Fee in
  if switch =? 1 then
    price ← deref (daGasPrice gpo);
    mret (fee + CalculateDAFee raw price)
  else mret fee.

Definition readGPOStorageSlots (state : gpo_storage) : Z * Z * bigfloat :=
  (state L1GasPriceSlot, state OverheadSlot, ScaleDecimals (state ScalarSlot) (state DecimalsSlot)).

Definition CalculateL1MsgFee (msg : Message) (state : gpo_storage) : outcome Z :=
  raw ← rlpEncode (asTransaction msg);
  let '(l1GasPrice, overhead, scalar) := readGPOStorageSlots state in
  mret (CalculateL1Fee raw overhead l1GasPrice scalar (state DaSwitchSlot)).

Definition CalculateDAMsgFee (msg : Message) (state : gpo_storage) : outcome Z :=
  raw ← rlpEncode (asTransaction msg);
  mret (CalculateDAFee raw (state DaGasPriceSlot)).

Definition CalculateTotalMsgFee (msg : Message) (state : gpo_storage) (gasUsed : Z) : outcome Z :=
  l1Fee ← CalculateL1MsgFee msg state;
  let l2Fee := msg_gasPrice msg * gasUsed in
  let fee := l1Fee + l2Fee in
  if state DaSwitchSlot =? 1 then
    daFee ← CalculateDAMsgFee msg state;
    mret (fee + daFee)
  else mret fee.

(** The receipt's L1 and DA fields. *)
Definition DeriveL1GasInfo (msg : Message) (state : gpo_storage) : outcome (Z * Z * Z * bigfloat) :=
  raw ← rlpEncode (asTransaction msg);
  let '(l1GasPrice, overhead, scalar) := readGPOStorageSlots state in
  let daSwitch := state DaSwitchSlot in
  let l1GasUsed := CalculateL1GasUsed raw overhead daSwitch in
  mret (CalculateL1Fee raw overhead l1GasPrice scalar daSwitch, l1GasPrice, l1GasUsed, scalar).

Definition DeriveDAGasInfo (msg : Message) (state : gpo_storage) : outcome (Z * Z * Z) :=
  raw ← rlpEncode (asTransaction msg);
  let daGasPrice := state DaGasPriceSlot in
  mret (CalculateDAFee raw daGasPrice, daGasPrice, CalculateDAGasUsed raw).

(** [ThresholdUp] and [ThresholdDown] may be nil. *)
Record PaysEnoughOpts := {
  UserGasPrice : option Z;
  ExpectedGasPrice : option Z;
  ThresholdUp : option bigfloat;
  ThresholdDown : option bigfloat;
}.

Definition PaysEnough (opts : PaysEnoughOpts) : outcome () :=
  match UserGasPrice opts with
  | None => Err (ErrWrap "no user fee" errMissingInput)
  | Some user =>
      match ExpectedGasPrice opts with
      | None => Err (ErrWrap "no expected fee" errMissingInput)
      | Some expected =>
          let fee := match ThresholdDown opts with None => expected | Some t => mulByFloat expected t end in
          if user <? fee then Err ErrGasPriceTooLow
          else match ThresholdUp opts with
               | None => mret tt
               | Some t => if mulByFloat expected t <? user then Err ErrGasPriceTooHigh else mret tt
               end
      end
  end.

(** ** The check covers the charge *)

Lemma asTransaction_copy Keccak256 Ecrecover tx usingBVM signer msg tx' :
  AsMessage Keccak256 Ecrecover usingBVM signer tx = (Ok msg, tx') →
  asTransaction msg = copyTransaction tx ∧ msg_gasPrice msg = Price (data tx).
Proof.
  unfold AsMessage. destruct (AsMessage_from _ _ _ _ tx) as [[from | |] t']; intros [= <- <-].
  unfold asTransaction, copyTransaction. cbn. by destruct (Recipient (data tx)).
Qed.

Theorem fee_check_covers_charge Keccak256 Ecrecover tx usingBVM signer msg tx' slots gasUsed :
  AsMessage Keccak256 Ecrecover usingBVM signer tx = (Ok msg, tx') →
  match CalculateTotalFee tx (oracle_of slots), CalculateTotalMsgFee msg slots gasUsed with
  | Ok checked, Ok charged => checked - charged = Price (data tx) * (GasLimit (data tx) - gasUsed)
  | Err e, Err e' => e = e'
  | Panic m, Panic m' => m = m'
  | _, _ => False
  end.
Proof.
  intros Hm. destruct (asTransaction_copy _ _ _ _ _ _ _ Hm) as [Ht Hp].
  unfold CalculateTotalFee, CalculateTotalMsgFee, CalculateL1MsgFee, CalculateDAMsgFee. rewrite Ht, Hp.
  destruct (rlpEncode (copyTransaction tx)) as [raw | |]; cbn; [| done | done].
  destruct (slots DaSwitchSlot =? 1); cbn; lia.
Qed.

(** ** L1 gas *)

Definition zeroes_in (l : list byte) : Z := len (filter (λ b, b2z b = 0) l).
Definition ones_in (l : list byte) : Z := len (filter (λ b, b2z b ≠ 0) l).

Lemma zeroesAndOnes_spec data :
  len data < 2 ^ 64 → zeroesAndOnes data = (zeroes_in data, ones_in data) ∧
    zeroes_in data + ones_in data = len data.
Proof.
  induction data as [| b data IH] using rev_ind; [done |]. rewrite len_app. change (len [b]) with 1. intros Hl.
  pose proof (len_nonneg data). destruct IH as [IH Hs]; [lia |]. unfold zeroesAndOnes in *.
  rewrite foldl_snoc, IH. unfold zeroes_in, ones_in in *. rewrite !filter_app, !len_app.
  pose proof (len_nonneg (filter (λ b, b2z b = 0) data)). pose proof (len_nonneg (filter (λ b, b2z b ≠ 0) data)).
  destruct (Z.eqb_spec (b2z b) 0) as [E | E].
  - rewrite filter_cons_True, filter_cons_False by (done || by intros []). change (len [b]) with 1.
    rewrite wrap_small by lia. unfold len in *. cbn. split; [f_equal |]; lia.
  - rewrite filter_cons_False, filter_cons_True by done. rewrite wrap_small by lia.
    unfold len in *. cbn. split; [f_equal |]; lia.
Qed.

Theorem CalculateL1GasUsed_exact data overhead daSwitch :
  len data < 2 ^ 59 →
  CalculateL1GasUsed data overhead daSwitch =
    (if daSwitch =? 1 then 0 else 4 * zeroes_in data + 16 * (ones_in data + 68)) + overhead.
Proof.
  intros Hl. unfold CalculateL1GasUsed. destruct (daSwitch =? 1); [lia |].
  destruct (zeroesAndOnes_spec data) as [-> Hs]; [lia |].
  assert (0 <= zeroes_in data) by apply len_nonneg. assert (0 <= ones_in data) by apply len_nonneg.
  unfold TxDataZeroGas, TxDataNonZeroGasEIP2028. rewrite (wrap_small 64 (ones_in data + 68)) by lia.
  rewrite (wrap_small 64 (zeroes_in data * 4)), (wrap_small 64 ((ones_in data + 68) * 16)), wrap_small by lia. lia.
Qed.

Theorem CalculateTotalFee_before_update_panics tx :
  txdata_ok (data tx) = true → len (value_bytes (txdata_value (data (copyTransaction tx)))) < 2 ^ 63 →
  ∃ msg, CalculateTotalFee tx NewRollupOracle = Panic msg.
Proof.
  intros Hok Hlen. unfold CalculateTotalFee, rlpEncode.
  assert (Hc : txdata_ok (data (copyTransaction tx)) = true).
  { unfold txdata_ok, copyTransaction in *. by destruct (Recipient (data tx)); cbn in *; rewrite !andb_true_iff in *; tauto. }
  rewrite EncodeRLP_bytes by done. cbn [mbind outcome_bind].
  assert (∀ f, f (data (copyTransaction tx)) = 0 → (f (data (copyTransaction tx)) =? 0) = true) as Hz by (intros f ->; done).
  rewrite !Hz by (by unfold copyTransaction; destruct (Recipient (data tx))). cbn [negb orb].
  unfold slice. destruct (_ && _); cbn; eauto.
Qed.

(** ** Multiplication by a float *)

(** The ceiling of the twice rounded product. *)
Definition scaled (n : Z) (f : bigfloat) : Z := Ceil (Float64 (Mul 64 (SetUint64 n) f)).

Lemma Mul_SetUint64 n f : Mul 64 (SetUint64 n) f = round_quot 64 (n * num f) (den f).
Proof.
  unfold Mul, SetUint64, num, den, scale_num, scale_den. cbn [mant expo]. rewrite Z.add_0_l.
  destruct (0 <=? expo f); f_equal; ring.
Qed.

Lemma round_quot_expo_lower n d k :
  0 < n → 0 < d → d <= 2 ^ k → 0 <= k → 0 < mant (round_quot 64 n d) ∧ - k - 64 <= expo (round_quot 64 n d).
Proof.
  intros Hn Hd Hk Hk0. destruct (round_quot_error 64 n d ltac:(lia) Hn Hd) as (H1 & _). split.
  - unfold num, scale_num in H1. destruct (0 <=? _); [| done].
    destruct (Z.le_gt_cases (mant (round_quot 64 n d)) 0); [| done].
    assert (0 <= 2 ^ expo (round_quot 64 n d)) by (apply Z.pow_nonneg; lia). nia.
  - unfold round_quot. rewrite (proj2 (Z.eqb_neq n 0)) by lia. cbn. rewrite Z.abs_eq by lia.
    pose proof (quot_expo_lower 64 n d Hn). pose proof (bitlen_bounds n Hn).
    pose proof (bitlen_le d k Hd Hk Hk0). lia.
Qed.

(** The product is exact up to one part in [2 ^ 52], rounded up. *)
Lemma scaled_bounds n f :
  0 < n → 0 < mant f → -900 <= expo f →
  n * num f * (2 ^ 52 - 1) <= scaled n f * den f * 2 ^ 52 ∧
  (scaled n f - 1) * den f * 2 ^ 52 < n * num f * (2 ^ 52 + 1).
Proof.
  intros Hn Hm He. unfold scaled. rewrite Mul_SetUint64.
  assert (Hf : 0 < num f).
  { unfold num, scale_num. destruct (Z.leb_spec 0 (expo f)); [| done].
    apply Z.mul_pos_pos; [done | apply Z.pow_pos_nonneg; lia]. }
  assert (Hd : 0 < den f) by (apply scale_den_pos; lia).
  assert (Hd9 : den f <= 2 ^ 900).
  { unfold den, scale_den. destruct (Z.leb_spec 0 (expo f)); [apply (Z.pow_le_mono_r 2 0 900); lia |].
    rewrite Z.mul_1_l. apply Z.pow_le_mono_r; lia. }
  assert (HN : 0 < n * num f) by (by apply Z.mul_pos_pos).
  destruct (round_quot_bounds 64 (n * num f) (den f) ltac:(lia) HN Hd) as (Hx1 & Hx2 & Hlo & Hhi).
  destruct (round_quot_expo_lower (n * num f) (den f) 900 HN Hd Hd9 ltac:(lia)) as [Hpos Hexp].
  set (x := round_quot 64 (n * num f) (den f)) in *.
  rewrite Float64_normal by lia.
  destruct (round_quot_bounds 53 (num x) (den x) ltac:(lia) Hx1 Hx2) as (Hy1 & Hy2 & Hlo' & Hhi').
  pose proof (Ceil_spec (round_quot 53 (num x) (den x))) as [Hc1 Hc2].
  set (y := round_quot 53 (num x) (den x)) in *. set (N := n * num f) in *.
  assert (HL : N * den y * ((2 ^ 64 - 1) * (2 ^ 53 - 1)) <= num y * den f * (2 ^ 64 * 2 ^ 53))
    by (apply (ratio_compose N (den f) (num x) (den x)); lia).
  assert (HU : num y * den f * (2 ^ 53 * 2 ^ 64) <= N * den y * ((2 ^ 53 + 1) * (2 ^ 64 + 1)))
    by (apply (ratio_compose (num y) (den y) (num x) (den x)); lia).
  clear Hlo Hhi Hlo' Hhi'. split; nia.
Qed.

Lemma mulByFloat_scaled n f :
  0 < n < 2 ^ 64 → 0 < mant f → -900 <= expo f → scaled n f < 2 ^ 64 → mulByFloat n f = scaled n f.
Proof.
  intros Hn Hm He Hs. destruct (scaled_bounds n f ltac:(lia) Hm He) as [Hlo _].
  unfold mulByFloat. unfold big_Uint64. rewrite Z.abs_eq, wrap_small by lia. fold (scaled n f).
  assert (0 <= n * num f).
  { apply Z.mul_nonneg_nonneg; [lia |]. apply scale_num_nonneg. lia. }
  assert (0 < den f) by (apply scale_den_pos; lia).
  rewrite (proj2 (Z.leb_le 0 _)), (proj2 (Z.ltb_lt _ _)) by (done || nia). done.
Qed.

Theorem PaysEnough_window user expected up down :
  0 < expected < 2 ^ 64 →
  0 < mant up → -900 <= expo up → scaled expected up < 2 ^ 64 →
  0 < mant down → -900 <= expo down → scaled expected down < 2 ^ 64 →
  match PaysEnough {| UserGasPrice := Some user; ExpectedGasPrice := Some expected;
                      ThresholdUp := Some up; ThresholdDown := Some down |} with
  | Ok _ => expected * num down * (2 ^ 52 - 1) <= user * den down * 2 ^ 52 ∧
      (user - 1) * den up * 2 ^ 52 < expected * num up * (2 ^ 52 + 1)
  | Err e => (e = ErrGasPriceTooLow ∧ user * den down * 2 ^ 52 < expected * num down * (2 ^ 52 + 1)) ∨
      (e = ErrGasPriceTooHigh ∧ expected * num up * (2 ^ 52 - 1) < user * den up * 2 ^ 52)
  | Panic _ => False
  end.
Proof.
  intros He Hu1 Hu2 Hu3 Hd1 Hd2 Hd3. unfold PaysEnough. cbn [UserGasPrice ExpectedGasPrice ThresholdUp ThresholdDown].
  rewrite !mulByFloat_scaled by done.
  destruct (scaled_bounds expected up ltac:(lia) Hu1 Hu2) as [Hu4 Hu5].
  destruct (scaled_bounds expected down ltac:(lia) Hd1 Hd2) as [Hd4 Hd5].
  assert (0 < den up) by (apply scale_den_pos; lia). assert (0 < den down) by (apply scale_den_pos; lia).
  destruct (Z.ltb_spec user (scaled expected down)).
  - left. split; [done |]. nia.
  - destruct (Z.ltb_spec (scaled expected up) user); [right; split; [done |]; nia | split; nia].
Qed.

Theorem CalculateL1Fee_wraps data overhead price f k :
  0 <= k → overhead * price = k * 2 ^ 64 → CalculateL1Fee data overhead price f 1 = 0.
Proof.
  intros Hk E. unfold CalculateL1Fee, CalculateL1GasUsed. cbn [Z.eqb Pos.eqb].
  rewrite E. unfold mulByFloat, big_Uint64. rewrite Z.abs_eq by lia.
  assert (u64 (k * 2 ^ 64) = 0) as -> by (apply Z.mod_mul; lia).
  unfold Mul, SetUint64, scale_num, scale_den. cbn [mant expo]. rewrite Z.mul_0_l, Z.add_0_l.
  destruct (0 <=? expo f); done.
Qed.

End Fees.

(** ** Examples *)

(** Amd64's result of converting a float out of range. *)
Definition amd64_conversion (_ : Z) : Z := 2 ^ 63.

(** An oracle with a DA fee: L1 price 30, overhead 2750, scalar 1.5, DA price 5. *)
Definition example_slots (slot : Z) : Z :=
  if slot =? L1GasPriceSlot then 30 else if slot =? OverheadSlot then 2750
  else if slot =? ScalarSlot then 15 else if slot =? DecimalsSlot then 1
  else if slot =? DaGasPriceSlot then 5 else if slot =? DaSwitchSlot then 1 else 0.

Lemma fee_check_covers_charge_witness :
  ∃ msg tx', AsMessage toy_Keccak256 toy_Ecrecover true (EIP155Signer 5000) example_signed = (Ok msg, tx') ∧
    match CalculateTotalFee amd64_conversion example_signed (oracle_of example_slots),
          CalculateTotalMsgFee amd64_conversion msg example_slots 20000 with
    | Ok checked, Ok charged => checked - charged = 1000 * (21000 - 20000)
    | Err e, Err e' => e = e'
    | Panic m, Panic m' => m = m'
    | _, _ => False
    end.
Proof.
  eexists _, _. split; [vm_compute; reflexivity |].
  eapply (fee_check_covers_charge amd64_conversion toy_Keccak256 toy_Ecrecover example_signed true (EIP155Signer 5000)
    _ _ example_slots 20000). vm_compute. reflexivity.
Defined.

Lemma CalculateL1GasUsed_exact_witness :
  CalculateL1GasUsed [Byte.x00; Byte.x01; Byte.x02] 2750 0 = (4 * 1 + 16 * (2 + 68)) + 2750.
Proof. exact (CalculateL1GasUsed_exact [Byte.x00; Byte.x01; Byte.x02] 2750 0 ltac:(reflexivity)). Defined.

Lemma CalculateTotalFee_before_update_panics_witness :
  ∃ msg, CalculateTotalFee amd64_conversion example_tx NewRollupOracle = Panic msg.
Proof. apply (CalculateTotalFee_before_update_panics amd64_conversion example_tx); vm_compute; reflexivity. Defined.

(** Thresholds 5 and 1/2, an expected price of 10^9. *)
Lemma PaysEnough_window_witness :
  match PaysEnough amd64_conversion {| UserGasPrice := Some 600000000; ExpectedGasPrice := Some 1000000000;
          ThresholdUp := Some (NewFloat 5 0); ThresholdDown := Some (NewFloat 1 (-1)) |} with
  | Ok _ => 1000000000 * num (NewFloat 1 (-1)) * (2 ^ 52 - 1) <= 600000000 * den (NewFloat 1 (-1)) * 2 ^ 52 ∧
      (600000000 - 1) * den (NewFloat 5 0) * 2 ^ 52 < 1000000000 * num (NewFloat 5 0) * (2 ^ 52 + 1)
  | Err e => (e = ErrGasPriceTooLow ∧
        600000000 * den (NewFloat 1 (-1)) * 2 ^ 52 < 1000000000 * num (NewFloat 1 (-1)) * (2 ^ 52 + 1)) ∨
      (e = ErrGasPriceTooHigh ∧
        1000000000 * num (NewFloat 5 0) * (2 ^ 52 - 1) < 600000000 * den (NewFloat 5 0) * 2 ^ 52)
  | Panic _ => False
  end.
Proof.
  apply (PaysEnough_window amd64_conversion 600000000 1000000000 (NewFloat 5 0) (NewFloat 1 (-1)));
    try (vm_compute; reflexivity); try (vm_compute; discriminate). lia.
Defined.

Lemma CalculateL1Fee_wraps_witness : CalculateL1Fee amd64_conversion [] (2 ^ 32) (2 ^ 32) (NewFloat 1 0) 1 = 0.
Proof. apply (CalculateL1Fee_wraps amd64_conversion [] (2 ^ 32) (2 ^ 32) (NewFloat 1 0) 1); [lia | reflexivity]. Defined.
