(* ===== verification/BatchEncoding.v ===== *)
(** Encoding of sequencer batches,
    src/batch-submitter/drivers/sequencer/encoding.go and cached_tx.go.

    A batch is a header of fixed-width big-endian fields, a list of 16-byte
    contexts and the sequencer transactions, each behind a 3-byte length.
    [Serialize] writes the header and the contexts, [Read] reads all three.
    Decompression is a parameter: what [zlib.NewReader] and [bufio.NewReader]
    deliver of the rest of the input. *)

From S2P Require Import Prelude Rlp RlpStream RlpStreamFacts GoIO TxMeta Transaction.

Definition TxLenSize : Z := 3.

Definition ErrMalformedBatch : error := ErrVar "sequencer.ErrMalformedBatch" "malformed batch".

(** ** Integers *)

Definition writeUint64 (val n : Z) : outcome (list byte) :=
  if (n <? 1) || (8 <? n) then Panic "invalid number of bytes must be 1-8"
  else if Z.shiftr max_uint64 (8 * (8 - n)) <? val then Panic "cannot encode value"
  else Ok (drop (Z.to_nat (8 - n)) (be 8 val)).

(** One [Read] into the last [n] bytes of a zeroed buffer of eight. *)
Definition readUint64 (n : Z) : st reader Z :=
  if 8 <? n then st_fail (ErrNew "bytes shift out of range")
  else
    b ← r_Read (Z.to_nat n);
    mret (be_val (b ++ replicate (Z.to_nat n - length b) Byte.x00)).

(** ** Batch contexts *)

Record BatchContext := {
  NumSequencedTxs : Z;
  NumSubsequentQueueTxs : Z;
  Timestamp : Z;
  BlockNumber : Z;
}.

(** [BatchType] is an [int8]. *)
Definition BatchTypeLegacy : Z := -1.
Definition BatchTypeZlib : Z := 0.

Definition IsMarkerContext (c : BatchContext) : bool := Timestamp c =? 0.

Definition MarkerBatchType (c : BatchContext) : Z :=
  if BlockNumber c =? 0 then BatchTypeZlib else BatchTypeLegacy.

Definition BatchTypeFromString (s : string) : Z :=
  if bool_decide (s = "zlib"%string) || bool_decide (s = "ZLIB"%string) then BatchTypeZlib
  else BatchTypeLegacy.

Definition BatchType_String (b : Z) : string :=
  if b =? BatchTypeLegacy then "LEGACY"
  else if b =? BatchTypeZlib then "ZLIB"
  else "".

Definition MarkerContext (b : Z) : option BatchContext :=
  if b =? BatchTypeLegacy then None
  else if b =? BatchTypeZlib then
    Some {| NumSequencedTxs := 0; NumSubsequentQueueTxs := 0; Timestamp := 0; BlockNumber := 0 |}
  else None.

Definition BatchContext_Write (c : BatchContext) : outcome (list byte) :=
  a ← writeUint64 (NumSequencedTxs c) 3;
  b ← writeUint64 (NumSubsequentQueueTxs c) 3;
  t ← writeUint64 (Timestamp c) 5;
  n ← writeUint64 (BlockNumber c) 5;
  mret (a ++ b ++ t ++ n).

Definition BatchContext_Read : st reader BatchContext :=
  a ← readUint64 3;
  b ← readUint64 3;
  t ← readUint64 5;
  n ← readUint64 5;
  mret {| NumSequencedTxs := a; NumSubsequentQueueTxs := b; Timestamp := t; BlockNumber := n |}.

(** ** Cached transactions *)

Record CachedTx := { ctx_tx : Transaction; rawTx : list byte }.

Definition NewCachedTx (tx : Transaction) : outcome CachedTx :=
  match EncodeRLP tx with
  | Ok b => Ok {| ctx_tx := tx; rawTx := b |}
  | Err _ => Panic "Unable to encode tx"
  | Panic m => Panic m
  end.

Definition CachedTx_Size (t : CachedTx) : Z := len (rawTx t).

(** ** Batch parameters *)

Record AppendSequencerBatchParams := {
  ShouldStartAtElement : Z;
  TotalElementsToAppend : Z;
  Contexts : list BatchContext;
  Txs : list CachedTx;
}.

Fixpoint write_contexts (l : list BatchContext) : outcome (list byte) :=
  match l with
  | [] => mret []
  | c :: l => b ← BatchContext_Write c; r ← write_contexts l; mret (b ++ r)
  end.

Definition WriteNoTxn (p : AppendSequencerBatchParams) (batchType : Z) : outcome (list byte) :=
  s ← writeUint64 (ShouldStartAtElement p) 5;
  t ← writeUint64 (TotalElementsToAppend p) 3;
  let contexts :=
    match MarkerContext batchType with
    | Some m => m :: Contexts p
    | None => Contexts p
    end in
  n ← writeUint64 (u64 (len contexts)) 3;
  c ← write_contexts contexts;
  mret (s ++ t ++ n ++ c).

(** The block numbers the Go function takes are not used by it. *)
Definition Serialize (p : AppendSequencerBatchParams) (batchType : Z)
    (l2BlockNumber upgradeBlock : Z) : outcome (list byte) :=
  WriteNoTxn p batchType.

(** ** Reading *)

(** [p.Contexts] while the [n] contexts from the [i]-th on are read, and the
    batch type a marker context has set. *)
Fixpoint read_contexts (n : nat) (i : Z) (batchType : Z) (acc : list BatchContext)
    : st reader (Z * list BatchContext) :=
  match n with
  | O => mret (batchType, acc)
  | S n =>
      c ← BatchContext_Read;
      if (i =? 0) && IsMarkerContext c then read_contexts n (i + 1) (MarkerBatchType c) acc
      else read_contexts n (i + 1) batchType (acc ++ [c])
  end.

(** The reader after [n] of its bytes were consumed. *)
Fixpoint r_drop (n : nat) (r : reader) : reader :=
  match r with
  | [] => []
  | c :: r => if Nat.leb (length c) n then r_drop (n - length c) r else drop n c :: r
  end.

(** [rlp.NewStream(r, inputLimit)]: without a limit only a [bytes.Reader] is
    limited, to its length. *)
Definition NewStream (isBytesReader : bool) (b : list byte) (inputLimit : Z) : Stream :=
  if 0 <? inputLimit then Reset b inputLimit
  else if isBytesReader then Reset b 0
  else MkStream b 0 false None 0 Byte.x00 None [].

(** [tx.DecodeRLP(l2rlp.NewStream(r, txLen))] on a new transaction. *)
Definition new_tx : Transaction := newTransaction 0 None None 0 None [].

Definition read_tx (isBytesReader : bool) (txLen : Z) : st reader Transaction := λ r,
  let data := concat r in
  match DecodeRLP (S (length data)) new_tx (NewStream isBytesReader data txLen) with
  | (o, s) => (o, r_drop (length data - length (s_r s)) r)
  end.

(** The transaction loop: it ends when no byte of a length can be read.  Every
    round reads at least one byte; running out of fuel would be [Panic]. *)
Fixpoint read_txs (isBytesReader : bool) (fuel : nat) (contexts : list BatchContext)
    (txs : list CachedTx) : st reader (list CachedTx) := λ r,
  match fuel with
  | O => (Panic "out of fuel", r)
  | S fuel =>
      match readUint64 TxLenSize r with
      | (Err e, r) =>
          if bool_decide (e = io_EOF) then
            match contexts, txs with
            | [], _ :: _ => (Err ErrMalformedBatch, r)
            | _ :: _, [] => (Err ErrMalformedBatch, r)
            | _, _ => (Ok txs, r)
            end
          else (Err e, r)
      | (Panic m, r) => (Panic m, r)
      | (Ok txLen, r) =>
          (tx ← read_tx isBytesReader txLen;
           c ← st_lift (NewCachedTx tx);
           read_txs isBytesReader fuel contexts (txs ++ [c])) r
      end
  end.

Section Read.
(** The decompressed data [bufio.NewReader(zr)] delivers, or the error of
    [zlib.NewReader]; and what [zr.Close] returns. *)
Context (zlib_NewReader : reader → outcome reader) (zlib_Close : reader → outcome ()).

(** The transactions, decompressed if the batch type says so. *)
Definition read_typed_txs (batchType : Z) (isBytesReader : bool) (contexts : list BatchContext)
    (txs : list CachedTx) : st reader (list CachedTx) := λ r,
  if batchType =? BatchTypeZlib then
    match zlib_NewReader r with
    | Ok zr =>
        match read_txs false (S (length (concat zr))) contexts txs zr with
        | (Ok txs, zr) =>
            match zlib_Close zr with
            | Ok _ => (Ok txs, [])
            | Err e => (Err e, [])
            | Panic m => (Panic m, [])
            end
        | (Err e, _) => (Err e, [])
        | (Panic m, _) => (Panic m, [])
        end
    | Err e => (Err e, [])
    | Panic m => (Panic m, [])
    end
  else read_txs isBytesReader (S (length (concat r))) contexts txs r.

(** The part of [Read] before the transactions: first element, number of
    elements, batch type and contexts. *)
Definition read_header : st reader (Z * Z * Z * list BatchContext) :=
  start ← readUint64 5;
  total ← readUint64 3;
  numContexts ← readUint64 3;
  '(batchType, contexts) ← read_contexts (Z.to_nat numContexts) 0 BatchTypeLegacy [];
  mret (start, total, batchType, contexts).

(** [p.Read(r)], with [isBytesReader] if [r] is a [*bytes.Reader]; the old
    contexts of [p] are dropped, its old transactions kept. *)
Definition Read (isBytesReader : bool) (p : AppendSequencerBatchParams)
    : st reader AppendSequencerBatchParams :=
  '(start, total, batchType, contexts) ← read_header;
  txs ← read_typed_txs batchType isBytesReader contexts (Txs p);
  mret {| ShouldStartAtElement := start; TotalElementsToAppend := total;
          Contexts := contexts; Txs := txs |}.
End Read.

(** ** Well-formed batches *)

Definition fits (n v : Z) : bool := (0 <=? v) && (v <? 256 ^ n).

Definition context_ok (c : BatchContext) : bool :=
  fits 3 (NumSequencedTxs c) && fits 3 (NumSubsequentQueueTxs c) &&
  fits 5 (Timestamp c) && fits 5 (BlockNumber c).

(** The contexts as they are written: a marker first for a typed batch. *)
Definition marked (batchType : Z) (contexts : list BatchContext) : list BatchContext :=
  match MarkerContext batchType with Some m => m :: contexts | None => contexts end.

Definition params_ok (batchType : Z) (p : AppendSequencerBatchParams) : bool :=
  fits 5 (ShouldStartAtElement p) && fits 3 (TotalElementsToAppend p) &&
  fits 3 (len (marked batchType (Contexts p))) && forallb context_ok (Contexts p).

(** The transactions as the format documents them: length, then bytes. *)
Definition tx_bytes (t : CachedTx) : list byte := be 3 (len (rawTx t)) ++ rawTx t.

(** What a well-formed transaction decodes to: the cache of the decoded
    transaction is filled, its metadata that of a new transaction. *)
Definition decoded_tx (t : CachedTx) : CachedTx :=
  {| ctx_tx := {| data := data (ctx_tx t); meta := meta new_tx; tx_hash := None;
                  tx_size := Some (len (rawTx t)); tx_from := None |};
     rawTx := rawTx t |}.

Definition cached_ok (t : CachedTx) : bool :=
  txdata_ok (data (ctx_tx t)) && bool_decide (rawTx t = value_bytes (txdata_value (data (ctx_tx t)))) &&
  (len (rawTx t) <? 256 ^ 3).

(** ** Integers *)

Lemma fits_range n v : fits n v = true ↔ 0 <= v < 256 ^ n.
Proof. unfold fits. lia. Qed.

Lemma writeUint64_fits v n :
  1 <= n <= 8 → fits n v = true → writeUint64 v n = Ok (be (Z.to_nat n) v).
Proof.
  intros Hn Hv%fits_range. unfold writeUint64, max_uint64.
  rewrite (proj2 (Z.ltb_ge n 1)), (proj2 (Z.ltb_ge 8 n)) by lia. cbn [orb].
  assert (Z.shiftr (2 ^ 64 - 1) (8 * (8 - n)) = 256 ^ n - 1) as ->.
  { rewrite Z.shiftr_div_pow2, pow256_2 by lia. replace (2 ^ 64) with (2 ^ (8 * (8 - n)) * 2 ^ (8 * n))
      by (rewrite <- Z.pow_add_r by lia; f_equal; lia).
    assert (0 < 2 ^ (8 * (8 - n))) by (apply Z.pow_pos_nonneg; lia).
    replace (2 ^ (8 * (8 - n)) * 2 ^ (8 * n) - 1) with
      ((2 ^ (8 * (8 - n)) - 1) + (2 ^ (8 * n) - 1) * 2 ^ (8 * (8 - n))) by lia.
    rewrite Z.div_add, Z.div_small by lia. lia. }
  rewrite (proj2 (Z.ltb_ge _ _)) by lia. f_equal.
  replace 8%nat with (Z.to_nat (8 - n) + Z.to_nat n)%nat by lia. rewrite be_add.
  apply drop_app_exact. by rewrite length_be.
Qed.

(** A reader that delivers its data in one piece. *)
Definition single (r : reader) : Prop := (length r <= 1)%nat.

Lemma readUint64_at n v rest r :
  1 <= n <= 8 → fits n v = true → single r → concat r = be (Z.to_nat n) v ++ rest →
  ∃ r', readUint64 n r = (Ok v, r') ∧ concat r' = rest ∧ single r'.
Proof.
  intros Hn Hv%fits_range Hs Hr. destruct r as [|b [|? ?]]; [|..|unfold single in Hs; simpl in Hs; lia].
  { apply (f_equal length) in Hr. rewrite length_app, length_be in Hr. simpl in Hr. lia. }
  simpl in Hr. rewrite app_nil_r in Hr. unfold readUint64.
  rewrite (proj2 (Z.ltb_ge 8 n)) by lia. cbv [mbind st_bind].
  exists [rest]. subst b.
  destruct (be (Z.to_nat n) v) as [|x l] eqn:E.
  { apply (f_equal length) in E. rewrite length_be in E. simpl in E. lia. }
  cbn [app r_Read]. rewrite app_comm_cons, <- E.
  rewrite take_app_exact, drop_app_exact by (by rewrite length_be).
  cbv [mret st_ret]. rewrite length_be, Nat.sub_diag. simpl. rewrite !app_nil_r.
  rewrite be_val_be_small by (rewrite Z2Nat.id; lia). done.
Qed.

Lemma readUint64_eof n r :
  1 <= n <= 8 → concat r = [] → readUint64 n r = (Err io_EOF, []).
Proof.
  intros Hn Hr. unfold readUint64. rewrite (proj2 (Z.ltb_ge 8 n)) by lia. cbv [mbind st_bind].
  destruct (r_Read_spec (Z.to_nat n) r ltac:(lia)) as [[_ ->]|(b & r' & _ & Hr' & Hb)]; [done|].
  rewrite Hr in Hr'. destruct b; [simpl in Hb; lia|done].
Qed.

(** Reading short: any byte at all is enough. *)
Lemma readUint64_short n r :
  1 <= n <= 8 → concat r ≠ [] →
  ∃ v r', readUint64 n r = (Ok v, r') ∧
    (length (concat r) - Z.to_nat n <= length (concat r') < length (concat r))%nat.
Proof.
  intros Hn Hr. unfold readUint64. rewrite (proj2 (Z.ltb_ge 8 n)) by lia. cbv [mbind st_bind].
  destruct (r_Read_spec (Z.to_nat n) r ltac:(lia)) as [[? _]|(b & r' & -> & Hr' & Hb)]; [done|].
  do 2 eexists. split; [done|]. rewrite Hr', length_app. lia.
Qed.

(** ** Contexts *)

Lemma BatchContext_Write_ok c :
  context_ok c = true →
  BatchContext_Write c = Ok (be 3 (NumSequencedTxs c) ++ be 3 (NumSubsequentQueueTxs c) ++
    be 5 (Timestamp c) ++ be 5 (BlockNumber c)).
Proof.
  unfold context_ok, BatchContext_Write. rewrite !andb_true_iff. intros [[[H1 H2] H3] H4].
  by rewrite !writeUint64_fits.
Qed.

Definition context_bytes (c : BatchContext) : list byte :=
  be 3 (NumSequencedTxs c) ++ be 3 (NumSubsequentQueueTxs c) ++
  be 5 (Timestamp c) ++ be 5 (BlockNumber c).

Lemma BatchContext_Read_at c rest r :
  context_ok c = true → single r → concat r = context_bytes c ++ rest →
  ∃ r', BatchContext_Read r = (Ok c, r') ∧ concat r' = rest ∧ single r'.
Proof.
  unfold context_ok, context_bytes. rewrite !andb_true_iff. intros [[[H1 H2] H3] H4] Hs Hr.
  rewrite <- !app_assoc in Hr. unfold BatchContext_Read. cbv [mbind st_bind].
  destruct (readUint64_at 3 _ _ r ltac:(lia) H1 Hs Hr) as (r1 & -> & Hr1 & Hs1).
  destruct (readUint64_at 3 _ _ r1 ltac:(lia) H2 Hs1 Hr1) as (r2 & -> & Hr2 & Hs2).
  destruct (readUint64_at 5 _ _ r2 ltac:(lia) H3 Hs2 Hr2) as (r3 & -> & Hr3 & Hs3).
  destruct (readUint64_at 5 _ _ r3 ltac:(lia) H4 Hs3 Hr3) as (r4 & -> & Hr4 & Hs4).
  exists r4. split; [by destruct c|done].
Qed.

Lemma write_contexts_ok l :
  forallb context_ok l = true → write_contexts l = Ok (concat (map context_bytes l)).
Proof.
  induction l as [|c l IH]; [done|]. simpl. rewrite andb_true_iff. intros [Hc Hl].
  rewrite BatchContext_Write_ok by done. cbn [mbind outcome_bind]. by rewrite IH.
Qed.

Lemma read_contexts_at l i bt acc rest r :
  forallb context_ok l = true → single r → concat r = concat (map context_bytes l) ++ rest →
  0 < i ∨ (i = 0 ∧ match l with [] => True | c :: _ => Timestamp c ≠ 0 end) →
  ∃ r', read_contexts (length l) i bt acc r = (Ok (bt, acc ++ l), r') ∧ concat r' = rest ∧ single r'.
Proof.
  revert i acc r. induction l as [|c l IH]; intros i acc r Hok Hs Hr Hi.
  { exists r. rewrite app_nil_r. done. }
  simpl in Hok. apply andb_prop in Hok as [Hc Hl]. cbn [map concat] in Hr. rewrite <- app_assoc in Hr.
  cbn [length read_contexts]. cbv [mbind st_bind].
  destruct (BatchContext_Read_at c _ r Hc Hs Hr) as (r1 & -> & Hr1 & Hs1).
  assert ((i =? 0) && IsMarkerContext c = false) as ->.
  { unfold IsMarkerContext. destruct Hi as [?|[-> ?]]; simpl; lia. }
  destruct (IH (i + 1) (acc ++ [c]) r1 Hl Hs1 Hr1) as (r2 & E & ?); [lia|].
  exists r2. rewrite E, <- app_assoc. done.
Qed.

(** ** Transactions *)

Lemma r_drop_single b rest :
  ∃ r', r_drop (length b) [b ++ rest] = r' ∧ concat r' = rest ∧ single r'.
Proof.
  eexists. split; [done|]. simpl. rewrite length_app. destruct (Nat.leb_spec (length b + length rest) (length b)).
  - destruct rest; [|simpl in *; lia]. split; [done|unfold single; simpl; lia].
  - rewrite drop_app_length. simpl. rewrite app_nil_r. split; [done|unfold single; simpl; lia].
Qed.

Lemma cached_ok_inv t :
  cached_ok t = true →
  txdata_ok (data (ctx_tx t)) = true ∧ rawTx t = value_bytes (txdata_value (data (ctx_tx t))) ∧
  1 <= len (rawTx t) < 256 ^ 3.
Proof.
  unfold cached_ok. rewrite !andb_true_iff, bool_decide_eq_true, Z.ltb_lt. intros [[Hok He] Hl].
  split; [done|]. split; [done|]. split; [|done]. rewrite He.
  eapply shape_pos, shape_list.
Qed.

Lemma read_tx_at isB t rest r :
  cached_ok t = true → len (rawTx t ++ rest) < 2 ^ 63 → single r → concat r = rawTx t ++ rest →
  ∃ r', (tx ← read_tx isB (len (rawTx t)); st_lift (NewCachedTx tx)) r = (Ok (decoded_tx t), r') ∧
        concat r' = rest ∧ single r'.
Proof.
  intros (Hok & He & Hl)%cached_ok_inv Hlen Hs Hr.
  destruct r as [|b [|? ?]]; [|..|unfold single in Hs; simpl in Hs; lia].
  { simpl in Hr. destruct (rawTx t); [rewrite len_nil in Hl; lia|done]. }
  simpl in Hr. rewrite app_nil_r in Hr. subst b.
  unfold read_tx. cbv [mbind st_bind]. cbn [concat]. rewrite app_nil_r.
  unfold NewStream. rewrite (proj2 (Z.ltb_lt 0 _)) by lia.
  set (s := Reset (rawTx t ++ rest) (len (rawTx t))).
  pose proof (len_nonneg rest).
  assert (0 < len (rawTx t) <= len (rawTx t ++ rest)) as Hlim by (rewrite len_app; lia).
  pose proof (Reset_fresh _ (len (rawTx t)) Hlen ltac:(auto)) as Hf. fold s in Hf.
  pose proof (DecodeRLP_codec (S (length (rawTx t ++ rest))) new_tx) as Hc.
  destruct (codec_complete _ _ _ _ Hc s
    (with_data new_tx (data (ctx_tx t)) (len (value_bytes (txdata_value (data (ctx_tx t)))))) rest Hf)
    as (s' & E); [cbn [s_r Reset s]; lia|eauto|cbn [s_r Reset s data with_data]; by rewrite He|
      unfold s; rewrite Reset_room by auto; cbn [data with_data]; rewrite He; lia|].
  rewrite E. destruct (codec_sound _ _ _ _ Hc _ _ _ Hf E) as [_ [[_ Hrs _ _ _] _]].
  cbn [data with_data] in Hrs. rewrite <- He in Hrs. unfold s in Hrs. simpl in Hrs.
  apply app_inv_head in Hrs. rewrite <- Hrs.
  replace (length (rawTx t ++ rest) - length rest)%nat with (length (rawTx t)) by (rewrite length_app; lia).
  destruct (r_drop_single (rawTx t) rest) as (r' & -> & Hr' & Hs').
  exists r'. split; [|done]. unfold NewCachedTx. rewrite EncodeRLP_bytes; cbn [data with_data]; [|done|].
  - unfold decoded_tx, with_data. rewrite <- He. done.
  - rewrite <- He. lia.
Qed.

Lemma read_txs_at isB fuel ctxs acc ts r :
  forallb cached_ok ts = true → single r → concat r = concat (map tx_bytes ts) →
  len (concat r) < 2 ^ 63 → (length ts < fuel)%nat →
  (ctxs = [] ↔ acc ++ ts = []) →
  (read_txs isB fuel ctxs acc r).1 = Ok (acc ++ map decoded_tx ts).
Proof.
  revert acc ts r. induction fuel as [|fuel IH]; intros acc ts r Hok Hs Hr Hlen Hf Hm; [lia|].
  cbn [read_txs]. destruct ts as [|t ts].
  - rewrite readUint64_eof by (done || lia). rewrite bool_decide_eq_true_2 by done.
    rewrite !app_nil_r in *. destruct ctxs, acc; try done; exfalso; destruct Hm; naive_solver.
  - simpl in Hok. apply andb_prop in Hok as [Ht Hts]. destruct (cached_ok_inv t Ht) as (_ & _ & Hl).
    cbn [map concat] in Hr. unfold tx_bytes in Hr at 1. rewrite <- app_assoc in Hr.
    assert (fits 3 (len (rawTx t)) = true) as Hfit by (apply fits_range; lia).
    destruct (readUint64_at 3 (len (rawTx t)) _ r ltac:(lia) Hfit Hs Hr) as (r1 & E1 & Hr1 & Hs1).
    unfold TxLenSize. rewrite E1.
    assert (len (rawTx t ++ concat (map tx_bytes ts)) < 2 ^ 63) as Hlen1.
    { rewrite Hr, len_app in Hlen. pose proof (len_nonneg (be 3 (len (rawTx t)))).
      change (Z.to_nat 3) with 3%nat in *. lia. }
    destruct (read_tx_at isB t _ r1 Ht Hlen1 Hs1 Hr1) as (r2 & E2 & Hr2 & Hs2).
    cbv [mbind st_bind] in E2 |- *. destruct (read_tx isB (len (rawTx t)) r1) as [[tx|e|p] r3]; [|done..].
    rewrite E2. rewrite IH with (ts := ts); [|done|done|done|..].
    + cbn [map]. by rewrite <- app_assoc.
    + rewrite Hr2. rewrite len_app in Hlen1. lia.
    + simpl in Hf. lia.
    + split; intros H.
      * apply Hm in H. by destruct acc.
      * by destruct acc.
Qed.

Lemma length_txs_bytes ts : (length ts <= length (concat (map tx_bytes ts)))%nat.
Proof.
  induction ts as [|t ts IH]; [done|]. cbn [map concat length].
  unfold tx_bytes at 1. rewrite !length_app, length_be. lia.
Qed.

(** ** Whole batches *)

Lemma marker_ok bt l : forallb context_ok l = true → forallb context_ok (marked bt l) = true.
Proof.
  intros H. unfold marked, MarkerContext. destruct (bt =? BatchTypeLegacy); [done|].
  by destruct (bt =? BatchTypeZlib).
Qed.

Definition header_bytes (bt : Z) (p : AppendSequencerBatchParams) : list byte :=
  be 5 (ShouldStartAtElement p) ++ be 3 (TotalElementsToAppend p) ++
  be 3 (len (marked bt (Contexts p))) ++ concat (map context_bytes (marked bt (Contexts p))).

Lemma params_ok_inv bt p :
  params_ok bt p = true →
  fits 5 (ShouldStartAtElement p) = true ∧ fits 3 (TotalElementsToAppend p) = true ∧
  fits 3 (len (marked bt (Contexts p))) = true ∧ forallb context_ok (marked bt (Contexts p)) = true ∧
  forallb context_ok (Contexts p) = true.
Proof.
  unfold params_ok. rewrite !andb_true_iff. intros [[[H1 H2] H3] H4].
  split; [done|]. split; [done|]. split; [done|]. split; [by apply marker_ok|done].
Qed.

Lemma WriteNoTxn_ok bt p : params_ok bt p = true → WriteNoTxn p bt = Ok (header_bytes bt p).
Proof.
  intros (H1 & H2 & H3 & H4 & _)%params_ok_inv. unfold WriteNoTxn. fold (marked bt (Contexts p)).
  pose proof (proj1 (fits_range _ _) H3). rewrite (wrap_small 64) by lia.
  rewrite !writeUint64_fits by (done || lia). cbn [mbind outcome_bind].
  by rewrite write_contexts_ok.
Qed.

Lemma read_header_at bt p rest r :
  params_ok bt p = true → single r → concat r = header_bytes bt p ++ rest →
  (bt = BatchTypeLegacy ∧ match Contexts p with [] => True | c :: _ => Timestamp c ≠ 0 end ∨
   bt = BatchTypeZlib) →
  ∃ r', single r' ∧ concat r' = rest ∧
    read_header r = (Ok (ShouldStartAtElement p, TotalElementsToAppend p, bt, Contexts p), r').
Proof.
  intros (H1 & H2 & H3 & H4 & H5)%params_ok_inv Hs Hr Hbt.
  unfold header_bytes in Hr. rewrite <- !app_assoc in Hr.
  unfold read_header. cbv [mbind st_bind].
  destruct (readUint64_at 5 _ _ r ltac:(lia) H1 Hs Hr) as (r1 & -> & Hr1 & Hs1).
  destruct (readUint64_at 3 _ _ r1 ltac:(lia) H2 Hs1 Hr1) as (r2 & -> & Hr2 & Hs2).
  destruct (readUint64_at 3 _ _ r2 ltac:(lia) H3 Hs2 Hr2) as (r3 & -> & Hr3 & Hs3).
  replace (Z.to_nat (len (marked bt (Contexts p)))) with (length (marked bt (Contexts p)))
    by (unfold len; lia).
  destruct Hbt as [[-> Hm]| ->].
  - destruct (read_contexts_at (Contexts p) 0 BatchTypeLegacy [] rest r3) as (r4 & E4 & Hr4 & Hs4); auto.
    change (marked BatchTypeLegacy (Contexts p)) with (Contexts p). rewrite E4. eauto.
  - change (marked BatchTypeZlib (Contexts p)) with
      ({| NumSequencedTxs := 0; NumSubsequentQueueTxs := 0; Timestamp := 0; BlockNumber := 0 |} :: Contexts p) in *.
    cbn [map concat] in Hr3. rewrite <- app_assoc in Hr3.
    destruct (BatchContext_Read_at (Build_BatchContext 0 0 0 0) _ r3 eq_refl Hs3 Hr3)
      as (r4 & E4 & Hr4 & Hs4).
    cbn [length read_contexts]. cbv [mbind st_bind]. rewrite E4.
    destruct (read_contexts_at (Contexts p) 1 BatchTypeZlib [] rest r4) as (r5 & E5 & Hr5 & Hs5);
      [done|done|done|lia|].
    change ((0 =? 0) && IsMarkerContext (Build_BatchContext 0 0 0 0)) with true.
    change (MarkerBatchType (Build_BatchContext 0 0 0 0)) with BatchTypeZlib.
    change (0 + 1) with 1. cbv iota. rewrite E5. eauto.
Qed.

Lemma Read_header zn zc isB bt p p0 rest r :
  params_ok bt p = true → single r → concat r = header_bytes bt p ++ rest →
  (bt = BatchTypeLegacy ∧ match Contexts p with [] => True | c :: _ => Timestamp c ≠ 0 end ∨
   bt = BatchTypeZlib) →
  ∃ r', single r' ∧ concat r' = rest ∧
    Read zn zc isB p0 r = (txs ← read_typed_txs zn zc bt isB (Contexts p) (Txs p0);
      mret {| ShouldStartAtElement := ShouldStartAtElement p;
              TotalElementsToAppend := TotalElementsToAppend p;
              Contexts := Contexts p; Txs := txs |}) r'.
Proof.
  intros Hp Hs Hr Hbt. destruct (read_header_at bt p rest r Hp Hs Hr Hbt) as (r' & Hs' & Hr' & E).
  exists r'. split; [done |]. split; [done |]. unfold Read. cbv [mbind st_bind]. by rewrite E.
Qed.

(** What was written did fit. *)
Lemma writeUint64_inv v n b :
  1 <= n <= 8 → 0 <= v → writeUint64 v n = Ok b → fits n v = true.
Proof.
  intros Hn Hv E. apply fits_range. unfold writeUint64, max_uint64 in E.
  rewrite (proj2 (Z.ltb_ge n 1)), (proj2 (Z.ltb_ge 8 n)) in E by lia. cbn [orb] in E.
  destruct (Z.ltb_spec (Z.shiftr (2 ^ 64 - 1) (8 * (8 - n))) v) as [|Hle]; [done|].
  split; [done|]. eapply Z.le_lt_trans; [exact Hle|].
  rewrite Z.shiftr_div_pow2, pow256_2 by lia. apply Z.div_lt_upper_bound; [apply Z.pow_pos_nonneg; lia|].
  rewrite <- Z.pow_add_r by lia. replace (8 * (8 - n) + 8 * n) with 64 by lia. lia.
Qed.

Definition context_nonneg (c : BatchContext) : Prop :=
  0 <= NumSequencedTxs c ∧ 0 <= NumSubsequentQueueTxs c ∧ 0 <= Timestamp c ∧ 0 <= BlockNumber c.

Lemma write_contexts_inv l b :
  Forall context_nonneg l → write_contexts l = Ok b → forallb context_ok l = true.
Proof.
  revert b. induction l as [|c l IH]; intros b Hnn E; [done|].
  apply Forall_cons in Hnn as [(H1 & H2 & H3 & H4) Hl]. cbn in E.
  apply outcome_bind_Ok in E as (bc & Ec & E). apply outcome_bind_Ok in E as (bl & El & _).
  cbn. rewrite (IH bl Hl El), andb_true_r. unfold BatchContext_Write in Ec.
  apply outcome_bind_Ok in Ec as (? & E1 & Ec). apply outcome_bind_Ok in Ec as (? & E2 & Ec).
  apply outcome_bind_Ok in Ec as (? & E3 & Ec). apply outcome_bind_Ok in Ec as (? & E4 & Ec).
  unfold context_ok. by erewrite !writeUint64_inv by (done || lia).
Qed.

Lemma WriteNoTxn_inv bt p b :
  0 <= ShouldStartAtElement p → 0 <= TotalElementsToAppend p → Forall context_nonneg (Contexts p) →
  len (Contexts p) < 2 ^ 63 →
  WriteNoTxn p bt = Ok b → params_ok bt p = true ∧ b = header_bytes bt p.
Proof.
  intros H1 H2 H3 Hlen E.
  assert (Hp : params_ok bt p = true); [|split; [done|]; pose proof (WriteNoTxn_ok bt p Hp); congruence].
  assert (Hm : Forall context_nonneg (marked bt (Contexts p)) ∧ len (marked bt (Contexts p)) < 2 ^ 64).
  { unfold marked, MarkerContext. repeat destruct (_ =? _); try (split; [done|lia]). rewrite len_cons.
    split; [|lia]. constructor; [|done]. unfold context_nonneg. cbn. lia. }
  pose proof (len_nonneg (marked bt (Contexts p))).
  unfold WriteNoTxn in E. fold (marked bt (Contexts p)) in E. rewrite (wrap_small 64) in E by lia.
  apply outcome_bind_Ok in E as (? & E1 & E). apply outcome_bind_Ok in E as (? & E2 & E).
  apply outcome_bind_Ok in E as (? & E3 & E). apply outcome_bind_Ok in E as (? & E4 & E).
  apply write_contexts_inv in E4; [|apply Hm]. unfold params_ok.
  erewrite !writeUint64_inv by (done || lia). cbn [andb].
  unfold marked, MarkerContext in E4. by repeat destruct (_ =? _).
Qed.

(** A batch with one transaction, for the examples. *)
Definition example_context : BatchContext :=
  {| NumSequencedTxs := 1; NumSubsequentQueueTxs := 2; Timestamp := 1650000000; BlockNumber := 14000000 |}.

Definition example_cached : CachedTx :=
  {| ctx_tx := example_tx; rawTx := value_bytes (txdata_value (data example_tx)) |}.

Definition example_params : AppendSequencerBatchParams :=
  {| ShouldStartAtElement := 10; TotalElementsToAppend := 3; Contexts := [example_context]; Txs := [example_cached] |}.

Definition no_params : AppendSequencerBatchParams :=
  {| ShouldStartAtElement := 0; TotalElementsToAppend := 0; Contexts := []; Txs := [] |}.

(** A compressor that complements the bytes. *)
Definition toy_zlib (b : list byte) : list byte := map (λ x, z2b (255 - b2z x)) b.



Theorem Serialize_omits_transactions zlib_NewReader zlib_Close (l2BlockNumber upgradeBlock : Z)
    (p p0 : AppendSequencerBatchParams) :
  params_ok BatchTypeLegacy p = true → Txs p0 = [] →
  match Contexts p with [] => False | c :: _ => Timestamp c ≠ 0 end →
  ∃ b, Serialize p BatchTypeLegacy l2BlockNumber upgradeBlock = Ok b ∧
    (Read zlib_NewReader zlib_Close true p0 (bytes_NewReader b)).1 = Err ErrMalformedBatch.
Proof.
  intros Hp H0 Hc. exists (header_bytes BatchTypeLegacy p). split; [by apply WriteNoTxn_ok|].
  destruct (Read_header zlib_NewReader zlib_Close true BatchTypeLegacy p p0 []
    (bytes_NewReader (header_bytes BatchTypeLegacy p)))
    as (r' & Hs & Hr & ->); [done|unfold single; simpl; lia|done|by left; destruct (Contexts p)|].
  unfold read_typed_txs. cbv [mbind st_bind]. rewrite H0, Hr. simpl.
  unfold TxLenSize. rewrite readUint64_eof by (done || lia). rewrite bool_decide_eq_true_2 by done.
  by destruct (Contexts p).
Qed.

Lemma Serialize_omits_transactions_witness :
  ∃ b, Serialize example_params BatchTypeLegacy 5 0 = Ok b ∧
    (Read (λ _, Err (ErrNew "zlib")) (λ _, Ok tt) true no_params (bytes_NewReader b)).1 = Err ErrMalformedBatch.
Proof.
  apply (Serialize_omits_transactions (λ _, Err (ErrNew "zlib")) (λ _, Ok tt) 5 0 example_params no_params).
  - vm_compute. reflexivity.
  - reflexivity.
  - simpl. lia.
Defined.

Theorem BatchContext_Read_accepts_short_input (b : list byte) :
  (12 <= length b < 16)%nat →
  ∃ c, (BatchContext_Read (bytes_NewReader b)).1 = Ok c.
Proof.
  intros Hb. unfold BatchContext_Read. cbv [mbind st_bind].
  assert (∀ n r, 1 <= n <= 8 → (0 < length (concat r))%nat →
    ∃ v r', readUint64 n r = (Ok v, r') ∧ (length (concat r) - Z.to_nat n <= length (concat r'))%nat) as Hread.
  { intros n r Hn Hr. destruct (readUint64_short n r Hn) as (v & r' & E & ?).
    - intros E. rewrite E in Hr. simpl in Hr. lia.
    - exists v, r'. split; [done|lia]. }
  assert (length (concat (bytes_NewReader b)) = length b) as Hl by (simpl; by rewrite app_nil_r).
  destruct (Hread 3 (bytes_NewReader b)) as (v1 & r1 & -> & H1); [lia..|].
  destruct (Hread 3 r1) as (v2 & r2 & -> & H2); [lia..|].
  destruct (Hread 5 r2) as (v3 & r3 & -> & H3); [lia..|].
  destruct (Hread 5 r3) as (v4 & r4 & -> & H4); [lia..|]. eauto.
Qed.

Lemma BatchContext_Read_accepts_short_input_witness :
  ∃ c, (BatchContext_Read (bytes_NewReader (replicate 13 Byte.x01))).1 = Ok c.
Proof. apply (BatchContext_Read_accepts_short_input (replicate 13 Byte.x01)). simpl. lia. Defined.
