(* ===== verification/BatchGen.v ===== *)
(** Building a batch from L2 blocks,
    src/batch-submitter/drivers/sequencer/batch.go.

    [GenSequencerBatchParams] groups consecutive elements under contexts.  The
    contexts are proved to be a faithful run-length encoding of the elements:
    expanding them gives every element its kind, its timestamp and, for
    sequencer transactions, its block number back, and no two neighbouring
    contexts could have been one. *)

From S2P Require Import Prelude TxMeta Transaction BatchEncoding.

Definition ErrBlockWithInvalidContext : error :=
  ErrVar "sequencer.ErrBlockWithInvalidContext"
    "attempted to generate batch context with 0 queued and 0 sequenced txs".

(** [el_Tx] is set for sequencer transactions only. *)
Record BatchElement := {
  el_Timestamp : Z;
  el_BlockNumber : Z;
  el_Tx : option CachedTx;
}.

Definition IsSequencerTx (b : BatchElement) : bool :=
  match el_Tx b with Some _ => true | None => false end.

(** What the batch submitter reads of an L2 block. *)
Record Block := { b_Number : Z; b_Time : Z; b_Transactions : list Transaction }.

(** A nil block number panics when it is dereferenced. *)
Definition BatchElementFromBlock (block : Block) : outcome BatchElement :=
  match b_Transactions block with
  | [tx] =>
      match L1BlockNumber (meta tx) with
      | None => Panic "invalid memory address or nil pointer dereference"
      | Some n =>
          let l1BlockNumber := big_Uint64 n in
          cachedTx ← (if QueueOrigin (meta tx) =? QueueOriginSequencer
                      then c ← NewCachedTx tx; mret (Some c)
                      else mret None);
          mret {| el_Timestamp := b_Time block; el_BlockNumber := l1BlockNumber; el_Tx := cachedTx |}
      end
  | _ => Panic "attempting to create batch element from block, found txs instead of 1"
  end.

Record groupedBlock := { sequenced : list BatchElement; queued : list BatchElement }.

(** The variables of the grouping loop. *)
Record gen_state := {
  groupedBlocks : list groupedBlock;
  txs : list CachedTx;
  lastBlockIsSequencerTx : bool;
  lastTimestamp : Z;
  lastBlockNumber : Z;
}.

Definition gen_init : gen_state :=
  {| groupedBlocks := []; txs := []; lastBlockIsSequencerTx := false;
     lastTimestamp := 0; lastBlockNumber := 0 |}.

(** Updates the last group of a list. *)
Definition update_last (f : groupedBlock → groupedBlock) (l : list groupedBlock) : list groupedBlock :=
  match reverse l with
  | [] => []
  | g :: l => reverse (f g :: l)
  end.

(** Appends an element to the list of its kind. *)
Definition group_add (el : BatchElement) (g : groupedBlock) : groupedBlock :=
  if IsSequencerTx el then {| sequenced := sequenced g ++ [el]; queued := queued g |}
  else {| sequenced := sequenced g; queued := queued g ++ [el] |}.

Definition gen_step (s : gen_state) (el : BatchElement) : gen_state :=
  let needsNewGroupOnSequencerTx :=
    negb (lastBlockIsSequencerTx s) || negb (el_BlockNumber el =? lastBlockNumber s) in
  let groups :=
    if bool_decide (groupedBlocks s = []) || negb (el_Timestamp el =? lastTimestamp s) ||
       (IsSequencerTx el && needsNewGroupOnSequencerTx)
    then groupedBlocks s ++ [{| sequenced := []; queued := [] |}]
    else groupedBlocks s in
  {| groupedBlocks := update_last (group_add el) groups;
     txs := match el_Tx el with Some t => txs s ++ [t] | None => txs s end;
     lastBlockIsSequencerTx := IsSequencerTx el;
     lastTimestamp := el_Timestamp el;
     lastBlockNumber := el_BlockNumber el |}.

(** The context of one group. *)
Definition group_context (block : groupedBlock) : outcome BatchContext :=
  match sequenced block, queued block with
  | [], [] => Err ErrBlockWithInvalidContext
  | first :: _, _ | [], first :: _ =>
      Ok {| NumSequencedTxs := u64 (len (sequenced block));
            NumSubsequentQueueTxs := u64 (len (queued block));
            Timestamp := el_Timestamp first; BlockNumber := el_BlockNumber first |}
  end.

Fixpoint group_contexts (l : list groupedBlock) : outcome (list BatchContext) :=
  match l with
  | [] => mret []
  | g :: l => c ← group_context g; cs ← group_contexts l; mret (c :: cs)
  end.

Definition GenSequencerBatchParams (shouldStartAtElement blockOffset : Z) (batch : list BatchElement)
    : outcome AppendSequencerBatchParams :=
  let s := foldl gen_step gen_init batch in
  contexts ← group_contexts (groupedBlocks s);
  mret {| ShouldStartAtElement := u64 (shouldStartAtElement - blockOffset);
          TotalElementsToAppend := u64 (len batch);
          Contexts := contexts; Txs := txs s |}.

(** ** Specification *)

(** An element as a context describes it: sequenced, timestamp, block number. *)
Definition expand (c : BatchContext) : list (bool * Z * Z) :=
  replicate (Z.to_nat (NumSequencedTxs c)) (true, Timestamp c, BlockNumber c) ++
  replicate (Z.to_nat (NumSubsequentQueueTxs c)) (false, Timestamp c, BlockNumber c).

(** The described element agrees with the real one; the block number of a
    queued transaction is not recorded. *)
Definition describes (d : bool * Z * Z) (el : BatchElement) : Prop :=
  d.1.1 = IsSequencerTx el ∧ d.1.2 = el_Timestamp el ∧
  (IsSequencerTx el = true → d.2 = el_BlockNumber el).

(** Two neighbouring contexts cannot be merged into one. *)
Definition separate (c1 c2 : BatchContext) : Prop :=
  Timestamp c1 ≠ Timestamp c2 ∨
  (0 < NumSequencedTxs c2 ∧ (0 < NumSubsequentQueueTxs c1 ∨ BlockNumber c1 ≠ BlockNumber c2)).

Definition chained {A} (R : A → A → Prop) (l : list A) : Prop :=
  ∀ i x y, l !! i = Some x → l !! S i = Some y → R x y.

(** A context counts at least one element and takes its timestamp and its
    block number from an element of the batch. *)
Definition from_batch (batch : list BatchElement) (c : BatchContext) : Prop :=
  0 <= NumSequencedTxs c ∧ 0 <= NumSubsequentQueueTxs c ∧
  0 < NumSequencedTxs c + NumSubsequentQueueTxs c ∧
  ∃ el, el ∈ batch ∧ Timestamp c = el_Timestamp el ∧ BlockNumber c = el_BlockNumber el.

(** ** Proofs *)

Definition elems (g : groupedBlock) : list BatchElement := sequenced g ++ queued g.

(** A group as the loop builds it, [first] being its first element. *)
Record good_group (first : BatchElement) (g : groupedBlock) : Prop := {
  gg_head : head (elems g) = Some first;
  gg_seq : ∀ el, el ∈ sequenced g → IsSequencerTx el = true ∧ el_BlockNumber el = el_BlockNumber first;
  gg_queued : ∀ el, el ∈ queued g → IsSequencerTx el = false;
  gg_time : ∀ el, el ∈ elems g → el_Timestamp el = el_Timestamp first;
}.

(** The groups that [separate] is about. *)
Definition group_separate (g1 g2 : groupedBlock) : Prop :=
  ∀ f1 f2, head (elems g1) = Some f1 → head (elems g2) = Some f2 →
  el_Timestamp f1 ≠ el_Timestamp f2 ∨
  (sequenced g2 ≠ [] ∧ (queued g1 ≠ [] ∨ el_BlockNumber f1 ≠ el_BlockNumber f2)).

(** The loop's variables after the elements [batch]. *)
Record gen_inv (batch : list BatchElement) (s : gen_state) : Prop := {
  gi_elems : concat (map elems (groupedBlocks s)) = batch;
  gi_good : Forall (λ g, ∃ f, good_group f g) (groupedBlocks s);
  gi_txs : txs s = omap el_Tx batch;
  gi_last : ∀ el, last batch = Some el →
    lastBlockIsSequencerTx s = IsSequencerTx el ∧ lastTimestamp s = el_Timestamp el ∧
    lastBlockNumber s = el_BlockNumber el;
  gi_chained : chained group_separate (groupedBlocks s);
}.

Lemma update_last_snoc f l g : update_last f (l ++ [g]) = l ++ [f g].
Proof.
  unfold update_last. rewrite reverse_snoc.
  by rewrite reverse_cons, reverse_involutive.
Qed.

Lemma chained_snoc {A} (R : A → A → Prop) l x :
  chained R l → (∀ y, last l = Some y → R y x) → chained R (l ++ [x]).
Proof.
  intros H Hl i a b Ha Hb.
  apply lookup_app_Some in Hb as [Hb | [Hb1 Hb2]].
  - apply (H i); [| done]. rewrite lookup_app_l in Ha; [done |].
    apply lookup_lt_Some in Hb. lia.
  - apply list_lookup_singleton_Some in Hb2 as [Hi <-].
    rewrite lookup_app_l in Ha by lia. apply Hl.
    rewrite last_lookup. by replace (Init.Nat.pred (length l)) with i by lia.
Qed.

Lemma chained_app_l {A} (R : A → A → Prop) l k : chained R (l ++ k) → chained R l.
Proof.
  intros H i x y Hx Hy. apply (H i); by apply lookup_app_l_Some.
Qed.

Lemma chained_last {A} (R : A → A → Prop) l x y :
  chained R (l ++ [y]) → last l = Some x → R x y.
Proof.
  intros H Hl. rewrite last_lookup in Hl.
  assert (0 < length l)%nat by (apply lookup_lt_Some in Hl; lia).
  apply (H (Init.Nat.pred (length l))).
  - by apply lookup_app_l_Some.
  - replace (S (Init.Nat.pred (length l))) with (length l) by lia.
    by rewrite lookup_app_r, Nat.sub_diag by lia.
Qed.

Lemma group_add_new el :
  good_group el (group_add el {| sequenced := []; queued := [] |}) ∧
  elems (group_add el {| sequenced := []; queued := [] |}) = [el].
Proof.
  unfold group_add, elems. destruct (IsSequencerTx el) eqn:E; (split; [| done]).
  all: split; cbn; [done | intros x Hx..]; try by apply elem_of_nil in Hx.
  all: apply list_elem_of_singleton in Hx; by subst.
Qed.

Lemma last_seq_queued f g el :
  good_group f g → last (elems g) = Some el → IsSequencerTx el = true → queued g = [].
Proof.
  intros Hg Hl Hs. destruct (queued g) as [| q l] eqn:E using rev_ind; [done |]. exfalso.
  unfold elems in Hl. rewrite E, app_assoc, last_snoc in Hl. simplify_eq.
  assert (IsSequencerTx el = false); [| congruence].
  apply (gg_queued _ _ Hg). rewrite E. set_solver.
Qed.

Lemma group_add_good f g el lst :
  good_group f g → last (elems g) = Some lst → el_Timestamp el = el_Timestamp lst →
  (IsSequencerTx el = true → IsSequencerTx lst = true ∧ el_BlockNumber el = el_BlockNumber lst) →
  good_group f (group_add el g) ∧ elems (group_add el g) = elems g ++ [el].
Proof.
  intros Hg Hl Ht Hs.
  assert (Hin : lst ∈ elems g) by (by apply last_Some_elem_of).
  assert (Hf : el_Timestamp el = el_Timestamp f) by (rewrite Ht; by apply (gg_time _ _ Hg)).
  assert (He : elems (group_add el g) = elems g ++ [el]).
  { unfold group_add, elems. destruct (IsSequencerTx el) eqn:E; cbn; [| by rewrite app_assoc].
    destruct (Hs eq_refl) as [Hs1 _].
    by rewrite (last_seq_queued _ _ _ Hg Hl Hs1), !app_nil_r. }
  split; [| done]. split.
  - rewrite He, head_app. by rewrite (gg_head _ _ Hg).
  - unfold group_add. destruct (IsSequencerTx el) eqn:E; cbn; [| apply Hg].
    intros x [Hx | ->%list_elem_of_singleton]%elem_of_app; [by apply Hg |]. split; [done |].
    destruct (Hs eq_refl) as [Hs1 ->].
    unfold elems in Hin. rewrite (last_seq_queued _ _ _ Hg Hl Hs1), app_nil_r in Hin.
    by apply (gg_seq _ _ Hg).
  - unfold group_add. destruct (IsSequencerTx el) eqn:E; cbn; [apply Hg |].
    intros x [Hx | ->%list_elem_of_singleton]%elem_of_app; [by apply Hg | done].
  - rewrite He. intros x [Hx | ->%list_elem_of_singleton]%elem_of_app; [by apply Hg | done].
Qed.

Lemma group_add_separate g0 g el :
  elems g ≠ [] → elems (group_add el g) = elems g ++ [el] →
  group_separate g0 g → group_separate g0 (group_add el g).
Proof.
  intros Hne He H f1 f2 H1 H2. rewrite He, head_app in H2.
  destruct (elems g) as [| a l] eqn:E; [done |]. cbn in H2. simplify_eq.
  destruct (H f1 f2 H1) as [? | [? ?]]; [by rewrite E | by left | right].
  split; [| done]. unfold group_add. destruct (IsSequencerTx el); cbn; [| done].
  by destruct (sequenced g).
Qed.

Lemma gen_inv_groups batch s l g :
  gen_inv batch s → groupedBlocks s = l ++ [g] →
  ∃ f lst, good_group f g ∧ last (elems g) = Some lst ∧ last batch = Some lst.
Proof.
  intros H E. pose proof (gi_good _ _ H) as Hg. pose proof (gi_elems _ _ H) as He.
  rewrite E in Hg, He. apply Forall_app in Hg as [_ [[f Hf] _]%Forall_cons].
  destruct (elems g) as [| lst es] eqn:Eg using rev_ind.
  { pose proof (gg_head _ _ Hf) as Hh. by rewrite Eg in Hh. }
  exists f, lst. split; [done |]. split; [by rewrite last_snoc |].
  rewrite <- He, map_app, concat_app. cbn. rewrite Eg, app_nil_r, app_assoc. by rewrite last_snoc.
Qed.

(** The group that [gen_step] opens is separate from the one before. *)
Lemma new_group_separate batch s l g el :
  gen_inv batch s → groupedBlocks s = l ++ [g] →
  (negb (el_Timestamp el =? lastTimestamp s) ||
   (IsSequencerTx el && (negb (lastBlockIsSequencerTx s) || negb (el_BlockNumber el =? lastBlockNumber s))))
    = true →
  group_separate g (group_add el {| sequenced := []; queued := [] |}).
Proof.
  intros H E Hc f1 f2 H1 H2.
  destruct (gen_inv_groups _ _ _ _ H E) as (f & lst & Hg & Hlg & Hlb).
  destruct (gi_last _ _ H _ Hlb) as (L1 & L2 & L3). rewrite L1, L2, L3 in Hc.
  assert (Hin : lst ∈ elems g) by (by apply last_Some_elem_of).
  rewrite (proj2 (group_add_new el)) in H2. cbn in H2. simplify_eq.
  rewrite (gg_head _ _ Hg) in H1. simplify_eq.
  apply orb_true_iff in Hc as [Hc | Hc].
  - left. rewrite <- (gg_time _ _ Hg _ Hin). apply negb_true_iff, Z.eqb_neq in Hc. congruence.
  - apply andb_true_iff in Hc as [Hs Hc]. right. unfold group_add. rewrite Hs. cbn. split; [done |].
    destruct (decide (queued g = [])) as [Hq | ?]; [right | by left].
    unfold elems in Hin. rewrite Hq, app_nil_r in Hin.
    destruct (gg_seq _ _ Hg _ Hin) as [Hls <-]. rewrite Hls in Hc.
    apply negb_true_iff, Z.eqb_neq in Hc. congruence.
Qed.

Lemma gen_step_groups batch s el :
  gen_inv batch s →
  let groups := groupedBlocks (gen_step s el) in
  concat (map elems groups) = batch ++ [el] ∧
  Forall (λ g, ∃ f, good_group f g) groups ∧ chained group_separate groups.
Proof.
  intros H. cbv zeta. unfold gen_step. cbn [groupedBlocks].
  destruct (group_add_new el) as [Hn1 Hn2].
  destruct (groupedBlocks s) as [| g l _] eqn:E using rev_ind.
  { pose proof (gi_elems _ _ H) as He. rewrite E in He. cbn in He. subst batch.
    change (update_last _ _) with [group_add el {| sequenced := []; queued := [] |}].
    cbn [map concat]. rewrite Hn2. split_and!; [done | apply Forall_singleton; eauto |].
    intros i x y Hx Hy. by destruct i. }
  rewrite bool_decide_false by (by destruct l). cbn [orb].
  pose proof (gi_elems _ _ H) as He. pose proof (gi_good _ _ H) as Hg.
  pose proof (gi_chained _ _ H) as Hc. rewrite E in He, Hg, Hc.
  destruct (_ || _) eqn:Hcond; rewrite update_last_snoc, map_app, concat_app; cbn [map concat].
  - rewrite Hn2, He. split; [done |]. split; [apply Forall_app; split; [done |]; apply Forall_singleton; eauto |].
    apply chained_snoc; [done |]. intros y. rewrite last_snoc. intros [= <-].
    eauto using new_group_separate.
  - apply orb_false_iff in Hcond as [Ht Hs]. apply negb_false_iff, Z.eqb_eq in Ht.
    destruct (gen_inv_groups _ _ _ _ H E) as (f & lst & Hf & Hlg & Hlb).
    destruct (gi_last _ _ H _ Hlb) as (L1 & L2 & L3). rewrite L1, L3 in Hs. rewrite L2 in Ht.
    destruct (group_add_good f g el lst Hf Hlg Ht) as [Ha1 Ha2].
    { intros Hseq. rewrite Hseq in Hs. cbn in Hs. apply orb_false_iff in Hs as [Hs1 Hs2].
      by apply negb_false_iff in Hs1, Hs2; apply Z.eqb_eq in Hs2. }
    apply Forall_app in Hg as [Hg _]. rewrite map_app, concat_app in He. cbn in He.
    rewrite Ha2, <- He, !app_nil_r, app_assoc.
    split; [done |]. split; [apply Forall_app; split; [done |]; apply Forall_singleton; eauto |].
    apply chained_snoc; [by eapply chained_app_l |]. intros y Hy.
    apply group_add_separate; [by intros Hnil; rewrite Hnil in Hlg | done | by eapply chained_last].
Qed.

Lemma gen_step_inv batch s el : gen_inv batch s → gen_inv (batch ++ [el]) (gen_step s el).
Proof.
  intros H. destruct (gen_step_groups _ _ el H) as (H1 & H2 & H3). split; try done.
  - unfold gen_step. cbn. rewrite (gi_txs _ _ H), omap_app. cbn.
    destruct (el_Tx el); [done | by rewrite app_nil_r].
  - intros x. rewrite last_snoc. by intros [= <-].
Qed.

Lemma gen_inv_foldl batch : gen_inv batch (foldl gen_step gen_init batch).
Proof.
  induction batch as [| el batch IH] using rev_ind.
  - by split.
  - rewrite foldl_snoc. by apply gen_step_inv.
Qed.

Definition ctx_of (g : groupedBlock) (f : BatchElement) : BatchContext :=
  {| NumSequencedTxs := len (sequenced g); NumSubsequentQueueTxs := len (queued g);
     Timestamp := el_Timestamp f; BlockNumber := el_BlockNumber f |}.

Lemma group_context_good f g :
  good_group f g → len (elems g) < 2 ^ 64 → group_context g = Ok (ctx_of g f).
Proof.
  intros Hg Hl. pose proof (gg_head _ _ Hg) as Hh. unfold elems in *. rewrite len_app in Hl.
  pose proof (len_nonneg (sequenced g)). pose proof (len_nonneg (queued g)).
  unfold group_context, ctx_of. rewrite !wrap_small by lia.
  destruct (sequenced g), (queued g); by simplify_eq/=.
Qed.

Lemma expand_describes f g :
  good_group f g → Forall2 describes (expand (ctx_of g f)) (elems g).
Proof.
  intros Hg. unfold expand, elems, ctx_of. cbn. unfold len. rewrite !Nat2Z.id.
  assert (Ht := gg_time _ _ Hg). unfold elems in Ht.
  apply Forall2_app; apply Forall2_replicate_l; try done.
  - apply Forall_forall. intros el Hel. destruct (gg_seq _ _ Hg el Hel) as [Hs Hb].
    unfold describes. rewrite Hs, Hb.
    repeat split; cbn. rewrite (Ht el); [done | set_solver].
  - apply Forall_forall. intros el Hel. unfold describes. rewrite (gg_queued _ _ Hg el Hel).
    repeat split; cbn; [| done]. rewrite (Ht el); [done | set_solver].
Qed.

(** Every group of the loop has its context. *)
Lemma group_contexts_good l :
  Forall (λ g, ∃ f, good_group f g) l → len (concat (map elems l)) < 2 ^ 64 →
  ∃ cs, group_contexts l = Ok cs ∧
        Forall2 (λ c g, ∃ f, good_group f g ∧ c = ctx_of g f) cs l.
Proof.
  induction 1 as [| g l [f Hf] Hl IH]; intros Hlen; [by exists [] |].
  cbn in Hlen. rewrite len_app in Hlen.
  pose proof (len_nonneg (elems g)). pose proof (len_nonneg (concat (map elems l))).
  destruct IH as (cs & E & Hcs); [lia |].
  exists (ctx_of g f :: cs). cbn. rewrite (group_context_good f) by (done || lia). cbn. rewrite E.
  split; [done |]. apply Forall2_cons. eauto.
Qed.

Lemma contexts_expand cs l :
  Forall2 (λ c g, ∃ f, good_group f g ∧ c = ctx_of g f) cs l →
  Forall2 describes (concat (map expand cs)) (concat (map elems l)).
Proof.
  induction 1 as [| c g cs l (f & Hf & ->) Hl IH]; [done |].
  cbn [map concat]. apply Forall2_app; [by apply expand_describes | done].
Qed.

Lemma contexts_separate cs l :
  Forall2 (λ c g, ∃ f, good_group f g ∧ c = ctx_of g f) cs l →
  chained group_separate l → chained separate cs.
Proof.
  intros H Hl i c1 c2 H1 H2.
  destruct (Forall2_lookup_l _ _ _ _ _ H H1) as (g1 & Hg1 & f1 & Hf1 & ->).
  destruct (Forall2_lookup_l _ _ _ _ _ H H2) as (g2 & Hg2 & f2 & Hf2 & ->).
  destruct (Hl i g1 g2 Hg1 Hg2 f1 f2 (gg_head _ _ Hf1) (gg_head _ _ Hf2)) as [? | [Hs Hq]]; [by left |].
  right. cbn. split; [by apply len_pos |]. destruct Hq; [left; by apply len_pos | by right].
Qed.

Lemma ctx_from_batch f g l :
  good_group f g → g ∈ l → from_batch (concat (map elems l)) (ctx_of g f).
Proof.
  intros Hf Hg. unfold from_batch. cbn.
  pose proof (len_nonneg (sequenced g)). pose proof (len_nonneg (queued g)).
  assert (Hin : f ∈ elems g) by (apply head_Some_elem_of, Hf). split_and!; try lia.
  - rewrite <- len_app. apply len_pos. intros Hnil. unfold elems in Hin. rewrite Hnil in Hin. set_solver.
  - exists f. split; [| done]. apply list_elem_of_In, in_concat. exists (elems g).
    split; [apply in_map |]; by apply list_elem_of_In.
Qed.

Lemma contexts_le_elements batch cs :
  Forall (from_batch batch) cs → (length cs <= length (concat (map expand cs)))%nat.
Proof.
  induction 1 as [| c cs (H1 & H2 & H3 & _) Hcs IH]; [done |].
  cbn. rewrite length_app. unfold expand at 1. rewrite length_app, !length_replicate. lia.
Qed.

Lemma GenSequencerBatchParams_spec start offset batch :
  len batch < 2 ^ 64 →
  ∃ p, GenSequencerBatchParams start offset batch = Ok p ∧
    TotalElementsToAppend p = len batch ∧
    ShouldStartAtElement p = u64 (start - offset) ∧
    Txs p = omap el_Tx batch ∧
    Forall2 describes (concat (map expand (Contexts p))) batch ∧
    chained separate (Contexts p) ∧
    Forall (from_batch batch) (Contexts p).
Proof.
  intros Hlen. pose proof (gen_inv_foldl batch) as H.
  destruct (group_contexts_good (groupedBlocks (foldl gen_step gen_init batch))) as (cs & E & Hcs).
  { apply H. }
  { by rewrite (gi_elems _ _ H). }
  eexists. unfold GenSequencerBatchParams. rewrite E. split; [done |]. cbn.
  pose proof (len_nonneg batch). rewrite wrap_small by lia.
  split_and!; try done.
  - apply H.
  - pose proof (contexts_expand _ _ Hcs) as Hx. by rewrite (gi_elems _ _ H) in Hx.
  - by eapply contexts_separate, H.
  - apply Forall_forall. intros c Hc. apply list_elem_of_lookup in Hc as [i Hc].
    destruct (Forall2_lookup_l _ _ _ _ _ Hcs Hc) as (g & Hg & f & Hf & ->).
    rewrite <- (gi_elems _ _ H). eapply ctx_from_batch; [done |]. by eapply list_elem_of_lookup_2.
Qed.

(** C35: GenSequencerBatchParams never fails: its contexts, expanded, describe the batch elements in
    order, consecutive contexts differ, every context comes from elements of the batch, and the
    transactions are the sequencer transactions. *)
Theorem GenSequencerBatchParams_correct start offset batch :
  len batch < 2 ^ 64 →
  ∃ p, GenSequencerBatchParams start offset batch = Ok p ∧
    TotalElementsToAppend p = len batch ∧
    ShouldStartAtElement p = u64 (start - offset) ∧
    Txs p = omap el_Tx batch ∧
    Forall2 describes (concat (map expand (Contexts p))) batch ∧
    chained separate (Contexts p) ∧
    Forall (from_batch batch) (Contexts p).
Proof. apply GenSequencerBatchParams_spec. Qed.

Lemma GenSequencerBatchParams_correct_witness :
  let batch := [{| el_Timestamp := 5; el_BlockNumber := 1; el_Tx := None |};
                {| el_Timestamp := 5; el_BlockNumber := 2; el_Tx := Some example_cached |}] in
  ∃ p, GenSequencerBatchParams 11 1 batch = Ok p ∧
    TotalElementsToAppend p = 2 ∧ ShouldStartAtElement p = 10 ∧ Txs p = [example_cached] ∧
    Forall2 describes (concat (map expand (Contexts p))) batch ∧
    chained separate (Contexts p) ∧ Forall (from_batch batch) (Contexts p).
Proof.
  exact (GenSequencerBatchParams_correct 11 1
    [{| el_Timestamp := 5; el_BlockNumber := 1; el_Tx := None |};
     {| el_Timestamp := 5; el_BlockNumber := 2; el_Tx := Some example_cached |}] ltac:(reflexivity)).
Defined.
