(* ===== verification/TxMgr.v ===== *)
(** The transaction manager of the batch submitters,
    src/bss-core/txmgr/send_state.go and src/bss-core/txmgr/txmgr.go.

    [Send] spawns one goroutine per publication of a transaction and waits in
    an event loop for a receipt.  The model is a labelled transition system:
    the goroutines, the event loop, the shared [SendState] (each method of it
    is one atomic step, since it runs under the mutex), the receipt channel of
    capacity one and the cancellable context.  A label says which thread moves
    and what the code outside answered (the gas price callback, the send
    callback, the backend).  Traces of labels are what the theorems speak
    about, so a theorem holds for every interleaving and every answer. *)

From S2P Require Import Prelude.

(** [core.ErrNonceTooLow] of go-ethereum, matched by its text. *)
Definition nonceTooLowText : string := "nonce too low".

Definition ErrReverted : error := ErrVar "txmgr.ErrReverted" "transaction reverted".

Definition ReceiptStatusFailed : Z := 0.

(** What the manager reads of a receipt. *)
Record Receipt := { Status : Z; rc_BlockNumber : Z; GasUsed : Z }.

#[export] Instance Receipt_eq_dec : EqDecision Receipt.
Proof. solve_decision. Defined.

(** gasTipCap + 2*baseFee *)
Definition CalcGasFeeCap (baseFee gasTipCap : Z) : Z := gasTipCap + baseFee * 2.

(** ** SendState *)

Module SendState.
Section SendState.
  Context {Hash : Type} `{Countable Hash}.

Record t := {
  minedTxs : gset Hash;
  nonceTooLowCount : Z;
  safeAbortNonceTooLowCount : Z;
}.

Definition NewSendState (safeAbort : Z) : outcome t :=
  if safeAbort =? 0 then Panic "txmgr: safeAbortNonceTooLowCount cannot be zero"
  else Ok {| minedTxs := ∅; nonceTooLowCount := 0; safeAbortNonceTooLowCount := safeAbort |}.

Definition ProcessSendError (err : option error) (s : t) : t :=
  match err with
  | None => s
  | Some e =>
      if negb (str_contains nonceTooLowText (error_Error e)) then s
      else {| minedTxs := minedTxs s; nonceTooLowCount := u64 (nonceTooLowCount s + 1);
              safeAbortNonceTooLowCount := safeAbortNonceTooLowCount s |}
  end.

Definition TxMined (txHash : Hash) (s : t) : t :=
  {| minedTxs := {[ txHash ]} ∪ minedTxs s; nonceTooLowCount := nonceTooLowCount s;
     safeAbortNonceTooLowCount := safeAbortNonceTooLowCount s |}.

Definition TxNotMined (txHash : Hash) (s : t) : t :=
  let wasMined := bool_decide (txHash ∈ minedTxs s) in
  let minedTxs' := minedTxs s ∖ {[ txHash ]} in
  {| minedTxs := minedTxs';
     nonceTooLowCount :=
       if bool_decide (minedTxs' = ∅) && wasMined then 0 else nonceTooLowCount s;
     safeAbortNonceTooLowCount := safeAbortNonceTooLowCount s |}.

Definition ShouldAbortImmediately (s : t) : bool :=
  if bool_decide (minedTxs s ≠ ∅) then false
  else safeAbortNonceTooLowCount s <=? nonceTooLowCount s.

Definition IsWaitingForConfirmation (s : t) : bool := bool_decide (minedTxs s ≠ ∅).

(** *** The abstract history of observations *)

Inductive event := EMined (h : Hash) | ENotMined (h : Hash) | ESent (err : option error).

Definition apply_event (e : event) : t → t :=
  match e with
  | EMined h => TxMined h
  | ENotMined h => TxNotMined h
  | ESent err => ProcessSendError err
  end.

(** A history lists the events from the latest to the earliest. *)
Definition state_after (k : Z) (hist : list event) : t :=
  foldr apply_event {| minedTxs := ∅; nonceTooLowCount := 0; safeAbortNonceTooLowCount := k |} hist.

(** The latest report about [h] says that it is mined. *)
Fixpoint mined_in (hist : list event) (h : Hash) : Prop :=
  match hist with
  | [] => False
  | EMined h' :: hist => h = h' ∨ mined_in hist h
  | ENotMined h' :: hist => h ≠ h' ∧ mined_in hist h
  | ESent _ :: hist => mined_in hist h
  end.

(** [h] was the only mined transaction. *)
Definition only_mined (hist : list event) (h : Hash) : Prop := ∀ h', mined_in hist h' ↔ h' = h.

Definition nonce_too_low (err : option error) : bool :=
  match err with Some e => str_contains nonceTooLowText (error_Error e) | None => false end.

(** [n] nonce-too-low answers have been seen since the last report that took
    the last mined transaction away, or since the start. *)
Inductive too_low_since : list event → Z → Prop :=
  | since_start : too_low_since [] 0
  | since_reorg h hist : only_mined hist h → too_low_since (ENotMined h :: hist) 0
  | since_not_mined h hist n :
      ¬ only_mined hist h → too_low_since hist n → too_low_since (ENotMined h :: hist) n
  | since_mined h hist n : too_low_since hist n → too_low_since (EMined h :: hist) n
  | since_other err hist n :
      nonce_too_low err = false → too_low_since hist n → too_low_since (ESent err :: hist) n
  | since_too_low err hist n :
      nonce_too_low err = true → too_low_since hist n → too_low_since (ESent err :: hist) (n + 1).

Lemma state_after_cons k e hist : state_after k (e :: hist) = apply_event e (state_after k hist).
Proof. done. Qed.

Lemma mined_in_spec k hist h : h ∈ minedTxs (state_after k hist) ↔ mined_in hist h.
Proof.
  induction hist as [| [h' | h' | err] hist IH]; cbn; [set_solver | set_solver | set_solver |].
  destruct err as [e |]; cbn; [| done]. by destruct (str_contains _ _).
Qed.

Lemma only_mined_spec k hist h :
  bool_decide (minedTxs (state_after k hist) ∖ {[h]} = ∅) && bool_decide (h ∈ minedTxs (state_after k hist))
    = true ↔ only_mined hist h.
Proof.
  rewrite andb_true_iff, !bool_decide_eq_true. unfold only_mined.
  setoid_rewrite <- (mined_in_spec k). generalize (minedTxs (state_after k hist)). intros X. split.
  - intros [He Hin] h'. split; [| by intros ->]. intros Hh'. destruct (decide (h' = h)); [done |].
    assert (h' ∈ X ∖ {[h]}); set_solver.
  - intros Hx. split; [| by apply Hx]. apply elem_of_equiv_empty_L. intros h'.
    rewrite elem_of_difference, elem_of_singleton, Hx. tauto.
Qed.

Lemma state_after_safeAbort k hist : safeAbortNonceTooLowCount (state_after k hist) = k.
Proof.
  induction hist as [| [h | h | err] hist IH]; cbn; try done.
  destruct err as [e |]; cbn; [| done]. by destruct (str_contains _ _).
Qed.

Lemma too_low_since_spec k hist n :
  too_low_since hist n → len hist < 2 ^ 64 →
  nonceTooLowCount (state_after k hist) = n ∧ 0 <= n <= len hist.
Proof.
  intros Hn. induction Hn as [| h hist Ho | h hist n Ho Hn IH | h hist n Hn IH
    | err hist n He Hn IH | err hist n He Hn IH]; rewrite ?len_cons; intros Hl.
  all: try destruct IH as [IH1 IH2]; [lia .. |]; try pose proof (len_nonneg hist).
  all: rewrite ?state_after_cons; cbn [apply_event TxMined TxNotMined nonceTooLowCount].
  - done.
  - apply (only_mined_spec k) in Ho. rewrite Ho. lia.
  - destruct (_ && _) eqn:E; [by apply (only_mined_spec k) in E |]. lia.
  - lia.
  - destruct err as [e |]; cbn in He |- *; [rewrite He; cbn |]; lia.
  - destruct err as [e |]; cbn in He |- *; [| done]. rewrite He. cbn.
    rewrite IH1. rewrite wrap_small by lia. lia.
Qed.

Lemma too_low_since_total hist : ∃ n, too_low_since hist n.
Proof.
  induction hist as [| [h | h | err] hist [n IH]]; [eauto using too_low_since .. |].
  - destruct (bool_decide (minedTxs (state_after 0 hist) ∖ {[h]} = ∅) &&
              bool_decide (h ∈ minedTxs (state_after 0 hist))) eqn:E.
    + exists 0. apply since_reorg. by apply (only_mined_spec 0).
    + exists n. apply since_not_mined; [| done]. intros Ho. apply (only_mined_spec 0) in Ho. congruence.
  - destruct (nonce_too_low err) eqn:E; eauto using too_low_since.
Qed.

Theorem SendState_refines k hist :
  len hist < 2 ^ 64 →
  ∃ n, too_low_since hist n ∧
  (ShouldAbortImmediately (state_after k hist) = true ↔ (∀ h, ¬ mined_in hist h) ∧ k <= n) ∧
  (IsWaitingForConfirmation (state_after k hist) = true ↔ ∃ h, mined_in hist h).
Proof.
  intros Hl. destruct (too_low_since_total hist) as [n Hn].
  destruct (too_low_since_spec k _ _ Hn Hl) as [Hc _]. exists n. split; [done |].
  unfold ShouldAbortImmediately, IsWaitingForConfirmation.
  setoid_rewrite <- (mined_in_spec k). split.
  - rewrite state_after_safeAbort, Hc. case_bool_decide as E.
    + split; [done |]. intros [Hm _]. exfalso. apply E. set_solver.
    + destruct (decide (minedTxs (state_after k hist) = ∅)) as [-> | Hne]; [| by destruct E].
      rewrite Z.leb_le. split; [intros Hk; split; [set_solver | done] | by intros [_ Hk]].
  - rewrite bool_decide_eq_true. split; [by apply set_choose_L |].
    intros [h Hh]. set_solver.
Qed.

End SendState.


Lemma SendState_refines_witness :
  let hist := [ENotMined 1; EMined 1; ESent (Some (ErrNew "nonce too low"))] in
  ∃ n, too_low_since hist n ∧
  (ShouldAbortImmediately (state_after 1 hist) = true ↔ (∀ h, ¬ mined_in hist h) ∧ 1 <= n) ∧
  (IsWaitingForConfirmation (state_after 1 hist) = true ↔ ∃ h, mined_in hist h).
Proof.
  exact (SendState_refines 1 [ENotMined 1; EMined 1; ESent (Some (ErrNew "nonce too low"))] ltac:(reflexivity)).
Defined.
Arguments t Hash {_ _}.
End SendState.

(** ** Waiting for a receipt

    [waitMined] asks the backend until the transaction has its confirmations
    or the context ends.  [WaitMined] runs it without a [SendState]. *)

Inductive wait_pc :=
  | WReceipt                                   (* backend.TransactionReceipt *)
  | WMined (r : Receipt)                       (* sendState.TxMined *)
  | WTip (r : Receipt)                         (* backend.BlockNumber *)
  | WNotMined                                  (* sendState.TxNotMined *)
  | WSelect                                    (* select on the context and the ticker *)
  | WReturned (r : option Receipt) (err : option error).

Inductive wait_label :=
  | WLReceipt (r : option Receipt) (err : option error)
  | WLMined
  | WLTip (tip : outcome Z)
  | WLNotMined
  | WLDone
  | WLTick.

(** txHeight+numConfirmations <= tipHeight+1, on uint64 *)
Definition confirmed (numConfirmations : Z) (r : Receipt) (tipHeight : Z) : bool :=
  u64 (u64 (rc_BlockNumber r) + numConfirmations) <=? u64 (tipHeight + 1).

Section Send.
  Context {Tx Hash : Type} `{Countable Hash} (tx_Hash : Tx → Hash).

Abbreviation SendState := (SendState.t Hash).

Definition on_state (f : SendState → SendState) (s : option SendState) : option SendState := f <$> s.

(** One step of [waitMined]; [ctx_err] is [ctx.Err()] of its context. *)
Definition wait_step (numConfirmations : Z) (txHash : Hash) (ctx_err : option error)
    (l : wait_label) (p : wait_pc) (s : option SendState) : option (wait_pc * option SendState) :=
  match p, l with
  | WReceipt, WLReceipt (Some r) _ => Some (WMined r, s)
  | WReceipt, WLReceipt None (Some _) => Some (WSelect, s)
  | WReceipt, WLReceipt None None => Some (WNotMined, s)
  | WMined r, WLMined => Some (WTip r, on_state (SendState.TxMined txHash) s)
  | WTip r, WLTip (Ok tipHeight) =>
      if confirmed numConfirmations r tipHeight then Some (WReturned (Some r) None, s)
      else Some (WSelect, s)
  | WTip r, WLTip (Err _) => Some (WSelect, s)
  | WNotMined, WLNotMined => Some (WSelect, on_state (SendState.TxNotMined txHash) s)
  | WSelect, WLDone =>
      match ctx_err with Some e => Some (WReturned None (Some e), s) | None => None end
  | WSelect, WLTick => Some (WReceipt, s)
  | _, _ => None
  end.

(** ** Send *)

(** The goroutine [sendTxAsync]. *)
Inductive go_pc :=
  | GUpdate                                    (* updateGasPrice *)
  | GSend (tx : Tx)                            (* sendTx *)
  | GProcess (tx : Tx) (err : option error)    (* sendState.ProcessSendError *)
  | GAbort                                     (* sendState.ShouldAbortImmediately *)
  | GWait (tx : Tx) (p : wait_pc)              (* waitMined *)
  | GExited.

(** The event loop; [MReturn] and [MWait] run the deferred calls. *)
Inductive main_pc :=
  | MLoop
  | MReturn (r : option Receipt) (err : option error)   (* cancel() *)
  | MWait (r : option Receipt) (err : option error)     (* wg.Wait() *)
  | MDone (r : option Receipt) (err : option error).

Record sys := {
  sendState : SendState;
  ctxc_err : option error;
  receiptChan : option Receipt;
  gos : list go_pc;
  main : main_pc;
}.

Inductive label :=
  | LParent (e : error)                  (* the passed context ends *)
  | LTick                                (* the resubmission timeout elapses *)
  | LDone                                (* <-ctxc.Done() *)
  | LRecv                                (* <-receiptChan *)
  | LCancel
  | LJoin
  | LUpdate (i : nat) (res : Tx + error)
  | LSend (i : nat) (err : option error)
  | LProcess (i : nat)
  | LAbort (i : nat)
  | LWait (i : nat) (l : wait_label)
  | LReport (i : nat).

Definition set_gos (g : list go_pc) (s : sys) : sys :=
  {| sendState := sendState s; ctxc_err := ctxc_err s; receiptChan := receiptChan s;
     gos := g; main := main s |}.

Definition set_go (i : nat) (p : go_pc) (s : sys) : sys := set_gos (<[i := p]> (gos s)) s.

Definition set_sendState (ss : SendState) (s : sys) : sys :=
  {| sendState := ss; ctxc_err := ctxc_err s; receiptChan := receiptChan s;
     gos := gos s; main := main s |}.

Definition set_chan (c : option Receipt) (s : sys) : sys :=
  {| sendState := sendState s; ctxc_err := ctxc_err s; receiptChan := c;
     gos := gos s; main := main s |}.

Definition set_main (m : main_pc) (s : sys) : sys :=
  {| sendState := sendState s; ctxc_err := ctxc_err s; receiptChan := receiptChan s;
     gos := gos s; main := m |}.

(** The first error of a context stays. *)
Definition end_context (e : error) (s : sys) : sys :=
  {| sendState := sendState s;
     ctxc_err := match ctxc_err s with None => Some e | some => some end;
     receiptChan := receiptChan s; gos := gos s; main := main s |}.

Definition cancel : sys → sys := end_context context_Canceled.

Definition is_canceled (e : error) : bool :=
  bool_decide (e = context_Canceled) || str_contains "context canceled" (error_Error e).

(** Errors of [updateGasPrice] that only end the goroutine. *)
Definition update_ignored (e : error) : bool :=
  is_canceled e || bool_decide (error_Error e = "execution reverted: EmptyAssertion").

(** One step of the goroutine [i], which is at [p]. *)
Definition go_step (numConfirmations : Z) (i : nat) (p : go_pc) (l : label) (s : sys) : option sys :=
  match p, l with
  | GUpdate, LUpdate _ (inl tx) => Some (set_go i (GSend tx) s)
  | GUpdate, LUpdate _ (inr e) =>
      if update_ignored e then Some (set_go i GExited s)
      else Some (set_go i GExited (cancel s))
  | GSend tx, LSend _ err => Some (set_go i (GProcess tx err) s)
  | GProcess tx err, LProcess _ =>
      let s := set_sendState (SendState.ProcessSendError err (sendState s)) s in
      match err with
      | None => Some (set_go i (GWait tx WReceipt) s)
      | Some e => if is_canceled e then Some (set_go i GExited s) else Some (set_go i GAbort s)
      end
  | GAbort, LAbort _ =>
      let s' := if SendState.ShouldAbortImmediately (sendState s) then cancel s else s in
      Some (set_go i GExited s')
  | GWait tx (WReturned None _), LReport _ => Some (set_go i GExited s)
  | GWait tx (WReturned (Some r) _), LReport _ =>
      let s' := match receiptChan s with None => set_chan (Some r) s | Some _ => s end in
      Some (set_go i GExited s')
  | GWait tx p, LWait _ wl =>
      match wait_step numConfirmations (tx_Hash tx) (ctxc_err s) wl p (Some (sendState s)) with
      | Some (p', Some ss) => Some (set_go i (GWait tx p') (set_sendState ss s))
      | _ => None
      end
  | _, _ => None
  end.

Definition all_exited (l : list go_pc) : bool :=
  forallb (λ p, match p with GExited => true | _ => false end) l.

(** One step of the event loop or of its deferred calls. *)
Definition main_step (l : label) (s : sys) : option sys :=
  match main s, l with
  | MLoop, LTick =>
      if SendState.IsWaitingForConfirmation (sendState s) then Some s
      else Some (set_gos (gos s ++ [GUpdate]) s)
  | MLoop, LDone =>
      match ctxc_err s with Some e => Some (set_main (MReturn None (Some e)) s) | None => None end
  | MLoop, LRecv =>
      match receiptChan s with
      | Some r =>
          let err := if Status r =? ReceiptStatusFailed then Some ErrReverted else None in
          Some (set_main (MReturn (Some r) err) (set_chan None s))
      | None => None
      end
  | MReturn r err, LCancel => Some (set_main (MWait r err) (cancel s))
  | MWait r err, LJoin => if all_exited (gos s) then Some (set_main (MDone r err) s) else None
  | _, _ => None
  end.

Definition step (numConfirmations : Z) (l : label) (s : sys) : option sys :=
  match l with
  | LParent e => Some (end_context e s)
  | LUpdate i _ | LSend i _ | LProcess i | LAbort i | LWait i _ | LReport i =>
      p ← gos s !! i; go_step numConfirmations i p l s
  | _ => main_step l s
  end.

(** The state in which the event loop is entered: the first goroutine is
    spawned.  A zero abort count panics. *)
Definition send_init (safeAbort : Z) : outcome sys :=
  ss ← SendState.NewSendState safeAbort;
  mret {| sendState := ss; ctxc_err := None; receiptChan := None; gos := [GUpdate]; main := MLoop |}.

Fixpoint run (numConfirmations : Z) (tr : list label) (s : sys) : option sys :=
  match tr with
  | [] => Some s
  | l :: tr => s' ← step numConfirmations l s; run numConfirmations tr s'
  end.

(** ** Specification of traces *)

(** The number of nonce-too-low answers of [sendTx]. *)
Definition too_low_answers (tr : list label) : nat :=
  sum_list_with (λ l, match l with
    | LSend _ err => if SendState.nonce_too_low err then 1 else 0
    | _ => 0
    end)%nat tr.

(** Why the context ended before a receipt arrived. *)
Definition abort_reason (k : Z) (tr : list label) (e : error) : Prop :=
  LParent e ∈ tr ∨
  (e = context_Canceled ∧
   ((∃ i err, LUpdate i (inr err) ∈ tr ∧ update_ignored err = false) ∨
    k <= Z.of_nat (too_low_answers tr))).

(** What [Send] may return, [confirms r] being what is known of a receipt. *)
Definition result_ok (confirms : Receipt → Prop) (k : Z) (tr : list label)
    (r : option Receipt) (err : option error) : Prop :=
  match r with
  | Some r => confirms r ∧ err = if Status r =? ReceiptStatusFailed then Some ErrReverted else None
  | None => ∃ e, err = Some e ∧ abort_reason k tr e
  end.

(** In the trace, goroutine [i] published [tx], the backend answered [r] for
    it, and then a tip that confirms [r]. *)
Definition confirmed_by (n : Z) (tr : list label) (r : Receipt) : Prop :=
  ∃ i tx err tip, LUpdate i (inl tx) ∈ tr ∧ LSend i None ∈ tr ∧
    LWait i (WLReceipt (Some r) err) ∈ tr ∧ LWait i (WLTip (Ok tip)) ∈ tr ∧
    confirmed n r tip = true.

(** ** Invariant

    The proof is generic in what is known of the answers of the environment:
    [Upd], [Snd], [Rcpt] and [Tip] hold of the answers that goroutine [i] got. *)

Section Invariant.
  Context (Upd : nat → Tx → Prop) (Snd : nat → Tx → option error → Prop).
  Context (Rcpt : nat → Tx → Receipt → Prop) (Tip : nat → Z → Prop).
  Context (n k : Z).

Definition allowed (l : label) (s : sys) : Prop :=
  match l with
  | LUpdate i (inl tx) => Upd i tx
  | LSend i err => ∀ tx, gos s !! i = Some (GSend tx) → Snd i tx err
  | LWait i (WLReceipt (Some r) _) => ∀ tx p, gos s !! i = Some (GWait tx p) → Rcpt i tx r
  | LWait i (WLTip (Ok tip)) => Tip i tip
  | _ => True
  end.

Definition confirms (r : Receipt) : Prop :=
  ∃ i tx tip, Upd i tx ∧ Snd i tx None ∧ Rcpt i tx r ∧ Tip i tip ∧ confirmed n r tip = true.

Definition wait_ok (i : nat) (tx : Tx) (p : wait_pc) : Prop :=
  match p with
  | WMined r | WTip r => Rcpt i tx r
  | WReturned (Some r) _ => confirms r
  | _ => True
  end.

Definition go_ok (i : nat) (p : go_pc) : Prop :=
  match p with
  | GSend tx => Upd i tx
  | GProcess tx err => Upd i tx ∧ Snd i tx err
  | GWait tx p => Upd i tx ∧ Snd i tx None ∧ wait_ok i tx p
  | _ => True
  end.

(** Nonce-too-low answers that are not yet recorded in the [SendState]. *)
Definition unrecorded (p : go_pc) : nat :=
  match p with GProcess _ err => if SendState.nonce_too_low err then 1 else 0 | _ => 0 end.

Definition main_ok (tr : list label) (s : sys) : Prop :=
  match main s with
  | MLoop => ∀ e, ctxc_err s = Some e → abort_reason k tr e
  | MReturn r err => result_ok confirms k tr r err
  | MWait r err => result_ok confirms k tr r err ∧ ctxc_err s ≠ None
  | MDone r err => result_ok confirms k tr r err ∧ ctxc_err s ≠ None ∧ all_exited (gos s) = true
  end.

Record sys_inv (tr : list label) (s : sys) : Prop := {
  si_gos : ∀ i p, gos s !! i = Some p → go_ok i p;
  si_chan : ∀ r, receiptChan s = Some r → confirms r;
  si_main : main_ok tr s;
  si_abort : SendState.safeAbortNonceTooLowCount (sendState s) = k;
  si_count : 0 <= SendState.nonceTooLowCount (sendState s) ∧
    SendState.nonceTooLowCount (sendState s) + Z.of_nat (sum_list_with unrecorded (gos s))
      <= Z.of_nat (too_low_answers tr);
}.

(** *** Longer traces *)

Lemma too_low_answers_app tr tr' :
  too_low_answers (tr ++ tr') = (too_low_answers tr + too_low_answers tr')%nat.
Proof. apply sum_list_with_app. Qed.

Lemma abort_reason_app tr l e : abort_reason k tr e → abort_reason k (tr ++ l) e.
Proof.
  intros [? | [-> [(i & err & ? & ?) | ?]]]; [left; set_solver | |]; right; (split; [done |]).
  - left. exists i, err. set_solver.
  - right. rewrite too_low_answers_app. lia.
Qed.

Lemma result_ok_app tr l r err : result_ok confirms k tr r err → result_ok confirms k (tr ++ l) r err.
Proof.
  destruct r as [r |]; cbn.
  - done.
  - intros (e & ? & ?). eauto using abort_reason_app.
Qed.

Lemma sum_unrecorded_insert (l : list go_pc) i p q :
  l !! i = Some q →
  (sum_list_with unrecorded (<[i := p]> l) + unrecorded q
   = sum_list_with unrecorded l + unrecorded p)%nat.
Proof.
  intros Hi. assert (i < length l)%nat by (by apply lookup_lt_Some in Hi).
  rewrite insert_take_drop by done. rewrite <- (take_drop_middle l i q Hi) at 3.
  rewrite !sum_list_with_app. cbn. lia.
Qed.

(** *** Steps of goroutines *)

Lemma main_ok_step tr l s s' :
  main_ok tr s → main s' = main s →
  (∀ e, ctxc_err s' = Some e → ctxc_err s = Some e ∨ abort_reason k (tr ++ [l]) e) →
  (ctxc_err s ≠ None → ctxc_err s' ≠ None) →
  (all_exited (gos s) = true → all_exited (gos s') = true) →
  main_ok (tr ++ [l]) s'.
Proof.
  unfold main_ok. intros Hm -> Hc Hc' Hx. destruct (main s); destruct_and?; split_and?; auto using result_ok_app.
  intros e He. destruct (Hc e He); eauto using abort_reason_app.
Qed.

Lemma all_exited_lookup l i p : all_exited l = true → l !! i = Some p → p = GExited.
Proof.
  intros Hx Hi. apply forallb_forall with (x := p) in Hx; [by destruct p |].
  by apply list_elem_of_In, list_elem_of_lookup_2 with i.
Qed.

(** What a step of goroutine [i] from [q] to [p] must provide. *)
Lemma go_step_inv tr l s s' i q p :
  sys_inv tr s → gos s !! i = Some q → q ≠ GExited →
  gos s' = <[i := p]> (gos s) → main s' = main s →
  go_ok i p →
  (receiptChan s' = receiptChan s ∨
   ∃ r, receiptChan s' = Some r ∧ confirms r) →
  (ctxc_err s' = ctxc_err s ∨
   ∃ e, s' = set_go i p (end_context e s) ∧ abort_reason k (tr ++ [l]) e) →
  SendState.safeAbortNonceTooLowCount (sendState s') = k →
  (0 <= SendState.nonceTooLowCount (sendState s') ∧
   SendState.nonceTooLowCount (sendState s') + Z.of_nat (unrecorded p)
   <= SendState.nonceTooLowCount (sendState s) + Z.of_nat (unrecorded q) + Z.of_nat (too_low_answers [l])) →
  sys_inv (tr ++ [l]) s'.
Proof.
  intros [Hg Hch Hm Ha Hn] Hi Hq Eg Em Hp Hr Hc Hk Hcnt. split.
  - rewrite Eg. intros j p'. destruct (decide (i = j)) as [<- | Hij].
    + rewrite list_lookup_insert_eq by (by apply lookup_lt_Some in Hi). by intros [= <-].
    + rewrite list_lookup_insert_ne by done. intros. by apply Hg.
  - intros r Er. destruct Hr as [E | (r' & E & ?)]; rewrite E in Er; [by apply Hch |].
    by simplify_eq.
  - apply (main_ok_step tr l s); try done.
    + intros e He. destruct Hc as [Hc | (e' & -> & ?)]; [left; congruence |]. cbn in He.
      destruct (ctxc_err s); [by left | right; by simplify_eq].
    + intros Hne. destruct Hc as [Hc | (e' & -> & ?)]; [congruence |]. cbn. by destruct (ctxc_err s).
    + intros Hx. by destruct (Hq (all_exited_lookup _ _ _ Hx Hi)).
  - done.
  - split; [lia |]. rewrite Eg, too_low_answers_app. pose proof (sum_unrecorded_insert _ _ p q Hi). lia.
Qed.

Lemma end_context_inv tr e s :
  sys_inv tr s → sys_inv (tr ++ [LParent e]) (end_context e s).
Proof.
  intros [Hg Hch Hm Ha Hn]. split; cbn.
  - intros. by apply Hg.
  - intros. by apply Hch.
  - apply (main_ok_step tr _ s); try done.
    + intros e' He. cbn in He. destruct (ctxc_err s); [by left |]. right. left. set_solver.
    + cbn. by destruct (ctxc_err s).
  - done.
  - rewrite too_low_answers_app. cbn. lia.
Qed.

Lemma wait_step_ok h i tx w w' wl s ctx ss ss' :
  gos s !! i = Some (GWait tx w) → allowed (LWait i wl) s →
  Upd i tx → Snd i tx None → wait_ok i tx w →
  wait_step n h ctx wl w (Some ss) = Some (w', Some ss') →
  wait_ok i tx w' ∧
  SendState.safeAbortNonceTooLowCount ss' = SendState.safeAbortNonceTooLowCount ss ∧
  (SendState.nonceTooLowCount ss' = SendState.nonceTooLowCount ss ∨ SendState.nonceTooLowCount ss' = 0).
Proof.
  intros Hi Hal Hu Hs Hw E.
  destruct w as [| r | r | | | r err], wl as [[r' |] [err' |] | | [tip | |] | | |]; cbn in E; try done.
  all: repeat step_match E; simplify_eq; cbn in *; (split; [| auto]); eauto.
  - exists i, tx, tip. auto.
  - split; [done |]. destruct (_ && _); auto.
Qed.

Lemma process_count err ss :
  0 <= SendState.nonceTooLowCount ss →
  0 <= SendState.nonceTooLowCount (SendState.ProcessSendError (Hash:=Hash) err ss)
    <= SendState.nonceTooLowCount ss + (if SendState.nonce_too_low err then 1 else 0).
Proof.
  intros Hn. destruct err as [e |]; cbn; [| lia]. destruct (str_contains _ _); cbn; [| lia].
  split; [apply wrap_range; lia | apply Z.mod_le; lia].
Qed.

Lemma process_safeAbort err ss :
  SendState.safeAbortNonceTooLowCount (SendState.ProcessSendError (Hash:=Hash) err ss)
  = SendState.safeAbortNonceTooLowCount ss.
Proof. destruct err as [e |]; cbn; [| done]. by destruct (str_contains _ _). Qed.

Lemma process_inv tr i tx err s s' :
  sys_inv tr s → gos s !! i = Some (GProcess tx err) →
  go_step n i (GProcess tx err) (LProcess i) s = Some s' → sys_inv (tr ++ [LProcess i]) s'.
Proof.
  intros Hs Hi E. pose proof (si_gos _ _ Hs _ _ Hi) as [Hg1 Hg2].
  destruct (si_count _ _ Hs) as [Hn0 _].
  pose proof (process_count err (sendState s) Hn0) as Hn.
  assert (∃ p, unrecorded p = 0%nat ∧ go_ok i p ∧
    s' = set_go i p (set_sendState (SendState.ProcessSendError err (sendState s)) s)) as (p & Hp0 & Hp & ->).
  { cbn [go_step] in E. destruct err as [e |]; [destruct (is_canceled e) |]; simplify_eq;
      eexists; (split; [| split; [| reflexivity]]); done. }
  eapply (go_step_inv _ _ _ _ i (GProcess tx err) p); eauto.
  - cbn. rewrite process_safeAbort. apply Hs.
  - rewrite Hp0. cbn [set_go set_gos set_sendState sendState unrecorded]. change (too_low_answers _) with 0%nat.
    destruct (SendState.nonce_too_low err); lia.
Qed.

Lemma abort_inv tr i s s' :
  sys_inv tr s → gos s !! i = Some GAbort →
  go_step n i GAbort (LAbort i) s = Some s' → sys_inv (tr ++ [LAbort i]) s'.
Proof.
  intros Hs Hi E. cbn [go_step] in E. destruct (si_count _ _ Hs) as [Hn0 Hn].
  destruct (SendState.ShouldAbortImmediately _) eqn:Ha; simplify_eq;
    eapply (go_step_inv _ _ _ _ i GAbort GExited); eauto; try done; try apply Hs; try (cbn; lia).
  right. exists context_Canceled. split; [done |]. right. split; [done |]. right.
  unfold SendState.ShouldAbortImmediately in Ha. case_bool_decide; [done |].
  apply Z.leb_le in Ha. rewrite (si_abort _ _ Hs) in Ha. rewrite too_low_answers_app. lia.
Qed.

Lemma report_inv tr i tx r err s s' :
  sys_inv tr s → gos s !! i = Some (GWait tx (WReturned r err)) →
  go_step n i (GWait tx (WReturned r err)) (LReport i) s = Some s' →
  sys_inv (tr ++ [LReport i]) s'.
Proof.
  intros Hs Hi E. pose proof (si_gos _ _ Hs _ _ Hi) as (_ & _ & Hg). destruct (si_count _ _ Hs) as [Hn0 Hn].
  cbn in E, Hg. destruct r as [r |]; [destruct (receiptChan s) eqn:Er |]; simplify_eq;
    eapply (go_step_inv _ _ _ _ i); eauto; try done; try apply Hs; try (cbn; lia); cbn; eauto.
Qed.

Lemma wait_inv tr i tx w wl s s' :
  sys_inv tr s → allowed (LWait i wl) s → gos s !! i = Some (GWait tx w) →
  go_step n i (GWait tx w) (LWait i wl) s = Some s' → sys_inv (tr ++ [LWait i wl]) s'.
Proof.
  intros Hs Hal Hi E. pose proof (si_gos _ _ Hs _ _ Hi) as (Hu & Hsd & Hw). destruct (si_count _ _ Hs) as [Hn0 Hn].
  assert (∃ w' ss', wait_step n (tx_Hash tx) (ctxc_err s) wl w (Some (sendState s)) = Some (w', Some ss') ∧
    s' = set_go i (GWait tx w') (set_sendState ss' s)) as (w' & ss' & Ew & ->).
  { destruct w as [| | | | | [r |] err]; cbn [go_step] in E; repeat step_match E; simplify_eq; eauto. }
  destruct (wait_step_ok _ _ _ _ _ _ _ _ _ _ Hi Hal Hu Hsd Hw Ew) as (Hw' & Hk & Hc).
  eapply (go_step_inv _ _ _ _ i (GWait tx w) (GWait tx w')); eauto; [done | |].
  - cbn. rewrite Hk. apply Hs.
  - cbn. destruct Hc as [-> | ->]; lia.
Qed.

Lemma go_steps_inv tr i p l s s' :
  sys_inv tr s → allowed l s → gos s !! i = Some p →
  match l with LUpdate j _ | LSend j _ | LProcess j | LAbort j | LWait j _ | LReport j => j = i | _ => False end →
  go_step n i p l s = Some s' → sys_inv (tr ++ [l]) s'.
Proof.
  intros Hs Hal Hi Hl E. pose proof (si_count _ _ Hs) as [Hn0 Hn].
  destruct l as [| | | | | | j res | j err | j | j | j wl | j]; try done; subst j; destruct p as [| tx | | | tx w |]; try done.
  all: try (by destruct w as [| | | | | [r |] e]).
  - cbn in E. destruct res as [tx | e]; [| destruct (update_ignored e) eqn:Ee]; simplify_eq;
      eapply (go_step_inv _ _ _ _ i GUpdate); eauto; try done; try apply Hs; try (cbn; lia).
    right. exists context_Canceled. split; [done |]. right. split; [done |]. left. exists i, e. set_solver.
  - cbn in E. simplify_eq. pose proof (si_gos _ _ Hs _ _ Hi) as Hg. cbn in Hg, Hal.
    eapply (go_step_inv _ _ _ _ i (GSend tx)); eauto; try done; try (by cbn; auto); try apply Hs; cbn.
    destruct (SendState.nonce_too_low err); lia.
  - eauto using process_inv.
  - eauto using abort_inv.
  - eauto using wait_inv.
  - destruct w as [| | | | | r e]; try done. eauto using report_inv.
Qed.

(** *** Steps of the event loop *)

Lemma main_inv tr l s s' :
  sys_inv tr s → main_step l s = Some s' →
  match l with LSend _ _ => False | _ => True end → sys_inv (tr ++ [l]) s'.
Proof.
  intros [Hg Hch Hm Ha [Hn0 Hn]] E Hl. unfold main_step in E. unfold main_ok in Hm.
  assert (Hl0 : too_low_answers (tr ++ [l]) = too_low_answers tr).
  { rewrite too_low_answers_app. destruct l; try done; cbn; lia. }
  destruct (main s) eqn:Em, l; simplify_eq; repeat step_match E; simplify_eq; split; cbn.
  all: try (by intros; apply go_ok_app, Hg); try (by intros; apply confirmed_by_app, Hch).
  all: try (unfold main_ok; cbn; rewrite ?Em); try done; try (rewrite Hl0; cbn; lia).
  - intros; by apply abort_reason_app, Hm.
  - intros i p [Hi | [Hi1 Hi2]]%lookup_app_Some; [by apply Hg |].
    by apply list_lookup_singleton_Some in Hi2 as [_ <-].
  - intros; by apply abort_reason_app, Hm.
  - rewrite Hl0, sum_list_with_app. cbn. lia.
  - eexists. split; [done |]. by apply abort_reason_app, Hm.
  - split; [by apply Hch | by rewrite E1].
  - split; [by apply Hch | by rewrite E1].
  - split; [by apply result_ok_app |]. by destruct (ctxc_err s).
  - destruct_and?. split_and!; [by apply result_ok_app | done | done].
Qed.

Lemma step_inv tr l s s' :
  sys_inv tr s → allowed l s → step n l s = Some s' → sys_inv (tr ++ [l]) s'.
Proof.
  intros Hs Hal E.
  destruct l; cbn [step] in E; try (by eapply main_inv); try (simplify_eq; by apply end_context_inv).
  all: apply bind_Some in E as (p & Hi & E); by eapply go_steps_inv.
Qed.

Lemma send_init_inv s : send_init k = Ok s → sys_inv [] s.
Proof.
  unfold send_init, SendState.NewSendState. destruct (k =? 0); cbn; [done |]. intros [= <-].
  split; cbn; try done. intros [| i] p Hp; cbn in Hp; by simplify_eq.
Qed.

Lemma sys_inv_done tr s r err :
  sys_inv tr s → main s = MDone r err →
  result_ok confirms k tr r err ∧ ctxc_err s ≠ None ∧ all_exited (gos s) = true.
Proof. intros Hs Hm. pose proof (si_main _ _ Hs) as H1. unfold main_ok in H1. by rewrite Hm in H1. Qed.

End Invariant.

(** The answers of a trace, as the invariant takes them. *)
Lemma run_inv n k full tr tr' s s' :
  let inv := sys_inv (λ i tx, LUpdate i (inl tx) ∈ full) (λ i _ err, LSend i err ∈ full)
    (λ i _ r, ∃ err, LWait i (WLReceipt (Some r) err) ∈ full) (λ i tip, LWait i (WLTip (Ok tip)) ∈ full) n k in
  full = tr ++ tr' → inv tr s → run n tr' s = Some s' → inv full s'.
Proof.
  cbv zeta. revert tr s. induction tr' as [| l tr' IH]; intros tr s Hf Hs E; cbn in E.
  - simplify_eq. by rewrite app_nil_r in *.
  - apply bind_Some in E as (s1 & E1 & E). rewrite cons_middle, app_assoc in Hf.
    eapply IH; [exact Hf | | exact E]. eapply step_inv; [exact Hs | | exact E1].
    assert (l ∈ full) by (rewrite Hf; set_solver).
    destruct l as [| | | | | | i [tx | e] | i e | | | i [[r |] e | | [tip | |] | | |] |]; cbn; eauto.
Qed.

(** C4: In every interleaving of the goroutines of SimpleTxManager.Send: when Send returns, it returns a
    receipt that a query confirmed to the required depth, or an error it has a reason for; its
    context has then been cancelled and every goroutine it started has finished. *)
Theorem Send_returns n k tr s0 s r err :
  send_init k = Ok s0 → run n tr s0 = Some s → main s = MDone r err →
  result_ok (confirmed_by n tr) k tr r err ∧ ctxc_err s ≠ None ∧ all_exited (gos s) = true.
Proof.
  intros H0 Hr Hm.
  destruct (sys_inv_done _ _ _ _ _ _ _ _ _ _ (run_inv n k tr [] tr s0 s eq_refl (send_init_inv _ _ _ _ n k s0 H0) Hr) Hm)
    as [H1 H2].
  split; [| done]. destruct r as [r |]; [| done]. destruct H1 as [(i & tx & tip & ? & ? & (e & ?) & ? & ?) ?].
  split; [| done]. exists i, tx, e, tip. auto.
Qed.

(** ** Termination *)

(** Labels other than timer ticks and the end of the parent context. *)
Definition quiet (l : label) : bool :=
  match l with LParent _ | LTick | LWait _ WLTick => false | _ => true end.

Definition wait_measure (p : wait_pc) : nat :=
  match p with
  | WReceipt => 7 | WMined _ => 6 | WTip _ => 5 | WNotMined => 5 | WSelect => 4 | WReturned _ _ => 3
  end.

Definition go_measure (p : go_pc) : nat :=
  match p with
  | GUpdate => 10 | GSend _ => 9 | GProcess _ _ => 8 | GAbort => 1 | GWait _ p => wait_measure p | GExited => 0
  end.

Definition sys_measure (s : sys) : nat :=
  sum_list_with go_measure (gos s) +
  match main s with MLoop => 3 | MReturn _ _ => 2 | MWait _ _ => 1 | MDone _ _ => 0 end.

Lemma sum_measure_insert (l : list go_pc) i p q :
  l !! i = Some q → (go_measure p < go_measure q)%nat →
  (sum_list_with go_measure (<[i := p]> l) < sum_list_with go_measure l)%nat.
Proof.
  intros Hi Hlt. assert (i < length l)%nat by (by apply lookup_lt_Some in Hi).
  rewrite insert_take_drop by done. rewrite <- (take_drop_middle l i q Hi) at 3.
  rewrite !sum_list_with_app. cbn. lia.
Qed.

(** A goroutine step changes its own program counter only, and goes down. *)
Lemma go_step_measure n i p l s s' :
  gos s !! i = Some p → go_step n i p l s = Some s' → quiet l = true →
  (sys_measure s' < sys_measure s)%nat ∧ (ctxc_err s ≠ None → ctxc_err s' ≠ None).
Proof.
  intros Hi E Hq.
  assert (∃ p', gos s' = <[i := p']> (gos s) ∧ main s' = main s ∧ (go_measure p' < go_measure p)%nat ∧
          (ctxc_err s' = ctxc_err s ∨ ctxc_err s' = ctxc_err (cancel s))) as (p' & Hg & Hm & Hlt & Hc).
  { destruct p as [| tx | tx err | | tx w |], l as [| | | | | | j [tx' | e] | j e | j | j | j wl | j]; try done;
      try destruct w as [| | | | | [r |] e], wl as [[r' |] [e' |] | | [tip | |] | | |]; cbn in E, Hq; try done;
      try (by destruct w as [| | | | | [r |] e]).
    all: repeat step_match E; simplify_eq; eexists; split_and!; cbn; eauto; cbn; try lia.
    all: repeat step_match E0; simplify_eq; cbn; lia. }
  unfold sys_measure. rewrite Hg, Hm. split.
  - pose proof (sum_measure_insert _ _ _ _ Hi Hlt). lia.
  - destruct Hc as [-> | ->]; [done |]. cbn. by destruct (ctxc_err s).
Qed.

Lemma step_measure n l s s' :
  step n l s = Some s' → quiet l = true →
  (sys_measure s' < sys_measure s)%nat ∧ (ctxc_err s ≠ None → ctxc_err s' ≠ None).
Proof.
  intros E Hq. destruct l; cbn [step] in E; try done.
  all: try (apply bind_Some in E as (p & Hi & E); by eapply go_step_measure).
  all: unfold main_step in E; destruct (main s) eqn:Em; simplify_eq; repeat step_match E; simplify_eq;
    unfold sys_measure; cbn; rewrite ?Em; split; try lia; by destruct (ctxc_err s).
Qed.

Lemma go_enabled n i p s :
  p ≠ GExited → ctxc_err s ≠ None → gos s !! i = Some p →
  ∃ l s', quiet l = true ∧ step n l s = Some s'.
Proof.
  intros Hp Hc Hi. destruct (ctxc_err s) as [e |] eqn:Ec; [| done].
  assert (∃ l, quiet l = true ∧ step n l s = go_step n i p l s ∧ is_Some (go_step n i p l s))
    as (l & Hq & El & [s' Hs']); [| exists l, s'; by rewrite El].
  destruct p as [| tx | tx err | | tx w |]; [.. | done].
  - exists (LUpdate i (inr context_Canceled)). cbn. rewrite Hi. eauto.
  - exists (LSend i None). cbn. rewrite Hi. eauto.
  - exists (LProcess i). cbn. rewrite Hi. cbn. destruct err as [e' |]; [destruct (is_canceled e') |]; eauto.
  - exists (LAbort i). cbn. rewrite Hi. eauto.
  - destruct w as [| r | r | | | [r |] err].
    + exists (LWait i (WLReceipt None None)). cbn. rewrite Hi. eauto.
    + exists (LWait i WLMined). cbn. rewrite Hi. eauto.
    + exists (LWait i (WLTip (Err io_EOF))). cbn. rewrite Hi. eauto.
    + exists (LWait i WLNotMined). cbn. rewrite Hi. eauto.
    + exists (LWait i WLDone). cbn. rewrite Hi. cbn. rewrite Ec. eauto.
    + exists (LReport i). cbn. rewrite Hi. eauto.
    + exists (LReport i). cbn. rewrite Hi. eauto.
Qed.

Lemma not_all_exited (l : list go_pc) :
  all_exited l = false → ∃ i p, l !! i = Some p ∧ p ≠ GExited.
Proof.
  induction l as [| p l IH]; cbn; [done |]. intros Hf.
  destruct p; try (by exists 0%nat; eexists). destruct (IH Hf) as (i & p & ? & ?). by exists (S i), p.
Qed.

(** Nothing blocks for ever once the context has ended. *)
Lemma enabled n s :
  ctxc_err s ≠ None →
  (∃ r err, main s = MDone r err) ∨ ∃ l s', quiet l = true ∧ step n l s = Some s'.
Proof.
  intros Hc. destruct (main s) as [| r err | r err | r err] eqn:Em; [right .. | by left; eauto].
  - destruct (ctxc_err s) as [e |] eqn:Ec; [| done].
    exists LDone. cbn. unfold main_step. rewrite Em, Ec. eauto.
  - exists LCancel. cbn. unfold main_step. rewrite Em. eauto.
  - destruct (all_exited (gos s)) eqn:Ex.
    + exists LJoin. cbn. unfold main_step. rewrite Em, Ex. eauto.
    + destruct (not_all_exited _ Ex) as (i & p & Hi & Hp). eauto using go_enabled.
Qed.

Theorem Send_terminates n tr s s' :
  ctxc_err s ≠ None → forallb quiet tr = true → run n tr s = Some s' →
  (length tr <= sys_measure s)%nat ∧
  ((∃ r err, main s' = MDone r err) ∨ ∃ l s'', quiet l = true ∧ step n l s' = Some s'').
Proof.
  revert s. induction tr as [| l tr IH]; intros s Hc Hq E; cbn in E.
  - simplify_eq. split; [cbn; lia | by apply enabled].
  - apply andb_true_iff in Hq as [Hq1 Hq2]. apply bind_Some in E as (s1 & E1 & E).
    destruct (step_measure _ _ _ _ E1 Hq1) as [Hlt Hc1].
    destruct (IH s1 (Hc1 Hc) Hq2 E) as [Hle He]. split; [cbn; lia | done].
Qed.

End Send.


(** A run: the price update, publication, a receipt, its confirmation. *)
Definition example_receipt : Receipt := {| Status := 1; rc_BlockNumber := 100; GasUsed := 21000 |}.

Definition example_run : list (@label Z) :=
  [LUpdate 0 (inl 7); LSend 0 None; LProcess 0; LTick; LWait 0 (WLReceipt (Some example_receipt) None);
   LWait 0 WLMined; LWait 0 (WLTip (Ok 105)); LReport 0; LRecv; LCancel; LUpdate 1 (inr context_Canceled); LJoin].

Lemma Send_returns_witness :
  ∃ s, run id 3 example_run {| sendState := {| SendState.minedTxs := ∅; SendState.nonceTooLowCount := 0;
           SendState.safeAbortNonceTooLowCount := 3 |};
         ctxc_err := None; receiptChan := None; gos := [GUpdate]; main := MLoop |} = Some s ∧
    result_ok (confirmed_by 3 example_run) 3 example_run (Some example_receipt) None.
Proof.
  eexists. split; [reflexivity |].
  refine (proj1 (Send_returns id 3 3 example_run _ _ (Some example_receipt) None eq_refl eq_refl eq_refl)).
Defined.

(** The context ends while a goroutine waits; every quiet step is counted. *)
Definition example_ended : @sys Z Z _ _ :=
  {| sendState := {| SendState.minedTxs := ∅; SendState.nonceTooLowCount := 0;
       SendState.safeAbortNonceTooLowCount := 3 |};
     ctxc_err := Some context_Canceled; receiptChan := None; gos := [GWait 7 WSelect]; main := MLoop |}.

Lemma Send_terminates_witness :
  ∃ s', run id 3 [LDone; LCancel; LWait 0 WLDone] example_ended = Some s' ∧
    (3 <= sys_measure example_ended)%nat ∧
    ((∃ r err, main s' = MDone r err) ∨ ∃ l s'', quiet l = true ∧ step id 3 l s' = Some s'').
Proof.
  eexists. split; [reflexivity |].
  refine (Send_terminates id 3 [LDone; LCancel; LWait 0 WLDone] example_ended _ _ eq_refl eq_refl). discriminate.
Defined.

(** ** Send as a service to its callers

    A caller of [Send] hands two callbacks to it.  [sim] runs the transition
    system with the callbacks and the backend as computations on the state [W]
    of the world outside; a list of choices plays the scheduler.  [TxManager]
    is what callers may rely on, and [SimpleTxManager] shows that the
    transition system keeps the promise under every schedule. *)

(** The computation can return [a]. *)
Definition produced {W A} (m : st W A) (a : A) : Prop := ∃ w w', m w = (Ok a, w').

(** A call that panics or never returns is a [Panic]; the error that [Send]
    returns is a component of the pair. *)
Class TxManager (W Tx : Type) := {
  Send : st W Tx → (Tx → st W ()) → st W (option Receipt * option error);
  Send_law : ∀ updateGasPrice sendTx w r err w',
    Send updateGasPrice sendTx w = (Ok (r, err), w') →
    match r with
    | Some rc => (∃ tx, produced updateGasPrice tx ∧ produced (sendTx tx) tt) ∧
        err = if Status rc =? ReceiptStatusFailed then Some ErrReverted else None
    | None => err ≠ None
    end;
  Send_pair : ∀ updateGasPrice sendTx w e, (Send updateGasPrice sendTx w).1 ≠ Err e;
}.

(** What the scheduler chooses: a thread, and its branch in a select. *)
Inductive choice :=
  | CParent | CTick | CDone | CRecv | CCancel | CJoin
  | CGo (i : nat) | CGoDone (i : nat) | CGoTick (i : nat).

Section Sim.
  Context {W Tx Hash : Type} `{Countable Hash} (tx_Hash : Tx → Hash).
  Context (TransactionReceipt : Hash → W → option Receipt * option error * W).
  Context (BlockNumber : st W Z).
  Context (parent_err : W → option error).
  Context (updateGasPrice : st W Tx) (sendTx : Tx → st W ()).

(** The next label of a goroutine at [p]; [None] when a callback panics. *)
Definition go_label (i : nat) (p : go_pc) (w : W) : option (label * W) :=
  match p with
  | GUpdate =>
      match updateGasPrice w with
      | (Ok tx, w) => Some (LUpdate i (inl tx), w)
      | (Err e, w) => Some (LUpdate i (inr e), w)
      | (Panic _, _) => None
      end
  | GSend tx =>
      match sendTx tx w with
      | (Ok _, w) => Some (LSend i None, w)
      | (Err e, w) => Some (LSend i (Some e), w)
      | (Panic _, _) => None
      end
  | GProcess _ _ => Some (LProcess i, w)
  | GAbort => Some (LAbort i, w)
  | GWait tx WReceipt =>
      let '(r, err, w) := TransactionReceipt (tx_Hash tx) w in Some (LWait i (WLReceipt r err), w)
  | GWait _ (WMined _) => Some (LWait i WLMined, w)
  | GWait _ (WTip _) =>
      match BlockNumber w with
      | (Panic _, _) => None
      | (tip, w) => Some (LWait i (WLTip tip), w)
      end
  | GWait _ WNotMined => Some (LWait i WLNotMined, w)
  | GWait _ WSelect => None
  | GWait _ (WReturned _ _) => Some (LReport i, w)
  | GExited => None
  end.

Definition choice_label (c : choice) (s : sys (Tx:=Tx) (Hash:=Hash)) (w : W) : option (label * W) :=
  match c with
  | CParent => match parent_err w with Some e => Some (LParent e, w) | None => None end
  | CTick => Some (LTick, w)
  | CDone => Some (LDone, w)
  | CRecv => Some (LRecv, w)
  | CCancel => Some (LCancel, w)
  | CJoin => Some (LJoin, w)
  | CGo i => p ← gos s !! i; go_label i p w
  | CGoDone i => Some (LWait i WLDone, w)
  | CGoTick i => Some (LWait i WLTick, w)
  end.

Fixpoint sim (n : Z) (cs : list choice) (s : sys (Tx:=Tx) (Hash:=Hash)) (w : W)
    : option (list label * sys * W) :=
  match cs with
  | [] => Some ([], s, w)
  | c :: cs =>
      '(l, w) ← choice_label c s w;
      s ← step tx_Hash n l s;
      '(tr, s, w) ← sim n cs s w;
      Some (l :: tr, s, w)
  end.

Definition sim_result (n : Z) (cs : list choice) (s : sys (Tx:=Tx) (Hash:=Hash))
    : st W (option Receipt * option error) := λ w,
  match sim n cs s w with
  | Some (_, s, w') =>
      match main s with MDone r err => (Ok (r, err), w') | _ => (Panic "still running", w') end
  | None => (Panic "callback panicked", w)
  end.

(** [Send] under the schedule [cs]. *)
Definition Send_sim (n k : Z) (cs : list choice) : st W (option Receipt * option error) :=
  s ← st_lift (send_init k); sim_result n cs s.

Lemma sim_inv n k cs tr0 s w tr s' w' :
  let inv := sys_inv (λ i tx, produced updateGasPrice tx)
    (λ i tx err, err = None → produced (sendTx tx) tt) (λ _ _ _, True) (λ _ _, True) n k in
  inv tr0 s → sim n cs s w = Some (tr, s', w') → inv (tr0 ++ tr) s'.
Proof.
  cbv zeta. revert tr0 s w tr. induction cs as [| c cs IH]; intros tr0 s w tr Hs E; cbn in E.
  { simplify_eq. by rewrite app_nil_r. }
  apply bind_Some in E as ([l w1] & El & E). apply bind_Some in E as (s1 & Es & E).
  apply bind_Some in E as ([[tr1 s2] w2] & E1 & E). simplify_eq.
  rewrite cons_middle, app_assoc. eapply IH; [| exact E1]. eapply step_inv; [exact Hs | | exact Es].
  destruct c; cbn in El; repeat step_match El; simplify_eq; try done.
  apply bind_Some in El as (p & Hp & El).
  unfold go_label in El. repeat step_match El; simplify_eq; try done; cbn.
  - by do 2 eexists.
  - intros tx' Ht _. rewrite Hp in Ht. simplify_eq. destruct a. by do 2 eexists.
  - by destruct o.
Qed.

Lemma Send_sim_law n k cs w r err w' :
  Send_sim n k cs w = (Ok (r, err), w') →
  match r with
  | Some rc => (∃ tx, produced updateGasPrice tx ∧ produced (sendTx tx) tt) ∧
      err = if Status rc =? ReceiptStatusFailed then Some ErrReverted else None
  | None => err ≠ None
  end.
Proof.
  unfold Send_sim, sim_result, mbind, st_bind, st_lift. destruct (send_init k) as [s0 | |] eqn:E0; try done.
  destruct (sim n cs s0 w) as [[[tr s] w1] |] eqn:E; [| done]. destruct (main s) eqn:Em; try done.
  intros [= <- <- <-].
  pose proof (sim_inv n k cs [] s0 w tr s w1 (send_init_inv _ _ _ _ n k s0 E0) E) as Hs.
  destruct (sys_inv_done _ _ _ _ _ _ _ _ _ _ Hs Em) as [H1 _].
  destruct r0 as [rc |]; cbn in H1.
  - destruct H1 as [(i & tx & tip & ? & ? & _) ?]. split; [eauto | done].
  - by destruct H1 as (e & -> & _).
Qed.

Lemma Send_sim_pair n k cs w e : (Send_sim n k cs w).1 ≠ Err e.
Proof.
  unfold Send_sim, sim_result, send_init, SendState.NewSendState, st_lift, mbind, st_bind.
  destruct (k =? 0); cbn; [done |]. destruct (sim n cs _ w) as [[[tr s] w1] |]; [| done].
  by destruct (main s).
Qed.

End Sim.

(** The manager with its configuration, its backend and a scheduler that may
    look at the world. *)
Definition SimpleTxManager {W Tx Hash : Type} `{Countable Hash} (tx_Hash : Tx → Hash)
    (TransactionReceipt : Hash → W → option Receipt * option error * W) (BlockNumber : st W Z)
    (parent_err : W → option error) (n k : Z) (sched : W → list choice) : TxManager W Tx := {|
  Send u s w := Send_sim tx_Hash TransactionReceipt BlockNumber parent_err u s n k (sched w) w;
  Send_law u s w r err w' := Send_sim_law tx_Hash TransactionReceipt BlockNumber parent_err u s n k (sched w) w r err w';
  Send_pair u s w e := Send_sim_pair tx_Hash TransactionReceipt BlockNumber parent_err u s n k (sched w) w e;
|}.
