(* ===== verification/BatchSubmitter.v ===== *)
(** The batch submitter service and the sequencer driver:
    src/bss-core/service.go, src/bss-core/drivers/clear_pending_tx.go,
    src/bss-core/drivers/max_priority_fee_fallback.go and
    src/batch-submitter/drivers/sequencer/driver.go.

    The service is written against two interfaces, the driver and the
    transaction manager; so is the model ([Driver] below, [TxManager] of
    TxMgr.v).  The sequencer driver is an instance of the first.  The Ethereum
    nodes, the contract bindings and the signers are not part of the
    repository: they are computations on a state [W] of the world. *)

From S2P Require Import Prelude GoIO TxMeta Transaction BatchEncoding BatchGen TxMgr.

Definition bind_ErrNoChainID : error := ErrVar "bind.ErrNoChainID" "no chain id specified".

Definition errMaxPriorityFeePerGasNotFound : error :=
  ErrVar "drivers.errMaxPriorityFeePerGasNotFound" "Method eth_maxPriorityFeePerGas not found".

Definition FallbackGasTipCap : Z := 1500000000.

Definition IsMaxPriorityFeePerGasNotFoundError (err : error) : bool :=
  str_contains (error_Error errMaxPriorityFeePerGasNotFound) (error_Error err).

Definition ErrClearPendingRetry : error :=
  ErrVar "drivers.ErrClearPendingRetry" "retry clear pending txn".

Abbreviation Address := (list byte).

(** The fields of go-ethereum's structs that the code sets or reads. *)
Record Header := { h_Number : Z; BaseFee : Z }.

Record CallMsg := {
  cm_From : Address; cm_To : Address; cm_GasFeeCap : Z; cm_GasTipCap : Z; cm_Data : list byte;
}.

Record DynamicFeeTx := {
  df_To : Address; df_Nonce : Z; df_Gas : Z; df_GasFeeCap : Z; df_GasTipCap : Z;
  df_Value : Z; df_Data : list byte;
}.

Record TransactOpts := {
  o_From : Address; o_Nonce : option Z; o_GasTipCap : option Z; o_GasFeeCap : option Z;
  o_GasLimit : Z; o_NoSend : bool;
}.

Record L1Client (W Tx : Type) := {
  BalanceAt : Address → st W Z;
  NonceAt : Address → st W Z;
  SuggestGasTipCap : st W Z;
  HeaderByNumber : st W Header;
  EstimateGas : CallMsg → st W Z;
  SendTransaction : Tx → st W ();
}.
Arguments BalanceAt {W Tx}. Arguments NonceAt {W Tx}. Arguments SuggestGasTipCap {W Tx}.
Arguments HeaderByNumber {W Tx}. Arguments EstimateGas {W Tx}. Arguments SendTransaction {W Tx}.

(** ** Clearing pending transactions *)

Section ClearPending.
  Context {W Tx : Type} `{TxManager W Tx} (l1Client : L1Client W Tx).
  (** [types.SignTx] with the key and the chain id, and the cancellation of
      the context that [Send] is called with. *)
  Context (SignTx : DynamicFeeTx → outcome Tx) (cancel : st W ()).
  Context (walletAddr : Address).

Definition CraftClearingTx (nonce gasFeeCap gasTipCap gasLimit : Z) : DynamicFeeTx :=
  {| df_To := walletAddr; df_Nonce := nonce; df_Gas := gasLimit; df_GasFeeCap := gasFeeCap;
     df_GasTipCap := gasTipCap; df_Value := 0; df_Data := [] |}.

(** [SuggestGasTipCap] with the fallback for backends that do not know it. *)
Definition suggest_tip : st W Z :=
  st_catch (SuggestGasTipCap l1Client)
    (λ e, if negb (IsMaxPriorityFeePerGasNotFoundError e) then st_fail e else mret FallbackGasTipCap).

Definition SignClearingTx (nonce : Z) : st W Tx :=
  gasTipCap ← suggest_tip;
  head ← HeaderByNumber l1Client;
  let gasFeeCap := CalcGasFeeCap (BaseFee head) gasTipCap in
  gasLimit ← EstimateGas l1Client
    {| cm_From := walletAddr; cm_To := walletAddr; cm_GasFeeCap := gasFeeCap;
       cm_GasTipCap := gasTipCap; cm_Data := [] |};
  st_lift (SignTx (CraftClearingTx nonce gasFeeCap gasTipCap gasLimit)).

(** The closure that publishes; a nonce that is too low cancels the context. *)
Definition clearing_sendTx (tx : Tx) : st W () :=
  st_catch (SendTransaction l1Client tx)
    (λ e, if str_contains nonceTooLowText (error_Error e)
          then cancel;; st_fail context_Canceled
          else st_fail e).

Definition clearing_result (res : option Receipt * option error) : st W () :=
  match res with
  | (_, Some e) => if bool_decide (e = context_Canceled) then st_fail ErrClearPendingRetry else st_fail e
  | (None, None) => st_panic "invalid memory address or nil pointer dereference"
  | (Some _, None) => mret tt
  end.

(** The deferred [cancel()] runs on every path after the nonce is known. *)
Definition deferred {A} (d : st W ()) (m : st W A) : st W A := λ w,
  let '(r, w) := m w in (r, (d w).2).

Definition ClearPendingTx : st W () :=
  nonce ← NonceAt l1Client walletAddr;
  deferred cancel (Send (SignClearingTx nonce) clearing_sendTx ≫= clearing_result).

End ClearPending.

(** ** The driver interface *)

(** What the service relies on: the crafted transaction has the nonce it was
    asked for, and a gas price update changes neither the nonce nor the
    calldata. *)
Class Driver (W Tx : Type) (tx_Nonce : Tx → Z) (tx_Data : Tx → list byte) := {
  d_WalletAddr : Address;
  d_ClearPendingTx : st W ();
  d_GetBatchBlockRange : st W (Z * Z);
  d_CraftBatchTx : Z → Z → Z → st W (option Tx);
  d_UpdateGasPrice : Tx → st W Tx;
  d_SendTransaction : Tx → st W ();
  d_Craft_nonce : ∀ start end_ nonce tx,
    produced (d_CraftBatchTx start end_ nonce) (Some tx) → tx_Nonce tx = nonce;
  d_Update_same : ∀ tx tx',
    produced (d_UpdateGasPrice tx) tx' → tx_Nonce tx' = tx_Nonce tx ∧ tx_Data tx' = tx_Data tx;
}.

(** ** The service *)

(** The counters and gauges, timings apart; the balance in wei, before its
    conversion to a float. *)
Record Metrics := {
  BalanceETH : option Z;
  BatchSizeBytes : list Z;
  SubmissionGasUsedWei : option Z;
  BatchesSubmitted : Z;
  FailedSubmissions : Z;
}.

Definition set_balance (b : Z) (m : Metrics) : Metrics :=
  {| BalanceETH := Some b; BatchSizeBytes := BatchSizeBytes m; SubmissionGasUsedWei := SubmissionGasUsedWei m;
     BatchesSubmitted := BatchesSubmitted m; FailedSubmissions := FailedSubmissions m |}.

Definition observe_size (n : Z) (m : Metrics) : Metrics :=
  {| BalanceETH := BalanceETH m; BatchSizeBytes := BatchSizeBytes m ++ [n];
     SubmissionGasUsedWei := SubmissionGasUsedWei m;
     BatchesSubmitted := BatchesSubmitted m; FailedSubmissions := FailedSubmissions m |}.

Definition set_gas_used (r : option Receipt) (m : Metrics) : Metrics :=
  match r with
  | None => m
  | Some r => {| BalanceETH := BalanceETH m; BatchSizeBytes := BatchSizeBytes m;
                 SubmissionGasUsedWei := Some (GasUsed r);
                 BatchesSubmitted := BatchesSubmitted m; FailedSubmissions := FailedSubmissions m |}
  end.

Definition inc_failed (m : Metrics) : Metrics :=
  {| BalanceETH := BalanceETH m; BatchSizeBytes := BatchSizeBytes m; SubmissionGasUsedWei := SubmissionGasUsedWei m;
     BatchesSubmitted := BatchesSubmitted m; FailedSubmissions := FailedSubmissions m + 1 |}.

Definition inc_submitted (m : Metrics) : Metrics :=
  {| BalanceETH := BalanceETH m; BatchSizeBytes := BatchSizeBytes m; SubmissionGasUsedWei := SubmissionGasUsedWei m;
     BatchesSubmitted := BatchesSubmitted m + 1; FailedSubmissions := FailedSubmissions m |}.

Record service (W : Type) := { world : W; metrics : Metrics }.
Arguments world {W}. Arguments metrics {W}.

Definition on_world {W A} (m : st W A) : st (service W) A := λ s,
  let '(r, w) := m (world s) in (r, {| world := w; metrics := metrics s |}).

Definition on_metrics {W} (f : Metrics → Metrics) : st (service W) () :=
  st_modify (λ s, {| world := world s; metrics := f (metrics s) |}).

Section Service.
  Context {W Tx : Type} {tx_Nonce : Tx → Z} {tx_Data : Tx → list byte}.
  Context `{TxManager W Tx} `{D : Driver W Tx tx_Nonce tx_Data} (l1Client : L1Client W Tx).
  (** [tx.EncodeRLP] of go-ethereum's transactions. *)
  Context (EncodeRLP : Tx → outcome (list byte)).

Definition InitService : st (service W) () :=
  balance ← on_world (BalanceAt l1Client d_WalletAddr);
  on_metrics (set_balance balance).

(** The last part of a tick, after [Send] has returned. *)
Definition submission_result (res : option Receipt * option error) : st (service W) () :=
  on_metrics (set_gas_used res.1);;
  match res with
  | (_, Some e) => on_metrics inc_failed;; st_fail e
  | (None, None) => st_panic "invalid memory address or nil pointer dereference"
  | (Some _, None) => on_metrics inc_submitted
  end.

(** One round of the event loop; an error ends the round. *)
Definition tick_body : st (service W) () :=
  balance ← on_world (BalanceAt l1Client d_WalletAddr);
  on_metrics (set_balance balance);;
  '(start, end_) ← on_world d_GetBatchBlockRange;
  if start =? end_ then mret tt
  else
    nonce ← on_world (NonceAt l1Client d_WalletAddr);
    tx ← on_world (d_CraftBatchTx start end_ nonce);
    match tx with
    | None => mret tt
    | Some tx =>
        txBuf ← st_lift (EncodeRLP tx);
        on_metrics (observe_size (len txBuf));;
        res ← on_world (Send (d_UpdateGasPrice tx) d_SendTransaction);
        submission_result res
    end.

(** Errors are logged, and the loop continues. *)
Definition tick : st (service W) () := st_catch tick_body (λ _, mret tt).

Definition maxClearRetries : nat := 3.

(** The clearing transactions before the first round: [log.Crit] ends the
    process after the last retry. *)
Fixpoint clear_loop (retries : nat) : st W () :=
  match retries with
  | O => mret tt
  | S retries =>
      st_catch d_ClearPendingTx
        (λ e, match retries with
              | O => st_panic "Unable to confirm a clearing transaction"
              | S _ => clear_loop retries
              end)
  end.

(** [n] rounds of the event loop before the service is stopped. *)
Fixpoint ticks (n : nat) : st (service W) () :=
  match n with
  | O => mret tt
  | S n => tick;; ticks n
  end.

Definition eventLoop (clearPendingTx : bool) (n : nat) : st (service W) () :=
  (if clearPendingTx then on_world (clear_loop maxClearRetries) else mret tt);;
  ticks n.

End Service.

(** ** The sequencer driver *)

Record SeqConfig := {
  BlockOffset : Z;
  CTCAddr : Address;
  DaUpgradeBlock : Z;
  ChainID : option Z;
  EnableSequencerHsm : bool;
  SequencerHsmAddress : Address;
  cfg_BatchType : Z;
  MaxRollupTxn : Z;
  MinRollupTxn : Z;
}.

(** The HSM transactor of src/bss-core/hsm_signer.go. *)
Definition NewEthereumTransactorrWithChainID (ethereumAddr : Address) (chainID : option Z)
    : outcome TransactOpts :=
  match chainID with
  | None => Err bind_ErrNoChainID
  | Some _ => Ok {| o_From := ethereumAddr; o_Nonce := None; o_GasTipCap := None; o_GasFeeCap := None;
                    o_GasLimit := 0; o_NoSend := false |}
  end.

Section SeqDriver.
  Context {W Tx : Type} (tx_Nonce : Tx → Z) (tx_Data : Tx → list byte).
  Context (l1Client : L1Client W Tx).
  (** The L2 node, the two contracts and the signers. *)
  Context (l2_HeaderByNumber : st W Header) (BlockByNumber : Z → st W Block).
  Context (ctc_GetTotalElements da_GetL2ConfirmedBlockNumber : st W Z).
  Context (NewKeyedTransactorWithChainID : option Z → outcome TransactOpts).
  Context (NewKeyManagementClient : st W ()).
  Context (RawTransact : TransactOpts → list byte → st W Tx).
  Context (appendSequencerBatchID : list byte).
  Context (walletAddr : Address) (cfg : SeqConfig).

Definition GetBatchBlockRange : st W (Z * Z) :=
  start ← ctc_GetTotalElements;
  let start := start + BlockOffset cfg in
  latestHeader ← l2_HeaderByNumber;
  end_ ← (if h_Number latestHeader <? to_int64 (DaUpgradeBlock cfg)
          then mret (h_Number latestHeader + 1)
          else da_GetL2ConfirmedBlockNumber);
  let l2Txn := end_ - start in
  if l2Txn <? to_int64 (MinRollupTxn cfg) then mret (start, start)
  else if to_int64 (MaxRollupTxn cfg) <? l2Txn
  then mret (start, start + to_int64 (MaxRollupTxn cfg))
  else mret (start, end_).

(** The elements of the [n] blocks from [i] on. *)
Fixpoint fetch_elements (n : nat) (i : Z) : st W (list BatchElement) :=
  match n with
  | O => mret []
  | S n =>
      block ← BlockByNumber i;
      batchElement ← st_lift (BatchElementFromBlock block);
      rest ← fetch_elements n (i + 1);
      mret (batchElement :: rest)
  end.

Definition craft_opts (nonce : Z) (gasTipCap : option Z) (o : TransactOpts) : TransactOpts :=
  {| o_From := o_From o; o_Nonce := Some nonce; o_GasTipCap := gasTipCap; o_GasFeeCap := o_GasFeeCap o;
     o_GasLimit := o_GasLimit o; o_NoSend := true |}.

Definition craft_signer : st W TransactOpts :=
  if EnableSequencerHsm cfg then
    NewKeyManagementClient;;
    st_lift (NewEthereumTransactorrWithChainID (SequencerHsmAddress cfg) (ChainID cfg))
  else st_lift (NewKeyedTransactorWithChainID (ChainID cfg)).

(** The calldata for the blocks from [start] to [end_]. *)
Definition craft_calldata (start end_ : Z) : st W (list byte) :=
  batchElements ← fetch_elements (Z.to_nat (end_ - start)) start;
  batchParams ← st_lift (GenSequencerBatchParams (big_Uint64 start) (BlockOffset cfg) batchElements);
  batchArguments ← st_lift (Serialize batchParams (cfg_BatchType cfg) start (to_int64 (DaUpgradeBlock cfg)));
  mret (appendSequencerBatchID ++ batchArguments).

Definition CraftBatchTx (start end_ nonce : Z) : st W (option Tx) :=
  calldata ← craft_calldata start end_;
  opts ← craft_signer;
  tx ← st_catch (RawTransact (craft_opts nonce (o_GasTipCap opts) opts) calldata)
    (λ e, if IsMaxPriorityFeePerGasNotFoundError e
          then RawTransact (craft_opts nonce (Some FallbackGasTipCap) opts) calldata
          else st_fail e);
  mret (Some tx).

(** With an HSM the error of the transactor is assigned to a variable of the
    inner block and never looked at: the options stay nil. *)
Definition update_signer : st W TransactOpts :=
  if EnableSequencerHsm cfg then
    NewKeyManagementClient;;
    match NewEthereumTransactorrWithChainID (SequencerHsmAddress cfg) (ChainID cfg) with
    | Ok o => mret o
    | _ => st_panic "invalid memory address or nil pointer dereference"
    end
  else st_lift (NewKeyedTransactorWithChainID (ChainID cfg)).

Definition UpdateGasPrice (tx : Tx) : st W Tx :=
  gasTipCap ← suggest_tip l1Client;
  header ← HeaderByNumber l1Client;
  let gasFeeCap := CalcGasFeeCap (BaseFee header) gasTipCap in
  gasLimit ← EstimateGas l1Client
    {| cm_From := walletAddr; cm_To := CTCAddr cfg; cm_GasFeeCap := gasFeeCap;
       cm_GasTipCap := gasTipCap; cm_Data := tx_Data tx |};
  opts ← update_signer;
  RawTransact
    {| o_From := o_From opts; o_Nonce := Some (tx_Nonce tx); o_GasTipCap := Some gasTipCap;
       o_GasFeeCap := Some gasFeeCap; o_GasLimit := u64 (6 * gasLimit) / 5; o_NoSend := true |}
    (tx_Data tx).

(** ** Theorems about the sequencer driver *)

Theorem GetBatchBlockRange_bounds w start end_ w' :
  0 <= MinRollupTxn cfg <= MaxRollupTxn cfg → MaxRollupTxn cfg < 2 ^ 63 →
  GetBatchBlockRange w = (Ok (start, end_), w') →
  (∃ total, produced ctc_GetTotalElements total ∧ start = total + BlockOffset cfg) ∧
  (end_ = start ∨ MinRollupTxn cfg <= end_ - start <= MaxRollupTxn cfg ∧
     ∃ tip, end_ <= tip ∧ ((∃ h, produced l2_HeaderByNumber h ∧ h_Number h + 1 = tip) ∨
                           produced da_GetL2ConfirmedBlockNumber tip)).
Proof.
  intros Hmin Hmax E. unfold GetBatchBlockRange in E.
  apply st_bind_Ok in E as (total & w1 & E1 & E).
  apply st_bind_Ok in E as (h & w2 & E2 & E).
  apply st_bind_Ok in E as (tip & w3 & E3 & E).
  rewrite !to_int64_small in E by lia.
  assert (Htip : (∃ h, produced l2_HeaderByNumber h ∧ h_Number h + 1 = tip) ∨
                 produced da_GetL2ConfirmedBlockNumber tip).
  { destruct (_ <? _); [| right; by do 2 eexists]. injection E3 as <- <-. left. exists h.
    split; [by do 2 eexists | done]. }
  destruct (Z.ltb_spec (tip - (total + BlockOffset cfg)) (MinRollupTxn cfg));
    [| destruct (Z.ltb_spec (MaxRollupTxn cfg) (tip - (total + BlockOffset cfg)))];
    injection E as <- <- <-.
  all: split; [exists total; split; [by do 2 eexists | done] |]; try (by left); right.
  all: split; [lia |]; exists tip; split; [lia | done].
Qed.

(** The documented behaviour of [RawTransact]: the transaction has the nonce
    of the options, when one is set, and the given calldata. *)
Definition RawTransact_law : Prop :=
  ∀ o d tx, produced (RawTransact o d) tx →
    tx_Data tx = d ∧ (∀ n, o_Nonce o = Some n → tx_Nonce tx = n).

Lemma st_catch_produced {A} (m : st W A) h w a w' :
  st_catch m h w = (Ok a, w') → produced m a ∨ ∃ e, produced (h e) a.
Proof.
  unfold st_catch. destruct (m w) as [[a' | e |] w1] eqn:E; intros E'; simplify_eq.
  - left. by exists w, w'.
  - right. exists e. by exists w1, w'.
Qed.

Lemma CraftBatchTx_inv start end_ nonce w tx w' :
  RawTransact_law → CraftBatchTx start end_ nonce w = (Ok (Some tx), w') →
  produced (craft_calldata start end_) (tx_Data tx) ∧ tx_Nonce tx = nonce.
Proof.
  intros Hlaw E. unfold CraftBatchTx in E. apply st_bind_Ok in E as (calldata & w1 & E1 & E).
  apply st_bind_Ok in E as (opts & w2 & E2 & E). apply st_bind_Ok in E as (tx' & w3 & E3 & E).
  injection E as -> ->.
  assert (∃ g, produced (RawTransact (craft_opts nonce g opts) calldata) tx) as [g Hp].
  { apply st_catch_produced in E3 as [Hp | [e Hp]]; [by eexists |].
    destruct (IsMaxPriorityFeePerGasNotFoundError e); [by eexists |].
    destruct Hp as (w4 & w5 & Hp). discriminate Hp. }
  destruct (Hlaw _ _ _ Hp) as [<- Hn]. split; [by exists w, w1 | by apply Hn].
Qed.

(** Element [i] of the batch comes from block [start + i]. *)
Definition from_blocks (start : Z) (els : list BatchElement) : Prop :=
  ∀ i el, els !! i = Some el →
    ∃ block, produced (BlockByNumber (start + Z.of_nat i)) block ∧ BatchElementFromBlock block = Ok el.

Lemma fetch_elements_ok n i w els w' :
  fetch_elements n i w = (Ok els, w') → length els = n ∧ from_blocks i els.
Proof.
  revert i w els. induction n as [| n IH]; intros i w els E; cbn in E.
  { injection E as <- <-. split; [done |]. by intros []. }
  apply st_bind_Ok in E as (block & w1 & E1 & E). apply st_bind_Ok in E as (el & w2 & E2 & E).
  apply st_bind_Ok in E as (rest & w3 & E3 & E). injection E as <- <-. injection E2 as E2 <-.
  destruct (IH _ _ _ E3) as [Hl Hr]. split; [cbn; by rewrite Hl |].
  intros [| j] el'; cbn; intros Hj.
  - simplify_eq. exists block. rewrite Z.add_0_r. split; [by exists w, w1 | done].
  - destruct (Hr j el' Hj) as (b & ? & ?). exists b. split; [| done].
    by replace (i + Z.of_nat (S j)) with (i + 1 + Z.of_nat j) by lia.
Qed.

Lemma BatchElementFromBlock_inv block el :
  BatchElementFromBlock block = Ok el → el_Timestamp el = b_Time block ∧ 0 <= el_BlockNumber el.
Proof.
  unfold BatchElementFromBlock. destruct (b_Transactions block) as [| tx [| ? ?]]; try done.
  destruct (L1BlockNumber (meta tx)) as [n |]; [| done]. intros E.
  apply outcome_bind_Ok in E as (c & _ & E). injection E as <-. cbn.
  split; [done |]. apply wrap_range. lia.
Qed.

(** The calldata lets the contract recover the kind, the timestamp and the
    block number of every element. *)
Lemma craft_calldata_describes start end_ calldata :
  (∀ i b, produced (BlockByNumber i) b → 0 < b_Time b) →
  cfg_BatchType cfg = BatchTypeLegacy ∨ cfg_BatchType cfg = BatchTypeZlib →
  end_ - start < 2 ^ 63 → produced (craft_calldata start end_) calldata →
  ∃ els contexts args r,
    length els = Z.to_nat (end_ - start) ∧ from_blocks start els ∧
    calldata = appendSequencerBatchID ++ args ∧
    read_header (bytes_NewReader args) =
      (Ok (u64 (big_Uint64 start - BlockOffset cfg), len els, cfg_BatchType cfg, contexts), r) ∧
    concat r = [] ∧ Forall2 describes (concat (map expand contexts)) els.
Proof.
  intros Htime Hbt Hlen (w & w' & E). unfold craft_calldata in E.
  apply st_bind_Ok in E as (els & w1 & E1 & E). apply st_bind_Ok in E as (p & w2 & E2 & E).
  apply st_bind_Ok in E as (args & w3 & E3 & E). injection E as <- <-.
  injection E2 as E2 <-. injection E3 as E3 <-.
  destruct (fetch_elements_ok _ _ _ _ _ E1) as [Hl Hfrom].
  assert (Hels : len els < 2 ^ 63) by (unfold len; lia).
  destruct (GenSequencerBatchParams_spec (big_Uint64 start) (BlockOffset cfg) els)
    as (p' & E2' & Ht & Hs & _ & Hd & _ & Hb); [lia |].
  assert (p' = p) as -> by congruence.
  assert (Hel : Forall (λ c, 0 < Timestamp c ∧ context_nonneg c) (Contexts p)).
  { eapply Forall_impl; [exact Hb |]. intros c (H1 & H2 & _ & el & Hel & H3 & H4).
    apply list_elem_of_lookup in Hel as [i Hi]. destruct (Hfrom i el Hi) as (b & Hpb & Hfb).
    destruct (BatchElementFromBlock_inv _ _ Hfb) as [Ht' Hn]. specialize (Htime _ _ Hpb).
    unfold context_nonneg. lia. }
  pose proof (contexts_le_elements _ _ Hb) as Hle. rewrite (Forall2_length _ _ _ Hd) in Hle.
  destruct (WriteNoTxn_inv (cfg_BatchType cfg) p args) as [Hp ->]; try done.
  { rewrite Hs. apply wrap_range. lia. }
  { rewrite Ht. apply len_nonneg. }
  { eapply Forall_impl; [exact Hel |]. by intros c [_ ?]. }
  { unfold len in *. lia. }
  destruct (read_header_at (cfg_BatchType cfg) p [] (bytes_NewReader (header_bytes (cfg_BatchType cfg) p)))
    as (r & _ & Hr & E); [done | unfold single; cbn; lia | done | |].
  { destruct Hbt as [-> | ->]; [left | by right]. split; [done |].
    destruct (Contexts p); [done |]. apply Forall_cons in Hel as [[? _] _]. lia. }
  exists els, (Contexts p), (header_bytes (cfg_BatchType cfg) p), r. rewrite E, Hs, Ht. done.
Qed.


Lemma UpdateGasPrice_inv tx tx' :
  RawTransact_law → produced (UpdateGasPrice tx) tx' →
  tx_Nonce tx' = tx_Nonce tx ∧ tx_Data tx' = tx_Data tx.
Proof.
  intros Hlaw (w & w' & E). unfold UpdateGasPrice in E.
  apply st_bind_Ok in E as (tip & w1 & E1 & E). apply st_bind_Ok in E as (h & w2 & E2 & E).
  apply st_bind_Ok in E as (gas & w3 & E3 & E). apply st_bind_Ok in E as (opts & w4 & E4 & E).
  apply (λ H, Hlaw _ _ _ (ex_intro _ w4 (ex_intro _ w' H))) in E as [Hd Hn].
  split; [by apply Hn | done].
Qed.

(** The sequencer driver keeps the promises of the interface. *)
Definition SequencerDriver `{TxManager W Tx} (SignTx : DynamicFeeTx → outcome Tx) (cancel : st W ())
    (Hlaw : RawTransact_law) : Driver W Tx tx_Nonce tx_Data := {|
  d_WalletAddr := walletAddr;
  d_ClearPendingTx := ClearPendingTx l1Client SignTx cancel walletAddr;
  d_GetBatchBlockRange := GetBatchBlockRange;
  d_CraftBatchTx := CraftBatchTx;
  d_UpdateGasPrice := UpdateGasPrice;
  d_SendTransaction := SendTransaction l1Client;
  d_Craft_nonce start end_ nonce tx H :=
    match H with ex_intro _ w (ex_intro _ w' E) => proj2 (CraftBatchTx_inv start end_ nonce w tx w' Hlaw E) end;
  d_Update_same tx tx' H := UpdateGasPrice_inv tx tx' Hlaw H;
|}.

End SeqDriver.

(** ** Theorems about the service *)

Section ServiceFacts.
  Context {W Tx : Type} {tx_Nonce : Tx → Z} {tx_Data : Tx → list byte}.
  Context `{TM : TxManager W Tx} `{D : Driver W Tx tx_Nonce tx_Data} (l1Client : L1Client W Tx).
  Context (EncodeRLP : Tx → outcome (list byte)).

(** A batch was published and its receipt arrived: the transaction carries
    the nonce of the wallet and the calldata crafted for the range. *)
Definition batch_published : Prop :=
  ∃ start end_ nonce tx tx',
    produced d_GetBatchBlockRange (start, end_) ∧ start ≠ end_ ∧
    produced (NonceAt l1Client d_WalletAddr) nonce ∧
    produced (d_CraftBatchTx start end_ nonce) (Some tx) ∧
    tx_Nonce tx' = nonce ∧ tx_Data tx' = tx_Data tx ∧
    produced (d_SendTransaction tx') tt.

Lemma on_world_Ok {A} (m : st W A) s a s' :
  on_world m s = (Ok a, s') → produced m a ∧ metrics s' = metrics s.
Proof.
  unfold on_world. destruct (m (world s)) as [r w] eqn:E. intros [= -> <-].
  split; [by exists (world s), w | done].
Qed.

Definition counters (s : service W) : Z * Z := (BatchesSubmitted (metrics s), FailedSubmissions (metrics s)).

(** The counters after [m], which does not count. *)
Definition silent {A} (m : st (service W) A) : Prop := ∀ s, counters (m s).2 = counters s.

Lemma silent_on_world {A} (m : st W A) : silent (on_world m).
Proof. intros s. unfold on_world. by destruct (m (world s)). Qed.

Lemma silent_on_metrics f :
  (∀ m, BatchesSubmitted (f m) = BatchesSubmitted m ∧ FailedSubmissions (f m) = FailedSubmissions m) →
  silent (on_metrics f).
Proof. intros Hf s. unfold counters. cbn. by destruct (Hf (metrics s)) as [-> ->]. Qed.

(** What a round may do to the counters. *)
Definition round_ok (s s' : service W) (published : Prop) : Prop :=
  counters s' = counters s ∨
  counters s' = (BatchesSubmitted (metrics s), FailedSubmissions (metrics s) + 1) ∨
  (counters s' = (BatchesSubmitted (metrics s) + 1, FailedSubmissions (metrics s)) ∧ published).

Lemma silent_bind {A B} (m : st (service W) A) (f : A → st (service W) B) s P :
  silent m → (∀ a s1, m s = (Ok a, s1) → round_ok s1 (f a s1).2 P) → round_ok s ((m ≫= f) s).2 P.
Proof.
  intros Hm Hf. specialize (Hm s). unfold mbind, st_bind.
  destruct (m s) as [[a | e | p] s1] eqn:E; cbn in *; [| by left | by left].
  specialize (Hf a s1 eq_refl). unfold round_ok in *. unfold counters in *. by injection Hm as <- <-.
Qed.

Lemma submission_result_ok res s (P : Prop) :
  (∀ r, res = (Some r, None) → P) → round_ok s (submission_result res s).2 P.
Proof.
  intros HP. unfold submission_result. apply silent_bind.
  { apply silent_on_metrics. intros m. by destruct res.1. }
  intros _ s1 _. destruct res as [[r |] [e |]]; cbn; unfold round_ok, counters; cbn; eauto.
Qed.

Theorem tick_counts s :
  round_ok s (tick l1Client EncodeRLP s).2 batch_published ∧
  ∀ e, (tick l1Client EncodeRLP s).1 ≠ Err e.
Proof.
  unfold tick. enough (Hb : round_ok s (tick_body l1Client EncodeRLP s).2 batch_published).
  { unfold st_catch. by destruct (tick_body _ _ s) as [[[] | e |] s1]. }
  unfold tick_body.
  apply silent_bind; [apply silent_on_world |]. intros balance s1 _.
  apply silent_bind; [by apply silent_on_metrics |]. intros _ s2 _.
  apply silent_bind; [apply silent_on_world |]. intros [start end_] s3 [Hr _]%on_world_Ok.
  destruct (Z.eqb_spec start end_) as [| Hne]; [by left |].
  apply silent_bind; [apply silent_on_world |]. intros nonce s4 [Hn _]%on_world_Ok.
  apply silent_bind; [apply silent_on_world |]. intros [tx |] s5 [Hc _]%on_world_Ok; [| by left].
  apply silent_bind; [by intros ? |]. intros txBuf s6 _.
  apply silent_bind; [by apply silent_on_metrics |]. intros _ s7 _.
  apply silent_bind; [apply silent_on_world |]. intros res s8 [(w & w' & Hs) _]%on_world_Ok.
  apply submission_result_ok. intros r ->.
  destruct (Send_law _ _ _ _ _ _ Hs) as [(tx' & Hu & Hp) _].
  destruct (d_Update_same _ _ Hu) as [Hn' Hd'].
  exists start, end_, nonce, tx, tx'. rewrite Hn', (d_Craft_nonce _ _ _ _ Hc). done.
Qed.

End ServiceFacts.

(** ** Theorems about clearing *)

Section ClearFacts.
  Context {W Tx : Type} (l1Client : L1Client W Tx).
  Context (SignTx : DynamicFeeTx → outcome Tx) (cancel : st W ()) (walletAddr : Address).

(** What the clearing transaction is: zero value to the wallet itself, at the
    nonce the node reported, with the computed fee cap. *)
Definition is_clearing (nonce : Z) (tx : Tx) : Prop :=
  ∃ gasTipCap head gas,
    (produced (SuggestGasTipCap l1Client) gasTipCap ∨ gasTipCap = FallbackGasTipCap) ∧
    produced (HeaderByNumber l1Client) head ∧
    SignTx {| df_To := walletAddr; df_Nonce := nonce; df_Gas := gas;
              df_GasFeeCap := gasTipCap + 2 * BaseFee head; df_GasTipCap := gasTipCap;
              df_Value := 0; df_Data := [] |} = Ok tx.

Lemma SignClearingTx_inv nonce tx :
  produced (SignClearingTx l1Client SignTx walletAddr nonce) tx → is_clearing nonce tx.
Proof.
  intros (w & w' & E). unfold SignClearingTx in E.
  apply st_bind_Ok in E as (tip & w1 & E1 & E). apply st_bind_Ok in E as (head & w2 & E2 & E).
  apply st_bind_Ok in E as (gas & w3 & E3 & E). injection E as E <-.
  exists tip, head, gas. split_and!.
  - unfold suggest_tip, st_catch in E1.
    destruct (SuggestGasTipCap l1Client w) as [[t | e |] w4] eqn:Et; [| | done].
    + injection E1 as <- <-. left. by exists w, w4.
    + destruct (negb _); [done |]. injection E1 as <- <-. by right.
  - by exists w1, w2.
  - rewrite <- E. unfold CraftClearingTx, CalcGasFeeCap. do 2 f_equal. lia.
Qed.

Lemma clearing_sendTx_inv tx :
  produced (clearing_sendTx l1Client cancel tx) tt → produced (SendTransaction l1Client tx) tt.
Proof.
  intros (w & w' & E). unfold clearing_sendTx, st_catch in E.
  destruct (SendTransaction l1Client tx w) as [[[] | e |] w1] eqn:Es; [by exists w, w1 | | done].
  destruct (str_contains _ _); [| done].
  apply st_bind_Ok in E as (? & ? & _ & E). done.
Qed.

(** [Send] as [ClearPendingTx] calls it, after the nonce was read. *)
Definition clearing_Send `{TM : TxManager W Tx} (w : W) (o : outcome (option Receipt * option error)) : Prop :=
  ∃ nonce w1 w2, NonceAt l1Client walletAddr w = (Ok nonce, w1) ∧
    Send (SignClearingTx l1Client SignTx walletAddr nonce) (clearing_sendTx l1Client cancel) w1 = (o, w2).

Theorem ClearPendingTx_spec `{TM : TxManager W Tx} w :
  match (ClearPendingTx l1Client SignTx cancel walletAddr w).1 with
  | Ok _ => ∃ nonce tx, produced (NonceAt l1Client walletAddr) nonce ∧
      is_clearing nonce tx ∧ produced (SendTransaction l1Client tx) tt
  | Err e => (∃ w', NonceAt l1Client walletAddr w = (Err e, w')) ∨
      ∃ r err, clearing_Send w (Ok (r, Some err)) ∧
        e = if bool_decide (err = context_Canceled) then ErrClearPendingRetry else err
  | Panic msg => (∃ w', NonceAt l1Client walletAddr w = (Panic msg, w')) ∨ clearing_Send w (Panic msg)
  end.
Proof.
  unfold ClearPendingTx, clearing_Send. cbv [mbind st_bind].
  destruct (NonceAt l1Client walletAddr w) as [[nonce | e | msg] w1] eqn:En; cbn; [| eauto | eauto].
  unfold deferred. pose proof (Send_pair (SignClearingTx l1Client SignTx walletAddr nonce)
    (clearing_sendTx l1Client cancel) w1) as Hpair.
  destruct (Send _ _ w1) as [[[r err] | e | msg] w2] eqn:Es; [| by exfalso; apply (Hpair e) | by cbn; eauto 10].
  pose proof (Send_law _ _ _ _ _ _ Es) as Hl. destruct err as [e |].
  - assert (clearing_result (r, Some e) w2 =
      (Err (if bool_decide (e = context_Canceled) then ErrClearPendingRetry else e), w2)) as ->.
    { destruct r; cbn; by case_bool_decide. }
    cbn. right. exists r, e. by eauto 10.
  - destruct r as [r |]; [| done]. destruct Hl as [(tx & Hu & Hs) _]. exists nonce, tx.
    split; [by exists w, w1 |]. eauto using SignClearingTx_inv, clearing_sendTx_inv.
Qed.

(** The manager of the service, with the backend and the scheduler of a run. *)
Context {Hash : Type} `{Countable Hash} (tx_Hash : Tx → Hash).
Context (TransactionReceipt : Hash → W → option Receipt * option error * W) (BlockNumber : st W Z).
Context (parent_err : W → option error).

Lemma Send_update_fails u snd w w' e (k n : Z) :
  k ≠ 0 → u w = (Err e, w') → update_ignored e = false →
  Send_sim tx_Hash TransactionReceipt BlockNumber parent_err u snd n k [CGo 0; CDone; CCancel; CJoin] w
    = (Ok (None, Some context_Canceled), w').
Proof.
  intros Hk Hu He. unfold Send_sim, send_init, SendState.NewSendState. rewrite (proj2 (Z.eqb_neq k 0) Hk).
  cbv [mbind st_bind st_lift outcome_bind mret outcome_ret sim_result]. cbn. rewrite Hu. cbn. rewrite He. done.
Qed.

Theorem ClearPendingTx_retry_without_confirmation w nonce e (k n : Z) :
  k ≠ 0 →
  (∀ w, (SuggestGasTipCap l1Client w).1 = Err e) → update_ignored e = false →
  IsMaxPriorityFeePerGasNotFoundError e = false →
  (NonceAt l1Client walletAddr w).1 = Ok nonce →
  (@ClearPendingTx W Tx
     (SimpleTxManager tx_Hash TransactionReceipt BlockNumber parent_err n k
        (λ _, [CGo 0; CDone; CCancel; CJoin]))
     l1Client SignTx cancel walletAddr w).1 = Err ErrClearPendingRetry.
Proof.
  intros Hk Ht Hu Hm Hn. unfold ClearPendingTx. cbv [mbind st_bind].
  destruct (NonceAt l1Client walletAddr w) as [o w1]. cbn in Hn. subst o. unfold deferred.
  assert (∃ w2, SignClearingTx l1Client SignTx walletAddr nonce w1 = (Err e, w2)) as [w2 E].
  { unfold SignClearingTx. cbv [mbind st_bind]. unfold suggest_tip, st_catch. specialize (Ht w1).
    destruct (SuggestGasTipCap l1Client w1) as [o w2]. cbn in Ht. subst o. rewrite Hm. by exists w2. }
  unfold Send, SimpleTxManager. rewrite (Send_update_fails _ _ _ _ _ k n Hk E Hu).
  cbn. by rewrite bool_decide_eq_true_2.
Qed.

End ClearFacts.

(** ** Examples

    A world that never changes: a chain of blocks with one queue transaction
    each, and transactions that are a nonce and data. *)
Module Example.

Definition tx : Type := Z * list byte.

Definition l1 (tip : outcome Z) : L1Client () tx :=
  {| BalanceAt := λ _, mret 0; NonceAt := λ _, mret 4; SuggestGasTipCap := st_lift tip;
     HeaderByNumber := mret {| h_Number := 100; BaseFee := 7 |}; EstimateGas := λ _, mret 21000;
     SendTransaction := λ _, mret tt |}.

Definition queue_tx : Transaction :=
  {| data := data example_tx; meta := NewTransactionMeta (Some 50) 1650000000 None QueueOriginL1ToL2 (Some 0) (Some 0) None;
     tx_hash := None; tx_size := None; tx_from := None |}.

Definition block_at (i : Z) : st () Block := mret {| b_Number := i; b_Time := 1650000000; b_Transactions := [queue_tx] |}.

Definition config : SeqConfig :=
  {| BlockOffset := 1; CTCAddr := []; DaUpgradeBlock := 1000; ChainID := Some 5000; EnableSequencerHsm := false;
     SequencerHsmAddress := []; cfg_BatchType := BatchTypeZlib; MaxRollupTxn := 3; MinRollupTxn := 1 |}.

Definition keyed (chainID : option Z) : outcome TransactOpts :=
  NewEthereumTransactorrWithChainID [] chainID.

Definition raw_transact (o : TransactOpts) (d : list byte) : st () tx := mret (default 0 (o_Nonce o), d).

Lemma GetBatchBlockRange_bounds_witness :
  (∃ total, produced (mret 6 : st () Z) total ∧ 7 = total + 1) ∧
  (10 = 7 ∨ 1 <= 10 - 7 <= 3 ∧
     ∃ tip, 10 <= tip ∧ ((∃ h, produced (HeaderByNumber (l1 (Ok 1))) h ∧ h_Number h + 1 = tip) ∨
                         produced (mret 0 : st () Z) tip)).
Proof.
  refine (GetBatchBlockRange_bounds (HeaderByNumber (l1 (Ok 1))) (mret 6) (mret 0) config tt 7 10 tt _ _ _).
  - simpl. lia.
  - simpl. lia.
  - vm_compute. reflexivity.
Defined.


Definition tip_error : error := ErrNew "connection refused".

Lemma ClearPendingTx_retry_without_confirmation_witness :
  (@ClearPendingTx () tx
     (SimpleTxManager fst (λ _ w, (None, None, w)) (mret 0) (λ _, None) 10 3 (λ _, [CGo 0; CDone; CCancel; CJoin]))
     (l1 (Err tip_error)) (λ d, Ok (df_Nonce d, df_Data d)) (mret tt) [] tt).1 = Err ErrClearPendingRetry.
Proof.
  refine (ClearPendingTx_retry_without_confirmation (l1 (Err tip_error)) (λ d, Ok (df_Nonce d, df_Data d))
    (mret tt) [] fst (λ _ w, (None, None, w)) (mret 0) (λ _, None) tt 4 tip_error 3 10 _ _ _ _ _).
  - lia.
  - reflexivity.
  - vm_compute. reflexivity.
  - vm_compute. reflexivity.
  - reflexivity.
Defined.

End Example.
