(* ===== verification/RollupIndexes.v ===== *)
(** The rollup indexes in the database,
    src/l2geth/core/rawdb/rollup_indexes.go.

    Five indexes are stored under five keys, each as its big-endian bytes
    without leading zeroes, zero as one zero byte.  [indexes_of] is the
    abstract store: the writers refine the update of one index. *)

From S2P Require Import Prelude.

(** The keys, rawdb/schema.go. *)
Definition headIndexKey : string := "LastIndex".
Definition headQueueIndexKey : string := "LastQueueIndex".
Definition headVerifiedIndexKey : string := "LastVerifiedIndex".
Definition headBatchKey : string := "LastBatch".
Definition eigenBatchKey : string := "EigenBatch".

Abbreviation database := (gmap string (list byte)).

(** The body all the readers share: a missing or empty value is no index. *)
Definition read_index (key : string) (db : database) : option Z :=
  match default [] (db !! key) with
  | [] => None
  | data => Some (u64 (be_val data))
  end.

Definition index_bytes (index : Z) : list byte :=
  if index =? 0 then [Byte.x00] else big_Bytes index.

Definition write_index (key : string) (index : Z) (db : database) : database :=
  <[key := index_bytes index]> db.

Definition ReadHeadIndex : database → option Z := read_index headIndexKey.
Definition WriteHeadIndex : Z → database → database := write_index headIndexKey.
Definition ReadHeadQueueIndex : database → option Z := read_index headQueueIndexKey.
Definition WriteHeadQueueIndex : Z → database → database := write_index headQueueIndexKey.
Definition ReadHeadVerifiedIndex : database → option Z := read_index headVerifiedIndexKey.
Definition WriteHeadVerifiedIndex : Z → database → database := write_index headVerifiedIndexKey.
Definition ReadHeadBatchIndex : database → option Z := read_index headBatchKey.
Definition WriteHeadBatchIndex : Z → database → database := write_index headBatchKey.
Definition ReadLatestEigenBatchIndex : database → option Z := read_index eigenBatchKey.
Definition WriteLatestEigenIndex : Z → database → database := write_index eigenBatchKey.
Definition ReadEigenBatchIndex : database → option Z := read_index eigenBatchKey.

(** ** The abstract store *)

Record indexes := {
  ix_head : option Z;
  ix_queue : option Z;
  ix_verified : option Z;
  ix_batch : option Z;
  ix_eigen : option Z;
}.

Definition indexes_of (db : database) : indexes :=
  {| ix_head := ReadHeadIndex db; ix_queue := ReadHeadQueueIndex db;
     ix_verified := ReadHeadVerifiedIndex db; ix_batch := ReadHeadBatchIndex db;
     ix_eigen := ReadLatestEigenBatchIndex db |}.

Lemma index_bytes_nonempty i : 0 <= i → index_bytes i ≠ [].
Proof.
  intros Hi. unfold index_bytes. destruct (Z.eqb_spec i 0); [done |]. intros E.
  apply (f_equal length) in E. rewrite length_big_Bytes in E. pose proof (bytelen_pos i ltac:(lia)).
  cbn in E. lia.
Qed.

Lemma index_bytes_val i : 0 <= i → be_val (index_bytes i) = i.
Proof.
  intros Hi. unfold index_bytes. destruct (Z.eqb_spec i 0) as [-> |]; [done |]. by apply big_SetBytes_Bytes.
Qed.

Lemma read_write_index key i db : is_u64 i → read_index key (write_index key i db) = Some i.
Proof.
  intros Hi. unfold read_index, write_index. rewrite lookup_insert_eq. change (default [] (Some (index_bytes i))) with (index_bytes i).
  pose proof (index_bytes_nonempty i ltac:(lia)). destruct (index_bytes i) eqn:E; [done |].
  rewrite <- E, index_bytes_val by lia. by rewrite wrap_small.
Qed.

Lemma read_write_other key key' i db : key ≠ key' → read_index key (write_index key' i db) = read_index key db.
Proof. intros Hne. unfold read_index, write_index. by rewrite lookup_insert_ne by congruence. Qed.

#[export] Hint Rewrite read_write_index using done : go.

Theorem writers_refine db i :
  is_u64 i →
  let ix := indexes_of db in
  indexes_of (WriteHeadIndex i db) =
    {| ix_head := Some i; ix_queue := ix_queue ix; ix_verified := ix_verified ix;
       ix_batch := ix_batch ix; ix_eigen := ix_eigen ix |} ∧
  indexes_of (WriteHeadQueueIndex i db) =
    {| ix_head := ix_head ix; ix_queue := Some i; ix_verified := ix_verified ix;
       ix_batch := ix_batch ix; ix_eigen := ix_eigen ix |} ∧
  indexes_of (WriteHeadVerifiedIndex i db) =
    {| ix_head := ix_head ix; ix_queue := ix_queue ix; ix_verified := Some i;
       ix_batch := ix_batch ix; ix_eigen := ix_eigen ix |} ∧
  indexes_of (WriteHeadBatchIndex i db) =
    {| ix_head := ix_head ix; ix_queue := ix_queue ix; ix_verified := ix_verified ix;
       ix_batch := Some i; ix_eigen := ix_eigen ix |} ∧
  indexes_of (WriteLatestEigenIndex i db) =
    {| ix_head := ix_head ix; ix_queue := ix_queue ix; ix_verified := ix_verified ix;
       ix_batch := ix_batch ix; ix_eigen := Some i |}.
Proof.
  intros Hi. cbv zeta.
  unfold indexes_of, ReadHeadIndex, ReadHeadQueueIndex, ReadHeadVerifiedIndex, ReadHeadBatchIndex,
    ReadLatestEigenBatchIndex, WriteHeadIndex, WriteHeadQueueIndex, WriteHeadVerifiedIndex,
    WriteHeadBatchIndex, WriteLatestEigenIndex. cbn [ix_head ix_queue ix_verified ix_batch ix_eigen].
  split_and!; rewrite read_write_index by done; by rewrite !read_write_other by done.
Qed.

Lemma writers_refine_witness :
  indexes_of (WriteHeadQueueIndex 7 (WriteHeadIndex 3 ∅)) =
    {| ix_head := Some 3; ix_queue := Some 7; ix_verified := None; ix_batch := None; ix_eigen := None |}.
Proof.
  rewrite (proj1 (proj2 (writers_refine (WriteHeadIndex 3 ∅) 7 ltac:(lia)))). vm_compute. reflexivity.
Defined.
