(* ===== verification/SyncService.v ===== *)
(** The sync service of l2geth, src/l2geth/rollup/sync_service.go, with the
    backends and the comparison of transactions of src/l2geth/rollup/types.go.

    The service applies transactions to the local chain one block each, and
    keeps in the database how far it has come.  The chain is the list of its
    blocks, genesis first, so that the block of number [n] is at position [n].
    Senders are recovered from the signature; the cache of [types.Sender] holds
    the same address (see [Sender_cached]).
    The remote indexer, the clock, the block producer and the executor are
    computations on a state [W]. *)

From S2P Require Import Prelude TxMeta Transaction BigFloat Fees RollupIndexes.

(** ** Backends, types.go *)

Definition Backend := Z.
Definition BackendL1 : Backend := 0.
Definition BackendL2 : Backend := 1.
Definition BackendEigen : Backend := 2.

Definition Backend_String (s : Backend) : string :=
  if s =? BackendL1 then "l1"
  else if s =? BackendL2 then "l2"
  else if s =? BackendEigen then "da"
  else "".

Definition NewBackend (typ : string) : outcome Backend :=
  if String.eqb typ "l1" then Ok BackendL1
  else if String.eqb typ "l2" then Ok BackendL2
  else if String.eqb typ "da" then Ok BackendEigen
  else Err (ErrNew ("Unknown Backend: " ++ typ)).

Definition zero_address : list byte := replicate 20 Byte.x00.

Definition bytes_Equal (a b : list byte) : bool := bool_decide (a = b).

Definition isCtcTxEqual (a b : Transaction) : bool :=
  let to_ok :=
    match Recipient (data a), Recipient (data b) with
    | None, Some tb => bytes_Equal tb zero_address
    | Some _, None => false
    | Some ta, Some tb => bytes_Equal ta tb
    | None, None => true
    end in
  let sender_ok :=
    match L1MessageSender (meta a), L1MessageSender (meta b) with
    | None, None => true
    | Some sa, Some sb => bytes_Equal sa sb
    | _, _ => false
    end in
  to_ok && bytes_Equal (Payload (data a)) (Payload (data b)) && sender_ok &&
  (GasLimit (data a) =? GasLimit (data b)).

(** ** Errors *)

Definition errElementNotFound : error := ErrVar "rollup.errElementNotFound" "element not found".
Definition errShortRemoteTip : error := ErrVar "rollup.errShortRemoteTip" "unexpected remote less than tip".
Definition errZeroGasPriceTx : error := ErrVar "rollup.errZeroGasPriceTx" "cannot accept 0 gas price transaction".
Definition core_ErrInvalidSender : error := ErrVar "core.ErrInvalidSender" "invalid sender".
Definition core_ErrInsufficientFunds : error :=
  ErrVar "core.ErrInsufficientFunds" "insufficient funds for gas * price + value".

(** ** State *)

Record block := { bk_Transactions : list Transaction; bk_Root : list byte }.

(** What the service reads of a state database. *)
Record statedb := { gpo_slots : gpo_storage; GetBalance : list byte → Z }.

Record SyncConfig := {
  verifier : bool;
  mpcVerifier : bool;
  dtlEigenEnable : bool;
  backend : Backend;
  timestampRefreshThreshold : Z; (* nanoseconds *)
  enforceFees : bool;
  signer : Signer;
  feeThresholdUp : option bigfloat;
  feeThresholdDown : option bigfloat;
}.

Record SyncService (W : Type) := {
  world : W;
  db : database;
  bvm_timestamp : Z;
  bvm_blockNumber : Z;
  bc : list block;
  RollupGpo : RollupOracle;
  gasPriceOracleOwnerAddress : list byte;
  syncing : option bool;
}.
Arguments world {W}. Arguments db {W}. Arguments bvm_timestamp {W}. Arguments bvm_blockNumber {W}.
Arguments bc {W}. Arguments RollupGpo {W}. Arguments gasPriceOracleOwnerAddress {W}. Arguments syncing {W}.

(** The methods of the clients that the service calls. *)
Record EthContext := { ec_BlockNumber : Z; ec_Timestamp : Z }.
Record RollupStore := { DataStoreId : Z; UpgradeDataStoreId : Z }.

Record Clients (W : Type) := {
  GetEnqueue : Z → st W Transaction;
  GetLatestEnqueueIndex : st W (option Z);
  GetLastConfirmedEnqueue : st W Transaction;
  GetTransaction : Z → Backend → st W Transaction;
  GetRawTransaction_BatchIndex : Z → Backend → st W Z;
  GetLatestTransactionIndex : Backend → st W (option Z);
  GetStateRoot : Z → Backend → st W (list byte);
  GetEthContext : Z → st W EthContext;
  GetLatestEthContext : st W EthContext;
  GetTransactionBatch : Z → st W (list Transaction);
  GetLatestTransactionBatchIndex : st W (option Z);
  GetEigenLatestBatchIndex : st W (option Z);
  GetRollupStoreByRollupBatchIndex : Z → st W RollupStore;
  GetBatchTransactionByDataStoreId : Z → st W (list Transaction);
}.
Arguments GetEnqueue {W}. Arguments GetLatestEnqueueIndex {W}. Arguments GetLastConfirmedEnqueue {W}.
Arguments GetTransaction {W}. Arguments GetRawTransaction_BatchIndex {W}. Arguments GetLatestTransactionIndex {W}.
Arguments GetStateRoot {W}. Arguments GetEthContext {W}. Arguments GetLatestEthContext {W}.
Arguments GetTransactionBatch {W}. Arguments GetLatestTransactionBatchIndex {W}.
Arguments GetEigenLatestBatchIndex {W}. Arguments GetRollupStoreByRollupBatchIndex {W}.
Arguments GetBatchTransactionByDataStoreId {W}.

Section Setters.
  Context {W : Type}.

Definition set_world (w : W) (s : SyncService W) : SyncService W :=
  {| world := w; db := db s; bvm_timestamp := bvm_timestamp s; bvm_blockNumber := bvm_blockNumber s;
     bc := bc s; RollupGpo := RollupGpo s; gasPriceOracleOwnerAddress := gasPriceOracleOwnerAddress s;
     syncing := syncing s |}.

Definition set_db (d : database) (s : SyncService W) : SyncService W :=
  {| world := world s; db := d; bvm_timestamp := bvm_timestamp s; bvm_blockNumber := bvm_blockNumber s;
     bc := bc s; RollupGpo := RollupGpo s; gasPriceOracleOwnerAddress := gasPriceOracleOwnerAddress s;
     syncing := syncing s |}.

Definition set_timestamp (ts : Z) (s : SyncService W) : SyncService W :=
  {| world := world s; db := db s; bvm_timestamp := ts; bvm_blockNumber := bvm_blockNumber s;
     bc := bc s; RollupGpo := RollupGpo s; gasPriceOracleOwnerAddress := gasPriceOracleOwnerAddress s;
     syncing := syncing s |}.

Definition set_blockNumber (bn : Z) (s : SyncService W) : SyncService W :=
  {| world := world s; db := db s; bvm_timestamp := bvm_timestamp s; bvm_blockNumber := bn;
     bc := bc s; RollupGpo := RollupGpo s; gasPriceOracleOwnerAddress := gasPriceOracleOwnerAddress s;
     syncing := syncing s |}.

Definition set_bc (c : list block) (s : SyncService W) : SyncService W :=
  {| world := world s; db := db s; bvm_timestamp := bvm_timestamp s; bvm_blockNumber := bvm_blockNumber s;
     bc := c; RollupGpo := RollupGpo s; gasPriceOracleOwnerAddress := gasPriceOracleOwnerAddress s;
     syncing := syncing s |}.

Definition set_gpo (g : RollupOracle) (owner : list byte) (s : SyncService W) : SyncService W :=
  {| world := world s; db := db s; bvm_timestamp := bvm_timestamp s; bvm_blockNumber := bvm_blockNumber s;
     bc := bc s; RollupGpo := g; gasPriceOracleOwnerAddress := owner; syncing := syncing s |}.

Definition set_syncing (b : bool) (s : SyncService W) : SyncService W :=
  {| world := world s; db := db s; bvm_timestamp := bvm_timestamp s; bvm_blockNumber := bvm_blockNumber s;
     bc := bc s; RollupGpo := RollupGpo s; gasPriceOracleOwnerAddress := gasPriceOracleOwnerAddress s;
     syncing := Some b |}.

Abbreviation sync := (st (SyncService W)).

Definition remote {A} (m : st W A) : sync A := λ s, let '(r, w) := m (world s) in (r, set_world w s).

(** ** Accessors *)

Definition GetLatestL1Timestamp : sync Z := st_gets bvm_timestamp.
Definition GetLatestL1BlockNumber : sync Z := st_gets bvm_blockNumber.
Definition SetLatestL1Timestamp (ts : Z) : sync () := st_modify (set_timestamp ts).
Definition SetLatestL1BlockNumber (bn : Z) : sync () := st_modify (set_blockNumber bn).

(** The next index after an optional latest one. *)
Definition next_index (latest : option Z) : Z := match latest with None => 0 | Some i => u64 (i + 1) end.

(** The writers do nothing for a nil index. *)
Definition set_index (write : Z → database → database) (index : option Z) : sync () :=
  match index with None => mret tt | Some i => st_modify (λ s, set_db (write i (db s)) s) end.

Definition latest_index (s : SyncService W) : option Z := ReadHeadIndex (db s).
Definition latest_enqueue (s : SyncService W) : option Z := ReadHeadQueueIndex (db s).

Definition GetLatestIndex : sync (option Z) := st_gets latest_index.
Definition GetNextIndex : sync Z := st_gets (λ s, next_index (latest_index s)).
Definition SetLatestIndex : option Z → sync () := set_index WriteHeadIndex.
Definition GetLatestEnqueueIndex' : sync (option Z) := st_gets latest_enqueue.
Definition GetNextEnqueueIndex : sync Z := st_gets (λ s, next_index (latest_enqueue s)).
Definition SetLatestEnqueueIndex : option Z → sync () := set_index WriteHeadQueueIndex.
Definition GetLatestVerifiedIndex : sync (option Z) := st_gets (λ s, ReadHeadVerifiedIndex (db s)).
Definition GetNextVerifiedIndex : sync Z := st_gets (λ s, next_index (ReadHeadVerifiedIndex (db s))).
Definition SetLatestVerifiedIndex : option Z → sync () := set_index WriteHeadVerifiedIndex.
Definition GetLatestBatchIndex : sync (option Z) := st_gets (λ s, ReadHeadBatchIndex (db s)).
Definition GetNextBatchIndex : sync Z := st_gets (λ s, next_index (ReadHeadBatchIndex (db s))).
Definition SetLatestBatchIndex : option Z → sync () := set_index WriteHeadBatchIndex.
Definition GetLatestEigenBatchIndex : sync (option Z) := st_gets (λ s, ReadLatestEigenBatchIndex (db s)).
Definition GetEigenNextBatchIndex : sync Z := st_gets (λ s, next_index (ReadEigenBatchIndex (db s))).
Definition SetLatestEigenBatchIndex : option Z → sync () := set_index WriteLatestEigenIndex.

Definition setSyncStatus (status : bool) : sync () := st_modify (set_syncing status).
Definition IsSyncing (s : SyncService W) : bool := default false (syncing s).

(** [CurrentBlock] and its number; the chain always has its genesis block. *)
Definition CurrentBlock (s : SyncService W) : option block := last (bc s).
Definition current_number (s : SyncService W) : Z := len (bc s) - 1.
Definition GetBlockByNumber (n : Z) (s : SyncService W) : option block := bc s !! Z.to_nat n.

End Setters.

(** Everything around the service: its configuration, the clients, and
    - the clock, in nanoseconds;
    - the state at the tip of a chain;
    - the block producer, which returns the state root of the new block or the
      error it reports, and the executor, which computes a root only;
    - the rewinding of the chain;
    - cryptography, and the ABI decoding of relayed messages (target, sender
      and payload, zero values when it fails) and of rollback messages;
    - the conversion of floats out of range, and the transaction pool. *)
Class SyncEnv (W : Type) := {
  cfg : SyncConfig;
  client : Clients W;
  time_Now : st W Z;
  State : list block → outcome statedb;
  mine : list block → Transaction → st W (list byte);
  executor_applyTx : list block → Transaction → st W (list byte);
  bc_SetHead : Z → list block → outcome (list block);
  Keccak256 : list byte → list byte;
  Ecrecover : list byte → list byte → outcome (list byte);
  unpack_relay : option (list byte) → list byte * list byte * list byte;
  unpack_rollback : list byte → option Z;
  BvmRollbackAddress : list byte;
  uint64_out_of_range : Z → Z;
  txpool_ValidateTx : Transaction → st W ();
}.

Section Sync.
  Context {W : Type} {E : SyncEnv W}.

Abbreviation sync := (st (SyncService W)).

(** ** The gas price oracle cache *)

Definition readGPOStorageSlot (state : statedb) (slot : Z) : Z := gpo_slots state slot.

(** The owner first, then the ten values; nothing but [State] can fail. *)
Definition updateGasPriceOracleCache : sync () :=
  chain ← st_gets bc;
  state ← st_lift (State chain);
  st_modify (set_gpo (oracle_of (readGPOStorageSlot state))
    (BigToAddress (readGPOStorageSlot state L2GasPriceOracleOwnerSlot))).

Definition updateL1BlockNumber : sync () :=
  context ← st_wrap_err "Cannot get eth context" (remote (GetLatestEthContext client));
  latest ← GetLatestL1BlockNumber;
  if latest <? ec_BlockNumber context then SetLatestL1BlockNumber (ec_BlockNumber context) else mret tt.

(** ** Applying a transaction to the tip *)

Definition second : Z := 1000000000.

(** [now.Sub(t)] saturates. *)
Definition duration (d : Z) : Z := Z.max (- 2 ^ 63) (Z.min d (2 ^ 63 - 1)).

(** The timestamp for a transaction that needs one: the latest one, or the
    clock if it has moved on far enough. *)
Definition fresh_timestamp (ts now : Z) : Z :=
  if timestampRefreshThreshold cfg <? duration (now - to_int64 ts * second)
  then u64 (now / second) else u64 (to_int64 ts).

Definition shouldMalleateTimestamp (tx : Transaction) : bool :=
  negb (verifier cfg) && (QueueOrigin (meta tx) =? QueueOriginL1ToL2) &&
  bool_decide (Index (meta tx) = None).

Definition assign_timestamp (ts : Z) (tx : Transaction) : sync Transaction :=
  if (L1Timestamp (meta tx) =? 0) || shouldMalleateTimestamp tx then
    now ← remote time_Now;
    mret (SetL1Timestamp (fresh_timestamp ts now) tx)
  else mret tx.

Definition assign_blockNumber (bn : Z) (tx : Transaction) : sync Transaction :=
  match L1BlockNumber (meta tx) with
  | None => mret (SetL1BlockNumber bn tx)
  | Some n =>
      if bn <? big_Uint64 n then SetLatestL1BlockNumber (big_Uint64 n);; mret tx
      else mret tx
  end.

Definition assign_index (latest : option Z) (tx : Transaction) : Transaction :=
  match Index (meta tx) with
  | None => SetIndex (next_index latest) tx
  | Some _ => tx
  end.

(** The error paths put the timestamp, the block number and the index back. *)
Definition restore (ts bn : Z) (index : option Z) : sync () :=
  SetLatestL1Timestamp ts;; SetLatestL1BlockNumber bn;; SetLatestIndex index.

(** The feed and the wait for the new block or the error. *)
Definition add_to_chain (tx : Transaction) : sync () :=
  chain ← st_gets bc;
  root ← remote (mine chain tx);
  st_modify (set_bc (chain ++ [{| bk_Transactions := [tx]; bk_Root := root |}])).

(** [types.Sender] with its error dropped: the zero address then. *)
Definition sender_or_zero (tx : Transaction) : list byte :=
  match signer_Sender Keccak256 Ecrecover (signer cfg) tx with Ok a => a | _ => zero_address end.

(** After the block: the oracle's owner may have changed the oracle. *)
Definition refresh_cache (ts bn : Z) (index : option Z) (tx : Transaction) : sync () :=
  owner ← st_gets gasPriceOracleOwnerAddress;
  if bytes_Equal (sender_or_zero tx) owner then
    st_catch updateGasPriceOracleCache (λ e, restore ts bn index;; st_fail e)
  else mret tt.

(** The part after the timestamp is assigned; [ts] and [bn] are the latest
    values at entry. *)
Definition apply_stamped (ts bn : Z) (tx : Transaction) : sync () :=
  tx ← assign_blockNumber bn tx;
  (if ts <? L1Timestamp (meta tx) then SetLatestL1Timestamp (L1Timestamp (meta tx)) else mret tt);;
  index ← GetLatestIndex;
  let tx := assign_index index tx in
  SetLatestIndex (Index (meta tx));;
  SetLatestEnqueueIndex (QueueIndex (meta tx));;
  st_catch (add_to_chain tx) (λ e, restore ts bn index;; st_fail e);;
  refresh_cache ts bn index tx.

Definition applyTransactionToTip (tx : Transaction) : sync () :=
  if (QueueOrigin (meta tx) =? QueueOriginL1ToL2) && (L1Timestamp (meta tx) =? 0)
  then st_fail (ErrNew "Queue origin L1 to L2 transaction without a timestamp")
  else
    ts ← GetLatestL1Timestamp;
    bn ← GetLatestL1BlockNumber;
    tx ← assign_timestamp ts tx;
    apply_stamped ts bn tx.

(** ** Indexed, historical and batched transactions *)

Definition applyHistoricalTransaction (tx : Transaction) : sync () :=
  match Index (meta tx) with
  | None => st_fail (ErrNew "No index is found in applyHistoricalTransaction")
  | Some index =>
      b ← st_gets (GetBlockByNumber (u64 (index + 1)));
      match b with
      | None => st_fail (ErrNew "Block is not found")
      | Some b =>
          match bk_Transactions b with
          | [_] => mret tt (* a mismatch is only logged *)
          | _ => st_fail (ErrNew "More than one transaction found in block")
          end
      end
  end.

Definition applyIndexedTransaction (tx : Transaction) : sync () :=
  match Index (meta tx) with
  | None => st_fail (ErrNew "No index found in applyIndexedTransaction")
  | Some index =>
      next ← GetNextIndex;
      if index =? next then applyTransactionToTip tx
      else if index <? next then applyHistoricalTransaction tx
      else
        (if dtlEigenEnable cfg then
           latestEigenBatchIndex ← GetLatestEigenBatchIndex;
           match latestEigenBatchIndex with
           | None => st_panic "invalid memory address or nil pointer dereference"
           | Some i => SetLatestEigenBatchIndex (Some (u64 (i - 1)))
           end
         else mret tt);;
        st_fail (ErrNew "Received tx at a later index")
  end.

Definition applyBatchedTransaction (tx : Transaction) : sync () :=
  match Index (meta tx) with
  | None => st_fail (ErrNew "No index found on transaction")
  | Some index =>
      st_wrap_err "Cannot apply batched transaction" (applyIndexedTransaction tx);;
      SetLatestVerifiedIndex (Some index)
  end.

(** ** Rewinding the chain *)

Definition SetHead (number : Z) : sync () :=
  if number =? 0 then st_fail (ErrNew "cannot reset to genesis")
  else
    chain ← st_gets bc;
    chain ← st_lift (bc_SetHead number chain);
    st_modify (set_bc chain);;
    match last chain with
    | Some {| bk_Transactions := tx :: _ |} =>
        match L1BlockNumber (meta tx) with
        | None => st_fail (ErrNew "no L1BlockNumber found in transaction")
        | Some blockNumber =>
            SetLatestL1Timestamp (L1Timestamp (meta tx));;
            SetLatestL1BlockNumber (big_Uint64 blockNumber);;
            SetLatestIndex (Index (meta tx))
        end
    | _ => st_fail (ErrNew "no transactions found in block")
    end.

Definition tx_Hash (tx : Transaction) : list byte := rlpHash Keccak256 (txdata_value (data tx)).

Definition nil_deref {S A} : st S A := st_panic "invalid memory address or nil pointer dereference".

(** The transaction to replay for a block: an L1 to L2 transaction is fetched
    again and takes the place of a different one. *)
Definition replayed (b : block) : sync Transaction :=
  match bk_Transactions b with
  | [] => st_panic "index out of range [0] with length 0"
  | tx :: _ =>
      if QueueOrigin (meta tx) =? QueueOriginL1ToL2 then
        match QueueIndex (meta tx) with
        | None => nil_deref
        | Some qi =>
            enqueueTx ← remote (GetEnqueue client qi);
            if bytes_Equal (tx_Hash tx) (tx_Hash enqueueTx) then mret tx
            else
              match Index (meta tx), L1BlockNumber (meta tx) with
              | Some i, Some bn =>
                  mret (SetL1Timestamp (L1Timestamp (meta tx)) (SetL1BlockNumber (big_Uint64 bn) (SetIndex i enqueueTx)))
              | _, _ => nil_deref
              end
        end
      else mret tx
  end.

(** The transactions of the [n] blocks from number [i] on. *)
Fixpoint collect (n : nat) (i : Z) : sync (list Transaction) :=
  match n with
  | O => mret []
  | S n =>
      b ← st_gets (GetBlockByNumber i);
      match b with
      | None => nil_deref
      | Some b => tx ← replayed b; txs ← collect n (u64 (i + 1)); mret (tx :: txs)
      end
  end.

(** [log.Crit] ends the process. *)
Definition or_crit {A} (msg : string) (m : sync A) : sync A := st_catch m (λ _, st_panic msg).

Fixpoint replay (txs : list Transaction) : sync () :=
  match txs with
  | [] => mret tt
  | tx :: txs =>
      or_crit "rollback applyIndexedTransaction tx" (applyIndexedTransaction tx);; replay txs
  end.

Definition SchedulerRollback (start : Z) : sync () :=
  latest ← st_gets current_number;
  if latest <? start then st_fail (ErrNew "invalid block number")
  else
    txs ← collect (Z.to_nat (latest - start + 1)) start;
    or_crit "rollback setHead failed" (SetHead (u64 (start - 1)));;
    replay txs.

(** ** The entry point *)

(** A relayed message of the state commitment chain can ask for a rollback. *)
Definition check_rollback (tx : Transaction) : sync () :=
  if bool_decide (Index (meta tx) = None) && (QueueOrigin (meta tx) =? QueueOriginL1ToL2) then
    let '(target, sender, message) := unpack_relay (RawTransaction (meta tx)) in
    gpo ← st_gets RollupGpo;
    if bytes_Equal (sccAddress gpo) zero_address then st_panic "RollupGpo get sccAddress"
    else if bytes_Equal target BvmRollbackAddress && bytes_Equal sender (sccAddress gpo) then
      match unpack_rollback message with
      | None => mret tt
      | Some n => st_catch (SchedulerRollback (big_Uint64 n)) (λ _, mret tt)
      end
    else mret tt
  else mret tt.

Definition applyTransaction (tx : Transaction) : sync () :=
  check_rollback tx;;
  match Index (meta tx) with
  | Some _ => applyIndexedTransaction tx
  | None => applyTransactionToTip tx
  end.

(** ** Transactions that arrive over RPC *)

Definition verifyFee (tx : Transaction) : sync () :=
  gpo ← st_gets RollupGpo;
  fee ← st_wrap_err "invalid transaction" (st_lift (CalculateTotalFee uint64_out_of_range tx gpo));
  let cost := if Price (data tx) =? 0 then Amount (data tx) else Amount (data tx) + fee in
  chain ← st_gets bc;
  state ← st_lift (State chain);
  from ← st_catch (st_lift (signer_Sender Keccak256 Ecrecover (signer cfg) tx))
    (λ _, st_fail (ErrWrap "invalid transaction" core_ErrInvalidSender));
  if GetBalance state from <? cost then st_fail (ErrWrap "invalid transaction" core_ErrInsufficientFunds)
  else if Price (data tx) =? 0 then
    owner ← st_gets gasPriceOracleOwnerAddress;
    if bytes_Equal from owner then mret tt
    else if enforceFees cfg then st_fail errZeroGasPriceTx
    else mret tt
  else
    st_lift (PaysEnough uint64_out_of_range
      {| UserGasPrice := Some (Price (data tx)); ExpectedGasPrice := Some (l2GasPrice gpo);
         ThresholdUp := feeThresholdUp cfg; ThresholdDown := feeThresholdDown cfg |}).

Definition ValidateAndApplySequencerTransaction (tx : Transaction) : sync () :=
  if verifier cfg then st_fail (ErrNew "Verifier does not accept transactions out of band")
  else
    verifyFee tx;;
    (if negb (QueueOrigin (meta tx) =? QueueOriginSequencer)
     then st_fail (ErrNew "invalid transaction with queue origin") else mret tt);;
    st_wrap_err "invalid transaction" (remote (txpool_ValidateTx tx));;
    applyTransaction tx.

Definition IngestTransaction : Transaction → sync () := applyTransaction.

(** ** Syncing *)

Definition isAtTip (index : option Z) (get : st W (option Z)) : sync bool := λ s,
  match remote get s with
  | (Err e, s) =>
      if errors_Is e errElementNotFound then (Ok (bool_decide (index = None)), s) else (Err e, s)
  | (Panic m, s) => (Panic m, s)
  | (Ok latest, s) =>
      match latest, index with
      | None, None => (Ok true, s)
      | None, Some _ | Some _, None => (Ok false, s)
      | Some latest, Some index =>
          if latest =? index then (Ok true, s)
          else if latest <? index then (Err (ErrWrap "is at tip mismatch" errShortRemoteTip), s)
          else (Ok false, s)
      end
  end.

(** The rounds of [syncToTip]; without a stable remote there is no bound. *)
Fixpoint syncToTip (fuel : nat) (sync_ : sync (option Z)) (getTip : st W (option Z)) : sync () := λ s,
  match fuel with
  | O => (Panic "out of fuel", s)
  | S fuel =>
      match sync_ s with
      | (Err e, s) => if errors_Is e errElementNotFound then (Ok tt, s) else (Err e, s)
      | (Panic m, s) => (Panic m, s)
      | (Ok index, s) =>
          match isAtTip index getTip s with
          | (Ok true, s) => (Ok tt, s)
          | (Ok false, s) => syncToTip fuel sync_ getTip s
          | (Err e, s) => (Err e, s)
          | (Panic m, s) => (Panic m, s)
          end
      end
  end.

Definition sync_range (getLatest : st W (option Z)) (getNext : sync Z) (syncer : Z → Z → sync ())
    : sync (option Z) :=
  latestIndex ← st_wrap_err "Cannot sync" (remote getLatest);
  match latestIndex with
  | None => st_fail (ErrNew "Latest index is not defined")
  | Some latest =>
      nextIndex ← getNext;
      if nextIndex =? u64 (latest + 1) then mret latestIndex
      else syncer nextIndex latest;; mret latestIndex
  end.

(** [for i := start; i <= end; i++]: [n] is a bound on the rounds that are
    left.  With [end] at the largest uint64 the condition never fails. *)
Fixpoint for_range (n : nat) (i end_ : Z) (body : Z → sync ()) : sync () := λ s,
  if end_ <? i then (Ok tt, s)
  else match n with
       | O => (Panic "out of fuel", s)
       | S n => (body i;; for_range n (u64 (i + 1)) end_ body) s
       end.

(** As many rounds as the loop has when it ends. *)
Definition rounds (start end_ : Z) : nat := Z.to_nat (end_ - start + 1).

Definition syncTransactionRange (b : Backend) (start end_ : Z) : sync () :=
  for_range (rounds start end_) start end_ (λ i,
    tx ← st_wrap_err "cannot fetch transaction" (remote (GetTransaction client i b));
    st_wrap_err "Cannot apply transaction" (applyTransaction tx)).

Definition syncTransactions (b : Backend) : sync (option Z) :=
  st_wrap_err "Cannot sync transactions with backend"
    (sync_range (GetLatestTransactionIndex client b) GetNextIndex (syncTransactionRange b)).

Definition syncQueueTransactionRange (start end_ : Z) : sync () :=
  for_range (rounds start end_) start end_ (λ i,
    tx ← st_wrap_err "Canot get enqueue transaction" (remote (GetEnqueue client i));
    st_wrap_err "cannot apply transaction" (applyTransaction tx)).

Definition syncQueue : sync (option Z) :=
  st_wrap_err "Cannot sync queue"
    (sync_range (GetLatestEnqueueIndex client) GetNextEnqueueIndex syncQueueTransactionRange).

(** [true] if the transaction is to be applied. *)
Definition verifyTx (tx : Transaction) : sync bool :=
  if mpcVerifier cfg then mret true
  else
    match Index (meta tx) with
    | None => nil_deref
    | Some index =>
        stateRoot ← st_wrap_err "Cannot get stateroot from dtl" (remote (GetStateRoot client index (backend cfg)));
        next ← GetNextIndex;
        if index <? next then mret false
        else
          chain ← st_gets bc;
          root ← st_wrap_err "Cannot apply tx" (remote (executor_applyTx chain tx));
          if negb (bytes_Equal root stateRoot) then st_fail (ErrNew "stateroot is different")
          else mret true
    end.

Fixpoint apply_verified (txs : list Transaction) : sync () :=
  match txs with
  | [] => mret tt
  | tx :: txs =>
      verified ← verifyTx tx;
      (if (verified : bool) then st_wrap_err "cannot apply batched transaction" (applyBatchedTransaction tx)
       else mret tt);;
      apply_verified txs
  end.

Definition syncTransactionBatchRange (start end_ : Z) : sync () :=
  for_range (rounds start end_) start end_ (λ i,
    txs ← st_wrap_err "Cannot get transaction batch" (remote (GetTransactionBatch client i));
    apply_verified txs;;
    SetLatestBatchIndex (Some i)).

Definition syncBatches : sync (option Z) :=
  st_wrap_err "Cannot sync batches"
    (sync_range (GetLatestTransactionBatchIndex client) GetNextBatchIndex syncTransactionBatchRange).

Fixpoint apply_batched (txs : list Transaction) : sync () :=
  match txs with
  | [] => mret tt
  | tx :: txs =>
      st_wrap_err "cannot apply batched transaction" (applyBatchedTransaction tx);; apply_batched txs
  end.

(** The two DA clients differ in the index of the data store. *)
Definition syncEigenTransactionBatchRange (start end_ : Z) : sync () :=
  for_range (rounds start end_) start end_ (λ i,
    rollupInfo ← st_wrap_err "cannot get rollup store by batch index"
      (remote (GetRollupStoreByRollupBatchIndex client (to_int64 i)));
    if negb (DataStoreId rollupInfo =? 0) then
      let id := if dtlEigenEnable cfg then u32 (DataStoreId rollupInfo + UpgradeDataStoreId rollupInfo)
                else DataStoreId rollupInfo in
      txs ← st_wrap_err "cannot get eigen transaction batch" (remote (GetBatchTransactionByDataStoreId client id));
      apply_batched txs;;
      SetLatestEigenBatchIndex (Some i)
    else mret tt).

Definition syncEigenBatches : sync (option Z) :=
  st_wrap_err "cannot sync eigen batches"
    (sync_range (GetEigenLatestBatchIndex client) GetEigenNextBatchIndex syncEigenTransactionBatchRange).

Definition syncQueueToTip (fuel : nat) : sync () :=
  st_wrap_err "Cannot sync queue to tip" (syncToTip fuel syncQueue (GetLatestEnqueueIndex client)).

Definition syncBatchesToTip (fuel : nat) : sync () :=
  st_wrap_err "Cannot sync transaction batches to tip"
    (syncToTip fuel syncBatches (GetLatestTransactionBatchIndex client)).

Definition syncEigenBatchesToTip (fuel : nat) : sync () :=
  st_wrap_err "Cannot sync eigen transaction batches to tip"
    (syncToTip fuel syncEigenBatches (GetEigenLatestBatchIndex client)).

Definition syncTransactionsToTip (fuel : nat) : sync () :=
  st_wrap_err "Verifier cannot sync transactions with backend"
    (syncToTip fuel (syncTransactions (backend cfg)) (GetLatestTransactionIndex client (backend cfg))).

Definition verify (fuel : nat) : sync () :=
  if backend cfg =? BackendL1 then
    st_wrap_err "Verifier cannot sync transaction batches to tip" (syncBatchesToTip fuel)
  else if backend cfg =? BackendL2 then
    st_wrap_err "Verifier cannot sync transactions with BackendL2" (syncTransactionsToTip fuel)
  else if backend cfg =? BackendEigen then
    st_wrap_err "verifier cannot sync transactions with BackendEigen" (syncEigenBatchesToTip fuel)
  else mret tt.

Definition sequence (fuel : nat) : sync () :=
  st_wrap_err "Sequencer cannot sequence queue" (syncQueueToTip fuel).

(** What [Start] does before the sequencer's loop. *)
Definition Start_sequencer (fuel : nat) : sync () :=
  updateGasPriceOracleCache;;
  or_crit "Sequencer cannot sync transactions to tip" (syncTransactionsToTip fuel);;
  or_crit "Sequencer cannot sync queue to tip" (syncQueueToTip fuel);;
  setSyncStatus false.

(** ** Starting up *)

(** The index of the last block, after the block of the latest index was not
    found: the writer ignores the nil index of an empty chain. *)
Definition reset_index (index : Z) : sync block :=
  cur ← st_gets CurrentBlock;
  blockNum ← st_gets current_number;
  match cur with
  | None => nil_deref
  | Some b =>
      if index <? blockNum then st_fail (ErrNew "Current block height greater than index")
      else SetLatestIndex (if 0 <? blockNum then Some (blockNum - 1) else None);; mret b
  end.

(** The timestamp and the block number of the transaction of a block. *)
Definition recover_context (b : block) : sync () :=
  match bk_Transactions b with
  | [tx] =>
      SetLatestL1Timestamp (L1Timestamp (meta tx));;
      match L1BlockNumber (meta tx) with
      | None => nil_deref
      | Some n => SetLatestL1BlockNumber (big_Uint64 n)
      end
  | _ => st_panic "Cannot recover BVM Context"
  end.

(** Recovers from skipped batches: only for a verifier of L1 batches. *)
Definition repair_batch_index (index : Z) : sync () :=
  if verifier cfg && (backend cfg =? BackendL1) then
    batchIndex ← st_wrap_err "Cannot fetch transaction from dtl"
      (remote (GetRawTransaction_BatchIndex client index (backend cfg)));
    SetLatestBatchIndex (Some (if 0 <? batchIndex then batchIndex - 1 else batchIndex))
  else mret tt.

(** The queue index of the last block that has one, from the block of number
    [n] down; genesis ends the search. *)
Fixpoint find_queue_index (chain : list block) (n : nat) (queueIndex : Z) : option Z :=
  match n with
  | O => None
  | S n' =>
      match chain !! n with
      | Some {| bk_Transactions := [tx] |} =>
          match QueueIndex (meta tx) with
          | Some qi => Some qi
          | None => find_queue_index chain n' queueIndex
          end
      | _ => Some queueIndex
      end
  end.

Definition repair_queue_index : sync () :=
  queueIndex ← GetLatestEnqueueIndex';
  match queueIndex with
  | None => λ s,
      match remote (GetLastConfirmedEnqueue client) s with
      | (Ok enqueue, s) => SetLatestEnqueueIndex (QueueIndex (meta enqueue)) s
      | (Err e, s) =>
          if errors_Is e errElementNotFound then (Ok tt, s)
          else (Err (ErrWrap "Cannot fetch last confirmed queue tx" e), s)
      | (Panic m, s) => (Panic m, s)
      end
  | Some q =>
      chain ← st_gets bc;
      SetLatestEnqueueIndex (find_queue_index chain (length chain - 1) q)
  end.

Definition initializeLatestL1 (ctcDeployHeight : option Z) : sync () :=
  index ← GetLatestIndex;
  match index with
  | None =>
      match ctcDeployHeight with
      | None => st_fail (ErrNew "Must configure with canonical transaction chain deploy height")
      | Some h =>
          context ← st_wrap_err "Cannot fetch ctc deploy block" (remote (GetEthContext client (big_Uint64 h)));
          SetLatestL1Timestamp (ec_Timestamp context);;
          SetLatestL1BlockNumber (ec_BlockNumber context)
      end
  | Some index =>
      repair_batch_index index;;
      b ← st_gets (GetBlockByNumber (u64 (index + 1)));
      b ← (match b with Some b => mret b | None => reset_index index end);
      recover_context b
  end;;
  repair_queue_index.

End Sync.
