(* ===== verification/SyncServiceFacts.v ===== *)
(** Theorems about the sync service of SyncService.v: the latest index always
    names the tip of the chain, the L1 context only moves forward, the cache of
    the gas price oracle follows the chain, a range is applied in order; and
    what the error paths leave behind. *)

From S2P Require Import Prelude TxMeta Transaction BigFloat Fees RollupIndexes SyncService.

Section Facts.
  Context {W : Type} {E : SyncEnv W}.
  Implicit Types (s : SyncService W) (tx : Transaction).

(** ** The invariant *)

(** The block of number [n + 1] holds exactly the transaction of index [n],
    and the latest index is that of the last block. *)
Record synced s : Prop := {
  sy_genesis : bc s ≠ [];
  sy_len : len (bc s) < 2 ^ 64;
  sy_index : latest_index s = if len (bc s) =? 1 then None else Some (len (bc s) - 2);
  sy_blocks : ∀ n b, bc s !! S n = Some b →
    ∃ tx, bk_Transactions b = [tx] ∧ Index (meta tx) = Some (Z.of_nat n);
}.

Lemma synced_next s : synced s → next_index (latest_index s) = len (bc s) - 1.
Proof.
  intros Hs. rewrite (sy_index _ Hs). pose proof (sy_len _ Hs).
  pose proof (len_pos _ (sy_genesis _ Hs)).
  destruct (Z.eqb_spec (len (bc s)) 1) as [-> |]; [done |].
  unfold next_index. rewrite wrap_small by lia. lia.
Qed.

(** ** Database lemmas *)

Lemma latest_index_write s i : is_u64 i → latest_index (set_db (WriteHeadIndex i (db s)) s) = Some i.
Proof. apply read_write_index. Qed.

Lemma latest_index_write_queue s i : latest_index (set_db (WriteHeadQueueIndex i (db s)) s) = latest_index s.
Proof. by apply read_write_other. Qed.

Lemma latest_index_write_verified s i : latest_index (set_db (WriteHeadVerifiedIndex i (db s)) s) = latest_index s.
Proof. by apply read_write_other. Qed.

Lemma latest_index_write_batch s i : latest_index (set_db (WriteHeadBatchIndex i (db s)) s) = latest_index s.
Proof. by apply read_write_other. Qed.

Lemma latest_enqueue_write s i : is_u64 i → latest_enqueue (set_db (WriteHeadQueueIndex i (db s)) s) = Some i.
Proof. apply read_write_index. Qed.

Lemma latest_enqueue_write_head s i : latest_enqueue (set_db (WriteHeadIndex i (db s)) s) = latest_enqueue s.
Proof. by apply read_write_other. Qed.

(** The setters change one field each. *)
Lemma wp_remote {A} (m : st W A) Q s :
  (∀ w', (m (world s)).2 = w' → Q (m (world s)).1 (set_world w' s)) → wp (remote m) Q s.
Proof. unfold wp, remote. destruct (m (world s)) as [r w]. cbn. intros H. by apply H. Qed.

Lemma wp_SetLatestIndex i Q s :
  Q (Ok tt) (match i with None => s | Some i => set_db (WriteHeadIndex i (db s)) s end) →
  wp (SetLatestIndex i) Q s.
Proof. unfold SetLatestIndex, set_index. by destruct i. Qed.

Lemma wp_SetLatestEnqueueIndex i Q s :
  Q (Ok tt) (match i with None => s | Some i => set_db (WriteHeadQueueIndex i (db s)) s end) →
  wp (SetLatestEnqueueIndex i) Q s.
Proof. unfold SetLatestEnqueueIndex, set_index. by destruct i. Qed.

(** ** Applying a transaction to the tip *)

(** [tx'] is [tx] with the fields that the service fills in. *)
Record settled tx tx' : Prop := {
  st_data : data tx' = data tx;
  st_sender : L1MessageSender (meta tx') = L1MessageSender (meta tx);
  st_origin : QueueOrigin (meta tx') = QueueOrigin (meta tx);
  st_queue : QueueIndex (meta tx') = QueueIndex (meta tx);
  st_raw : RawTransaction (meta tx') = RawTransaction (meta tx);
  st_index : ∀ i, Index (meta tx) = Some i → Index (meta tx') = Some i;
  st_time : L1Timestamp (meta tx) ≠ 0 → shouldMalleateTimestamp tx = false →
    L1Timestamp (meta tx') = L1Timestamp (meta tx);
  st_number : ∀ n, L1BlockNumber (meta tx) = Some n → L1BlockNumber (meta tx') = Some n;
}.

(** The state just before the transaction is sent to the block producer. *)
Definition prepared s (w : W) tx tx' : SyncService W :=
  {| world := w;
     db := let d := match Index (meta tx') with Some i => WriteHeadIndex i (db s) | None => db s end in
           match QueueIndex (meta tx') with Some q => WriteHeadQueueIndex q d | None => d end;
     bvm_timestamp := Z.max (bvm_timestamp s) (L1Timestamp (meta tx'));
     bvm_blockNumber := match L1BlockNumber (meta tx) with
                        | None => bvm_blockNumber s
                        | Some n => Z.max (bvm_blockNumber s) (big_Uint64 n)
                        end;
     bc := bc s; RollupGpo := RollupGpo s;
     gasPriceOracleOwnerAddress := gasPriceOracleOwnerAddress s; syncing := syncing s |}.

(** The transaction gets its timestamp from the service. *)
Definition needs_time tx : Prop := L1Timestamp (meta tx) = 0 ∨ shouldMalleateTimestamp tx = true.

(** The timestamp a transaction ends up with. *)
Definition time_assigned s (w : W) tx tx' : Prop :=
  (w = world s ∧ L1Timestamp (meta tx') = L1Timestamp (meta tx) ∧
   L1Timestamp (meta tx) ≠ 0 ∧ shouldMalleateTimestamp tx = false) ∨
  (∃ now, time_Now (world s) = (Ok now, w) ∧
   L1Timestamp (meta tx') = fresh_timestamp (bvm_timestamp s) now ∧ needs_time tx).

(** The index a transaction ends up with. *)
Definition target_index s tx : Z := default (next_index (latest_index s)) (Index (meta tx)).

(** [tx] with a timestamp and a block number. *)
Definition stamped (ts' : Z) (bn' : option Z) tx : Transaction :=
  let m := meta tx in
  set_meta (NewTransactionMeta bn' ts' (L1MessageSender m) (QueueOrigin m) (Index m) (QueueIndex m)
    (RawTransaction m)) tx.

Lemma stamped_same tx : stamped (L1Timestamp (meta tx)) (L1BlockNumber (meta tx)) tx = tx.
Proof. by destruct tx as [? [] ? ? ?]. Qed.

Lemma settled_assign tx ts' bn' latest :
  (L1Timestamp (meta tx) ≠ 0 → shouldMalleateTimestamp tx = false → ts' = L1Timestamp (meta tx)) →
  (∀ n, L1BlockNumber (meta tx) = Some n → bn' = Some n) →
  settled tx (assign_index latest (stamped ts' bn' tx)).
Proof.
  intros Ht Hb. unfold assign_index. cbn. destruct (Index (meta tx)) eqn:Ei; split; cbn; auto; congruence.
Qed.

Lemma assign_index_stamped latest ts' bn' tx :
  Index (meta (assign_index latest (stamped ts' bn' tx))) = Some (default (next_index latest) (Index (meta tx))) ∧
  L1Timestamp (meta (assign_index latest (stamped ts' bn' tx))) = ts'.
Proof. unfold assign_index. cbn. by destruct (Index (meta tx)) eqn:Ei; cbn. Qed.

Lemma wp_assign_blockNumber bn ts' tx Q s :
  Q (Ok (stamped ts' (Some (default bn (L1BlockNumber (meta tx)))) tx))
    (set_blockNumber (match L1BlockNumber (meta tx) with
       | None => bvm_blockNumber s
       | Some n => if bn <? big_Uint64 n then big_Uint64 n else bvm_blockNumber s
       end) s) →
  wp (assign_blockNumber bn (stamped ts' (L1BlockNumber (meta tx)) tx)) Q s.
Proof.
  unfold assign_blockNumber. cbn [stamped meta set_meta L1BlockNumber NewTransactionMeta].
  destruct (L1BlockNumber (meta tx)) as [n |] eqn:En; cbn [default].
  - destruct (bn <? big_Uint64 n); intros H; wp_steps; [done |]. by destruct s.
  - intros H. wp_steps. by destruct s.
Qed.

Lemma apply_stamped_wp s w ts' tx Q :
  let tx' := assign_index (latest_index s) (stamped ts' (Some (default (bvm_blockNumber s) (L1BlockNumber (meta tx)))) tx) in
  let index := latest_index s in
  let ts := bvm_timestamp s in
  let bn := bvm_blockNumber s in
  wp (st_catch (add_to_chain tx') (λ e, restore ts bn index;; st_fail e);; refresh_cache ts bn index tx')
    Q (prepared s w tx tx') →
  wp (apply_stamped ts bn (stamped ts' (L1BlockNumber (meta tx)) tx)) Q (set_world w s).
Proof.
  cbv zeta. intros H. unfold apply_stamped. wp_step. apply wp_assign_blockNumber. wp_steps.
  set (tx1 := stamped ts' _ tx) in *.
  assert (∀ Q' : outcome () → SyncService W → Prop, Q' (Ok tt)
    {| world := w; db := db s; bvm_timestamp := Z.max (bvm_timestamp s) ts';
       bvm_blockNumber := match L1BlockNumber (meta tx) with
                        | None => bvm_blockNumber s
                        | Some n => Z.max (bvm_blockNumber s) (big_Uint64 n)
                        end; bc := bc s; RollupGpo := RollupGpo s;
       gasPriceOracleOwnerAddress := gasPriceOracleOwnerAddress s; syncing := syncing s |} →
    wp (if bvm_timestamp s <? L1Timestamp (meta tx1) then SetLatestL1Timestamp (L1Timestamp (meta tx1)) else mret tt)
      Q' (set_blockNumber (match L1BlockNumber (meta tx) with
       | None => bvm_blockNumber (set_world w s)
       | Some n => if bvm_blockNumber s <? big_Uint64 n then big_Uint64 n else bvm_blockNumber (set_world w s)
       end) (set_world w s))) as Htime.
  { intros Q' HQ. assert (L1Timestamp (meta tx1) = ts') as -> by done.
    destruct (Z.ltb_spec (bvm_timestamp s) ts'); unfold SetLatestL1Timestamp; wp_step; cbn.
    - rewrite Z.max_r in HQ by lia. unfold set_timestamp. cbn.
      destruct (L1BlockNumber (meta tx)) as [n |]; [| done]. destruct (Z.ltb_spec (bvm_blockNumber s) (big_Uint64 n)).
      + by rewrite Z.max_r in HQ by lia.
      + by rewrite Z.max_l in HQ by lia.
    - rewrite Z.max_l in HQ by lia. unfold set_blockNumber, set_world. cbn.
      destruct (L1BlockNumber (meta tx)) as [n |]; [| done]. destruct (Z.ltb_spec (bvm_blockNumber s) (big_Uint64 n)).
      + by rewrite Z.max_r in HQ by lia.
      + by rewrite Z.max_l in HQ by lia. }
  apply Htime. wp_steps. unfold GetLatestIndex. wp_steps.
  set (s1 := Build_SyncService _ _ _ _ _ _ _ _ _).
  assert (latest_index s1 = latest_index s) as -> by done.
  apply wp_SetLatestIndex. wp_step. wp_step. apply wp_SetLatestEnqueueIndex. wp_step.
  set (tx' := assign_index (latest_index s) tx1) in *.
  assert (Ht : L1Timestamp (meta tx') = ts') by apply assign_index_stamped.
  match goal with |- wp _ _ ?s2 => assert (s2 = prepared s w tx tx') as -> end; [| exact H].
  unfold prepared. rewrite Ht. by destruct (Index (meta tx')), (QueueIndex (meta tx')).
Qed.

(** The code up to the block producer, in one step. *)
Lemma applyTransactionToTip_wp tx Q s :
  (∀ e, QueueOrigin (meta tx) = QueueOriginL1ToL2 → L1Timestamp (meta tx) = 0 → Q (Err e) s) →
  (∀ e w, needs_time tx → time_Now (world s) = (Err e, w) → Q (Err e) (set_world w s)) →
  (∀ m w, needs_time tx → time_Now (world s) = (Panic m, w) → Q (Panic m) (set_world w s)) →
  (∀ w tx', settled tx tx' → Index (meta tx') = Some (target_index s tx) → time_assigned s w tx tx' →
     let index := latest_index s in
     let ts := bvm_timestamp s in
     let bn := bvm_blockNumber s in
     wp (st_catch (add_to_chain tx') (λ e, restore ts bn index;; st_fail e);; refresh_cache ts bn index tx')
       Q (prepared s w tx tx')) →
  wp (applyTransactionToTip tx) Q s.
Proof.
  intros Hguard Herr Hpanic Hmain. unfold applyTransactionToTip.
  destruct (_ && (L1Timestamp (meta tx) =? 0)) eqn:Eg.
  { apply andb_true_iff in Eg as [?%Z.eqb_eq ?%Z.eqb_eq]. wp_step. by apply Hguard. }
  unfold GetLatestL1Timestamp, GetLatestL1BlockNumber. wp_steps.
  unfold assign_timestamp. destruct (_ || _) eqn:Et.
  - assert (Hneed : needs_time tx) by (apply orb_true_iff in Et as [?%Z.eqb_eq | ?]; [by left | by right]).
    wp_step. apply wp_remote. intros w Hw. destruct (time_Now (world s)) as [[now | e | m] w'] eqn:En; cbn in Hw; subst w'; cbn [fst].
    + wp_steps. assert (SetL1Timestamp (fresh_timestamp (bvm_timestamp s) now) tx
        = stamped (fresh_timestamp (bvm_timestamp s) now) (L1BlockNumber (meta tx)) tx) as -> by done.
      apply apply_stamped_wp. apply Hmain.
      * apply settled_assign; [| by intros n ->]. intros Hne Hm. rewrite Hm, orb_false_r in Et. by apply Z.eqb_eq in Et.
      * apply assign_index_stamped.
      * right. exists now. split; [done |]. split; [apply assign_index_stamped | done].
    + by apply Herr.
    + by apply Hpanic.
  - wp_steps. apply orb_false_iff in Et as [Et%Z.eqb_neq Em]. rewrite <- (stamped_same tx) at 1.
    assert (s = set_world (world s) s) as Hs by (by destruct s). rewrite Hs at 3.
    apply apply_stamped_wp. apply Hmain.
    + apply settled_assign; [done | by intros n ->].
    + apply assign_index_stamped.
    + left. split_and!; try done. apply assign_index_stamped.
Qed.

(** The state after the error paths have put things back. *)
Definition restored (ts bn : Z) (index : option Z) s : SyncService W :=
  let s := set_blockNumber bn (set_timestamp ts s) in
  match index with None => s | Some i => set_db (WriteHeadIndex i (db s)) s end.

Lemma wp_restore {A} ts bn index e (Q : outcome A → SyncService W → Prop) s :
  Q (Err e) (restored ts bn index s) → wp (restore ts bn index;; st_fail e) Q s.
Proof.
  intros H. unfold restore, SetLatestL1Timestamp, SetLatestL1BlockNumber. wp_steps.
  apply wp_SetLatestIndex. by wp_steps.
Qed.

Lemma wp_updateGasPriceOracleCache Q s :
  match State (bc s) with
  | Ok state => Q (Ok tt) (set_gpo (oracle_of (gpo_slots state)) (BigToAddress (gpo_slots state L2GasPriceOracleOwnerSlot)) s)
  | Err e => Q (Err e) s
  | Panic m => Q (Panic m) s
  end → wp updateGasPriceOracleCache Q s.
Proof. intros H. unfold updateGasPriceOracleCache. wp_steps. by destruct (State (bc s)); wp_steps. Qed.

Definition new_block tx root : block := {| bk_Transactions := [tx]; bk_Root := root |}.

Lemma wp_finish ts bn index tx Q s :
  (∀ m w, mine (bc s) tx (world s) = (Panic m, w) → Q (Panic m) (set_world w s)) →
  (∀ e w, mine (bc s) tx (world s) = (Err e, w) → Q (Err e) (restored ts bn index (set_world w s))) →
  (∀ root w, mine (bc s) tx (world s) = (Ok root, w) →
     let s1 := set_bc (bc s ++ [new_block tx root]) (set_world w s) in
     if bytes_Equal (sender_or_zero tx) (gasPriceOracleOwnerAddress s) then
       match State (bc s1) with
       | Ok state => Q (Ok tt) (set_gpo (oracle_of (gpo_slots state))
                                  (BigToAddress (gpo_slots state L2GasPriceOracleOwnerSlot)) s1)
       | Err e => Q (Err e) (restored ts bn index s1)
       | Panic m => Q (Panic m) s1
       end
     else Q (Ok tt) s1) →
  wp (st_catch (add_to_chain tx) (λ e, restore ts bn index;; st_fail e);; refresh_cache ts bn index tx) Q s.
Proof.
  intros Hp He Hok. unfold add_to_chain. wp_steps. apply wp_remote. intros w Hw.
  destruct (mine (bc s) tx (world s)) as [[root | e | m] w'] eqn:Em; cbn in Hw; subst w'; cbn [fst].
  - specialize (Hok root w eq_refl). cbv zeta in Hok. wp_steps. unfold refresh_cache. wp_steps. cbn [gasPriceOracleOwnerAddress set_bc set_world].
    destruct (bytes_Equal _ _); [| by wp_steps]. wp_steps. apply wp_updateGasPriceOracleCache.
    destruct (State _); [done | by apply wp_restore | done].
  - wp_step. cbv beta iota. apply wp_restore. by apply He.
  - wp_steps. by apply Hp.
Qed.

(** *** How an application ends *)

(** What a successful application did. *)
Record applied tx s s' : Prop := {
  ap_tx : ∃ w tx' root w', settled tx tx' ∧ Index (meta tx') = Some (target_index s tx) ∧
    time_assigned s w tx tx' ∧ mine (bc s) tx' w = (Ok root, w') ∧
    bc s' = bc s ++ [new_block tx' root] ∧ world s' = w' ∧
    bvm_timestamp s' = Z.max (bvm_timestamp s) (L1Timestamp (meta tx'));
  ap_index : is_u64 (target_index s tx) → latest_index s' = Some (target_index s tx);
  ap_queue : ∀ q, QueueIndex (meta tx) = Some q → is_u64 q → latest_enqueue s' = Some q;
  ap_number : bvm_blockNumber s <= bvm_blockNumber s';
}.

Lemma prepared_indexes s w tx tx' :
  settled tx tx' → Index (meta tx') = Some (target_index s tx) →
  (is_u64 (target_index s tx) → latest_index (prepared s w tx tx') = Some (target_index s tx)) ∧
  (∀ q, QueueIndex (meta tx) = Some q → is_u64 q → latest_enqueue (prepared s w tx tx') = Some q).
Proof.
  intros Hst Hi. unfold latest_index, latest_enqueue, prepared. cbn [db]. rewrite Hi, (st_queue _ _ Hst). split.
  - intros Ht. destruct (QueueIndex (meta tx)); [etrans; [by apply read_write_other |] |];
      by apply read_write_index.
  - intros q -> Hq. by apply read_write_index.
Qed.

Lemma applyTransactionToTip_Ok tx s s' :
  applyTransactionToTip tx s = (Ok tt, s') → applied tx s s'.
Proof.
  assert (H : wp (applyTransactionToTip tx) (λ r s', r = Ok tt → applied tx s s') s).
  { apply applyTransactionToTip_wp; try done. intros w tx' Hst Hi Ht. cbv zeta.
    destruct (prepared_indexes s w tx tx' Hst Hi) as [Hix Hq].
    assert (Hn : bvm_blockNumber s <= bvm_blockNumber (prepared s w tx tx')).
    { cbn. destruct (L1BlockNumber (meta tx)); lia. }
    apply wp_finish; try done. intros root w' Hm. cbv zeta.
    destruct (bytes_Equal _ _); [destruct (State _); try done |]; intros _; split; cbn; try done;
      by exists w, tx', root, w'. }
  intros E0. unfold wp in H. rewrite E0 in H. by apply H.
Qed.

Lemma synced_snoc s s' tx root :
  synced s → len (bc s) + 1 < 2 ^ 64 → bc s' = bc s ++ [new_block tx root] →
  latest_index s' = Some (len (bc s) - 1) → Index (meta tx) = Some (len (bc s) - 1) → synced s'.
Proof.
  intros Hs Hl Hb Hi Hx. pose proof (len_pos _ (sy_genesis _ Hs)).
  split; rewrite ?Hb, ?len_app; change (len [new_block tx root]) with 1.
  - by destruct (bc s).
  - lia.
  - rewrite (proj2 (Z.eqb_neq _ _)) by lia. rewrite Hi. f_equal. lia.
  - intros n b Hn. apply lookup_app_Some in Hn as [Hn | [Hn1 Hn2]]; [by apply (sy_blocks _ Hs) |].
    apply list_lookup_singleton_Some in Hn2 as [Hn2 <-]. exists tx. split; [done |]. rewrite Hx. f_equal.
    unfold len. lia.
Qed.

Lemma target_index_next s tx :
  synced s → Index (meta tx) = None ∨ Index (meta tx) = Some (len (bc s) - 1) →
  target_index s tx = len (bc s) - 1.
Proof. intros Hs [Hi | Hi]; unfold target_index; rewrite Hi; cbn; [by apply synced_next | done]. Qed.

Lemma applyTransactionToTip_synced tx s s' :
  synced s → Index (meta tx) = None ∨ Index (meta tx) = Some (len (bc s) - 1) → len (bc s) + 1 < 2 ^ 64 →
  applyTransactionToTip tx s = (Ok tt, s') →
  synced s' ∧ ∃ tx' root, settled tx tx' ∧ bc s' = bc s ++ [new_block tx' root].
Proof.
  intros Hs Hi Hl E0. pose proof (applyTransactionToTip_Ok _ _ _ E0) as Ha.
  pose proof (target_index_next s tx Hs Hi) as Ht. pose proof (len_pos _ (sy_genesis _ Hs)).
  destruct (ap_tx _ _ _ Ha) as (w & tx' & root & w' & Hst & Hx & _ & _ & Hb & _). split; [| eauto].
  eapply (synced_snoc s); [done | done | exact Hb | | by rewrite Hx, Ht].
  rewrite <- Ht. apply (ap_index _ _ _ Ha). lia.
Qed.

(** *** Indexed transactions in order *)

Lemma applyTransaction_indexed tx i s :
  Index (meta tx) = Some i → applyTransaction tx s = applyIndexedTransaction tx s.
Proof.
  intros Hi. unfold applyTransaction, check_rollback. rewrite Hi. cbv [mbind st_bind mret st_ret].
  by rewrite bool_decide_eq_false_2.
Qed.

Lemma applyIndexedTransaction_next tx s :
  synced s → Index (meta tx) = Some (len (bc s) - 1) →
  applyIndexedTransaction tx s = applyTransactionToTip tx s.
Proof.
  intros Hs Hi. unfold applyIndexedTransaction. rewrite Hi. unfold GetNextIndex. cbv [mbind st_bind st_gets].
  by rewrite synced_next, Z.eqb_refl.
Qed.

(** The chain has grown by the transactions [i, i + 1, ...] that [get] gave. *)
Definition grown_by (get : Z → st W Transaction) s s' : Prop :=
  ∃ new, bc s' = bc s ++ new ∧
    ∀ n b, new !! n = Some b → ∃ w tx w' tx' root,
      get (len (bc s) - 1 + Z.of_nat n) w = (Ok tx, w') ∧ settled tx tx' ∧ b = new_block tx' root.

Lemma grown_by_refl get s : grown_by get s s.
Proof. exists []. split; [by rewrite app_nil_r |]. by intros []. Qed.

Lemma grown_by_step get s s1 s' w tx w' tx' root :
  get (len (bc s) - 1) w = (Ok tx, w') → settled tx tx' → bc s1 = bc s ++ [new_block tx' root] →
  grown_by get s1 s' → grown_by get s s'.
Proof.
  intros Hg Hst Hb (new & Hn & Hnew). exists (new_block tx' root :: new).
  split; [by rewrite Hn, Hb, <- app_assoc |]. intros [| n] b Hb'; cbn in Hb'.
  - injection Hb' as <-. rewrite Z.add_0_r. by exists w, tx, w', tx', root.
  - destruct (Hnew n b Hb') as (w2 & t2 & w2' & t2' & r2 & H1 & H2 & H3).
    exists w2, t2, w2', t2', r2. split; [| done]. rewrite Hb, len_app in H1. change (len [_]) with 1 in H1.
    by replace (len (bc s) - 1 + Z.of_nat (S n)) with (len (bc s) + 1 - 1 + Z.of_nat n) by lia.
Qed.

Lemma synced_world w s : synced s → synced (set_world w s).
Proof. by intros [? ? ? ?]; split. Qed.

Lemma wrap_err_Ok {A} msg (r : outcome A) a : wrap_err msg r = Ok a → r = Ok a.
Proof. by destruct r. Qed.

Lemma st_wrap_err_Ok {A} msg (m : st (SyncService W) A) s a s' :
  st_wrap_err msg m s = (Ok a, s') → m s = (Ok a, s').
Proof. unfold st_wrap_err. destruct (m s) as [r s1]. intros [= H1 H2]. apply wrap_err_Ok in H1. by subst. Qed.

Lemma remote_Ok {A} (m : st W A) s a s' :
  remote m s = (Ok a, s') → ∃ w', m (world s) = (Ok a, w') ∧ s' = set_world w' s.
Proof. unfold remote. destruct (m (world s)) as [r w]. intros [= -> <-]. eauto. Qed.

(** The indexer answers with the transaction of the index asked for. *)
Definition indexed_answers (get : Z → st W Transaction) : Prop :=
  ∀ i w tx w', get i w = (Ok tx, w') → Index (meta tx) = Some i.

(** The body of [syncTransactionRange]. *)
Definition range_body (b : Backend) (i : Z) : st (SyncService W) () :=
  tx ← st_wrap_err "cannot fetch transaction" (remote (GetTransaction client i b));
  st_wrap_err "Cannot apply transaction" (applyTransaction tx).

Lemma range_body_Ok b s s' :
  indexed_answers (λ i, GetTransaction client i b) → synced s → len (bc s) + 1 < 2 ^ 64 →
  range_body b (len (bc s) - 1) s = (Ok tt, s') →
  synced s' ∧ ∃ w tx w' tx' root, GetTransaction client (len (bc s) - 1) b w = (Ok tx, w') ∧
    settled tx tx' ∧ bc s' = bc s ++ [new_block tx' root].
Proof.
  intros Hc Hs Hl E0. unfold range_body in E0. apply st_bind_Ok in E0 as (tx & s1 & E1 & E2).
  apply st_wrap_err_Ok in E1, E2. apply remote_Ok in E1 as (w' & E1 & ->).
  pose proof (Hc _ _ _ _ E1) as Hi. rewrite (applyTransaction_indexed _ _ _ Hi) in E2.
  rewrite applyIndexedTransaction_next in E2; [| by apply synced_world | done].
  apply applyTransactionToTip_synced in E2 as [Hs' (tx' & root & Hst & Hb)];
    [| by apply synced_world | by right | done].
  split; [done |]. exists (world s), tx, w', tx', root. done.
Qed.

Lemma range_Ok b n i end_ s s' :
  indexed_answers (λ i, GetTransaction client i b) → synced s → i = len (bc s) - 1 → i <= end_ + 1 →
  end_ + 2 < 2 ^ 64 → for_range n i end_ (range_body b) s = (Ok tt, s') →
  synced s' ∧ len (bc s') = end_ + 2 ∧ grown_by (λ i, GetTransaction client i b) s s'.
Proof.
  intros Hc. revert i s. induction n as [| n IH]; intros i s Hs Hi Hle Hend E0; cbn [for_range] in E0.
  { destruct (Z.ltb_spec end_ i); [| done]. injection E0 as <-. split; [done |]. split; [lia | apply grown_by_refl]. }
  destruct (Z.ltb_spec end_ i).
  { injection E0 as <-. split; [done |]. split; [lia | apply grown_by_refl]. }
  apply st_bind_Ok in E0 as ([] & s1 & E1 & E2). subst i.
  destruct (range_body_Ok b s s1 Hc Hs ltac:(lia) E1) as (Hs1 & w & tx & w' & tx' & root & Hg & Hst & Hb).
  pose proof (len_pos _ (sy_genesis _ Hs)). rewrite wrap_small in E2 by lia.
  destruct (IH (len (bc s) - 1 + 1) s1 Hs1) as (Hs' & Hlen & Hgrow); [| lia | done | done |].
  { rewrite Hb, len_app. change (len [_]) with 1. lia. }
  split; [done |]. split; [done |]. by eapply grown_by_step.
Qed.

Theorem syncTransactionRange_extends b end_ s s' :
  indexed_answers (λ i, GetTransaction client i b) → synced s → len (bc s) - 1 <= end_ + 1 → end_ + 2 < 2 ^ 64 →
  syncTransactionRange b (next_index (latest_index s)) end_ s = (Ok tt, s') →
  synced s' ∧ len (bc s') = end_ + 2 ∧ grown_by (λ i, GetTransaction client i b) s s'.
Proof.
  intros Hc Hs Hle Hend E0. rewrite synced_next in E0 by done. by eapply range_Ok.
Qed.

(** ** Total correctness with a healthy environment *)

(** The remote serves the transactions up to [tip], and no node fails. *)
Record healthy (b : Backend) (tip : Z) : Prop := {
  h_get : ∀ i w, 0 <= i <= tip → ∃ tx w', GetTransaction client i b w = (Ok tx, w') ∧
    Index (meta tx) = Some i ∧ L1Timestamp (meta tx) ≠ 0;
  h_mine : ∀ chain tx w, ∃ root w', mine chain tx w = (Ok root, w');
  h_state : ∀ chain, ∃ state, State chain = Ok state;
  h_tip : ∀ w, ∃ w', GetLatestTransactionIndex client b w = (Ok (Some tip), w');
}.

Lemma applyTransactionToTip_healthy b tip tx s :
  healthy b tip → Index (meta tx) ≠ None → L1Timestamp (meta tx) ≠ 0 →
  ∃ s', applyTransactionToTip tx s = (Ok tt, s').
Proof.
  intros Hh Hi Ht. assert (H : wp (applyTransactionToTip tx) (λ r s', r = Ok tt) s).
  { assert (Hm : ¬ needs_time tx).
    { intros [? | Hm]; [done |]. unfold shouldMalleateTimestamp in Hm.
      by rewrite (bool_decide_eq_false_2 (Index (meta tx) = None)), andb_false_r in Hm. }
    apply applyTransactionToTip_wp; try done. intros w tx' _ _ _. cbv zeta. apply wp_finish.
    - intros m w' E0. destruct (h_mine _ _ Hh (bc s) tx' w) as (root & w2 & E1). cbn in E0. congruence.
    - intros e w' E0. destruct (h_mine _ _ Hh (bc s) tx' w) as (root & w2 & E1). cbn in E0. congruence.
    - intros root w' _. cbv zeta. destruct (bytes_Equal _ _); [| done].
      match goal with |- context [State ?c] => destruct (h_state _ _ Hh c) as [state ->] end. done. }
  unfold wp in H. destruct (applyTransactionToTip tx s) as [r s']. cbn in H. subst. eauto.
Qed.

Lemma range_healthy b tip n i s :
  healthy b tip → synced s → i = len (bc s) - 1 → tip + 2 < 2 ^ 64 → Z.to_nat (tip - i + 1) = n →
  ∃ s', for_range n i tip (range_body b) s = (Ok tt, s').
Proof.
  intros Hh. revert i s. induction n as [| n IH]; intros i s Hs Hi Hl Hn; cbn [for_range];
    destruct (Z.ltb_spec tip i); [by eauto | lia | by eauto |].
  pose proof (len_pos _ (sy_genesis _ Hs)).
  destruct (h_get _ _ Hh i (world s) ltac:(lia)) as (tx & w' & Hg & Hx & Ht).
  destruct (applyTransactionToTip_healthy b tip tx (set_world w' s) Hh) as [s1 E1]; [congruence | done |].
  assert (E2 : range_body b i s = (Ok tt, s1)).
  { unfold range_body. cbv [mbind st_bind]. unfold st_wrap_err, remote. rewrite Hg. cbn [wrap_err].
    rewrite (applyTransaction_indexed _ _ _ Hx), applyIndexedTransaction_next, E1;
      [done | by apply synced_world | by rewrite Hx, Hi]. }
  cbv [mbind st_bind]. rewrite E2.
  destruct (applyTransactionToTip_synced tx (set_world w' s) s1) as [Hs1 (tx' & root & _ & Hb)];
    [by apply synced_world | right; by rewrite Hx, Hi | cbn; lia | done |].
  rewrite wrap_small by lia. apply IH; [done | | done | lia].
  rewrite Hb, len_app. change (len [_]) with 1. cbn. lia.
Qed.

(** C32: With an indexer that answers, a working block producer and clock, syncTransactionsToTip returns
    and the chain ends at the remote tip, each block holding the transaction of its index; one round
    is enough. *)
Theorem syncTransactionsToTip_reaches_tip tip fuel s :
  healthy (backend cfg) tip → indexed_answers (λ i, GetTransaction client i (backend cfg)) →
  synced s → len (bc s) - 1 <= tip + 1 → tip + 2 < 2 ^ 64 →
  ∃ s', syncTransactionsToTip (S fuel) s = (Ok tt, s') ∧ synced s' ∧
    next_index (latest_index s') = tip + 1 ∧ grown_by (λ i, GetTransaction client i (backend cfg)) s s'.
Proof.
  intros Hh Hc Hs Hle Hl. set (b := backend cfg) in *. pose proof (len_pos _ (sy_genesis _ Hs)).
  destruct (h_tip _ _ Hh (world s)) as [w1 Hw1].
  assert (∃ s1, syncTransactions b s = (Ok (Some tip), s1) ∧ synced s1 ∧ len (bc s1) = tip + 2 ∧
    grown_by (λ i, GetTransaction client i b) s s1) as (s1 & E1 & Hs1 & Hl1 & Hg1).
  { unfold syncTransactions, st_wrap_err, sync_range. cbv [mbind st_bind]. unfold st_wrap_err, remote. rewrite Hw1.
    cbn [wrap_err]. unfold GetNextIndex, st_gets. rewrite synced_next by (by apply synced_world). cbn [bc set_world].
    rewrite wrap_small by lia. destruct (Z.eqb_spec (len (bc s) - 1) (tip + 1)) as [Heq |].
    - exists (set_world w1 s). split; [done |]. split; [by apply synced_world |]. split; [cbn; lia |].
      exact (grown_by_refl _ s).
    - destruct (range_healthy b tip (rounds (len (bc s) - 1) tip) (len (bc s) - 1) (set_world w1 s))
        as [s1 E1]; [done | by apply synced_world | done | done | done |].
      exists s1. unfold syncTransactionRange. fold (range_body b). rewrite E1. split; [done |].
      apply range_Ok in E1; [| done | by apply synced_world | done | lia | done]. done. }
  destruct (h_tip _ _ Hh (world s1)) as [w2 Hw2]. exists (set_world w2 s1).
  unfold syncTransactionsToTip, st_wrap_err. fold b. cbn [syncToTip]. rewrite E1. unfold isAtTip, remote. rewrite Hw2, Z.eqb_refl.
  split; [done |]. split; [by apply synced_world |]. split; [| done].
  rewrite synced_next by (by apply synced_world). cbn. lia.
Qed.

(** ** The L1 context *)

Lemma fresh_timestamp_ge ts now :
  0 <= ts < 2 ^ 63 → now < 2 ^ 63 → 0 <= timestampRefreshThreshold cfg → ts <= fresh_timestamp ts now.
Proof.
  intros Hts Hnow Hth. unfold fresh_timestamp. rewrite to_int64_small by done.
  destruct (Z.ltb_spec (timestampRefreshThreshold cfg) (duration (now - ts * second))) as [Hlt | Hge].
  - unfold duration in Hlt. assert (Hd : 0 < now - ts * second) by lia. unfold second in *.
    assert (ts <= now / 1000000000) by (apply Z.div_le_lower_bound; lia).
    assert (now / 1000000000 < 2 ^ 63) by (apply Z.div_lt_upper_bound; lia).
    rewrite wrap_small by lia. done.
  - rewrite wrap_small by lia. done.
Qed.

Lemma prepared_context s w tx tx' :
  bvm_timestamp s <= bvm_timestamp (prepared s w tx tx') ∧ bvm_blockNumber s <= bvm_blockNumber (prepared s w tx tx').
Proof. cbn. destruct (L1BlockNumber (meta tx)); lia. Qed.

Lemma restored_context ts bn index s :
  bvm_timestamp (restored ts bn index s) = ts ∧ bvm_blockNumber (restored ts bn index s) = bn.
Proof. unfold restored. by destruct index. Qed.

Theorem l1_context_monotone tx s :
  let '(r, s') := applyTransactionToTip tx s in
  bvm_timestamp s <= bvm_timestamp s' ∧ bvm_blockNumber s <= bvm_blockNumber s' ∧
  (r = Ok tt → 0 <= bvm_timestamp s < 2 ^ 63 → 0 <= timestampRefreshThreshold cfg →
   (∀ w now w', time_Now w = (Ok now, w') → now < 2 ^ 63) → needs_time tx →
   ∃ b tx', bc s' = bc s ++ [b] ∧ bk_Transactions b = [tx'] ∧
     bvm_timestamp s <= L1Timestamp (meta tx') ∧ bvm_timestamp s' = L1Timestamp (meta tx')).
Proof.
  set (Q := λ (r : outcome unit) s', bvm_timestamp s <= bvm_timestamp s' ∧ bvm_blockNumber s <= bvm_blockNumber s').
  assert (H : wp (applyTransactionToTip tx) Q s).
  { apply applyTransactionToTip_wp; try (by unfold Q; cbn; lia). intros w tx' _ _ _. cbv zeta.
    pose proof (prepared_context s w tx tx').
    apply wp_finish.
    - intros m w' _. unfold Q. cbn in *. lia.
    - intros e w' _. unfold Q. pose proof (restored_context (bvm_timestamp s) (bvm_blockNumber s) (latest_index s)
        (set_world w' (prepared s w tx tx'))). lia.
    - intros root w' _. cbv zeta. destruct (bytes_Equal _ _); [destruct (State _) |]; unfold Q; try (cbn in *; lia).
      match goal with |- context [restored ?a ?b ?c ?d] => pose proof (restored_context a b c d) end. lia. }
  unfold wp in H. destruct (applyTransactionToTip tx s) as [r s'] eqn:E0. unfold Q in H. cbn in H.
  split; [apply H |]. split; [apply H |]. intros -> Hts Hth Hnow Hneed.
  destruct (ap_tx _ _ _ (applyTransactionToTip_Ok _ _ _ E0)) as (w & tx' & root & w' & _ & _ & Ht & _ & Hb & _ & Hmax).
  exists (new_block tx' root), tx'. split; [done |]. split; [done |].
  destruct Ht as [(_ & _ & Hn1 & Hn2) | (now & Hnow' & Hf & _)].
  - destruct Hneed; congruence.
  - assert (bvm_timestamp s <= L1Timestamp (meta tx')).
    { rewrite Hf. apply fresh_timestamp_ge; [done | by eapply Hnow | done]. }
    lia.
Qed.

(** ** The cache of the gas price oracle *)

(** The cache agrees with the oracle's storage at the tip. *)
Definition coherent s : Prop :=
  ∃ state, State (bc s) = Ok state ∧ RollupGpo s = oracle_of (gpo_slots state) ∧
    gasPriceOracleOwnerAddress s = BigToAddress (gpo_slots state L2GasPriceOracleOwnerSlot).

(** Only transactions of its owner change the oracle's storage. *)
Definition only_owner_changes : Prop :=
  ∀ chain tx root state, State chain = Ok state →
    sender_or_zero tx ≠ BigToAddress (gpo_slots state L2GasPriceOracleOwnerSlot) →
    ∃ state', State (chain ++ [new_block tx root]) = Ok state' ∧ ∀ slot, gpo_slots state' slot = gpo_slots state slot.

Lemma oracle_of_ext f g : (∀ slot, f slot = g slot) → oracle_of f = oracle_of g.
Proof. intros H. unfold oracle_of. by rewrite !H. Qed.

Theorem cache_coherent tx s s' :
  only_owner_changes → coherent s → applyTransactionToTip tx s = (Ok tt, s') → coherent s'.
Proof.
  intros Howner (state & HS & Hg & Ho) E0.
  assert (H : wp (applyTransactionToTip tx) (λ r s', r = Ok tt → coherent s') s).
  { apply applyTransactionToTip_wp; try done. intros w tx' _ _ _. cbv zeta. apply wp_finish; try done.
    intros root w' _. cbv zeta. unfold bytes_Equal. case_bool_decide as Hs.
    - match goal with |- context [State ?c] => destruct (State c) as [state' | |] eqn:HS' end; try done.
      intros _. by exists state'.
    - intros _. cbn in Hs. rewrite Ho in Hs. destruct (Howner (bc s) tx' root state HS Hs) as (state' & HS' & Heq).
      exists state'. split; [done |]. cbn. rewrite Hg, Ho, Heq. by rewrite (oracle_of_ext _ _ Heq). }
  unfold wp in H. rewrite E0 in H. by apply H.
Qed.

(** ** What the error paths leave behind *)

Lemma restored_latest_index ts bn i s : is_u64 i → latest_index (restored ts bn (Some i) s) = Some i.
Proof. apply read_write_index. Qed.

Lemma restored_latest_enqueue ts bn index s : latest_enqueue (restored ts bn index s) = latest_enqueue s.
Proof. destruct index as [i |]; [| done]. by apply read_write_other. Qed.

Theorem failed_enqueue_skipped tx q s :
  QueueIndex (meta tx) = Some q → is_u64 q → L1Timestamp (meta tx) ≠ 0 →
  (∃ now w, time_Now (world s) = (Ok now, w)) → (∀ tx w, ∃ e w', mine (bc s) tx w = (Err e, w')) →
  ∃ e s', applyTransactionToTip tx s = (Err e, s') ∧ bc s' = bc s ∧
    GetNextEnqueueIndex s' = (Ok (u64 (q + 1)), s').
Proof.
  intros Hq Hu Ht (now & w0 & Hnow) Hm.
  set (Q := λ (r : outcome unit) s', (∃ e, r = Err e) ∧ bc s' = bc s ∧ latest_enqueue s' = Some q).
  assert (H : wp (applyTransactionToTip tx) Q s).
  { apply applyTransactionToTip_wp.
    - done.
    - intros e w _ E0. congruence.
    - intros m w _ E0. congruence.
    - intros w tx' Hst Hi _. cbv zeta. destruct (prepared_indexes s w tx tx' Hst Hi) as [_ Hpq].
      destruct (Hm tx' w) as (e & w' & E0). apply wp_finish; cbn [bc prepared world]; [congruence | | congruence].
      intros e' w2 E1. split; [by eauto |]. split; [by destruct (latest_index s) |].
      rewrite restored_latest_enqueue. by apply Hpq. }
  unfold wp, Q in H. destruct (applyTransactionToTip tx s) as [r s']. cbn [fst snd] in H. destruct H as ([e ->] & Hb & He).
  exists e, s'. split; [done |]. split; [done |]. unfold GetNextEnqueueIndex, st_gets. by rewrite He.
Qed.

Theorem cache_failure_desyncs tx s :
  synced s → latest_index s ≠ None → Index (meta tx) = None → L1Timestamp (meta tx) ≠ 0 →
  (∃ now w, time_Now (world s) = (Ok now, w)) →
  (∀ tx w, ∃ root w', mine (bc s) tx w = (Ok root, w')) →
  (∀ tx', settled tx tx' → sender_or_zero tx' = gasPriceOracleOwnerAddress s) →
  (∀ b, ∃ e, State (bc s ++ [b]) = Err e) →
  ∃ e s' b, applyTransactionToTip tx s = (Err e, s') ∧ bc s' = bc s ++ [b] ∧
    latest_index s' = latest_index s ∧ ¬ synced s'.
Proof.
  intros Hs Hix Hnone Ht (now & w0 & Hnow) Hm Ho HS. pose proof (sy_genesis _ Hs) as Hne.
  set (Q := λ (r : outcome unit) s', (∃ e, r = Err e) ∧ (∃ b, bc s' = bc s ++ [b]) ∧ latest_index s' = latest_index s).
  assert (H : wp (applyTransactionToTip tx) Q s).
  { apply applyTransactionToTip_wp.
    - done.
    - intros e w _ E0. congruence.
    - intros m w _ E0. congruence.
    - intros w tx' Hst Hi _. cbv zeta. destruct (Hm tx' w) as (root & w' & E0).
      apply wp_finish; cbn [bc prepared world gasPriceOracleOwnerAddress]; [congruence | congruence |].
      intros root' w2 _. rewrite (Ho tx' Hst). unfold bytes_Equal. rewrite bool_decide_eq_true_2 by done.
      cbn [bc set_bc set_world]. destruct (HS (new_block tx' root')) as [e ->]. split; [by eauto |].
      pose proof (sy_index _ Hs) as Hx. destruct (latest_index s) as [i |] eqn:Ei; [| done].
      split; [by exists (new_block tx' root') |]. apply restored_latest_index.
      destruct (len (bc s) =? 1) eqn:E1; [done |]. apply Z.eqb_neq in E1. injection Hx as ->.
      pose proof (sy_len _ Hs). pose proof (len_pos _ Hne). lia. }
  unfold wp, Q in H. destruct (applyTransactionToTip tx s) as [r s']. cbn [fst snd] in H. destruct H as ([e ->] & [b Hb] & Hi).
  exists e, s', b. split_and!; try done. intros Hs'. pose proof (sy_index _ Hs) as H1. pose proof (sy_index _ Hs') as H2.
  rewrite Hi, H1, Hb, len_app in H2. change (len [b]) with 1 in H2. pose proof (len_pos _ Hne).
  rewrite H1 in Hix. destruct (Z.eqb_spec (len (bc s)) 1); [done |].
  destruct (Z.eqb_spec (len (bc s) + 1) 1); [lia |]. injection H2. lia.
Qed.

(** ** Starting up again *)

Lemma initializeLatestL1_cannot_recover h g index s :
  verifier cfg && (backend cfg =? BackendL1) = false → bc s = [g] → bk_Transactions g = [] →
  latest_index s = Some index → is_u64 (index + 1) → 0 <= index →
  initializeLatestL1 h s = (Panic "Cannot recover BVM Context", s).
Proof.
  intros Hv Hb Hg Hi Hu H0. unfold initializeLatestL1, GetLatestIndex. cbv [mbind st_bind st_gets]. rewrite Hi.
  unfold repair_batch_index. rewrite Hv. cbv [mret st_ret]. unfold GetBlockByNumber. rewrite Hb, wrap_small by done.
  rewrite lookup_ge_None_2 by (cbn; lia). unfold reset_index, CurrentBlock, current_number. cbv [mbind st_bind st_gets].
  rewrite Hb. cbn [last]. change (len [g] - 1) with 0. destruct (Z.ltb_spec index 0); [lia |].
  rewrite Z.ltb_irrefl. cbn. unfold recover_context. by rewrite Hg.
Qed.

Theorem first_failure_prevents_restart tx g h s :
  synced s → bc s = [g] → bk_Transactions g = [] → verifier cfg && (backend cfg =? BackendL1) = false →
  Index (meta tx) = None → L1Timestamp (meta tx) ≠ 0 → (∃ now w, time_Now (world s) = (Ok now, w)) →
  (∀ tx w, ∃ e w', mine (bc s) tx w = (Err e, w')) →
  ∃ e s', applyTransactionToTip tx s = (Err e, s') ∧ initializeLatestL1 h s' = (Panic "Cannot recover BVM Context", s').
Proof.
  intros Hs Hb Hg Hv Hnone Ht (now & w0 & Hnow) Hm.
  assert (Hn : latest_index s = None) by (by rewrite (sy_index _ Hs), Hb).
  set (Q := λ (r : outcome unit) s', (∃ e, r = Err e) ∧ bc s' = bc s ∧ latest_index s' = Some 0).
  assert (H : wp (applyTransactionToTip tx) Q s).
  { apply applyTransactionToTip_wp.
    - done.
    - intros e w _ E0. congruence.
    - intros m w _ E0. congruence.
    - intros w tx' Hst Hi _. cbv zeta. destruct (prepared_indexes s w tx tx' Hst Hi) as [Hpi _].
      assert (Ht0 : target_index s tx = 0) by (unfold target_index; by rewrite Hnone, Hn). rewrite Ht0 in Hpi.
      destruct (Hm tx' w) as (e & w' & E0). rewrite Hn.
      apply wp_finish; cbn [bc prepared world]; [congruence | | congruence].
      intros e' w2 E1. split; [by eauto |]. split; [done |]. by apply Hpi. }
  unfold wp, Q in H. destruct (applyTransactionToTip tx s) as [r s']. cbn [fst snd] in H.
  destruct H as ([e ->] & Hb' & Hi). exists e, s'. split; [done |].
  apply (initializeLatestL1_cannot_recover h g 0); [done | by rewrite Hb' | done | done | done | done].
Qed.

(** The queue index of the last block that has one. *)
Definition last_queue_index (chain : list block) : option Z :=
  last (omap (λ b, match bk_Transactions b with tx :: _ => QueueIndex (meta tx) | [] => None end) (tail chain)).

(** Every block after genesis has one transaction, with an index and an L1 block number. *)
Record recoverable s : Prop := {
  re_len : 2 <= len (bc s) < 2 ^ 63;
  re_blocks : ∀ n b, bc s !! S n = Some b → ∃ tx, bk_Transactions b = [tx] ∧
    Index (meta tx) = Some (Z.of_nat n) ∧ L1BlockNumber (meta tx) ≠ None;
}.

Lemma find_queue_index_spec s n q :
  recoverable s → (n < length (bc s))%nat →
  find_queue_index (bc s) n q = last_queue_index (take (S n) (bc s)).
Proof.
  intros Hr. induction n as [| n IH]; intros Hn; cbn [find_queue_index].
  - destruct (bc s); done.
  - destruct (lookup_lt_is_Some_2 _ _ Hn) as [b Hb]. rewrite Hb.
    destruct (re_blocks _ Hr _ _ Hb) as (tx & Ht & _). destruct b as [txs root]. cbn in Ht. subst txs.
    rewrite (take_S_r _ _ _ Hb). rewrite IH by lia. unfold last_queue_index.
    assert (Hne : take (S n) (bc s) ≠ []) by (destruct (bc s); [by cbn in Hn; lia | done]).
    destruct (take (S n) (bc s)) as [| g l] eqn:E0; [done |]. cbn [app tail].
    rewrite omap_app, last_app. cbn. by destruct (QueueIndex (meta tx)).
Qed.

Lemma find_queue_index_last s q :
  recoverable s → find_queue_index (bc s) (length (bc s) - 1) q = last_queue_index (bc s).
Proof.
  intros Hr. pose proof (re_len _ Hr). unfold len in *. rewrite (find_queue_index_spec s) by (done || lia).
  f_equal. apply take_ge. lia.
Qed.

(** The block from which the L1 context is recovered, and the index it gets. *)
Lemma repair_index_wp (Q : outcome block → SyncService W → Prop) index s :
  recoverable s → latest_index s = Some index → len (bc s) - 2 <= index → is_u64 (index + 1) →
  (∀ b s1, last (bc s) = Some b → bc s1 = bc s → latest_enqueue s1 = latest_enqueue s →
     latest_index s1 = Some (len (bc s) - 2) → Q (Ok b) s1) →
  wp (match GetBlockByNumber (u64 (index + 1)) s with Some b => mret b | None => reset_index index end) Q s.
Proof.
  intros Hr Hi Hge Hu HQ. pose proof (re_len _ Hr) as Hl. unfold GetBlockByNumber. rewrite wrap_small by done.
  unfold len in *. destruct (decide (index = Z.of_nat (length (bc s)) - 2)) as [-> | Hne].
  - destruct (last (bc s)) as [b |] eqn:El; [| apply last_None in El; rewrite El in Hl; cbn in Hl; lia].
    rewrite last_lookup in El. replace (Z.to_nat _) with (pred (length (bc s))) by lia. rewrite El.
    wp_steps. by apply HQ.
  - rewrite lookup_ge_None_2 by lia. unfold reset_index. wp_steps. unfold CurrentBlock, current_number, len.
    destruct (last (bc s)) as [b |] eqn:El; [| apply last_None in El; rewrite El in Hl; cbn in Hl; lia].
    destruct (Z.ltb_spec index (Z.of_nat (length (bc s)) - 1)); [lia |].
    destruct (Z.ltb_spec 0 (Z.of_nat (length (bc s)) - 1)); [| lia]. wp_step. apply wp_SetLatestIndex. wp_steps.
    replace (Z.of_nat (length (bc s)) - 1 - 1) with (Z.of_nat (length (bc s)) - 2) by lia. apply HQ; try done.
    + by apply latest_enqueue_write_head.
    + apply latest_index_write. lia.
Qed.

Theorem initializeLatestL1_repairs h index q s :
  verifier cfg && (backend cfg =? BackendL1) = false → recoverable s →
  latest_index s = Some index → len (bc s) - 2 <= index → is_u64 (index + 1) →
  latest_enqueue s = Some q → (∀ q', last_queue_index (bc s) = Some q' → is_u64 q') →
  ∃ s' b tx n, initializeLatestL1 h s = (Ok tt, s') ∧ synced s' ∧ bc s' = bc s ∧
    last (bc s) = Some b ∧ bk_Transactions b = [tx] ∧ L1BlockNumber (meta tx) = Some n ∧
    bvm_timestamp s' = L1Timestamp (meta tx) ∧ bvm_blockNumber s' = big_Uint64 n ∧
    latest_enqueue s' = Some (default q (last_queue_index (bc s))).
Proof.
  intros Hv Hr Hi Hge Hu Hq Hqu. pose proof (re_len _ Hr) as Hl.
  assert (H : wp (initializeLatestL1 h) (λ r s', r = Ok tt ∧ ∃ b tx n, synced s' ∧ bc s' = bc s ∧
    last (bc s) = Some b ∧ bk_Transactions b = [tx] ∧ L1BlockNumber (meta tx) = Some n ∧
    bvm_timestamp s' = L1Timestamp (meta tx) ∧ bvm_blockNumber s' = big_Uint64 n ∧
    latest_enqueue s' = Some (default q (last_queue_index (bc s)))) s).
  { unfold initializeLatestL1, GetLatestIndex. wp_step. wp_steps. rewrite Hi. unfold repair_batch_index. rewrite Hv.
    wp_steps. apply (repair_index_wp _ index s Hr Hi Hge Hu). intros b s1 Hb Hc He Hx.
    destruct (re_blocks _ Hr (length (bc s) - 2) b) as (tx & Ht & Htx & Hn).
    { rewrite last_lookup in Hb. unfold len in Hl. by replace (S (length (bc s) - 2)) with (pred (length (bc s))) by lia. }
    destruct (L1BlockNumber (meta tx)) as [n |] eqn:En; [| done].
    unfold wp_cont, recover_context, SetLatestL1Timestamp, SetLatestL1BlockNumber. rewrite Ht. wp_steps. rewrite En. wp_steps.
    unfold repair_queue_index, GetLatestEnqueueIndex'. wp_step. wp_step. rewrite <- He in Hq.
    change (latest_enqueue (set_blockNumber _ _)) with (latest_enqueue s1). rewrite Hq. wp_steps.
    apply wp_SetLatestEnqueueIndex. cbn [bc set_blockNumber set_timestamp]. rewrite Hc, find_queue_index_last by done.
    split; [done |]. exists b, tx, n. set (s2 := set_blockNumber _ _).
    assert (Hs2 : synced s2).
    { split; cbn; rewrite ?Hc; [intros E0; apply (f_equal len) in E0; change (len []) with 0 in E0; lia | lia | |].
      - change (latest_index s2) with (latest_index s1). rewrite Hx, (proj2 (Z.eqb_neq _ _)) by lia. done.
      - intros n' b' Hb'. destruct (re_blocks _ Hr _ _ Hb') as (tx' & ? & ? & _). eauto. }
    destruct (last_queue_index (bc s)) as [q' |] eqn:Eq'; [| done].
    split.
    - split; [apply (sy_genesis _ Hs2) | apply (sy_len _ Hs2) | | apply (sy_blocks _ Hs2)].
      rewrite latest_index_write_queue. apply (sy_index _ Hs2).
    - split_and!; try done. apply latest_enqueue_write. by apply Hqu. }
  unfold wp in H. destruct (initializeLatestL1 h s) as [r s']. cbn in H. destruct H as [-> (b & tx & n & H)].
  by exists s', b, tx, n.
Qed.

(** ** The verifier *)

(** A transaction of a batch comes with everything filled in. *)
Definition complete tx : Prop :=
  Index (meta tx) ≠ None ∧ L1Timestamp (meta tx) ≠ 0 ∧ L1BlockNumber (meta tx) ≠ None.

(** The executor and the block producer compute the same root for a
    transaction on top of a chain. *)
Definition executor_agrees : Prop :=
  ∀ chain tx tx' w root w1 v root' v1, data tx' = data tx → meta tx' = meta tx →
    executor_applyTx chain tx w = (Ok root, w1) → mine chain tx' v = (Ok root', v1) → root' = root.

Lemma settled_complete tx tx' : settled tx tx' → complete tx → data tx' = data tx ∧ meta tx' = meta tx.
Proof.
  intros Hst (Hi & Ht & Hn). split; [apply Hst |].
  assert (Hm : shouldMalleateTimestamp tx = false).
  { unfold shouldMalleateTimestamp. by rewrite (bool_decide_eq_false_2 (Index (meta tx) = None)), andb_false_r. }
  pose proof (st_time _ _ Hst Ht Hm) as H1. destruct (Index (meta tx)) as [i |] eqn:Ei; [| done].
  pose proof (st_index _ _ Hst i Ei) as H2. destruct (L1BlockNumber (meta tx)) as [n |] eqn:En; [| done].
  pose proof (st_number _ _ Hst n En) as H3. destruct Hst as [_ H4 H5 H6 H7 _ _ _].
  destruct (meta tx), (meta tx'). cbn in *. by subst.
Qed.

(** What a positive answer of [verifyTx] says. *)
Lemma verifyTx_true tx s s1 :
  mpcVerifier cfg = false → verifyTx tx s = (Ok true, s1) →
  ∃ i w w1 root w2, Index (meta tx) = Some i ∧ GetStateRoot client i (backend cfg) w = (Ok root, w1) ∧
    next_index (latest_index s) <= i ∧ executor_applyTx (bc s) tx w1 = (Ok root, w2) ∧ s1 = set_world w2 s.
Proof.
  intros Hmpc E0. unfold verifyTx in E0. rewrite Hmpc in E0. destruct (Index (meta tx)) as [i |] eqn:Ei; [| done].
  apply st_bind_Ok in E0 as (root & s2 & E1 & E2). apply st_wrap_err_Ok, remote_Ok in E1 as (w1 & E1 & ->).
  unfold GetNextIndex in E2. cbv [mbind st_bind st_gets] in E2.
  change (latest_index (set_world w1 s)) with (latest_index s) in E2.
  destruct (Z.ltb_spec i (next_index (latest_index s))); [done |].
  apply st_bind_Ok in E2 as (root' & s3 & E3 & E4). apply st_wrap_err_Ok, remote_Ok in E3 as (w2 & E3 & ->).
  unfold bytes_Equal in E4. case_bool_decide as Hroot; [| done]. injection E4 as <-. subst root'.
  by exists i, (world s), w1, root, w2.
Qed.

Lemma verifyTx_false tx s s1 :
  mpcVerifier cfg = false → verifyTx tx s = (Ok false, s1) → ∃ w, s1 = set_world w s.
Proof.
  intros Hmpc E0. unfold verifyTx in E0. rewrite Hmpc in E0. destruct (Index (meta tx)) as [i |] eqn:Ei; [| done].
  apply st_bind_Ok in E0 as (root & s2 & E1 & E2). apply st_wrap_err_Ok, remote_Ok in E1 as (w1 & E1 & ->).
  unfold GetNextIndex in E2. cbv [mbind st_bind st_gets] in E2.
  destruct (i <? _); [injection E2 as <-; eauto |].
  apply st_bind_Ok in E2 as (root' & s3 & E3 & E4). by destruct (negb _).
Qed.

(** Applying a batched transaction that is not behind the chain. *)
Lemma applyBatchedTransaction_Ok tx i s s' :
  synced s → len (bc s) + 1 < 2 ^ 64 → Index (meta tx) = Some i → next_index (latest_index s) <= i →
  applyBatchedTransaction tx s = (Ok tt, s') →
  synced s' ∧ i = len (bc s) - 1 ∧ ∃ tx' root w w', settled tx tx' ∧ mine (bc s) tx' w = (Ok root, w') ∧
    bc s' = bc s ++ [new_block tx' root].
Proof.
  intros Hs Hl Hi Hge E0. unfold applyBatchedTransaction in E0. rewrite Hi in E0.
  apply st_bind_Ok in E0 as ([] & s1 & E1 & E2). apply st_wrap_err_Ok in E1. injection E2 as <-.
  unfold applyIndexedTransaction in E1. rewrite Hi in E1. unfold GetNextIndex in E1. cbv [mbind st_bind st_gets] in E1.
  rewrite synced_next in E1, Hge by done. destruct (Z.eqb_spec i (len (bc s) - 1)) as [-> | Hne].
  2: { destruct (Z.ltb_spec i (len (bc s) - 1)); [lia |]. exfalso. destruct (dtlEigenEnable cfg); [| done].
       unfold GetLatestEigenBatchIndex, st_gets in E1. by destruct (ReadLatestEigenBatchIndex (db s)). }
  pose proof (applyTransactionToTip_Ok _ _ _ E1) as Ha.
  destruct (applyTransactionToTip_synced tx s s1 Hs (or_intror Hi) Hl E1) as [Hs1 _].
  destruct (ap_tx _ _ _ Ha) as (w & tx' & root & w' & Hst & _ & _ & Hm & Hb & _).
  split; [| by eauto 10]. destruct Hs1 as [H1 H2 H3 H4]. split; try done. by rewrite latest_index_write_verified.
Qed.


End Facts.
