(* ===== verification/SyncServiceExamples.v ===== *)
(** Runs of the sync service in a small world: the theorems of
    SyncServiceFacts.v applied to a concrete environment.

    The world never changes.  The indexer serves the transactions 0 and 1; the
    state root of a block is the number of blocks below it; the L2 gas price
    is the number of transactions of the oracle's owner.  [mines] and [reads]
    tell whether the block producer and the state database work. *)

From S2P Require Import Prelude TxMeta Transaction BigFloat Fees RollupIndexes SyncService SyncServiceFacts.

(** The owner has the key that signed [example_signed]. *)
Definition owner : list byte := replicate 20 Byte.x01.

Definition sent_by_owner (b : block) : bool :=
  match bk_Transactions b with
  | [tx] => match signer_Sender toy_Keccak256 toy_Ecrecover (EIP155Signer 5000) tx with
            | Ok a => bytes_Equal a owner
            | _ => bytes_Equal zero_address owner
            end
  | _ => false
  end.

Definition slots_of (chain : list block) (slot : Z) : Z :=
  if slot =? L2GasPriceSlot then len (filter (λ b, sent_by_owner b = true) chain)
  else if slot =? L2GasPriceOracleOwnerSlot then be_val owner else example_slots slot.

Definition indexed_tx (i : Z) : Transaction :=
  set_meta (NewTransactionMeta (Some 50) (1650000000 + i) None QueueOriginSequencer (Some i) None None) example_signed.

Definition root_at (n : Z) : list byte := [z2b n].

Definition example_client : Clients () :=
  {| GetEnqueue := λ _, st_fail errElementNotFound;
     GetLatestEnqueueIndex := st_fail errElementNotFound;
     GetLastConfirmedEnqueue := st_fail errElementNotFound;
     GetTransaction := λ i _, mret (indexed_tx i);
     GetRawTransaction_BatchIndex := λ _ _, mret 0;
     GetLatestTransactionIndex := λ _, mret (Some 1);
     GetStateRoot := λ i _, mret (root_at (i + 1));
     GetEthContext := λ _, mret {| ec_BlockNumber := 10; ec_Timestamp := 1600000000 |};
     GetLatestEthContext := mret {| ec_BlockNumber := 60; ec_Timestamp := 1650000100 |};
     GetTransactionBatch := λ _, mret [indexed_tx 0; indexed_tx 1];
     GetLatestTransactionBatchIndex := mret (Some 0);
     GetEigenLatestBatchIndex := mret None;
     GetRollupStoreByRollupBatchIndex := λ _, mret {| DataStoreId := 0; UpgradeDataStoreId := 0 |};
     GetBatchTransactionByDataStoreId := λ _, mret [] |}.

Definition example_env (mines reads : bool) : SyncEnv () := {|
  cfg := {| verifier := false; mpcVerifier := false; dtlEigenEnable := false; backend := BackendL2;
            timestampRefreshThreshold := 180 * second; enforceFees := true; signer := EIP155Signer 5000;
            feeThresholdUp := Some (NewFloat 5 0); feeThresholdDown := Some (NewFloat 1 (-1)) |};
  client := example_client;
  time_Now := mret (1650000200 * second);
  State := λ chain, if reads then Ok {| gpo_slots := slots_of chain; GetBalance := λ _, 10 ^ 18 |}
                    else Err (ErrNew "missing trie node");
  mine := λ chain _, if mines then mret (root_at (len chain)) else st_fail (ErrNew "gas limit reached");
  executor_applyTx := λ chain _, mret (root_at (len chain));
  bc_SetHead := λ n chain, Ok (take (S (Z.to_nat n)) chain);
  Keccak256 := toy_Keccak256;
  Ecrecover := toy_Ecrecover;
  unpack_relay := λ _, (zero_address, zero_address, []);
  unpack_rollback := λ _, None;
  BvmRollbackAddress := replicate 20 Byte.x22;
  uint64_out_of_range := amd64_conversion;
  txpool_ValidateTx := λ _, mret tt;
|}.

Definition genesis : block := {| bk_Transactions := []; bk_Root := root_at 0 |}.

Definition with_chain (d : database) (chain : list block) : SyncService () :=
  {| world := tt; db := d; bvm_timestamp := 1650000000; bvm_blockNumber := 10; bc := chain;
     RollupGpo := oracle_of (slots_of chain); gasPriceOracleOwnerAddress := owner; syncing := None |}.

(** A new node, and one with a block. *)
Definition start : SyncService () := with_chain ∅ [genesis].
Definition one_block : SyncService () :=
  with_chain (WriteHeadIndex 0 ∅) [genesis; {| bk_Transactions := [indexed_tx 0]; bk_Root := root_at 1 |}].

Lemma start_synced : synced start.
Proof. split; [discriminate | reflexivity | reflexivity |]. by intros [| n] b Hb. Qed.

Lemma one_block_synced : synced one_block.
Proof.
  split; [discriminate | reflexivity | reflexivity |]. intros [| n] b Hb; cbn in Hb; [| done].
  injection Hb as <-. by exists (indexed_tx 0).
Qed.

Lemma client_indexed mines reads : @indexed_answers () (λ i, GetTransaction (@client _ (example_env mines reads)) i BackendL2).
Proof. intros i w tx w' [= <- <-]. reflexivity. Qed.

(** ** Syncing *)

Lemma syncTransactionRange_extends_witness :
  ∃ s', @syncTransactionRange _ (example_env true true) BackendL2 0 1 start = (Ok tt, s') ∧ synced s' ∧ len (bc s') = 3.
Proof.
  eexists. split; [vm_compute; reflexivity |].
  match goal with |- synced ?s' ∧ _ =>
    destruct (@syncTransactionRange_extends _ (example_env true true) BackendL2 1 start s'
      (client_indexed true true) start_synced) as (H1 & H2 & _) end.
  - vm_compute. discriminate.
  - reflexivity.
  - vm_compute. reflexivity.
  - split; [exact H1 | exact H2].
Defined.

Lemma example_healthy : @healthy _ (example_env true true) BackendL2 1.
Proof.
  split.
  - intros i w Hi. exists (indexed_tx i), w. split; [done |]. split; [done |]. cbn. lia.
  - intros chain tx w. by eexists _, w.
  - intros chain. by eexists.
  - intros w. by exists w.
Qed.

Lemma syncTransactionsToTip_reaches_tip_witness :
  ∃ s', @syncTransactionsToTip _ (example_env true true) 1 start = (Ok tt, s') ∧ synced s' ∧
    next_index (latest_index s') = 2.
Proof.
  destruct (@syncTransactionsToTip_reaches_tip _ (example_env true true) 1 0 start example_healthy
    (client_indexed true true) start_synced) as (s' & H1 & H2 & H3 & _).
  - vm_compute. discriminate.
  - reflexivity.
  - exists s'. split; [exact H1 | split; [exact H2 | exact H3]].
Defined.

(** ** The L1 context and the oracle's cache *)

(** A transaction that arrives over RPC. *)
Definition rpc_tx : Transaction := example_signed.

Lemma l1_context_monotone_witness :
  let '(r, s') := @applyTransactionToTip _ (example_env true true) rpc_tx one_block in
  ∃ b tx', bc s' = bc one_block ++ [b] ∧ bk_Transactions b = [tx'] ∧
    bvm_timestamp one_block <= L1Timestamp (meta tx') ∧ bvm_timestamp s' = L1Timestamp (meta tx').
Proof.
  refine (proj2 (proj2 (@l1_context_monotone _ (example_env true true) rpc_tx one_block)) _ _ _ _ _).
  - vm_compute. reflexivity.
  - simpl. lia.
  - simpl. unfold second. lia.
  - intros w now w' [= <- <-]. reflexivity.
  - left. reflexivity.
Defined.

Lemma owner_address : BigToAddress (be_val owner) = owner.
Proof. vm_compute. reflexivity. Qed.

Lemma example_only_owner : @only_owner_changes _ (example_env true true).
Proof.
  intros chain tx root state HS Hs. injection HS as <-. eexists. split; [reflexivity |]. intros slot.
  cbn [gpo_slots]. unfold slots_of.
  destruct (slot =? L2GasPriceSlot); [| reflexivity]. unfold len. rewrite filter_app, length_app.
  rewrite (filter_cons_False _ (new_block tx root)); [simpl; lia |].
  change (BigToAddress _) with (BigToAddress (be_val owner)) in Hs. rewrite owner_address in Hs.
  unfold sender_or_zero in Hs. unfold sent_by_owner, new_block, bytes_Equal.
  cbn [bk_Transactions] in *. cbn [Keccak256 Ecrecover cfg example_env signer] in Hs.
  destruct (signer_Sender _ _ _ tx); by rewrite bool_decide_eq_true.
Qed.

Lemma one_block_coherent : @coherent _ (example_env true true) one_block.
Proof. eexists. split; [reflexivity |]. split; [reflexivity | vm_compute; reflexivity]. Qed.

Lemma cache_coherent_witness :
  ∃ s', @applyTransactionToTip _ (example_env true true) rpc_tx one_block = (Ok tt, s') ∧
    @coherent _ (example_env true true) s' ∧ l2GasPrice (RollupGpo s') = 2.
Proof.
  eexists. split; [vm_compute; reflexivity |]. split; [| reflexivity].
  refine (@cache_coherent _ (example_env true true) rpc_tx one_block _ example_only_owner one_block_coherent _).
  vm_compute. reflexivity.
Defined.

(** ** Failures *)

Definition enqueue_tx : Transaction :=
  set_meta (NewTransactionMeta (Some 50) 1650000000 (Some (replicate 20 Byte.x33)) QueueOriginL1ToL2 None (Some 4) None)
    example_signed.

Lemma failed_enqueue_skipped_witness :
  ∃ e s', @applyTransactionToTip _ (example_env false true) enqueue_tx one_block = (Err e, s') ∧
    bc s' = bc one_block ∧ GetNextEnqueueIndex s' = (Ok 5, s').
Proof.
  refine (@failed_enqueue_skipped _ (example_env false true) enqueue_tx 4 one_block _ _ _ _ _).
  - reflexivity.
  - lia.
  - simpl. lia.
  - exists (1650000200 * second), tt. reflexivity.
  - intros tx w. eexists _, w. reflexivity.
Defined.

Definition owner_tx : Transaction :=
  set_meta (NewTransactionMeta None 1650000000 None QueueOriginSequencer None None None) example_signed.

Lemma cache_failure_desyncs_witness :
  ∃ e s' b, @applyTransactionToTip _ (example_env true false) owner_tx one_block = (Err e, s') ∧
    bc s' = bc one_block ++ [b] ∧ latest_index s' = latest_index one_block ∧ ¬ synced s'.
Proof.
  refine (@cache_failure_desyncs _ (example_env true false) owner_tx one_block one_block_synced _ _ _ _ _ _ _).
  - vm_compute. discriminate.
  - reflexivity.
  - simpl. lia.
  - exists (1650000200 * second), tt. reflexivity.
  - intros tx w. eexists _, w. reflexivity.
  - intros tx' Hst. unfold sender_or_zero, signer_Sender. rewrite (st_data _ _ Hst). vm_compute. reflexivity.
  - intros b. eexists. reflexivity.
Defined.

Lemma first_failure_prevents_restart_witness :
  ∃ e s', @applyTransactionToTip _ (example_env false true) owner_tx start = (Err e, s') ∧
    @initializeLatestL1 _ (example_env false true) (Some 1) s' = (Panic "Cannot recover BVM Context", s').
Proof.
  refine (@first_failure_prevents_restart _ (example_env false true) owner_tx genesis (Some 1) start start_synced
    _ _ _ _ _ _ _); try reflexivity.
  - simpl. lia.
  - exists (1650000200 * second), tt. reflexivity.
  - intros tx w. eexists _, w. reflexivity.
Defined.

(** ** Restarting *)

(** The index was written, the block was not. *)
Definition crashed : SyncService () :=
  with_chain (WriteHeadQueueIndex 9 (WriteHeadIndex 1 ∅))
    [genesis; {| bk_Transactions := [set_meta (NewTransactionMeta (Some 50) 1650000000 None QueueOriginL1ToL2
       (Some 0) (Some 8) None) example_signed]; bk_Root := root_at 1 |}].

Lemma crashed_recoverable : recoverable crashed.
Proof.
  split; [vm_compute; split; [discriminate | reflexivity] |]. intros [| n] b Hb; cbn in Hb; [| done].
  injection Hb as <-. eexists. split; [reflexivity |]. by split.
Qed.

Lemma initializeLatestL1_repairs_witness :
  ∃ s' b tx n, @initializeLatestL1 _ (example_env true true) None crashed = (Ok tt, s') ∧ synced s' ∧
    bc s' = bc crashed ∧ last (bc crashed) = Some b ∧ bk_Transactions b = [tx] ∧ L1BlockNumber (meta tx) = Some n ∧
    bvm_timestamp s' = L1Timestamp (meta tx) ∧ bvm_blockNumber s' = big_Uint64 n ∧ latest_enqueue s' = Some 8.
Proof.
  refine (@initializeLatestL1_repairs _ (example_env true true) None 1 9 crashed _ crashed_recoverable _ _ _ _ _).
  - reflexivity.
  - reflexivity.
  - vm_compute. discriminate.
  - lia.
  - reflexivity.
  - intros q' [= <-]. lia.
Defined.

(** ** Verifying *)

