(* ===== verification/StateDB.v ===== *)
(** The state database of l2geth: src/l2geth/core/state/statedb.go,
    state_object.go, journal.go and access_list.go.

    A state is the accounts of the trie under the objects that the current
    block has changed, and a journal that can undo every change.  [UsingBVM] is
    a constant of the build: balances are storage slots of the BVM_MANTLE
    contract, and only those branches are modelled.  A word of 32 bytes is a
    number.  Objects that were loaded and not changed, the read cache
    [originStorage] and the timers are left out: they hold nothing that the
    trie does not. *)

From S2P Require Import Prelude.

Abbreviation address := (list byte).

(** ** Words *)

(** [common.BigToHash]: the absolute value, cropped to 32 bytes. *)
Definition BigToHash (z : Z) : Z := Z.abs z mod 2 ^ 256.

Definition BvmMantleAddress : address := be 20 0xDeadDeAddeAddEAddeadDEaDDEAdDeaDDeAD0000.

(** ** State objects *)

(** An account of the trie, with the content of its storage trie. *)
Record account := {
  acc_Nonce : Z;
  acc_Balance : Z;
  acc_CodeHash : list byte;
  acc_storage : gmap Z Z;
}.

(** [so_code] is [None] while the code is not loaded. *)
Record stateObject := {
  so_Nonce : Z;
  so_Balance : Z;
  so_CodeHash : list byte;
  so_code : option (list byte);
  so_trie : gmap Z Z;
  pendingStorage : gmap Z Z;
  dirtyStorage : gmap Z Z;
  suicided : bool;
  deleted : bool;
}.

Definition setNonce (n : Z) (o : stateObject) : stateObject :=
  {| so_Nonce := n; so_Balance := so_Balance o; so_CodeHash := so_CodeHash o; so_code := so_code o;
     so_trie := so_trie o; pendingStorage := pendingStorage o; dirtyStorage := dirtyStorage o;
     suicided := suicided o; deleted := deleted o |}.

Definition setBalance (b : Z) (o : stateObject) : stateObject :=
  {| so_Nonce := so_Nonce o; so_Balance := b; so_CodeHash := so_CodeHash o; so_code := so_code o;
     so_trie := so_trie o; pendingStorage := pendingStorage o; dirtyStorage := dirtyStorage o;
     suicided := suicided o; deleted := deleted o |}.

Definition setCode (codeHash : list byte) (code : option (list byte)) (o : stateObject) : stateObject :=
  {| so_Nonce := so_Nonce o; so_Balance := so_Balance o; so_CodeHash := codeHash; so_code := code;
     so_trie := so_trie o; pendingStorage := pendingStorage o; dirtyStorage := dirtyStorage o;
     suicided := suicided o; deleted := deleted o |}.

Definition setState (key value : Z) (o : stateObject) : stateObject :=
  {| so_Nonce := so_Nonce o; so_Balance := so_Balance o; so_CodeHash := so_CodeHash o; so_code := so_code o;
     so_trie := so_trie o; pendingStorage := pendingStorage o; dirtyStorage := <[key := value]> (dirtyStorage o);
     suicided := suicided o; deleted := deleted o |}.

Definition set_suicided (b : bool) (o : stateObject) : stateObject :=
  {| so_Nonce := so_Nonce o; so_Balance := so_Balance o; so_CodeHash := so_CodeHash o; so_code := so_code o;
     so_trie := so_trie o; pendingStorage := pendingStorage o; dirtyStorage := dirtyStorage o;
     suicided := b; deleted := deleted o |}.

Definition obj_GetCommittedState (o : stateObject) (key : Z) : Z :=
  match pendingStorage o !! key with
  | Some v => v
  | None => default 0 (so_trie o !! key)
  end.

Definition obj_GetState (o : stateObject) (key : Z) : Z :=
  match dirtyStorage o !! key with
  | Some v => v
  | None => obj_GetCommittedState o key
  end.

(** ** The access list *)

Record accessList := { al_addresses : gmap address Z; al_slots : list (gset Z) }.

Definition al_AddAddress (a : address) (al : accessList) : accessList * bool :=
  match al_addresses al !! a with
  | Some _ => (al, false)
  | None => ({| al_addresses := <[a := -1]> (al_addresses al); al_slots := al_slots al |}, true)
  end.

Definition al_AddSlot (a : address) (slot : Z) (al : accessList) : outcome (accessList * bool * bool) :=
  let fresh addrChange :=
    Ok ({| al_addresses := <[a := len (al_slots al)]> (al_addresses al);
           al_slots := al_slots al ++ [{[ slot ]}] |}, addrChange, true) in
  match al_addresses al !! a with
  | None => fresh true
  | Some idx =>
      if idx =? -1 then fresh false
      else
        match al_slots al !! Z.to_nat idx with
        | None => Panic "index out of range"
        | Some slotmap =>
            if bool_decide (slot ∈ slotmap) then Ok (al, false, false)
            else Ok ({| al_addresses := al_addresses al;
                        al_slots := <[Z.to_nat idx := {[ slot ]} ∪ slotmap]> (al_slots al) |}, false, true)
        end
  end.

Definition al_DeleteSlot (a : address) (slot : Z) (al : accessList) : outcome accessList :=
  match al_addresses al !! a with
  | None => Panic "reverting slot change, address not present in list"
  | Some idx =>
      if idx <? 0 then Panic "index out of range"
      else
        match al_slots al !! Z.to_nat idx with
        | None => Panic "index out of range"
        | Some slotmap =>
            let slotmap := slotmap ∖ {[ slot ]} in
            if bool_decide (slotmap = ∅)
            then Ok {| al_addresses := <[a := -1]> (al_addresses al); al_slots := take (Z.to_nat idx) (al_slots al) |}
            else Ok {| al_addresses := al_addresses al; al_slots := <[Z.to_nat idx := slotmap]> (al_slots al) |}
        end
  end.

Definition al_DeleteAddress (a : address) (al : accessList) : accessList :=
  {| al_addresses := delete a (al_addresses al); al_slots := al_slots al |}.

(** [Contains]: the address, and the slot. *)
Definition al_Contains (a : address) (slot : Z) (al : accessList) : outcome (bool * bool) :=
  match al_addresses al !! a with
  | None => Ok (false, false)
  | Some idx =>
      if idx =? -1 then Ok (true, false)
      else
        match al_slots al !! Z.to_nat idx with
        | None => Panic "index out of range"
        | Some slotmap => Ok (true, bool_decide (slot ∈ slotmap))
        end
  end.

(** ** The journal *)

Inductive journalEntry :=
  | createObjectChange (a : address)
  | resetObjectChange (a : address) (prev : stateObject)
  | suicideChange (a : address) (prev : bool) (prevbalance : Z)
  | balanceChange (a : address) (prev : Z)
  | nonceChange (a : address) (prev : Z)
  | storageChange (a : address) (key prevalue : Z)
  | codeChange (a : address) (prevcode : option (list byte)) (prevhash : list byte)
  | refundChange (prev : Z)
  | addLogChange (txhash : Z)
  | addPreimageChange (hash : Z)
  | touchChange (a : address)
  | accessListAddAccountChange (a : address)
  | accessListAddSlotChange (a : address) (slot : Z).

Definition dirtied (e : journalEntry) : option address :=
  match e with
  | createObjectChange a | suicideChange a _ _ | balanceChange a _ | nonceChange a _
  | storageChange a _ _ | codeChange a _ _ | touchChange a => Some a
  | _ => None
  end.

Record log := {
  l_Address : address; l_Topics : list Z; l_Data : list byte;
  l_TxHash : Z; l_BlockHash : Z; l_TxIndex : Z; l_Index : Z;
}.

Record StateDB := {
  trie : gmap address account;
  stateObjects : gmap address stateObject;
  refund : Z;
  thash : Z;
  bhash : Z;
  txIndex : Z;
  logs : gmap Z (list log);
  logSize : Z;
  preimages : gmap Z (list byte);
  access : accessList;
  entries : list journalEntry;
  dirties : gmap address Z;
  validRevisions : list (Z * Z);
  nextRevisionId : Z;
}.

Definition with_objects (m : gmap address stateObject) (s : StateDB) : StateDB :=
  {| trie := trie s; stateObjects := m; refund := refund s; thash := thash s; bhash := bhash s; txIndex := txIndex s;
     logs := logs s; logSize := logSize s; preimages := preimages s; access := access s; entries := entries s;
     dirties := dirties s; validRevisions := validRevisions s; nextRevisionId := nextRevisionId s |}.

Definition with_refund (r : Z) (s : StateDB) : StateDB :=
  {| trie := trie s; stateObjects := stateObjects s; refund := r; thash := thash s; bhash := bhash s; txIndex := txIndex s;
     logs := logs s; logSize := logSize s; preimages := preimages s; access := access s; entries := entries s;
     dirties := dirties s; validRevisions := validRevisions s; nextRevisionId := nextRevisionId s |}.

Definition with_logs (l : gmap Z (list log)) (n : Z) (s : StateDB) : StateDB :=
  {| trie := trie s; stateObjects := stateObjects s; refund := refund s; thash := thash s; bhash := bhash s;
     txIndex := txIndex s; logs := l; logSize := n; preimages := preimages s; access := access s; entries := entries s;
     dirties := dirties s; validRevisions := validRevisions s; nextRevisionId := nextRevisionId s |}.

Definition with_preimages (p : gmap Z (list byte)) (s : StateDB) : StateDB :=
  {| trie := trie s; stateObjects := stateObjects s; refund := refund s; thash := thash s; bhash := bhash s;
     txIndex := txIndex s; logs := logs s; logSize := logSize s; preimages := p; access := access s; entries := entries s;
     dirties := dirties s; validRevisions := validRevisions s; nextRevisionId := nextRevisionId s |}.

Definition with_access (al : accessList) (s : StateDB) : StateDB :=
  {| trie := trie s; stateObjects := stateObjects s; refund := refund s; thash := thash s; bhash := bhash s;
     txIndex := txIndex s; logs := logs s; logSize := logSize s; preimages := preimages s; access := al;
     entries := entries s; dirties := dirties s; validRevisions := validRevisions s; nextRevisionId := nextRevisionId s |}.

Definition with_journal (es : list journalEntry) (d : gmap address Z) (s : StateDB) : StateDB :=
  {| trie := trie s; stateObjects := stateObjects s; refund := refund s; thash := thash s; bhash := bhash s;
     txIndex := txIndex s; logs := logs s; logSize := logSize s; preimages := preimages s; access := access s;
     entries := es; dirties := d; validRevisions := validRevisions s; nextRevisionId := nextRevisionId s |}.

Definition with_revisions (v : list (Z * Z)) (n : Z) (s : StateDB) : StateDB :=
  {| trie := trie s; stateObjects := stateObjects s; refund := refund s; thash := thash s; bhash := bhash s;
     txIndex := txIndex s; logs := logs s; logSize := logSize s; preimages := preimages s; access := access s;
     entries := entries s; dirties := dirties s; validRevisions := v; nextRevisionId := n |}.

Definition put (a : address) (o : stateObject) (s : StateDB) : StateDB :=
  with_objects (<[a := o]> (stateObjects s)) s.

(** [journal.append] and the undoing of its bookkeeping. *)
Definition mark_dirty (e : journalEntry) (d : gmap address Z) : gmap address Z :=
  match dirtied e with Some a => <[a := default 0 (d !! a) + 1]> d | None => d end.

Definition unmark_dirty (e : journalEntry) (d : gmap address Z) : gmap address Z :=
  match dirtied e with
  | Some a => let n := default 0 (d !! a) - 1 in if n =? 0 then delete a d else <[a := n]> d
  | None => d
  end.

Definition append (e : journalEntry) (s : StateDB) : StateDB :=
  with_journal (entries s ++ [e]) (mark_dirty e (dirties s)) s.

(** [New], on the trie that the root opens. *)
Definition New (tr : gmap address account) : StateDB :=
  {| trie := tr; stateObjects := ∅; refund := 0; thash := 0; bhash := 0; txIndex := 0; logs := ∅; logSize := 0;
     preimages := ∅; access := {| al_addresses := ∅; al_slots := [] |}; entries := []; dirties := ∅;
     validRevisions := []; nextRevisionId := 0 |}.

Section StateDB.
  (** Keccak-256, and the contract code of the database by its hash. *)
  Context (Keccak256 : list byte → list byte) (ContractCode : list byte → list byte).

Definition emptyCodeHash : list byte := Keccak256 [].

Definition GetbvmBalanceKey (a : address) : Z :=
  be_val (Keccak256 (replicate (32 - length a) Byte.x00 ++ a ++ replicate 32 Byte.x00)).

Definition newObject (acc : account) : stateObject :=
  {| so_Nonce := acc_Nonce acc; so_Balance := acc_Balance acc; so_CodeHash := acc_CodeHash acc; so_code := None;
     so_trie := acc_storage acc; pendingStorage := ∅; dirtyStorage := ∅; suicided := false; deleted := false |}.

Definition empty_account : account :=
  {| acc_Nonce := 0; acc_Balance := 0; acc_CodeHash := emptyCodeHash; acc_storage := ∅ |}.

(** nil for the empty code. *)
Definition obj_Code (o : stateObject) : option (list byte) :=
  match so_code o with
  | Some c => Some c
  | None => if bool_decide (so_CodeHash o = emptyCodeHash) then None else Some (ContractCode (so_CodeHash o))
  end.

Definition obj_empty (o : stateObject) : bool :=
  (so_Nonce o =? 0) && (so_Balance o =? 0) && bool_decide (so_CodeHash o = emptyCodeHash).

(** ** Objects of a state *)

Definition getDeletedStateObject (a : address) (s : StateDB) : option stateObject :=
  match stateObjects s !! a with
  | Some o => Some o
  | None => newObject <$> trie s !! a
  end.

Definition getStateObject (a : address) (s : StateDB) : option stateObject :=
  match getDeletedStateObject a s with
  | Some o => if deleted o then None else Some o
  | None => None
  end.

Definition createObject (a : address) (s : StateDB) : stateObject * option stateObject * StateDB :=
  let prev := getDeletedStateObject a s in
  let newobj := setNonce 0 (newObject empty_account) in
  let s := append (match prev with None => createObjectChange a | Some p => resetObjectChange a p end) s in
  (newobj, prev, put a newobj s).

Definition GetOrNewStateObject (a : address) (s : StateDB) : stateObject * StateDB :=
  match getStateObject a s with
  | Some o => (o, s)
  | None => let '(o, _, s) := createObject a s in (o, s)
  end.

Definition CreateAccount (a : address) (s : StateDB) : StateDB :=
  let '(newObj, prev, s) := createObject a s in
  match prev with
  | Some p => put a (setBalance (so_Balance p) newObj) s
  | None => s
  end.

(** ** Getters *)

Definition Exist (a : address) (s : StateDB) : bool := bool_decide (getStateObject a s ≠ None).

Definition Empty (a : address) (s : StateDB) : bool :=
  match getStateObject a s with None => true | Some o => obj_empty o end.

Definition GetNonce (a : address) (s : StateDB) : Z := from_option so_Nonce 0 (getStateObject a s).

Definition GetCode (a : address) (s : StateDB) : list byte :=
  from_option (λ o, default [] (obj_Code o)) [] (getStateObject a s).

(** [common.Hash{}] for an account that does not exist. *)
Definition GetCodeHash (a : address) (s : StateDB) : list byte :=
  from_option so_CodeHash (replicate 32 Byte.x00) (getStateObject a s).

Definition GetState (a : address) (key : Z) (s : StateDB) : Z :=
  from_option (λ o, obj_GetState o key) 0 (getStateObject a s).

Definition GetCommittedState (a : address) (key : Z) (s : StateDB) : Z :=
  from_option (λ o, obj_GetCommittedState o key) 0 (getStateObject a s).

Definition HasSuicided (a : address) (s : StateDB) : bool := from_option suicided false (getStateObject a s).

Definition GetBalance (a : address) (s : StateDB) : Z := GetState BvmMantleAddress (GetbvmBalanceKey a) s.

Definition GetRefund (s : StateDB) : Z := refund s.

Definition AddressInAccessList (a : address) (s : StateDB) : bool := bool_decide (a ∈ dom (al_addresses (access s))).

Definition SlotInAccessList (a : address) (slot : Z) (s : StateDB) : outcome (bool * bool) := al_Contains a slot (access s).

(** ** Setters *)

Definition SetNonce (a : address) (nonce : Z) (s : StateDB) : StateDB :=
  let '(o, s) := GetOrNewStateObject a s in
  put a (setNonce nonce o) (append (nonceChange a (so_Nonce o)) s).

Definition SetCode (a : address) (code : list byte) (s : StateDB) : StateDB :=
  let '(o, s) := GetOrNewStateObject a s in
  put a (setCode (Keccak256 code) (Some code) o) (append (codeChange a (obj_Code o) (so_CodeHash o)) s).

Definition SetState (a : address) (key value : Z) (s : StateDB) : StateDB :=
  let '(o, s) := GetOrNewStateObject a s in
  let prev := obj_GetState o key in
  if prev =? value then s else put a (setState key value o) (append (storageChange a key prev) s).

Definition SetBalance (a : address) (amount : Z) (s : StateDB) : StateDB :=
  SetState BvmMantleAddress (GetbvmBalanceKey a) (BigToHash amount) s.

Definition AddBalance (a : address) (amount : Z) (s : StateDB) : StateDB :=
  SetState BvmMantleAddress (GetbvmBalanceKey a) (BigToHash (GetBalance a s + amount)) s.

Definition SubBalance (a : address) (amount : Z) (s : StateDB) : StateDB :=
  SetState BvmMantleAddress (GetbvmBalanceKey a) (BigToHash (GetBalance a s - amount)) s.

Definition Suicide (a : address) (s : StateDB) : StateDB * bool :=
  match getStateObject a s with
  | None => (s, false)
  | Some o =>
      (put a (setBalance 0 (set_suicided true o)) (append (suicideChange a (suicided o) (so_Balance o)) s), true)
  end.

Definition AddRefund (gas : Z) (s : StateDB) : StateDB :=
  with_refund (u64 (refund s + gas)) (append (refundChange (refund s)) s).

Definition SubRefund (gas : Z) (s : StateDB) : outcome StateDB :=
  if refund s <? gas then Panic "Refund counter below zero"
  else Ok (with_refund (refund s - gas) (append (refundChange (refund s)) s)).

(** The address, the topics and the data are the caller's. *)
Definition AddLog (a : address) (topics : list Z) (d : list byte) (s : StateDB) : StateDB :=
  let l := {| l_Address := a; l_Topics := topics; l_Data := d; l_TxHash := thash s; l_BlockHash := bhash s;
              l_TxIndex := txIndex s; l_Index := logSize s |} in
  with_logs (<[thash s := default [] (logs s !! thash s) ++ [l]]> (logs s)) (logSize s + 1)
    (append (addLogChange (thash s)) s).

Definition AddPreimage (hash : Z) (preimage : list byte) (s : StateDB) : StateDB :=
  match preimages s !! hash with
  | Some _ => s
  | None => with_preimages (<[hash := preimage]> (preimages s)) (append (addPreimageChange hash) s)
  end.

Definition AddAddressToAccessList (a : address) (s : StateDB) : StateDB :=
  let '(al, changed) := al_AddAddress a (access s) in
  let s := with_access al s in
  if changed : bool then append (accessListAddAccountChange a) s else s.

Definition AddSlotToAccessList (a : address) (slot : Z) (s : StateDB) : outcome StateDB :=
  '(al, addrMod, slotMod) ← al_AddSlot a slot (access s);
  let s := with_access al s in
  let s := if addrMod : bool then append (accessListAddAccountChange a) s else s in
  mret (if slotMod : bool then append (accessListAddSlotChange a slot) s else s).

(** ** Snapshots *)

Definition nil_object {A} : outcome A := Panic "invalid memory address or nil pointer dereference".

Definition on_object (a : address) (f : stateObject → stateObject) (s : StateDB) : outcome StateDB :=
  match getStateObject a s with Some o => Ok (put a (f o) s) | None => nil_object end.

Definition revert_entry (e : journalEntry) (s : StateDB) : outcome StateDB :=
  match e with
  | createObjectChange a => Ok (with_objects (delete a (stateObjects s)) s)
  | resetObjectChange a prev => Ok (put a prev s)
  | suicideChange a prev prevbalance =>
      match getStateObject a s with
      | Some o => Ok (put a (setBalance prevbalance (set_suicided prev o)) s)
      | None => Ok s
      end
  | balanceChange a prev => on_object a (setBalance prev) s
  | nonceChange a prev => on_object a (setNonce prev) s
  | storageChange a key prevalue => on_object a (setState key prevalue) s
  | codeChange a prevcode prevhash => on_object a (setCode prevhash prevcode) s
  | refundChange prev => Ok (with_refund prev s)
  | addLogChange txhash =>
      match default [] (logs s !! txhash) with
      | [] => Panic "slice bounds out of range"
      | [_] => Ok (with_logs (delete txhash (logs s)) (logSize s - 1) s)
      | l => Ok (with_logs (<[txhash := take (length l - 1) l]> (logs s)) (logSize s - 1) s)
      end
  | addPreimageChange hash => Ok (with_preimages (delete hash (preimages s)) s)
  | touchChange _ => Ok s
  | accessListAddAccountChange a => Ok (with_access (al_DeleteAddress a (access s)) s)
  | accessListAddSlotChange a slot => al ← al_DeleteSlot a slot (access s); mret (with_access al s)
  end.

(** Undoes entries, the latest first. *)
Fixpoint undo (es : list journalEntry) (s : StateDB) : outcome StateDB :=
  match es with
  | [] => Ok s
  | e :: es => s ← revert_entry e s; undo es (with_journal (entries s) (unmark_dirty e (dirties s)) s)
  end.

Definition journal_revert (snapshot : Z) (s : StateDB) : outcome StateDB :=
  let n := Z.to_nat snapshot in
  s' ← undo (reverse (drop n (entries s))) s;
  mret (with_journal (take n (entries s)) (dirties s') s').

Definition Snapshot (s : StateDB) : Z * StateDB :=
  let id := nextRevisionId s in
  (id, with_revisions (validRevisions s ++ [(id, len (entries s))]) (id + 1) s).

(** [sort.Search] on the increasing ids is the first id that is not below. *)
Definition RevertToSnapshot (revid : Z) (s : StateDB) : outcome StateDB :=
  match list_find (λ r : Z * Z, revid <= r.1) (validRevisions s) with
  | Some (idx, (id, snapshot)) =>
      if id =? revid then
        s' ← journal_revert snapshot s;
        mret (with_revisions (take idx (validRevisions s)) (nextRevisionId s) s')
      else Panic "revision id cannot be reverted"
  | None => Panic "revision id cannot be reverted"
  end.

(** ** The end of a transaction *)

Definition obj_finalise (o : stateObject) : stateObject :=
  {| so_Nonce := so_Nonce o; so_Balance := so_Balance o; so_CodeHash := so_CodeHash o; so_code := so_code o;
     so_trie := so_trie o; pendingStorage := dirtyStorage o ∪ pendingStorage o; dirtyStorage := ∅;
     suicided := suicided o; deleted := deleted o |}.

Definition mark_deleted (o : stateObject) : stateObject :=
  {| so_Nonce := so_Nonce o; so_Balance := so_Balance o; so_CodeHash := so_CodeHash o; so_code := so_code o;
     so_trie := so_trie o; pendingStorage := pendingStorage o; dirtyStorage := dirtyStorage o;
     suicided := suicided o; deleted := true |}.

Definition finalise_object (deleteEmptyObjects : bool) (o : stateObject) : stateObject :=
  if suicided o || (deleteEmptyObjects && obj_empty o) then mark_deleted o else obj_finalise o.

Definition clearJournalAndRefund (s : StateDB) : StateDB :=
  let s := with_revisions [] (nextRevisionId s) s in
  match entries s with
  | [] => s
  | _ => with_refund 0 (with_journal [] ∅ s)
  end.

Definition Finalise (deleteEmptyObjects : bool) (s : StateDB) : StateDB :=
  clearJournalAndRefund
    (with_objects
       (map_imap (λ a o, Some (if bool_decide (a ∈ dom (dirties s)) then finalise_object deleteEmptyObjects o else o))
          (stateObjects s)) s).

End StateDB.
