(* ===== verification/StateTries.v ===== *)
(** The state database on its tries: the parts of src/l2geth/core/state/statedb.go
    and state_object.go that read accounts and slots from tries and write them
    back, with [IntermediateRoot] and [Commit].

    Here an object has its account with the root of its storage trie, the trie
    once it is opened, the three maps of slots and the code; the state database
    has the trie of accounts and the database of trie nodes.  A 32-byte word is a
    number, as in StateDB.v.  Of the journal only its length and the dirtied
    addresses matter.  No trie is copied, so that every trie has the identity 0.
    Debugging ([fakeStorage]) and timers are left out. *)

From S2P Require Import Prelude Rlp RlpStream StateDB TrieNode Trie TrieDatabase TrieDatabaseFacts TrieSecure.

(** ** Accounts and objects *)

Record Account := { Nonce : Z; Balance : Z; Root : list byte; CodeHash : list byte }.

Definition set_Root (h : list byte) (a : Account) : Account :=
  {| Nonce := Nonce a; Balance := Balance a; Root := h; CodeHash := CodeHash a |}.

Definition account_value (a : Account) : value :=
  VStruct [VUint (Nonce a); VBigInt (Some (Balance a)); VBytes (Root a); VBytes (CodeHash a)].

Definition account_ty : ty := TStruct [TUint 64; TBigInt; TByteArray HashLength; TBytes].

Definition account_of (v : value) : outcome Account :=
  match v with
  | VStruct [VUint n; VBigInt (Some b); VBytes r; VBytes c] => Ok {| Nonce := n; Balance := b; Root := r; CodeHash := c |}
  | _ => Panic "not an account"
  end.

(** [rlp.DecodeBytes(enc, &data)] *)
Definition decode_account (enc : list byte) : outcome Account :=
  v ← DecodeBytes (decode (S (length enc)) account_ty) enc; account_of v.

Record object := {
  ob_data : Account;
  ob_trie : option SecureTrie;
  ob_code : option (list byte);
  ob_origin : gmap Z Z;
  ob_pending : gmap Z Z;
  ob_dirty : gmap Z Z;
  ob_dirtyCode : bool;
  ob_suicided : bool;
  ob_deleted : bool;
  ob_dbErr : option error;
}.

Definition set_data (a : Account) (o : object) : object :=
  {| ob_data := a; ob_trie := ob_trie o; ob_code := ob_code o; ob_origin := ob_origin o; ob_pending := ob_pending o; ob_dirty := ob_dirty o;
     ob_dirtyCode := ob_dirtyCode o; ob_suicided := ob_suicided o; ob_deleted := ob_deleted o; ob_dbErr := ob_dbErr o |}.

Definition set_trie (t : option SecureTrie) (o : object) : object :=
  {| ob_data := ob_data o; ob_trie := t; ob_code := ob_code o; ob_origin := ob_origin o; ob_pending := ob_pending o; ob_dirty := ob_dirty o;
     ob_dirtyCode := ob_dirtyCode o; ob_suicided := ob_suicided o; ob_deleted := ob_deleted o; ob_dbErr := ob_dbErr o |}.

Definition set_code (c : option (list byte)) (dirty : bool) (o : object) : object :=
  {| ob_data := ob_data o; ob_trie := ob_trie o; ob_code := c; ob_origin := ob_origin o; ob_pending := ob_pending o; ob_dirty := ob_dirty o;
     ob_dirtyCode := dirty; ob_suicided := ob_suicided o; ob_deleted := ob_deleted o; ob_dbErr := ob_dbErr o |}.

Definition set_slots (origin pending dirty : gmap Z Z) (o : object) : object :=
  {| ob_data := ob_data o; ob_trie := ob_trie o; ob_code := ob_code o; ob_origin := origin; ob_pending := pending; ob_dirty := dirty;
     ob_dirtyCode := ob_dirtyCode o; ob_suicided := ob_suicided o; ob_deleted := ob_deleted o; ob_dbErr := ob_dbErr o |}.

Definition set_flags (suicided deleted : bool) (o : object) : object :=
  {| ob_data := ob_data o; ob_trie := ob_trie o; ob_code := ob_code o; ob_origin := ob_origin o; ob_pending := ob_pending o; ob_dirty := ob_dirty o;
     ob_dirtyCode := ob_dirtyCode o; ob_suicided := suicided; ob_deleted := deleted; ob_dbErr := ob_dbErr o |}.

(** [setError]: the first error that is not nil stays. *)
Definition first_error (old new : option error) : option error := match old with Some e => Some e | None => new end.

Definition ob_setError (e : option error) (o : object) : object :=
  {| ob_data := ob_data o; ob_trie := ob_trie o; ob_code := ob_code o; ob_origin := ob_origin o; ob_pending := ob_pending o; ob_dirty := ob_dirty o;
     ob_dirtyCode := ob_dirtyCode o; ob_suicided := ob_suicided o; ob_deleted := ob_deleted o; ob_dbErr := first_error (ob_dbErr o) e |}.

Fixpoint TrimLeftZeroes (b : list byte) : list byte :=
  match b with Byte.x00 :: b => TrimLeftZeroes b | _ => b end.

(** A call whose error is a value. *)
Definition attempt {S A} (m : st S A) : st S (A + error) := λ s,
  match m s with (Ok a, s) => (Ok (inl a), s) | (Err e, s) => (Ok (inr e), s) | (Panic p, s) => (Panic p, s) end.

Definition error_of {A} (r : A + error) : option error := match r with inl _ => None | inr e => Some e end.

(** ** The database of the state *)

Definition OpenTrie (root : list byte) (d : Database) : outcome SecureTrie := NewSecure 0 d root.

Definition OpenStorageTrie (root : list byte) (d : Database) : outcome SecureTrie := NewSecure 0 d root.

(** The cache of code sizes is left out. *)
Definition cachingDB_ContractCode (codeHash : list byte) (d : Database) : outcome (list byte) := Node d codeHash.

Section StateTries.
  Context (Keccak256 : list byte → list byte).
  (** The orders in which Go visits a map and a set. *)
  Context (range_slots : gmap Z Z → list (Z * Z)) (range_addresses : gset address → list address).

Definition newObject (a : Account) : object :=
  {| ob_data := if bool_decide (Root a = hash0) then set_Root emptyRoot a else a; ob_trie := None; ob_code := None;
     ob_origin := ∅; ob_pending := ∅; ob_dirty := ∅; ob_dirtyCode := false; ob_suicided := false; ob_deleted := false; ob_dbErr := None |}.

(** [Account{}], with the hash of the empty code that [newObject] puts in. *)
Definition new_account : Account := {| Nonce := 0; Balance := 0; Root := hash0; CodeHash := Keccak256 [] |}.

Definition ob_empty (o : object) : bool :=
  (Nonce (ob_data o) =? 0) && (Balance (ob_data o) =? 0) && bool_decide (CodeHash (ob_data o) = Keccak256 []).

Definition on_object (f : object → object) : st (Database * object) () := st_modify (λ '(d, o), (d, f o)).

Definition the_object : st (Database * object) object := st_gets snd.

(** ** The storage of an object *)

(** [getTrie] opens the trie. *)
Definition getTrie : st (Database * object) () :=
  '(d, o) ← st_get;
  match ob_trie o with
  | Some _ => mret tt
  | None =>
      match OpenStorageTrie (Root (ob_data o)) d with
      | Ok t => on_object (set_trie (Some t))
      | Err e =>
          on_object (set_trie (match OpenStorageTrie hash0 d with Ok t => Some t | _ => None end));;
          on_object (ob_setError (Some (ErrWrap "can't create storage trie: " e)))
      | Panic m => st_panic m
      end
  end.

Definition with_trie {A} (m : st (Database * SecureTrie) A) : st (Database * object) A := λ '(d, o),
  match ob_trie o with
  | None => (Panic "nil pointer dereference", (d, o))
  | Some t => let '(r, (d, t)) := m (d, t) in (r, (d, set_trie (Some t) o))
  end.

(** The value of a slot from what the trie has for it. *)
Definition slot_value (enc : list byte) : st (Database * object) Z :=
  if 0 <? len enc then
    match Split enc with
    | Ok (_, content, _) => mret (be_val (BytesToHash content))
    | Err e => on_object (ob_setError (Some e));; mret 0
    | Panic m => st_panic m
    end
  else mret 0.

Definition load_slot (key : Z) : st (Database * object) Z :=
  getTrie;;
  r ← attempt (with_trie (SecureTrie_TryGet Keccak256 (be 32 key)));
  match r with
  | inr e => on_object (ob_setError (Some e));; mret 0
  | inl enc =>
      value ← slot_value enc;
      on_object (λ o, set_slots (<[key := value]> (ob_origin o)) (ob_pending o) (ob_dirty o) o);;
      mret value
  end.

Definition ob_GetCommittedState (key : Z) : st (Database * object) Z :=
  o ← the_object;
  match ob_pending o !! key, ob_origin o !! key with
  | Some v, _ | None, Some v => mret v
  | None, None => load_slot key
  end.

Definition ob_GetState (key : Z) : st (Database * object) Z :=
  o ← the_object;
  match ob_dirty o !! key with Some v => mret v | None => ob_GetCommittedState key end.

(** Whether the slot changes; the journal is the caller's. *)
Definition ob_SetState (key value : Z) : st (Database * object) bool :=
  prev ← ob_GetState key;
  if prev =? value then mret false
  else on_object (λ o, set_slots (ob_origin o) (ob_pending o) (<[key := value]> (ob_dirty o)) o);; mret true.

Definition ob_finalise (o : object) : object := set_slots (ob_origin o) (ob_dirty o ∪ ob_pending o) ∅ o.

(** The body of the loop of [updateTrie]. *)
Definition update_slot (slot : Z * Z) : st (Database * object) () :=
  let '(key, value) := slot in
  o ← the_object;
  if value =? default 0 (ob_origin o !! key) then mret tt
  else
    on_object (λ o, set_slots (<[key := value]> (ob_origin o)) (ob_pending o) (ob_dirty o) o);;
    r ← (if value =? 0 then attempt (with_trie (SecureTrie_TryDelete Keccak256 (be 32 key)))
         else
           v ← attempt (st_lift (EncodeToBytes (VBytes (TrimLeftZeroes (be 32 value)))));
           attempt (with_trie (SecureTrie_TryUpdate Keccak256 (be 32 key) (match v with inl v => v | inr _ => [] end))));
    on_object (ob_setError (error_of r)).

Fixpoint update_slots (l : list (Z * Z)) : st (Database * object) () :=
  match l with [] => mret tt | slot :: l => update_slot slot;; update_slots l end.

Definition updateTrie : st (Database * object) () :=
  on_object ob_finalise;;
  getTrie;;
  o ← the_object;
  update_slots (range_slots (ob_pending o));;
  on_object (λ o, set_slots (ob_origin o) ∅ (ob_dirty o) o).

Definition updateRoot : st (Database * object) () :=
  updateTrie;;
  h ← with_trie (SecureTrie_Hash Keccak256);
  on_object (λ o, set_data (set_Root h (ob_data o)) o).

Definition CommitTrie : st (Database * object) () :=
  updateTrie;;
  o ← the_object;
  match ob_dbErr o with
  | Some e => st_fail e
  | None =>
      root ← with_trie (SecureTrie_Commit Keccak256 None);
      on_object (λ o, set_data (set_Root root (ob_data o)) o)
  end.

(** [Code], nil for the empty code. *)
Definition ob_Code : st (Database * object) (option (list byte)) :=
  '(d, o) ← st_get;
  match ob_code o with
  | Some c => mret (Some c)
  | None =>
      if bool_decide (CodeHash (ob_data o) = Keccak256 []) then mret None
      else
        match cachingDB_ContractCode (BytesToHash (CodeHash (ob_data o))) d with
        | Ok c => on_object (set_code (Some c) (ob_dirtyCode o));; mret (Some c)
        | Err e => on_object (ob_setError (Some (ErrWrap "can't load code hash: " e)));; mret None
        | Panic m => st_panic m
        end
  end.

(** ** The state database *)

Record statedb := {
  sd_db : Database;
  sd_trie : SecureTrie;
  sd_objects : gmap address object;
  sd_pending : gset address;
  sd_dirty : gset address;
  sd_dbErr : option error;
  sd_entries : Z;
  sd_dirties : gmap address Z;
}.

Definition set_db_trie (d : Database) (t : SecureTrie) (s : statedb) : statedb :=
  {| sd_db := d; sd_trie := t; sd_objects := sd_objects s; sd_pending := sd_pending s; sd_dirty := sd_dirty s; sd_dbErr := sd_dbErr s;
     sd_entries := sd_entries s; sd_dirties := sd_dirties s |}.

Definition set_objects (m : gmap address object) (s : statedb) : statedb :=
  {| sd_db := sd_db s; sd_trie := sd_trie s; sd_objects := m; sd_pending := sd_pending s; sd_dirty := sd_dirty s; sd_dbErr := sd_dbErr s;
     sd_entries := sd_entries s; sd_dirties := sd_dirties s |}.

Definition set_sets (pending dirty : gset address) (s : statedb) : statedb :=
  {| sd_db := sd_db s; sd_trie := sd_trie s; sd_objects := sd_objects s; sd_pending := pending; sd_dirty := dirty; sd_dbErr := sd_dbErr s;
     sd_entries := sd_entries s; sd_dirties := sd_dirties s |}.

Definition setError (e : option error) (s : statedb) : statedb :=
  {| sd_db := sd_db s; sd_trie := sd_trie s; sd_objects := sd_objects s; sd_pending := sd_pending s; sd_dirty := sd_dirty s;
     sd_dbErr := first_error (sd_dbErr s) e; sd_entries := sd_entries s; sd_dirties := sd_dirties s |}.

Definition set_journal (n : Z) (m : gmap address Z) (s : statedb) : statedb :=
  {| sd_db := sd_db s; sd_trie := sd_trie s; sd_objects := sd_objects s; sd_pending := sd_pending s; sd_dirty := sd_dirty s; sd_dbErr := sd_dbErr s;
     sd_entries := n; sd_dirties := m |}.

(** [journal.append] of an entry that dirties an address, or none. *)
Definition journal_append (dirtied : option address) (s : statedb) : statedb :=
  set_journal (sd_entries s + 1)
    (match dirtied with Some a => <[a := default 0 (sd_dirties s !! a) + 1]> (sd_dirties s) | None => sd_dirties s end) s.

Definition OpenStateDB (root : list byte) (d : Database) : outcome statedb :=
  t ← OpenTrie root d;
  Ok {| sd_db := d; sd_trie := t; sd_objects := ∅; sd_pending := ∅; sd_dirty := ∅; sd_dbErr := None; sd_entries := 0; sd_dirties := ∅ |}.

(** An operation of the trie of accounts, and one of an object. *)
Definition on_accounts {A} (m : st (Database * SecureTrie) A) : st statedb A := λ s,
  let '(r, (d, t)) := m (sd_db s, sd_trie s) in (r, set_db_trie d t s).

Definition on_stored {A} (a : address) (m : st (Database * object) A) : st statedb A := λ s,
  match sd_objects s !! a with
  | None => (Panic "nil pointer dereference", s)
  | Some o => let '(r, (d, o)) := m (sd_db s, o) in (r, set_objects (<[a := o]> (sd_objects s)) (set_db_trie d (sd_trie s) s))
  end.

Definition updateStateObject (a : address) (o : object) : st statedb () :=
  match EncodeToBytes (account_value (ob_data o)) with
  | Ok data => r ← attempt (on_accounts (SecureTrie_TryUpdate Keccak256 a data)); st_modify (setError (error_of r))
  | _ => st_panic "can't encode object"
  end.

Definition deleteStateObject (a : address) : st statedb () :=
  r ← attempt (on_accounts (SecureTrie_TryDelete Keccak256 a)); st_modify (setError (error_of r)).

Definition getDeletedStateObject (a : address) : st statedb (option object) :=
  known ← st_gets (λ s, sd_objects s !! a);
  match known with
  | Some o => mret (Some o)
  | None =>
      r ← attempt (on_accounts (SecureTrie_TryGet Keccak256 a));
      match r with
      | inr e => st_modify (setError (Some e));; mret None
      | inl enc =>
          if len enc =? 0 then mret None
          else
            match decode_account enc with
            | Ok data => st_modify (λ s, set_objects (<[a := newObject data]> (sd_objects s)) s);; mret (Some (newObject data))
            | Err _ => mret None
            | Panic m => st_panic m
            end
      end
  end.

Definition getStateObject (a : address) : st statedb (option object) :=
  o ← getDeletedStateObject a;
  mret (match o with Some o => if ob_deleted o then None else Some o | None => None end).

Definition createObject (a : address) : st statedb (option object) :=
  prev ← getDeletedStateObject a;
  st_modify (journal_append (match prev with None => Some a | Some _ => None end));;
  st_modify (λ s, set_objects (<[a := newObject new_account]> (sd_objects s)) s);;
  mret prev.

Definition GetOrNewStateObject (a : address) : st statedb () :=
  o ← getStateObject a;
  match o with Some _ => mret tt | None => createObject a;; mret tt end.

Definition CreateAccount (a : address) : st statedb () :=
  prev ← createObject a;
  match prev with
  | Some p =>
      on_stored a (on_object (λ o, set_data {| Nonce := Nonce (ob_data o); Balance := Balance (ob_data p); Root := Root (ob_data o); CodeHash := CodeHash (ob_data o) |} o))
  | None => mret tt
  end.

(** ** Reading and writing *)

Definition read_object {A} (a : address) (none : A) (m : st (Database * object) A) : st statedb A :=
  o ← getStateObject a;
  match o with Some _ => on_stored a m | None => mret none end.

Definition Exist (a : address) : st statedb bool := read_object a false (mret true).

Definition Empty (a : address) : st statedb bool := read_object a true (o ← the_object; mret (ob_empty o)).

Definition HasSuicided (a : address) : st statedb bool := read_object a false (o ← the_object; mret (ob_suicided o)).

Definition GetNonce (a : address) : st statedb Z := read_object a 0 (o ← the_object; mret (Nonce (ob_data o))).

Definition GetCodeHash (a : address) : st statedb (list byte) := read_object a hash0 (o ← the_object; mret (CodeHash (ob_data o))).

Definition GetCode (a : address) : st statedb (list byte) := read_object a [] (c ← ob_Code; mret (default [] c)).

Definition GetState (a : address) (key : Z) : st statedb Z := read_object a 0 (ob_GetState key).

Definition GetCommittedState (a : address) (key : Z) : st statedb Z := read_object a 0 (ob_GetCommittedState key).

Definition SetState (a : address) (key value : Z) : st statedb () :=
  GetOrNewStateObject a;;
  changed ← on_stored a (ob_SetState key value);
  if changed : bool then st_modify (journal_append (Some a)) else mret tt.

(** Balances are slots of the BVM_MANTLE contract. *)
Definition GetBalance (a : address) : st statedb Z := GetState BvmMantleAddress (GetbvmBalanceKey Keccak256 a).

Definition SetBalance (a : address) (amount : Z) : st statedb () := SetState BvmMantleAddress (GetbvmBalanceKey Keccak256 a) (BigToHash amount).

Definition AddBalance (a : address) (amount : Z) : st statedb () :=
  bal ← GetBalance a; SetState BvmMantleAddress (GetbvmBalanceKey Keccak256 a) (BigToHash (bal + amount)).

Definition SubBalance (a : address) (amount : Z) : st statedb () :=
  bal ← GetBalance a; SetState BvmMantleAddress (GetbvmBalanceKey Keccak256 a) (BigToHash (bal - amount)).

Definition SetNonce (a : address) (nonce : Z) : st statedb () :=
  GetOrNewStateObject a;;
  st_modify (journal_append (Some a));;
  on_stored a (on_object (λ o, set_data {| Nonce := nonce; Balance := Balance (ob_data o); Root := Root (ob_data o); CodeHash := CodeHash (ob_data o) |} o)).

Definition SetCode (a : address) (code : list byte) : st statedb () :=
  GetOrNewStateObject a;;
  on_stored a ob_Code;;
  st_modify (journal_append (Some a));;
  on_stored a (on_object (λ o,
    set_code (Some code) true (set_data {| Nonce := Nonce (ob_data o); Balance := Balance (ob_data o); Root := Root (ob_data o); CodeHash := Keccak256 code |} o))).

Definition Suicide (a : address) : st statedb bool :=
  o ← getStateObject a;
  match o with
  | None => mret false
  | Some _ =>
      st_modify (journal_append (Some a));;
      on_stored a (on_object (λ o,
        set_data {| Nonce := Nonce (ob_data o); Balance := 0; Root := Root (ob_data o); CodeHash := CodeHash (ob_data o) |} (set_flags true (ob_deleted o) o)));;
      mret true
  end.

(** ** The end of a transaction and of a block *)

Definition clearJournal (s : statedb) : statedb := if 0 <? sd_entries s then set_journal 0 ∅ s else s.

(** The body of the loop of [Finalise]. *)
Definition finalise_address (deleteEmptyObjects : bool) (a : address) (s : statedb) : statedb :=
  match sd_objects s !! a with
  | None => s
  | Some o =>
      let o := if ob_suicided o || (deleteEmptyObjects && ob_empty o) then set_flags (ob_suicided o) true o else ob_finalise o in
      set_sets ({[ a ]} ∪ sd_pending s) ({[ a ]} ∪ sd_dirty s) (set_objects (<[a := o]> (sd_objects s)) s)
  end.

Definition Finalise (deleteEmptyObjects : bool) (s : statedb) : statedb :=
  clearJournal (foldl (λ s a, finalise_address deleteEmptyObjects a s) s (range_addresses (dom (sd_dirties s)))).

Fixpoint for_each (f : address → st statedb ()) (l : list address) : st statedb () :=
  match l with [] => mret tt | a :: l => f a;; for_each f l end.

(** The body of the loop of [IntermediateRoot]. *)
Definition flush_address (a : address) : st statedb () :=
  known ← st_gets (λ s, sd_objects s !! a);
  match known with
  | None => st_panic "nil pointer dereference"
  | Some o =>
      if ob_deleted o then deleteStateObject a
      else
        on_stored a updateRoot;;
        o ← on_stored a the_object;
        updateStateObject a o
  end.

Definition IntermediateRoot (deleteEmptyObjects : bool) : st statedb (list byte) :=
  st_modify (Finalise deleteEmptyObjects);;
  pending ← st_gets sd_pending;
  for_each flush_address (range_addresses pending);;
  st_modify (λ s, set_sets ∅ (sd_dirty s) s);;
  on_accounts (SecureTrie_Hash Keccak256).

(** The references of an account from the node of its leaf. *)
Definition reference_account : LeafCallback Database := λ leaf parent,
  match decode_account leaf with
  | Ok account =>
      (if bool_decide (Root account ≠ emptyRoot) then Reference (Root account) parent else mret tt);;
      let code := BytesToHash (CodeHash account) in
      if bool_decide (code ≠ Keccak256 []) then Reference code parent else mret tt
  | Err _ => mret tt
  | Panic m => st_panic m
  end.

(** New code of an object goes to the database. *)
Definition write_code (a : address) (o : object) : st statedb () :=
  match ob_code o with
  | Some code =>
      if ob_dirtyCode o then
        on_stored a (λ '(d, o), let '(r, d) := InsertBlob (BytesToHash (CodeHash (ob_data o))) code d in (r, (d, set_code (ob_code o) false o)))
      else mret tt
  | None => mret tt
  end.

(** The body of the loop of [Commit]. *)
Definition commit_address (a : address) : st statedb () :=
  known ← st_gets (λ s, sd_objects s !! a);
  match known with
  | None => st_panic "nil pointer dereference"
  | Some o =>
      if ob_deleted o then mret tt
      else
        write_code a o;;
        on_stored a CommitTrie
  end.

Definition Commit (deleteEmptyObjects : bool) : st statedb (list byte) :=
  IntermediateRoot deleteEmptyObjects;;
  dirty ← st_gets sd_dirty;
  for_each commit_address (range_addresses dirty);;
  st_modify (λ s, set_sets (sd_pending s) ∅ s);;
  on_accounts (SecureTrie_Commit Keccak256 (Some reference_account)).

End StateTries.
