(* ===== verification/StateSlots.v ===== *)
(** Slots and accounts as the bytes that the tries of the state hold for them. *)

From S2P Require Import Prelude Rlp RlpStream RlpStreamFacts TrieNode TrieContents StateTries.

(** ** Slots as bytes *)

Definition word (z : Z) : Prop := 0 <= z < 2 ^ 256.

Lemma word_be z : word z → be_val (be 32 z) = z.
Proof. intros Hz. apply be_val_be_small. exact Hz. Qed.

Lemma word_inj a b : word a → word b → be 32 a = be 32 b → a = b.
Proof. intros Ha Hb. by apply be_inj. Qed.

(** What the trie has for a slot that is not zero. *)
Definition slot_bytes (v : Z) : list byte := rlp_str (big_Bytes v).

Lemma TrimLeftZeroes_val b : be_val (TrimLeftZeroes b) = be_val b ∧ (length (TrimLeftZeroes b) ≤ length b)%nat ∧
  match TrimLeftZeroes b with c :: _ => b2z c ≠ 0 | [] => True end.
Proof.
  induction b as [| c b (IHv & IHl & IHh)]; [done |]. destruct (decide (c = Byte.x00)) as [-> | Hc].
  - cbn [TrimLeftZeroes]. rewrite be_val_cons. change (b2z Byte.x00) with 0. cbn [length]. split; [lia |]. split; [lia | done].
  - assert (TrimLeftZeroes (c :: b) = c :: b) as -> by (by destruct c). split; [done |]. split; [lia |]. intros H0. apply Hc. by apply b2z_inj.
Qed.

Lemma TrimLeftZeroes_word v : word v → TrimLeftZeroes (be 32 v) = big_Bytes v.
Proof.
  intros Hv. destruct (TrimLeftZeroes_val (be 32 v)) as (Hval & _ & Hh). rewrite word_be in Hval by done.
  destruct (TrimLeftZeroes (be 32 v)) as [| c b]; rewrite <- Hval; [done |]. symmetry. by apply big_Bytes_be_val.
Qed.

Lemma big_Bytes_word v : word v → (length (big_Bytes v) ≤ 32)%nat.
Proof. intros Hv. rewrite <- TrimLeftZeroes_word by done. destruct (TrimLeftZeroes_val (be 32 v)) as (_ & Hl & _). by rewrite length_be in Hl. Qed.

Lemma len_slot v : word v → len (slot_bytes v) <= 41.
Proof. intros Hv. pose proof (big_Bytes_word v Hv). unfold slot_bytes. pose proof (len_rlp_str_le (big_Bytes v)) as Hl. unfold len in *. lia. Qed.

Lemma encode_slot v : word v → EncodeToBytes (VBytes (TrimLeftZeroes (be 32 v))) = Ok (slot_bytes v).
Proof. intros Hv. rewrite TrimLeftZeroes_word by done. apply EncodeToBytes_bytes; [done |]. pose proof (len_slot v Hv). unfold slot_bytes in *. cbn [value_bytes]. lia. Qed.

Lemma BytesToHash_val b : (length b ≤ 32)%nat → be_val (BytesToHash b) = be_val b.
Proof.
  intros Hb. unfold BytesToHash, HashLength. replace (length b - 32)%nat with 0%nat by lia. rewrite drop_0, be_val_app, be_val_replicate_0. lia.
Qed.

Lemma split_slot v : word v → ∃ k, Split (slot_bytes v) = Ok (k, big_Bytes v, []).
Proof.
  intros Hv. pose proof (len_slot v Hv). exists (if is_byte (big_Bytes v) then KByte else KString). apply Split_correct; [lia |].
  unfold slot_bytes. rewrite rlp_str_kind. unfold kind_bytes. cbn [fst snd]. rewrite app_nil_r. split; [done |]. by destruct (is_byte (big_Bytes v)) eqn:E; cbn; rewrite E.
Qed.

Lemma slot_not_empty v : 0 < len (slot_bytes v).
Proof.
  unfold slot_bytes. rewrite rlp_str_kind. apply Z.lt_le_trans with 1; [done |]. apply len_suffix_pos. by destruct (is_byte (big_Bytes v)) eqn:E; cbn; rewrite E.
Qed.

Lemma slot_bytes_inj v w : word v → word w → slot_bytes v = slot_bytes w → v = w.
Proof.
  intros Hv Hw Heq. destruct (split_slot v Hv) as [k1 H1], (split_slot w Hw) as [k2 H2]. rewrite Heq, H2 in H1. injection H1 as _ Hb.
  unfold word in *. rewrite <- (big_SetBytes_Bytes v), <- (big_SetBytes_Bytes w) by lia. by rewrite Hb.
Qed.

(** ** Storage as a map of bytes *)

Definition words (m : gmap Z Z) : Prop := map_Forall (λ k v, word k ∧ word v) m.

(** The slots of [m] that are not zero. *)
Definition slot_map (sm : gmap (list byte) (list byte)) (m : gmap Z Z) : Prop :=
  ∀ key b, sm !! key = Some b ↔ ∃ k v, key = be 32 k ∧ word k ∧ m !! k = Some v ∧ v ≠ 0 ∧ b = slot_bytes v.

Lemma slot_map_get sm m k : slot_map sm m → word k → sm !! be 32 k = if default 0 (m !! k) =? 0 then None else Some (slot_bytes (default 0 (m !! k))).
Proof.
  intros Hs Hk. apply option_eq. intros b. rewrite (Hs (be 32 k) b). destruct (m !! k) as [v |] eqn:E; cbn [default from_option id].
  - destruct (v =? 0) eqn:E0; [apply Z.eqb_eq in E0 | apply Z.eqb_neq in E0]; (split; [intros (k' & v' & Heq & Hk' & Hv & Hne & ->); apply word_inj in Heq; [| done..]; subst k'; congruence |]); [done |].
    intros [= <-]. by exists k, v.
  - rewrite Z.eqb_refl. split; [| done]. intros (k' & v' & Heq & Hk' & Hv & _). apply word_inj in Heq; [| done..]. subst k'. congruence.
Qed.

Lemma slot_map_set sm m k v : slot_map sm m → word k →
  slot_map (partial_alter (λ _, if v =? 0 then None else Some (slot_bytes v)) (be 32 k) sm) (<[k := v]> m).
Proof.
  intros Hs Hk key b. destruct (decide (be 32 k = key)) as [<- | Hne].
  - rewrite lookup_partial_alter_eq. destruct (v =? 0) eqn:E; [apply Z.eqb_eq in E | apply Z.eqb_neq in E].
    + split; [done |]. intros (k' & v' & Heq & Hk' & Hv & Hne & _). apply word_inj in Heq; [| done..]. subst k'. rewrite lookup_insert_eq in Hv. congruence.
    + split; [intros [= <-]; exists k, v; by rewrite lookup_insert_eq |]. intros (k' & v' & Heq & Hk' & Hv & _ & ->). apply word_inj in Heq; [| done..]. subst k'.
      rewrite lookup_insert_eq in Hv. congruence.
  - rewrite lookup_partial_alter_ne by done. rewrite (Hs key b). split; intros (k' & v' & -> & Hk' & Hv & Hnz & ->); exists k', v'; (repeat (split; [done |])); (split; [| done]).
    + rewrite lookup_insert_ne; [done |]. by intros ->.
    + rewrite lookup_insert_ne in Hv; [done |]. by intros ->.
Qed.

Lemma slot_map_ext sm m m' : (∀ k, default 0 (m !! k) = default 0 (m' !! k)) → slot_map sm m → slot_map sm m'.
Proof.
  intros Heq Hs key b. rewrite (Hs key b). split; intros (k & v & -> & Hk & Hv & Hne & ->); exists k, v; (repeat (split; [done |])); (split; [| done]).
  - specialize (Heq k). rewrite Hv in Heq. cbn in Heq. destruct (m' !! k); cbn in Heq; congruence.
  - specialize (Heq k). rewrite Hv in Heq. cbn in Heq. destruct (m !! k); cbn in Heq; congruence.
Qed.

Lemma slot_map_inj sm m1 m2 : slot_map sm m1 → slot_map sm m2 → words m1 → words m2 → ∀ k, default 0 (m1 !! k) = default 0 (m2 !! k).
Proof.
  assert (∀ m1 m2 k v, slot_map sm m1 → slot_map sm m2 → words m1 → words m2 → m1 !! k = Some v → v ≠ 0 → m2 !! k = Some v) as Hone.
  { intros m1' m2' k v H1 H2 W1 W2 Hv Hne. destruct (W1 k v Hv) as [Hk Hw]. assert (sm !! be 32 k = Some (slot_bytes v)) as Hsm by (apply H1; by exists k, v).
    apply H2 in Hsm as (k' & v' & Heq & Hk' & Hv' & _ & Hb). apply word_inj in Heq; [| done..]. subst k'. destruct (W2 k v' Hv'). apply slot_bytes_inj in Hb; [congruence | done..]. }
  intros H1 H2 W1 W2 k. destruct (m1 !! k) as [v1 |] eqn:E1, (m2 !! k) as [v2 |] eqn:E2; cbn; [| | | done].
  - destruct (decide (v1 = 0)) as [-> | Hne]; [| rewrite (Hone m1 m2 k v1) in E2 by done; congruence].
    destruct (decide (v2 = 0)) as [-> | Hne]; [done |]. rewrite (Hone m2 m1 k v2) in E1 by done. congruence.
  - destruct (decide (v1 = 0)) as [-> | Hne]; [done |]. rewrite (Hone m1 m2 k v1) in E2 by done. congruence.
  - destruct (decide (v2 = 0)) as [-> | Hne]; [done |]. rewrite (Hone m2 m1 k v2) in E1 by done. congruence.
Qed.

Lemma slot_map_empty : slot_map ∅ ∅.
Proof. intros key b. rewrite lookup_empty. split; [done |]. intros (k & v & _ & _ & Hv & _). by rewrite lookup_empty in Hv. Qed.

(** ** Accounts as bytes *)

Record account_ok (a : Account) : Prop := {
  ao_nonce : 0 <= Nonce a < 2 ^ 64;
  ao_balance : word (Balance a);
  ao_root : length (Root a) = HashLength;
  ao_code : length (CodeHash a) = HashLength;
}.

Definition account_bytes (a : Account) : list byte := value_bytes (account_value a).

Lemma len_account a : account_ok a → 0 < len (account_bytes a) < 200.
Proof.
  intros [Hn Hb Hr Hc]. unfold account_bytes, account_value. cbn [value_bytes map concat]. rewrite app_nil_r.
  pose proof (len_slot (Nonce a) ltac:(unfold word; lia)) as L1. pose proof (len_slot (Balance a) Hb) as L2. unfold slot_bytes in *.
  pose proof (len_rlp_str_le (Root a)) as L3. pose proof (len_rlp_str_le (CodeHash a)) as L4. change HashLength with 32%nat in *.
  assert (len (Root a) = 32) by (unfold len; lia). assert (len (CodeHash a) = 32) by (unfold len; lia).
  match goal with |- context [rlp_list ?x] => pose proof (len_nonneg x); assert (len x < 170) by (rewrite !len_app; lia); pose proof (len_rlp_list_le x ltac:(lia)); assert (0 < len (rlp_list x)) by (unfold rlp_list; rewrite len_app, len_header by lia; pose proof (headsize_range (len x) ltac:(lia)); lia) end. lia.
Qed.

Lemma encode_account a : account_ok a → EncodeToBytes (account_value a) = Ok (account_bytes a).
Proof.
  intros Ha. apply EncodeToBytes_bytes; [| pose proof (len_account a Ha); unfold account_bytes in *; lia]. destruct Ha as [Hn Hb _ _]. unfold word in Hb. cbn. bool_cases.
Qed.

Lemma decode_account_bytes a : account_ok a → decode_account (account_bytes a) = Ok a.
Proof.
  intros Ha. pose proof (len_account a Ha) as Hl. unfold decode_account.
  destruct (DecodeBytes_codec (S (length (account_bytes a))) (decode (S (length (account_bytes a))) account_ty) value_bytes (has_type account_ty) (account_bytes a)) as [_ Hd];
    [by apply decode_codec | lia | lia |].
  rewrite (proj2 (Hd (account_value a))); [by destruct a |]. split; [| done]. destruct Ha as [Hn Hb Hr Hc]. unfold word in Hb. eexists. split; [done |].
  repeat (apply Forall2_cons; split); [by eexists | eexists; split; [done | lia] | by eexists | by eexists | by apply Forall2_nil].
Qed.

Lemma account_bytes_inj a b : account_ok a → account_ok b → account_bytes a = account_bytes b → a = b.
Proof. intros Ha Hb Heq. pose proof (decode_account_bytes a Ha) as H1. rewrite Heq, decode_account_bytes in H1 by done. by injection H1. Qed.

(** Decoding never panics. *)
Lemma decode_account_total enc m : len enc < 2 ^ 63 → decode_account enc ≠ Panic m.
Proof.
  intros Hl. unfold decode_account. destruct (DecodeBytes_codec (S (length enc)) (decode (S (length enc)) account_ty) value_bytes (has_type account_ty) enc) as [Hnp Hd]; [by apply decode_codec | done | lia |].
  destruct (DecodeBytes _ enc) as [v | e | p] eqn:E; [| done | by destruct (Hnp p)]. destruct (proj1 (Hd v) eq_refl) as [(vs & -> & Hvs) _]. clear Hd Hnp E. cbn [map] in Hvs.
  apply Forall2_cons_inv_r in Hvs as (v1 & l1 & (n & -> & _) & Hvs & ->). apply Forall2_cons_inv_r in Hvs as (v2 & l2 & (b & -> & _) & Hvs & ->).
  apply Forall2_cons_inv_r in Hvs as (v3 & l3 & (r & -> & _) & Hvs & ->). apply Forall2_cons_inv_r in Hvs as (v4 & l4 & (h & -> & _) & Hvs & ->). apply Forall2_nil_inv_r in Hvs as ->. done.
Qed.
