(* ===== verification/StateObjects.v ===== *)
(** Objects of the state on their storage tries: an object with its trie, its
    caches and its code stands for an object of StateDB.v with a map in their
    place, and its operations do what those on the map do. *)

From S2P Require Import Prelude Rlp StateDB TrieNode Trie TrieTree TrieRep TrieHash TrieCommit TrieContents TrieTheorems TrieDatabase TrieDatabaseFacts TrieRefs TrieSecure StateTries StateSlots.

Lemma length_emptyRoot : length emptyRoot = HashLength.
Proof. apply length_be. Qed.

Lemma emptyRoot_not_zero : emptyRoot ≠ hash0.
Proof. intros H. vm_compute in H. discriminate H. Qed.

Lemma length_hash0 : length hash0 = HashLength.
Proof. apply length_replicate. Qed.

#[local] Opaque hash0 emptyRoot.

Section Objects.
  Context (Keccak256 : list byte → list byte) (length_Keccak256 : ∀ b, length (Keccak256 b) = HashLength).
  (** The keys that are in use, and the encodings of nodes and the codes, without
      collisions. *)
  Context (Q : list byte → Prop) (Q_inj : ∀ a b, Q a → Q b → Keccak256 a = Keccak256 b → a = b).
  Context (P : list byte → Prop) (P_free : collision_free Keccak256 P).
  Context (ContractCode : list byte → list byte).
  Context (range_slots : gmap Z Z → list (Z * Z)) (range_slots_all : ∀ m, range_slots m ≡ₚ map_to_list m).

#[local] Abbreviation secure_holds := (secure_holds Keccak256 Q).
#[local] Abbreviation db_inv := (db_inv Keccak256 P).
#[local] Abbreviation grown := (grown Keccak256 Q).

(** ** The hash of a secure trie *)

Definition trie_hash (t : SecureTrie) : outcome (list byte) := (Hash Keccak256 (D := Database) (trie_root t)).1.

Definition small_values (m : gmap (list byte) (list byte)) : Prop := ∀ k v, m !! k = Some v → len v < 2 ^ 60.

Lemma hashed_unique m hm1 hm2 : hashed Keccak256 m hm1 → hashed Keccak256 m hm2 → hm1 = hm2.
Proof. intros H1 H2. apply map_eq. intros hk. apply option_eq. intros v. by rewrite (H1 hk v), (H2 hk v). Qed.

Lemma trie_hash_unique d1 d2 t1 t2 m : secure_holds d1 t1 m → secure_holds d2 t2 m → small_values m → trie_hash t1 = trie_hash t2.
Proof.
  intros [(hm1 & (x1 & R1 & T1) & M1) _ _ _ _] [(hm2 & (x2 & R2 & T2) & M2) _ _ _ _] Hv. pose proof (hashed_unique m hm1 hm2 M1 M2) as <-.
  pose proof (tree_for_unique x1 x2 hm1 T1 T2) as <-. destruct (hashed_small Keccak256 length_Keccak256 m hm1 M1 Hv) as [Hsm _]. unfold trie_hash.
  destruct (Hash_spec Keccak256 length_Keccak256 d1 (trie_root t1) x1 hm1 R1 T1 Hsm) as (? & -> & _), (Hash_spec Keccak256 length_Keccak256 d2 (trie_root t2) x1 hm1 R2 T2 Hsm) as (? & -> & _). done.
Qed.

Lemma SecureTrie_Hash_spec d t m : secure_holds d t m → small_values m →
  ∃ h t', SecureTrie_Hash Keccak256 (d, t) = (Ok h, (d, t')) ∧ secure_holds d t' m ∧ trie_hash t = Ok h ∧ length h = HashLength.
Proof.
  intros [(hm & (x & R & T) & M) Hu Hc Hp Hk] Hv. destruct (hashed_small Keccak256 length_Keccak256 m hm M Hv) as [Hsm _].
  destruct (Hash_spec Keccak256 length_Keccak256 d (trie_root t) x hm R T Hsm) as (n & Hh & Rn). unfold SecureTrie_Hash, on_trie, trie_hash. rewrite Hh.
  exists (root_hash Keccak256 x), (set_trie_root n t). split; [done |]. split; [split; rewrite ?key_cache_root; [exists hm; split; [by exists x | done] | done..] |]. split; [done |].
  destruct x; [apply length_emptyRoot | apply length_Keccak256..].
Qed.

(** ** Storage tries *)

(** The trie at [root] has the slots [m]. *)
Definition opens (d : Database) (root : list byte) (m : gmap Z Z) : Prop :=
  root ≠ hash0 ∧ length root = HashLength ∧
  ∃ t sm, NewSecure 0 d root = Ok t ∧ secure_holds d t sm ∧ slot_map sm m ∧ trie_hash t = Ok root.

Lemma opens_grown d d' root m : grown d d' → opens d root m → opens d' root m.
Proof.
  intros Hg (H0 & Hl & t & sm & Hn & Hs & Hm & Hh). split; [done |]. split; [done |]. exists t, sm.
  split; [by eapply NewSecure_grown | split; [by eapply secure_grown | done]].
Qed.

Lemma slots_small sm m : slot_map sm m → words m → small_values sm.
Proof. intros Hs Hw key b Hb. apply Hs in Hb as (k & v & _ & _ & Hv & _ & ->). destruct (Hw k v Hv) as [_ Hv']. pose proof (len_slot v Hv'). lia. Qed.

(** ** Objects *)

(** The code of an object: loaded, set, or in the database under its hash. *)
Definition code_rep (d : Database) (o : object) (ao : stateObject) : Prop :=
  let h := so_CodeHash ao in
  (ob_code o = so_code ao ∨ so_code ao = None ∧ ob_code o = Some (ContractCode h) ∧ h ≠ Keccak256 []) ∧
  (∀ c, so_code ao = Some c → Keccak256 c = h ∧ P c ∧ (h = Keccak256 [] ∨ ContractCode h = c)) ∧
  if ob_dirtyCode o then so_code ao ≠ None else h = Keccak256 [] ∨ Node d h = Ok (ContractCode h).

Record obj_rep (d : Database) (o : object) (ao : stateObject) : Prop := {
  or_account : account_ok (ob_data o);
  or_nonce : Nonce (ob_data o) = so_Nonce ao;
  or_balance : Balance (ob_data o) = so_Balance ao;
  or_codehash : CodeHash (ob_data o) = so_CodeHash ao;
  or_pending : ob_pending o = pendingStorage ao;
  or_dirty : ob_dirty o = dirtyStorage ao;
  or_suicided : ob_suicided o = suicided ao;
  or_deleted : ob_deleted o = deleted ao;
  or_err : ob_dbErr o = None;
  or_words : words (so_trie ao) ∧ words (pendingStorage ao) ∧ words (dirtyStorage ao);
  or_loaded : ∀ k, is_Some (pendingStorage ao !! k) ∨ is_Some (dirtyStorage ao !! k) → is_Some (ob_origin o !! k) ∧ Q (be 32 k);
  or_origin : ∀ k v, ob_origin o !! k = Some v → v = default 0 (so_trie ao !! k);
  or_trie : match ob_trie o with
            | Some t => ∃ sm, secure_holds d t sm ∧ slot_map sm (so_trie ao)
            | None => opens d (Root (ob_data o)) (so_trie ao)
            end;
  or_code : code_rep d o ao;
}.

(** The root of the account is that of the trie. *)
Definition synced (o : object) : Prop := match ob_trie o with Some t => trie_hash t = Ok (Root (ob_data o)) | None => True end.

Lemma obj_rep_grown d d' o ao : grown d d' → obj_rep d o ao → obj_rep d' o ao.
Proof.
  intros Hg [Ha Hn Hb Hc Hp Hdi Hs Hde He Hw Hl Ho Ht Hcode]. split; try done.
  - destruct (ob_trie o) as [t |]; [destruct Ht as (sm & ? & ?); exists sm; split; [by eapply secure_grown | done] | by apply (opens_grown d)].
  - destruct Hcode as (H1 & H2 & H3). split; [done |]. split; [done |]. destruct (ob_dirtyCode o); [done |]. destruct H3 as [? | H3]; [by left | right].
    apply (gr_blobs _ _ _ _ Hg); [| done]. rewrite <- Hc. apply Ha.
Qed.

(** Reading changes the trie, the loaded code and the cache of original slots only. *)
Record same_object (o o' : object) : Prop := {
  so_data : ob_data o' = ob_data o;
  so_pend : ob_pending o' = ob_pending o;
  so_dirt : ob_dirty o' = ob_dirty o;
  so_dcode : ob_dirtyCode o' = ob_dirtyCode o;
  so_suic : ob_suicided o' = ob_suicided o;
  so_del : ob_deleted o' = ob_deleted o;
  so_sync : synced o → synced o';
}.

#[export] Instance same_object_preorder : PreOrder same_object.
Proof. split; [intros o; by split |]. intros o1 o2 o3 [] []. split; [congruence.. | auto]. Qed.

(** The trie of an object is another one with the same slots. *)
Lemma set_trie_rep d o ao t t' sm : obj_rep d o ao → ob_trie o = Some t → secure_holds d t sm → secure_holds d t' sm → slot_map sm (so_trie ao) →
  obj_rep d (set_trie (Some t') o) ao ∧ same_object o (set_trie (Some t') o).
Proof.
  intros Hr Ht Hs Hs' Hm. pose proof Hr as [Ha Hn Hb Hc Hp Hdi Hsu Hde He Hw Hl Ho _ Hcode]. split; [split; try done; by exists sm |].
  split; try done. unfold synced. cbn [ob_trie set_trie ob_data]. rewrite Ht. intros <-. apply (trie_hash_unique d d t' t sm); [done.. |]. by apply (slots_small sm (so_trie ao)), Hw.
Qed.

Lemma getTrie_rep d o ao : obj_rep d o ao →
  ∃ o' t sm, getTrie (d, o) = (Ok tt, (d, o')) ∧ obj_rep d o' ao ∧ same_object o o' ∧ ob_origin o' = ob_origin o ∧
    ob_trie o' = Some t ∧ secure_holds d t sm ∧ slot_map sm (so_trie ao).
Proof.
  intros Hr. pose proof Hr as [Ha Hn Hb Hc Hp Hdi Hsu Hde He Hw Hl Ho Ht Hcode]. unfold getTrie, OpenStorageTrie, mbind, st_bind, st_get. destruct (ob_trie o) as [t |] eqn:Et.
  - destruct Ht as (sm & Hs & Hm). by exists o, t, sm.
  - destruct Ht as (_ & _ & t & sm & Hnew & Hs & Hm & Hh). rewrite Hnew. exists (set_trie (Some t) o), t, sm. split; [done |].
    split; [split; try done; by exists sm |]. by split; [split |].
Qed.

(** ** Reading and setting slots *)

Lemma with_trie_spec {A} (m : st (Database * SecureTrie) A) d o t r d' t' : ob_trie o = Some t → m (d, t) = (r, (d', t')) →
  with_trie m (d, o) = (r, (d', set_trie (Some t') o)).
Proof. intros Ht Hm. unfold with_trie. by rewrite Ht, Hm. Qed.

(** A slot is cached. *)
Lemma cache_slot_rep d o ao key : obj_rep d o ao → let o' := set_slots (<[key := default 0 (so_trie ao !! key)]> (ob_origin o)) (ob_pending o) (ob_dirty o) o in
  obj_rep d o' ao ∧ same_object o o'.
Proof.
  intros [Ha Hn Hb Hc Hp Hdi Hsu Hde He Hw Hl Ho Ht Hcode] o'. split; [| by split]. split; try done.
  - intros k Hk. destruct (Hl k Hk) as [[v Hv] Hq]. split; [| done]. cbn [ob_origin set_slots o']. destruct (decide (key = k)) as [<- | ?]; [rewrite lookup_insert_eq | rewrite lookup_insert_ne by done]; by eexists.
  - intros k v Hk. cbn [ob_origin set_slots o'] in Hk. apply lookup_insert_Some in Hk as [[<- <-] | [_ Hk]]; [done | by apply Ho].
Qed.

Lemma load_slot_rep d o ao key : obj_rep d o ao → word key → Q (be 32 key) →
  ∃ o', load_slot Keccak256 key (d, o) = (Ok (default 0 (so_trie ao !! key)), (d, o')) ∧ obj_rep d o' ao ∧ same_object o o' ∧ is_Some (ob_origin o' !! key).
Proof.
  intros Hr Hk Hq. destruct (getTrie_rep d o ao Hr) as (o1 & t & sm & H1 & Hr1 & Hs1 & _ & Ht & Hh & Hm). unfold load_slot. unfold mbind at 1, st_bind at 1. rewrite H1.
  destruct (TryGet_secure Keccak256 length_Keccak256 Q Q_inj d t sm (be 32 key) Hh Hq) as (t' & Hget & Hh'). unfold mbind at 1, st_bind at 1, attempt.
  rewrite (with_trie_spec _ d o1 t _ d t' Ht Hget). destruct (set_trie_rep d o1 ao t t' sm Hr1 Ht Hh Hh' Hm) as [Hr2 Hs2]. set (o2 := set_trie (Some t') o1) in *.
  assert (slot_value (default [] (sm !! be 32 key)) (d, o2) = (Ok (default 0 (so_trie ao !! key)), (d, o2))) as Hval.
  { rewrite (slot_map_get sm (so_trie ao) key Hm Hk). destruct (default 0 (so_trie ao !! key) =? 0) eqn:E0; [apply Z.eqb_eq in E0; by rewrite E0 |]. cbn [default from_option id].
    assert (word (default 0 (so_trie ao !! key))) as Hv.
    { destruct (so_trie ao !! key) as [v |] eqn:E; [| done]. destruct (or_words _ _ _ Hr) as [Hw _]. by destruct (Hw key v E). }
    unfold slot_value. rewrite (proj2 (Z.ltb_lt _ _) (slot_not_empty _)). destruct (split_slot _ Hv) as [k ->]. cbv beta iota.
    rewrite BytesToHash_val by (by apply big_Bytes_word). unfold word in Hv. rewrite big_SetBytes_Bytes by lia. done. }
  unfold mbind at 1, st_bind at 1. rewrite Hval. destruct (cache_slot_rep d o2 ao key Hr2) as [Hr3 Hs3]. eexists. split; [done |]. split; [exact Hr3 |].
  split; [transitivity o1; [done |]; by transitivity o2 |]. cbn [ob_origin set_slots]. rewrite lookup_insert_eq. by eexists.
Qed.

Lemma GetCommittedState_rep d o ao key : obj_rep d o ao → word key → Q (be 32 key) →
  ∃ o', ob_GetCommittedState Keccak256 key (d, o) = (Ok (obj_GetCommittedState ao key), (d, o')) ∧ obj_rep d o' ao ∧ same_object o o' ∧ is_Some (ob_origin o' !! key).
Proof.
  intros Hr Hk Hq. unfold ob_GetCommittedState, obj_GetCommittedState. unfold mbind at 1, st_bind at 1, the_object at 1, st_gets. cbn [snd]. rewrite <- (or_pending d o ao Hr).
  destruct (ob_pending o !! key) as [v |] eqn:Ep.
  - exists o. split; [done |]. split; [done |]. split; [done |]. apply (or_loaded d o ao Hr). left. rewrite <- (or_pending d o ao Hr), Ep. by eexists.
  - destruct (ob_origin o !! key) as [v |] eqn:Eo; [| by apply load_slot_rep]. exists o. rewrite (or_origin d o ao Hr key v Eo). split; [done |]. split; [done |]. split; [done | by eexists].
Qed.

Lemma GetState_rep d o ao key : obj_rep d o ao → word key → Q (be 32 key) →
  ∃ o', ob_GetState Keccak256 key (d, o) = (Ok (obj_GetState ao key), (d, o')) ∧ obj_rep d o' ao ∧ same_object o o' ∧ is_Some (ob_origin o' !! key).
Proof.
  intros Hr Hk Hq. unfold ob_GetState, obj_GetState. unfold mbind at 1, st_bind at 1, the_object at 1, st_gets. cbn [snd]. rewrite <- (or_dirty d o ao Hr).
  destruct (ob_dirty o !! key) as [v |] eqn:Ed; [| by apply GetCommittedState_rep].
  exists o. split; [done |]. split; [done |]. split; [done |]. apply (or_loaded d o ao Hr). right. rewrite <- (or_dirty d o ao Hr), Ed. by eexists.
Qed.

Lemma SetState_rep d o ao key value : obj_rep d o ao → word key → word value → Q (be 32 key) → let changed := negb (obj_GetState ao key =? value) in
  ∃ o', ob_SetState Keccak256 key value (d, o) = (Ok changed, (d, o')) ∧ obj_rep d o' (if changed then setState key value ao else ao) ∧
    ob_deleted o' = ob_deleted o ∧ if changed then True else same_object o o'.
Proof.
  intros Hr Hk Hv Hq changed. destruct (GetState_rep d o ao key Hr Hk Hq) as (o1 & H1 & Hr1 & Hs1 & Horig). unfold ob_SetState. unfold mbind at 1, st_bind at 1. rewrite H1. subst changed.
  destruct (obj_GetState ao key =? value) eqn:E; cbn [negb]; [by exists o1; destruct Hs1 |]. eexists. split; [done |]. split; [| by destruct Hs1].
  destruct Hr1 as [Ha Hn Hb Hc Hp Hdi Hsu Hde He (W1 & W2 & W3) Hl Ho Ht Hcode]. split; try done.
  - cbn. by rewrite Hdi.
  - split; [done |]. split; [done |]. by apply map_Forall_insert_2.
  - intros k Hk'. cbn [pendingStorage dirtyStorage setState] in Hk'. destruct (decide (k = key)) as [-> | Hne]; [done |]. rewrite lookup_insert_ne in Hk' by done. by apply Hl.
Qed.

(** ** Writing slots to the trie *)

Definition set_so_trie (m : gmap Z Z) (o : stateObject) : stateObject :=
  {| so_Nonce := so_Nonce o; so_Balance := so_Balance o; so_CodeHash := so_CodeHash o; so_code := so_code o;
     so_trie := m; pendingStorage := pendingStorage o; dirtyStorage := dirtyStorage o; suicided := suicided o; deleted := deleted o |}.

(** The pending slots go to the trie. *)
Definition flush_object (o : stateObject) : stateObject :=
  {| so_Nonce := so_Nonce o; so_Balance := so_Balance o; so_CodeHash := so_CodeHash o; so_code := so_code o;
     so_trie := pendingStorage o ∪ so_trie o; pendingStorage := ∅; dirtyStorage := dirtyStorage o; suicided := suicided o; deleted := deleted o |}.

(** The slots of an object in the trie, and in the cache, get another value. *)
Lemma store_slot_rep d o ao key value t t' sm : obj_rep d o ao → ob_trie o = Some t → secure_holds d t' sm → word key → word value →
  slot_map sm (<[key := value]> (so_trie ao)) →
  obj_rep d (set_trie (Some t') (set_slots (<[key := value]> (ob_origin o)) (ob_pending o) (ob_dirty o) o)) (set_so_trie (<[key := value]> (so_trie ao)) ao).
Proof.
  intros [Ha Hn Hb Hc Hp Hdi Hsu Hde He (W1 & W2 & W3) Hl Ho Ht Hcode] Htr Hs Hk Hv Hm. split; try done.
  - split; [by apply map_Forall_insert_2 | done].
  - intros k Hk'. destruct (Hl k Hk') as [Hor Hq]. split; [| done]. cbn. destruct (decide (key = k)) as [<- | ?]; [rewrite lookup_insert_eq; by eexists | by rewrite lookup_insert_ne].
  - intros k v Hk'. cbn in Hk'. cbn [so_trie set_so_trie]. apply lookup_insert_Some in Hk' as [[<- <-] | [Hne Hk']]; [by rewrite lookup_insert_eq | rewrite lookup_insert_ne by done; by apply Ho].
  - by exists sm.
Qed.

(** The account and whether its code is to be written stay. *)
Record same_code (o o' : object) : Prop := { sc_data : ob_data o' = ob_data o; sc_dirty : ob_dirtyCode o' = ob_dirtyCode o }.

#[export] Instance same_code_preorder : PreOrder same_code.
Proof. split; [by split |]. intros o1 o2 o3 [] []. split; congruence. Qed.

Lemma ob_setError_None o : ob_dbErr o = None → ob_setError None o = o.
Proof. destruct o. cbn. by intros ->. Qed.

Lemma update_slot_rep d o ao key value : obj_rep d o ao → is_Some (ob_trie o) → pendingStorage ao !! key = Some value →
  ∃ o', update_slot Keccak256 (key, value) (d, o) = (Ok tt, (d, o')) ∧ obj_rep d o' (set_so_trie (<[key := value]> (so_trie ao)) ao) ∧ is_Some (ob_trie o') ∧ same_code o o'.
Proof.
  intros Hr [t Ht] Hp. pose proof Hr as [Ha Hn Hb Hc Hpe Hdi Hsu Hde He (W1 & W2 & W3) Hl Ho Htr Hcode]. destruct (Hl key ltac:(left; by eexists)) as [[v0 Hv0] Hq]. destruct (W2 key value Hp) as [Hk Hv].
  rewrite Ht in Htr. destruct Htr as (sm & Hs & Hm). unfold update_slot. unfold mbind at 1, st_bind at 1, the_object, st_gets. cbn [snd]. rewrite Hv0. cbn [default from_option id].
  pose proof (slot_map_set sm (so_trie ao) key value Hm Hk) as Hm'. destruct (value =? v0) eqn:E.
  - apply Z.eqb_eq in E. subst value. pose proof (Ho key v0 Hv0) as Hd0. exists o. split; [done |]. split; [| by split; [eexists |]].
    assert (∀ k, default 0 (so_trie ao !! k) = default 0 (<[key := v0]> (so_trie ao) !! k)) as Hext.
    { intros k. destruct (decide (key = k)) as [<- | Hne]; [by rewrite lookup_insert_eq | by rewrite lookup_insert_ne]. }
    split; try done; [split; [by apply map_Forall_insert_2 | done] | intros k v Hkv; cbn [so_trie set_so_trie]; rewrite <- Hext; by apply Ho |].
    rewrite Ht. exists sm. split; [done |]. by apply (slot_map_ext sm (so_trie ao)).
  - unfold mbind at 1, st_bind at 1, on_object at 1, st_modify at 1. set (o1 := set_slots _ _ _ o). assert (ob_trie o1 = Some t) as Ht1 by done.
    destruct (value =? 0) eqn:E0.
    + destruct (TryDelete_secure Keccak256 length_Keccak256 Q Q_inj d t sm (be 32 key) Hs Hq) as (t' & Hdel & Hs'). unfold mbind at 1, st_bind at 1, attempt.
      rewrite (with_trie_spec _ d o1 t _ d t' Ht1 Hdel). eexists. split; [done |]. cbn [error_of]. pose proof (store_slot_rep d o ao key value t t' _ Hr Ht Hs' Hk Hv Hm') as Hr'. fold o1 in Hr'.
      rewrite ob_setError_None by done. split; [exact Hr' | by split; [eexists |]].
    + destruct (TryUpdate_secure Keccak256 length_Keccak256 Q Q_inj d t sm (be 32 key) (slot_bytes value) Hs Hq) as (t' & Hup & Hs'). unfold mbind, st_bind, attempt, st_lift. rewrite encode_slot by done.
      rewrite (with_trie_spec _ d o1 t _ d t' Ht1 Hup). eexists. split; [done |]. cbn [error_of]. pose proof (store_slot_rep d o ao key value t t' _ Hr Ht Hs' Hk Hv Hm') as Hr'. fold o1 in Hr'.
      rewrite ob_setError_None by done. split; [exact Hr' | by split; [eexists |]].
Qed.

Definition put_slots (l : list (Z * Z)) (m : gmap Z Z) : gmap Z Z := foldl (λ m kv, <[kv.1 := kv.2]> m) m l.

Lemma put_slots_union l : NoDup l.*1 → ∀ m, put_slots l m = list_to_map l ∪ m.
Proof.
  induction l as [| [k v] l IH]; intros Hn m; [by rewrite list_to_map_nil, (left_id_L ∅ (∪)) |]. apply NoDup_cons in Hn as [Hk Hn]. cbn [put_slots foldl fst snd]. fold (put_slots l (<[k := v]> m)).
  rewrite IH by done. rewrite list_to_map_cons, <- insert_union_l, insert_union_r by (by apply not_elem_of_list_to_map_1). done.
Qed.

Lemma update_slots_rep l : ∀ d o ao, obj_rep d o ao → is_Some (ob_trie o) → Forall (λ kv, pendingStorage ao !! kv.1 = Some kv.2) l →
  ∃ o', update_slots Keccak256 l (d, o) = (Ok tt, (d, o')) ∧ obj_rep d o' (set_so_trie (put_slots l (so_trie ao)) ao) ∧ is_Some (ob_trie o') ∧ same_code o o'.
Proof.
  induction l as [| [k v] l IH]; intros d o ao Hr Ht Hl; [exists o; split; [done |]; split; [by destruct ao | done] |]. apply Forall_cons in Hl as [Hkv Hl]. cbn [update_slots]. unfold mbind, st_bind.
  destruct (update_slot_rep d o ao k v Hr Ht Hkv) as (o1 & -> & Hr1 & Ht1 & Hd1). destruct (IH d o1 _ Hr1 Ht1 Hl) as (o2 & -> & Hr2 & Ht2 & Hd2). exists o2. split; [done |]. split; [done |]. split; [done | by transitivity o1].
Qed.

Lemma finalise_rep d o ao : obj_rep d o ao → obj_rep d (ob_finalise o) (obj_finalise ao).
Proof.
  intros [Ha Hn Hb Hc Hp Hdi Hsu Hde He (W1 & W2 & W3) Hl Ho Ht Hcode]. split; try done.
  - cbn. by rewrite Hp, Hdi.
  - split; [done |]. split; [| by apply map_Forall_empty]. by apply map_Forall_union_2.
  - intros k [Hk | Hk]; [| by cbn in Hk; rewrite lookup_empty in Hk; destruct Hk]. apply Hl. cbn in Hk. rewrite lookup_union_is_Some in Hk. tauto.
Qed.

Lemma updateTrie_rep d o ao : obj_rep d o ao →
  ∃ o', updateTrie Keccak256 range_slots (d, o) = (Ok tt, (d, o')) ∧ obj_rep d o' (flush_object (obj_finalise ao)) ∧ is_Some (ob_trie o') ∧ same_code o o'.
Proof.
  intros Hr. apply finalise_rep in Hr. unfold updateTrie. unfold mbind at 1, st_bind at 1, on_object at 1, st_modify at 1. set (ao1 := obj_finalise ao) in *.
  destruct (getTrie_rep d _ ao1 Hr) as (o1 & t & sm & H1 & Hr1 & Hs1 & _ & Ht & _). unfold mbind at 1, st_bind at 1. rewrite H1. unfold mbind at 1, st_bind at 1, the_object at 1, st_gets. cbn [snd].
  rewrite (or_pending d o1 ao1 Hr1). set (l := range_slots (pendingStorage ao1)). pose proof (range_slots_all (pendingStorage ao1)) as Hperm. fold l in Hperm.
  destruct (update_slots_rep l d o1 ao1 Hr1 ltac:(by eexists)) as (o2 & H2 & Hr2 & Ht2 & Hd2).
  { apply Forall_forall. intros [k v] Hin. rewrite Hperm in Hin. by apply elem_of_map_to_list in Hin. }
  unfold mbind at 1, st_bind at 1. rewrite H2. eexists. split; [done |]. split; [| split; [done |]; transitivity o1; [by destruct Hs1 | by destruct Hd2]].
  rewrite put_slots_union in Hr2 by (rewrite Hperm; apply NoDup_fst_map_to_list). rewrite (list_to_map_proper l _ ltac:(rewrite Hperm; apply NoDup_fst_map_to_list) Hperm), list_to_map_to_list in Hr2.
  destruct Hr2 as [Ha Hn Hb Hc Hp Hdi Hsu Hde He (W1 & W2 & W3) Hl Ho Htr Hcode]. split; try done.
  intros k [Hk | Hk]; [by cbn in Hk; rewrite lookup_empty in Hk; destruct Hk |]. apply Hl. by right.
Qed.

(** ** Roots *)

Lemma slot_map_unique sm sm' m : slot_map sm m → slot_map sm' m → sm = sm'.
Proof. intros H1 H2. apply map_eq. intros k. apply option_eq. intros b. by rewrite (H1 k b), (H2 k b). Qed.

Lemma updateRoot_rep d o ao : obj_rep d o ao →
  ∃ o' h, updateRoot Keccak256 range_slots (d, o) = (Ok tt, (d, o')) ∧ obj_rep d o' (flush_object (obj_finalise ao)) ∧ synced o' ∧ ob_data o' = set_Root h (ob_data o) ∧ ob_dirtyCode o' = ob_dirtyCode o.
Proof.
  intros Hr. destruct (updateTrie_rep d o ao Hr) as (o1 & H1 & Hr1 & [t Ht] & [Hd1 Hdc1]). unfold updateRoot. unfold mbind at 1, st_bind at 1. rewrite H1. set (ao1 := flush_object (obj_finalise ao)) in *.
  pose proof (or_trie d o1 ao1 Hr1) as Htr. rewrite Ht in Htr. destruct Htr as (sm & Hs & Hm). pose proof (slots_small sm (so_trie ao1) Hm (proj1 (or_words _ _ _ Hr1))) as Hv.
  destruct (SecureTrie_Hash_spec d t sm Hs Hv) as (h & t' & Hh & Hs' & Hth & Hlen). unfold mbind at 1, st_bind at 1. rewrite (with_trie_spec _ d o1 t _ d t' Ht Hh).
  destruct (set_trie_rep d o1 ao1 t t' sm Hr1 Ht Hs Hs' Hm) as [Hr2 _]. eexists _, h. split; [done |]. split; [| split].
  - destruct Hr2 as [[A1 A2 A3 A4] Hn Hb Hc Hp Hdi Hsu Hde He Hw Hl Ho Htr Hcode]. by split; try done; split.
  - unfold synced. cbn. rewrite <- Hth. by apply (trie_hash_unique d d t' t sm).
  - cbn. by rewrite Hd1.
Qed.

Lemma synced_root d o ao : obj_rep d o ao → synced o → ∃ t sm, secure_holds d t sm ∧ slot_map sm (so_trie ao) ∧ trie_hash t = Ok (Root (ob_data o)).
Proof.
  intros Hr Hs. pose proof (or_trie d o ao Hr) as Ht. unfold synced in Hs. destruct (ob_trie o) as [t |].
  - destruct Ht as (sm & ? & ?). by exists t, sm.
  - destruct Ht as (_ & _ & t & sm & _ & ? & ? & ?). by exists t, sm.
Qed.

Lemma trie_hash_not_zero d t m h : secure_holds d t m → committable Keccak256 P m → trie_hash t = Ok h → h ≠ hash0.
Proof.
  intros [(hm & (x & R & T) & M) _ _ _ _] [Hv Henc] Hh. destruct (hashed_small Keccak256 length_Keccak256 m hm M Hv) as [Hsm Hne].
  unfold trie_hash in Hh. destruct (Hash_spec Keccak256 length_Keccak256 d (trie_root t) x hm R T Hsm) as (? & Heq & _). rewrite Heq in Hh. injection Hh as <-.
  pose proof (tree_for_good Keccak256 length_Keccak256 x hm P T Hsm Hne (Henc hm M)) as G. destruct T as [[-> | W] _]; [apply emptyRoot_not_zero |].
  rewrite (root_hash_wf Keccak256 x W). destruct (good_self Keccak256 P x W G) as [Px _]. apply (not_empty_root _ _ P_free _ Px).
Qed.

Lemma flush_clean ao : pendingStorage ao = ∅ → dirtyStorage ao = ∅ → flush_object (obj_finalise ao) = ao.
Proof. intros Hp Hd. unfold flush_object, obj_finalise. destruct ao. cbn in *. subst. by rewrite !(left_id_L ∅ (∪)). Qed.

Lemma CommitTrie_rep d o ao : obj_rep d o ao → synced o → pendingStorage ao = ∅ → dirtyStorage ao = ∅ → db_inv d → (∀ sm, slot_map sm (so_trie ao) → committable Keccak256 P sm) →
  ∃ d' o', CommitTrie Keccak256 range_slots (d, o) = (Ok tt, (d', o')) ∧ obj_rep d' o' ao ∧ synced o' ∧ ob_data o' = ob_data o ∧ ob_dirtyCode o' = ob_dirtyCode o ∧
    opens d' (Root (ob_data o')) (so_trie ao) ∧ grown d d' ∧ db_inv d'.
Proof.
  intros Hr Hsy Hp Hdi Hinv Hcom. destruct (synced_root d o ao Hr Hsy) as (t0 & sm & Hs0 & Hm0 & Hh0).
  destruct (updateTrie_rep d o ao Hr) as (o1 & H1 & Hr1 & [t Ht] & [Hd1 Hdc1]). rewrite flush_clean in Hr1 by done.
  pose proof (or_trie d o1 ao Hr1) as Htr. rewrite Ht in Htr. destruct Htr as (sm' & Hs & Hm). pose proof (slot_map_unique sm' sm (so_trie ao) Hm Hm0) as ->.
  destruct (Commit_secure Keccak256 length_Keccak256 Q P P_free None d t sm ltac:(done) Hs (Hcom sm Hm) Hinv) as (h & d' & t' & Hc & Hh & Hs' & Hnew & Hg & Hinv').
  pose proof (slots_small sm (so_trie ao) Hm (proj1 (or_words _ _ _ Hr))) as Hv. assert (h = Root (ob_data o)) as ->.
  { enough (Ok h = Ok (Root (ob_data o))) as [=] by done. rewrite <- Hh0, <- (trie_hash_unique d d t t0 sm Hs Hs0 Hv). done. }
  unfold CommitTrie. unfold mbind at 1, st_bind at 1. rewrite H1. unfold mbind at 1, st_bind at 1, the_object at 1, st_gets. cbn [snd]. rewrite (or_err d o1 ao Hr1).
  unfold mbind at 1, st_bind at 1. rewrite (with_trie_spec _ d o1 t _ d' t' Ht Hc). eexists d', _. split; [done |]. apply (obj_rep_grown d d' _ _ Hg) in Hr1.
  destruct (set_trie_rep d' o1 ao t t' sm Hr1 Ht) as [Hr2 _]; [by eapply secure_grown | done | done |].
  assert (set_data (set_Root (Root (ob_data o)) (ob_data (set_trie (Some t') o1))) (set_trie (Some t') o1) = set_trie (Some t') o1) as ->.
  { unfold set_data, set_trie, set_Root. cbn. rewrite Hd1. by destruct (ob_data o). }
  split; [done |]. assert (trie_hash t' = Ok (Root (ob_data o))) as Hh' by (rewrite <- Hh0; by apply (trie_hash_unique d' d t' t0 sm)).
  split; [unfold synced; cbn; by rewrite Hd1 |]. split; [done |]. split; [done |]. split; [| done]. cbn. rewrite Hd1. split; [by apply (trie_hash_not_zero d t0 sm), Hh0; [| apply Hcom] |].
  split; [apply (or_account _ _ _ Hr) |]. destruct (Hnew 0%nat) as (t2 & Hn2 & Hs2). exists t2, sm. split; [done |]. split; [done |]. split; [done |]. rewrite <- Hh'. by apply (trie_hash_unique d' d' t2 t' sm).
Qed.

(** ** Code *)

Lemma Code_rep d o ao : obj_rep d o ao → ∃ o', ob_Code Keccak256 (d, o) = (Ok (obj_Code Keccak256 ContractCode ao), (d, o')) ∧ obj_rep d o' ao ∧ same_object o o'.
Proof.
  intros Hr. pose proof Hr as [Ha Hn Hb Hc Hp Hdi Hsu Hde He Hw Hl Ho Ht (H1 & H2 & H3)]. unfold ob_Code, obj_Code, emptyCodeHash, cachingDB_ContractCode. unfold mbind, st_bind, st_get. rewrite Hc.
  destruct H1 as [H1 | (Hnone & H1 & Hne)].
  - rewrite H1. destruct (so_code ao) as [c |] eqn:Ec; [by exists o |]. case_bool_decide as Hh; [by exists o |].
    assert (ob_dirtyCode o = false) as Hdc by (by destruct (ob_dirtyCode o)). rewrite Hdc in H3. destruct H3 as [? | H3]; [done |].
    rewrite BytesToHash_id, H3 by (rewrite <- Hc; apply Ha). eexists. split; [done |]. split; [| by split]. split; try done. split; [by right |]. split; [intros c; by rewrite Ec |]. cbn. rewrite Hdc. by right.
  - rewrite H1, Hnone. rewrite bool_decide_eq_false_2 by done. by exists o.
Qed.

Lemma mustDecode_ok h b n : decodeNode (Some h) b = Ok n → mustDecodeNode (Some h) b = Ok n.
Proof. unfold mustDecodeNode. by intros ->. Qed.

(** Writing code to the database. *)
Lemma InsertBlob_spec d code : db_inv d → P code → ∃ d', InsertBlob (Keccak256 code) code d = (Ok tt, d') ∧ db_inv d' ∧ grown d d' ∧ Node d' (Keccak256 code) = Ok code.
Proof.
  intros Hinv HP. pose proof Hinv as [Hok Hb Ha]. set (h := Keccak256 code). assert (h ≠ hash0) as Hh0 by apply (not_empty_root _ _ P_free code HP).
  assert (length h = HashLength) as Hlen by apply length_Keccak256.
  destruct (insert_dirty_spec d h code (rawNode code) (rawNode code) Hok eq_refl Hlen eq_refl eq_refl) as (d' & Hi & Hok' & Hdk & Hpre & Hother & Hh).
  assert (∀ enc, Node d h = Ok enc → enc = code) as Hsame by (intros enc He; destruct (Ha h enc Hlen He) as [Pe Hk]; by apply (no_collision _ _ P_free)).
  exists d'. split; [done |]. case_bool_decide as Hk.
  { subst d'. split; [done |]. split; [done |]. destruct Hk as [c Hc]. destruct (dirty_readable d h c Hok Hc Hh0) as (_ & enc & Hn & _). by rewrite Hn, (Hsame enc Hn). }
  destruct Hh as (c & Hc & Hcn). assert (Node d' h = Ok code) as Hnode by (unfold Node, cn_rlp; by rewrite bool_decide_eq_false_2, Hc, Hcn).
  assert (∀ n, decodeNode (Some h) code = Ok n → db_get d' h = Ok (Some n)) as Hget by (intros n Hn; unfold db_get, cn_obj; rewrite Hc, Hcn, (mustDecode_ok h code n Hn); done).
  split; [split; [done | |] | split; [split | done]].
  - intros x Hx0. cbn [db_node database_NodeDatabase]. destruct (decide (x = h)) as [-> | Hne]; [right; by exists code | rewrite (proj1 (Hother x Hne)); by apply Hb].
  - intros x enc Hl Hx. destruct (decide (x = h)) as [-> | Hne]; [rewrite Hnode in Hx; by injection Hx as <- | rewrite (proj2 (Hother x Hne)) in Hx; by apply Ha].
  - intros x n. cbn [db_node database_NodeDatabase]. destruct (decide (x = h)) as [-> | Hne]; [| by rewrite (proj1 (Hother x Hne))]. intros Hn.
    unfold db_get in Hn. destruct (dirties d !! h) as [c0 |] eqn:E; [destruct Hk; by eexists |]. destruct (kv (diskdb d) !! h) as [enc |] eqn:Ek; [| done].
    assert (enc = code) as -> by (apply Hsame; unfold Node; by rewrite bool_decide_eq_false_2, E, Ek). unfold db_get, cn_obj. by rewrite Hc, Hcn.
  - intros hk. unfold preimage. by rewrite Hdk, Hpre.
  - intros Hp hk k. unfold preimage. rewrite Hdk, Hpre. apply Hp.
  - intros x enc Hl Hx. destruct (decide (x = h)) as [-> | Hne]; [by rewrite Hnode, (Hsame enc Hx) | by rewrite (proj2 (Hother x Hne))].
Qed.

(** ** Other changes of an object *)

Lemma set_nonce_rep d o ao n : obj_rep d o ao → 0 <= n < 2 ^ 64 →
  obj_rep d (set_data {| Nonce := n; Balance := Balance (ob_data o); Root := Root (ob_data o); CodeHash := CodeHash (ob_data o) |} o) (setNonce n ao).
Proof. intros [[] Hn Hb Hc Hp Hdi Hsu Hde He Hw Hl Ho Ht Hcode] Hr. by split. Qed.

Lemma set_balance_rep d o ao b : obj_rep d o ao → word b →
  obj_rep d (set_data {| Nonce := Nonce (ob_data o); Balance := b; Root := Root (ob_data o); CodeHash := CodeHash (ob_data o) |} o) (setBalance b ao).
Proof. intros [[] Hn Hb Hc Hp Hdi Hsu Hde He Hw Hl Ho Ht Hcode] Hr. by split. Qed.

Lemma set_code_rep d o ao code : obj_rep d o ao → P code → Keccak256 code = Keccak256 [] ∨ ContractCode (Keccak256 code) = code →
  obj_rep d (set_code (Some code) true (set_data {| Nonce := Nonce (ob_data o); Balance := Balance (ob_data o); Root := Root (ob_data o); CodeHash := Keccak256 code |} o))
    (setCode (Keccak256 code) (Some code) ao).
Proof.
  intros [[] Hn Hb Hc Hp Hdi Hsu Hde He Hw Hl Ho Ht Hcode] HP Hcc. split; try done; [by split; [.. | apply length_Keccak256] |]. split; [by left |]. split; [| done]. by intros c [= <-].
Qed.

Lemma set_suicided_rep d o ao : obj_rep d o ao → obj_rep d (set_flags true (ob_deleted o) o) (set_suicided true ao).
Proof. intros []. by split. Qed.

Lemma mark_deleted_rep d o ao : obj_rep d o ao → obj_rep d (set_flags (ob_suicided o) true o) (mark_deleted ao).
Proof. intros []. by split. Qed.

Lemma empty_rep d o ao : obj_rep d o ao → ob_empty Keccak256 o = obj_empty Keccak256 ao.
Proof. intros Hr. unfold ob_empty, obj_empty. by rewrite (or_nonce _ _ _ Hr), (or_balance _ _ _ Hr), (or_codehash _ _ _ Hr). Qed.

(** The account of the trie stands for [acc]. *)
Record account_rep (d : Database) (a : Account) (acc : account) : Prop := {
  ac_ok : account_ok a;
  ac_nonce : Nonce a = acc_Nonce acc;
  ac_balance : Balance a = acc_Balance acc;
  ac_codehash : CodeHash a = acc_CodeHash acc;
  ac_opens : opens d (Root a) (acc_storage acc);
  ac_words : words (acc_storage acc);
  ac_stored : acc_CodeHash acc = Keccak256 [] ∨ Node d (acc_CodeHash acc) = Ok (ContractCode (acc_CodeHash acc));
}.

Lemma account_rep_grown d d' a acc : grown d d' → account_rep d a acc → account_rep d' a acc.
Proof.
  intros Hg [Ha Hn Hb Hc Ho Hw Hs]. split; try done; [by apply (opens_grown d) |]. destruct Hs as [? | ?]; [by left | right]. apply (gr_blobs _ _ _ _ Hg); [| done]. rewrite <- Hc. apply Ha.
Qed.

Lemma newObject_rep d a acc : account_rep d a acc → obj_rep d (newObject a) (StateDB.newObject acc) ∧ ob_data (newObject a) = a ∧ synced (newObject a).
Proof.
  intros [Ha Hn Hb Hc Ho Hw Hs]. assert (ob_data (newObject a) = a) as Hd by (cbn; by rewrite bool_decide_eq_false_2 by apply Ho).
  split; [| by split; [| unfold synced]]. split; rewrite ?Hd; try done.
  - cbn. intros k [[? Hk] | [? Hk]]; by rewrite lookup_empty in Hk.
  - split; [by left |]. by split.
Qed.

Lemma new_object_rep d t : NewSecure 0 d emptyRoot = Ok t → secure_holds d t ∅ → trie_hash t = Ok emptyRoot →
  obj_rep d (newObject (new_account Keccak256)) (setNonce 0 (StateDB.newObject (empty_account Keccak256))).
Proof.
  intros Hn Hs Hh. assert (ob_data (newObject (new_account Keccak256)) = set_Root emptyRoot (new_account Keccak256)) as Hd by (cbn; by rewrite bool_decide_eq_true_2).
  split; rewrite ?Hd; [| reflexivity.. | | | | |].
  - split; [cbn; lia | split; reflexivity || discriminate | apply length_emptyRoot | apply length_Keccak256].
  - split; [apply map_Forall_empty | split; apply map_Forall_empty].
  - intros k [[? Hk] | [? Hk]]; cbn in Hk; by rewrite lookup_empty in Hk.
  - intros k v Hk. cbn in Hk. by rewrite lookup_empty in Hk.
  - cbn [ob_trie newObject Root set_Root]. split; [apply emptyRoot_not_zero |]. split; [apply length_emptyRoot |].
    exists t, ∅. split; [exact Hn |]. split; [exact Hs |]. split; [exact slot_map_empty | exact Hh].
  - split; [left; reflexivity |]. split; [intros c Hc; discriminate Hc |]. left. reflexivity.
Qed.

End Objects.
