(* ===== verification/StateTriesFacts.v ===== *)
(** The state database on its tries does what the state database on maps does:
    its reads and writes, the ends of transactions and blocks, and opening the
    state again at a root. *)

From S2P Require Import Prelude Rlp StateDB TrieNode Trie TrieTree TrieRep TrieHash TrieCommit TrieContents TrieTheorems TrieDatabase TrieDatabaseFacts TrieRefs TrieSecure StateTries StateSlots StateObjects.

#[local] Opaque hash0 emptyRoot.

(** ** What is committed *)

(** The account of an object, with the slots that are not zero. *)
Definition stored_account (o : stateObject) : account :=
  {| acc_Nonce := so_Nonce o; acc_Balance := so_Balance o; acc_CodeHash := so_CodeHash o; acc_storage := filter (λ kv, kv.2 ≠ 0) (so_trie o) |}.

(** The accounts of a state. *)
Definition committed (s : StateDB.StateDB) : gmap address account :=
  merge (λ mo macc, match mo with Some o => if deleted o then None else Some (stored_account o) | None => macc end) (stateObjects s) (StateDB.trie s).

(** The pending slots of the objects go to their tries. *)
Definition flush_state (s : StateDB.StateDB) : StateDB.StateDB :=
  with_objects ((λ o, if deleted o then o else flush_object o) <$> stateObjects s) s.

Lemma committed_lookup s a : committed s !! a = match stateObjects s !! a with Some o => if deleted o then None else Some (stored_account o) | None => StateDB.trie s !! a end.
Proof. unfold committed. rewrite lookup_merge. by destruct (stateObjects s !! a), (StateDB.trie s !! a). Qed.

Section States.
  Context (Keccak256 : list byte → list byte) (length_Keccak256 : ∀ b, length (Keccak256 b) = HashLength).
  Context (Q : list byte → Prop) (Q_inj : ∀ a b, Q a → Q b → Keccak256 a = Keccak256 b → a = b).
  Context (P : list byte → Prop) (P_free : collision_free Keccak256 P).
  Context (ContractCode : list byte → list byte).
  Context (range_slots : gmap Z Z → list (Z * Z)) (range_slots_all : ∀ m, range_slots m ≡ₚ map_to_list m).
  Context (range_addresses : gset address → list address) (range_addresses_all : ∀ X, range_addresses X ≡ₚ elements X).

#[local] Abbreviation secure_holds := (secure_holds Keccak256 Q).
#[local] Abbreviation db_inv := (db_inv Keccak256 P).
#[local] Abbreviation grown := (grown Keccak256 Q).
#[local] Abbreviation obj_rep := (obj_rep Keccak256 Q P ContractCode).
#[local] Abbreviation account_rep := (account_rep Keccak256 Q ContractCode).
#[local] Abbreviation opens := (opens Keccak256 Q).
#[local] Abbreviation synced := (synced Keccak256).
#[local] Abbreviation same_object := (same_object Keccak256).

(** Nothing of the object waits to be written. *)
Definition clean (o : object) : Prop := ob_deleted o = false → ob_pending o = ∅ ∧ ob_dirty o = ∅ ∧ synced o.

(** What the trie of accounts has for an object. *)
Definition entry_of (o : object) : option (list byte) := if ob_deleted o then None else Some (account_bytes (ob_data o)).

(** The trie of accounts: [s] has the accounts of the addresses without an object. *)
Definition accounts_rep (c : statedb) (s : StateDB.StateDB) (am : gmap (list byte) (list byte)) : Prop :=
  (∀ a, sd_objects c !! a = None →
    match StateDB.trie s !! a with
    | Some acc => Q a ∧ ∃ x, am !! a = Some (account_bytes x) ∧ account_rep (sd_db c) x acc
    | None => am !! a = None
    end) ∧
  ∀ a o, sd_objects c !! a = Some o → a ∉ dom (sd_dirties c) → a ∉ sd_pending c → clean o ∧ am !! a = entry_of o.

Record state_rep (c : statedb) (s : StateDB.StateDB) : Prop := {
  sr_db : db_inv (sd_db c);
  sr_err : sd_dbErr c = None;
  sr_entries : sd_entries c = len (entries s);
  sr_dirties : sd_dirties c = StateDB.dirties s;
  sr_journal : entries s = [] → StateDB.dirties s = ∅;
  sr_objects : ∀ a o, sd_objects c !! a = Some o → Q a ∧ ∃ ao, StateDB.getDeletedStateObject a s = Some ao ∧ obj_rep (sd_db c) o ao;
  sr_known : ∀ a, is_Some (stateObjects s !! a) → is_Some (sd_objects c !! a);
  sr_marked : ∀ a, a ∈ dom (sd_dirties c) ∨ a ∈ sd_dirty c → is_Some (stateObjects s !! a);
  sr_pending : sd_pending c ⊆ sd_dirty c;
  sr_accounts : ∃ am, secure_holds (sd_db c) (sd_trie c) am ∧ accounts_rep c s am;
  sr_finalised : ∀ a o, sd_objects c !! a = Some o → a ∉ dom (sd_dirties c) → ob_deleted o = false → ob_dirty o = ∅;
  sr_stored : ∀ a o ao, sd_objects c !! a = Some o → StateDB.getDeletedStateObject a s = Some ao → a ∉ dom (sd_dirties c) → a ∉ sd_dirty c → ob_deleted o = false →
    opens (sd_db c) (Root (ob_data o)) (so_trie ao) ∧ ob_dirtyCode o = false;
  sr_nonzero : ∀ a acc, StateDB.trie s !! a = Some acc → map_Forall (λ _ v, v ≠ 0) (acc_storage acc);
}.

(** The object of an address that is in memory. *)
Lemma sr_object c s a o : state_rep c s → sd_objects c !! a = Some o → ∃ ao, StateDB.getDeletedStateObject a s = Some ao ∧ obj_rep (sd_db c) o ao ∧ Q a.
Proof. intros Hr Ho. destruct (sr_objects c s Hr a o Ho) as (HQ & ao & ? & ?). by exists ao. Qed.

(** The trie of accounts is another one with the same accounts. *)
Lemma rep_trie c s t am : state_rep c s → secure_holds (sd_db c) t am → accounts_rep c s am → state_rep (set_db_trie (sd_db c) t c) s.
Proof. intros [] Hs Ha. split; try done. by exists am. Qed.

(** An object is read. *)
Lemma rep_read c s a o o' ao : state_rep c s → sd_objects c !! a = Some o → StateDB.getDeletedStateObject a s = Some ao → obj_rep (sd_db c) o' ao → same_object o o' →
  state_rep (set_objects (<[a := o']> (sd_objects c)) (set_db_trie (sd_db c) (sd_trie c) c)) s.
Proof.
  intros [Hdb Her Hen Hdi Hj Hob Hkn Hmk Hpe Hac Hfi Hst Hnz] Ho Hao Hr [S1 S2 S3 S4 S5 S6 S7].
  assert (∀ x ox, <[a := o']> (sd_objects c) !! x = Some ox → ∃ o0, sd_objects c !! x = Some o0 ∧ (x = a ∧ o0 = o ∧ ox = o' ∨ x ≠ a ∧ ox = o0)) as Hcase.
  { intros x ox Hx. apply lookup_insert_Some in Hx as [[<- <-] | [Hne Hx]]; [exists o; auto | exists ox; auto]. }
  split; cbn [sd_db sd_trie sd_objects sd_pending sd_dirty sd_dbErr sd_entries sd_dirties set_objects set_db_trie]; try done.
  - intros x ox Hx. destruct (Hcase x ox Hx) as (o0 & Hx0 & [(-> & -> & ->) | (_ & ->)]); [| by apply Hob]. split; [by apply (Hob a o) | by exists ao].
  - intros x Hx. destruct (decide (a = x)) as [<- | ?]; [rewrite lookup_insert_eq; by eexists | rewrite lookup_insert_ne by done; by apply Hkn].
  - destruct Hac as (am & Hs & Hnone & Hsome). exists am. split; [done |]. split.
    + intros x Hx. cbn in Hx. apply lookup_insert_None in Hx as [Hx _]. by apply Hnone.
    + intros x ox Hx Hnd Hnp. destruct (Hcase x ox Hx) as (o0 & Hx0 & [(-> & -> & ->) | (_ & ->)]); [| by apply Hsome]. destruct (Hsome a o Hx0 Hnd Hnp) as [Hcl ->].
      unfold entry_of. rewrite S6, S1. split; [| done]. unfold clean. rewrite S6, S2, S3. intros Hde. destruct (Hcl Hde) as (? & ? & ?). auto.
  - intros x ox Hx Hnd Hde. destruct (Hcase x ox Hx) as (o0 & Hx0 & [(-> & -> & ->) | (_ & ->)]); [| by apply (Hfi x)]. rewrite S3. apply (Hfi a o Hx0 Hnd). by rewrite <- S6.
  - intros x ox ax Hx Hax Hnd Hns Hde. destruct (Hcase x ox Hx) as (o0 & Hx0 & [(-> & -> & ->) | (_ & ->)]); [| by apply (Hst x)]. rewrite S1, S4. apply (Hst a o ax Hx0 Hax Hnd Hns). by rewrite <- S6.
Qed.

Lemma on_stored_read {A} (m : st (Database * object) A) c s a o ao r o' : state_rep c s → sd_objects c !! a = Some o → StateDB.getDeletedStateObject a s = Some ao →
  m (sd_db c, o) = (Ok r, (sd_db c, o')) → obj_rep (sd_db c) o' ao → same_object o o' → ∃ c', on_stored a m c = (Ok r, c') ∧ state_rep c' s ∧ sd_db c' = sd_db c.
Proof.
  intros Hr Ho Hao Hm Hro Hs. unfold on_stored. rewrite Ho, Hm. eexists. split; [done |]. split; [by apply (rep_read c s a o o' ao) | done].
Qed.

(** ** Objects of a state *)

Lemma get_rep c s a : state_rep c s → Q a →
  ∃ oo c', getDeletedStateObject Keccak256 a c = (Ok oo, c') ∧ state_rep c' s ∧ sd_db c' = sd_db c ∧ sd_objects c' !! a = oo ∧
    match StateDB.getDeletedStateObject a s with Some ao => ∃ o, oo = Some o ∧ obj_rep (sd_db c') o ao | None => oo = None end.
Proof.
  intros Hr HQ. unfold getDeletedStateObject. unfold mbind at 1, st_bind at 1, st_gets at 1. destruct (sd_objects c !! a) as [o |] eqn:Ho.
  { destruct (sr_object c s a o Hr Ho) as (ao & Hao & Hro & _). exists (Some o), c. rewrite Hao. split; [done |]. split; [done |]. split; [done |]. split; [done |]. by exists o. }
  destruct (sr_accounts c s Hr) as (am & Hs & Hacc). pose proof (proj1 Hacc a Ho) as Ha. destruct (TryGet_secure Keccak256 length_Keccak256 Q Q_inj (sd_db c) (sd_trie c) am a Hs HQ) as (t' & Hget & Hs').
  unfold mbind at 1, st_bind at 1, attempt, on_accounts. rewrite Hget. pose proof (rep_trie c s t' am Hr Hs' Hacc) as Hr1. set (c1 := set_db_trie (sd_db c) t' c) in *.
  assert (stateObjects s !! a = None) as Hnone.
  { destruct (stateObjects s !! a) eqn:E; [| done]. destruct (sr_known c s Hr a) as [? ?]; [by eexists | congruence]. }
  unfold StateDB.getDeletedStateObject. rewrite Hnone. destruct (StateDB.trie s !! a) as [acc |] eqn:Et; cbn [fmap option_fmap option_map].
  - destruct Ha as (_ & x & Hx & Hax). rewrite Hx. cbn [default from_option id]. pose proof (len_account x (ac_ok _ _ _ _ _ _ Hax)) as Hlen.
    rewrite (proj2 (Z.eqb_neq _ _)) by lia. rewrite decode_account_bytes by apply Hax. destruct (newObject_rep Keccak256 Q P ContractCode (sd_db c) x acc Hax) as (Hro & Hd & Hsy).
    eexists _, _. split; [done |]. split; [| split; [done |]; split; [apply lookup_insert_eq |]; by eexists].
    assert (∀ y oy, sd_objects c1 !! y = Some oy → y ≠ a) as Hne by (intros y oy Hy ->; cbn in Hy; congruence).
    destruct Hr1 as [Hdb Her Hen Hdi Hj Hob Hkn Hmk Hpe _ Hfi Hst Hnz].
    split; cbn [sd_db sd_trie sd_objects sd_pending sd_dirty sd_dbErr sd_entries sd_dirties set_objects set_db_trie c1]; try done.
    + intros y oy Hy. apply lookup_insert_Some in Hy as [[<- <-] | [_ Hy]]; [| by apply Hob]. split; [done |]. exists (StateDB.newObject acc). split; [| done].
      unfold StateDB.getDeletedStateObject. by rewrite Hnone, Et.
    + intros y Hy. destruct (decide (a = y)) as [<- | ?]; [rewrite lookup_insert_eq; by eexists | rewrite lookup_insert_ne by done; by apply Hkn].
    + exists am. split; [done |]. split.
      * intros y Hy. cbn in Hy. apply lookup_insert_None in Hy as [Hy _]. by apply (proj1 Hacc).
      * intros y oy Hy Hnd Hnp. cbn in Hy. apply lookup_insert_Some in Hy as [[<- <-] | [_ Hy]]; [| by apply (proj2 Hacc y)]. split; [by intros _; split; [| split] |]. unfold entry_of. cbn [ob_deleted newObject]. by rewrite Hd.
    + intros y oy Hy Hnd Hde. apply lookup_insert_Some in Hy as [[<- <-] | [_ Hy]]; [done | by apply (Hfi y)].
    + intros y oy ay Hy Hay Hnd Hns Hde. apply lookup_insert_Some in Hy as [[<- <-] | [_ Hy]]; [| by apply (Hst y)]. unfold StateDB.getDeletedStateObject in Hay. rewrite Hnone, Et in Hay.
      injection Hay as <-. split; [| done]. rewrite Hd. apply Hax.
  - rewrite Ha. cbn [default from_option id]. exists None, c1. split; [done |]. split; [done |]. split; [done |]. done.
Qed.

Lemma getStateObject_rep c s a : state_rep c s → Q a →
  ∃ oo c', getStateObject Keccak256 a c = (Ok oo, c') ∧ state_rep c' s ∧ sd_db c' = sd_db c ∧
    match StateDB.getStateObject a s with Some ao => ∃ o, oo = Some o ∧ sd_objects c' !! a = Some o ∧ StateDB.getDeletedStateObject a s = Some ao ∧ obj_rep (sd_db c') o ao | None => oo = None end.
Proof.
  intros Hr HQ. destruct (get_rep c s a Hr HQ) as (oo & c' & Hg & Hr' & Hdb & Hob & Hao). unfold getStateObject, StateDB.getStateObject. unfold mbind, st_bind. rewrite Hg.
  destruct (StateDB.getDeletedStateObject a s) as [ao |] eqn:E.
  - destruct Hao as (o & -> & Hro). eexists _, c'. split; [done |]. split; [done |]. split; [done |]. rewrite (or_deleted _ _ _ _ _ _ _ Hro). destruct (deleted ao); [done |]. by exists o.
  - exists None, c'. rewrite Hao. by split.
Qed.

(** Reading from an object of a state. *)
Lemma read_object_rep {A} (m : st (Database * object) A) (f : stateObject → A) (none : A) c s a : state_rep c s → Q a →
  (∀ d o ao, obj_rep d o ao → ∃ o', m (d, o) = (Ok (f ao), (d, o')) ∧ obj_rep d o' ao ∧ same_object o o') →
  ∃ c', read_object Keccak256 a none m c = (Ok (from_option f none (StateDB.getStateObject a s)), c') ∧ state_rep c' s ∧ sd_db c' = sd_db c.
Proof.
  intros Hr HQ Hm. destruct (getStateObject_rep c s a Hr HQ) as (oo & c1 & Hg & Hr1 & Hdb1 & Hao). unfold read_object. unfold mbind, st_bind. rewrite Hg.
  destruct (StateDB.getStateObject a s) as [ao |] eqn:E; [| subst oo; by exists c1]. destruct Hao as (o & -> & Ho & Hao & Hro). destruct (Hm (sd_db c1) o ao Hro) as (o' & Ho' & Hro' & Hs).
  destruct (on_stored_read m c1 s a o ao (f ao) o' Hr1 Ho Hao Ho' Hro' Hs) as (c2 & -> & Hr2 & Hdb2). exists c2. split; [done |]. split; [done | congruence].
Qed.

(** ** Writing *)

(** From [c] and [s], only the object of [a] and the journal have changed. *)
Record near (a : address) (c : statedb) (s : StateDB.StateDB) (c' : statedb) (s' : StateDB.StateDB) : Prop := {
  nr_db : sd_db c' = sd_db c;
  nr_trie : sd_trie c' = sd_trie c;
  nr_pending : sd_pending c' = sd_pending c;
  nr_dirty : sd_dirty c' = sd_dirty c;
  nr_err : sd_dbErr c' = sd_dbErr c;
  nr_objects : ∀ x, x ≠ a → sd_objects c' !! x = sd_objects c !! x;
  nr_stateObjects : ∀ x, x ≠ a → stateObjects s' !! x = stateObjects s !! x;
  nr_accounts : StateDB.trie s' = StateDB.trie s;
  nr_entries : sd_entries c' = len (entries s');
  nr_dirties : sd_dirties c' = StateDB.dirties s';
  nr_marked : ∀ x, x ≠ a → x ∈ dom (StateDB.dirties s') ↔ x ∈ dom (StateDB.dirties s);
}.

Lemma near_refl a c s : state_rep c s → near a c s c s.
Proof. intros []. by split. Qed.

Lemma near_append a c s c' s' e : near a c s c' s' → dirtied e = None ∨ dirtied e = Some a → near a c s (journal_append (dirtied e) c') (append e s').
Proof.
  intros [] He. split; try done; cbn.
  - rewrite len_app, nr_entries0. done.
  - unfold mark_dirty. rewrite nr_dirties0. done.
  - intros x Hx. rewrite <- nr_marked0 by done. unfold mark_dirty. destruct He as [-> | ->]; [done |]. rewrite dom_insert. set_solver.
Qed.

Lemma near_put a c s c' s' o ao : near a c s c' s' → near a c s (set_objects (<[a := o]> (sd_objects c')) (set_db_trie (sd_db c') (sd_trie c') c')) (put a ao s').
Proof. intros []. split; try done; intros x Hx; cbn; rewrite lookup_insert_ne by done; auto. Qed.

Lemma rep_near a c s c' s' o ao : state_rep c s → near a c s c' s' → Q a → sd_objects c' !! a = Some o → stateObjects s' !! a = Some ao → obj_rep (sd_db c) o ao →
  a ∈ dom (StateDB.dirties s') → entries s' ≠ [] → state_rep c' s'.
Proof.
  intros [Hdb Her Hen Hdi Hj Hob Hkn Hmk Hpe Hac Hfi Hst Hnz] [N1 N2 N3 N4 N5 N6 N7 N8 N9 N10 N11] HQ Ho Hao Hro Ha Hne.
  assert (∀ x, x ≠ a → StateDB.getDeletedStateObject x s' = StateDB.getDeletedStateObject x s) as Hget by (intros x Hx; unfold StateDB.getDeletedStateObject; by rewrite N7, N8).
  split; rewrite ?N1, ?N2, ?N3, ?N4, ?N5, ?N8; try done.
  - intros x ox Hx. destruct (decide (x = a)) as [-> | Hxa].
    + split; [done |]. exists ao. rewrite Ho in Hx. injection Hx as <-. split; [| done]. unfold StateDB.getDeletedStateObject. by rewrite Hao.
    + rewrite Hget by done. rewrite N6 in Hx by done. by apply Hob.
  - intros x Hx. destruct (decide (x = a)) as [-> | Hxa]; [by eexists |]. rewrite N7 in Hx by done. rewrite N6 by done. by apply Hkn.
  - intros x Hx. destruct (decide (x = a)) as [-> | Hxa]; [by eexists |]. rewrite N7 by done. apply Hmk. rewrite N10, N11, <- Hdi in Hx by done. done.
  - destruct Hac as (am & Hs & Hnone & Hsome). exists am. split; [done |]. split.
    + intros x Hx. rewrite N8, N1. apply Hnone. rewrite <- N6; [done |]. intros ->. congruence.
    + intros x ox Hx Hnd Hnp. rewrite N10 in Hnd. assert (x ≠ a) as Hxa by (by intros ->). rewrite N3 in Hnp. rewrite N6 in Hx by done. apply (Hsome x ox Hx); [| done]. by rewrite Hdi, <- N11.
  - intros x ox Hx Hnd. rewrite N10 in Hnd. assert (x ≠ a) as Hxa by (by intros ->). rewrite N6 in Hx by done. apply (Hfi x ox Hx). by rewrite Hdi, <- N11.
  - intros x ox ax Hx Hax Hnd. rewrite N10 in Hnd. assert (x ≠ a) as Hxa by (by intros ->). rewrite N6 in Hx by done. rewrite Hget in Hax by done. apply (Hst x ox ax Hx Hax). by rewrite Hdi, <- N11.
Qed.

Lemma set_db_trie_id c : set_db_trie (sd_db c) (sd_trie c) c = c.
Proof. by destruct c. Qed.

Lemma on_stored_spec {A} (m : st (Database * object) A) c a o r d o' : sd_objects c !! a = Some o → m (sd_db c, o) = (r, (d, o')) →
  on_stored a m c = (r, set_objects (<[a := o']> (sd_objects c)) (set_db_trie d (sd_trie c) c)).
Proof. intros Ho Hm. unfold on_stored. by rewrite Ho, Hm. Qed.

(** A trie that is empty can be opened. *)
Lemma empty_opens c s : state_rep c s → ∃ t, NewSecure 0 (sd_db c) emptyRoot = Ok t ∧ secure_holds (sd_db c) t ∅ ∧ trie_hash Keccak256 t = Ok emptyRoot.
Proof.
  intros Hr. destruct (sr_accounts c s Hr) as (am & [_ _ _ Hpre _] & _).
  exists {| self := 0; trie_root := nilNode; secKeyCache := ∅; secKeyCacheOwner := None |}. split; [unfold NewSecure; by rewrite New_empty |].
  split; [split; [| done | apply map_Forall_empty | done | done] |].
  - exists ∅. split; [| intros hk v; rewrite lookup_empty; split; [done |]; intros (k & _ & Hk); by rewrite lookup_empty in Hk]. exists TNil. split; [constructor |]. split; [by left |].
    apply contents_nil.
  - unfold trie_hash, Hash, hashRoot, mret, st_ret. cbn [trie_root hash_result fst]. by rewrite BytesToHash_emptyRoot.
Qed.

(** What [GetOrNewStateObject] leaves: the object that is there, or a new one. *)
Lemma GetOrNew_rep c s a ao s1 : state_rep c s → Q a → StateDB.GetOrNewStateObject Keccak256 a s = (ao, s1) →
  ∃ c0 c1 o, GetOrNewStateObject Keccak256 a c = (Ok tt, c1) ∧ (state_rep c0 s ∧ sd_db c0 = sd_db c) ∧ sd_objects c1 !! a = Some o ∧ obj_rep (sd_db c0) o ao ∧ near a c0 s c1 s1 ∧
    (c1 = c0 ∧ s1 = s ∧ StateDB.getDeletedStateObject a s = Some ao ∨
     stateObjects s1 !! a = Some ao ∧ entries s1 ≠ [] ∧ StateDB.getStateObject a s = None ∧ (a ∈ dom (StateDB.dirties s1) ∨ is_Some (StateDB.getDeletedStateObject a s))).
Proof.
  intros Hr HQ Hs1. destruct (getStateObject_rep c s a Hr HQ) as (oo & c0 & Hg & Hr0 & Hdb0 & Hao). unfold GetOrNewStateObject. unfold mbind at 1, st_bind at 1. rewrite Hg.
  unfold StateDB.GetOrNewStateObject in Hs1. destruct (StateDB.getStateObject a s) as [ao' |] eqn:Eget.
  - injection Hs1 as <- <-. destruct Hao as (o & -> & Ho & Hdel & Hro). exists c0, c0, o. split; [done |]. split; [done |]. split; [done |]. split; [done |]. split; [by apply near_refl | by left].
  - subst oo. destruct (get_rep c0 s a Hr0 HQ) as (oo & c1 & Hg1 & Hr1 & Hdb1 & Hob1 & Hao1). unfold createObject. unfold mbind, st_bind. rewrite Hg1. unfold st_modify.
    unfold StateDB.createObject in Hs1. injection Hs1 as <- <-. destruct (empty_opens c1 s Hr1) as (t & Hn & Hh & Hth). pose proof (new_object_rep Keccak256 length_Keccak256 Q P ContractCode (sd_db c1) t Hn Hh Hth) as Hro.
    set (e := match StateDB.getDeletedStateObject a s with Some p => resetObjectChange a p | None => createObjectChange a end).
    assert (match oo with Some _ => None | None => Some a end = dirtied e) as He by (unfold e; destruct (StateDB.getDeletedStateObject a s); [by destruct Hao1 as (? & -> & _) | by subst oo; rewrite Hao1]).
    rewrite He. pose proof (near_append a c1 s c1 s e (near_refl a c1 s Hr1) ltac:(unfold e; destruct (StateDB.getDeletedStateObject a s); [by left | by right])) as Hn1.
    pose proof (near_put a c1 s _ _ (newObject (new_account Keccak256)) (setNonce 0 (StateDB.newObject (empty_account Keccak256))) Hn1) as Hn2. rewrite set_db_trie_id in Hn2.
    eexists c1, _, _. split; [reflexivity |]. split; [split; [exact Hr1 | congruence] |]. split; [apply lookup_insert_eq |]. split; [exact Hro |]. split; [exact Hn2 |]. right. split; [apply lookup_insert_eq |].
    split; [cbn [entries put append with_objects with_journal]; intros Hnil; by apply app_eq_nil in Hnil as [_ ?] |]. split; [reflexivity |]. destruct (StateDB.getDeletedStateObject a s) eqn:E; [right; eexists; reflexivity | left].
    cbn [StateDB.dirties put append with_objects with_journal]. unfold mark_dirty. subst e. cbn [dirtied]. rewrite dom_insert. apply elem_of_union_l, elem_of_singleton. reflexivity.
Qed.

Lemma append_not_nil e s : entries (append e s) ≠ [].
Proof. cbn [entries append with_journal]. intros Hnil. by apply app_eq_nil in Hnil as [_ ?]. Qed.

Lemma append_marked e s a : dirtied e = Some a → a ∈ dom (StateDB.dirties (append e s)).
Proof. intros He. cbn [StateDB.dirties append with_journal]. unfold mark_dirty. rewrite He, dom_insert. apply elem_of_union_l, elem_of_singleton. reflexivity. Qed.

(** A journalled change of the object. *)
Lemma rep_change a c0 s c1 s1 o ao' e f : state_rep c0 s → near a c0 s c1 s1 → Q a → sd_objects c1 !! a = Some o → dirtied e = Some a → obj_rep (sd_db c0) (f o) ao' →
  ∃ c2, (st_modify (journal_append (Some a));; on_stored a (on_object f)) c1 = (Ok tt, c2) ∧ state_rep c2 (put a ao' (append e s1)) ∧ sd_db c2 = sd_db c0.
Proof.
  intros Hr Hn HQ Ho He Hro. unfold mbind, st_bind, st_modify. rewrite (on_stored_spec _ (journal_append (Some a) c1) a o (Ok tt) (sd_db c1) (f o)); [| exact Ho | reflexivity].
  eexists. split; [reflexivity |]. pose proof (near_append a c0 s c1 s1 e Hn (or_intror He)) as Hn1. rewrite He in Hn1. pose proof (near_put a c0 s _ _ (f o) ao' Hn1) as Hn2.
  split; [| exact (nr_db _ _ _ _ _ Hn2)]. apply (rep_near a c0 s _ _ (f o) ao' Hr Hn2 HQ); [apply lookup_insert_eq | apply lookup_insert_eq | exact Hro | exact (append_marked e s1 a He) | exact (append_not_nil e s1)].
Qed.

Lemma SetNonce_rep c s a n : state_rep c s → Q a → 0 <= n < 2 ^ 64 → ∃ c', SetNonce Keccak256 a n c = (Ok tt, c') ∧ state_rep c' (StateDB.SetNonce Keccak256 a n s) ∧ sd_db c' = sd_db c.
Proof.
  intros Hr HQ Hn. unfold SetNonce, StateDB.SetNonce. destruct (StateDB.GetOrNewStateObject Keccak256 a s) as [ao s1] eqn:E.
  destruct (GetOrNew_rep c s a ao s1 Hr HQ E) as (c0 & c1 & o & Hg & [Hr0 Hdb0] & Ho & Hro & Hnear & _). unfold mbind at 1, st_bind at 1. rewrite Hg. rewrite <- Hdb0.
  apply (rep_change a c0 s c1 s1 o (setNonce n ao) (nonceChange a (so_Nonce ao)) _ Hr0 Hnear HQ Ho); [reflexivity |]. by apply set_nonce_rep.
Qed.

Lemma SetCode_rep c s a code : state_rep c s → Q a → P code → Keccak256 code = Keccak256 [] ∨ ContractCode (Keccak256 code) = code →
  ∃ c', SetCode Keccak256 a code c = (Ok tt, c') ∧ state_rep c' (StateDB.SetCode Keccak256 ContractCode a code s) ∧ sd_db c' = sd_db c.
Proof.
  intros Hr HQ HP Hcc. unfold SetCode, StateDB.SetCode. destruct (StateDB.GetOrNewStateObject Keccak256 a s) as [ao s1] eqn:E.
  destruct (GetOrNew_rep c s a ao s1 Hr HQ E) as (c0 & c1 & o & Hg & [Hr0 Hdb0] & Ho & Hro & Hnear & _). unfold mbind at 1, st_bind at 1. rewrite Hg.
  destruct (Code_rep Keccak256 Q P ContractCode (sd_db c0) o ao Hro) as (o' & Hcode & Hro' & _). unfold mbind at 1, st_bind at 1. rewrite <- (nr_db _ _ _ _ _ Hnear) in Hcode.
  rewrite (on_stored_spec _ c1 a o _ _ o' Ho Hcode). cbv beta iota.
  pose proof (near_put a c0 s c1 s1 o' ao Hnear) as Hn1. assert (∀ m, near a c0 s m (put a ao s1) → near a c0 s m s1) as Hback.
  { intros m []. split; try done. intros x Hx. rewrite <- nr_stateObjects0 by done. cbn. by rewrite lookup_insert_ne. }
  apply Hback in Hn1. rewrite <- Hdb0. apply (rep_change a c0 s _ s1 o' _ (codeChange a (obj_Code Keccak256 ContractCode ao) (so_CodeHash ao)) _ Hr0 Hn1 HQ); [apply lookup_insert_eq | reflexivity |].
  by apply set_code_rep.
Qed.

Lemma Suicide_rep c s a : state_rep c s → Q a → ∃ c', Suicide Keccak256 a c = (Ok (StateDB.Suicide a s).2, c') ∧ state_rep c' (StateDB.Suicide a s).1 ∧ sd_db c' = sd_db c.
Proof.
  intros Hr HQ. destruct (getStateObject_rep c s a Hr HQ) as (oo & c0 & Hg & Hr0 & Hdb & Hao). unfold Suicide, StateDB.Suicide. unfold mbind at 1, st_bind at 1. rewrite Hg.
  destruct (StateDB.getStateObject a s) as [ao |]; [| subst oo; by exists c0]. destruct Hao as (o & -> & Ho & _ & Hro).
  destruct (rep_change a c0 s c0 s o (setBalance 0 (set_suicided true ao)) (suicideChange a (suicided ao) (so_Balance ao))
    (λ o, set_data {| Nonce := Nonce (ob_data o); Balance := 0; Root := Root (ob_data o); CodeHash := CodeHash (ob_data o) |} (set_flags true (ob_deleted o) o)) Hr0 (near_refl a c0 s Hr0) HQ Ho)
    as (c2 & Hc2 & Hr2 & Hdb2); [reflexivity | |].
  - apply (set_balance_rep Keccak256 Q P ContractCode (sd_db c0) (set_flags true (ob_deleted o) o) (set_suicided true ao) 0); [by apply set_suicided_rep | split; [reflexivity || discriminate | reflexivity]].
  - exists c2. unfold mbind, st_bind in Hc2 |- *. unfold st_modify in *. rewrite Hc2. split; [done |]. split; [done | congruence].
Qed.

(** An account that does not exist yet. *)
Lemma CreateAccount_rep c s a : state_rep c s → Q a → StateDB.getDeletedStateObject a s = None →
  ∃ c', CreateAccount Keccak256 a c = (Ok tt, c') ∧ state_rep c' (StateDB.CreateAccount Keccak256 a s) ∧ sd_db c' = sd_db c.
Proof.
  intros Hr HQ Hnone. destruct (get_rep c s a Hr HQ) as (oo & c1 & Hg & Hr1 & Hdb1 & _ & Hao). rewrite Hnone in Hao. subst oo. unfold CreateAccount, createObject. unfold mbind, st_bind. rewrite Hg. unfold st_modify.
  unfold StateDB.CreateAccount, StateDB.createObject. rewrite Hnone. eexists. split; [reflexivity |]. destruct (empty_opens c1 s Hr1) as (t & Hn & Hh & Hth).
  pose proof (new_object_rep Keccak256 length_Keccak256 Q P ContractCode (sd_db c1) t Hn Hh Hth) as Hro.
  pose proof (near_append a c1 s c1 s (createObjectChange a) (near_refl a c1 s Hr1) (or_intror eq_refl)) as Hn1.
  pose proof (near_put a c1 s _ _ (newObject (new_account Keccak256)) (setNonce 0 (StateDB.newObject (empty_account Keccak256))) Hn1) as Hn2. rewrite set_db_trie_id in Hn2.
  split; [| exact Hdb1]. apply (rep_near a c1 s _ _ (newObject (new_account Keccak256)) (setNonce 0 (StateDB.newObject (empty_account Keccak256))) Hr1 Hn2 HQ); [apply lookup_insert_eq | apply lookup_insert_eq | exact Hro | exact (append_marked (createObjectChange a) s a eq_refl) | exact (append_not_nil (createObjectChange a) s)].
Qed.

(** A deleted account is created again only to get a slot that is not zero. *)
Definition slot_settable (a : address) (value : Z) (s : StateDB.StateDB) : Prop :=
  match StateDB.getDeletedStateObject a s with Some ao => deleted ao = true → value ≠ 0 | None => True end.

Lemma new_object_slot k : obj_GetState (setNonce 0 (StateDB.newObject (empty_account Keccak256))) k = 0.
Proof. unfold obj_GetState, obj_GetCommittedState. cbn. by rewrite !lookup_empty. Qed.

Lemma SetState_state_rep c s a key value : state_rep c s → Q a → word key → word value → Q (be 32 key) → slot_settable a value s →
  ∃ c', SetState Keccak256 a key value c = (Ok tt, c') ∧ state_rep c' (StateDB.SetState Keccak256 a key value s) ∧ sd_db c' = sd_db c.
Proof.
  intros Hr HQ Hk Hv HQk Hset. unfold SetState, StateDB.SetState. destruct (StateDB.GetOrNewStateObject Keccak256 a s) as [ao s1] eqn:E.
  destruct (GetOrNew_rep c s a ao s1 Hr HQ E) as (c0 & c1 & o & Hg & [Hr0 Hdb0] & Ho & Hro & Hnear & Hcase). unfold mbind at 1, st_bind at 1. rewrite Hg.
  destruct (SetState_rep Keccak256 length_Keccak256 Q Q_inj P ContractCode (sd_db c0) o ao key value Hro Hk Hv HQk) as (o' & Hset' & Hro' & _ & Hsame).
  rewrite <- (nr_db _ _ _ _ _ Hnear) in Hset'. unfold mbind, st_bind. rewrite (on_stored_spec _ c1 a o _ _ o' Ho Hset'). cbv beta iota.
  destruct (obj_GetState ao key =? value) eqn:Eq; cbn [negb] in *.
  - eexists. split; [reflexivity |]. pose proof (nr_db _ _ _ _ _ Hnear) as Hdb1. split; [| cbn; congruence]. destruct Hcase as [(-> & -> & Hao) | (Hs1 & Hne & Hget & Hmark)]; [by apply (rep_read c0 s a o o' ao) |].
    pose proof (near_put a c0 s c1 s1 o' ao Hnear) as Hn1. assert (put a ao s1 = s1) as Hput by (unfold put; rewrite insert_id by done; by destruct s1). rewrite Hput in Hn1.
    apply (rep_near a c0 s _ _ o' ao Hr0 Hn1 HQ); [apply lookup_insert_eq | exact Hs1 | exact Hro' | | exact Hne]. destruct Hmark as [? | [p Hp]]; [done |].
    unfold slot_settable in Hset. unfold StateDB.GetOrNewStateObject in E. rewrite Hget in E. unfold StateDB.createObject in E. unfold StateDB.getStateObject in Hget. rewrite Hp in Hset, Hget.
    destruct (deleted p) eqn:Ed; [| done]. specialize (Hset eq_refl). injection E as <- _. rewrite new_object_slot in Eq. apply Z.eqb_eq in Eq. congruence.
  - pose proof (near_put a c0 s c1 s1 o' (setState key value ao) Hnear) as Hn1. set (e := storageChange a key (obj_GetState ao key)).
    pose proof (near_append a c0 s _ _ e Hn1 (or_intror eq_refl)) as Hn2. eexists. split; [reflexivity |].
    split; [| rewrite <- Hdb0; exact (nr_db _ _ _ _ _ Hn2)]. apply (rep_near a c0 s _ _ o' (setState key value ao) Hr0 Hn2 HQ); [apply lookup_insert_eq | apply lookup_insert_eq | exact Hro' | exact (append_marked e s1 a eq_refl) | exact (append_not_nil e s1)].
Qed.

(** ** The end of a transaction *)

(** An object at the end of a transaction that changed it. *)
Definition ob_end (deleteEmptyObjects : bool) (o : object) : object :=
  if ob_suicided o || (deleteEmptyObjects && ob_empty Keccak256 o) then set_flags (ob_suicided o) true o else ob_finalise o.

Lemma ob_end_rep del d o ao : obj_rep d o ao → obj_rep d (ob_end del o) (finalise_object Keccak256 del ao).
Proof.
  intros Hr. unfold ob_end, finalise_object. rewrite (empty_rep _ _ _ _ _ _ _ Hr), (or_suicided _ _ _ _ _ _ _ Hr). destruct (_ || _); [| by apply finalise_rep].
  rewrite <- (or_suicided _ _ _ _ _ _ _ Hr). by apply mark_deleted_rep.
Qed.

Lemma ob_end_dirty del o : ob_deleted (ob_end del o) = false → ob_dirty (ob_end del o) = ∅.
Proof. unfold ob_end. by destruct (_ || _). Qed.

Lemma finalise_loop del l : ∀ c, NoDup l → (∀ a, a ∈ l → is_Some (sd_objects c !! a)) →
  let c' := foldl (λ c a, finalise_address Keccak256 del a c) c l in
  (sd_db c' = sd_db c ∧ sd_trie c' = sd_trie c ∧ sd_dbErr c' = sd_dbErr c ∧ sd_entries c' = sd_entries c ∧ sd_dirties c' = sd_dirties c) ∧
  sd_pending c' = list_to_set l ∪ sd_pending c ∧ sd_dirty c' = list_to_set l ∪ sd_dirty c ∧
  ∀ x, sd_objects c' !! x = (λ o, if bool_decide (x ∈ l) then ob_end del o else o) <$> sd_objects c !! x.
Proof.
  induction l as [| a l IH]; intros c Hn Hall c'.
  { subst c'. cbn [foldl]. split; [done |]. split; [set_solver |]. split; [set_solver |]. intros x. by destruct (sd_objects c !! x). }
  apply NoDup_cons in Hn as [Ha Hn]. destruct (Hall a ltac:(left)) as [o Ho]. subst c'. cbn [foldl]. set (c1 := finalise_address Keccak256 del a c).
  assert (c1 = set_sets ({[ a ]} ∪ sd_pending c) ({[ a ]} ∪ sd_dirty c) (set_objects (<[a := ob_end del o]> (sd_objects c)) c)) as Hc1 by (unfold c1, finalise_address; by rewrite Ho).
  destruct (IH c1 Hn) as ((H1 & H2 & H3 & H4 & H5) & Hp & Hd & Hob).
  { intros x Hx. rewrite Hc1. cbn. rewrite lookup_insert_is_Some. destruct (decide (a = x)); [by left | right; split; [done |]]. apply Hall. by right. }
  set (c2 := foldl _ c1 l) in *. clearbody c2. rewrite H1, H2, H3, H4, H5, Hp, Hd, Hc1. cbn [sd_db sd_trie sd_dbErr sd_entries sd_dirties sd_pending sd_dirty set_sets set_objects list_to_set]. split; [done |].
  split; [set_solver |]. split; [set_solver |]. intros x. rewrite Hob, Hc1. cbn [sd_objects set_sets set_objects]. destruct (decide (a = x)) as [<- | Hne].
  - rewrite lookup_insert_eq, Ho. cbn. rewrite bool_decide_eq_false_2, bool_decide_eq_true_2 by (done || left). done.
  - rewrite lookup_insert_ne by done. destruct (sd_objects c !! x); [| done]. cbn. f_equal. rewrite (bool_decide_ext (x ∈ l) (x ∈ a :: l)); [done |]. rewrite elem_of_cons. intuition congruence.
Qed.

Lemma Finalise_objects del s a : stateObjects (StateDB.Finalise Keccak256 del s) !! a =
  (λ o, if bool_decide (a ∈ dom (StateDB.dirties s)) then finalise_object Keccak256 del o else o) <$> stateObjects s !! a.
Proof.
  unfold StateDB.Finalise, clearJournalAndRefund. destruct (entries _); cbn [stateObjects with_objects with_journal with_refund with_revisions]; rewrite map_lookup_imap; by destruct (stateObjects s !! a).
Qed.

Lemma Finalise_journal del s : (entries s = [] → StateDB.dirties s = ∅) →
  StateDB.trie (StateDB.Finalise Keccak256 del s) = StateDB.trie s ∧ entries (StateDB.Finalise Keccak256 del s) = [] ∧ StateDB.dirties (StateDB.Finalise Keccak256 del s) = ∅.
Proof.
  intros Hj. unfold StateDB.Finalise, clearJournalAndRefund. cbn [entries with_objects with_revisions]. destruct (entries s) eqn:E; [| done]. cbn. by rewrite E, Hj.
Qed.

Lemma clearJournal_spec c : (sd_entries c = 0 → sd_dirties c = ∅) → 0 <= sd_entries c → clearJournal c = set_journal 0 ∅ c.
Proof.
  intros Hj Hn. unfold clearJournal. destruct (0 <? sd_entries c) eqn:E; [done |]. apply Z.ltb_ge in E. assert (sd_entries c = 0) as E0 by lia.
  destruct c. cbn in *. unfold set_journal. cbn. by rewrite E0, Hj.
Qed.

Lemma Finalise_db del c : sd_db (Finalise Keccak256 range_addresses del c) = sd_db c.
Proof.
  unfold Finalise. generalize (range_addresses (dom (sd_dirties c))) as l. intros l. assert (∀ c, sd_db (clearJournal c) = sd_db c) as -> by (intros x; unfold clearJournal; by destruct (0 <? _)).
  revert c. induction l as [| a l IH]; intros c; [done |]. cbn [foldl]. rewrite IH. unfold finalise_address. by destruct (sd_objects c !! a).
Qed.

Lemma Finalise_rep del c s : state_rep c s → state_rep (Finalise Keccak256 range_addresses del c) (StateDB.Finalise Keccak256 del s).
Proof.
  intros [Hdb Her Hen Hdi Hj Hob Hkn Hmk Hpe (am & Hs & Hnone & Hsome) Hfi Hst Hnz]. unfold Finalise. set (l := range_addresses (dom (sd_dirties c))).
  assert (∀ x, x ∈ l ↔ x ∈ dom (StateDB.dirties s)) as Hl by (intros x; unfold l; by rewrite range_addresses_all, elem_of_elements, Hdi).
  destruct (finalise_loop del l c) as ((F1 & F2 & F3 & F4 & F5) & Fp & Fd & Fo).
  { unfold l. rewrite range_addresses_all. apply NoDup_elements. }
  { intros x Hx. apply Hkn, Hmk. left. rewrite Hdi. by apply Hl. }
  set (c2 := foldl _ c l) in *. clearbody c2. rewrite clearJournal_spec; cycle 1.
  { rewrite F4, F5, Hen, Hdi. unfold len. intros H0. apply Hj. by destruct (entries s). }
  { rewrite F4, Hen. apply len_nonneg. }
  destruct (Finalise_journal del s Hj) as (J1 & J2 & J3). set (s2 := StateDB.Finalise Keccak256 del s) in *. pose proof (Finalise_objects del s) as Fa. fold s2 in Fa. clearbody s2.
  assert (∀ x, x ∉ dom (StateDB.dirties s) → StateDB.getDeletedStateObject x s2 = StateDB.getDeletedStateObject x s) as Hget.
  { intros x Hx. unfold StateDB.getDeletedStateObject. rewrite Fa, J1, bool_decide_eq_false_2 by done. by destruct (stateObjects s !! x). }
  assert (∀ x ox, sd_objects c2 !! x = Some ox → ∃ o, sd_objects c !! x = Some o ∧ ox = (if bool_decide (x ∈ l) then ob_end del o else o)) as Hc2.
  { intros x ox Hx. rewrite Fo in Hx. destruct (sd_objects c !! x) as [o |]; [| done]. injection Hx as <-. by exists o. }
  split; cbn [sd_db sd_trie sd_objects sd_pending sd_dirty sd_dbErr sd_entries sd_dirties set_journal]; rewrite ?F1, ?F2, ?F3, ?J1, ?J2, ?J3, ?Fp, ?Fd; try done.
  - intros x ox Hx. destruct (Hc2 x ox Hx) as (o & Ho & ->). destruct (Hob x o Ho) as (HQ & ao & Hao & Hro). split; [done |]. case_bool_decide as Hxl.
    + apply Hl in Hxl. destruct (Hmk x) as [ao' Hao']; [left; by rewrite Hdi |]. unfold StateDB.getDeletedStateObject in Hao |- *. rewrite Hao' in Hao. injection Hao as ->.
      rewrite Fa, Hao', bool_decide_eq_true_2 by done. eexists. split; [done |]. by apply ob_end_rep.
    + exists ao. rewrite Hget; [done |]. by rewrite <- Hl.
  - intros x. rewrite Fa, Fo, !fmap_is_Some. apply Hkn.
  - intros x [Hx | Hx]; [by rewrite dom_empty_L in Hx |]. rewrite Fa, fmap_is_Some. apply Hmk. apply elem_of_union in Hx as [Hx | Hx]; [left | by right]. apply elem_of_list_to_set, Hl in Hx. by rewrite Hdi.
  - set_solver.
  - exists am. split; [done |]. split.
    + intros x Hx. cbn in Hx |- *. rewrite J1, F1. apply Hnone. rewrite Fo in Hx. by destruct (sd_objects c !! x).
    + intros x ox Hx _ Hnp. cbn in Hx, Hnp. rewrite Fp, elem_of_union, elem_of_list_to_set in Hnp. destruct (Hc2 x ox Hx) as (o & Ho & ->). rewrite bool_decide_eq_false_2 by tauto.
      apply (Hsome x o Ho); [rewrite Hdi, <- Hl |]; tauto.
  - intros x ox Hx _ Hde. destruct (Hc2 x ox Hx) as (o & Ho & ->). case_bool_decide as Hxl; [by apply ob_end_dirty |]. apply (Hfi x o Ho); [by rewrite Hdi, <- Hl | done].
  - intros x ox ax Hx Hax _ Hns Hde. rewrite elem_of_union, elem_of_list_to_set in Hns. destruct (Hc2 x ox Hx) as (o & Ho & ->). rewrite bool_decide_eq_false_2 in Hde |- * by tauto.
    assert (x ∉ dom (StateDB.dirties s)) as Hxd by (rewrite <- Hl; tauto). rewrite Hget in Hax by done. apply (Hst x o ax Ho Hax); [by rewrite Hdi | tauto | done].
Qed.

End States.
