(* ===== verification/StateCommits.v ===== *)
(** The ends of blocks: writing the objects to the tries, committing the tries,
    and opening the state again at the root. *)

From S2P Require Import Prelude Rlp RlpStream RlpStreamFacts StateDB TrieNode Trie TrieTree TrieRep TrieHash TrieCommit TrieContents TrieTheorems TrieDatabase TrieDatabaseFacts TrieRefs TrieShape TrieSecure StateTries StateSlots StateObjects StateTriesFacts.

#[local] Opaque hash0 emptyRoot.

Section Commits.
  Context (Keccak256 : list byte → list byte) (length_Keccak256 : ∀ b, length (Keccak256 b) = HashLength).
  Context (Q : list byte → Prop) (Q_inj : ∀ a b, Q a → Q b → Keccak256 a = Keccak256 b → a = b).
  Context (P : list byte → Prop) (P_free : collision_free Keccak256 P).
  Context (ContractCode : list byte → list byte).
  Context (range_slots : gmap Z Z → list (Z * Z)) (range_slots_all : ∀ m, range_slots m ≡ₚ map_to_list m).
  Context (range_addresses : gset address → list address) (range_addresses_all : ∀ X, range_addresses X ≡ₚ elements X).

#[local] Abbreviation secure_holds := (secure_holds Keccak256 Q).
#[local] Abbreviation db_inv := (db_inv Keccak256 P).
#[local] Abbreviation grown := (grown Keccak256 Q).
#[local] Abbreviation obj_rep := (obj_rep Keccak256 Q P ContractCode).
#[local] Abbreviation account_rep := (account_rep Keccak256 Q ContractCode).
#[local] Abbreviation opens := (opens Keccak256 Q).
#[local] Abbreviation synced := (synced Keccak256).
#[local] Abbreviation same_object := (same_object Keccak256).

#[local] Abbreviation state_rep := (state_rep Keccak256 Q P ContractCode).
#[local] Abbreviation accounts_rep := (accounts_rep Keccak256 Q ContractCode).
#[local] Abbreviation clean := (clean Keccak256).

(** ** The end of a block *)

(** The object of [a] and its account in the trie are written. *)
Lemma rep_flush c s a o o' ao' t' am : state_rep c s → sd_dirties c = ∅ → a ∈ sd_dirty c → sd_objects c !! a = Some o → accounts_rep c s am →
  obj_rep (sd_db c) o' ao' → clean o' → secure_holds (sd_db c) t' (partial_alter (λ _, entry_of o') a am) →
  state_rep (set_sets (sd_pending c ∖ {[ a ]}) (sd_dirty c) (set_objects (<[a := o']> (sd_objects c)) (set_db_trie (sd_db c) t' c))) (put a ao' s).
Proof.
  intros [Hdb Her Hen Hdi Hj Hob Hkn Hmk Hpe _ Hfi Hst Hnz] Hnd Ha Ho [Hnone Hsome] Hro Hcl Hs.
  assert (∀ x ox, <[a := o']> (sd_objects c) !! x = Some ox → x = a ∧ ox = o' ∨ x ≠ a ∧ sd_objects c !! x = Some ox) as Hcase.
  { intros x ox Hx. apply lookup_insert_Some in Hx as [[<- <-] | [Hne Hx]]; [by left | right; auto]. }
  assert (∀ x, x ≠ a → StateDB.getDeletedStateObject x (put a ao' s) = StateDB.getDeletedStateObject x s) as Hget.
  { intros x Hx. unfold StateDB.getDeletedStateObject. cbn. by rewrite lookup_insert_ne. }
  split; cbn [sd_db sd_trie sd_objects sd_pending sd_dirty sd_dbErr sd_entries sd_dirties set_objects set_db_trie set_sets]; try done.
  - intros x ox Hx. destruct (Hcase x ox Hx) as [[-> ->] | [Hne Hx0]]; [| rewrite Hget by done; by apply Hob]. split; [by apply (Hob a o) |]. exists ao'. split; [| done].
    unfold StateDB.getDeletedStateObject. cbn. by rewrite lookup_insert_eq.
  - intros x. cbn. rewrite !lookup_insert_is_Some. intros [? | [? ?]]; [by left | right; auto].
  - intros x Hx. cbn. rewrite lookup_insert_is_Some. destruct (decide (a = x)); [by left | right; auto].
  - set_solver.
  - eexists. split; [exact Hs |]. split.
    + intros x Hx. cbn in Hx |- *. apply lookup_insert_None in Hx as [Hx Hne]. rewrite lookup_partial_alter_ne by done. by apply Hnone.
    + intros x ox Hx _ Hnp. cbn in Hx, Hnp. destruct (Hcase x ox Hx) as [[-> ->] | [Hne Hx0]]; [by rewrite lookup_partial_alter_eq |]. rewrite lookup_partial_alter_ne by done.
      apply (Hsome x ox Hx0); [by rewrite Hnd, dom_empty_L; apply not_elem_of_empty | set_solver].
  - intros x ox Hx Hxd Hde. destruct (Hcase x ox Hx) as [[-> ->] | [Hne Hx0]]; [by apply Hcl | by apply (Hfi x)].
  - intros x ox ax Hx Hax Hxd Hns Hde. destruct (Hcase x ox Hx) as [[-> ->] | [Hne Hx0]]; [done |]. rewrite Hget in Hax by done. by apply (Hst x).
Qed.

Definition flush_stored (o : stateObject) : stateObject := if deleted o then o else flush_object o.

Lemma setError_None c : sd_dbErr c = None → setError None c = c.
Proof. destruct c. cbn. by intros ->. Qed.

Lemma finalised_id ao : dirtyStorage ao = ∅ → obj_finalise ao = ao.
Proof. intros Hd. unfold obj_finalise. destruct ao. cbn in *. subst. by rewrite (left_id_L ∅ (∪)). Qed.

(** [X] is what is left to flush. *)
Lemma flush_address_rep c s X a : state_rep (set_sets X (sd_dirty c) c) s → sd_dirties c = ∅ → a ∈ X →
  ∃ ao c', stateObjects s !! a = Some ao ∧ flush_address Keccak256 range_slots a c = (Ok tt, c') ∧ (sd_dirty c' = sd_dirty c ∧ sd_dirties c' = ∅ ∧ sd_db c' = sd_db c) ∧
    state_rep (set_sets (X ∖ {[ a ]}) (sd_dirty c') c') (put a (flush_stored ao) s).
Proof.
  intros Hr Hnd HaX. assert (a ∈ sd_dirty c) as Ha by (apply (sr_pending _ _ _ _ _ _ Hr); exact HaX). destruct (sr_marked _ _ _ _ _ _ Hr a (or_intror Ha)) as [ao Hao].
  destruct (sr_known _ _ _ _ _ _ Hr a ltac:(by eexists)) as [o Ho]. destruct (sr_object _ _ _ _ _ _ a o Hr Ho) as (ao' & Hao' & Hro & HQ). unfold StateDB.getDeletedStateObject in Hao'. rewrite Hao in Hao'. injection Hao' as <-.
  cbn [sd_objects sd_db set_sets] in *. exists ao. destruct (sr_accounts _ _ _ _ _ _ Hr) as (am & Hs & Hacc). cbn [sd_trie sd_db set_sets] in Hs.
  assert (setError None c = c) as Herr by (apply setError_None; exact (sr_err _ _ _ _ _ _ Hr)).
  unfold flush_address. unfold mbind at 1, st_bind at 1, st_gets at 1. rewrite Ho, (or_deleted _ _ _ _ _ _ _ Hro). unfold flush_stored. destruct (deleted ao) eqn:Ed.
  - destruct (TryDelete_secure Keccak256 length_Keccak256 Q Q_inj (sd_db c) (sd_trie c) am a Hs HQ) as (t' & Hdel & Hs').
    eexists. split; [done |]. split; [unfold deleteStateObject, mbind, st_bind, attempt, on_accounts; rewrite Hdel; cbv beta iota; unfold st_modify; cbn [error_of]; reflexivity |].
    assert (entry_of o = None) as He by (unfold entry_of; by rewrite (or_deleted _ _ _ _ _ _ _ Hro), Ed).
    pose proof (rep_flush (set_sets X (sd_dirty c) c) s a o o ao t' am Hr Hnd Ha Ho Hacc Hro) as Hf. rewrite He in Hf.
    specialize (Hf ltac:(intros Hde; rewrite (or_deleted _ _ _ _ _ _ _ Hro) in Hde; congruence) Hs'). split; [done |].
    cbn [sd_objects sd_db sd_trie sd_pending sd_dirty set_sets] in Hf. rewrite insert_id in Hf by done.
    rewrite setError_None by exact (sr_err _ _ _ _ _ _ Hr). destruct c. exact Hf.
  - destruct (updateRoot_rep Keccak256 length_Keccak256 Q Q_inj P ContractCode range_slots range_slots_all (sd_db c) o ao Hro) as (o' & h & Hup & Hro' & Hsy & Hd & Hdc).
    assert (ob_dirty o = ∅) as Hdo by (apply (sr_finalised _ _ _ _ _ _ Hr a o Ho); [cbn; rewrite Hnd, dom_empty_L; apply not_elem_of_empty | by rewrite (or_deleted _ _ _ _ _ _ _ Hro)]).
    rewrite (or_dirty _ _ _ _ _ _ _ Hro) in Hdo. rewrite finalised_id in Hro' by done.
    unfold mbind at 1, st_bind at 1. rewrite (on_stored_spec _ c a o _ _ o' Ho Hup). set (c1 := set_objects _ _).
    unfold mbind at 1, st_bind at 1. rewrite (on_stored_spec _ c1 a o' (Ok o') (sd_db c1) o'); [| apply lookup_insert_eq | reflexivity].
    assert (set_objects (<[a := o']> (sd_objects c1)) (set_db_trie (sd_db c1) (sd_trie c1) c1) = c1) as ->.
    { unfold c1. cbn. rewrite insert_insert_eq. reflexivity. }
    unfold updateStateObject. rewrite encode_account by apply (or_account _ _ _ _ _ _ _ Hro').
    destruct (TryUpdate_secure Keccak256 length_Keccak256 Q Q_inj (sd_db c) (sd_trie c) am a (account_bytes (ob_data o')) Hs HQ) as (t' & Hupd & Hs').
    eexists. split; [done |]. split; [unfold mbind, st_bind, attempt, on_accounts; cbn [sd_db sd_trie c1 set_objects set_db_trie]; rewrite Hupd; cbv beta iota; unfold st_modify; cbn [error_of]; reflexivity |].
    assert (ob_deleted o' = false) as Hde' by (rewrite (or_deleted _ _ _ _ _ _ _ Hro'); exact Ed).
    assert (entry_of o' = Some (account_bytes (ob_data o'))) as He by (unfold entry_of; by rewrite Hde').
    pose proof (rep_flush (set_sets X (sd_dirty c) c) s a o o' (flush_object ao) t' am Hr Hnd Ha Ho Hacc Hro') as Hf. rewrite He in Hf.
    split; [done |]. rewrite setError_None by exact (sr_err _ _ _ _ _ _ Hr). apply Hf; [| exact Hs'].
    intros _. rewrite (or_pending _ _ _ _ _ _ _ Hro'), (or_dirty _ _ _ _ _ _ _ Hro'). done.
Qed.

(** The objects of the addresses [l] are flushed. *)
Lemma flush_loop l : ∀ c s, NoDup l → state_rep (set_sets (list_to_set l) (sd_dirty c) c) s → sd_dirties c = ∅ →
  ∃ m c', for_each (flush_address Keccak256 range_slots) l c = (Ok tt, c') ∧ (sd_dirty c' = sd_dirty c ∧ sd_dirties c' = ∅ ∧ sd_db c' = sd_db c) ∧ state_rep (set_sets ∅ (sd_dirty c') c') (with_objects m s) ∧
    ∀ x, m !! x = (λ o, if bool_decide (x ∈ l) then flush_stored o else o) <$> stateObjects s !! x.
Proof.
  induction l as [| a l IH]; intros c s Hn Hr Hnd; cbn [for_each].
  { exists (stateObjects s), c. split; [done |]. split; [done |]. split; [by destruct s |]. intros x. by destruct (stateObjects s !! x). }
  apply NoDup_cons in Hn as [Ha Hn]. destruct (flush_address_rep c s _ a Hr Hnd ltac:(set_solver)) as (ao & c1 & Hao & H1 & (Hd1 & Hnd1 & Hdb1) & Hr1).
  unfold mbind, st_bind. rewrite H1. replace (list_to_set (a :: l) ∖ {[a]} : gset address) with (list_to_set l : gset address) in Hr1 by set_solver.
  destruct (IH c1 _ Hn Hr1 Hnd1) as (m & c2 & H2 & (Hd2 & Hnd2 & Hdb2) & Hr2 & Hm). exists m, c2. split; [done |]. split; [split; [congruence | split; congruence] |]. split; [done |].
  intros x. rewrite Hm. cbn [stateObjects put with_objects]. destruct (decide (a = x)) as [<- | Hne].
  - rewrite lookup_insert_eq, Hao. cbn. rewrite bool_decide_eq_false_2, bool_decide_eq_true_2 by (done || left). done.
  - rewrite lookup_insert_ne by done. destruct (stateObjects s !! x); [| done]. cbn. f_equal. rewrite (bool_decide_ext (x ∈ l) (x ∈ a :: l)); [done |]. rewrite elem_of_cons. intuition congruence.
Qed.

(** What the trie of accounts holds when nothing waits to be written. *)
Lemma accounts_small c s am : state_rep c s → sd_dirties c = ∅ → sd_pending c = ∅ → accounts_rep c s am → small_values am.
Proof.
  intros Hr Hnd Hnp [Hnone Hsome] a b Hab. assert (∀ x, account_ok x → len (account_bytes x) < 2 ^ 60) as Hlen by (intros x Hx; pose proof (len_account x Hx); lia).
  destruct (sd_objects c !! a) as [o |] eqn:Ho.
  - destruct (Hsome a o Ho) as [_ Heq]; [by rewrite Hnd, dom_empty_L; apply not_elem_of_empty | by rewrite Hnp; apply not_elem_of_empty |]. rewrite Heq in Hab. unfold entry_of in Hab.
    destruct (ob_deleted o); [done |]. injection Hab as <-. destruct (sr_object _ _ _ _ c s a o Hr Ho) as (ao & _ & Hro & _). apply Hlen, Hro.
  - specialize (Hnone a Ho). destruct (StateDB.trie s !! a); [| congruence]. destruct Hnone as (_ & x & Hx & Hax). rewrite Hx in Hab. injection Hab as <-. apply Hlen, Hax.
Qed.

Lemma IntermediateRoot_rep del c s : state_rep c s →
  ∃ h c', IntermediateRoot Keccak256 range_slots range_addresses del c = (Ok h, c') ∧ state_rep c' (flush_state (StateDB.Finalise Keccak256 del s)) ∧
    (sd_pending c' = ∅ ∧ sd_dirties c' = ∅ ∧ sd_db c' = sd_db c) ∧ trie_hash Keccak256 (sd_trie c') = Ok h.
Proof.
  intros Hr. pose proof (proj2 (proj2 (Finalise_journal Keccak256 del s (sr_journal _ _ _ _ _ _ Hr)))) as Hj. apply (Finalise_rep Keccak256 length_Keccak256 Q Q_inj P P_free ContractCode range_slots range_slots_all range_addresses range_addresses_all del) in Hr. unfold IntermediateRoot. unfold mbind at 1, st_bind at 1, st_modify at 1.
  pose proof (Finalise_db Keccak256 range_addresses del c) as Hdb1. set (c1 := Finalise _ _ _ _) in *. set (s1 := StateDB.Finalise Keccak256 del s) in *. clearbody c1 s1. unfold mbind at 1, st_bind at 1, st_gets at 1. set (l := range_addresses (sd_pending c1)).
  assert (∀ x, x ∈ l ↔ x ∈ sd_pending c1) as Hl by (intros x; unfold l; by rewrite range_addresses_all, elem_of_elements).
  assert (sd_dirties c1 = ∅) as Hnd by (by rewrite (sr_dirties _ _ _ _ _ _ Hr)).
  destruct (flush_loop l c1 s1) as (m & c2 & H2 & (Hd2 & Hnd2 & Hdb2) & Hr2 & Hm); [unfold l; rewrite range_addresses_all; apply NoDup_elements | | done |].
  { replace (list_to_set l : gset address) with (sd_pending c1); [by destruct c1 |]. apply set_eq. intros x. by rewrite elem_of_list_to_set, Hl. }
  unfold mbind at 1, st_bind at 1. rewrite H2. unfold mbind at 1, st_bind at 1, st_modify at 1. set (c3 := set_sets ∅ _ c2) in *.
  assert (with_objects m s1 = flush_state s1) as Heq.
  { unfold flush_state. f_equal. apply map_eq. intros x. rewrite Hm, lookup_fmap. destruct (stateObjects s1 !! x) as [ao |] eqn:Hao; [| done]. cbn. f_equal. case_bool_decide as Hx; [done |]. rewrite Hl in Hx.
    destruct (deleted ao) eqn:Ed; [done |]. destruct (sr_known _ _ _ _ _ _ Hr x ltac:(by eexists)) as [o Ho]. destruct (sr_accounts _ _ _ _ _ _ Hr) as (am & _ & _ & Hsome).
    destruct (sr_object _ _ _ _ _ _ x o Hr Ho) as (ao' & Hao' & Hro & _). unfold StateDB.getDeletedStateObject in Hao'. rewrite Hao in Hao'. injection Hao' as <-.
    destruct (Hsome x o Ho) as [Hcl _]; [by rewrite Hnd, dom_empty_L; apply not_elem_of_empty | done |]. destruct Hcl as (Hp & Hd & _); [by rewrite (or_deleted _ _ _ _ _ _ _ Hro) |].
    rewrite (or_pending _ _ _ _ _ _ _ Hro) in Hp. unfold flush_object. destruct ao. cbn in *. subst. by rewrite (left_id_L ∅ (∪)). }
  rewrite Heq in Hr2. destruct (sr_accounts _ _ _ _ _ _ Hr2) as (am & Hs & Hacc). pose proof (accounts_small c3 _ am Hr2 Hnd2 eq_refl Hacc) as Hv.
  destruct (SecureTrie_Hash_spec Keccak256 length_Keccak256 Q (sd_db c3) (sd_trie c3) am Hs Hv) as (h & t' & Hh & Hs' & Hth & _). unfold on_accounts. rewrite Hh. exists h. eexists. split; [reflexivity |].
  split; [by apply (rep_trie _ _ _ _ c3 _ t' am Hr2 Hs' Hacc) |]. split; [split; [done |]; split; [done |]; cbn; congruence |]. cbn. rewrite <- Hth. by apply (trie_hash_unique Keccak256 length_Keccak256 Q (sd_db c3) (sd_db c3) t' (sd_trie c3) am).
Qed.

(** ** Committing the objects *)

(** The tries of storage can be committed. *)
Definition storage_committable (m : gmap Z Z) : Prop := ∀ sm, slot_map sm m → committable Keccak256 P sm.

Lemma rep_grown c s d : state_rep c s → grown (sd_db c) d → db_inv d → state_rep (set_db_trie d (sd_trie c) c) s.
Proof.
  intros [Hdb Her Hen Hdi Hj Hob Hkn Hmk Hpe (am & Hs & Hnone & Hsome) Hfi Hst Hnz] Hg Hinv. split; cbn [sd_db sd_trie sd_objects sd_pending sd_dirty sd_dbErr sd_entries sd_dirties set_db_trie]; try done.
  - intros x ox Hx. destruct (Hob x ox Hx) as (HQ & ao & Hao & Hro). split; [done |]. exists ao. split; [done |]. by apply (obj_rep_grown _ _ _ _ (sd_db c)).
  - exists am. split; [by apply (secure_grown _ _ (sd_db c)) |]. split; [| exact Hsome]. intros x Hx. specialize (Hnone x Hx). cbn. destruct (StateDB.trie s !! x); [| done].
    destruct Hnone as (HQ & y & Hy & Hay). split; [done |]. exists y. split; [done |]. by apply (account_rep_grown _ _ _ (sd_db c)).
  - intros x ox ax Hx Hax Hnd Hns Hde. destruct (Hst x ox ax Hx Hax Hnd Hns Hde) as [Hop ?]. split; [by apply (opens_grown _ _ (sd_db c)) | done].
Qed.

(** The object of [a] and its storage are in the database. *)
Lemma rep_stored c s a o o' ao : state_rep c s → sd_dirties c = ∅ → sd_pending c = ∅ → sd_objects c !! a = Some o → StateDB.getDeletedStateObject a s = Some ao →
  obj_rep (sd_db c) o' ao → clean o' → entry_of o' = entry_of o → (ob_deleted o' = false → opens (sd_db c) (Root (ob_data o')) (so_trie ao) ∧ ob_dirtyCode o' = false) →
  state_rep (set_sets ∅ (sd_dirty c ∖ {[ a ]}) (set_objects (<[a := o']> (sd_objects c)) c)) s.
Proof.
  intros [Hdb Her Hen Hdi Hj Hob Hkn Hmk Hpe (am & Hs & Hnone & Hsome) Hfi Hst Hnz] Hnd Hnp Ho Hao Hro Hcl Hen' Hop.
  assert (∀ x ox, <[a := o']> (sd_objects c) !! x = Some ox → x = a ∧ ox = o' ∨ x ≠ a ∧ sd_objects c !! x = Some ox) as Hcase.
  { intros x ox Hx. apply lookup_insert_Some in Hx as [[<- <-] | [Hne Hx]]; [by left | right; auto]. }
  split; cbn [sd_db sd_trie sd_objects sd_pending sd_dirty sd_dbErr sd_entries sd_dirties set_objects set_sets]; try done.
  - intros x ox Hx. destruct (Hcase x ox Hx) as [[-> ->] | [Hne Hx0]]; [| by apply Hob]. split; [by apply (Hob a o) | by exists ao].
  - intros x Hx. rewrite lookup_insert_is_Some. destruct (decide (a = x)); [by left | right; auto].
  - intros x Hx. apply Hmk. set_solver.
  - exists am. split; [done |]. split.
    + intros x Hx. cbn in Hx |- *. apply lookup_insert_None in Hx as [Hx _]. by apply Hnone.
    + intros x ox Hx Hxd _. cbn in Hx, Hxd. assert (x ∉ sd_pending c) as Hxp by (rewrite Hnp; apply not_elem_of_empty). destruct (Hcase x ox Hx) as [[-> ->] | [Hne Hx0]]; [| by apply (Hsome x)].
      rewrite Hen'. split; [done |]. by apply (Hsome a o).
  - intros x ox Hx Hxd Hde. destruct (Hcase x ox Hx) as [[-> ->] | [Hne Hx0]]; [by apply Hcl | by apply (Hfi x)].
  - intros x ox ax Hx Hax Hxd Hns Hde. destruct (Hcase x ox Hx) as [[-> ->] | [Hne Hx0]]; [| apply (Hst x ox ax Hx0 Hax Hxd); [set_solver | done]].
    rewrite Hao in Hax. injection Hax as <-. by apply Hop.
Qed.

Lemma write_code_rep c a o ao : sd_objects c !! a = Some o → obj_rep (sd_db c) o ao → db_inv (sd_db c) →
  ∃ d o', write_code a o c = (Ok tt, set_objects (<[a := o']> (sd_objects c)) (set_db_trie d (sd_trie c) c)) ∧ grown (sd_db c) d ∧ db_inv d ∧ obj_rep d o' ao ∧
    ob_data o' = ob_data o ∧ ob_deleted o' = ob_deleted o ∧ ob_dirtyCode o' = false ∧ (clean o → clean o').
Proof.
  intros Ho Hro Hinv. unfold write_code. pose proof (or_code _ _ _ _ _ _ _ Hro) as (H1 & H2 & H3).
  destruct (ob_dirtyCode o) eqn:Hdc; cycle 1.
  { exists (sd_db c), o. rewrite insert_id by done. split; [destruct c; by destruct (ob_code o) | done]. }
  destruct H1 as [H1 | (Hnone & _)]; [| done]. destruct (so_code ao) as [code |] eqn:Ec; [| done]. rewrite H1. destruct (H2 code eq_refl) as (Hk & HP & Hcc).
  destruct (InsertBlob_spec Keccak256 length_Keccak256 Q P P_free (sd_db c) code Hinv HP) as (d & Hi & Hinv' & Hg & Hnode).
  exists d, (set_code (ob_code o) false o). split.
  { apply (on_stored_spec _ c a o (Ok tt) d _ Ho). rewrite (or_codehash _ _ _ _ _ _ _ Hro), <- Hk, BytesToHash_id by apply length_Keccak256. by rewrite Hi. }
  split; [done |]. split; [done |]. apply (obj_rep_grown _ _ _ _ (sd_db c) d o ao Hg) in Hro. split; [| done].
  destruct Hro as [Ha Hn Hb Hc Hp Hdi Hsu Hde He Hw Hl Hor Ht _]. split; try done. split; [left; exact (eq_trans H1 (eq_sym Ec)) |]. split; [rewrite Ec; exact H2 |]. cbn.
  destruct Hcc as [? | Hcc]; [by left | right]. rewrite Hcc, <- Hk. exact Hnode.
Qed.

(** [Y] is what is left to commit. *)
Lemma commit_address_rep c s Y a : state_rep (set_sets ∅ Y c) s → sd_dirties c = ∅ → a ∈ Y → (∀ ao, stateObjects s !! a = Some ao → deleted ao = false → storage_committable (so_trie ao)) →
  ∃ c', commit_address Keccak256 range_slots a c = (Ok tt, c') ∧ (sd_pending c' = sd_pending c ∧ sd_dirties c' = ∅ ∧ grown (sd_db c) (sd_db c')) ∧ state_rep (set_sets ∅ (Y ∖ {[ a ]}) c') s.
Proof.
  intros Hr Hnd HaY Hcom. destruct (sr_marked _ _ _ _ _ _ Hr a (or_intror HaY)) as [ao Hao]. destruct (sr_known _ _ _ _ _ _ Hr a ltac:(by eexists)) as [o Ho].
  destruct (sr_object _ _ _ _ _ _ a o Hr Ho) as (ao' & Hao' & Hro & HQ). pose proof Hao' as Hget. unfold StateDB.getDeletedStateObject in Hget. rewrite Hao in Hget. injection Hget as <-.
  destruct (sr_accounts _ _ _ _ _ _ Hr) as (am & Hs & _ & Hsome). pose proof (or_deleted _ _ _ _ _ _ _ Hro) as Hde. cbn [sd_objects sd_db sd_trie set_sets] in *.
  destruct (Hsome a o Ho) as [Hcl _]; [cbn; rewrite Hnd, dom_empty_L; apply not_elem_of_empty | apply not_elem_of_empty |].
  unfold commit_address. unfold mbind at 1, st_bind at 1, st_gets at 1. rewrite Ho. destruct (ob_deleted o) eqn:Ed.
  - exists c. split; [done |]. split; [done |]. pose proof (rep_stored (set_sets ∅ Y c) s a o o ao Hr Hnd eq_refl Ho Hao' Hro Hcl eq_refl ltac:(congruence)) as Hf.
    cbn [sd_objects sd_dirty set_sets] in Hf. rewrite insert_id in Hf by done. exact Hf.
  - destruct (write_code_rep c a o ao Ho Hro (sr_db _ _ _ _ _ _ Hr)) as (d1 & o1 & Hw & Hg1 & Hinv1 & Hro1 & Hd1 & Hde1 & Hdc1 & Hcl1). apply Hcl1 in Hcl as Hcl'.
    unfold mbind, st_bind. rewrite Hw. set (c1 := set_objects _ _). destruct (Hcl' ltac:(congruence)) as (Hp & Hdi & Hsy). rewrite (or_pending _ _ _ _ _ _ _ Hro1) in Hp. rewrite (or_dirty _ _ _ _ _ _ _ Hro1) in Hdi.
    destruct (CommitTrie_rep Keccak256 length_Keccak256 Q Q_inj P P_free ContractCode range_slots range_slots_all d1 o1 ao Hro1 Hsy Hp Hdi Hinv1 (Hcom ao Hao (eq_sym Hde))) as (d2 & o2 & Hct & Hro2 & Hsy2 & Hd2 & Hdc2 & Hop2 & Hg2 & Hinv2).
    rewrite (on_stored_spec _ c1 a o1 (Ok tt) d2 o2); [| apply lookup_insert_eq | exact Hct]. assert (grown (sd_db c) d2) as Hg by (by transitivity d1). eexists. split; [reflexivity |]. split; [done |].
    pose proof (rep_grown _ s d2 Hr Hg Hinv2) as Hr2.
    pose proof (rep_stored _ s a o o2 ao Hr2 Hnd eq_refl Ho Hao' Hro2) as Hf. cbn [sd_objects sd_dirty sd_trie sd_db set_sets set_db_trie set_objects c1] in Hf |- *. rewrite insert_insert_eq.
    assert (ob_deleted o2 = false) as Hde2 by (rewrite (or_deleted _ _ _ _ _ _ _ Hro2); congruence).
    apply Hf; [intros _; rewrite (or_pending _ _ _ _ _ _ _ Hro2), (or_dirty _ _ _ _ _ _ _ Hro2); done | unfold entry_of; rewrite Hde2, Ed; congruence | intros _; split; [exact Hop2 | congruence]].
Qed.

Lemma commit_loop l : ∀ c s, NoDup l → state_rep (set_sets ∅ (list_to_set l) c) s → sd_dirties c = ∅ →
  (∀ a ao, stateObjects s !! a = Some ao → deleted ao = false → storage_committable (so_trie ao)) →
  ∃ c', for_each (commit_address Keccak256 range_slots) l c = (Ok tt, c') ∧ (sd_pending c' = sd_pending c ∧ sd_dirties c' = ∅ ∧ grown (sd_db c) (sd_db c')) ∧ state_rep (set_sets ∅ ∅ c') s.
Proof.
  induction l as [| a l IH]; intros c s Hn Hr Hnd Hcom; cbn [for_each]; [by exists c |].
  apply NoDup_cons in Hn as [Ha Hn]. destruct (commit_address_rep c s _ a Hr Hnd ltac:(set_solver) (Hcom a)) as (c1 & H1 & (Hp1 & Hnd1 & Hg1) & Hr1).
  unfold mbind, st_bind. rewrite H1. replace (list_to_set (a :: l) ∖ {[a]} : gset address) with (list_to_set l : gset address) in Hr1 by set_solver.
  destruct (IH c1 s Hn Hr1 Hnd1 Hcom) as (c2 & H2 & (Hp2 & Hnd2 & Hg2) & Hr2). exists c2. split; [done |]. split; [split; [congruence |]; split; [done | by transitivity (sd_db c1)] | done].
Qed.

(** ** The accounts in their trie *)

(** The callback of [Commit] only adds references. *)
Lemma reference_account_shape leaf parent d : len leaf < 2 ^ 63 → is_Some (TrieDatabase.dirties d !! parent) → ∃ d', reference_account Keccak256 leaf parent d = (Ok tt, d') ∧ same_shape d d'.
Proof.
  intros Hl Hp. unfold reference_account. destruct (decode_account leaf) as [x | e | m] eqn:E; [| by exists d | by destruct (decode_account_total leaf m Hl)].
  assert (∀ d1 h (b : bool), is_Some (TrieDatabase.dirties d1 !! parent) → ∃ d2, (if b then Reference h parent else mret tt) d1 = (Ok tt, d2) ∧ same_shape d1 d2) as Hone.
  { intros d1 h [] H1; [by apply Reference_shape | by exists d1]. }
  destruct (Hone d (Root x) (bool_decide (Root x ≠ emptyRoot)) Hp) as (d1 & H1 & Hs1). unfold mbind, st_bind. rewrite H1.
  destruct (Hone d1 (BytesToHash (CodeHash x)) (bool_decide (BytesToHash (CodeHash x) ≠ Keccak256 [])) ltac:(by rewrite (shape_held d d1 parent Hs1))) as (d2 & H2 & Hs2).
  exists d2. split; [exact H2 | by transitivity d1].
Qed.

Lemma reference_account_ok : leaf_callback Keccak256 P (Some (reference_account Keccak256)).
Proof.
  intros d0 f leaf parent d Hf Hl (Hok & Hdk & Hpre & Hadr & Hkeep) Hp. injection Hf as <-. destruct (reference_account_shape leaf parent d Hl Hp) as (d' & Hd & Hs). exists (Ok tt), d'. split; [done |].
  split; [done |]. split; [| split; [by apply (shape_held d d') | intros h; by apply reads_shape]]. split; [by apply (database_ok_shape d) |].
  split; [by rewrite (sp_disk d d' Hs) |]. split; [by rewrite (sp_preimages d d' Hs) |]. split.
  - intros h enc Hlen. rewrite (proj2 (reads_shape d d' h Hs)). by apply Hadr.
  - intros h enc Hlen Hn. rewrite (proj2 (reads_shape d d' h Hs)). by apply Hkeep.
Qed.

(** [x] is the account [acc], with the root of its storage. *)
Record stands (x : Account) (acc : account) : Prop := {
  st_ok : account_ok x;
  st_nonce : Nonce x = acc_Nonce acc;
  st_balance : Balance x = acc_Balance acc;
  st_codehash : CodeHash x = acc_CodeHash acc;
  st_root : ∃ d t sm, secure_holds d t sm ∧ slot_map sm (acc_storage acc) ∧ trie_hash Keccak256 t = Ok (Root x);
  st_words : words (acc_storage acc);
}.

(** [am] is what the trie of accounts holds for the accounts. *)
Definition account_map (am : gmap (list byte) (list byte)) (accounts : gmap address account) : Prop :=
  ∀ a, match accounts !! a with Some acc => ∃ x, am !! a = Some (account_bytes x) ∧ stands x acc | None => am !! a = None end.

(** The encodings of the tries of a state are among those without collisions. *)
Definition state_committable (accounts : gmap address account) : Prop :=
  (∀ a acc, accounts !! a = Some acc → storage_committable (acc_storage acc)) ∧ ∀ am, account_map am accounts → committable Keccak256 P am.

Lemma stored_slots m k : default 0 (filter (λ kv, kv.2 ≠ 0) m !! k) = default 0 ((m : gmap Z Z) !! k).
Proof.
  destruct (m !! k) as [v |] eqn:E; [| by rewrite (map_lookup_filter_None_2 _ m k) by (by left)]. destruct (decide (v = 0)) as [-> | Hne].
  - rewrite (map_lookup_filter_None_2 _ m k); [done |]. right. intros v. rewrite E. intros [= <-]. cbn. lia.
  - by rewrite (map_lookup_filter_Some_2 _ m k v).
Qed.

Lemma stored_words (m : gmap Z Z) : words m → words (filter (λ kv, kv.2 ≠ 0) m).
Proof. intros Hw k v Hk. apply map_lookup_filter_Some in Hk as [Hk _]. by apply Hw. Qed.

(** The account of an address with an object. *)
Lemma committed_object c s a ao : state_rep c s → StateDB.getDeletedStateObject a s = Some ao → committed s !! a = if deleted ao then None else Some (stored_account ao).
Proof.
  intros Hr Hao. rewrite committed_lookup. unfold StateDB.getDeletedStateObject in Hao. destruct (stateObjects s !! a) as [o |]; [by injection Hao as -> |].
  destruct (StateDB.trie s !! a) as [acc |] eqn:E; [| done]. injection Hao as <-. cbn [deleted StateDB.newObject]. f_equal. unfold stored_account. cbn.
  rewrite map_filter_id by (intros k v Hk; apply (sr_nonzero _ _ _ _ _ _ Hr a acc E k v Hk)). by destruct acc.
Qed.

Lemma committed_nonzero c s : state_rep c s → ∀ a acc, committed s !! a = Some acc → map_Forall (λ _ v, v ≠ 0) (acc_storage acc).
Proof.
  intros Hr a acc. rewrite committed_lookup. destruct (stateObjects s !! a) as [o |]; [| apply (sr_nonzero _ _ _ _ _ _ Hr)]. destruct (deleted o); [done |]. intros [= <-]. cbn.
  intros k v Hk. by apply map_lookup_filter_Some in Hk as [_ ?].
Qed.

Lemma accounts_map c s am : state_rep c s → sd_dirties c = ∅ → sd_pending c = ∅ → accounts_rep c s am → account_map am (committed s).
Proof.
  intros Hr Hnd Hnp [Hnone Hsome] a. destruct (sd_objects c !! a) as [o |] eqn:Ho.
  - destruct (Hsome a o Ho) as [Hcl ->]; [by rewrite Hnd, dom_empty_L; apply not_elem_of_empty | by rewrite Hnp; apply not_elem_of_empty |].
    destruct (sr_object _ _ _ _ _ _ a o Hr Ho) as (ao & Hao & Hro & _). rewrite (committed_object c s a ao Hr Hao). unfold entry_of. rewrite (or_deleted _ _ _ _ _ _ _ Hro).
    destruct (deleted ao) eqn:Ed; [done |]. destruct Hcl as (_ & _ & Hsy); [by rewrite (or_deleted _ _ _ _ _ _ _ Hro) |]. destruct (synced_root Keccak256 Q P ContractCode _ o ao Hro Hsy) as (t & sm & Hs & Hm & Hh).
    eexists. split; [done |]. destruct Hro as [Ha Hn Hb Hc Hp Hdi Hsu Hde He (W1 & _) Hl Hor Ht Hcode]. split; try done; [| by apply stored_words].
    eexists _, t, sm. split; [exact Hs |]. split; [| exact Hh]. apply (slot_map_ext sm (so_trie ao)); [| exact Hm]. intros k. symmetry. apply stored_slots.
  - rewrite committed_lookup. specialize (Hnone a Ho). destruct (stateObjects s !! a) eqn:E; [destruct (sr_known _ _ _ _ _ _ Hr a) as [? ?]; [by eexists | congruence] |].
    destruct (StateDB.trie s !! a) as [acc |]; [| done]. destruct Hnone as (_ & x & Hx & [Ha Hn Hb Hc (_ & _ & t & sm & _ & Hs & Hm & Hh) Hw _]). exists x. split; [done |]. split; try done. by exists (sd_db c), t, sm.
Qed.

(** The state that is opened at the root. *)
Lemma reopen_rep c s d t am : state_rep c s → sd_dirties c = ∅ → sd_pending c = ∅ → sd_dirty c = ∅ → db_inv d → grown (sd_db c) d → accounts_rep c s am → secure_holds d t am →
  state_rep {| sd_db := d; sd_trie := t; sd_objects := ∅; sd_pending := ∅; sd_dirty := ∅; sd_dbErr := None; sd_entries := 0; sd_dirties := ∅ |} (StateDB.New (committed s)).
Proof.
  intros Hr Hnd Hnp Hnt Hinv Hg [Hnone Hsome] Hs. pose proof (committed_nonzero c s Hr) as Hnz.
  split; cbn [sd_db sd_trie sd_objects sd_pending sd_dirty sd_dbErr sd_entries sd_dirties]; try done.
  - by intros x [? Hx].
  - intros x [Hx | Hx]; [by rewrite dom_empty_L in Hx | done].
  - exists am. split; [done |]. split; [| done]. intros a _. cbn [StateDB.trie StateDB.New sd_db]. destruct (sd_objects c !! a) as [o |] eqn:Ho.
    + destruct (Hsome a o Ho) as [Hcl ->]; [by rewrite Hnd, dom_empty_L; apply not_elem_of_empty | by rewrite Hnp; apply not_elem_of_empty |].
      destruct (sr_object _ _ _ _ _ _ a o Hr Ho) as (ao & Hao & Hro & HQ). rewrite (committed_object c s a ao Hr Hao). unfold entry_of. rewrite (or_deleted _ _ _ _ _ _ _ Hro). destruct (deleted ao) eqn:Ed; [done |].
      split; [done |]. eexists. split; [done |]. destruct (sr_stored _ _ _ _ _ _ Hr a o ao Ho Hao) as [(O1 & O2 & t' & sm & O3 & O4 & O5 & O6) Hdc]; [by rewrite Hnd, dom_empty_L; apply not_elem_of_empty | by rewrite Hnt; apply not_elem_of_empty | by rewrite (or_deleted _ _ _ _ _ _ _ Hro) |].
      apply (account_rep_grown _ _ _ (sd_db c) d _ _ Hg). destruct Hro as [Ha Hn Hb Hc Hp Hdi Hsu Hde He (W1 & _) Hl Hor Ht (_ & _ & Hcode)]. rewrite Hdc in Hcode. split; try done; [| by apply stored_words].
      split; [done |]. split; [done |]. exists t', sm. split; [done |]. split; [done |]. split; [| done]. apply (slot_map_ext sm (so_trie ao)); [| done]. intros k. symmetry. apply stored_slots.
    + rewrite committed_lookup. specialize (Hnone a Ho). destruct (stateObjects s !! a) eqn:E; [destruct (sr_known _ _ _ _ _ _ Hr a) as [? ?]; [by eexists | congruence] |].
      destruct (StateDB.trie s !! a) as [acc |]; [| done]. destruct Hnone as (HQ & x & Hx & Hax). split; [done |]. exists x. split; [done |]. by apply (account_rep_grown _ _ _ (sd_db c)).
Qed.

(** ** [Commit] *)

(** The accounts after a block. *)
Definition block_end (del : bool) (s : StateDB.StateDB) : StateDB.StateDB := flush_state (StateDB.Finalise Keccak256 del s).

Lemma Commit_rep del c s : state_rep c s → state_committable (committed (block_end del s)) →
  ∃ h c', Commit Keccak256 range_slots range_addresses del c = (Ok h, c') ∧ state_rep c' (block_end del s) ∧ grown (sd_db c) (sd_db c') ∧
    ∃ c0, OpenStateDB h (sd_db c') = Ok c0 ∧ state_rep c0 (StateDB.New (committed (block_end del s))) ∧ sd_db c0 = sd_db c'.
Proof.
  intros Hr [Hstore Hacc]. unfold Commit. destruct (IntermediateRoot_rep del c s Hr) as (h0 & c1 & H1 & Hr1 & (Hp1 & Hnd1 & Hdb1) & _). fold (block_end del s) in Hr1. set (s1 := block_end del s) in *. clearbody s1.
  unfold mbind at 1, st_bind at 1. rewrite H1. unfold mbind at 1, st_bind at 1, st_gets at 1. set (l := range_addresses (sd_dirty c1)).
  assert (∀ a ao, stateObjects s1 !! a = Some ao → deleted ao = false → storage_committable (so_trie ao)) as Hcom.
  { intros a ao Hao Hde sm Hm. apply (Hstore a (stored_account ao)); [rewrite committed_lookup, Hao, Hde; done |]. apply (slot_map_ext sm (so_trie ao)); [| exact Hm]. intros k. symmetry. apply stored_slots. }
  destruct (commit_loop l c1 s1) as (c2 & H2 & (Hp2 & Hnd2 & Hg2) & Hr2); [unfold l; rewrite range_addresses_all; apply NoDup_elements | | exact Hnd1 | exact Hcom |].
  { replace (list_to_set l : gset address) with (sd_dirty c1); [rewrite <- Hp1; by destruct c1 |]. apply set_eq. intros x. unfold l. by rewrite elem_of_list_to_set, range_addresses_all, elem_of_elements. }
  unfold mbind at 1, st_bind at 1. rewrite H2. unfold mbind at 1, st_bind at 1, st_modify at 1. assert (sd_pending c2 = ∅) as -> by congruence. set (c3 := set_sets ∅ ∅ c2) in *.
  destruct (sr_accounts _ _ _ _ _ _ Hr2) as (am & Hs & Ham). pose proof (Hacc am (accounts_map c3 s1 am Hr2 Hnd2 eq_refl Ham)) as Hcm.
  destruct (Commit_secure Keccak256 length_Keccak256 Q P P_free (Some (reference_account Keccak256)) (sd_db c3) (sd_trie c3) am reference_account_ok Hs Hcm (sr_db _ _ _ _ _ _ Hr2)) as (h & d & t & Hc & _ & Hs' & Hnew & Hg & Hinv).
  exists h. eexists. split; [unfold on_accounts; rewrite Hc; reflexivity |]. cbn [sd_db set_db_trie]. pose proof (rep_grown c3 s1 d Hr2 Hg Hinv) as Hr3.
  assert (accounts_rep (set_db_trie d (sd_trie c3) c3) s1 am) as Ham'.
  { destruct Ham as [Hnone Hsome]. split; [| exact Hsome]. intros a Ha. specialize (Hnone a Ha). destruct (StateDB.trie s1 !! a); [| done]. destruct Hnone as (HQ & x & Hx & Hax). split; [done |]. exists x. split; [done |].
    by apply (account_rep_grown _ _ _ (sd_db c3) d). }
  split; [exact (rep_trie _ _ _ _ _ s1 t am Hr3 Hs' Ham') |]. split; [rewrite <- Hdb1; by transitivity (sd_db c3) |]. destruct (Hnew 0%nat) as (t0 & Hn0 & Hs0). eexists.
  split; [unfold OpenStateDB, OpenTrie; rewrite Hn0; reflexivity |]. split; [exact (reopen_rep c3 s1 d t0 am Hr2 Hnd2 eq_refl eq_refl Hinv Hg Ham Hs0) | reflexivity].
Qed.

(** A state that can be opened stays so. *)
Lemma OpenStateDB_grown h d d' c s : OpenStateDB h d = Ok c → state_rep c s → grown d d' → db_inv d' → ∃ c', OpenStateDB h d' = Ok c' ∧ state_rep c' s ∧ sd_db c' = d'.
Proof.
  intros Hop Hr Hg Hinv. unfold OpenStateDB, OpenTrie in *. destruct (NewSecure 0 d h) as [t | |] eqn:E; [| done..]. rewrite (NewSecure_grown _ _ _ _ d' _ _ Hg E). injection Hop as <-.
  eexists. split; [reflexivity |]. split; [exact (rep_grown _ s d' Hr Hg Hinv) | reflexivity].
Qed.

End Commits.
