(* ===== verification/StateRefinement.v ===== *)
(** Sequences of operations of the state on its tries answer as the state on
    maps does, and every root that was committed opens the accounts of its
    block.  The root of a state is that of its accounts and of nothing else. *)

From S2P Require Import Prelude Rlp StateDB TrieNode Trie TrieTree TrieRep TrieHash TrieCommit TrieContents TrieTheorems TrieDatabase TrieDatabaseFacts TrieSecure StateTries StateSlots StateObjects StateTriesFacts StateCommits.

(** ** Operations and their answers *)

Inductive state_op :=
  | StExist (a : address)
  | StEmpty (a : address)
  | StHasSuicided (a : address)
  | StGetNonce (a : address)
  | StGetCodeHash (a : address)
  | StGetCode (a : address)
  | StGetState (a : address) (key : Z)
  | StGetCommittedState (a : address) (key : Z)
  | StGetBalance (a : address)
  | StSetState (a : address) (key value : Z)
  | StSetBalance (a : address) (amount : Z)
  | StAddBalance (a : address) (amount : Z)
  | StSubBalance (a : address) (amount : Z)
  | StSetNonce (a : address) (nonce : Z)
  | StSetCode (a : address) (code : list byte)
  | StSuicide (a : address)
  | StCreateAccount (a : address)
  | StFinalise (deleteEmptyObjects : bool)
  | StIntermediateRoot (deleteEmptyObjects : bool)
  | StCommit (deleteEmptyObjects : bool).

Inductive answer := AnsDone | AnsBool (b : bool) | AnsWord (z : Z) | AnsBytes (b : list byte).

Section Operations.
  Context (Keccak256 : list byte → list byte).
  Context (range_slots : gmap Z Z → list (Z * Z)) (range_addresses : gset address → list address).
  Context (ContractCode : list byte → list byte).

Definition answer_with {A} (f : A → answer) (m : st statedb A) : st statedb (answer * list (list byte)) := x ← m; mret (f x, []).

(** The answer, and the roots that are committed. *)
Definition run_state_op (o : state_op) : st statedb (answer * list (list byte)) :=
  match o with
  | StExist a => answer_with AnsBool (Exist Keccak256 a)
  | StEmpty a => answer_with AnsBool (Empty Keccak256 a)
  | StHasSuicided a => answer_with AnsBool (HasSuicided Keccak256 a)
  | StGetNonce a => answer_with AnsWord (GetNonce Keccak256 a)
  | StGetCodeHash a => answer_with AnsBytes (GetCodeHash Keccak256 a)
  | StGetCode a => answer_with AnsBytes (GetCode Keccak256 a)
  | StGetState a key => answer_with AnsWord (GetState Keccak256 a key)
  | StGetCommittedState a key => answer_with AnsWord (GetCommittedState Keccak256 a key)
  | StGetBalance a => answer_with AnsWord (GetBalance Keccak256 a)
  | StSetState a key value => answer_with (λ _, AnsDone) (SetState Keccak256 a key value)
  | StSetBalance a amount => answer_with (λ _, AnsDone) (SetBalance Keccak256 a amount)
  | StAddBalance a amount => answer_with (λ _, AnsDone) (AddBalance Keccak256 a amount)
  | StSubBalance a amount => answer_with (λ _, AnsDone) (SubBalance Keccak256 a amount)
  | StSetNonce a nonce => answer_with (λ _, AnsDone) (SetNonce Keccak256 a nonce)
  | StSetCode a code => answer_with (λ _, AnsDone) (SetCode Keccak256 a code)
  | StSuicide a => answer_with AnsBool (Suicide Keccak256 a)
  | StCreateAccount a => answer_with (λ _, AnsDone) (CreateAccount Keccak256 a)
  | StFinalise del => answer_with (λ _, AnsDone) (st_modify (Finalise Keccak256 range_addresses del))
  | StIntermediateRoot del => answer_with (λ _, AnsDone) (IntermediateRoot Keccak256 range_slots range_addresses del)
  | StCommit del => h ← Commit Keccak256 range_slots range_addresses del; mret (AnsDone, [h])
  end.

Fixpoint run_state_ops (ops : list state_op) : st statedb (list answer * list (list byte)) :=
  match ops with
  | [] => mret ([], [])
  | o :: ops =>
      '(r, hs) ← run_state_op o;
      '(rs, hs') ← run_state_ops ops;
      mret (r :: rs, hs ++ hs')
  end.

(** The same on maps: the answer, the state, and the accounts that are committed. *)
Definition spec_state_op (o : state_op) (s : StateDB.StateDB) : answer * StateDB.StateDB * list (gmap address account) :=
  match o with
  | StExist a => (AnsBool (StateDB.Exist a s), s, [])
  | StEmpty a => (AnsBool (StateDB.Empty Keccak256 a s), s, [])
  | StHasSuicided a => (AnsBool (StateDB.HasSuicided a s), s, [])
  | StGetNonce a => (AnsWord (StateDB.GetNonce a s), s, [])
  | StGetCodeHash a => (AnsBytes (StateDB.GetCodeHash a s), s, [])
  | StGetCode a => (AnsBytes (StateDB.GetCode Keccak256 ContractCode a s), s, [])
  | StGetState a key => (AnsWord (StateDB.GetState a key s), s, [])
  | StGetCommittedState a key => (AnsWord (StateDB.GetCommittedState a key s), s, [])
  | StGetBalance a => (AnsWord (StateDB.GetBalance Keccak256 a s), s, [])
  | StSetState a key value => (AnsDone, StateDB.SetState Keccak256 a key value s, [])
  | StSetBalance a amount => (AnsDone, StateDB.SetBalance Keccak256 a amount s, [])
  | StAddBalance a amount => (AnsDone, StateDB.AddBalance Keccak256 a amount s, [])
  | StSubBalance a amount => (AnsDone, StateDB.SubBalance Keccak256 a amount s, [])
  | StSetNonce a nonce => (AnsDone, StateDB.SetNonce Keccak256 a nonce s, [])
  | StSetCode a code => (AnsDone, StateDB.SetCode Keccak256 ContractCode a code s, [])
  | StSuicide a => (AnsBool (StateDB.Suicide a s).2, (StateDB.Suicide a s).1, [])
  | StCreateAccount a => (AnsDone, StateDB.CreateAccount Keccak256 a s, [])
  | StFinalise del => (AnsDone, StateDB.Finalise Keccak256 del s, [])
  | StIntermediateRoot del => (AnsDone, block_end Keccak256 del s, [])
  | StCommit del => (AnsDone, block_end Keccak256 del s, [committed (block_end Keccak256 del s)])
  end.

Fixpoint spec_state_ops (ops : list state_op) (s : StateDB.StateDB) : list answer * StateDB.StateDB * list (gmap address account) :=
  match ops with
  | [] => ([], s, [])
  | o :: ops =>
      let '(r, s, l) := spec_state_op o s in
      let '(rs, s, l') := spec_state_ops ops s in
      (r :: rs, s, l ++ l')
  end.
End Operations.

Section Refinement.
  Context (Keccak256 : list byte → list byte) (length_Keccak256 : ∀ b, length (Keccak256 b) = HashLength).
  Context (Q : list byte → Prop) (Q_inj : ∀ a b, Q a → Q b → Keccak256 a = Keccak256 b → a = b).
  Context (P : list byte → Prop) (P_free : collision_free Keccak256 P).
  Context (ContractCode : list byte → list byte).
  Context (range_slots : gmap Z Z → list (Z * Z)) (range_slots_all : ∀ m, range_slots m ≡ₚ map_to_list m).
  Context (range_addresses : gset address → list address) (range_addresses_all : ∀ X, range_addresses X ≡ₚ elements X).

#[local] Abbreviation state_rep := (state_rep Keccak256 Q P ContractCode).
#[local] Abbreviation obj_rep := (obj_rep Keccak256 Q P ContractCode).
#[local] Abbreviation grown := (grown Keccak256 Q).
#[local] Abbreviation spec_state_op := (spec_state_op Keccak256 ContractCode).
#[local] Abbreviation spec_state_ops := (spec_state_ops Keccak256 ContractCode).
#[local] Abbreviation balance_key := (GetbvmBalanceKey Keccak256).

(** A slot whose address and key are in use. *)
Definition slot_ok (a : address) (key : Z) : Prop := Q a ∧ word key ∧ Q (be 32 key).

(** Addresses and keys are in use, values fit, codes are those that [ContractCode]
    names, an account is created only where there is none, and what is committed
    is without collisions. *)
Definition state_op_ok (o : state_op) (s : StateDB.StateDB) : Prop :=
  match o with
  | StExist a | StEmpty a | StHasSuicided a | StGetNonce a | StGetCodeHash a | StGetCode a | StSuicide a => Q a
  | StGetState a key | StGetCommittedState a key => slot_ok a key
  | StGetBalance a => slot_ok BvmMantleAddress (balance_key a)
  | StSetState a key value => slot_ok a key ∧ word value ∧ slot_settable a value s
  | StSetBalance a amount => slot_ok BvmMantleAddress (balance_key a) ∧ slot_settable BvmMantleAddress (BigToHash amount) s
  | StAddBalance a amount => slot_ok BvmMantleAddress (balance_key a) ∧ slot_settable BvmMantleAddress (BigToHash (StateDB.GetBalance Keccak256 a s + amount)) s
  | StSubBalance a amount => slot_ok BvmMantleAddress (balance_key a) ∧ slot_settable BvmMantleAddress (BigToHash (StateDB.GetBalance Keccak256 a s - amount)) s
  | StSetNonce a nonce => Q a ∧ 0 <= nonce < 2 ^ 64
  | StSetCode a code => Q a ∧ P code ∧ (Keccak256 code = Keccak256 [] ∨ ContractCode (Keccak256 code) = code)
  | StCreateAccount a => Q a ∧ StateDB.getDeletedStateObject a s = None
  | StFinalise _ | StIntermediateRoot _ => True
  | StCommit del => state_committable Keccak256 Q P (committed (block_end Keccak256 del s))
  end.

Fixpoint state_ops_ok (ops : list state_op) (s : StateDB.StateDB) : Prop :=
  match ops with [] => True | o :: ops => state_op_ok o s ∧ state_ops_ok ops (spec_state_op o s).1.2 end.

(** ** Reading *)

(** Operations that read: the answer is that of the map. *)
Definition reads {A} (m : st statedb A) (s : StateDB.StateDB) (x : A) : Prop := ∀ c, state_rep c s → ∃ c', m c = (Ok x, c') ∧ state_rep c' s ∧ sd_db c' = sd_db c.

Lemma reads_object {A} a (none : A) m (f : stateObject → A) s : Q a → (∀ d o ao, obj_rep d o ao → ∃ o', m (d, o) = (Ok (f ao), (d, o')) ∧ obj_rep d o' ao ∧ same_object Keccak256 o o') →
  reads (read_object Keccak256 a none m) s (from_option f none (StateDB.getStateObject a s)).
Proof. intros HQ Hm c Hr. apply (read_object_rep Keccak256 length_Keccak256 Q Q_inj P ContractCode); done. Qed.

Lemma reads_field {A} a (none : A) (g : object → A) (f : stateObject → A) s : Q a → (∀ d o ao, obj_rep d o ao → g o = f ao) →
  reads (read_object Keccak256 a none (o ← the_object; mret (g o))) s (from_option f none (StateDB.getStateObject a s)).
Proof. intros HQ Hm. apply reads_object; [done |]. intros d o ao Hr. exists o. split; [| done]. unfold mbind, st_bind, the_object, st_gets. cbn [snd]. by rewrite (Hm d o ao Hr). Qed.

Lemma reads_Exist a s : Q a → reads (Exist Keccak256 a) s (StateDB.Exist a s).
Proof.
  intros HQ. replace (StateDB.Exist a s) with (from_option (λ _, true) false (StateDB.getStateObject a s)).
  - apply reads_object; [done |]. intros d o ao Hr. by exists o.
  - unfold StateDB.Exist. symmetry. destruct (StateDB.getStateObject a s); [by apply bool_decide_eq_true_2 | apply bool_decide_eq_false_2; intros H; by apply H].
Qed.

Lemma reads_Empty a s : Q a → reads (Empty Keccak256 a) s (StateDB.Empty Keccak256 a s).
Proof.
  intros HQ. replace (StateDB.Empty Keccak256 a s) with (from_option (obj_empty Keccak256) true (StateDB.getStateObject a s)) by (unfold StateDB.Empty; by destruct (StateDB.getStateObject a s)).
  apply reads_field; [done |]. apply empty_rep.
Qed.

Lemma reads_HasSuicided a s : Q a → reads (HasSuicided Keccak256 a) s (StateDB.HasSuicided a s).
Proof. intros HQ. apply reads_field; [done |]. apply or_suicided. Qed.

Lemma reads_GetNonce a s : Q a → reads (GetNonce Keccak256 a) s (StateDB.GetNonce a s).
Proof. intros HQ. apply (reads_field a 0 (λ o, Nonce (ob_data o))); [done |]. apply or_nonce. Qed.

Lemma reads_GetCodeHash a s : Q a → reads (GetCodeHash Keccak256 a) s (StateDB.GetCodeHash a s).
Proof. intros HQ. apply (reads_field a hash0 (λ o, CodeHash (ob_data o)) so_CodeHash); [done |]. apply or_codehash. Qed.

Lemma reads_GetCode a s : Q a → reads (GetCode Keccak256 a) s (StateDB.GetCode Keccak256 ContractCode a s).
Proof.
  intros HQ. apply reads_object; [done |]. intros d o ao Hr. destruct (Code_rep Keccak256 Q P ContractCode d o ao Hr) as (o' & Hc & Hr' & Hs). exists o'. split; [| done]. unfold mbind, st_bind. by rewrite Hc.
Qed.

Lemma reads_GetState a key s : slot_ok a key → reads (GetState Keccak256 a key) s (StateDB.GetState a key s).
Proof.
  intros (HQ & Hw & Hk). apply (reads_object a 0 (ob_GetState Keccak256 key) (λ o, obj_GetState o key)); [done |]. intros d o ao Hr.
  destruct (GetState_rep Keccak256 length_Keccak256 Q Q_inj P ContractCode d o ao key Hr Hw Hk) as (o' & Hg & Hr' & Hs & _). by exists o'.
Qed.

Lemma reads_GetCommittedState a key s : slot_ok a key → reads (GetCommittedState Keccak256 a key) s (StateDB.GetCommittedState a key s).
Proof.
  intros (HQ & Hw & Hk). apply (reads_object a 0 (ob_GetCommittedState Keccak256 key) (λ o, obj_GetCommittedState o key)); [done |]. intros d o ao Hr.
  destruct (GetCommittedState_rep Keccak256 length_Keccak256 Q Q_inj P ContractCode d o ao key Hr Hw Hk) as (o' & Hg & Hr' & Hs & _). by exists o'.
Qed.

(** ** Sequences *)

(** The root opens the accounts. *)
Definition openable (d : Database) (h : list byte) (accounts : gmap address account) : Prop :=
  ∃ c0, OpenStateDB h d = Ok c0 ∧ state_rep c0 (StateDB.New accounts) ∧ sd_db c0 = d.

(** What an operation does to a state that stands for [s]. *)
Definition refines (m : st statedb (answer * list (list byte))) (c : statedb) (r : answer * StateDB.StateDB * list (gmap address account)) : Prop :=
  ∃ hs c', m c = (Ok (r.1.1, hs), c') ∧ state_rep c' r.1.2 ∧ grown (sd_db c) (sd_db c') ∧ Forall2 (openable (sd_db c')) hs r.2.

Lemma refines_read {A} (f : A → answer) m c s x : reads m s x → state_rep c s → refines (answer_with f m) c (f x, s, []).
Proof.
  intros Hm Hr. destruct (Hm c Hr) as (c' & Hc & Hr' & Hdb). exists [], c'. unfold answer_with, mbind, st_bind. rewrite Hc. cbn [fst snd]. split; [done |]. split; [done |]. by rewrite Hdb.
Qed.

Lemma refines_write {A} (f : A → answer) (m : st statedb A) c s' x : (∃ c', m c = (Ok x, c') ∧ state_rep c' s' ∧ sd_db c' = sd_db c) → refines (answer_with f m) c (f x, s', []).
Proof. intros (c' & Hc & Hr' & Hdb). exists [], c'. unfold answer_with, mbind, st_bind. rewrite Hc. cbn [fst snd]. split; [done |]. split; [done |]. by rewrite Hdb. Qed.

Lemma SetState_refines a key value c s : state_rep c s → slot_ok a key → word value → slot_settable a value s →
  ∃ c', SetState Keccak256 a key value c = (Ok tt, c') ∧ state_rep c' (StateDB.SetState Keccak256 a key value s) ∧ sd_db c' = sd_db c.
Proof. intros Hr (HQ & Hw & Hk) Hv Hs. by apply (SetState_state_rep Keccak256 length_Keccak256 Q Q_inj P P_free ContractCode range_slots range_slots_all range_addresses range_addresses_all). Qed.

Lemma balance_word z : word (BigToHash z).
Proof. apply Z.mod_pos_bound. done. Qed.

(** A balance is read and written. *)
Lemma balance_refines a (f : Z → Z) c s : state_rep c s → slot_ok BvmMantleAddress (balance_key a) →
  let value := BigToHash (f (StateDB.GetBalance Keccak256 a s)) in slot_settable BvmMantleAddress value s →
  ∃ c', (bal ← GetBalance Keccak256 a; SetState Keccak256 BvmMantleAddress (balance_key a) (BigToHash (f bal))) c = (Ok tt, c') ∧
    state_rep c' (StateDB.SetState Keccak256 BvmMantleAddress (balance_key a) value s) ∧ sd_db c' = sd_db c.
Proof.
  intros Hr Hk value Hs. destruct (reads_GetState BvmMantleAddress (balance_key a) s Hk c Hr) as (c1 & H1 & Hr1 & Hdb1). unfold GetBalance. unfold mbind, st_bind. rewrite H1.
  destruct (SetState_refines BvmMantleAddress (balance_key a) value c1 s Hr1 Hk (balance_word _) Hs) as (c2 & H2 & Hr2 & Hdb2). exists c2. split; [exact H2 |]. split; [done | congruence].
Qed.

Lemma run_state_op_refines o c s : state_rep c s → state_op_ok o s → refines (run_state_op Keccak256 range_slots range_addresses o) c (spec_state_op o s).
Proof.
  intros Hr Ho. destruct o; cbn [run_state_op StateRefinement.spec_state_op state_op_ok] in *.
  - apply refines_read; [by apply reads_Exist | done].
  - apply refines_read; [by apply reads_Empty | done].
  - apply refines_read; [by apply reads_HasSuicided | done].
  - apply refines_read; [by apply reads_GetNonce | done].
  - apply refines_read; [by apply reads_GetCodeHash | done].
  - apply refines_read; [by apply reads_GetCode | done].
  - apply refines_read; [by apply reads_GetState | done].
  - apply refines_read; [by apply reads_GetCommittedState | done].
  - apply refines_read; [by apply reads_GetState | done].
  - destruct Ho as (Hk & Hv & Hs). apply refines_write with (x := tt). by apply SetState_refines.
  - destruct Ho as [Hk Hs]. apply refines_write with (x := tt). apply SetState_refines; [done | done | apply balance_word | done].
  - destruct Ho as [Hk Hs]. apply refines_write with (x := tt). by apply (balance_refines a (λ z, z + amount)).
  - destruct Ho as [Hk Hs]. apply refines_write with (x := tt). by apply (balance_refines a (λ z, z - amount)).
  - destruct Ho as [HQ Hn]. apply refines_write with (x := tt). by apply (SetNonce_rep Keccak256 length_Keccak256 Q Q_inj P P_free ContractCode range_slots range_slots_all range_addresses range_addresses_all).
  - destruct Ho as (HQ & HP & Hc). apply refines_write with (x := tt). by apply (SetCode_rep Keccak256 length_Keccak256 Q Q_inj P P_free ContractCode range_slots range_slots_all range_addresses range_addresses_all).
  - apply refines_write. by apply (Suicide_rep Keccak256 length_Keccak256 Q Q_inj P P_free ContractCode range_slots range_slots_all range_addresses range_addresses_all).
  - destruct Ho as [HQ Hn]. apply refines_write with (x := tt). by apply (CreateAccount_rep Keccak256 length_Keccak256 Q Q_inj P P_free ContractCode range_slots range_slots_all range_addresses range_addresses_all).
  - apply refines_write with (x := tt). eexists. split; [done |]. split; [by apply (Finalise_rep Keccak256 length_Keccak256 Q Q_inj P P_free ContractCode range_slots range_slots_all range_addresses) | apply Finalise_db].
  - destruct (IntermediateRoot_rep Keccak256 length_Keccak256 Q Q_inj P P_free ContractCode range_slots range_slots_all range_addresses range_addresses_all deleteEmptyObjects c s Hr) as (h & c' & Hc & Hr' & (_ & _ & Hdb) & _).
    apply refines_write with (x := h). by exists c'.
  - destruct (Commit_rep Keccak256 length_Keccak256 Q Q_inj P P_free ContractCode range_slots range_slots_all range_addresses range_addresses_all deleteEmptyObjects c s Hr Ho) as (h & c' & Hc & Hr' & Hg & Hop).
    exists [h], c'. unfold mbind, st_bind. rewrite Hc. split; [done |]. split; [done |]. split; [done |]. by apply Forall2_cons; split; [| apply Forall2_nil].
Qed.

Lemma run_state_ops_refines ops : ∀ c s, state_rep c s → state_ops_ok ops s → let r := spec_state_ops ops s in
  ∃ hs c', run_state_ops Keccak256 range_slots range_addresses ops c = (Ok (r.1.1, hs), c') ∧ state_rep c' r.1.2 ∧ grown (sd_db c) (sd_db c') ∧ Forall2 (openable (sd_db c')) hs r.2.
Proof.
  induction ops as [| o ops IH]; intros c s Hr Ho; cbn [run_state_ops StateRefinement.spec_state_ops]; [exists [], c; done |]. destruct Ho as [Ho Hos].
  destruct (run_state_op_refines o c s Hr Ho) as (hs1 & c1 & H1 & Hr1 & Hg1 & Hop1). destruct (spec_state_op o s) as [[x s1] l1]. cbn [fst snd] in *.
  destruct (IH c1 s1 Hr1 Hos) as (hs2 & c2 & H2 & Hr2 & Hg2 & Hop2). destruct (spec_state_ops ops s1) as [[xs s2] l2]. cbn [fst snd] in *. exists (hs1 ++ hs2), c2.
  unfold mbind, st_bind. rewrite H1. cbv beta iota. rewrite H2. split; [done |]. split; [done |]. split; [by transitivity (sd_db c1) |]. apply Forall2_app; [| done].
  eapply Forall2_impl; [exact Hop1 |]. intros h accounts (c0 & Hc0 & Hr0 & Hdb0). by apply (OpenStateDB_grown Keccak256 Q P ContractCode h (sd_db c1) (sd_db c2) c0 _ Hc0 Hr0 Hg2), (sr_db _ _ _ _ _ _ Hr2).
Qed.

(** Any operations answer as on the map. *)
Definition answers_as (c : statedb) (s : StateDB.StateDB) : Prop :=
  ∀ ops, state_ops_ok ops s → ∃ roots c', run_state_ops Keccak256 range_slots range_addresses ops c = (Ok ((spec_state_ops ops s).1.1, roots), c').

(** C2: The state on its tries does what the state on maps does: any sequence of reads, writes, balance
    changes, self-destructs, ends of transactions, intermediate roots and commits, with objects,
    caches, storage tries, the trie of accounts and the node database as in the code and maps
    visited in any order, gives the answers of StateDB.v without an error or a panic; and every root
    that a Commit of the sequence returned opens, in the database at the end, a state that answers
    all further operations as the accounts, slots and codes of its block. Keys and encodings in use
    have no colliding hashes, accounts are created where there are none, and a deleted account is
    revived only with a change. *)
Theorem state_on_tries_refines (ops : list state_op) (c : statedb) (s : StateDB.StateDB) : state_rep c s → state_ops_ok ops s →
  ∃ roots c', run_state_ops Keccak256 range_slots range_addresses ops c = (Ok ((spec_state_ops ops s).1.1, roots), c') ∧
    Forall2 (λ root accounts, ∃ c0, OpenStateDB root (sd_db c') = Ok c0 ∧ answers_as c0 (StateDB.New accounts)) roots (spec_state_ops ops s).2.
Proof.
  intros Hr Ho. destruct (run_state_ops_refines ops c s Hr Ho) as (hs & c' & Hrun & _ & _ & Hop). exists hs, c'. split; [done |]. eapply Forall2_impl; [exact Hop |].
  intros h accounts (c0 & Hc0 & Hr0 & _). exists c0. split; [done |]. intros ops' Ho'. destruct (run_state_ops_refines ops' c0 _ Hr0 Ho') as (hs' & c'' & Hrun' & _). by exists hs', c''.
Qed.

(** ** Roots *)

Lemma secure_same_hash d1 d2 t1 t2 m1 m2 : secure_holds Keccak256 Q d1 t1 m1 → secure_holds Keccak256 Q d2 t2 m2 → committable Keccak256 P m1 → committable Keccak256 P m2 →
  trie_hash Keccak256 t1 = trie_hash Keccak256 t2 → m1 = m2.
Proof.
  intros [(hm1 & Hh1 & M1) U1 _ _ _] [(hm2 & Hh2 & M2) U2 _ _ _] [V1 E1] [V2 E2] Heq. destruct (hashed_small Keccak256 length_Keccak256 m1 hm1 M1 V1) as [S1 N1], (hashed_small Keccak256 length_Keccak256 m2 hm2 M2 V2) as [S2 N2].
  pose proof (same_hash Keccak256 length_Keccak256 d1 d2 (trie_root t1) (trie_root t2) hm1 hm2 P Hh1 Hh2 S1 S2 N1 N2 P_free (E1 hm1 M1) (E2 hm2 M2) Heq) as ->.
  assert (∀ m m' hm k v, hashed Keccak256 m hm → hashed Keccak256 m' hm → (∀ k v, m !! k = Some v → Q k) → (∀ k v, m' !! k = Some v → Q k) → m !! k = Some v → m' !! k = Some v) as Hone.
  { intros m m' hm k v M M' U U' Hk. assert (hm !! Keccak256 k = Some v) as Hhk by (apply M; by exists k). apply M' in Hhk as (k' & Hkk & Hk'). by rewrite <- (Q_inj k' k (U' k' v Hk') (U k v Hk) Hkk). }
  apply map_eq. intros k. apply option_eq. intros v. split; [by apply (Hone m1 m2 hm2) | by apply (Hone m2 m1 hm2)].
Qed.

(** The account of the trie determines the account, and it is determined by it. *)
Lemma stands_inj x acc1 acc2 : stands Keccak256 Q x acc1 → stands Keccak256 Q x acc2 → storage_committable Keccak256 P (acc_storage acc1) → storage_committable Keccak256 P (acc_storage acc2) →
  map_Forall (λ _ v, v ≠ 0) (acc_storage acc1) → map_Forall (λ _ v, v ≠ 0) (acc_storage acc2) → acc1 = acc2.
Proof.
  intros [_ N1 B1 C1 (d1 & t1 & sm1 & S1 & M1 & H1) W1] [_ N2 B2 C2 (d2 & t2 & sm2 & S2 & M2 & H2) W2] K1 K2 Z1 Z2.
  assert (sm1 = sm2) as -> by (apply (secure_same_hash d1 d2 t1 t2); [done | done | by apply K1 | by apply K2 | by rewrite H1, H2]).
  pose proof (slot_map_inj sm2 _ _ M1 M2 W1 W2) as Hst. assert (acc_storage acc1 = acc_storage acc2) as Hs.
  { apply map_eq. intros k. specialize (Hst k). destruct (acc_storage acc1 !! k) as [v1 |] eqn:E1, (acc_storage acc2 !! k) as [v2 |] eqn:E2; cbn in Hst; [by rewrite Hst | | | done].
    - by destruct (Z1 k v1 E1). - by destruct (Z2 k v2 E2). }
  destruct acc1, acc2. cbn in *. congruence.
Qed.

Lemma stands_unique x1 x2 acc : stands Keccak256 Q x1 acc → stands Keccak256 Q x2 acc → x1 = x2.
Proof.
  intros [_ N1 B1 C1 (d1 & t1 & sm1 & S1 & M1 & H1) W1] [_ N2 B2 C2 (d2 & t2 & sm2 & S2 & M2 & H2) _]. pose proof (slot_map_unique sm1 sm2 _ M1 M2) as ->.
  assert (Root x1 = Root x2) as Hr.
  { enough (Ok (Root x1) = Ok (Root x2)) as [=] by done. rewrite <- H1, <- H2. apply (trie_hash_unique Keccak256 length_Keccak256 Q d1 d2 t1 t2 sm2); [done.. |]. by apply (slots_small sm2 (acc_storage acc)). }
  destruct x1, x2. cbn in *. congruence.
Qed.

Lemma account_map_unique am1 am2 accounts : account_map Keccak256 Q am1 accounts → account_map Keccak256 Q am2 accounts → am1 = am2.
Proof.
  intros H1 H2. apply map_eq. intros a. specialize (H1 a). specialize (H2 a). destruct (accounts !! a) as [acc |]; [| congruence]. destruct H1 as (x1 & -> & S1), H2 as (x2 & -> & S2).
  by rewrite (stands_unique x1 x2 acc S1 S2).
Qed.

Lemma account_map_inj am A1 A2 : account_map Keccak256 Q am A1 → account_map Keccak256 Q am A2 → state_committable Keccak256 Q P A1 → state_committable Keccak256 Q P A2 →
  (∀ a acc, A1 !! a = Some acc → map_Forall (λ _ v, v ≠ 0) (acc_storage acc)) → (∀ a acc, A2 !! a = Some acc → map_Forall (λ _ v, v ≠ 0) (acc_storage acc)) → A1 = A2.
Proof.
  intros H1 H2 [K1 _] [K2 _] Z1 Z2. apply map_eq. intros a. specialize (H1 a). specialize (H2 a). destruct (A1 !! a) as [acc1 |] eqn:E1, (A2 !! a) as [acc2 |] eqn:E2; [| | | done].
  - destruct H1 as (x1 & Hx1 & S1), H2 as (x2 & Hx2 & S2). rewrite Hx1 in Hx2. injection Hx2 as Hx2. apply account_bytes_inj in Hx2; [| apply S1 | apply S2]. subst x2.
    f_equal. by apply (stands_inj x1); [| | apply (K1 a) | apply (K2 a) | apply (Z1 a) | apply (Z2 a)].
  - destruct H1 as (x1 & Hx1 & _). congruence.
  - destruct H2 as (x2 & Hx2 & _). congruence.
Qed.

(** The root of a state is the hash of a trie with its accounts. *)
Lemma root_accounts del c s : state_rep c s →
  ∃ h d t am, (IntermediateRoot Keccak256 range_slots range_addresses del c).1 = Ok h ∧ secure_holds Keccak256 Q d t am ∧ trie_hash Keccak256 t = Ok h ∧
    account_map Keccak256 Q am (committed (block_end Keccak256 del s)) ∧ (∀ a acc, committed (block_end Keccak256 del s) !! a = Some acc → map_Forall (λ _ v, v ≠ 0) (acc_storage acc)).
Proof.
  intros Hr. destruct (IntermediateRoot_rep Keccak256 length_Keccak256 Q Q_inj P P_free ContractCode range_slots range_slots_all range_addresses range_addresses_all del c s Hr) as (h & c' & Hc & Hr' & (Hp & Hnd & _) & Hh).
  destruct (sr_accounts _ _ _ _ _ _ Hr') as (am & Hs & Ham). exists h, (sd_db c'), (sd_trie c'), am. rewrite Hc. split; [done |]. split; [done |]. split; [done |].
  split; [by apply (accounts_map Keccak256 Q P ContractCode c') | by apply (committed_nonzero Keccak256 Q P ContractCode c')].
Qed.
End Refinement.

(** C14: The state root stands for the accounts and nothing else: two states in any databases, with any
    history, loaded to any extent and with maps visited in any orders, both get an intermediate
    root, and the roots are equal exactly if the accounts with their nonces, balances, code hashes
    and slots are equal, as long as the encodings of their tries have no colliding hashes. *)
Theorem state_root_of_accounts (Keccak256 : list byte → list byte) (length_Keccak256 : ∀ b, length (Keccak256 b) = HashLength)
    (Q : list byte → Prop) (Q_inj : ∀ a b, Q a → Q b → Keccak256 a = Keccak256 b → a = b) (P : list byte → Prop) (P_free : collision_free Keccak256 P)
    (code1 code2 : list byte → list byte) (slots1 slots2 : gmap Z Z → list (Z * Z)) (addresses1 addresses2 : gset address → list address)
    (c1 c2 : statedb) (s1 s2 : StateDB.StateDB) (del1 del2 : bool) :
  (∀ m, slots1 m ≡ₚ map_to_list m) → (∀ m, slots2 m ≡ₚ map_to_list m) → (∀ X, addresses1 X ≡ₚ elements X) → (∀ X, addresses2 X ≡ₚ elements X) →
  state_rep Keccak256 Q P code1 c1 s1 → state_rep Keccak256 Q P code2 c2 s2 →
  state_committable Keccak256 Q P (committed (block_end Keccak256 del1 s1)) → state_committable Keccak256 Q P (committed (block_end Keccak256 del2 s2)) →
  ∃ h1 h2, (IntermediateRoot Keccak256 slots1 addresses1 del1 c1).1 = Ok h1 ∧ (IntermediateRoot Keccak256 slots2 addresses2 del2 c2).1 = Ok h2 ∧
    (h1 = h2 ↔ committed (block_end Keccak256 del1 s1) = committed (block_end Keccak256 del2 s2)).
Proof.
  intros Hs1 Hs2 Ha1 Ha2 Hr1 Hr2 Hc1 Hc2.
  destruct (root_accounts Keccak256 length_Keccak256 Q Q_inj P P_free code1 slots1 Hs1 addresses1 Ha1 del1 c1 s1 Hr1) as (h1 & d1 & t1 & am1 & -> & S1 & H1 & M1 & Z1).
  destruct (root_accounts Keccak256 length_Keccak256 Q Q_inj P P_free code2 slots2 Hs2 addresses2 Ha2 del2 c2 s2 Hr2) as (h2 & d2 & t2 & am2 & -> & S2 & H2 & M2 & Z2).
  exists h1, h2. split; [done |]. split; [done |]. pose proof (proj2 Hc1 am1 M1) as K1. pose proof (proj2 Hc2 am2 M2) as K2. split.
  - intros ->. assert (am1 = am2) as <- by (apply (secure_same_hash Keccak256 length_Keccak256 Q Q_inj P P_free d1 d2 t1 t2); [done.. | by rewrite H1, H2]).
    by apply (account_map_inj Keccak256 length_Keccak256 Q Q_inj P P_free am1).
  - intros Heq. rewrite <- Heq in M2. pose proof (account_map_unique Keccak256 length_Keccak256 Q am1 am2 _ M1 M2) as <-.
    enough (Ok h1 = Ok h2) as [=] by done. rewrite <- H1, <- H2. apply (trie_hash_unique Keccak256 length_Keccak256 Q d1 d2 t1 t2 am1); [done.. | exact (proj1 K1)].
Qed.
