(* ===== verification/StateErrors.v ===== *)
(** Errors of the database in the state on its tries: an error of an object stops
    [Commit], and an error of the state itself does not. *)

From S2P Require Import Prelude Rlp StateDB TrieNode Trie TrieDatabase TrieSecure StateTries.

(** ** Computations that do not look at the error of the state *)

(** The states differ in their error only. *)
Definition same_but_error (c c' : statedb) : Prop :=
  sd_db c' = sd_db c ∧ sd_trie c' = sd_trie c ∧ sd_objects c' = sd_objects c ∧ sd_pending c' = sd_pending c ∧ sd_dirty c' = sd_dirty c ∧
  sd_entries c' = sd_entries c ∧ sd_dirties c' = sd_dirties c.

Definition blind {A} (m : st statedb A) : Prop := ∀ c c', same_but_error c c' → (m c').1 = (m c).1 ∧ same_but_error (m c).2 (m c').2.

Create HintDb errors.

Lemma blind_ret {A} (x : A) : blind (mret x).
Proof. done. Qed.

Lemma blind_panic {A} msg : blind (st_panic (A := A) msg).
Proof. done. Qed.

Lemma blind_bind {A B} (m : st statedb A) (f : A → st statedb B) : blind m → (∀ x, blind (f x)) → blind (m ≫= f).
Proof.
  intros Hm Hf c c' Hs. destruct (Hm c c' Hs) as [H1 H2]. unfold mbind, st_bind. destruct (m c) as [r c1], (m c') as [r' c1']. cbn [fst snd] in *. subst r'.
  destruct r; [by apply Hf | done..].
Qed.

Lemma blind_attempt {A} (m : st statedb A) : blind m → blind (attempt m).
Proof. intros Hm c c' Hs. destruct (Hm c c' Hs) as [H1 H2]. unfold attempt. destruct (m c) as [r c1], (m c') as [r' c1']. cbn [fst snd] in *. subst r'. by destruct r. Qed.

Lemma blind_modify f : (∀ c c', same_but_error c c' → same_but_error (f c) (f c')) → blind (st_modify f).
Proof. intros Hf c c' Hs. split; [done | by apply Hf]. Qed.

Lemma blind_gets {A} (f : statedb → A) : (∀ c c', same_but_error c c' → f c' = f c) → blind (st_gets f).
Proof. intros Hf c c' Hs. split; [cbn; by rewrite (Hf c c' Hs) | done]. Qed.

Lemma blind_accounts {A} (m : st (Database * SecureTrie) A) : blind (on_accounts m).
Proof. intros c c' (H1 & H2 & H3 & H4 & H5 & H6 & H7). unfold on_accounts. rewrite H1, H2. destruct (m _) as [r [d t]]. done. Qed.

Lemma blind_stored {A} a (m : st (Database * object) A) : blind (on_stored a m).
Proof.
  intros c c' Hs. pose proof Hs as (H1 & H2 & H3 & H4 & H5 & H6 & H7). unfold on_stored. rewrite H3, H1. destruct (sd_objects c !! a) as [o |]; [| done]. destruct (m _) as [r [d o']]. cbn [fst snd].
  split; [done |]. unfold same_but_error. cbn. by rewrite ?H2, ?H3.
Qed.

Lemma blind_each f l : (∀ a, blind (f a)) → blind (for_each f l).
Proof. intros Hf. induction l as [| a l IH]; [done |]. cbn [for_each]. by apply blind_bind. Qed.

#[export] Hint Resolve blind_ret blind_panic blind_bind blind_attempt blind_accounts blind_stored blind_each : errors.

Section Errors.
  Context (Keccak256 : list byte → list byte).
  Context (range_slots : gmap Z Z → list (Z * Z)) (range_addresses : gset address → list address).

(** [finalise_address] and [clearJournal] keep the error and do not look at it. *)
Lemma finalise_same del a c c' : same_but_error c c' → same_but_error (finalise_address Keccak256 del a c) (finalise_address Keccak256 del a c').
Proof.
  intros Hs. pose proof Hs as (H1 & H2 & H3 & H4 & H5 & H6 & H7). unfold finalise_address. rewrite H3. destruct (sd_objects c !! a); [| done]. unfold same_but_error. cbn. by rewrite ?H2, ?H3, ?H4, ?H5.
Qed.

Lemma Finalise_same del c c' : same_but_error c c' → same_but_error (Finalise Keccak256 range_addresses del c) (Finalise Keccak256 range_addresses del c').
Proof.
  intros Hs. unfold Finalise. pose proof Hs as (_ & _ & _ & _ & _ & _ & ->). set (l := range_addresses _). clearbody l.
  assert (∀ c c', same_but_error c c' → same_but_error (clearJournal c) (clearJournal c')) as Hclear.
  { intros x x' Hx. pose proof Hx as (H1 & H2 & H3 & H4 & H5 & H6 & H7). unfold clearJournal. rewrite H6. by destruct (0 <? sd_entries x). }
  apply Hclear. clear Hclear. revert c c' Hs. induction l as [| a l IH]; intros c c' Hs; [done |]. cbn [foldl]. apply IH. by apply finalise_same.
Qed.

Lemma blind_setError e : blind (st_modify (setError e)).
Proof. apply blind_modify. by intros c c' Hs. Qed.

Lemma blind_objects a : blind (st_gets (λ c, sd_objects c !! a)).
Proof. apply blind_gets. by intros c c' (_ & _ & -> & _). Qed.

#[local] Hint Resolve blind_setError blind_objects : errors.

Lemma blind_flush a : blind (flush_address Keccak256 range_slots a).
Proof.
  unfold flush_address. apply blind_bind; [apply blind_objects |]. intros [o |]; [| auto with errors]. destruct (ob_deleted o); [unfold deleteStateObject; auto 6 with errors |].
  apply blind_bind; [auto with errors |]. intros _. apply blind_bind; [auto with errors |]. intros o'. unfold updateStateObject. destruct (EncodeToBytes _); auto 6 with errors.
Qed.

Lemma blind_IntermediateRoot del : blind (IntermediateRoot Keccak256 range_slots range_addresses del).
Proof.
  unfold IntermediateRoot. apply blind_bind; [apply blind_modify, Finalise_same |]. intros _. apply blind_bind; [apply blind_gets; by intros c c' (_ & _ & _ & -> & _) |]. intros X.
  apply blind_bind; [apply blind_each, blind_flush |]. intros _. apply blind_bind; [apply blind_modify | intros _; apply blind_accounts].
  by intros c c' (H1 & H2 & H3 & H4 & H5 & H6 & H7).
Qed.

Lemma blind_commit a : blind (commit_address Keccak256 range_slots a).
Proof.
  unfold commit_address. apply blind_bind; [apply blind_objects |]. intros [o |]; [| auto with errors]. destruct (ob_deleted o); [auto with errors |]. apply blind_bind; [| auto with errors].
  unfold write_code. destruct (ob_code o); [| auto with errors]. destruct (ob_dirtyCode o); auto with errors.
Qed.

(** C27: The error of the state database itself does not reach Commit: with any error in StateDB.dbErr,
    such as that of an account that could not be read, Commit returns what it returns without it,
    although the comment on the field says that Commit returns it. *)
Theorem Commit_ignores_dbErr (del : bool) (e : option error) (c : statedb) :
  (Commit Keccak256 range_slots range_addresses del (setError e c)).1 = (Commit Keccak256 range_slots range_addresses del c).1.
Proof.
  assert (blind (Commit Keccak256 range_slots range_addresses del)) as Hb; [| by apply (Hb c)]. unfold Commit. apply blind_bind; [apply blind_IntermediateRoot |]. intros _.
  apply blind_bind; [apply blind_gets; by intros x x' (_ & _ & _ & _ & -> & _) |]. intros X. apply blind_bind; [apply blind_each, blind_commit |]. intros _.
  apply blind_bind; [apply blind_modify | intros _; apply blind_accounts]. by intros x x' (H1 & H2 & H3 & H4 & H5 & H6 & H7).
Qed.

(** ** Errors of objects *)

(** The object has failed with [e] and is not deleted. *)
Definition failed (e : error) (o : object) : Prop := ob_dbErr o = Some e ∧ ob_deleted o = false.

Definition keeps_failure {A} (m : st (Database * object) A) : Prop := ∀ e, st_keeps (λ x, failed e x.2) m.

Lemma failure_ret {A} (x : A) : keeps_failure (mret x).
Proof. intros e. apply st_keeps_ret. Qed.

Lemma failure_bind {A B} (m : st (Database * object) A) (f : A → st (Database * object) B) : keeps_failure m → (∀ x, keeps_failure (f x)) → keeps_failure (m ≫= f).
Proof. intros Hm Hf e. apply st_keeps_bind; [apply Hm | intros x; apply Hf]. Qed.

Lemma failure_object f : (∀ o, ob_dbErr (f o) = ob_dbErr o ∧ ob_deleted (f o) = ob_deleted o) → keeps_failure (on_object f).
Proof. intros Hf e [d o] [He Hd]. destruct (Hf o) as [H1 H2]. split; [exact (eq_trans H1 He) | exact (eq_trans H2 Hd)]. Qed.

Lemma failure_setError e' : keeps_failure (on_object (ob_setError e')).
Proof. intros e [d o] [He Hd]. cbn [snd] in *. split; [cbn; by rewrite He | done]. Qed.

Lemma failure_trie {A} (m : st (Database * SecureTrie) A) : keeps_failure (with_trie m).
Proof. intros e [d o] Hf. unfold with_trie. destruct (ob_trie o) as [t |]; [| done]. by destruct (m (d, t)) as [r [d' t']]. Qed.

Lemma failure_attempt {A} (m : st (Database * object) A) : keeps_failure m → keeps_failure (attempt m).
Proof. intros Hm e x Hx. specialize (Hm e x Hx). unfold attempt. by destruct (m x) as [[] ?]. Qed.

Lemma failure_reads {A} (f : Database * object → A) : keeps_failure (st_gets f).
Proof. by intros e x Hx. Qed.

Lemma failure_lift {A} (r : outcome A) : keeps_failure (st_lift r).
Proof. by intros e x Hx. Qed.

#[local] Hint Resolve failure_ret failure_bind failure_object failure_setError failure_trie failure_attempt failure_reads failure_lift : errors.

Lemma failure_getTrie : keeps_failure getTrie.
Proof.
  unfold getTrie. apply failure_bind; [by intros e x Hx |]. intros [d o]. destruct (ob_trie o); [auto with errors |]. destruct (OpenStorageTrie _ _); [by apply failure_object | | by intros e x Hx].
  apply failure_bind; [by apply failure_object | auto with errors].
Qed.

Lemma failure_updateTrie : keeps_failure (updateTrie Keccak256 range_slots).
Proof.
  unfold updateTrie. apply failure_bind; [by apply failure_object |]. intros _. apply failure_bind; [apply failure_getTrie |]. intros _. apply failure_bind; [apply failure_reads |]. intros o.
  apply failure_bind; [| intros _; by apply failure_object]. generalize (range_slots (ob_pending o)) as l. induction l as [| [key value] l IH]; [apply failure_ret |]. cbn [update_slots].
  apply failure_bind; [| done]. unfold update_slot. apply failure_bind; [apply failure_reads |]. intros o'. destruct (_ =? _); [auto with errors |]. apply failure_bind; [by apply failure_object |]. intros _.
  apply failure_bind; [| auto with errors]. destruct (value =? 0); auto 6 with errors.
Qed.

Lemma failure_updateRoot : keeps_failure (updateRoot Keccak256 range_slots).
Proof.
  unfold updateRoot. apply failure_bind; [apply failure_updateTrie |]. intros _. apply failure_bind; [auto with errors |]. intros h. by apply failure_object.
Qed.

(** A failed object is not committed. *)
Lemma CommitTrie_fails e x : failed e x.2 → (CommitTrie Keccak256 range_slots x).1 ≠ Ok tt.
Proof.
  intros Hf. pose proof (failure_updateTrie e x Hf) as Hu. unfold CommitTrie. unfold mbind at 1, st_bind at 1. destruct (updateTrie _ _ x) as [[[] | |] [d o]]; [| done..].
  unfold mbind, st_bind, the_object, st_gets. cbn [snd] in *. by destruct Hu as [-> _].
Qed.

Lemma failure_CommitTrie : keeps_failure (CommitTrie Keccak256 range_slots).
Proof.
  unfold CommitTrie. apply failure_bind; [apply failure_updateTrie |]. intros _. apply failure_bind; [apply failure_reads |]. intros o. destruct (ob_dbErr o); [by intros e' x Hx |].
  apply failure_bind; [auto with errors |]. intros h. by apply failure_object.
Qed.

(** The state has a failed object that is to be committed. *)
Definition holds_failed (e : error) (a : address) (c : statedb) : Prop := (∃ o, sd_objects c !! a = Some o ∧ failed e o) ∧ a ∈ sd_dirty c.

Definition keeps_failed {A} (m : st statedb A) : Prop := ∀ e a, st_keeps (holds_failed e a) m.

Lemma failed_ret {A} (x : A) : keeps_failed (mret x).
Proof. intros e a. apply st_keeps_ret. Qed.

Lemma failed_bind {A B} (m : st statedb A) (f : A → st statedb B) : keeps_failed m → (∀ x, keeps_failed (f x)) → keeps_failed (m ≫= f).
Proof. intros Hm Hf e a. apply st_keeps_bind; [apply Hm | intros x; apply Hf]. Qed.

Lemma failed_same {A} (m : st statedb A) : (∀ c, sd_objects (m c).2 = sd_objects c ∧ sd_dirty (m c).2 = sd_dirty c) → keeps_failed m.
Proof. intros Hm e a c Hc. unfold holds_failed. destruct (Hm c) as [-> ->]. exact Hc. Qed.

Lemma failed_accounts {A} (m : st (Database * SecureTrie) A) : keeps_failed (on_accounts m).
Proof. apply failed_same. intros c. unfold on_accounts. by destruct (m _) as [r [d t]]. Qed.

Lemma failed_attempt {A} (m : st statedb A) : keeps_failed m → keeps_failed (attempt m).
Proof. intros Hm e a c Hc. specialize (Hm e a c Hc). unfold attempt. by destruct (m c) as [[] ?]. Qed.

Lemma failed_stored {A} a' (m : st (Database * object) A) : keeps_failure m → keeps_failed (on_stored a' m).
Proof.
  intros Hm e a c [(o & Ho & Hf) Hd]. unfold on_stored. destruct (sd_objects c !! a') as [o' |] eqn:E; [| split; [by exists o | done]]. destruct (decide (a' = a)) as [-> | Hne].
  - rewrite Ho in E. injection E as <-. pose proof (Hm e (sd_db c, o) Hf) as Hk. destruct (m _) as [r [d o1]]. split; [| done]. exists o1. split; [apply lookup_insert_eq | done].
  - destruct (m _) as [r [d o1]]. split; [| done]. exists o. split; [| done]. cbn. by rewrite lookup_insert_ne.
Qed.

Lemma failed_setError e' : keeps_failed (st_modify (setError e')).
Proof. by apply failed_same. Qed.

Lemma failed_gets {A} (f : statedb → A) : keeps_failed (st_gets f).
Proof. by apply failed_same. Qed.

Lemma failed_panic {A} msg : keeps_failed (st_panic (A := A) msg).
Proof. by apply failed_same. Qed.

#[local] Hint Resolve failed_ret failed_bind failed_accounts failed_attempt failed_stored failed_setError failed_gets failed_panic failure_updateRoot failure_CommitTrie failure_reads : errors.

Lemma failed_each f l : (∀ a, keeps_failed (f a)) → keeps_failed (for_each f l).
Proof. intros Hf. induction l as [| a l IH]; [apply failed_ret |]. cbn [for_each]. by apply failed_bind. Qed.

Lemma failed_flush a : keeps_failed (flush_address Keccak256 range_slots a).
Proof.
  unfold flush_address. apply failed_bind; [apply failed_gets |]. intros [o |]; [| auto with errors]. destruct (ob_deleted o); [unfold deleteStateObject; auto 6 with errors |].
  apply failed_bind; [auto with errors |]. intros _. apply failed_bind; [apply failed_stored, failure_reads |]. intros o'. unfold updateStateObject. destruct (EncodeToBytes _); auto 6 with errors.
Qed.

Lemma failed_write_code a o : keeps_failed (write_code a o).
Proof.
  unfold write_code. destruct (ob_code o) as [code |]; [| auto with errors]. destruct (ob_dirtyCode o); [| auto with errors]. apply failed_stored. intros e [d x] Hx. by destruct (InsertBlob _ _ _).
Qed.

Lemma failed_commit a : keeps_failed (commit_address Keccak256 range_slots a).
Proof.
  unfold commit_address. apply failed_bind; [apply failed_gets |]. intros [o |]; [| auto with errors]. destruct (ob_deleted o); [auto with errors |]. apply failed_bind; [apply failed_write_code | auto with errors].
Qed.

(** The failed object stops the loop. *)
Lemma commit_address_fails e a c : holds_failed e a c → (commit_address Keccak256 range_slots a c).1 ≠ Ok tt.
Proof.
  intros Hf. pose proof Hf as [(o & Ho & Hfo) _]. unfold commit_address. unfold mbind at 1, st_bind at 1, st_gets at 1. rewrite Ho. destruct Hfo as [Hfe ->].
  pose proof (failed_write_code a o e a c Hf) as Hw.
  unfold mbind at 1, st_bind at 1. destruct (write_code a o c) as [[[] | |] c1]; [| done..]. cbn [snd] in Hw. destruct Hw as [(o1 & Ho1 & Hf1) _]. unfold on_stored. rewrite Ho1.
  pose proof (CommitTrie_fails e (sd_db c1, o1) Hf1) as Hc. by destruct (CommitTrie _ _ _) as [r [d o2]].
Qed.

Lemma commit_loop_fails e a l : a ∈ l → ∀ c, holds_failed e a c → (for_each (commit_address Keccak256 range_slots) l c).1 ≠ Ok tt.
Proof.
  induction l as [| x l IH]; intros Ha c Hc; [by apply not_elem_of_nil in Ha |]. cbn [for_each]. pose proof (failed_commit x e a c Hc) as Hk. pose proof (commit_address_fails e a c Hc) as Hn.
  unfold mbind, st_bind. apply elem_of_cons in Ha as [-> | Ha]; destruct (commit_address Keccak256 range_slots x c) as [[[] | |] c1]; [done | done | done | by apply IH | done..].
Qed.

(** An object that stays at the end of the transaction. *)
Definition stays (e : error) (o : object) : Prop := failed e o ∧ ob_suicided o = false ∧ ob_empty Keccak256 o = false.

Lemma finalise_failed del e a l : ∀ c, (∃ o, sd_objects c !! a = Some o ∧ stays e o) → a ∈ sd_dirty c ∨ a ∈ l → holds_failed e a (foldl (λ c a, finalise_address Keccak256 del a c) c l).
Proof.
  induction l as [| x l IH]; intros c (o & Ho & Hs) Ha; cbn [foldl].
  { destruct Ha as [Ha | Ha%not_elem_of_nil]; [| done]. split; [exists o; split; [done | apply Hs] | done]. }
  assert (a ≠ x ∨ a = x) as [Hne | ->] by (destruct (decide (a = x)); [by right | by left]); apply IH.
  - unfold finalise_address. destruct (sd_objects c !! x); [| by exists o]. cbn. exists o. by rewrite lookup_insert_ne.
  - destruct Ha as [Ha | [? | Ha]%elem_of_cons]; [| done | by right]. left. unfold finalise_address. destruct (sd_objects c !! x); [| done]. cbn. set_solver.
  - unfold finalise_address. rewrite Ho. destruct Hs as ((He & Hd) & Hsu & Hem). rewrite Hsu, Hem, andb_false_r. cbn [orb]. exists (ob_finalise o). split; [apply lookup_insert_eq | by split].
  - left. unfold finalise_address. rewrite Ho. cbn. set_solver.
Qed.

(** C15: A database error of an object is not committed: whatever the tries and the database are, Commit
    does not return a root while an object that is to be written has an error from reading or
    writing its storage, also when the error was set long before. *)
Theorem object_error_aborts (range_addresses_all : ∀ X, range_addresses X ≡ₚ elements X) (del : bool) (c : statedb) (a : address) (o : object) (e : error) :
  sd_objects c !! a = Some o → ob_dbErr o = Some e → ob_deleted o = false → ob_suicided o = false → ob_empty Keccak256 o = false → a ∈ sd_dirty c ∨ a ∈ dom (sd_dirties c) →
  ∀ h, (Commit Keccak256 range_slots range_addresses del c).1 ≠ Ok h.
Proof.
  intros Ho He Hd Hsu Hem Ha h. assert (holds_failed e a (Finalise Keccak256 range_addresses del c)) as H0.
  { assert (∀ x, holds_failed e a x → holds_failed e a (clearJournal x)) as Hclear by (intros x Hx; unfold clearJournal; by destruct (0 <? sd_entries x)). apply Hclear, finalise_failed; [by exists o |].
    destruct Ha as [? | Ha]; [by left | right]. by rewrite range_addresses_all, elem_of_elements. }
  unfold Commit. unfold mbind at 1, st_bind at 1. assert (holds_failed e a (IntermediateRoot Keccak256 range_slots range_addresses del c).2) as H1.
  { unfold IntermediateRoot. unfold mbind at 1, st_bind at 1, st_modify at 1. match goal with |- holds_failed _ _ (?m ?x).2 => enough (keeps_failed m) as Hm by (apply (Hm e a x H0)) end.
    apply failed_bind; [apply failed_gets |]. intros X. apply failed_bind; [apply failed_each, failed_flush |]. intros _. apply failed_bind; [by apply failed_same | intros _; apply failed_accounts]. }
  destruct (IntermediateRoot _ _ _ del c) as [[h0 | |] c1]; [| done..]. cbn [snd] in H1. unfold mbind at 1, st_bind at 1, st_gets at 1.
  assert (a ∈ range_addresses (sd_dirty c1)) as Hin by (rewrite range_addresses_all, elem_of_elements; apply H1). pose proof (commit_loop_fails e a _ Hin c1 H1) as Hc.
  unfold mbind at 1, st_bind at 1. by destruct (for_each _ _ c1) as [[[] | |] c2].
Qed.

End Errors.
