(* ===== verification/StateTriesExamples.v ===== *)
(** A state with one account on tries, on which the theorems about the state on
    its tries are applied. *)

From S2P Require Import Prelude Rlp Transaction StateDB TrieNode Trie TrieContents TrieTheorems TrieDatabase TrieDatabaseFacts TrieSecure TrieExamples StateTries StateSlots StateObjects StateTriesFacts StateCommits StateRefinement StateErrors.

(** ** Tries of one entry *)

Lemma one_hold {D} `{NodeDatabase D} (db : D) k v root : run_ops db [UpdateOp k v] nilNode = (Ok [[]], root) → holds toy_Keccak256 db root {[k := v]}.
Proof.
  destruct (run_op_spec toy_Keccak256 length_toy_Keccak256 db nilNode ∅ (UpdateOp k v) (empty_holds db)) as (r1 & H1 & Hm1). cbn [run_ops]. unfold mbind, st_bind. rewrite H1. by intros [= <-].
Qed.

(** The root of the trie. *)
Definition one_root (k v : list byte) : node := (run_ops tt [UpdateOp (toy_Keccak256 k) v] nilNode).2.

Lemma one_committable (P : list byte → Prop) k v : len v < 2 ^ 60 → run_ops tt [UpdateOp (toy_Keccak256 k) v] nilNode = (Ok [[]], one_root k v) → in_memory (one_root k v) = true →
  (∀ b, b ∈ encodings (one_root k v) → P b) → committable toy_Keccak256 P {[k := v]}.
Proof.
  intros Hv Hrun Hm HP. split.
  - intros k' v' Hk. by apply lookup_singleton_Some in Hk as [_ <-].
  - intros hm Hh. apply (encoded_loaded tt (one_root k v)); [| done | done]. assert (hm = {[toy_Keccak256 k := v]}) as ->; [| by apply one_hold].
    apply map_eq. intros hk. apply option_eq. intros w. rewrite (Hh hk w). split.
    + intros (k' & <- & Hk). apply lookup_singleton_Some in Hk as [<- <-]. by rewrite lookup_singleton_eq.
    + intros Hk. apply lookup_singleton_Some in Hk as [<- <-]. exists k. by rewrite lookup_singleton_eq.
Qed.

(** ** The state *)

Definition user : address := be 20 0x1234.
Definition user_key : Z := GetbvmBalanceKey toy_Keccak256 user.
Definition mantle_code : list byte := [Byte.x60; Byte.x01].
Definition mantle_slots : gmap Z Z := {[user_key := 5]}.
Definition slots_bytes : gmap (list byte) (list byte) := {[be 32 user_key := slot_bytes 5]}.
Definition empty_secure : SecureTrie := {| self := 0; trie_root := nilNode; secKeyCache := ∅; secKeyCacheOwner := None |}.
Definition slots_trie : SecureTrie := (SecureTrie_TryUpdate toy_Keccak256 (be 32 user_key) (slot_bytes 5) (new_database, empty_secure)).2.2.
Definition slots_root : list byte := Eval vm_compute in match trie_hash toy_Keccak256 slots_trie with Ok h => h | _ => [] end.
Definition mantle : account := {| acc_Nonce := 7; acc_Balance := 0; acc_CodeHash := toy_Keccak256 mantle_code; acc_storage := mantle_slots |}.
Definition mantle_account : Account := {| Nonce := 7; Balance := 0; Root := slots_root; CodeHash := toy_Keccak256 mantle_code |}.
Definition mantle_accounts : gmap address account := {[BvmMantleAddress := mantle]}.

Definition mantle_encodings : list (list byte) :=
  Eval vm_compute in encodings (one_root (be 32 user_key) (slot_bytes 5)) ++ encodings (one_root BvmMantleAddress (account_bytes mantle_account)) ++ [mantle_code].

Definition mantle_P (b : list byte) : Prop := b ∈ mantle_encodings.
Definition mantle_Q (k : list byte) : Prop := k = BvmMantleAddress ∨ k = be 32 user_key.

Lemma mantle_free : collision_free toy_Keccak256 mantle_P.
Proof. apply hashes_collision_free. vm_compute. reflexivity. Qed.

Lemma mantle_Q_inj a b : mantle_Q a → mantle_Q b → toy_Keccak256 a = toy_Keccak256 b → a = b.
Proof. intros [-> | ->] [-> | ->]; intros H; vm_compute in H; done. Qed.

Lemma user_slot_ok : slot_ok mantle_Q BvmMantleAddress user_key.
Proof. split; [by left |]. split; [vm_compute; split; [discriminate | reflexivity] | by right]. Qed.

Lemma mantle_slots_bytes : slot_map slots_bytes mantle_slots.
Proof. apply (slot_map_set ∅ ∅ user_key 5 slot_map_empty). apply user_slot_ok. Qed.

Lemma new_secure_holds Q : secure_holds toy_Keccak256 Q new_database empty_secure ∅.
Proof.
  split; [| done | apply map_Forall_empty | | done].
  - exists ∅. split; [apply empty_holds |]. intros hk v. rewrite lookup_empty. split; [done |]. intros (k & _ & Hk). by rewrite lookup_empty in Hk.
  - intros hk k _ Hk. unfold preimage in Hk. cbn in Hk. by rewrite !lookup_empty in Hk.
Qed.

Lemma slots_trie_holds : secure_holds toy_Keccak256 mantle_Q new_database slots_trie slots_bytes.
Proof.
  destruct (TryUpdate_secure toy_Keccak256 length_toy_Keccak256 mantle_Q mantle_Q_inj new_database empty_secure ∅ (be 32 user_key) (slot_bytes 5) (new_secure_holds _) ltac:(by right)) as (t & Ht & Hs).
  unfold slots_trie. by rewrite Ht.
Qed.

Lemma mantle_stands : stands toy_Keccak256 mantle_Q mantle_account mantle.
Proof.
  split; [| reflexivity.. | |].
  - split; [cbn; lia | split; reflexivity || discriminate | reflexivity | apply length_toy_Keccak256].
  - exists new_database, slots_trie, slots_bytes. split; [exact slots_trie_holds |]. split; [exact mantle_slots_bytes |]. vm_compute. reflexivity.
  - apply map_Forall_singleton. split; [apply user_slot_ok | split; reflexivity || discriminate].
Qed.

Lemma mantle_committable : state_committable toy_Keccak256 mantle_Q mantle_P mantle_accounts.
Proof.
  split.
  - intros a acc Ha. unfold mantle_accounts in Ha. apply lookup_singleton_Some in Ha as [_ <-]. intros sm Hm. rewrite (slot_map_unique sm slots_bytes _ Hm mantle_slots_bytes).
    apply one_committable; [vm_compute; reflexivity | vm_compute; reflexivity | vm_compute; reflexivity |]. intros b Hb. unfold mantle_P, mantle_encodings. vm_compute in Hb |- *. set_solver.
  - intros am Ham. assert (am = {[BvmMantleAddress := account_bytes mantle_account]}) as ->.
    { apply (account_map_unique toy_Keccak256 length_toy_Keccak256 mantle_Q am _ mantle_accounts Ham). intros a. unfold mantle_accounts. destruct (decide (BvmMantleAddress = a)) as [<- | Hne].
      - rewrite lookup_singleton_eq. exists mantle_account. split; [by rewrite lookup_singleton_eq | exact mantle_stands].
      - rewrite lookup_singleton_ne by done. by rewrite lookup_singleton_ne. }
    apply one_committable; [vm_compute; reflexivity | vm_compute; reflexivity | vm_compute; reflexivity |]. intros b Hb. unfold mantle_P, mantle_encodings. vm_compute in Hb |- *. set_solver.
Qed.

(** ** A block and its state *)

Definition example_slots (m : gmap Z Z) : list (Z * Z) := map_to_list m.
Definition example_addresses (X : gset address) : list address := elements X.
Definition mantle_code_of (h : list byte) : list byte := mantle_code.

Definition opened : statedb :=
  {| sd_db := new_database; sd_trie := empty_secure; sd_objects := ∅; sd_pending := ∅; sd_dirty := ∅; sd_dbErr := None; sd_entries := 0; sd_dirties := ∅ |}.

Lemma opened_empty : OpenStateDB emptyRoot new_database = Ok opened.
Proof. vm_compute. reflexivity. Qed.

Lemma opened_rep Q P code : state_rep toy_Keccak256 Q P code opened (StateDB.New ∅).
Proof.
  split; try done.
  - apply new_database_inv.
  - by intros a [? ?].
  - intros a [Ha | Ha]; [cbn [sd_dirties opened] in Ha; by rewrite dom_empty_L in Ha | done].
  - exists ∅. split; [apply new_secure_holds | done].
Qed.

Definition mantle_ops : list state_op := [StAddBalance user 5; StSetNonce BvmMantleAddress 7; StSetCode BvmMantleAddress mantle_code].

(** The balance is spent after the block. *)
Definition spending : list state_op := mantle_ops ++ [StCommit true; StSubBalance user 5; StGetBalance user].

Abbreviation example_spec := (spec_state_ops toy_Keccak256 mantle_code_of).
Abbreviation example_ops_ok := (state_ops_ok toy_Keccak256 mantle_Q mantle_P mantle_code_of).

Lemma mantle_block_end : committed (block_end toy_Keccak256 true (example_spec mantle_ops (StateDB.New ∅)).1.2) = mantle_accounts.
Proof. vm_cast_no_check (eq_refl mantle_accounts). Qed.

Definition not_deleted (a : address) (s : StateDB.StateDB) : bool := match StateDB.getDeletedStateObject a s with Some o => negb (deleted o) | None => true end.

Lemma not_deleted_settable a z s : not_deleted a s = true → slot_settable a z s.
Proof. unfold not_deleted, slot_settable. destruct (StateDB.getDeletedStateObject a s) as [o |]; [| done]. by destruct (deleted o). Qed.

Lemma mantle_ops_ok : example_ops_ok mantle_ops (StateDB.New ∅).
Proof.
  split; [split; [exact user_slot_ok | apply not_deleted_settable; vm_cast_no_check (eq_refl true)] |]. split; [split; [by left | done] |]. split; [| done].
  split; [by left |]. split; [vm_compute; set_solver | by right].
Qed.

Lemma spending_ok : example_ops_ok spending (StateDB.New ∅).
Proof.
  destruct mantle_ops_ok as (H1 & H2 & H3 & _). split; [exact H1 |]. split; [exact H2 |]. split; [exact H3 |]. split; [exact (eq_ind_r _ mantle_committable mantle_block_end) |].
  split; [split; [exact user_slot_ok | apply not_deleted_settable; vm_cast_no_check (eq_refl true)] |]. split; [exact user_slot_ok | done].
Qed.

Lemma balance_no_root a c xs hs c' : run_state_ops toy_Keccak256 example_slots example_addresses [StGetBalance a] c = (Ok (xs, hs), c') → hs = [].
Proof.
  cbn [run_state_ops run_state_op]. unfold answer_with, mbind, st_bind. destruct (GetBalance toy_Keccak256 a c) as [[z | e | m] c1]; [| discriminate..]. intros H. injection H as _ H _. symmetry. exact H.
Qed.

Lemma state_on_tries_refines_witness :
  ∃ root c' c0 c1, run_state_ops toy_Keccak256 example_slots example_addresses spending opened = (Ok ([AnsDone; AnsDone; AnsDone; AnsDone; AnsDone; AnsWord 0], [root]), c') ∧
    OpenStateDB root (sd_db c') = Ok c0 ∧ run_state_ops toy_Keccak256 example_slots example_addresses [StGetBalance user] c0 = (Ok ([AnsWord 5], []), c1).
Proof.
  destruct (state_on_tries_refines toy_Keccak256 length_toy_Keccak256 mantle_Q mantle_Q_inj mantle_P mantle_free mantle_code_of example_slots ltac:(done) example_addresses ltac:(done)
    spending opened (StateDB.New ∅) (opened_rep _ _ _) spending_ok) as (roots & c' & Hrun & Hop).
  assert ((example_spec spending (StateDB.New ∅)).1.1 = [AnsDone; AnsDone; AnsDone; AnsDone; AnsDone; AnsWord 0]) as Hans by (vm_cast_no_check (eq_refl [AnsDone; AnsDone; AnsDone; AnsDone; AnsDone; AnsWord 0])).
  assert ((example_spec spending (StateDB.New ∅)).2 = [mantle_accounts]) as Hacc by (vm_cast_no_check (eq_refl [mantle_accounts])). rewrite Hans in Hrun. rewrite Hacc in Hop.
  apply Forall2_cons_inv_r in Hop as (root & rest & (c0 & Hc0 & Hsame) & Hnil & ->). apply Forall2_nil_inv_r in Hnil as ->.
  destruct (Hsame [StGetBalance user]) as (hs & c1 & H1); [split; [exact user_slot_ok | done] |].
  pose proof (balance_no_root _ _ _ _ _ H1) as ->.
  exists root, c', c0, c1. split; [exact Hrun |]. split; [exact Hc0 |]. rewrite H1.
  assert ((example_spec [StGetBalance user] (StateDB.New mantle_accounts)).1.1 = [AnsWord 5]) as -> by (vm_cast_no_check (eq_refl [AnsWord 5])). reflexivity.
Defined.

(** The same accounts by other operations, and other orders of maps. *)
Definition other_ops : list state_op := [StSetCode BvmMantleAddress mantle_code; StSetNonce BvmMantleAddress 7; StAddBalance user 9; StSubBalance user 4].
Definition other_slots (m : gmap Z Z) : list (Z * Z) := reverse (map_to_list m).
Definition other_addresses (X : gset address) : list address := reverse (elements X).

Lemma other_slots_all m : other_slots m ≡ₚ map_to_list m.
Proof. apply reverse_Permutation. Qed.

Lemma other_addresses_all X : other_addresses X ≡ₚ elements X.
Proof. apply reverse_Permutation. Qed.

Lemma other_ops_ok : example_ops_ok other_ops (StateDB.New ∅).
Proof.
  split; [split; [by left |]; split; [vm_compute; set_solver | by right] |]. split; [split; [by left | done] |].
  split; [split; [exact user_slot_ok | apply not_deleted_settable; vm_cast_no_check (eq_refl true)] |]. split; [| exact I].
  split; [exact user_slot_ok | apply not_deleted_settable; vm_cast_no_check (eq_refl true)].
Qed.

Lemma other_block_end : committed (block_end toy_Keccak256 true (example_spec other_ops (StateDB.New ∅)).1.2) = mantle_accounts.
Proof. vm_cast_no_check (eq_refl mantle_accounts). Qed.

Lemma state_root_of_accounts_witness :
  ∃ r1 c1 r2 c2 h, run_state_ops toy_Keccak256 example_slots example_addresses mantle_ops opened = (Ok r1, c1) ∧
    run_state_ops toy_Keccak256 other_slots other_addresses other_ops opened = (Ok r2, c2) ∧
    (IntermediateRoot toy_Keccak256 example_slots example_addresses true c1).1 = Ok h ∧ (IntermediateRoot toy_Keccak256 other_slots other_addresses true c2).1 = Ok h.
Proof.
  destruct (run_state_ops_refines toy_Keccak256 length_toy_Keccak256 mantle_Q mantle_Q_inj mantle_P mantle_free mantle_code_of example_slots ltac:(done) example_addresses ltac:(done)
    mantle_ops opened (StateDB.New ∅) (opened_rep _ _ _) mantle_ops_ok) as (hs1 & c1 & H1 & Hr1 & _).
  destruct (run_state_ops_refines toy_Keccak256 length_toy_Keccak256 mantle_Q mantle_Q_inj mantle_P mantle_free mantle_code_of other_slots other_slots_all other_addresses other_addresses_all
    other_ops opened (StateDB.New ∅) (opened_rep _ _ _) other_ops_ok) as (hs2 & c2 & H2 & Hr2 & _).
  destruct (state_root_of_accounts toy_Keccak256 length_toy_Keccak256 mantle_Q mantle_Q_inj mantle_P mantle_free mantle_code_of mantle_code_of example_slots other_slots example_addresses other_addresses
    c1 c2 _ _ true true ltac:(done) other_slots_all ltac:(done) other_addresses_all Hr1 Hr2) as (h1 & h2 & Hh1 & Hh2 & Heq).
  - exact (eq_ind_r _ mantle_committable mantle_block_end).
  - exact (eq_ind_r _ mantle_committable other_block_end).
  - assert (h1 = h2) as <- by (apply Heq; rewrite mantle_block_end, other_block_end; reflexivity).
    eexists _, c1, _, c2, h1. split; [exact H1 |]. split; [exact H2 |]. split; [exact Hh1 | exact Hh2].
Defined.

(** ** An object whose storage is missing *)

Definition missing_account : Account := {| Nonce := 7; Balance := 0; Root := replicate 32 Byte.x11; CodeHash := toy_Keccak256 [] |}.
Definition missing_state : statedb := journal_append (Some BvmMantleAddress) (set_objects {[BvmMantleAddress := newObject missing_account]} opened).

(** The state after a slot was read. *)
Definition broken_state : statedb := (GetState toy_Keccak256 BvmMantleAddress 1 missing_state).2.
Definition broken_object : object := default (newObject missing_account) (sd_objects broken_state !! BvmMantleAddress).
Definition broken_error : error := default not_found (ob_dbErr broken_object).

Lemma object_error_aborts_witness :
  (GetState toy_Keccak256 BvmMantleAddress 1 missing_state).1 = Ok 0 ∧ ∀ h, (Commit toy_Keccak256 example_slots example_addresses true broken_state).1 ≠ Ok h.
Proof.
  split; [vm_cast_no_check (eq_refl (Ok 0)) |]. apply (object_error_aborts toy_Keccak256 example_slots example_addresses ltac:(done) true broken_state BvmMantleAddress broken_object broken_error).
  - vm_cast_no_check (eq_refl (Some broken_object)).
  - vm_cast_no_check (eq_refl (Some broken_error)).
  - vm_cast_no_check (eq_refl false).
  - vm_cast_no_check (eq_refl false).
  - vm_cast_no_check (eq_refl false).
  - right. apply elem_of_dom. exists 1. vm_cast_no_check (eq_refl (Some 1)).
Defined.
