(* ===== verification/StateDBFacts.v ===== *)
(** Snapshots of the state database of StateDB.v: whatever is done after a
    snapshot, reverting to it gives a state in which every getter answers as
    in a copy that had been put aside when the snapshot was taken. *)

From S2P Require Import Prelude StateDB.

Section Facts.
  Context (Keccak256 : list byte → list byte) (ContractCode : list byte → list byte).

Abbreviation obj_Code := (obj_Code Keccak256 ContractCode).

(** ** Observational equivalence *)

(** Objects that answer every question alike. *)
Record obj_equiv (o o' : stateObject) : Prop := {
  oe_Nonce : so_Nonce o = so_Nonce o';
  oe_Balance : so_Balance o = so_Balance o';
  oe_CodeHash : so_CodeHash o = so_CodeHash o';
  oe_Code : obj_Code o = obj_Code o';
  oe_State : ∀ k, obj_GetState o k = obj_GetState o' k;
  oe_Committed : ∀ k, obj_GetCommittedState o k = obj_GetCommittedState o' k;
  oe_suicided : suicided o = suicided o';
  oe_deleted : deleted o = deleted o';
}.

#[local] Instance obj_equiv_equivalence : Equivalence obj_equiv.
Proof.
  split.
  - by intros o.
  - by intros o o' [].
  - intros o1 o2 o3 [] []. split; intros; etrans; eauto.
Qed.

(** States with equivalent objects that agree on everything else but the
    journal's entries and the revisions. *)
Record state_equiv (s t : StateDB) : Prop := {
  se_objects : ∀ a, option_Forall2 obj_equiv (getDeletedStateObject a s) (getDeletedStateObject a t);
  se_trie : trie s = trie t;
  se_refund : refund s = refund t;
  se_thash : thash s = thash t;
  se_bhash : bhash s = bhash t;
  se_txIndex : txIndex s = txIndex t;
  se_logs : logs s = logs t;
  se_logSize : logSize s = logSize t;
  se_preimages : preimages s = preimages t;
  se_access : access s = access t;
  se_dirties : dirties s = dirties t;
}.

#[export] Instance state_equiv_equivalence : Equivalence state_equiv.
Proof.
  split.
  - intros s. by split.
  - intros s t []. by split.
  - intros s t u [] []. split; try (by etrans). intros a. specialize (se_objects0 a). specialize (se_objects1 a).
    destruct se_objects0; inversion se_objects1; subst; constructor. by etrans.
Qed.

(** The same outcome, with equivalent states. *)
Definition outcome_equiv (x y : outcome StateDB) : Prop :=
  match x, y with
  | Ok s, Ok t => state_equiv s t
  | Err e, Err e' => e = e'
  | Panic m, Panic m' => m = m'
  | _, _ => False
  end.

Infix "≈" := state_equiv (at level 70).

Lemma outcome_equiv_bind x y f g :
  outcome_equiv x y → (∀ s t, s ≈ t → outcome_equiv (f s) (g t)) → outcome_equiv (x ≫= f) (y ≫= g).
Proof. destruct x, y; cbn; naive_solver. Qed.

(** *** Congruence *)

Lemma getStateObject_equiv a s t :
  s ≈ t → option_Forall2 obj_equiv (getStateObject a s) (getStateObject a t).
Proof.
  intros Hst. unfold getStateObject. pose proof (se_objects _ _ Hst a) as H.
  destruct H as [o o' Ho |]; [| constructor]. rewrite (oe_deleted _ _ Ho). destruct (deleted o'); by constructor.
Qed.

Lemma with_objects_equiv m m' s t :
  s ≈ t →
  (∀ a, option_Forall2 obj_equiv (getDeletedStateObject a (with_objects m s)) (getDeletedStateObject a (with_objects m' t))) →
  with_objects m s ≈ with_objects m' t.
Proof. intros [] Ho. by split. Qed.

Lemma getDeleted_put a o b s :
  getDeletedStateObject b (put a o s) = if decide (a = b) then Some o else getDeletedStateObject b s.
Proof.
  unfold getDeletedStateObject, put. cbn. destruct (decide (a = b)) as [-> | Hne].
  - by rewrite lookup_insert_eq.
  - by rewrite lookup_insert_ne.
Qed.

Lemma put_equiv a o o' s t : s ≈ t → obj_equiv o o' → put a o s ≈ put a o' t.
Proof.
  intros Hst Ho. apply with_objects_equiv; [done |]. intros b. fold (put a o s) (put a o' t). rewrite !getDeleted_put.
  destruct (decide (a = b)); [by constructor | apply Hst].
Qed.

Lemma append_equiv e e' s t : s ≈ t → dirtied e = dirtied e' → append e s ≈ append e' t.
Proof.
  intros [] He. split; try done. cbn. unfold mark_dirty. by rewrite He, se_dirties0.
Qed.

Lemma with_journal_equiv es es' d s t : s ≈ t → with_journal es d s ≈ with_journal es' d t.
Proof. intros []. by split. Qed.

Lemma with_revisions_equiv v n s : with_revisions v n s ≈ s.
Proof. by split. Qed.

Lemma setNonce_equiv n o o' : obj_equiv o o' → obj_equiv (setNonce n o) (setNonce n o').
Proof. intros []. by split. Qed.

Lemma setBalance_equiv b o o' : obj_equiv o o' → obj_equiv (setBalance b o) (setBalance b o').
Proof. intros []. by split. Qed.

Lemma set_suicided_equiv b o o' : obj_equiv o o' → obj_equiv (set_suicided b o) (set_suicided b o').
Proof. intros []. by split. Qed.

Lemma setCode_equiv h c o o' : obj_equiv o o' → obj_equiv (setCode h c o) (setCode h c o').
Proof. intros []. by split. Qed.

Lemma GetState_setState k v o k' :
  obj_GetState (setState k v o) k' = if decide (k = k') then v else obj_GetState o k'.
Proof.
  unfold obj_GetState. cbn. destruct (decide (k = k')) as [-> | Hne]; [by rewrite lookup_insert_eq |].
  rewrite lookup_insert_ne by done. done.
Qed.

Lemma setState_equiv k v o o' : obj_equiv o o' → obj_equiv (setState k v o) (setState k v o').
Proof.
  intros []. split; try done. intros k'. rewrite !GetState_setState. by destruct (decide (k = k')).
Qed.

#[local] Hint Resolve put_equiv append_equiv setNonce_equiv setBalance_equiv set_suicided_equiv setCode_equiv
  setState_equiv : core.

(** ** Well-formed states *)

(** Every index of the access list points to a set of slots, none is empty. *)
Record al_wf (al : accessList) : Prop := {
  alw_index : ∀ a idx, al_addresses al !! a = Some idx → idx = -1 ∨ 0 <= idx < len (al_slots al);
  alw_slots : ∀ m, m ∈ al_slots al → m ≠ ∅;
}.

Record wf (s : StateDB) : Prop := {
  wf_dirties : ∀ a n, dirties s !! a = Some n → 1 <= n;
  wf_access : al_wf (access s);
  wf_logs : ∀ h, logs s !! h ≠ Some [];
}.

Lemma New_wf tr : wf (New tr).
Proof. split; [done | split; [done |] | done]. intros m Hm. by apply not_elem_of_nil in Hm. Qed.

Lemma wf_equiv s t : s ≈ t → wf t → wf s.
Proof. intros [] []. split; by rewrite ?se_dirties0, ?se_access0, ?se_logs0. Qed.

Lemma unmark_mark (e : journalEntry) (d : gmap address Z) :
  (∀ a n, d !! a = Some n → 1 <= n) → unmark_dirty e (mark_dirty e d) = d.
Proof.
  intros Hd. unfold unmark_dirty, mark_dirty. destruct (dirtied e) as [a |]; [| done].
  rewrite lookup_insert_eq. cbn. destruct (d !! a) as [n |] eqn:Ea; cbn.
  - specialize (Hd _ _ Ea). rewrite (proj2 (Z.eqb_neq _ _)) by lia. rewrite insert_insert_eq.
    replace (n + 1 - 1) with n by lia. by rewrite insert_id.
  - by rewrite delete_insert_id.
Qed.

Lemma mark_dirty_wf (e : journalEntry) (d : gmap address Z) :
  (∀ a n, d !! a = Some n → 1 <= n) → ∀ a n, mark_dirty e d !! a = Some n → 1 <= n.
Proof.
  intros Hd a n. unfold mark_dirty. destruct (dirtied e) as [b |]; [| by apply Hd].
  destruct (decide (b = a)) as [-> | Hne]; [| rewrite lookup_insert_ne by done; by apply Hd].
  rewrite lookup_insert_eq. intros [= <-]. destruct (d !! a) as [k |] eqn:Ea; cbn; [| lia].
  specialize (Hd _ _ Ea). lia.
Qed.

(** ** Undoing *)

Lemma on_object_equiv a f s t :
  s ≈ t → (∀ o o', obj_equiv o o' → obj_equiv (f o) (f o')) → outcome_equiv (on_object a f s) (on_object a f t).
Proof.
  intros Hst Hf. unfold on_object. pose proof (getStateObject_equiv a _ _ Hst) as H.
  destruct H as [o o' Ho |]; [| done]. apply put_equiv; auto.
Qed.

Lemma revert_entry_equiv e s t : s ≈ t → outcome_equiv (revert_entry e s) (revert_entry e t).
Proof.
  intros Hst. destruct e; cbn [StateDB.revert_entry]; try (apply on_object_equiv; by auto).
  - apply with_objects_equiv; [done |]. intros b. unfold getDeletedStateObject. cbn.
    destruct (decide (a = b)) as [-> | Hne].
    + rewrite !lookup_delete_eq, (se_trie _ _ Hst). by destruct (trie t !! b); constructor.
    + rewrite !lookup_delete_ne by done. apply (se_objects _ _ Hst).
  - by apply put_equiv.
  - pose proof (getStateObject_equiv a _ _ Hst) as H. destruct H as [o o' Ho |]; [apply put_equiv; by auto | done].
  - destruct Hst. by split.
  - rewrite (se_logs _ _ Hst), (se_logSize _ _ Hst).
    destruct (default [] (logs t !! txhash)) as [| ? [|]]; [done | |]; destruct Hst; by split.
  - destruct Hst. split; try done. cbn. by rewrite se_preimages0.
  - done.
  - destruct Hst. split; try done. cbn. by rewrite se_access0.
  - rewrite (se_access _ _ Hst). destruct (al_DeleteSlot a slot (access t)); [| done..]. destruct Hst. by split.
Qed.

Lemma undo_equiv es s t : s ≈ t → outcome_equiv (undo es s) (undo es t).
Proof.
  revert s t. induction es as [| e es IH]; intros s t Hst; [done |]. cbn [undo].
  apply outcome_equiv_bind; [by apply revert_entry_equiv |]. intros s1 t1 Hst1. apply IH.
  rewrite (se_dirties _ _ Hst1). by apply with_journal_equiv.
Qed.

Lemma undo_app es es' s : undo (es ++ es') s = undo es s ≫= undo es'.
Proof.
  revert s. induction es as [| e es IH]; intros s; [done |]. cbn [app undo].
  destruct (revert_entry e s); cbn; [apply IH | done..].
Qed.

(** [s'] comes from [s] by changes that the new entries undo. *)
Record journaled (s s' : StateDB) : Prop := {
  jo_entries : ∃ js, entries s' = entries s ++ js ∧ outcome_equiv (undo (reverse js) s') (Ok s);
  jo_wf : wf s';
  jo_revisions : validRevisions s' = validRevisions s;
  jo_next : nextRevisionId s' = nextRevisionId s;
}.

Lemma outcome_equiv_trans x y z : outcome_equiv x y → outcome_equiv y z → outcome_equiv x z.
Proof.
  destruct x, y, z; cbn; intros H1 H2; try done; [by etrans | congruence..].
Qed.

Lemma outcome_equiv_Ok x s : outcome_equiv x (Ok s) → ∃ t, x = Ok t ∧ t ≈ s.
Proof. destruct x; [| done..]. intros. by eexists. Qed.

Lemma journaled_refl s : wf s → journaled s s.
Proof. intros Hw. split; try done. exists []. split; [by rewrite app_nil_r | done]. Qed.

Lemma journaled_trans s s1 s2 : journaled s s1 → journaled s1 s2 → journaled s s2.
Proof.
  intros [(js1 & He1 & Hu1) _ Hr1 Hn1] [(js2 & He2 & Hu2) Hw Hr2 Hn2]. split; [| done | congruence | congruence].
  exists (js1 ++ js2). split; [by rewrite He2, He1, <- app_assoc |].
  rewrite reverse_app, undo_app. apply outcome_equiv_Ok in Hu2 as (t & -> & Ht). cbn.
  eapply outcome_equiv_trans; [by apply undo_equiv | done].
Qed.

(** One entry. *)
Lemma journaled_one e s s' :
  wf s → entries s' = entries s ++ [e] → dirties s' = mark_dirty e (dirties s) →
  al_wf (access s') → (∀ h, logs s' !! h ≠ Some []) → validRevisions s' = validRevisions s → nextRevisionId s' = nextRevisionId s →
  outcome_equiv (revert_entry e s') (Ok (append e s)) → journaled s s'.
Proof.
  intros Hw He Hd Ha Hl Hv Hn Hr. split; [| | done | done].
  - exists [e]. split; [done |]. cbn. apply outcome_equiv_Ok in Hr as (t & -> & Ht). cbn.
    rewrite (se_dirties _ _ Ht). cbn. rewrite unmark_mark by apply Hw. destruct Ht. by split.
  - split; [| done | done]. rewrite Hd. apply mark_dirty_wf, Hw.
Qed.

(** ** Every operation is journaled *)

Lemma getDeleted_of a o s : getStateObject a s = Some o → getDeletedStateObject a s = Some o ∧ deleted o = false.
Proof.
  unfold getStateObject. destruct (getDeletedStateObject a s) as [o' |]; [| done].
  destruct (deleted o') eqn:E; [done |]. by intros [= <-].
Qed.

Lemma getStateObject_put a o s : deleted o = false → getStateObject a (put a o s) = Some o.
Proof. intros Hd. unfold getStateObject. rewrite getDeleted_put, decide_True by done. by rewrite Hd. Qed.

Lemma put_put a o o' s : put a o (put a o' s) = put a o s.
Proof. unfold put. cbn. by rewrite insert_insert_eq. Qed.

Lemma put_same a o o' s : getDeletedStateObject a s = Some o' → obj_equiv o o' → put a o s ≈ s.
Proof.
  intros Hg Ho. split; try done. intros b. rewrite getDeleted_put. destruct (decide (a = b)) as [-> | Hne].
  - rewrite Hg. by constructor.
  - by destruct (getDeletedStateObject b s); constructor.
Qed.

Lemma journaled_modify a o o' f e s :
  wf s → getStateObject a s = Some o → (∀ u, revert_entry e u = on_object a f u) →
  deleted o' = false → obj_equiv (f o') o → journaled s (put a o' (append e s)).
Proof.
  intros Hw Hg Hr Hd Ho. apply getDeleted_of in Hg as [Hg _].
  apply (journaled_one e); try done; [apply Hw | apply Hw |].
  rewrite Hr. unfold on_object. rewrite getStateObject_put by done. cbn. rewrite put_put. by eapply put_same.
Qed.

(** The entry of [createObject]. *)
Definition create_entry (a : address) (s : StateDB) : journalEntry :=
  match getDeletedStateObject a s with None => createObjectChange a | Some p => resetObjectChange a p end.

Lemma journaled_create a o s : wf s → journaled s (put a o (append (create_entry a s) s)).
Proof.
  intros Hw. apply (journaled_one (create_entry a s)); try done; [apply Hw | apply Hw |].
  unfold create_entry. destruct (getDeletedStateObject a s) as [p |] eqn:Eg; cbn.
  - rewrite put_put. by eapply put_same.
  - split; try done. intros b. unfold getDeletedStateObject in *. cbn. rewrite delete_insert_eq.
    destruct (decide (a = b)) as [-> | Hne]; [| rewrite lookup_delete_ne by done].
    + rewrite lookup_delete_eq. destruct (stateObjects s !! b); [done |]. rewrite Eg. constructor.
    + destruct (stateObjects s !! b) as [o' |]; [by constructor |]. by destruct (trie s !! b); constructor.
Qed.

Abbreviation createObject := (createObject Keccak256).
Abbreviation GetOrNewStateObject := (GetOrNewStateObject Keccak256).

Lemma GetOrNewStateObject_spec a s :
  wf s → ∃ o s1, GetOrNewStateObject a s = (o, s1) ∧ journaled s s1 ∧ getStateObject a s1 = Some o ∧ wf s1.
Proof.
  intros Hw. unfold StateDB.GetOrNewStateObject. destruct (getStateObject a s) as [o |] eqn:Eg.
  - exists o, s. split; [done |]. split; [by apply journaled_refl | done].
  - cbn. eexists _, _. split; [done |]. fold (create_entry a s).
    pose proof (journaled_create a (setNonce 0 (StateDB.newObject (empty_account Keccak256))) s Hw) as Hj.
    split; [exact Hj |]. split; [by apply getStateObject_put | apply Hj].
Qed.

Lemma SetNonce_journaled a n s : wf s → journaled s (SetNonce Keccak256 a n s).
Proof.
  intros Hw. unfold SetNonce. destruct (GetOrNewStateObject_spec a s Hw) as (o & s1 & -> & Hj & Hg & Hw1).
  eapply journaled_trans; [exact Hj |]. apply (journaled_modify _ o _ (setNonce (so_Nonce o))); try done.
  by destruct (getDeleted_of _ _ _ Hg).
Qed.

Lemma SetCode_journaled a c s : wf s → journaled s (SetCode Keccak256 ContractCode a c s).
Proof.
  intros Hw. unfold SetCode. destruct (GetOrNewStateObject_spec a s Hw) as (o & s1 & -> & Hj & Hg & Hw1).
  eapply journaled_trans; [exact Hj |].
  apply (journaled_modify _ o _ (setCode (so_CodeHash o) (obj_Code o))); try done.
  - by destruct (getDeleted_of _ _ _ Hg).
  - split; try done. unfold StateDB.obj_Code. cbn. destruct (so_code o); [done |]. by case_bool_decide.
Qed.

Lemma SetState_journaled a k v s : wf s → journaled s (SetState Keccak256 a k v s).
Proof.
  intros Hw. unfold SetState. destruct (GetOrNewStateObject_spec a s Hw) as (o & s1 & -> & Hj & Hg & Hw1).
  destruct (_ =? v); [done |]. eapply journaled_trans; [exact Hj |].
  apply (journaled_modify _ o _ (setState k (obj_GetState o k))); try done.
  - by destruct (getDeleted_of _ _ _ Hg).
  - split; try done. intros k'. rewrite !GetState_setState. by destruct (decide (k = k')) as [-> |].
Qed.

Lemma CreateAccount_journaled a s : wf s → journaled s (CreateAccount Keccak256 a s).
Proof.
  intros Hw. unfold CreateAccount. cbn. fold (create_entry a s).
  destruct (getDeletedStateObject a s); rewrite ?put_put; by apply journaled_create.
Qed.

Lemma Suicide_journaled a s : wf s → journaled s (Suicide a s).1.
Proof.
  intros Hw. unfold Suicide. destruct (getStateObject a s) as [o |] eqn:Eg; [| by apply journaled_refl].
  destruct (getDeleted_of _ _ _ Eg) as [Eg' Ed].
  apply (journaled_one (suicideChange a (suicided o) (so_Balance o))); try done; [apply Hw | apply Hw |].
  cbn [StateDB.revert_entry fst]. rewrite getStateObject_put by done. cbn. rewrite put_put. by eapply put_same.
Qed.

Lemma AddRefund_journaled g s : wf s → journaled s (AddRefund g s).
Proof. intros Hw. apply (journaled_one (refundChange (refund s))); try done; apply Hw. Qed.

Lemma SubRefund_journaled g s s' : wf s → SubRefund g s = Ok s' → journaled s s'.
Proof.
  intros Hw. unfold SubRefund. destruct (refund s <? g); [done |]. intros [= <-].
  apply (journaled_one (refundChange (refund s))); try done; apply Hw.
Qed.

Lemma AddLog_journaled a ts d s : wf s → journaled s (AddLog a ts d s).
Proof.
  intros Hw. apply (journaled_one (addLogChange (thash s))); try done; [apply Hw | |].
  - intros h. cbn. destruct (decide (thash s = h)) as [<- |]; [| rewrite lookup_insert_ne by done; apply Hw].
    rewrite lookup_insert_eq. intros [= E]. by destruct (default [] _).
  - cbn [StateDB.revert_entry]. unfold AddLog. cbn [logs with_logs logSize]. rewrite lookup_insert_eq.
    cbn [default from_option id]. destruct (logs s !! thash s) as [l |] eqn:El; cbn [default from_option id app].
    + destruct l as [| x l]; [by destruct (wf_logs _ Hw (thash s)) |]. cbn [app].
      destruct (l ++ _) eqn:E; [by destruct l |]. rewrite <- E.
      set (new := {| l_Address := a |}). clearbody new.
      assert (Ht : take (length (x :: l ++ [new]) - 1) (x :: l ++ [new]) = x :: l).
      { cbn [length]. rewrite length_app. cbn [length]. replace (S (length l + 1) - 1)%nat with (length (x :: l)) by (cbn; lia).
        change (x :: l ++ [new]) with ((x :: l) ++ [new]). apply take_app_length. }
      split; try done; cbn [logs with_logs logSize append with_journal]; [| lia].
      by rewrite Ht, insert_insert_eq, insert_id.
    + split; try done; cbn [logs with_logs logSize append with_journal]; [| lia]. by rewrite delete_insert_id.
Qed.

Lemma AddPreimage_journaled h p s : wf s → journaled s (AddPreimage h p s).
Proof.
  intros Hw. unfold AddPreimage. destruct (preimages s !! h) eqn:E; [by apply journaled_refl |].
  apply (journaled_one (addPreimageChange h)); try done; [apply Hw | apply Hw |].
  cbn. split; try done. cbn. by rewrite delete_insert_id.
Qed.

Lemma AddAddress_wf a al : al_wf al → al_wf (al_AddAddress a al).1.
Proof.
  intros [Hi Hs]. unfold al_AddAddress. destruct (al_addresses al !! a) eqn:E; [done |]. split; [| done].
  intros b idx. cbn. destruct (decide (a = b)) as [<- |].
  - rewrite lookup_insert_eq. intros [= <-]. by left.
  - rewrite lookup_insert_ne by done. apply Hi.
Qed.

Lemma AddAddress_journaled a s : wf s → journaled s (AddAddressToAccessList a s).
Proof.
  intros Hw. pose proof (AddAddress_wf a _ (wf_access _ Hw)) as Ha. unfold AddAddressToAccessList, al_AddAddress in *.
  destruct (al_addresses (access s) !! a) eqn:E.
  - assert (with_access (access s) s = s) as -> by (by destruct s). by apply journaled_refl.
  - apply (journaled_one (accessListAddAccountChange a)); try done; [apply Hw |].
    cbn. split; try done. unfold al_DeleteAddress. cbn. rewrite delete_insert_id by done. by destruct (access s).
Qed.

(** The first slot of an address. *)
Lemma first_slot_journaled a slot s :
  wf s → al_addresses (access s) !! a = Some (-1) →
  journaled s (append (accessListAddSlotChange a slot)
    (with_access {| al_addresses := <[a := len (al_slots (access s))]> (al_addresses (access s));
                    al_slots := al_slots (access s) ++ [{[ slot ]}] |} s)).
Proof.
  intros Hw Ha. pose proof (len_nonneg (al_slots (access s))).
  apply (journaled_one (accessListAddSlotChange a slot)); try done; [| apply Hw |].
  - destruct (wf_access _ Hw) as [Hi Hs]. split; cbn.
    + intros b idx. rewrite len_app. change (len [_]) with 1. destruct (decide (a = b)) as [<- |].
      * rewrite lookup_insert_eq. intros [= <-]. right. lia.
      * rewrite lookup_insert_ne by done. intros Hb. destruct (Hi _ _ Hb); [by left | right; lia].
    + intros m [Hm | ->%list_elem_of_singleton]%elem_of_app; [by apply Hs |]. apply non_empty_singleton_L.
  - cbn [StateDB.revert_entry access append with_journal with_access al_addresses al_slots]. unfold al_DeleteSlot.
    cbn [al_addresses al_slots]. rewrite lookup_insert_eq. destruct (Z.ltb_spec (len (al_slots (access s))) 0); [lia |].
    assert ((al_slots (access s) ++ [{[slot]}]) !! Z.to_nat (len (al_slots (access s))) = Some {[slot]}) as ->.
    { unfold len. by rewrite Nat2Z.id, lookup_app_r, Nat.sub_diag. }
    rewrite bool_decide_eq_true_2 by apply difference_diag_L. cbn. split; try done. cbn.
    unfold len. rewrite Nat2Z.id, insert_insert_eq, insert_id, take_app_length by done. by destruct (access s).
Qed.

Lemma next_slot_journaled a slot idx m s :
  wf s → al_addresses (access s) !! a = Some idx → 0 <= idx → al_slots (access s) !! Z.to_nat idx = Some m → slot ∉ m →
  journaled s (append (accessListAddSlotChange a slot)
    (with_access {| al_addresses := al_addresses (access s);
                    al_slots := <[Z.to_nat idx := {[ slot ]} ∪ m]> (al_slots (access s)) |} s)).
Proof.
  intros Hw Ha H0 Hm Hni. destruct (wf_access _ Hw) as [Hi Hs].
  assert (Hlt : (Z.to_nat idx < length (al_slots (access s)))%nat) by (by eapply lookup_lt_Some).
  apply (journaled_one (accessListAddSlotChange a slot)); try done; [| apply Hw |].
  - split; cbn.
    + intros b j Hb. unfold len. rewrite length_insert. by apply (Hi b).
    + intros m' Hm'. apply list_elem_of_lookup in Hm' as [j Hj]. destruct (decide (Z.to_nat idx = j)) as [<- |].
      * rewrite list_lookup_insert_eq in Hj by done. injection Hj as <-. set_solver.
      * rewrite list_lookup_insert_ne in Hj by done. apply Hs. by eapply list_elem_of_lookup_2.
  - cbn [StateDB.revert_entry access append with_journal with_access al_addresses al_slots]. unfold al_DeleteSlot.
    cbn [al_addresses al_slots]. rewrite Ha. destruct (Z.ltb_spec idx 0); [lia |].
    rewrite list_lookup_insert_eq by done.
    assert (({[slot]} ∪ m) ∖ {[slot]} = m) as -> by set_solver.
    rewrite bool_decide_eq_false_2 by (apply Hs; by eapply list_elem_of_lookup_2).
    cbn. split; try done. cbn. rewrite list_insert_insert_eq, list_insert_id by done. by destruct (access s).
Qed.

Lemma AddSlot_journaled a slot s :
  wf s → ∃ s', AddSlotToAccessList a slot s = Ok s' ∧ journaled s s'.
Proof.
  intros Hw. destruct (wf_access _ Hw) as [Hi Hs]. unfold AddSlotToAccessList, al_AddSlot.
  destruct (al_addresses (access s) !! a) as [idx |] eqn:Ea.
  - destruct (Z.eqb_spec idx (-1)) as [-> | Hne].
    + eexists. split; [done |]. by apply first_slot_journaled.
    + destruct (Hi _ _ Ea) as [| Hidx]; [done |].
      destruct (lookup_lt_is_Some_2 (al_slots (access s)) (Z.to_nat idx)) as [m Hm]; [unfold len in Hidx; lia |].
      rewrite Hm. case_bool_decide as Hin; (eexists; split; [done |]).
      * assert (with_access (access s) s = s) as -> by (by destruct s). by apply journaled_refl.
      * apply next_slot_journaled; (done || lia).
  - eexists. split; [done |]. cbn.
    pose proof (AddAddress_journaled a s Hw) as Hj. unfold AddAddressToAccessList, al_AddAddress in Hj. rewrite Ea in Hj.
    eapply journaled_trans; [exact Hj |].
    pose proof (first_slot_journaled a slot _ (jo_wf _ _ Hj)) as Hf. cbn in Hf. rewrite lookup_insert_eq in Hf.
    rewrite insert_insert_eq in Hf. exact (Hf eq_refl).
Qed.

(** ** Operations *)

Inductive op :=
  | OSetNonce (a : address) (nonce : Z)
  | OSetCode (a : address) (code : list byte)
  | OSetState (a : address) (key value : Z)
  | OSetBalance (a : address) (amount : Z)
  | OAddBalance (a : address) (amount : Z)
  | OSubBalance (a : address) (amount : Z)
  | OCreateAccount (a : address)
  | OSuicide (a : address)
  | OAddRefund (gas : Z)
  | OSubRefund (gas : Z)
  | OAddLog (a : address) (topics : list Z) (d : list byte)
  | OAddPreimage (hash : Z) (preimage : list byte)
  | OAddAddress (a : address)
  | OAddSlot (a : address) (slot : Z).

Definition exec (o : op) (s : StateDB) : outcome StateDB :=
  match o with
  | OSetNonce a n => Ok (SetNonce Keccak256 a n s)
  | OSetCode a c => Ok (SetCode Keccak256 ContractCode a c s)
  | OSetState a k v => Ok (SetState Keccak256 a k v s)
  | OSetBalance a x => Ok (SetBalance Keccak256 a x s)
  | OAddBalance a x => Ok (AddBalance Keccak256 a x s)
  | OSubBalance a x => Ok (SubBalance Keccak256 a x s)
  | OCreateAccount a => Ok (CreateAccount Keccak256 a s)
  | OSuicide a => Ok (Suicide a s).1
  | OAddRefund g => Ok (AddRefund g s)
  | OSubRefund g => SubRefund g s
  | OAddLog a ts d => Ok (AddLog a ts d s)
  | OAddPreimage h p => Ok (AddPreimage h p s)
  | OAddAddress a => Ok (AddAddressToAccessList a s)
  | OAddSlot a k => AddSlotToAccessList a k s
  end.

Lemma exec_journaled o s s' : wf s → exec o s = Ok s' → journaled s s'.
Proof.
  intros Hw. destruct o; cbn [exec]; intros E; try (injection E as <-).
  - by apply SetNonce_journaled.
  - by apply SetCode_journaled.
  - by apply SetState_journaled.
  - by apply SetState_journaled.
  - by apply SetState_journaled.
  - by apply SetState_journaled.
  - by apply CreateAccount_journaled.
  - by apply Suicide_journaled.
  - by apply AddRefund_journaled.
  - by eapply SubRefund_journaled.
  - by apply AddLog_journaled.
  - by apply AddPreimage_journaled.
  - by apply AddAddress_journaled.
  - destruct (AddSlot_journaled a slot s Hw) as (s1 & E1 & Hj). congruence.
Qed.

(** *** They respect the equivalence *)

Lemma GetOrNewStateObject_equiv a s t :
  s ≈ t → obj_equiv (GetOrNewStateObject a s).1 (GetOrNewStateObject a t).1 ∧
          (GetOrNewStateObject a s).2 ≈ (GetOrNewStateObject a t).2.
Proof.
  intros Hst. unfold StateDB.GetOrNewStateObject. pose proof (getStateObject_equiv a _ _ Hst) as H.
  destruct H as [o o' Ho |]; [done |]. cbn. split; [done |]. apply put_equiv; [| done]. apply append_equiv; [done |].
  pose proof (se_objects _ _ Hst a) as H. by destruct H.
Qed.

Lemma SetState_equiv a k v s t : s ≈ t → SetState Keccak256 a k v s ≈ SetState Keccak256 a k v t.
Proof.
  intros Hst. unfold SetState. destruct (GetOrNewStateObject_equiv a _ _ Hst) as [Ho H1].
  destruct (GetOrNewStateObject a s) as [o s1], (GetOrNewStateObject a t) as [o' t1]. cbn in Ho, H1.
  rewrite (oe_State _ _ Ho). destruct (_ =? v); auto.
Qed.

Lemma GetState_equiv a k s t : s ≈ t → GetState a k s = GetState a k t.
Proof.
  intros Hst. unfold GetState. pose proof (getStateObject_equiv a _ _ Hst) as H.
  destruct H as [o o' Ho |]; [| done]. apply Ho.
Qed.

Lemma exec_equiv o s t : s ≈ t → outcome_equiv (exec o s) (exec o t).
Proof.
  intros Hst. destruct o; cbn [exec]; try (apply SetState_equiv; done).
  - unfold SetNonce. destruct (GetOrNewStateObject_equiv a _ _ Hst) as [Ho H1].
    destruct (GetOrNewStateObject a s), (GetOrNewStateObject a t). cbn in *. auto.
  - unfold SetCode. destruct (GetOrNewStateObject_equiv a _ _ Hst) as [Ho H1].
    destruct (GetOrNewStateObject a s), (GetOrNewStateObject a t). cbn in *. auto.
  - cbn. unfold AddBalance, GetBalance. rewrite (GetState_equiv _ _ _ _ Hst). by apply SetState_equiv.
  - cbn. unfold SubBalance, GetBalance. rewrite (GetState_equiv _ _ _ _ Hst). by apply SetState_equiv.
  - unfold CreateAccount. cbn. pose proof (se_objects _ _ Hst a) as H.
    destruct H as [o o' Ho |]; [rewrite (oe_Balance _ _ Ho) |]; repeat apply put_equiv; try done; by apply append_equiv.
  - unfold Suicide. pose proof (getStateObject_equiv a _ _ Hst) as H. destruct H as [o o' Ho |]; cbn; auto 7.
  - destruct Hst. split; try done. cbn. by rewrite se_refund0.
  - unfold SubRefund. rewrite (se_refund _ _ Hst). destruct (_ <? gas); [done |]. destruct Hst. by split.
  - destruct Hst. unfold AddLog. rewrite se_logs0, se_thash0, se_bhash0, se_txIndex0, se_logSize0. by split.
  - unfold AddPreimage. rewrite (se_preimages _ _ Hst). destruct (preimages t !! hash); [done |]. destruct Hst. by split.
  - unfold AddAddressToAccessList. rewrite (se_access _ _ Hst). destruct (al_AddAddress a (access t)) as [al [|]];
      destruct Hst; by split.
  - unfold AddSlotToAccessList. rewrite (se_access _ _ Hst).
    destruct (al_AddSlot a slot (access t)) as [[[al b1] b2] | |]; [| done..]. destruct b1, b2; destruct Hst; by split.
Qed.

(** ** Snapshots as copies *)

Inductive command := CDo (o : op) | CSnapshot | CRevert (id : Z).

Definition run_command (c : command) (s : StateDB) : outcome StateDB :=
  match c with
  | CDo o => exec o s
  | CSnapshot => Ok (Snapshot s).2
  | CRevert id => RevertToSnapshot id s
  end.

Fixpoint run_commands (cs : list command) (s : StateDB) : outcome StateDB :=
  match cs with [] => Ok s | c :: cs => s ← run_command c s; run_commands cs s end.

(** The abstract machine: a state, and the copies that were put aside. *)
Record copies := { current : StateDB; saved : list (Z * StateDB); next : Z }.

Definition spec_command (c : command) (m : copies) : outcome copies :=
  match c with
  | CDo o => s ← exec o (current m); mret {| current := s; saved := saved m; next := next m |}
  | CSnapshot =>
      Ok {| current := current m; saved := saved m ++ [(next m, current m)]; next := next m + 1 |}
  | CRevert id =>
      match list_find (λ r : Z * StateDB, r.1 = id) (saved m) with
      | Some (i, (_, s)) => Ok {| current := s; saved := take i (saved m); next := next m |}
      | None => Panic "revision id cannot be reverted"
      end
  end.

Fixpoint spec_commands (cs : list command) (m : copies) : outcome copies :=
  match cs with [] => Ok m | c :: cs => m ← spec_command c m; spec_commands cs m end.

(** A revision holds the position of a copy in the journal. *)
Record holds (s : StateDB) (r : Z * Z) (x : Z * StateDB) : Prop := {
  ho_id : r.1 = x.1;
  ho_position : 0 <= r.2 <= len (entries s);
  ho_wf : wf x.2;
  ho_undo : outcome_equiv (undo (reverse (drop (Z.to_nat r.2) (entries s))) s) (Ok x.2);
}.

Record refines (s : StateDB) (m : copies) : Prop := {
  rf_current : s ≈ current m;
  rf_wf : wf s;
  rf_next : nextRevisionId s = next m;
  rf_saved : Forall2 (holds s) (validRevisions s) (saved m);
  rf_below : ∀ i r, validRevisions s !! i = Some r → r.1 < next m;
  rf_sorted : ∀ i j r r', (i < j)%nat → validRevisions s !! i = Some r → validRevisions s !! j = Some r' →
    r.1 < r'.1 ∧ r.2 <= r'.2;
}.

Lemma holds_journaled s s' r x : journaled s s' → holds s r x → holds s' r x.
Proof.
  intros [(js & He & Hu) _ _ _] [Hi Hp Hw Hx]. split; [done | | done |].
  - rewrite He, len_app. pose proof (len_nonneg js). lia.
  - unfold len in Hp. rewrite He, drop_app_le by lia. rewrite reverse_app, undo_app.
    apply outcome_equiv_Ok in Hu as (t & -> & Ht). cbn. eapply outcome_equiv_trans; [by apply undo_equiv | done].
Qed.

Lemma holds_equiv s s' r x : s' ≈ s → entries s' = entries s → holds s r x → holds s' r x.
Proof.
  intros Heq He [Hi Hp Hw Hx]. split; [done | by rewrite He | done |]. rewrite He.
  eapply outcome_equiv_trans; [by apply undo_equiv | done].
Qed.

Lemma refines_start s : wf s → validRevisions s = [] → refines s {| current := s; saved := []; next := nextRevisionId s |}.
Proof. intros Hw Hv. split; cbn; try done; rewrite Hv; by try constructor. Qed.

Lemma refines_do o s m :
  refines s m →
  match exec o s, exec o (current m) with
  | Ok s', Ok t => refines s' {| current := t; saved := saved m; next := next m |}
  | Panic p, Panic p' => p = p'
  | Err e, Err e' => e = e'
  | _, _ => False
  end.
Proof.
  intros [Hc Hw Hn Hs Hb Hso]. pose proof (exec_equiv o _ _ Hc) as Heq.
  destruct (exec o s) as [s' | |] eqn:E, (exec o (current m)); try done. cbn in Heq.
  pose proof (exec_journaled _ _ _ Hw E) as Hj. destruct (id Hj) as [_ Hw' Hr Hnx].
  split; cbn; rewrite ?Hr; try done; [congruence |]. eapply Forall2_impl; [done |]. intros r x. by apply holds_journaled.
Qed.

Lemma refines_snapshot s m :
  refines s m →
  refines (Snapshot s).2 {| current := current m; saved := saved m ++ [(next m, current m)]; next := next m + 1 |}.
Proof.
  intros [Hc Hw Hn Hs Hb Hso]. pose proof (len_nonneg (entries s)).
  assert (Hpos : ∀ r, r ∈ validRevisions s → r.2 <= len (entries s)).
  { intros r Hr. apply list_elem_of_lookup in Hr as [i Hi]. destruct (Forall2_lookup_l _ _ _ _ _ Hs Hi) as (x & _ & Hx).
    apply Hx. }
  split; cbn; [etrans; [apply with_revisions_equiv | done] | | lia | | |].
  - eapply wf_equiv; [apply with_revisions_equiv | done].
  - apply Forall2_app.
    + eapply Forall2_impl; [done |]. intros r x. apply holds_equiv; [apply with_revisions_equiv | done].
    + constructor; [| constructor]. split; cbn; [done | lia | eapply wf_equiv; [by symmetry | done] |].
      unfold len. rewrite Nat2Z.id, drop_all. cbn. etrans; [apply with_revisions_equiv | done].
  - intros i r Hi. apply lookup_app_Some in Hi as [Hi | [_ Hi]]; [specialize (Hb _ _ Hi); lia |].
    apply list_lookup_singleton_Some in Hi as [_ <-]. cbn. lia.
  - intros i j r r' Hij Hi Hj. apply lookup_app_Some in Hj as [Hj | [Hlen Hj]].
    + rewrite lookup_app_l in Hi by (apply lookup_lt_Some in Hj; lia). by eapply Hso.
    + apply list_lookup_singleton_Some in Hj as [Hj <-]. rewrite lookup_app_l in Hi by lia. cbn.
      split; [rewrite Hn; by eapply Hb | apply Hpos; by eapply list_elem_of_lookup_2].
Qed.

(** The two searches find the same revision. *)
Lemma find_revision id s m :
  refines s m →
  match list_find (λ r : Z * Z, id <= r.1) (validRevisions s) with
  | Some (i, (id', n)) =>
      if id' =? id then ∃ t, list_find (λ r : Z * StateDB, r.1 = id) (saved m) = Some (i, (id, t)) ∧ holds s (id, n) (id, t)
      else list_find (λ r : Z * StateDB, r.1 = id) (saved m) = None
  | None => list_find (λ r : Z * StateDB, r.1 = id) (saved m) = None
  end.
Proof.
  intros [_ _ _ Hs _ Hso].
  assert (Hid : ∀ i x, saved m !! i = Some x → ∃ r, validRevisions s !! i = Some r ∧ r.1 = x.1).
  { intros i x Hx. destruct (Forall2_lookup_r _ _ _ _ _ Hs Hx) as (r & Hr & Hh). exists r. split; [done | apply Hh]. }
  destruct (list_find _ (validRevisions s)) as [[i [id' n]] |] eqn:Ef.
  - apply list_find_Some in Ef as (Hi & Hle & Hfirst). cbn in Hle. destruct (Z.eqb_spec id' id) as [-> | Hne].
    + destruct (Forall2_lookup_l _ _ _ _ _ Hs Hi) as ([id2 t] & Ht & Hh). pose proof (ho_id _ _ _ Hh) as E. cbn in E. subst id2.
      exists t. split; [| done]. apply list_find_Some. split_and!; [done | done |].
      intros j y Hy Hj Ey. destruct (Hid _ _ Hy) as (r & Hr & Er). apply (Hfirst _ _ Hr Hj). lia.
    + apply list_find_None, Forall_lookup. intros j y Hy Ey. destruct (Hid _ _ Hy) as (r & Hr & Er).
      destruct (decide (j < i)%nat) as [Hj | Hj]; [apply (Hfirst _ _ Hr Hj); lia |].
      destruct (decide (j = i)) as [-> | Hne']; [rewrite Hi in Hr; injection Hr as <-; cbn in Er; lia |].
      destruct (Hso i j _ _ ltac:(lia) Hi Hr) as [Hlt _]. cbn in Hlt. lia.
  - apply list_find_None, Forall_lookup. intros j y Hy Ey. destruct (Hid _ _ Hy) as (r & Hr & Er).
    apply list_find_None in Ef. rewrite Forall_lookup in Ef. apply (Ef _ _ Hr). lia.
Qed.

(** A revision below the one that is reverted to keeps its copy. *)
Lemma holds_revert s s' n u r x :
  holds s r x → r.2 <= n → 0 <= n → undo (reverse (drop (Z.to_nat n) (entries s))) s = Ok u → s' ≈ u →
  entries s' = take (Z.to_nat n) (entries s) → n <= len (entries s) → holds s' r x.
Proof.
  intros [Hi Hp Hw Hx] Hle Hn Hu Heq He Hl. unfold len in *. split; [done | | done |].
  - unfold len. rewrite He, length_take. lia.
  - rewrite He. rewrite <- (take_drop (Z.to_nat n) (entries s)) in Hx.
    rewrite drop_app_le in Hx by (rewrite length_take; lia). rewrite reverse_app, undo_app, Hu in Hx. cbn in Hx.
    eapply outcome_equiv_trans; [by apply undo_equiv | done].
Qed.

Lemma refines_revert id s m :
  refines s m →
  match RevertToSnapshot id s, spec_command (CRevert id) m with
  | Ok s', Ok m' => refines s' m'
  | Panic p, Panic p' => p = p'
  | _, _ => False
  end.
Proof.
  intros Hr. pose proof (find_revision id _ _ Hr) as Hf. unfold RevertToSnapshot. cbn [spec_command].
  destruct (list_find (λ r : Z * Z, id <= r.1) (validRevisions s)) as [[i [id' n]] |] eqn:Ef; [| by rewrite Hf].
  destruct (id' =? id) eqn:Eid; [| by rewrite Hf]. apply Z.eqb_eq in Eid as ->.
  destruct Hf as (t & -> & Hh). apply list_find_Some in Ef as (Hi & _ & _). destruct Hr as [Hc Hw Hn Hs Hb Hso].
  unfold journal_revert. destruct (outcome_equiv_Ok _ _ (ho_undo _ _ _ Hh)) as (u & Hu & Hut). cbn [snd] in Hu, Hut. rewrite Hu. cbn.
  set (s' := with_revisions _ _ _).
  assert (Hs' : s' ≈ u) by (destruct u; by split).
  pose proof (ho_position _ _ _ Hh) as Hp. cbn in Hp.
  split; cbn; [by etrans | | done | | |].
  - eapply wf_equiv; [| apply Hh]. by etrans.
  - apply Forall2_same_length_lookup. split.
    { rewrite !length_take. by rewrite (Forall2_length _ _ _ Hs). }
    intros j r x Hr Hx. apply lookup_take_Some in Hr as [Hr Hj], Hx as [Hx _].
    destruct (Forall2_lookup_l _ _ _ _ _ Hs Hr) as (x' & Hx' & Hh'). assert (x' = x) as -> by congruence.
    destruct (Hso j i _ _ Hj Hr Hi) as [_ Hle]. cbn in Hle. eapply (holds_revert s s' n u); (done || lia).
  - intros j r Hr. apply lookup_take_Some in Hr as [Hr _]. by eapply Hb.
  - intros j k r r' Hjk Hr Hr'. apply lookup_take_Some in Hr as [Hr _], Hr' as [Hr' _]. by eapply Hso.
Qed.

Lemma refines_commands cs s m :
  refines s m →
  match run_commands cs s, spec_commands cs m with
  | Ok s', Ok m' => refines s' m'
  | Err e, Err e' => e = e'
  | Panic p, Panic p' => p = p'
  | _, _ => False
  end.
Proof.
  revert s m. induction cs as [| c cs IH]; intros s m Hr; [done |]. cbn [run_commands spec_commands]. destruct c as [o | | id].
  - cbn [run_command spec_command]. pose proof (refines_do o _ _ Hr) as H.
    destruct (exec o s), (exec o (current m)); try done. by apply IH.
  - cbn [run_command spec_command]. apply IH. by apply refines_snapshot.
  - pose proof (refines_revert id _ _ Hr) as H. cbn [run_command].
    destruct (RevertToSnapshot id s), (spec_command (CRevert id) m); try done. by apply IH.
Qed.

(** Every getter answers alike. *)
Definition same_answers (s t : StateDB) : Prop :=
  (∀ a, Exist a s = Exist a t ∧ Empty Keccak256 a s = Empty Keccak256 a t ∧ GetNonce a s = GetNonce a t ∧
        GetCode Keccak256 ContractCode a s = GetCode Keccak256 ContractCode a t ∧ GetCodeHash a s = GetCodeHash a t ∧
        HasSuicided a s = HasSuicided a t ∧ GetBalance Keccak256 a s = GetBalance Keccak256 a t) ∧
  (∀ a k, GetState a k s = GetState a k t ∧ GetCommittedState a k s = GetCommittedState a k t) ∧
  GetRefund s = GetRefund t ∧ logs s = logs t ∧ preimages s = preimages t ∧ access s = access t ∧ dirties s = dirties t.

Lemma equiv_same_answers s t : s ≈ t → same_answers s t.
Proof.
  intros Hst. split; [| split; [| destruct Hst; done]].
  - intros a. unfold Exist, Empty, GetNonce, GetCode, GetCodeHash, HasSuicided, GetBalance.
    rewrite (GetState_equiv _ _ _ _ Hst). pose proof (getStateObject_equiv a _ _ Hst) as H.
    destruct H as [o o' [] |]; [| done]. unfold obj_empty. cbn. rewrite oe_Nonce0, oe_Balance0, oe_CodeHash0, oe_Code0. done.
  - intros a k. split; [by apply GetState_equiv |]. unfold GetCommittedState.
    pose proof (getStateObject_equiv a _ _ Hst) as H. destruct H as [o o' Ho |]; [apply Ho | done].
Qed.

(** C21: The journal implements snapshots: any sequence of state operations, snapshots and reverts gives
    the answers of a machine that keeps whole copies of the state and restores them, and panics on
    the same invalid revision ids. *)
Theorem snapshots_refine cs s :
  wf s → validRevisions s = [] →
  match run_commands cs s, spec_commands cs {| current := s; saved := []; next := nextRevisionId s |} with
  | Ok s', Ok m => same_answers s' (current m) ∧ (validRevisions s').*1 = (saved m).*1
  | Err e, Err e' => e = e'
  | Panic p, Panic p' => p = p'
  | _, _ => False
  end.
Proof.
  intros Hw Hv. pose proof (refines_commands cs _ _ (refines_start s Hw Hv)) as H. destruct (run_commands cs s), (spec_commands cs _); try done.
  destruct H as [Hc _ _ Hs _ _]. split; [by apply equiv_same_answers |].
  apply list_eq_Forall2, Forall2_fmap. eapply Forall2_impl; [done |]. by intros r x [].
Qed.

End Facts.
