(* ===== verification/StateBalances.v ===== *)
(** Storage and balances in the states of StateDB.v: what the setters do to the
    slots that the getters read, and the sum of the balances of accounts. *)

From S2P Require Import Prelude StateDB StateDBFacts.

Section Balances.
  Context (Keccak256 : list byte → list byte) (ContractCode : list byte → list byte).

Abbreviation GetBalance := (StateDB.GetBalance Keccak256).
Abbreviation AddBalance := (StateDB.AddBalance Keccak256).
Abbreviation SubBalance := (StateDB.SubBalance Keccak256).
Abbreviation key := (GetbvmBalanceKey Keccak256).

(** ** Storage *)

Lemma getStateObject_put_ne a b o s : a ≠ b → getStateObject b (put a o s) = getStateObject b s.
Proof. intros Hne. unfold getStateObject. by rewrite getDeleted_put, decide_False. Qed.

Lemma getStateObject_append e b s : getStateObject b (append e s) = getStateObject b s.
Proof. done. Qed.

Lemma GetState_put a o b k s :
  deleted o = false → GetState b k (put a o s) = if decide (a = b) then obj_GetState o k else GetState b k s.
Proof.
  intros Hd. unfold GetState. destruct (decide (a = b)) as [<- | Hne].
  - by rewrite getStateObject_put.
  - by rewrite getStateObject_put_ne.
Qed.

Lemma GetState_GetOrNew a b k s :
  GetState b k (GetOrNewStateObject Keccak256 a s).2 = GetState b k s ∧
  obj_GetState (GetOrNewStateObject Keccak256 a s).1 k = GetState a k s ∧
  deleted (GetOrNewStateObject Keccak256 a s).1 = false.
Proof.
  unfold GetOrNewStateObject. destruct (getStateObject a s) as [o |] eqn:Eg; cbn.
  - split; [done |]. split; [unfold GetState; by rewrite Eg | by destruct (getDeleted_of _ _ _ Eg)].
  - rewrite GetState_put by done. destruct (decide (a = b)) as [<- |]; unfold GetState; rewrite ?Eg; done.
Qed.

Lemma GetState_SetState a k v b k' s :
  GetState b k' (SetState Keccak256 a k v s) = if decide (a = b ∧ k = k') then v else GetState b k' s.
Proof.
  unfold SetState. destruct (GetState_GetOrNew a b k' s) as (H1 & H2 & H3).
  destruct (GetState_GetOrNew a b k s) as (_ & H2' & _).
  destruct (GetOrNewStateObject Keccak256 a s) as [o s1]. cbn in *.
  destruct (Z.eqb_spec (obj_GetState o k) v) as [E | E].
  - destruct (decide (a = b ∧ k = k')) as [[<- <-] |]; [congruence | done].
  - rewrite GetState_put by done. change (GetState b k' (append _ s1)) with (GetState b k' s1). rewrite H1.
    destruct (decide (a = b)) as [<- | Hne].
    + rewrite GetState_setState. destruct (decide (k = k')) as [<- |].
      * by rewrite decide_True.
      * rewrite decide_False by naive_solver. done.
    + by rewrite decide_False by naive_solver.
Qed.

(** ** Balances *)

Lemma BigToHash_small z : 0 <= z < 2 ^ 256 → BigToHash z = z.
Proof. intros Hz. unfold BigToHash. rewrite Z.abs_eq by lia. by apply Z.mod_small. Qed.

Lemma GetBalance_AddBalance a x b s :
  GetBalance b (AddBalance a x s) = if decide (key a = key b) then BigToHash (GetBalance a s + x) else GetBalance b s.
Proof.
  unfold StateDB.AddBalance. unfold StateDB.GetBalance at 1. rewrite GetState_SetState.
  destruct (decide (key a = key b)); [by rewrite decide_True | rewrite decide_False by naive_solver; done].
Qed.

Lemma GetBalance_SubBalance a x b s :
  GetBalance b (SubBalance a x s) = if decide (key a = key b) then BigToHash (GetBalance a s - x) else GetBalance b s.
Proof. apply (GetBalance_AddBalance a (- x)). Qed.

(** The balances of some accounts, together. *)
Definition supply (l : list address) (s : StateDB) : Z := foldr Z.add 0 (map (λ a, GetBalance a s) l).

(** Accounts whose balances are in different slots. *)
Abbreviation apart l := (NoDup (map (GetbvmBalanceKey Keccak256) l)).

Lemma supply_same l s s' : (∀ a, GetBalance a s' = GetBalance a s) → supply l s' = supply l s.
Proof. intros H. unfold supply. f_equal. apply map_ext. done. Qed.

Lemma supply_change l a y s s' :
  apart l → a ∈ l → (∀ b, GetBalance b s' = if decide (key a = key b) then y else GetBalance b s) →
  supply l s' = supply l s + y - GetBalance a s.
Proof.
  intros Hnd Ha Hb. induction l as [| c l IH]; [by apply not_elem_of_nil in Ha |].
  cbn in Hnd. apply NoDup_cons in Hnd as [Hni Hnd]. unfold supply in *. cbn.
  destruct (decide (a = c)) as [<- | Hne].
  - rewrite (Hb a), decide_True by done. rewrite (map_ext_in (λ x, GetBalance x s') (λ x, GetBalance x s)); [lia |].
    intros b Hin. rewrite Hb, decide_False; [done |]. intros E. apply Hni. rewrite E. apply list_elem_of_In. by apply in_map.
  - apply elem_of_cons in Ha as [| Ha]; [done |]. rewrite (IH Hnd Ha), (Hb c), decide_False; [lia |].
    intros E. apply Hni. rewrite <- E. apply list_elem_of_In, in_map. by apply list_elem_of_In.
Qed.

Lemma supply_AddBalance l a x s :
  apart l → a ∈ l → 0 <= GetBalance a s + x < 2 ^ 256 → supply l (AddBalance a x s) = supply l s + x.
Proof.
  intros Hnd Ha Hx. rewrite (supply_change l a (GetBalance a s + x) s); [lia | done | done |].
  intros b. rewrite GetBalance_AddBalance. by rewrite BigToHash_small.
Qed.

Lemma supply_SubBalance l a x s :
  apart l → a ∈ l → 0 <= GetBalance a s - x < 2 ^ 256 → supply l (SubBalance a x s) = supply l s - x.
Proof.
  intros Hnd Ha Hx. rewrite (supply_change l a (GetBalance a s - x) s); [lia | done | done |].
  intros b. rewrite GetBalance_SubBalance. by rewrite BigToHash_small.
Qed.

Lemma GetBalance_Suicide a b s : GetBalance b (Suicide a s).1 = GetBalance b s.
Proof.
  unfold Suicide. destruct (getStateObject a s) as [o |] eqn:Eg; [| done].
  destruct (getDeleted_of _ _ _ Eg) as [_ Hd]. unfold StateDB.GetBalance. cbn [fst]. rewrite GetState_put by done.
  destruct (decide (a = BvmMantleAddress)) as [-> |]; [| done].
  unfold GetState. by rewrite Eg.
Qed.

End Balances.
