(* ===== verification/Blake2b.v ===== *)
(** The compression function of BLAKE2b, src/l2geth/crypto/blake2b/blake2b.go
    and blake2b_generic.go, against the one of RFC 7693.

    The code runs the halves of the mixing function interleaved, with a table
    of message indices in that order.  The assembly of blake2b_amd64.s is not
    modelled. *)

From S2P Require Import Prelude.

(** ** The code *)

(** The number [s] of positions is reduced modulo 64. *)
Definition RotateLeft64 (x k : Z) : Z :=
  let s := k mod 64 in Z.lor (u64 (Z.shiftl x s)) (Z.shiftr x (64 - s)).

Definition iv : list Z :=
  [0x6a09e667f3bcc908; 0xbb67ae8584caa73b; 0x3c6ef372fe94f82b; 0xa54ff53a5f1d36f1;
   0x510e527fade682d1; 0x9b05688c2b3e6c1f; 0x1f83d9abfb41bd6b; 0x5be0cd19137e2179].

Definition precomputed : list (list nat) :=
  [[0; 2; 4; 6; 1; 3; 5; 7; 8; 10; 12; 14; 9; 11; 13; 15];
   [14; 4; 9; 13; 10; 8; 15; 6; 1; 0; 11; 5; 12; 2; 7; 3];
   [11; 12; 5; 15; 8; 0; 2; 13; 10; 3; 7; 9; 14; 6; 1; 4];
   [7; 3; 13; 11; 9; 1; 12; 14; 2; 5; 4; 15; 6; 10; 0; 8];
   [9; 5; 2; 10; 0; 7; 4; 15; 14; 11; 6; 3; 1; 12; 8; 13];
   [2; 6; 0; 8; 12; 10; 11; 3; 4; 7; 15; 1; 13; 5; 14; 9];
   [12; 1; 14; 4; 5; 15; 13; 10; 0; 6; 9; 8; 7; 3; 2; 11];
   [13; 7; 12; 3; 11; 14; 1; 9; 5; 15; 8; 2; 0; 4; 6; 10];
   [6; 14; 11; 0; 15; 9; 3; 8; 12; 13; 1; 10; 2; 7; 4; 5];
   [10; 8; 7; 1; 2; 4; 6; 5; 15; 9; 3; 13; 11; 14; 12; 0]]%nat.

(** The seven statements that the code repeats sixteen times in a round, on the
    variables [a], [b], [c], [d] and the word [x] of the message. *)
Definition half (r1 r2 : Z) (a b c d : nat) (x : Z) (v : list Z) : list Z :=
  let va := u64 (u64 (v !!! a + x) + v !!! b) in
  let vd := RotateLeft64 (Z.lxor (v !!! d) va) (- r1) in
  let vc := u64 (v !!! c + vd) in
  let vb := RotateLeft64 (Z.lxor (v !!! b) vc) (- r2) in
  <[a := va]> (<[b := vb]> (<[c := vc]> (<[d := vd]> v))).

(** The order of the sixteen pieces of a round, whatever a piece does. *)
Definition sixteen_halves (half : Z → Z → nat → nat → nat → nat → Z → list Z → list Z)
    (s : list nat) (m v : list Z) : list Z := (
  let x (i : nat) := m !!! (s !!! i) in
  let v := half 32%Z 24%Z 0 4 8 12 (x 0) v in
  let v := half 32%Z 24%Z 1 5 9 13 (x 1) v in
  let v := half 32%Z 24%Z 2 6 10 14 (x 2) v in
  let v := half 32%Z 24%Z 3 7 11 15 (x 3) v in
  let v := half 16%Z 63%Z 0 4 8 12 (x 4) v in
  let v := half 16%Z 63%Z 1 5 9 13 (x 5) v in
  let v := half 16%Z 63%Z 2 6 10 14 (x 6) v in
  let v := half 16%Z 63%Z 3 7 11 15 (x 7) v in
  let v := half 32%Z 24%Z 0 5 10 15 (x 8) v in
  let v := half 32%Z 24%Z 1 6 11 12 (x 9) v in
  let v := half 32%Z 24%Z 2 7 8 13 (x 10) v in
  let v := half 32%Z 24%Z 3 4 9 14 (x 11) v in
  let v := half 16%Z 63%Z 0 5 10 15 (x 12) v in
  let v := half 16%Z 63%Z 1 6 11 12 (x 13) v in
  let v := half 16%Z 63%Z 2 7 8 13 (x 14) v in
  half 16%Z 63%Z 3 4 9 14 (x 15) v)%nat.

Definition round (s : list nat) (m : list Z) (v : list Z) : list Z := sixteen_halves half s m v.

(** The variables before the rounds. *)
Definition initial (h : list Z) (c0 c1 flag : Z) : list Z :=
  h ++ [iv !!! 0%nat; iv !!! 1%nat; iv !!! 2%nat; iv !!! 3%nat; Z.lxor (iv !!! 4%nat) c0; Z.lxor (iv !!! 5%nat) c1;
        Z.lxor (iv !!! 6%nat) flag; iv !!! 7%nat].

Definition finalize (h v : list Z) : list Z :=
  imap (λ i x, Z.lxor x (Z.lxor (v !!! i) (v !!! (i + 8)%nat))) h.

Definition fGeneric (h m : list Z) (c0 c1 flag : Z) (rounds : nat) : list Z :=
  finalize h (foldl (λ v i, round (precomputed !!! (i mod 10)%nat) m v) (initial h c0 c1 flag) (seq 0 rounds)).

Definition F (h m : list Z) (c0 c1 : Z) (final : bool) (rounds : nat) : list Z :=
  fGeneric h m c0 c1 (if final then 0xFFFFFFFFFFFFFFFF else 0) rounds.

(** ** RFC 7693 *)

Module RFC.

(** Section 2.1: rotation to the right. *)
Definition rotr (w n : Z) : Z := Z.lor (Z.shiftr w n) (Z.shiftl w (64 - n) mod 2 ^ 64).

(** Section 2.7. *)
Definition SIGMA : list (list nat) :=
  [[0; 1; 2; 3; 4; 5; 6; 7; 8; 9; 10; 11; 12; 13; 14; 15];
   [14; 10; 4; 8; 9; 15; 13; 6; 1; 12; 0; 2; 11; 7; 5; 3];
   [11; 8; 12; 0; 5; 2; 15; 13; 10; 14; 3; 6; 7; 1; 9; 4];
   [7; 9; 3; 1; 13; 12; 11; 14; 2; 6; 5; 10; 4; 0; 15; 8];
   [9; 0; 5; 7; 2; 4; 10; 15; 14; 1; 11; 12; 6; 8; 3; 13];
   [2; 12; 6; 10; 0; 11; 8; 3; 4; 13; 7; 5; 15; 14; 1; 9];
   [12; 5; 1; 15; 14; 13; 4; 10; 0; 7; 6; 3; 9; 2; 8; 11];
   [13; 11; 7; 14; 12; 1; 3; 9; 5; 0; 15; 4; 8; 6; 2; 10];
   [6; 15; 14; 9; 11; 3; 0; 8; 12; 2; 13; 7; 1; 4; 10; 5];
   [10; 2; 8; 4; 7; 6; 1; 5; 15; 11; 9; 14; 3; 12; 13; 0]]%nat.

Definition set (i : nat) (x : Z) (v : list Z) : list Z := <[i := x]> v.

(** Section 3.1: the mixing function G, one assignment at a time. *)
Definition G (a b c d : nat) (x y : Z) (v : list Z) : list Z :=
  let v := set a ((v !!! a + v !!! b + x) mod 2 ^ 64) v in
  let v := set d (rotr (Z.lxor (v !!! d) (v !!! a)) 32) v in
  let v := set c ((v !!! c + v !!! d) mod 2 ^ 64) v in
  let v := set b (rotr (Z.lxor (v !!! b) (v !!! c)) 24) v in
  let v := set a ((v !!! a + v !!! b + y) mod 2 ^ 64) v in
  let v := set d (rotr (Z.lxor (v !!! d) (v !!! a)) 16) v in
  let v := set c ((v !!! c + v !!! d) mod 2 ^ 64) v in
  set b (rotr (Z.lxor (v !!! b) (v !!! c)) 63) v.

(** Section 3.2: one round, columns and then diagonals. *)
Definition eight_mixes (G : nat → nat → nat → nat → Z → Z → list Z → list Z)
    (s : list nat) (m v : list Z) : list Z := (
  let x (i : nat) := m !!! (s !!! i) in
  let v := G 0 4 8 12 (x 0) (x 1) v in
  let v := G 1 5 9 13 (x 2) (x 3) v in
  let v := G 2 6 10 14 (x 4) (x 5) v in
  let v := G 3 7 11 15 (x 6) (x 7) v in
  let v := G 0 5 10 15 (x 8) (x 9) v in
  let v := G 1 6 11 12 (x 10) (x 11) v in
  let v := G 2 7 8 13 (x 12) (x 13) v in
  G 3 4 9 14 (x 14) (x 15) v)%nat.

Definition round (s : list nat) (m : list Z) (v : list Z) : list Z := eight_mixes G s m v.

(** The compression function, with the number of rounds of EIP-152. *)
Definition F (h m : list Z) (t0 t1 : Z) (f : bool) (rounds : nat) : list Z :=
  let v := h ++ iv in
  let v := set 12 (Z.lxor (v !!! 12%nat) t0) v in
  let v := set 13 (Z.lxor (v !!! 13%nat) t1) v in
  let v := if f then set 14 (Z.lxor (v !!! 14%nat) (2 ^ 64 - 1)) v else v in
  let v := foldl (λ v i, round (SIGMA !!! (i mod 10)%nat) m v) v (seq 0 rounds) in
  imap (λ i x, Z.lxor (Z.lxor x (v !!! i)) (v !!! (i + 8)%nat)) h.

End RFC.

(** ** The code computes the function of the RFC *)

Lemma rotate_rotr x n : n mod 64 = n → (- n) mod 64 = 64 - n → RotateLeft64 x (- n) = RFC.rotr x n.
Proof.
  intros H1 H2. unfold RotateLeft64, RFC.rotr. rewrite H2. replace (64 - (64 - n)) with n by lia. by rewrite Z.lor_comm.
Qed.

(** A half of G. *)
Definition G_half (r1 r2 : Z) (a b c d : nat) (x : Z) (v : list Z) : list Z :=
  let v := RFC.set a ((v !!! a + v !!! b + x) mod 2 ^ 64) v in
  let v := RFC.set d (RFC.rotr (Z.lxor (v !!! d) (v !!! a)) r1) v in
  let v := RFC.set c ((v !!! c + v !!! d) mod 2 ^ 64) v in
  RFC.set b (RFC.rotr (Z.lxor (v !!! b) (v !!! c)) r2) v.

Lemma G_halves a b c d x y v : RFC.G a b c d x y v = G_half 16 63 a b c d y (G_half 32 24 a b c d x v).
Proof. done. Qed.

Lemma add3 a b x : u64 (u64 (a + x) + b) = (a + b + x) mod 2 ^ 64.
Proof. unfold wrap. rewrite Z.add_mod_idemp_l by lia. f_equal. lia. Qed.

(** A list of sixteen variables. *)
Ltac sixteen v Hv := do 16 (destruct v as [| ? v]; [discriminate Hv |]); destruct v as [| ? v]; [clear Hv | discriminate Hv].

(** The indices of a column and of a diagonal. *)
Definition quad (diagonal : bool) (i : nat) : nat * nat * nat * nat :=
  if diagonal then (i, 4 + (i + 1) mod 4, 8 + (i + 2) mod 4, 12 + (i + 3) mod 4)%nat
  else (i, 4 + i, 8 + i, 12 + i)%nat.

Definition on_quad {A} (f : nat → nat → nat → nat → A) (diagonal : bool) (i : nat) : A :=
  let '(a, b, c, d) := quad diagonal i in f a b c d.

Abbreviation half_at r1 r2 g i := (on_quad (half r1 r2) g i).

Lemma half_G r1 r2 g i x v :
  r1 mod 64 = r1 → (- r1) mod 64 = 64 - r1 → r2 mod 64 = r2 → (- r2) mod 64 = 64 - r2 → (i < 4)%nat → length v = 16%nat →
  half_at r1 r2 g i x v = on_quad (G_half r1 r2) g i x v.
Proof.
  intros H1 H2 H3 H4 Hi Hv. sixteen v Hv. destruct i as [| [| [| [| i]]]]; [| | | | lia]; destruct g; unfold on_quad; cbn -[Z.add Z.modulo Z.lxor Z.pow];
    unfold half, G_half, RFC.set; rewrite add3, !rotate_rotr by done; reflexivity.
Qed.

Lemma halves_commute r1 r2 s1 s2 g i j x y v :
  (i < 4)%nat → (j < 4)%nat → i ≠ j → length v = 16%nat →
  half_at r1 r2 g i x (half_at s1 s2 g j y v) = half_at s1 s2 g j y (half_at r1 r2 g i x v).
Proof.
  intros Hi Hj Hne Hv. sixteen v Hv. destruct g, i as [| [| [| [| i]]]]; try (exfalso; clear - Hi; lia);
    destruct j as [| [| [| [| j]]]]; first [exfalso; clear - Hj Hne; lia | cbv -[wrap RotateLeft64 Z.lxor Z.add Z.opp]; reflexivity].
Qed.

Lemma length_half_at r1 r2 g i x v : length (half_at r1 r2 g i x v) = length v.
Proof. unfold on_quad, half. destruct (quad g i) as [[[a b] c] d]. by rewrite !length_insert. Qed.

(** Four halves and then the other four are four whole mixings. *)
Lemma quads_G g (x : nat → Z) v :
  length v = 16%nat →
  half_at 16 63 g 3 (x 7%nat) (half_at 16 63 g 2 (x 6%nat) (half_at 16 63 g 1 (x 5%nat) (half_at 16 63 g 0 (x 4%nat)
    (half_at 32 24 g 3 (x 3%nat) (half_at 32 24 g 2 (x 2%nat) (half_at 32 24 g 1 (x 1%nat) (half_at 32 24 g 0 (x 0%nat) v)))))))
  = on_quad RFC.G g 3 (x 3%nat) (x 7%nat) (on_quad RFC.G g 2 (x 2%nat) (x 6%nat)
      (on_quad RFC.G g 1 (x 1%nat) (x 5%nat) (on_quad RFC.G g 0 (x 0%nat) (x 4%nat) v))).
Proof.
  intros Hv.
  assert (HG : ∀ i a b w, (i < 4)%nat → length w = 16%nat → on_quad RFC.G g i a b w = half_at 16 63 g i b (half_at 32 24 g i a w)).
  { intros i a b w Hi Hw. rewrite (half_G 16 63), (half_G 32 24) by (try done; by rewrite length_half_at).
    unfold on_quad. by destruct (quad g i) as [[[p q] r] s]. }
  rewrite (HG 0%nat), (HG 1%nat), (HG 2%nat), (HG 3%nat) by (try lia; by rewrite ?length_half_at).
  rewrite (halves_commute 16 63 32 24 g 0 3), (halves_commute 16 63 32 24 g 0 2), (halves_commute 16 63 32 24 g 0 1)
    by (try lia; by rewrite ?length_half_at).
  rewrite (halves_commute 16 63 32 24 g 1 3), (halves_commute 16 63 32 24 g 1 2) by (try lia; by rewrite ?length_half_at).
  by rewrite (halves_commute 16 63 32 24 g 2 3) by (try lia; by rewrite ?length_half_at).
Qed.

(** The table has the indices of SIGMA in the order of the halves. *)
Definition interleave (s : list nat) : list nat :=
  (λ i, s !!! i) <$> [0; 2; 4; 6; 1; 3; 5; 7; 8; 10; 12; 14; 9; 11; 13; 15]%nat.

Lemma precomputed_sigma i : (i < 10)%nat → precomputed !!! i = interleave (RFC.SIGMA !!! i).
Proof. intros Hi. do 10 (destruct i as [| i]; [done |]). lia. Qed.

Lemma pieces_halves (H : Z → Z → nat → nat → nat → nat → Z → list Z → list Z) s m v :
  let x (i : nat) := m !!! (s !!! i) in
  sixteen_halves H s m v =
    on_quad (H 16 63) true 3 (x 15%nat) (on_quad (H 16 63) true 2 (x 14%nat) (on_quad (H 16 63) true 1 (x 13%nat) (on_quad (H 16 63) true 0 (x 12%nat)
    (on_quad (H 32 24) true 3 (x 11%nat) (on_quad (H 32 24) true 2 (x 10%nat) (on_quad (H 32 24) true 1 (x 9%nat) (on_quad (H 32 24) true 0 (x 8%nat)
    (on_quad (H 16 63) false 3 (x 7%nat) (on_quad (H 16 63) false 2 (x 6%nat) (on_quad (H 16 63) false 1 (x 5%nat) (on_quad (H 16 63) false 0 (x 4%nat)
    (on_quad (H 32 24) false 3 (x 3%nat) (on_quad (H 32 24) false 2 (x 2%nat) (on_quad (H 32 24) false 1 (x 1%nat) (on_quad (H 32 24) false 0 (x 0%nat) v))))))))))))))).
Proof. reflexivity. Qed.

Lemma pieces_mixes (G : nat → nat → nat → nat → Z → Z → list Z → list Z) s m v :
  let x (i : nat) := m !!! (interleave s !!! i) in
  RFC.eight_mixes G s m v =
    on_quad G true 3 (x 11%nat) (x 15%nat) (on_quad G true 2 (x 10%nat) (x 14%nat) (on_quad G true 1 (x 9%nat) (x 13%nat) (on_quad G true 0 (x 8%nat) (x 12%nat)
    (on_quad G false 3 (x 3%nat) (x 7%nat) (on_quad G false 2 (x 2%nat) (x 6%nat) (on_quad G false 1 (x 1%nat) (x 5%nat) (on_quad G false 0 (x 0%nat) (x 4%nat) v))))))).
Proof. reflexivity. Qed.

Lemma round_correct s m v : length v = 16%nat → round (interleave s) m v = RFC.round s m v.
Proof.
  intros Hv. unfold round, RFC.round. rewrite pieces_halves, pieces_mixes.
  rewrite (quads_G true (λ i, m !!! (interleave s !!! (8 + i)%nat))) by (by rewrite !length_half_at).
  by rewrite (quads_G false (λ i, m !!! (interleave s !!! i))).
Qed.

Lemma length_round s m v : length (round s m v) = length v.
Proof. unfold round. rewrite pieces_halves. by rewrite !length_half_at. Qed.

Lemma rounds_correct m n v :
  length v = 16%nat →
  foldl (λ v i, round (precomputed !!! (i mod 10)%nat) m v) v (seq 0 n) =
  foldl (λ v i, RFC.round (RFC.SIGMA !!! (i mod 10)%nat) m v) v (seq 0 n).
Proof.
  intros Hv. revert v Hv. generalize (seq 0 n). intros l. induction l as [| i l IH]; intros v Hv; [done |]. cbn [foldl].
  rewrite precomputed_sigma by (apply Nat.mod_upper_bound; lia). rewrite <- round_correct by done. apply IH. by rewrite length_round.
Qed.

(** The function of the code is that of the RFC. *)
Lemma F_correct h m c0 c1 final rounds :
  length h = 8%nat → F h m c0 c1 final rounds = RFC.F h m c0 c1 final rounds.
Proof.
  intros Hh. unfold F, fGeneric, RFC.F. cbv zeta.
  assert (Ei : initial h c0 c1 (if final then 0xFFFFFFFFFFFFFFFF else 0) =
    let v := h ++ iv in
    let v := RFC.set 12 (Z.lxor (v !!! 12%nat) c0) v in
    let v := RFC.set 13 (Z.lxor (v !!! 13%nat) c1) v in
    if final then RFC.set 14 (Z.lxor (v !!! 14%nat) (2 ^ 64 - 1)) v else v).
  { do 8 (destruct h as [| ? h]; [discriminate Hh |]). destruct h; [| discriminate Hh]. by destruct final. }
  cbv zeta in Ei. rewrite <- Ei. rewrite <- rounds_correct by (unfold initial; rewrite length_app, Hh; done).
  unfold finalize. apply imap_ext. intros i x _. by rewrite Z.lxor_assoc.
Qed.

(** The vector of RFC 7693, appendix A. *)
Lemma F_abc :
  F [0x6a09e667f2bdc948; 0xbb67ae8584caa73b; 0x3c6ef372fe94f82b; 0xa54ff53a5f1d36f1;
     0x510e527fade682d1; 0x9b05688c2b3e6c1f; 0x1f83d9abfb41bd6b; 0x5be0cd19137e2179]
    (0x636261 :: replicate 15 0) 3 0 true 12 =
  [0x0D4D1C983FA580BA; 0xE9F6129FB697276A; 0xB7C45A68142F214C; 0xD1A2FFDB6FBB124B;
   0x2D79AB2A39C5877D; 0x95CC3345DED552C2; 0x5A92F1DBA88AD318; 0x239900D4ED8623B9].
Proof. vm_compute. reflexivity. Qed.
