(* ===== verification/Sha256.v ===== *)
(** [sha256.Sum256] of Go's standard library, as FIPS 180-4 defines it. *)

From S2P Require Import Prelude.

Definition rotr32 (n x : Z) : Z := Z.lor (Z.shiftr x n) (u32 (Z.shiftl x (32 - n))).

Definition Ch (x y z : Z) : Z := Z.lxor (Z.land x y) (Z.land (0xFFFFFFFF - x) z).
Definition Maj (x y z : Z) : Z := Z.lxor (Z.lxor (Z.land x y) (Z.land x z)) (Z.land y z).
Definition Sigma0 (x : Z) : Z := Z.lxor (Z.lxor (rotr32 2 x) (rotr32 13 x)) (rotr32 22 x).
Definition Sigma1 (x : Z) : Z := Z.lxor (Z.lxor (rotr32 6 x) (rotr32 11 x)) (rotr32 25 x).
Definition sigma0 (x : Z) : Z := Z.lxor (Z.lxor (rotr32 7 x) (rotr32 18 x)) (Z.shiftr x 3).
Definition sigma1 (x : Z) : Z := Z.lxor (Z.lxor (rotr32 17 x) (rotr32 19 x)) (Z.shiftr x 10).

(** The constants of the standard are the first 32 bits of the fractional parts of
    the cube roots of the first 64 primes, and of the square roots of the first
    eight for the initial value. *)

Definition prime (n : nat) : bool := (2 <=? n)%nat && forallb (λ d, negb (n mod d =? 0)%nat) (seq 2 (n - 2)).

Definition primes (count : nat) : list Z := Z.of_nat <$> take count (List.filter prime (seq 0 312)).

(** The largest [r] below [2 ^ bits + base] with [r ^ 3 <= n], bit by bit. *)
Fixpoint cube_root (bits : nat) (base n : Z) : Z :=
  match bits with
  | O => base
  | S bits => let r := base + 2 ^ Z.of_nat bits in cube_root bits (if r ^ 3 <=? n then r else base) n
  end.

Definition K : list Z := Eval vm_compute in (λ p, u32 (cube_root 36 0 (Z.shiftl p 96))) <$> primes 64.

Definition H0 : list Z := Eval vm_compute in (λ p, u32 (Z.sqrt (Z.shiftl p 64))) <$> primes 8.

(** The schedule, the last word first. *)
Fixpoint schedule (n : nat) (w : list Z) : list Z :=
  match n with
  | O => w
  | S n => schedule n (u32 (sigma1 (w !!! 1%nat) + w !!! 6%nat + sigma0 (w !!! 14%nat) + w !!! 15%nat) :: w)
  end.

Definition words_of (block : list byte) : list Z := reverse (schedule 48 (reverse (be_val <$> pieces 4 16 block))).

Definition round (s : list Z) (kw : Z * Z) : list Z :=
  match s with
  | [a; b; c; d; e; f; g; h] =>
      let t1 := h + Sigma1 e + Ch e f g + kw.1 + kw.2 in
      let t2 := Sigma0 a + Maj a b c in
      [u32 (t1 + t2); a; b; c; u32 (d + t1); e; f; g]
  | _ => s
  end.

Definition compress (h : list Z) (block : list byte) : list Z :=
  zip_with (λ x y, u32 (x + y)) h (foldl round h (zip K (words_of block))).

Definition padded (m : list byte) : list byte :=
  m ++ [Byte.x80] ++ replicate (Z.to_nat ((55 - len m) mod 64)) Byte.x00 ++ be 8 (8 * len m).

Definition Sum256 (m : list byte) : list byte :=
  let p := padded m in
  concat (be 4 <$> foldl compress H0 (pieces 64 (length p / 64) p)).

Lemma length_sha_round s kw : length (round s kw) = length s.
Proof. unfold round. by repeat (destruct s as [| ? s]; try done). Qed.

Lemma length_compress h block : length (compress h block) = length h.
Proof.
  unfold compress. rewrite length_zip_with.
  assert (H : ∀ l s, length (foldl round s l) = length s) by (induction l as [| x l IH]; intros s; cbn; [done |]; by rewrite IH, length_sha_round).
  rewrite H. lia.
Qed.

Lemma length_Sum256 m : length (Sum256 m) = 32%nat.
Proof.
  unfold Sum256. cbv zeta. generalize (pieces 64 (length (padded m) / 64) (padded m)). intros l.
  assert (H : ∀ h, length h = 8%nat → length (foldl compress h l) = 8%nat)
    by (induction l as [| b l IH]; intros h Hh; cbn; [done | apply IH; by rewrite length_compress]).
  specialize (H H0 eq_refl). generalize dependent (foldl compress H0 l). intros h Hh. rewrite length_concat.
  do 8 (destruct h as [| ? h]; [done |]). destruct h; [| done]. cbn -[be]. by rewrite !length_be.
Qed.

(** The empty message, and the examples of FIPS 180-4. *)
Lemma Sum256_empty : be_val (Sum256 []) = 0xe3b0c44298fc1c149afbf4c8996fb92427ae41e4649b934ca495991b7852b855.
Proof. vm_compute. reflexivity. Qed.

Lemma Sum256_abc : be_val (Sum256 (list_byte_of_string "abc")) = 0xba7816bf8f01cfea414140de5dae2223b00361a396177a9cb410ff61f20015ad.
Proof. vm_compute. reflexivity. Qed.

Lemma Sum256_two_blocks :
  be_val (Sum256 (list_byte_of_string "abcdbcdecdefdefgefghfghighijhijkijkljklmklmnlmnomnopnopq")) =
    0x248d6a61d20638b8e5c026930c3e6039a33ce45964ff2167f6ecedd419db06c1.
Proof. vm_compute. reflexivity. Qed.
