(* ===== verification/EvmCommon.v ===== *)
(** The machine of the EVM: 256-bit words (src/l2geth/common/math), the stack,
    the memory and the contract of a frame (src/l2geth/core/vm/stack.go,
    memory.go, contract.go) and the helpers of src/l2geth/core/vm/common.go.

    Words are integers; the instructions keep them between 0 and 2^256.  The
    head of a stack is its top.  The pool of integers is not observable. *)

From S2P Require Import Prelude Rlp TxMeta Transaction BigFloat Fees StateDB.

(** ** Words *)

Definition tt255 : Z := 2 ^ 255.
Definition tt256 : Z := 2 ^ 256.
Definition tt256m1 : Z := tt256 - 1.

Definition U256 (x : Z) : Z := Z.land x tt256m1.

Definition S256 (x : Z) : Z := if x <? tt255 then x else x - tt256.

(** [Bits]: the 64-bit words, the lowest first. *)
Fixpoint words (n : nat) (x : Z) : list Z :=
  match n with O => [] | S n => u64 x :: words n (Z.shiftr x 64) end.

Definition big_Bits (x : Z) : list Z := words (Z.to_nat ((BitLen x + 63) / 64)) (Z.abs x).

(** The bits of one word, the lowest first; the pair is the result and the base. *)
Fixpoint exp_word (n : nat) (word : Z) (acc : Z * Z) : Z * Z :=
  match n with
  | O => acc
  | S n =>
      let '(result, base) := acc in
      let result := if Z.land word 1 =? 1 then U256 (result * base) else result in
      exp_word n (Z.shiftr word 1) (result, U256 (base * base))
  end.

Definition Exp (base exponent : Z) : Z :=
  (foldl (λ acc word, exp_word 64 word acc) (1, base) (big_Bits exponent)).1.

Definition bigEndianByteAt (x : Z) (n : Z) : Z :=
  let ws := big_Bits x in
  match ws !! Z.to_nat (n / 8) with
  | None => 0
  | Some word => u8 (Z.shiftr word (8 * (n mod 8)))
  end.

Definition math_Byte (x padlength n : Z) : Z :=
  if padlength <=? n then 0 else bigEndianByteAt x (padlength - 1 - n).

(** Results with their overflow flags. *)
Definition SafeAdd (x y : Z) : Z * bool := (u64 (x + y), max_uint64 - x <? y).

Definition SafeMul (x y : Z) : Z * bool :=
  if (x =? 0) || (y =? 0) then (0, false) else (u64 (x * y), max_uint64 / x <? y).

Definition IsUint64 (x : Z) : bool := (0 <=? x) && (x <? 2 ^ 64).

Definition bigUint64 (v : Z) : Z * bool := (big_Uint64 v, negb (IsUint64 v)).

Definition big_Int64 (x : Z) : Z := to_int64 (if x <? 0 then - big_Uint64 x else big_Uint64 x).

Definition toWordSize (size : Z) : Z :=
  if max_uint64 - 31 <? size then max_uint64 / 32 + 1 else (size + 31) / 32.

Definition calcMemSize64WithUint (off length64 : Z) : Z * bool :=
  if length64 =? 0 then (0, false)
  else if negb (IsUint64 off) then (0, true)
  else
    let offset64 := big_Uint64 off in
    let val := u64 (offset64 + length64) in
    (val, val <? offset64).

Definition calcMemSize64 (off l : Z) : Z * bool :=
  if negb (IsUint64 l) then (0, true) else calcMemSize64WithUint off (big_Uint64 l).

Definition RightPadBytes (b : list byte) (l : Z) : list byte :=
  if l <=? len b then b else b ++ replicate (Z.to_nat (l - len b)) Byte.x00.

Definition getDataBig (d : list byte) (start size : Z) : outcome (list byte) :=
  let dlen := len d in
  let s := Z.min start dlen in
  let e := Z.min (s + size) dlen in
  b ← slice d (big_Uint64 s) (big_Uint64 e);
  mret (RightPadBytes b (to_int64 (big_Uint64 size))).

(** ** Chain rules and the context of a block *)

Record Rules := {
  IsHomestead : bool; IsEIP150 : bool; IsEIP158 : bool; IsByzantium : bool; IsConstantinople : bool;
  IsPetersburg : bool; IsIstanbul : bool; IsBerlin : bool; IsSDUpdate : bool;
}.

(** What [Context], [ChainConfig] and [Config] give to the instructions. *)
Record BlockContext := {
  GetHash : Z → list byte;
  Origin : address;
  GasPrice : Z;
  Coinbase : address;
  GasLimit : Z;
  BlockNumber : Z;
  Time : Z;
  Difficulty : Z;
  L1BlockNumber : Z;
  ChainID : Z;
  NoRecursion : bool;
  EnablePreimageRecording : bool;
}.

(** ** Contracts *)

(** The analysis of jump destinations is cached by code hash in the source; it
    is computed from the code here. *)
Record Contract := {
  CallerAddress : address;
  c_self : address;
  c_Code : list byte;
  c_CodeAddr : address;
  c_value : Z;
  c_Gas : Z;
}.

Definition NewContract (caller object : address) (value gas : Z) (addr : address) (code : list byte) : Contract :=
  {| CallerAddress := caller; c_self := object; c_Code := code; c_CodeAddr := addr; c_value := value; c_Gas := gas |}.

Definition AsDelegate (parent c : Contract) : Contract :=
  {| CallerAddress := CallerAddress parent; c_self := c_self c; c_Code := c_Code c; c_CodeAddr := c_CodeAddr c;
     c_value := c_value parent; c_Gas := c_Gas c |}.

Definition GetByte (c : Contract) (n : Z) : Z :=
  if n <? len (c_Code c) then match c_Code c !! Z.to_nat n with Some b => b2z b | None => 0 end else 0.

Abbreviation GetOp := GetByte.

(** ** The state of the EVM and of a frame *)

(** The fields of [EVM] and [EVMInterpreter] that change. *)
Record EVM := {
  evm_StateDB : StateDB;
  depth : Z;
  callGasTemp : Z;
  readOnly : bool;
  returnData : list byte;
}.

Record Frame := {
  pc : Z;
  f_stack : list Z;
  f_store : list byte;
  lastGasCost : Z;
  f_Gas : Z;
  f_evm : EVM;
}.

Definition set_StateDB (s : StateDB) (e : EVM) : EVM :=
  {| evm_StateDB := s; depth := depth e; callGasTemp := callGasTemp e; readOnly := readOnly e; returnData := returnData e |}.

Definition set_depth (d : Z) (e : EVM) : EVM :=
  {| evm_StateDB := evm_StateDB e; depth := d; callGasTemp := callGasTemp e; readOnly := readOnly e; returnData := returnData e |}.

Definition set_callGasTemp (g : Z) (e : EVM) : EVM :=
  {| evm_StateDB := evm_StateDB e; depth := depth e; callGasTemp := g; readOnly := readOnly e; returnData := returnData e |}.

Definition set_readOnly (b : bool) (e : EVM) : EVM :=
  {| evm_StateDB := evm_StateDB e; depth := depth e; callGasTemp := callGasTemp e; readOnly := b; returnData := returnData e |}.

Definition set_returnData (r : list byte) (e : EVM) : EVM :=
  {| evm_StateDB := evm_StateDB e; depth := depth e; callGasTemp := callGasTemp e; readOnly := readOnly e; returnData := r |}.

Definition set_pc (z : Z) (f : Frame) : Frame :=
  {| pc := z; f_stack := f_stack f; f_store := f_store f; lastGasCost := lastGasCost f; f_Gas := f_Gas f; f_evm := f_evm f |}.

Definition set_stack (l : list Z) (f : Frame) : Frame :=
  {| pc := pc f; f_stack := l; f_store := f_store f; lastGasCost := lastGasCost f; f_Gas := f_Gas f; f_evm := f_evm f |}.

Definition set_store (m : list byte) (f : Frame) : Frame :=
  {| pc := pc f; f_stack := f_stack f; f_store := m; lastGasCost := lastGasCost f; f_Gas := f_Gas f; f_evm := f_evm f |}.

Definition set_lastGasCost (z : Z) (f : Frame) : Frame :=
  {| pc := pc f; f_stack := f_stack f; f_store := f_store f; lastGasCost := z; f_Gas := f_Gas f; f_evm := f_evm f |}.

Definition set_Gas (g : Z) (f : Frame) : Frame :=
  {| pc := pc f; f_stack := f_stack f; f_store := f_store f; lastGasCost := lastGasCost f; f_Gas := g; f_evm := f_evm f |}.

Definition set_evm (e : EVM) (f : Frame) : Frame :=
  {| pc := pc f; f_stack := f_stack f; f_store := f_store f; lastGasCost := lastGasCost f; f_Gas := f_Gas f; f_evm := e |}.

Abbreviation exec := (st Frame).

Definition get_state : exec StateDB := st_gets (λ f, evm_StateDB (f_evm f)).

Definition modify_evm (g : EVM → EVM) : exec () := st_modify (λ f, set_evm (g (f_evm f)) f).

Definition put_state (s : StateDB) : exec () := modify_evm (set_StateDB s).

Definition modify_state (g : StateDB → StateDB) : exec () := s ← get_state; put_state (g s).

(** ** The stack *)

Definition out_of_range {A} : exec A := st_panic "index out of range".

Definition pop : exec Z := λ f,
  match f_stack f with
  | [] => out_of_range f
  | x :: l => (Ok x, set_stack l f)
  end.

Definition push (x : Z) : exec () := st_modify (λ f, set_stack (x :: f_stack f) f).

Definition Back (n : nat) : exec Z := λ f,
  match f_stack f !! n with
  | None => out_of_range f
  | Some x => (Ok x, f)
  end.

Definition peek : exec Z := Back 0.

Definition dup (n : nat) : exec () := x ← Back (n - 1); push x.

(** Exchanges the top with the [n]th item. *)
Definition swap (n : nat) : exec () :=
  x ← Back (n - 1);
  top ← Back 0;
  st_modify (λ f, set_stack (<[0%nat := x]> (<[(n - 1)%nat := top]> (f_stack f))) f).

(** ** Memory *)

Definition mem_Len : exec Z := st_gets (λ f, len (f_store f)).

Definition mem_Resize (size : Z) : exec () :=
  st_modify (λ f, if len (f_store f) <? size
                  then set_store (f_store f ++ replicate (Z.to_nat (size - len (f_store f))) Byte.x00) f else f).

(** [copy(dst[a:b], src)]: the shorter of the two. *)
Definition copy_into (l : list byte) (a b : Z) (src : list byte) : list byte :=
  splice l (Z.to_nat a) (take (Z.to_nat (b - a)) src).

Definition mem_Set (offset size : Z) (value : list byte) : exec () :=
  if 0 <? size then
    store ← st_gets f_store;
    if len store <? u64 (offset + size) then st_panic "invalid memory: store empty"
    else
      _ ← st_lift (slice store offset (u64 (offset + size)));
      st_modify (set_store (copy_into store offset (u64 (offset + size)) value))
  else mret tt.

Definition mem_Set32 (offset : Z) (val : Z) : exec () :=
  store ← st_gets f_store;
  if len store <? u64 (offset + 32) then st_panic "invalid memory: store empty"
  else
    _ ← st_lift (slice store offset (u64 (offset + 32)));
    st_modify (set_store (copy_into store offset (u64 (offset + 32)) (be 32 (Z.abs val)))).

(** [GetCopy] and [GetPtr]: nothing aliases the slice while it is used. *)
Definition mem_Get (offset size : Z) : exec (list byte) :=
  if size =? 0 then mret []
  else
    store ← st_gets f_store;
    if offset <? len store then st_lift (slice store offset (to_int64 (offset + size))) else mret [].

Definition mem_GetCopy : Z → Z → exec (list byte) := mem_Get.
Definition mem_GetPtr : Z → Z → exec (list byte) := mem_Get.

(** ** Gas *)

Definition UseGas (gas : Z) : exec bool := λ f,
  if f_Gas f <? gas then (Ok false, f) else (Ok true, set_Gas (f_Gas f - gas) f).
