(* ===== verification/EvmCalls.v ===== *)
(** Calls and creations: src/l2geth/core/vm/evm.go with the transfers of
    src/l2geth/core/evm.go.

    [run] executes a contract: it returns data, the gas that is left, an error
    and the machine.  Tracing is not modelled. *)

From S2P Require Import Prelude Rlp TxMeta Transaction BigFloat Fees StateDB EvmCommon.

(** ** Errors *)

Definition vm_ErrOutOfGas : error := ErrVar "vm.ErrOutOfGas" "out of gas".
Definition ErrCodeStoreOutOfGas : error := ErrVar "vm.ErrCodeStoreOutOfGas" "contract creation code storage out of gas".
Definition ErrDepth : error := ErrVar "vm.ErrDepth" "max call depth exceeded".
Definition ErrInsufficientBalance : error := ErrVar "vm.ErrInsufficientBalance" "insufficient balance for transfer".
Definition ErrContractAddressCollision : error := ErrVar "vm.ErrContractAddressCollision" "contract address collision".
Definition ErrNonceUintOverflow : error := ErrVar "vm.ErrNonceUintOverflow" "nonce uint64 overflow".
Definition errExecutionReverted : error := ErrVar "vm.errExecutionReverted" "evm: execution reverted".
Definition errMaxCodeSizeExceeded : error := ErrVar "vm.errMaxCodeSizeExceeded" "evm: max code size exceeded".

Definition BvmRollbackAddress : address := be 20 0xDeadDeAddeAddEAddeadDEaDDEAdDeaDDeAD2222.

Definition CreateDataGas : Z := 200.
Definition CallCreateDepth : Z := 1024.
Definition MaxCodeSize : Z := 2457600.

(** What a call returns: data, the gas that is left, an error, the machine. *)
Definition result : Type := list byte * Z * option error * EVM.

Section Calls.
  Context (Keccak256 : list byte → list byte) (ContractCode : list byte → list byte).
  Context (run : Contract → list byte → bool → EVM → outcome result).
  Context (rules : Rules) (precompiles : list address) (noRecursion : bool).

Abbreviation GetBalance := (StateDB.GetBalance Keccak256).
Abbreviation AddBalance := (StateDB.AddBalance Keccak256).
Abbreviation SubBalance := (StateDB.SubBalance Keccak256).
Abbreviation SetNonce := (StateDB.SetNonce Keccak256).
Abbreviation CreateAccount := (StateDB.CreateAccount Keccak256).
Abbreviation GetCode := (StateDB.GetCode Keccak256 ContractCode).

(** ** Transfers *)

Definition CanTransfer (s : StateDB) (a : address) (amount : Z) : bool := amount <=? GetBalance a s.

Definition Transfer (sender recipient : address) (amount : Z) (s : StateDB) : StateDB :=
  AddBalance recipient amount (SubBalance sender amount s).

(** ** Calls *)

(** What is left of the gas after an error. *)
Definition gas_after (err : error) (gas : Z) : Z := if bool_decide (err = errExecutionReverted) then gas else 0.

(** Runs a contract, and reverts to the snapshot when it fails. *)
Definition run_reverting (snapshot : Z) (c : Contract) (input : list byte) (ro : bool) (e : EVM) : outcome result :=
  '(ret, gas, err, e) ← run c input ro e;
  match err with
  | None => mret (ret, gas, None, e)
  | Some err =>
      s ← RevertToSnapshot snapshot (evm_StateDB e);
      mret (ret, gas_after err gas, Some err, set_StateDB s e)
  end.

Definition evm_Call (caller addr : address) (input : list byte) (gas value : Z) (e : EVM) : outcome result :=
  if bool_decide (addr = BvmRollbackAddress) then Ok ([], 0, None, e)
  else if noRecursion && (0 <? depth e) then Ok ([], gas, None, e)
  else if CallCreateDepth <? depth e then Ok ([], gas, Some ErrDepth, e)
  else if negb (CanTransfer (evm_StateDB e) caller value) then Ok ([], gas, Some ErrInsufficientBalance, e)
  else
    let '(snapshot, s) := Snapshot (evm_StateDB e) in
    if negb (Exist addr s) && negb (bool_decide (addr ∈ precompiles)) && IsEIP158 rules && (value =? 0)
    then Ok ([], gas, None, set_StateDB s e)
    else
      let s := if Exist addr s then s else CreateAccount addr s in
      let s := Transfer caller addr value s in
      run_reverting snapshot (NewContract caller addr value gas addr (GetCode addr s)) input false (set_StateDB s e).

Definition evm_CallCode (caller addr : address) (input : list byte) (gas value : Z) (e : EVM) : outcome result :=
  if noRecursion && (0 <? depth e) then Ok ([], gas, None, e)
  else if CallCreateDepth <? depth e then Ok ([], gas, Some ErrDepth, e)
  else if negb (CanTransfer (evm_StateDB e) caller value) then Ok ([], gas, Some ErrInsufficientBalance, e)
  else
    let '(snapshot, s) := Snapshot (evm_StateDB e) in
    run_reverting snapshot (NewContract caller caller value gas addr (GetCode addr s)) input false (set_StateDB s e).

(** The caller is a contract, whose own caller and value stay. *)
Definition evm_DelegateCall (caller : Contract) (addr : address) (input : list byte) (gas : Z) (e : EVM) : outcome result :=
  if noRecursion && (0 <? depth e) then Ok ([], gas, None, e)
  else if CallCreateDepth <? depth e then Ok ([], gas, Some ErrDepth, e)
  else
    let '(snapshot, s) := Snapshot (evm_StateDB e) in
    let c := NewContract (c_self caller) (c_self caller) 0 gas addr (GetCode addr s) in
    run_reverting snapshot (AsDelegate caller c) input false (set_StateDB s e).

Definition evm_StaticCall (caller addr : address) (input : list byte) (gas : Z) (e : EVM) : outcome result :=
  if noRecursion && (0 <? depth e) then Ok ([], gas, None, e)
  else if CallCreateDepth <? depth e then Ok ([], gas, Some ErrDepth, e)
  else
    let '(snapshot, s) := Snapshot (evm_StateDB e) in
    let c := NewContract caller addr 0 gas addr (GetCode addr s) in
    run_reverting snapshot c input true (set_StateDB (AddBalance addr 0 s) e).

(** ** Creation *)

(** The gas for the code and its storage, after a run without an error. *)
Definition store_code (addr : address) (ret : list byte) (gas : Z) (s : StateDB) : Z * option error * StateDB :=
  let createDataGas := u64 (u64 (len ret) * CreateDataGas) in
  if createDataGas <=? gas then (gas - createDataGas, None, SetCode Keccak256 ContractCode addr ret s)
  else (gas, Some ErrCodeStoreOutOfGas, s).

(** The part of [create] after the contract has run. *)
Definition create_finish (addr : address) (snapshot : Z) (ret : list byte) (gas : Z) (err : option error) (s : StateDB)
    : outcome (list byte * Z * option error * StateDB) :=
  let maxCodeSizeExceeded := IsEIP158 rules && (MaxCodeSize <? len ret) in
  let '(gas, err, s) :=
    if bool_decide (err = None) && negb maxCodeSizeExceeded then store_code addr ret gas s else (gas, err, s) in
  let reverts := maxCodeSizeExceeded ||
    match err with None => false | Some e => IsHomestead rules || negb (bool_decide (e = ErrCodeStoreOutOfGas)) end in
  '(gas, s) ← (if reverts then
                 s ← RevertToSnapshot snapshot s;
                 mret (match err with Some e => gas_after e gas | None => 0 end, s)
               else mret (gas, s));
  mret (ret, gas, match err with None => if maxCodeSizeExceeded then Some errMaxCodeSizeExceeded else None | e => e end, s).

(** The state in which the code of a new contract runs. *)
Definition create_state (caller addr : address) (value : Z) (s : StateDB) : StateDB :=
  let s := CreateAccount addr s in
  let s := if IsEIP158 rules then SetNonce addr 1 s else s in
  Transfer caller addr value s.

(** The result with the address of the contract, which is zero for an error
    before the contract is set up. *)
Definition evm_create (caller : address) (code : list byte) (gas value : Z) (addr : address) (e : EVM)
    : outcome (result * address) :=
  let zero := replicate 20 Byte.x00 in
  if CallCreateDepth <? depth e then Ok ([], gas, Some ErrDepth, e, zero)
  else if negb (CanTransfer (evm_StateDB e) caller value) then Ok ([], gas, Some ErrInsufficientBalance, e, zero)
  else
    let s := evm_StateDB e in
    let nonce := GetNonce caller s in
    if u64 (nonce + 1) <? nonce then Ok ([], gas, Some ErrNonceUintOverflow, e, zero)
    else
      let s := SetNonce caller (u64 (nonce + 1)) s in
      let s := if IsBerlin rules then AddAddressToAccessList addr s else s in
      let contractHash := GetCodeHash addr s in
      if negb (GetNonce addr s =? 0) ||
         (negb (bool_decide (contractHash = replicate 32 Byte.x00)) &&
          negb (bool_decide (contractHash = emptyCodeHash Keccak256)))
      then Ok ([], 0, Some ErrContractAddressCollision, set_StateDB s e, zero)
      else
        let '(snapshot, s) := Snapshot s in
        let e := set_StateDB (create_state caller addr value s) e in
        if noRecursion && (0 <? depth e) then Ok ([], gas, None, e, addr)
        else
          '(ret, gas, err, e) ← run (NewContract caller addr value gas addr code) [] false e;
          '(ret, gas, err, s) ← create_finish addr snapshot ret gas err (evm_StateDB e);
          mret (ret, gas, err, set_StateDB s e, addr).

(** The address hashes the RLP of the caller and its nonce. *)
Definition CreateAddress (b : address) (nonce : Z) : address :=
  drop 12 (Keccak256 (rlp (Lst [Str b; Str (big_Bytes nonce)]))).

Definition CreateAddress2 (b : address) (salt : Z) (inithash : list byte) : address :=
  drop 12 (Keccak256 ([Byte.xff] ++ b ++ be 32 salt ++ inithash)).

Definition evm_Create (caller : address) (code : list byte) (gas value : Z) (e : EVM) : outcome (result * address) :=
  evm_create caller code gas value (CreateAddress caller (GetNonce caller (evm_StateDB e))) e.

Definition evm_Create2 (caller : address) (code : list byte) (gas endowment salt : Z) (e : EVM)
    : outcome (result * address) :=
  evm_create caller code gas endowment (CreateAddress2 caller (BigToHash salt) (Keccak256 code)) e.

End Calls.
