(* ===== verification/EvmAnalysis.v ===== *)
(** The analysis of jump destinations, src/l2geth/core/vm/analysis.go and
    [validJumpdest] of src/l2geth/core/vm/contract.go, and its correctness: a
    destination is valid exactly when an instruction [JUMPDEST] starts there. *)

From S2P Require Import Prelude Transaction.

Definition PUSH1 : Z := 0x60.
Definition PUSH32 : Z := 0x7f.
Definition JUMPDEST : Z := 0x5b.

(** ** The bit vector *)

Definition or_at (i : Z) (v : Z) (bits : list byte) : outcome (list byte) :=
  match bits !! Z.to_nat i with
  | None => Panic "index out of range"
  | Some b => Ok (<[Z.to_nat i := z2b (Z.lor (b2z b) v)]> bits)
  end.

Definition bits_set (pos : Z) (bits : list byte) : outcome (list byte) :=
  or_at (pos / 8) (Z.shiftr 0x80 (pos mod 8)) bits.

(** The complement is that of a byte. *)
Definition bits_set8 (pos : Z) (bits : list byte) : outcome (list byte) :=
  bits ← or_at (pos / 8) (Z.shiftr 0xFF (pos mod 8)) bits;
  or_at (pos / 8 + 1) (0xFF - Z.shiftr 0xFF (pos mod 8)) bits.

Definition codeSegment (pos : Z) (bits : list byte) : outcome bool :=
  match bits !! Z.to_nat (pos / 8) with
  | None => Panic "index out of range"
  | Some b => Ok (Z.land (b2z b) (Z.shiftr 0x80 (pos mod 8)) =? 0)
  end.

(** The two loops over the data of a push. *)
Fixpoint set8s (n : nat) (pc : Z) (bits : list byte) : outcome (Z * list byte) :=
  match n with
  | O => Ok (pc, bits)
  | S n => bits ← bits_set8 pc bits; set8s n (pc + 8) bits
  end.

Fixpoint sets (n : nat) (pc : Z) (bits : list byte) : outcome (Z * list byte) :=
  match n with
  | O => Ok (pc, bits)
  | S n => bits ← bits_set pc bits; sets n (pc + 1) bits
  end.

Definition mark_push (numbits pc : Z) (bits : list byte) : outcome (Z * list byte) :=
  '(pc, bits) ← set8s (Z.to_nat (numbits / 8)) pc bits;
  sets (Z.to_nat (numbits mod 8)) pc bits.

(** An instruction has at least one byte, so the length of the code bounds the rounds. *)
Fixpoint codeBitmap_loop (fuel : nat) (code : list byte) (pc : Z) (bits : list byte) : outcome (list byte) :=
  match code !! Z.to_nat pc, fuel with
  | None, _ => Ok bits
  | Some _, O => Panic "out of fuel"
  | Some b, S fuel =>
      let op := b2z b in
      if (PUSH1 <=? op) && (op <=? PUSH32) then
        '(pc, bits) ← mark_push (op - PUSH1 + 1) (pc + 1) bits;
        codeBitmap_loop fuel code pc bits
      else codeBitmap_loop fuel code (pc + 1) bits
  end.

Definition codeBitmap (code : list byte) : outcome (list byte) :=
  codeBitmap_loop (length code) code 0 (replicate (length code / 8 + 1 + 4) Byte.x00).

Definition validJumpdest (code : list byte) (dest : Z) : outcome bool :=
  let udest := big_Uint64 dest in
  if (63 <=? BitLen dest) || (len code <=? udest) then Ok false
  else
    match code !! Z.to_nat udest with
    | None => Panic "index out of range"
    | Some b =>
        if negb (b2z b =? JUMPDEST) then Ok false
        else bits ← codeBitmap code; codeSegment udest bits
    end.

(** ** Where instructions start *)

Definition push_size (op : Z) : Z := if (PUSH1 <=? op) && (op <=? PUSH32) then op - PUSH1 + 1 else 0.

Definition next_instr (code : list byte) (p : Z) : Z :=
  match code !! Z.to_nat p with Some b => p + 1 + push_size (b2z b) | None => p + 1 end.

Definition starts (code : list byte) (p : Z) : Prop := ∃ n, Nat.iter n (next_instr code) 0 = p.

Lemma push_size_range op : 0 <= push_size op <= 32.
Proof. unfold push_size, PUSH1, PUSH32. destruct (Z.leb_spec 0x60 op), (Z.leb_spec op 0x7f); cbn; lia. Qed.

Lemma next_instr_gt code p : p < next_instr code p.
Proof. unfold next_instr. destruct (code !! _) as [b |]; [pose proof (push_size_range (b2z b)) |]; lia. Qed.

Lemma starts_next code p : starts code p → starts code (next_instr code p).
Proof. intros [n <-]. by exists (S n). Qed.

Lemma starts_nonneg code p : starts code p → 0 <= p.
Proof.
  intros [n <-]. induction n as [| n IH]; [done |].
  change (0 <= next_instr code (Nat.iter n (next_instr code) 0)).
  pose proof (next_instr_gt code (Nat.iter n (next_instr code) 0)). lia.
Qed.

(** Nothing starts inside an instruction. *)
Lemma starts_gap code p k : starts code p → p < k < next_instr code p → ¬ starts code k.
Proof.
  intros [n <-] Hk [m <-]. set (pos n := Nat.iter n (next_instr code) 0).
  assert (Hmono : ∀ a b, (a < b)%nat → pos (S a) <= pos b).
  { intros a b Hab. induction Hab as [| b Hab IH]; [done |]. etrans; [apply IH |].
    change (pos (S b)) with (next_instr code (pos b)). pose proof (next_instr_gt code (pos b)). lia. }
  change (next_instr code (Nat.iter n _ 0)) with (pos (S n)) in Hk. fold (pos n) (pos m) in Hk.
  destruct (decide (n < m)%nat) as [Hlt | Hge]; [specialize (Hmono _ _ Hlt); lia |].
  destruct (decide (m = n)) as [-> | Hne]; [lia |]. specialize (Hmono m n ltac:(lia)).
  pose proof (next_instr_gt code (pos m)). change (pos (S m)) with (next_instr code (pos m)) in Hmono. lia.
Qed.

(** ** Bits of the vector *)

(** Bit [k] of the vector: the highest bit of a byte is the first. *)
Definition bit (bits : list byte) (k : Z) : bool :=
  match bits !! Z.to_nat (k / 8) with
  | Some b => Z.testbit (b2z b) (7 - k mod 8)
  | None => false
  end.

(** The masks, bit by bit. *)
Definition mask_ok (r m : Z) : Prop :=
  Z.testbit (Z.shiftr 0x80 r) (7 - m) = (m =? r) ∧ 0 <= Z.shiftr 0x80 r < 256 ∧
  Z.testbit (Z.shiftr 0xFF r) (7 - m) = (r <=? m) ∧ 0 <= Z.shiftr 0xFF r < 256 ∧
  Z.testbit (0xFF - Z.shiftr 0xFF r) (7 - m) = (m <? r) ∧ 0 <= 0xFF - Z.shiftr 0xFF r < 256.

#[local] Instance mask_ok_dec r m : Decision (mask_ok r m).
Proof. unfold mask_ok. apply _. Defined.

Lemma mask_bits r m : 0 <= r < 8 → 0 <= m < 8 → mask_ok r m.
Proof.
  intros Hr Hm. assert (H : Forall (λ r, Forall (mask_ok r) (seqZ 0 8)) (seqZ 0 8)) by (apply (bool_decide_unpack _); by vm_compute).
  rewrite Forall_forall in H. assert (Hr' : r ∈ seqZ 0 8) by (rewrite elem_of_seqZ; lia).
  specialize (H r Hr'). rewrite Forall_forall in H. apply H. rewrite elem_of_seqZ. lia.
Qed.

Lemma testbit_z2b_lor b v j : 0 <= v < 256 → 0 <= j < 8 → Z.testbit (b2z (z2b (Z.lor (b2z b) v))) j = Z.testbit (b2z b) j || Z.testbit v j.
Proof.
  intros Hv Hj. rewrite b2z_z2b. change 256 with (2 ^ 8). rewrite Z.mod_pow2_bits_low by lia. apply Z.lor_spec.
Qed.

(** Setting bits of one byte. *)
Lemma or_at_bits i v bits :
  0 <= i < len bits → 0 <= v < 256 →
  ∃ bits', or_at i v bits = Ok bits' ∧ length bits' = length bits ∧
    ∀ k, 0 <= k → bit bits' k = bit bits k || ((k / 8 =? i) && Z.testbit v (7 - k mod 8)).
Proof.
  intros Hi Hv. unfold or_at, len in *.
  destruct (lookup_lt_is_Some_2 bits (Z.to_nat i)) as [b Eb]; [lia |]. rewrite Eb. eexists. split; [done |].
  split; [by rewrite length_insert |]. intros k Hk. unfold bit. pose proof (Z.div_pos k 8 Hk ltac:(lia)).
  destruct (Z.eqb_spec (k / 8) i) as [<- | Hne]; cbn.
  - rewrite list_lookup_insert_eq by (by eapply lookup_lt_Some). rewrite Eb.
    pose proof (Z.mod_pos_bound k 8 ltac:(lia)). apply testbit_z2b_lor; lia.
  - rewrite list_lookup_insert_ne by lia. by rewrite orb_false_r.
Qed.

Lemma bits_set_spec pos bits :
  0 <= pos → pos / 8 < len bits →
  ∃ bits', bits_set pos bits = Ok bits' ∧ length bits' = length bits ∧
    ∀ k, 0 <= k → bit bits' k = bit bits k || (k =? pos).
Proof.
  intros Hp Hl. pose proof (Z.div_pos pos 8 Hp ltac:(lia)). pose proof (Z.mod_pos_bound pos 8 ltac:(lia)) as Hm.
  destruct (or_at_bits (pos / 8) (Z.shiftr 0x80 (pos mod 8)) bits) as (bits' & E & Hlen & Hb); [lia | by apply (mask_bits _ 0) |].
  exists bits'. split; [done |]. split; [done |]. intros k Hk. rewrite Hb by done. f_equal.
  destruct (mask_bits _ _ Hm (Z.mod_pos_bound k 8 ltac:(lia))) as (-> & _).
  pose proof (Z.div_mod k 8 ltac:(lia)). pose proof (Z.div_mod pos 8 ltac:(lia)).
  destruct (Z.eqb_spec (k / 8) (pos / 8)), (Z.eqb_spec k pos), (Z.eqb_spec (k mod 8) (pos mod 8)); (done || congruence || lia).
Qed.

Lemma bits_set8_spec pos bits :
  0 <= pos → pos / 8 + 1 < len bits →
  ∃ bits', bits_set8 pos bits = Ok bits' ∧ length bits' = length bits ∧
    ∀ k, 0 <= k → bit bits' k = bit bits k || ((pos <=? k) && (k <? pos + 8)).
Proof.
  intros Hp Hl. pose proof (Z.div_pos pos 8 Hp ltac:(lia)). pose proof (Z.mod_pos_bound pos 8 ltac:(lia)) as Hm. unfold bits_set8.
  destruct (or_at_bits (pos / 8) (Z.shiftr 0xFF (pos mod 8)) bits) as (bits1 & E1 & Hlen1 & Hb1); [lia | by apply (mask_bits _ 0) |].
  destruct (or_at_bits (pos / 8 + 1) (0xFF - Z.shiftr 0xFF (pos mod 8)) bits1) as (bits2 & E2 & Hlen2 & Hb2);
    [unfold len in *; lia | by apply (mask_bits _ 0) |].
  exists bits2. rewrite E1. cbn. split; [done |]. split; [congruence |]. intros k Hk. rewrite Hb2, Hb1 by done.
  rewrite <- orb_assoc. f_equal. pose proof (Z.mod_pos_bound k 8 ltac:(lia)) as Hmk.
  destruct (mask_bits _ _ Hm Hmk) as (_ & _ & -> & _ & -> & _).
  pose proof (Z.div_mod k 8 ltac:(lia)). pose proof (Z.div_mod pos 8 ltac:(lia)).
  apply eq_true_iff_eq. rewrite orb_true_iff, !andb_true_iff, !Z.eqb_eq, !Z.leb_le, !Z.ltb_lt. lia.
Qed.

(** ** The bitmap *)

(** The bits from [pc] on, [n] of them, are set. *)
Definition sets_range (bits : list byte) (pc n : Z) (r : outcome (Z * list byte)) : Prop :=
  ∃ bits', r = Ok (pc + n, bits') ∧ length bits' = length bits ∧
    ∀ k, 0 <= k → bit bits' k = bit bits k || ((pc <=? k) && (k <? pc + n)).

Lemma sets_range_step bits pc n m bits1 r :
  0 <= n → 0 <= m → length bits1 = length bits →
  (∀ k, 0 <= k → bit bits1 k = bit bits k || ((pc <=? k) && (k <? pc + n))) →
  sets_range bits1 (pc + n) m r → sets_range bits pc (n + m) r.
Proof.
  intros Hn Hm Hl Hb (bits2 & -> & Hl2 & Hb2). exists bits2. split; [by rewrite Z.add_assoc |]. split; [congruence |].
  intros k Hk. rewrite Hb2, Hb by done. rewrite <- orb_assoc. f_equal.
  apply eq_true_iff_eq. rewrite orb_true_iff, !andb_true_iff, !Z.leb_le, !Z.ltb_lt. lia.
Qed.

Lemma sets_range_0 bits pc : sets_range bits pc 0 (Ok (pc, bits)).
Proof.
  exists bits. split; [by rewrite Z.add_0_r |]. split; [done |]. intros k Hk.
  destruct (Z.leb_spec pc k), (Z.ltb_spec k (pc + 0)); try lia; by rewrite orb_false_r.
Qed.

Lemma sets_spec n pc bits :
  0 <= pc → (pc + Z.of_nat n + 7) / 8 <= len bits → sets_range bits pc (Z.of_nat n) (sets n pc bits).
Proof.
  revert pc bits. induction n as [| n IH]; intros pc bits Hp Hl; [apply sets_range_0 |]. cbn [sets].
  destruct (bits_set_spec pc bits) as (bits1 & -> & Hlen & Hb); [done | |].
  { apply Z.div_lt_upper_bound; [lia |]. pose proof (Z.mul_succ_div_gt (pc + Z.of_nat (S n) + 7) 8 ltac:(lia)). lia. }
  cbn. replace (Z.of_nat (S n)) with (1 + Z.of_nat n) in * by lia. apply (sets_range_step _ _ _ _ bits1); try lia.
  - intros k Hk. rewrite Hb by done. f_equal. destruct (Z.eqb_spec k pc), (Z.leb_spec pc k), (Z.ltb_spec k (pc + 1)); (done || lia).
  - apply IH; [lia |]. unfold len in *. rewrite Hlen. by replace (pc + 1 + Z.of_nat n) with (pc + (1 + Z.of_nat n)) by lia.
Qed.

Lemma set8s_spec n pc bits :
  0 <= pc → (pc + 8 * Z.of_nat n) / 8 < len bits → sets_range bits pc (8 * Z.of_nat n) (set8s n pc bits).
Proof.
  revert pc bits. induction n as [| n IH]; intros pc bits Hp Hl; [apply sets_range_0 |]. cbn [set8s].
  replace (8 * Z.of_nat (S n)) with (8 + 8 * Z.of_nat n) in * by lia.
  destruct (bits_set8_spec pc bits) as (bits1 & -> & Hlen & Hb); [done | |].
  { replace (pc / 8 + 1) with ((pc + 1 * 8) / 8) by (by rewrite Z.div_add by lia).
    eapply Z.le_lt_trans; [apply Z.div_le_mono; [| apply Z.le_refl] | ]; [lia |].
    eapply Z.le_lt_trans; [| exact Hl]. apply Z.div_le_mono; lia. }
  cbn. apply (sets_range_step _ _ _ _ bits1); try lia; [done |].
  apply IH; [lia |]. unfold len in *. rewrite Hlen. by replace (pc + 8 + 8 * Z.of_nat n) with (pc + (8 + 8 * Z.of_nat n)) by lia.
Qed.

Lemma mark_push_spec n pc bits :
  0 <= n → 0 <= pc → (pc + n) / 8 < len bits → sets_range bits pc n (mark_push n pc bits).
Proof.
  intros Hn Hp Hl. unfold mark_push. pose proof (Z.div_mod n 8 ltac:(lia)). pose proof (Z.mod_pos_bound n 8 ltac:(lia)).
  pose proof (Z.div_pos n 8 Hn ltac:(lia)).
  destruct (set8s_spec (Z.to_nat (n / 8)) pc bits) as (bits1 & -> & Hlen & Hb); [done | |].
  { rewrite Z2Nat.id by done. eapply Z.le_lt_trans; [apply Z.div_le_mono | exact Hl]; lia. }
  rewrite Z2Nat.id in * by done. cbn. replace n with (8 * (n / 8) + n mod 8) at 1 by lia.
  apply (sets_range_step _ _ _ _ bits1); try lia; [done |].
  pose proof (sets_spec (Z.to_nat (n mod 8)) (pc + 8 * (n / 8)) bits1) as Hs. rewrite Z2Nat.id in Hs by lia.
  apply Hs; [lia |]. unfold len in *. rewrite Hlen. replace (pc + 8 * (n / 8) + n mod 8 + 7) with (pc + n + 7) by lia.
  etrans; [apply (Z.div_le_mono _ (pc + n + 1 * 8)); lia |]. rewrite Z.div_add by lia. lia.
Qed.

(** What the bitmap says once [pc] has been reached. *)
Definition bitmap_upto (code bits : list byte) (pc : Z) : Prop :=
  (∀ k, 0 <= k < pc → (bit bits k = false ↔ starts code k)) ∧ ∀ k, pc <= k → bit bits k = false.

Lemma codeBitmap_loop_spec fuel code pc bits :
  starts code pc → pc <= len code + 32 → len code - pc <= Z.of_nat fuel → length bits = (length code / 8 + 1 + 4)%nat →
  bitmap_upto code bits pc →
  ∃ bits' pc', codeBitmap_loop fuel code pc bits = Ok bits' ∧ length bits' = length bits ∧
    len code <= pc' ∧ bitmap_upto code bits' pc'.
Proof.
  revert pc bits. induction fuel as [| fuel IH]; intros pc bits Hst Hpc Hf Hl Hb; cbn [codeBitmap_loop];
    pose proof (starts_nonneg _ _ Hst) as H0; pose proof (starts_next _ _ Hst) as Hnext;
    destruct (code !! Z.to_nat pc) as [b |] eqn:Eb; unfold len in *;
    try (apply lookup_ge_None in Eb; exists bits, pc; split_and!; (done || lia));
    pose proof (lookup_lt_Some _ _ _ Eb) as Hlt; [lia |].
  pose proof (push_size_range (b2z b)) as Hs. unfold next_instr in Hnext. rewrite Eb in Hnext.
  pose proof (starts_gap code pc) as Hgap. unfold next_instr in Hgap. rewrite Eb in Hgap.
  destruct Hb as [Hlow Hhigh]. unfold push_size in *. destruct (_ && _) eqn:Ep.
  - destruct (mark_push_spec (b2z b - PUSH1 + 1) (pc + 1) bits) as (bits1 & -> & Hlen & Hb1); [lia | lia | |].
    { unfold len. rewrite Hl, !Nat2Z.inj_add, Nat2Z.inj_div.
      eapply Z.le_lt_trans; [apply (Z.div_le_mono _ (Z.of_nat (length code) + 4 * 8)); lia |]. rewrite Z.div_add; lia. }
    cbn. destruct (IH (pc + 1 + (b2z b - PUSH1 + 1)) bits1) as (bits' & pc' & E & Hlen' & Hr); try done; try lia.
    { split; intros k Hk.
      - rewrite Hb1 by lia. destruct (Z.leb_spec (pc + 1) k) as [Hge | Hlt'].
        + rewrite (proj2 (Z.ltb_lt _ _)) by lia. rewrite orb_true_r. split; [done |]. intros Hs'. exfalso. by apply (Hgap k Hst); [lia |].
        + rewrite orb_false_r. destruct (decide (k = pc)) as [-> | Hne]; [| apply Hlow; lia]. by rewrite (Hhigh pc) by lia.
      - rewrite Hb1, Hhigh by lia. destruct (Z.leb_spec (pc + 1) k), (Z.ltb_spec k (pc + 1 + (b2z b - PUSH1 + 1))); (done || lia). }
    exists bits', pc'. split; [done |]. split; [congruence | done].
  - rewrite Z.add_0_r in *. destruct (IH (pc + 1) bits) as (bits' & pc' & E & Hlen' & Hr); try done; try lia; [| by exists bits', pc'].
    split; intros k Hk; [| apply Hhigh; lia]. destruct (decide (k = pc)) as [-> | Hne]; [| apply Hlow; lia]. by rewrite (Hhigh pc) by lia.
Qed.

Lemma codeBitmap_spec code :
  ∃ bits, codeBitmap code = Ok bits ∧ length bits = (length code / 8 + 1 + 4)%nat ∧
    ∀ k, 0 <= k < len code → (bit bits k = false ↔ starts code k).
Proof.
  unfold codeBitmap. pose proof (len_nonneg code).
  destruct (codeBitmap_loop_spec (length code) code 0 (replicate (length code / 8 + 1 + 4) Byte.x00))
    as (bits & pc & E & Hl & Hpc & Hlow & _).
  - by exists O.
  - lia.
  - unfold len in *. lia.
  - apply length_replicate.
  - split; intros k Hk; [lia |]. unfold bit. destruct (_ !! _) as [b |] eqn:Eb; [| done].
    apply lookup_replicate in Eb as [-> _]. apply Z.bits_0.
  - exists bits. split; [done |]. split; [by rewrite Hl, length_replicate |]. intros k Hk. apply Hlow. lia.
Qed.

Lemma codeSegment_bit bits pos :
  0 <= pos → pos / 8 < len bits → codeSegment pos bits = Ok (negb (bit bits pos)).
Proof.
  intros Hp Hl. unfold codeSegment, bit, len in *. pose proof (Z.div_pos pos 8 Hp ltac:(lia)).
  destruct (lookup_lt_is_Some_2 bits (Z.to_nat (pos / 8))) as [b ->]; [lia |]. f_equal.
  pose proof (Z.mod_pos_bound pos 8 ltac:(lia)) as Hm.
  assert (Hmask : Z.shiftr 0x80 (pos mod 8) = 2 ^ (7 - pos mod 8)).
  { change 0x80 with (2 ^ 7). rewrite Z.shiftr_div_pow2 by lia. rewrite <- Z.pow_sub_r; lia. }
  rewrite Hmask. apply eq_true_iff_eq. rewrite Z.eqb_eq, negb_true_iff. split.
  - intros E. apply (f_equal (λ z, Z.testbit z (7 - pos mod 8))) in E. rewrite Z.land_spec, Z.pow2_bits_true, andb_true_r, Z.bits_0 in E by lia. done.
  - intros E. apply Z.bits_inj'. intros j Hj. rewrite Z.land_spec, Z.bits_0, Z.pow2_bits_eqb by lia.
    destruct (Z.eqb_spec (7 - pos mod 8) j) as [<- |]; [by rewrite E | apply andb_false_r].
Qed.

(** The analysis accepts exactly the JUMPDEST bytes at which an instruction starts. *)
Lemma validJumpdest_spec code dest :
  len code < 2 ^ 62 → 0 <= dest →
  ∃ b, validJumpdest code dest = Ok b ∧
    (b = true ↔ starts code dest ∧ b2z <$> code !! Z.to_nat dest = Some JUMPDEST).
Proof.
  intros Hl Hd. unfold validJumpdest.
  assert (Hin : ∀ d, b2z <$> code !! Z.to_nat d = Some JUMPDEST → 0 <= d → d < len code).
  { intros d E H0. apply fmap_Some in E as (x & Ex & _). apply lookup_lt_Some in Ex. unfold len. lia. }
  destruct (Z.leb_spec 63 (BitLen dest)) as [Hb | Hb].
  { exists false. split; [done |]. split; [done |]. intros [_ E]. specialize (Hin _ E Hd).
    exfalso. pose proof (BitLen_le 62 dest). lia. }
  assert (Hu : big_Uint64 dest = dest).
  { unfold big_Uint64. rewrite Z.abs_eq, wrap_small; [done | | done]. split; [done |].
    destruct (Z.ltb_spec dest (2 ^ 63)); [lia |]. pose proof (BitLen_gt 63 dest). lia. }
  rewrite Hu. destruct (Z.leb_spec (len code) dest) as [Hge | Hlt].
  { exists false. split; [done |]. split; [done |]. intros [_ E]. specialize (Hin _ E Hd). lia. }
  destruct (lookup_lt_is_Some_2 code (Z.to_nat dest)) as [x Ex]; [unfold len in *; lia |]. cbn [orb]. rewrite Ex. cbn [fmap option_fmap option_map].
  destruct (Z.eqb_spec (b2z x) JUMPDEST) as [Ej | Ej]; cbn [negb].
  - destruct (codeBitmap_spec code) as (bits & -> & Hlen & Hbits). cbn.
    rewrite codeSegment_bit; [| done |].
    + eexists. split; [done |]. rewrite negb_true_iff, Hbits by lia. split; [intros Hst | by intros []].
      split; [done | by rewrite Ej].
    + unfold len in *. rewrite Hlen, !Nat2Z.inj_add, Nat2Z.inj_div. pose proof (Z.div_le_mono dest (Z.of_nat (length code)) 8). lia.
  - exists false. split; [done |]. split; [done |]. by intros [_ [=]].
Qed.
