(* ===== verification/EvmGas.v ===== *)
(** The gas of the EVM: src/l2geth/core/vm/memory_table.go, gas.go,
    gas_table.go, operations_acl.go and operations_acl_optimism.go, with the
    constants of src/l2geth/params/protocol_params.go.

    A gas function takes the memory size that an instruction asks for to a
    cost; it can change the frame, the refund counter and the access list. *)

From S2P Require Import Prelude Rlp TxMeta Transaction BigFloat Fees StateDB EvmCommon EvmCalls.

Definition errGasUintOverflow : error := ErrVar "vm.errGasUintOverflow" "gas uint64 overflow".
Definition ErrGasUintOverflow : error := ErrVar "vm.ErrGasUintOverflow" "gas uint64 overflow".
Definition reentrancy_sentry : error := ErrNew "not enough gas for reentrancy sentry".

(** ** Constants *)

Abbreviation GasQuickStep := 2 (only parsing).
Abbreviation GasFastestStep := 3 (only parsing).
Abbreviation GasFastStep := 5 (only parsing).
Abbreviation GasMidStep := 8 (only parsing).
Abbreviation GasSlowStep := 10 (only parsing).
Abbreviation GasExtStep := 20 (only parsing).

Abbreviation CallValueTransferGas := 9000 (only parsing).
Abbreviation CallNewAccountGas := 25000 (only parsing).
Abbreviation QuadCoeffDiv := 512 (only parsing).
Abbreviation LogDataGas := 8 (only parsing).
Abbreviation Sha3Gas := 30 (only parsing).
Abbreviation Sha3WordGas := 6 (only parsing).
Abbreviation SstoreSetGas := 20000 (only parsing).
Abbreviation SstoreResetGas := 5000 (only parsing).
Abbreviation SstoreClearGas := 5000 (only parsing).
Abbreviation SstoreRefundGas := 15000 (only parsing).
Abbreviation NetSstoreNoopGas := 200 (only parsing).
Abbreviation NetSstoreInitGas := 20000 (only parsing).
Abbreviation NetSstoreCleanGas := 5000 (only parsing).
Abbreviation NetSstoreDirtyGas := 200 (only parsing).
Abbreviation NetSstoreClearRefund := 15000 (only parsing).
Abbreviation NetSstoreResetRefund := 4800 (only parsing).
Abbreviation NetSstoreResetClearRefund := 19800 (only parsing).
Abbreviation SstoreSentryGasEIP2200 := 2300 (only parsing).
Abbreviation SstoreSetGasEIP2200 := 20000 (only parsing).
Abbreviation SstoreResetGasEIP2200 := 5000 (only parsing).
Abbreviation SstoreClearsScheduleRefundEIP2200 := 15000 (only parsing).
Abbreviation SstoreNoopGasEIP2200 := 800 (only parsing).
Abbreviation SstoreDirtyGasEIP2200 := 800 (only parsing).
Abbreviation SstoreInitGasEIP2200 := 20000 (only parsing).
Abbreviation SstoreInitRefundEIP2200 := 19200 (only parsing).
Abbreviation SstoreCleanGasEIP2200 := 5000 (only parsing).
Abbreviation SstoreCleanRefundEIP2200 := 4200 (only parsing).
Abbreviation SstoreClearRefundEIP2200 := 15000 (only parsing).
Abbreviation ColdAccountAccessCostEIP2929 := 2600 (only parsing).
Abbreviation ColdSloadCostEIP2929 := 2100 (only parsing).
Abbreviation WarmStorageReadCostEIP2929 := 100 (only parsing).
Abbreviation TxAccessListStorageKeyGas := 1900 (only parsing).
Abbreviation SstoreClearsScheduleRefundEIP3529 := (SstoreResetGasEIP2200 - ColdSloadCostEIP2929 + TxAccessListStorageKeyGas) (only parsing).
Abbreviation ExpGas := 10 (only parsing).
Abbreviation LogGas := 375 (only parsing).
Abbreviation CopyGas := 3 (only parsing).
Abbreviation LogTopicGas := 375 (only parsing).
Abbreviation SelfdestructRefundGas := 24000 (only parsing).
Abbreviation MemoryGas := 3 (only parsing).
Abbreviation SelfdestructGasEIP150 := 5000 (only parsing).
Abbreviation ExpByteFrontier := 10 (only parsing).
Abbreviation ExpByteEIP158 := 50 (only parsing).
Abbreviation CreateBySelfdestructGas := 25000 (only parsing).

(** ** Memory sizes *)

(** The size of an access at the [off]th item with the length of the [l]th. *)
Definition memory_at (off l : nat) : exec (Z * bool) :=
  x ← Back off; y ← Back l; mret (calcMemSize64 x y).

(** The larger of the areas for the result and for the input. *)
Definition memory_of_call (ret input : nat) : exec (Z * bool) :=
  '(x, overflow) ← memory_at ret (S ret);
  if overflow : bool then mret (0, true)
  else
    '(y, overflow) ← memory_at input (S input);
    if overflow : bool then mret (0, true) else mret (if y <? x then x else y, false).

(** The functions of memory_table.go, by name. *)
Inductive memorySizeFunc :=
  | MemorySha3 | MemoryCallDataCopy | MemoryReturnDataCopy | MemoryCodeCopy | MemoryExtCodeCopy
  | MemoryMLoad | MemoryMStore8 | MemoryMStore | MemoryCreate | MemoryCreate2
  | MemoryCall | MemoryDelegateCall | MemoryStaticCall | MemoryReturn | MemoryRevert | MemoryLog.

#[export] Instance memorySizeFunc_eq_dec : EqDecision memorySizeFunc.
Proof. solve_decision. Defined.

Definition memorySize_of (m : memorySizeFunc) : exec (Z * bool) :=
  match m with
  | MemorySha3 => memory_at 0 1
  | MemoryCallDataCopy | MemoryReturnDataCopy | MemoryCodeCopy => memory_at 0 2
  | MemoryExtCodeCopy => memory_at 1 3
  | MemoryMLoad => x ← Back 0; mret (calcMemSize64WithUint x 32)
  | MemoryMStore8 => x ← Back 0; mret (calcMemSize64WithUint x 1)
  | MemoryMStore => x ← Back 0; mret (calcMemSize64WithUint x 32)
  | MemoryCreate | MemoryCreate2 => memory_at 1 2
  | MemoryCall => memory_of_call 5 3
  | MemoryDelegateCall | MemoryStaticCall => memory_of_call 4 2
  | MemoryReturn | MemoryRevert | MemoryLog => memory_at 0 1
  end.

(** ** Gas of memory and of copies *)

(** Fails when the overflow flag is set. *)
Definition no_overflow (e : error) (r : Z * bool) : exec Z := if r.2 then st_fail e else mret r.1.

Definition memoryGasCost (newMemSize : Z) : exec Z :=
  if newMemSize =? 0 then mret 0
  else if 0x1FFFFFFFE0 <? newMemSize then st_fail errGasUintOverflow
  else
    let newMemSizeWords := toWordSize newMemSize in
    let newMemSize := u64 (newMemSizeWords * 32) in
    n ← mem_Len;
    if n <? newMemSize then
      let square := u64 (newMemSizeWords * newMemSizeWords) in
      let linCoef := u64 (newMemSizeWords * MemoryGas) in
      let quadCoef := square / QuadCoeffDiv in
      let newTotalFee := u64 (linCoef + quadCoef) in
      last ← st_gets lastGasCost;
      st_modify (set_lastGasCost newTotalFee);;
      mret (u64 (newTotalFee - last))
    else mret 0.

(** Gas for the memory and for every word of the [stackpos]th item. *)
Definition memory_and_words (stackpos : nat) (perWord memorySize : Z) : exec Z :=
  gas ← memoryGasCost memorySize;
  size ← Back stackpos;
  words ← no_overflow errGasUintOverflow (bigUint64 size);
  words ← no_overflow errGasUintOverflow (SafeMul (toWordSize words) perWord);
  no_overflow errGasUintOverflow (SafeAdd gas words).

Definition memoryCopierGas (stackpos : nat) (memorySize : Z) : exec Z := memory_and_words stackpos CopyGas memorySize.

Definition gasExtCodeCopy : Z → exec Z := memoryCopierGas 3.

Definition makeGasLog (n : Z) (memorySize : Z) : exec Z :=
  size ← Back 1;
  requestedSize ← no_overflow errGasUintOverflow (bigUint64 size);
  gas ← memoryGasCost memorySize;
  gas ← no_overflow errGasUintOverflow (SafeAdd gas LogGas);
  gas ← no_overflow errGasUintOverflow (SafeAdd gas (u64 (n * LogTopicGas)));
  memorySizeGas ← no_overflow errGasUintOverflow (SafeMul requestedSize LogDataGas);
  no_overflow errGasUintOverflow (SafeAdd gas memorySizeGas).

Definition gasSha3 (memorySize : Z) : exec Z := memory_and_words 1 Sha3WordGas memorySize.
Definition gasCreate2 (memorySize : Z) : exec Z := memory_and_words 2 Sha3WordGas memorySize.
Definition pureMemoryGascost (memorySize : Z) : exec Z := memoryGasCost memorySize.

Definition gas_exp (perByte : Z) : exec Z :=
  exponent ← Back 1;
  let expByteLen := (BitLen exponent + 7) / 8 in
  no_overflow errGasUintOverflow (SafeAdd (u64 (expByteLen * perByte)) ExpGas).

Definition gasExpFrontier (memorySize : Z) : exec Z := gas_exp ExpByteFrontier.
Definition gasExpEIP158 (memorySize : Z) : exec Z := gas_exp ExpByteEIP158.

(** [callGas]: what a call gets of the gas that is available. *)
Definition callGas (isEip150 : bool) (availableGas base callCost : Z) : outcome Z :=
  let availableGas := u64 (availableGas - base) in
  let gas := availableGas - availableGas / 64 in
  if isEip150 && (negb (IsUint64 callCost) || (gas <? big_Uint64 callCost)) then Ok gas
  else if negb (IsUint64 callCost) then Err errGasUintOverflow
  else Ok (big_Uint64 callCost).

Section Gas.
  Context (Keccak256 : list byte → list byte).
  Context (rules : Rules) (c : Contract).

Abbreviation Empty := (StateDB.Empty Keccak256).
Abbreviation GetBalance := (StateDB.GetBalance Keccak256).

(** ** Gas of storage *)

Definition AddRefund' (gas : Z) : exec () := modify_state (AddRefund gas).

Definition SubRefund' (gas : Z) : exec () := s ← get_state; s ← st_lift (SubRefund gas s); put_state s.

(** The refunds of a write to a slot that this transaction already changed. *)
Definition dirty_refunds (original current value clear reset_zero reset : Z) : exec () :=
  (if negb (original =? 0) then
     if current =? 0 then SubRefund' clear
     else if value =? 0 then AddRefund' clear else mret tt
   else mret tt);;
  (if original =? value then
     if original =? 0 then AddRefund' reset_zero else AddRefund' reset
   else mret tt).

Definition gasSStore (memorySize : Z) : exec Z :=
  y ← Back 1; x ← Back 0;
  s ← get_state;
  let current := GetState (c_self c) (BigToHash x) s in
  if IsPetersburg rules || negb (IsConstantinople rules) then
    if (current =? 0) && negb (Z.sgn y =? 0) then mret SstoreSetGas
    else if negb (current =? 0) && (Z.sgn y =? 0) then AddRefund' SstoreRefundGas;; mret SstoreClearGas
    else mret SstoreResetGas
  else
    let value := BigToHash y in
    if current =? value then mret NetSstoreNoopGas
    else
      let original := GetCommittedState (c_self c) (BigToHash x) s in
      if original =? current then
        if original =? 0 then mret NetSstoreInitGas
        else (if value =? 0 then AddRefund' NetSstoreClearRefund else mret tt);; mret NetSstoreCleanGas
      else
        dirty_refunds original current value NetSstoreClearRefund NetSstoreResetClearRefund NetSstoreResetRefund;;
        mret NetSstoreDirtyGas.

Definition gasSStoreEIP2200 (memorySize : Z) : exec Z :=
  g ← st_gets f_Gas;
  if g <=? SstoreSentryGasEIP2200 then st_fail reentrancy_sentry
  else
    y ← Back 1; x ← Back 0;
    s ← get_state;
    let current := GetState (c_self c) (BigToHash x) s in
    let value := BigToHash y in
    if current =? value then mret SstoreNoopGasEIP2200
    else
      let original := GetCommittedState (c_self c) (BigToHash x) s in
      if original =? current then
        if original =? 0 then mret SstoreInitGasEIP2200
        else (if value =? 0 then AddRefund' SstoreClearRefundEIP2200 else mret tt);; mret SstoreCleanGasEIP2200
      else
        dirty_refunds original current value SstoreClearRefundEIP2200 SstoreInitRefundEIP2200 SstoreCleanRefundEIP2200;;
        mret SstoreDirtyGasEIP2200.

Definition AddSlotToAccessList' (a : address) (slot : Z) : exec () :=
  s ← get_state; s ← st_lift (AddSlotToAccessList a slot s); put_state s.

Definition AddAddressToAccessList' (a : address) : exec () := modify_state (AddAddressToAccessList a).

(** The cost of a slot that is not in the access list yet. *)
Definition sstore_cold (slot : Z) : exec Z :=
  s ← get_state;
  '(addrPresent, slotPresent) ← st_lift (SlotInAccessList (c_self c) slot s);
  if negb slotPresent then
    AddSlotToAccessList' (c_self c) slot;;
    if negb addrPresent then st_panic "impossible case: address was not present in access list during sstore op"
    else mret ColdSloadCostEIP2929
  else mret 0.

Definition makeGasSStoreFunc (clearingRefund : Z) (memorySize : Z) : exec Z :=
  g ← st_gets f_Gas;
  if g <=? SstoreSentryGasEIP2200 then st_fail reentrancy_sentry
  else
    y ← Back 1; x ← peek;
    let slot := BigToHash x in
    s ← get_state;
    let current := GetState (c_self c) slot s in
    cost ← sstore_cold slot;
    let value := BigToHash y in
    if current =? value then mret (cost + WarmStorageReadCostEIP2929)
    else
      s ← get_state;
      let original := GetCommittedState (c_self c) (BigToHash x) s in
      if original =? current then
        if original =? 0 then mret (cost + SstoreSetGasEIP2200)
        else
          (if value =? 0 then AddRefund' clearingRefund else mret tt);;
          mret (cost + (SstoreResetGasEIP2200 - ColdSloadCostEIP2929))
      else
        dirty_refunds original current value clearingRefund (SstoreSetGasEIP2200 - WarmStorageReadCostEIP2929)
          (SstoreResetGasEIP2200 - ColdSloadCostEIP2929 - WarmStorageReadCostEIP2929);;
        mret (cost + WarmStorageReadCostEIP2929).

Definition gasSLoadEIP2929 (memorySize : Z) : exec Z :=
  loc ← peek;
  let slot := BigToHash loc in
  s ← get_state;
  '(_, slotPresent) ← st_lift (SlotInAccessList (c_self c) slot s);
  if negb slotPresent then AddSlotToAccessList' (c_self c) slot;; mret ColdSloadCostEIP2929
  else mret WarmStorageReadCostEIP2929.

Definition gasSLoadEIP2929Mantle (memorySize : Z) : exec Z := mret ColdSloadCostEIP2929.

(** ** Gas of accounts *)

(** [coldCost], what is charged over the constant gas. *)
Definition coldCost : Z := ColdAccountAccessCostEIP2929 - WarmStorageReadCostEIP2929.

Definition gasExtCodeCopyEIP2929 (memorySize : Z) : exec Z :=
  gas ← gasExtCodeCopy memorySize;
  x ← peek;
  let addr := BigToAddress x in
  s ← get_state;
  if negb (AddressInAccessList addr s) then
    AddAddressToAccessList' addr;;
    no_overflow ErrGasUintOverflow (SafeAdd gas coldCost)
  else mret gas.

Definition gasExtCodeCopyEIP2929Mantle (memorySize : Z) : exec Z :=
  gas ← gasExtCodeCopy memorySize;
  no_overflow (ErrNew "gas uint64 overflow") (SafeAdd gas coldCost).

Definition gasEip2929AccountCheck (memorySize : Z) : exec Z :=
  x ← peek;
  let addr := BigToAddress x in
  s ← get_state;
  if negb (AddressInAccessList addr s) then AddAddressToAccessList' addr;; mret coldCost else mret 0.

Definition gasEip2929AccountCheckMantle (memorySize : Z) : exec Z := mret coldCost.

(** ** Gas of calls *)

(** The end of the four calculators: the gas of the call on top of the rest. *)
Definition gas_with_call (gas : Z) : exec Z :=
  g ← st_gets f_Gas;
  callCost ← Back 0;
  temp ← (match callGas (IsEIP150 rules) g gas callCost with
          | Err e => modify_evm (set_callGasTemp 0);; st_fail e
          | r => st_lift r
          end);
  modify_evm (set_callGasTemp temp);;
  no_overflow errGasUintOverflow (SafeAdd gas temp).

Definition gasCall (memorySize : Z) : exec Z :=
  value ← Back 2; a ← Back 1;
  let transfersValue := negb (Z.sgn value =? 0) in
  let address := BigToAddress a in
  s ← get_state;
  let gas := if IsEIP158 rules
             then if transfersValue && Empty address s then CallNewAccountGas else 0
             else if negb (Exist address s) then CallNewAccountGas else 0 in
  let gas := if transfersValue then gas + CallValueTransferGas else gas in
  memoryGas ← memoryGasCost memorySize;
  gas ← no_overflow errGasUintOverflow (SafeAdd gas memoryGas);
  gas_with_call gas.

Definition gasCallCode (memorySize : Z) : exec Z :=
  memoryGas ← memoryGasCost memorySize;
  value ← Back 2;
  let gas := if negb (Z.sgn value =? 0) then CallValueTransferGas else 0 in
  gas ← no_overflow errGasUintOverflow (SafeAdd gas memoryGas);
  gas_with_call gas.

Definition gasDelegateCall (memorySize : Z) : exec Z := gas ← memoryGasCost memorySize; gas_with_call gas.
Definition gasStaticCall (memorySize : Z) : exec Z := gas ← memoryGasCost memorySize; gas_with_call gas.

Definition makeCallVariantGasCallEIP2929 (oldCalculator : Z → exec Z) (memorySize : Z) : exec Z :=
  x ← Back 1;
  let addr := BigToAddress x in
  s ← get_state;
  let warmAccess := AddressInAccessList addr s in
  paid ← (if negb warmAccess then AddAddressToAccessList' addr;; UseGas coldCost else mret true);
  if negb paid then st_fail vm_ErrOutOfGas
  else
    gas ← oldCalculator memorySize;
    if warmAccess then mret gas
    else st_modify (λ f, set_Gas (u64 (f_Gas f + coldCost)) f);; mret (u64 (gas + coldCost)).

Definition makeCallVariantGasCallEIP2929Mantle (oldCalculator : Z → exec Z) (memorySize : Z) : exec Z :=
  paid ← UseGas coldCost;
  if negb paid then st_fail vm_ErrOutOfGas
  else
    gas ← oldCalculator memorySize;
    st_modify (λ f, set_Gas (u64 (f_Gas f + coldCost)) f);; mret (u64 (gas + coldCost)).

(** ** Gas of self-destruction *)

Definition new_beneficiary (address : address) (s : StateDB) : bool :=
  Empty address s && negb (Z.sgn (GetBalance (c_self c) s) =? 0).

Definition suicide_refund : exec () :=
  s ← get_state; if negb (HasSuicided (c_self c) s) then AddRefund' SelfdestructRefundGas else mret tt.

Definition gasSelfdestruct (memorySize : Z) : exec Z :=
  s ← get_state;
  gas ← (if IsEIP150 rules then
           x ← Back 0;
           let address := BigToAddress x in
           let new := if IsEIP158 rules then new_beneficiary address s else negb (Exist address s) in
           mret (if new then SelfdestructGasEIP150 + CreateBySelfdestructGas else SelfdestructGasEIP150)
         else mret 0);
  suicide_refund;; mret gas.

Definition makeSelfdestructGasFn (refundsEnabled : bool) (memorySize : Z) : exec Z :=
  x ← peek;
  let address := BigToAddress x in
  s ← get_state;
  gas ← (if negb (AddressInAccessList address s)
         then AddAddressToAccessList' address;; mret ColdAccountAccessCostEIP2929 else mret 0);
  s ← get_state;
  let gas := if new_beneficiary address s then gas + CreateBySelfdestructGas else gas in
  (if refundsEnabled then suicide_refund else mret tt);; mret gas.

Definition makeSelfdestructGasFnMantle (refundsEnabled : bool) (memorySize : Z) : exec Z :=
  x ← peek;
  let address := BigToAddress x in
  s ← get_state;
  let gas := if new_beneficiary address s then ColdAccountAccessCostEIP2929 + CreateBySelfdestructGas
             else ColdAccountAccessCostEIP2929 in
  (if refundsEnabled then suicide_refund else mret tt);; mret gas.

(** ** The gas functions by name *)

Inductive gasFunc :=
  | GasCallDataCopy | GasCodeCopy | GasExtCodeCopy | GasReturnDataCopy | GasLog (n : Z) | GasSha3 | GasCreate2
  | GasReturn | GasRevert | GasMLoad | GasMStore8 | GasMStore | GasCreate | GasExpFrontier | GasExpEIP158
  | GasSStore | GasSStoreEIP2200 | GasSStoreEIP2929 | GasSStoreEIP3529 | GasSLoadEIP2929 | GasSLoadEIP2929Mantle
  | GasExtCodeCopyEIP2929 | GasExtCodeCopyEIP2929Mantle | GasEip2929AccountCheck | GasEip2929AccountCheckMantle
  | GasCall | GasCallCode | GasDelegateCall | GasStaticCall
  | GasCallEIP2929 | GasCallCodeEIP2929 | GasDelegateCallEIP2929 | GasStaticCallEIP2929
  | GasCallEIP2929Mantle | GasCallCodeEIP2929Mantle | GasDelegateCallEIP2929Mantle | GasStaticCallEIP2929Mantle
  | GasSelfdestruct | GasSelfdestructEIP2929 | GasSelfdestructEIP3529 | GasSelfdestructEIP2929Mantle.

Definition dynamicGas_of (g : gasFunc) : Z → exec Z :=
  match g with
  | GasCallDataCopy | GasCodeCopy | GasReturnDataCopy => memoryCopierGas 2
  | GasExtCodeCopy => gasExtCodeCopy
  | GasLog n => makeGasLog n
  | GasSha3 => gasSha3
  | GasCreate2 => gasCreate2
  | GasReturn | GasRevert | GasMLoad | GasMStore8 | GasMStore | GasCreate => pureMemoryGascost
  | GasExpFrontier => gasExpFrontier
  | GasExpEIP158 => gasExpEIP158
  | GasSStore => gasSStore
  | GasSStoreEIP2200 => gasSStoreEIP2200
  | GasSStoreEIP2929 => makeGasSStoreFunc SstoreClearsScheduleRefundEIP2200
  | GasSStoreEIP3529 => makeGasSStoreFunc SstoreClearsScheduleRefundEIP3529
  | GasSLoadEIP2929 => gasSLoadEIP2929
  | GasSLoadEIP2929Mantle => gasSLoadEIP2929Mantle
  | GasExtCodeCopyEIP2929 => gasExtCodeCopyEIP2929
  | GasExtCodeCopyEIP2929Mantle => gasExtCodeCopyEIP2929Mantle
  | GasEip2929AccountCheck => gasEip2929AccountCheck
  | GasEip2929AccountCheckMantle => gasEip2929AccountCheckMantle
  | GasCall => gasCall
  | GasCallCode => gasCallCode
  | GasDelegateCall => gasDelegateCall
  | GasStaticCall => gasStaticCall
  | GasCallEIP2929 => makeCallVariantGasCallEIP2929 gasCall
  | GasCallCodeEIP2929 => makeCallVariantGasCallEIP2929 gasCallCode
  | GasDelegateCallEIP2929 => makeCallVariantGasCallEIP2929 gasDelegateCall
  | GasStaticCallEIP2929 => makeCallVariantGasCallEIP2929 gasStaticCall
  | GasCallEIP2929Mantle => makeCallVariantGasCallEIP2929Mantle gasCall
  | GasCallCodeEIP2929Mantle => makeCallVariantGasCallEIP2929Mantle gasCallCode
  | GasDelegateCallEIP2929Mantle => makeCallVariantGasCallEIP2929Mantle gasDelegateCall
  | GasStaticCallEIP2929Mantle => makeCallVariantGasCallEIP2929Mantle gasStaticCall
  | GasSelfdestruct => gasSelfdestruct
  | GasSelfdestructEIP2929 => makeSelfdestructGasFn true
  | GasSelfdestructEIP3529 => makeSelfdestructGasFn false
  | GasSelfdestructEIP2929Mantle => makeSelfdestructGasFnMantle true
  end.

End Gas.
