(* ===== verification/EvmInstructions.v ===== *)
(** The instructions of the EVM, src/l2geth/core/vm/instructions.go and the
    instructions of src/l2geth/core/vm/eips.go.

    An instruction works on the frame of a contract and returns data, nil being
    the empty list.  Replacing an item in place is a pop and a push. *)

From S2P Require Import Prelude Rlp TxMeta Transaction BigFloat Fees StateDB EvmCommon EvmCalls EvmAnalysis.

Definition errReturnDataOutOfBounds : error := ErrVar "vm.errReturnDataOutOfBounds" "evm: return data out of bounds".
Definition errInvalidJump : error := ErrVar "vm.errInvalidJump" "evm: invalid jump destination".

Abbreviation CallStipend := 2300 (only parsing).

Definition b2word (b : bool) : Z := if b then 1 else 0.

(** ** Arithmetic *)

Definition opAdd : exec (list byte) := x ← pop; y ← pop; push (U256 (x + y));; mret [].
Definition opSub : exec (list byte) := x ← pop; y ← pop; push (U256 (x - y));; mret [].
Definition opMul : exec (list byte) := x ← pop; y ← pop; push (U256 (x * y));; mret [].

Definition opDiv : exec (list byte) :=
  x ← pop; y ← pop;
  push (if negb (Z.sgn y =? 0) then U256 (x / y) else 0);; mret [].

Definition opSdiv : exec (list byte) :=
  x ← pop; y ← pop;
  let x := S256 x in let y := S256 y in
  push (if (Z.sgn y =? 0) || (Z.sgn x =? 0) then 0
        else if negb (Z.sgn x =? Z.sgn y) then U256 (- (Z.abs x / Z.abs y))
        else U256 (Z.abs x / Z.abs y));; mret [].

Definition opMod : exec (list byte) :=
  x ← pop; y ← pop;
  push (if Z.sgn y =? 0 then 0 else U256 (x mod y));; mret [].

Definition opSmod : exec (list byte) :=
  x ← pop; y ← pop;
  let x := S256 x in let y := S256 y in
  push (if Z.sgn y =? 0 then 0
        else if Z.sgn x <? 0 then U256 (- (Z.abs x mod Z.abs y))
        else U256 (Z.abs x mod Z.abs y));; mret [].

Definition opExp : exec (list byte) :=
  base ← pop; exponent ← pop;
  push (if exponent <? 1 then 1
        else if Z.sgn base =? 0 then 0
        else if exponent =? 1 then base
        else Exp base exponent);; mret [].

(** Only a small first operand takes the second one from the stack. *)
Definition opSignExtend : exec (list byte) :=
  back ← pop;
  if back <? 31 then
    let bit := u64 (big_Uint64 back * 8 + 7) in
    num ← pop;
    let mask := Z.shiftl 1 bit - 1 in
    push (U256 (if Z.testbit num bit then Z.lor num (Z.lnot mask) else Z.land num mask));; mret []
  else mret [].

Definition opAddmod : exec (list byte) :=
  x ← pop; y ← pop; z ← pop;
  push (if 0 <? z then U256 ((x + y) mod z) else 0);; mret [].

Definition opMulmod : exec (list byte) :=
  x ← pop; y ← pop; z ← pop;
  push (if 0 <? z then U256 ((x * y) mod z) else 0);; mret [].

(** ** Comparison and bits *)

Definition opNot : exec (list byte) := x ← pop; push (U256 (Z.lnot x));; mret [].
Definition opLt : exec (list byte) := x ← pop; y ← pop; push (b2word (x <? y));; mret [].
Definition opGt : exec (list byte) := x ← pop; y ← pop; push (b2word (y <? x));; mret [].

Definition opSlt : exec (list byte) :=
  x ← pop; y ← pop;
  push (if (tt255 <=? x) && (y <? tt255) then 1
        else if (x <? tt255) && (tt255 <=? y) then 0
        else b2word (x <? y));; mret [].

Definition opSgt : exec (list byte) :=
  x ← pop; y ← pop;
  push (if (tt255 <=? x) && (y <? tt255) then 0
        else if (x <? tt255) && (tt255 <=? y) then 1
        else b2word (y <? x));; mret [].

Definition opEq : exec (list byte) := x ← pop; y ← pop; push (b2word (x =? y));; mret [].
Definition opIszero : exec (list byte) := x ← pop; push (if 0 <? Z.sgn x then 0 else 1);; mret [].
Definition opAnd : exec (list byte) := x ← pop; y ← pop; push (Z.land x y);; mret [].
Definition opOr : exec (list byte) := x ← pop; y ← pop; push (Z.lor x y);; mret [].
Definition opXor : exec (list byte) := x ← pop; y ← pop; push (Z.lxor x y);; mret [].

Definition opByte : exec (list byte) :=
  th ← pop; val ← pop;
  push (if th <? 32 then math_Byte val 32 (big_Int64 th) else 0);; mret [].

Definition opSHL : exec (list byte) :=
  shift ← pop; value ← pop;
  push (if 256 <=? U256 shift then 0 else U256 (Z.shiftl (U256 value) (big_Uint64 (U256 shift))));; mret [].

Definition opSHR : exec (list byte) :=
  shift ← pop; value ← pop;
  push (if 256 <=? U256 shift then 0 else U256 (Z.shiftr (U256 value) (big_Uint64 (U256 shift))));; mret [].

Definition opSAR : exec (list byte) :=
  shift ← pop; value ← pop;
  let value := S256 value in
  push (U256 (if 256 <=? U256 shift then if 0 <=? Z.sgn value then 0 else -1
              else Z.shiftr value (big_Uint64 (U256 shift))));; mret [].

(** ** Memory, control and the stack *)

Definition opPop : exec (list byte) := _ ← pop; mret [].

Definition opMload : exec (list byte) :=
  v ← pop;
  b ← mem_GetPtr (big_Int64 v) 32;
  push (be_val b);; mret [].

Definition opMstore : exec (list byte) :=
  mStart ← pop; val ← pop;
  mem_Set32 (big_Uint64 mStart) val;; mret [].

Definition opMstore8 : exec (list byte) :=
  off ← pop; val ← pop;
  store ← st_gets f_store;
  let off := big_Int64 off in
  if (0 <=? off) && (off <? len store)
  then st_modify (set_store (<[Z.to_nat off := z2b (Z.land (big_Int64 val) 0xff)]> store));; mret []
  else out_of_range.

Definition opJumpdest : exec (list byte) := mret [].
Definition opPc : exec (list byte) := p ← st_gets pc; push p;; mret [].
Definition opMsize : exec (list byte) := n ← mem_Len; push n;; mret [].
Definition opGas : exec (list byte) := g ← st_gets f_Gas; push g;; mret [].
Definition opStop : exec (list byte) := mret [].

(** [opReturn] and [opRevert]. *)
Definition opReturn : exec (list byte) :=
  offset ← pop; size ← pop;
  mem_GetPtr (big_Int64 offset) (big_Int64 size).

Definition makeDup (size : nat) : exec (list byte) := dup size;; mret [].
Definition makeSwap (size : nat) : exec (list byte) := swap (S size);; mret [].

Section Instructions.
  Context (Keccak256 : list byte → list byte) (ContractCode : list byte → list byte).
  Context (run : Contract → list byte → bool → EVM → outcome result).
  Context (rules : Rules) (precompiles : list address) (ctx : BlockContext).
  (** The contract and its input. *)
  Context (c : Contract) (input : list byte).

Abbreviation GetBalance := (StateDB.GetBalance Keccak256).

(** ** The environment *)

Definition opSha3 : exec (list byte) :=
  offset ← pop; size ← pop;
  d ← mem_GetPtr (big_Int64 offset) (big_Int64 size);
  let hash := be_val (Keccak256 d) in
  (if EnablePreimageRecording ctx then modify_state (AddPreimage hash d) else mret tt);;
  push hash;; mret [].

Definition opAddress : exec (list byte) := push (be_val (c_self c));; mret [].

Definition opBalance : exec (list byte) :=
  slot ← pop; s ← get_state;
  push (GetBalance (BigToAddress slot) s);; mret [].

Definition opSelfBalance : exec (list byte) := s ← get_state; push (GetBalance (c_self c) s);; mret [].
Definition opOrigin : exec (list byte) := push (be_val (Origin ctx));; mret [].
Definition opCaller : exec (list byte) := push (be_val (CallerAddress c));; mret [].
Definition opCallValue : exec (list byte) := push (c_value c);; mret [].

Definition opCallDataLoad : exec (list byte) :=
  start ← pop;
  b ← st_lift (getDataBig input start 32);
  push (be_val b);; mret [].

Definition opCallDataSize : exec (list byte) := push (len input);; mret [].

(** Copies of the input, of the code and of the code of an account. *)
Definition copy_data (d : list byte) (memOffset dataOffset length : Z) : exec (list byte) :=
  b ← st_lift (getDataBig d dataOffset length);
  mem_Set (big_Uint64 memOffset) (big_Uint64 length) b;; mret [].

Definition opCallDataCopy : exec (list byte) :=
  memOffset ← pop; dataOffset ← pop; length ← pop;
  copy_data input memOffset dataOffset length.

Definition opReturnDataSize : exec (list byte) := d ← st_gets (λ f, returnData (f_evm f)); push (len d);; mret [].

Definition opReturnDataCopy : exec (list byte) :=
  memOffset ← pop; dataOffset ← pop; length ← pop;
  d ← st_gets (λ f, returnData (f_evm f));
  let end_ := dataOffset + length in
  if negb (IsUint64 end_) || (len d <? big_Uint64 end_) then st_fail errReturnDataOutOfBounds
  else
    b ← st_lift (slice d (big_Uint64 dataOffset) (big_Uint64 end_));
    mem_Set (big_Uint64 memOffset) (big_Uint64 length) b;; mret [].

Definition opExtCodeSize : exec (list byte) :=
  slot ← pop; s ← get_state;
  push (len (StateDB.GetCode Keccak256 ContractCode (BigToAddress slot) s));; mret [].

Definition opCodeSize : exec (list byte) := push (len (c_Code c));; mret [].

Definition opCodeCopy : exec (list byte) :=
  memOffset ← pop; codeOffset ← pop; length ← pop;
  copy_data (c_Code c) memOffset codeOffset length.

Definition opExtCodeCopy : exec (list byte) :=
  addr ← pop; memOffset ← pop; codeOffset ← pop; length ← pop;
  s ← get_state;
  copy_data (StateDB.GetCode Keccak256 ContractCode (BigToAddress addr) s) memOffset codeOffset length.

Definition opExtCodeHash : exec (list byte) :=
  slot ← pop; s ← get_state;
  let address := BigToAddress slot in
  push (if Empty Keccak256 address s then 0 else be_val (GetCodeHash address s));; mret [].

Definition opGasprice : exec (list byte) := push (GasPrice ctx);; mret [].

Definition opBlockhash : exec (list byte) :=
  num ← pop;
  push (if (BlockNumber ctx - 257 <? num) && (num <? BlockNumber ctx) then be_val (GetHash ctx (big_Uint64 num)) else 0);;
  mret [].

Definition opCoinbase : exec (list byte) := push (be_val (Coinbase ctx));; mret [].
Definition opTimestamp : exec (list byte) := push (U256 (Time ctx));; mret [].
Definition opNumber : exec (list byte) := push (U256 (BlockNumber ctx));; mret [].
Definition opDifficulty : exec (list byte) := push (U256 (Difficulty ctx));; mret [].
Definition opGasLimit : exec (list byte) := push (U256 (GasLimit ctx));; mret [].
Definition opChainID : exec (list byte) := push (ChainID ctx);; mret [].
Definition opL1BlockNumber : exec (list byte) := push (U256 (L1BlockNumber ctx));; mret [].

(** ** Storage and control *)

Definition opSload : exec (list byte) :=
  loc ← pop; s ← get_state;
  push (GetState (c_self c) (BigToHash loc) s);; mret [].

Definition opSstore : exec (list byte) :=
  loc ← pop; val ← pop;
  modify_state (SetState Keccak256 (c_self c) (BigToHash loc) (BigToHash val));; mret [].

Definition jump_to (pos : Z) : exec (list byte) :=
  valid ← st_lift (validJumpdest (c_Code c) pos);
  if negb valid then st_fail errInvalidJump else st_modify (set_pc (big_Uint64 pos));; mret [].

Definition opJump : exec (list byte) := pos ← pop; jump_to pos.

Definition opJumpi : exec (list byte) :=
  pos ← pop; cond ← pop;
  if negb (Z.sgn cond =? 0) then jump_to pos
  else st_modify (λ f, set_pc (u64 (pc f + 1)) f);; mret [].

Definition opPush1 : exec (list byte) :=
  st_modify (λ f, set_pc (u64 (pc f + 1)) f);;
  p ← st_gets pc;
  push (if p <? len (c_Code c) then GetByte c p else 0);; mret [].

Definition makePush (size pushByteSize : Z) : exec (list byte) :=
  p ← st_gets pc;
  let codeLen := len (c_Code c) in
  let startMin := if to_int64 (u64 (p + 1)) <? codeLen then to_int64 (u64 (p + 1)) else codeLen in
  let endMin := if startMin + pushByteSize <? codeLen then startMin + pushByteSize else codeLen in
  b ← st_lift (slice (c_Code c) startMin endMin);
  push (be_val (RightPadBytes b pushByteSize));;
  st_modify (set_pc (u64 (p + size)));; mret [].

(** ** Creations *)

Definition add_gas (gas : Z) : exec () := st_modify (λ f, set_Gas (u64 (f_Gas f + gas)) f).

(** The part of both creations after the sub-context returned; [failed] says
    when zero is pushed. *)
Definition finish_create (failed : option error → bool) (r : result * address) : exec (list byte) :=
  let '(res, returnGas, suberr, e, addr) := r in
  st_modify (set_evm e);;
  push (if failed suberr then 0 else be_val addr);;
  add_gas returnGas;;
  mret (if bool_decide (suberr = Some errExecutionReverted) then res else []).

Definition create_failed (suberr : option error) : bool :=
  (IsHomestead rules && bool_decide (suberr = Some ErrCodeStoreOutOfGas)) ||
  (bool_decide (suberr ≠ None) && negb (bool_decide (suberr = Some ErrCodeStoreOutOfGas))).

Definition opCreate : exec (list byte) :=
  value ← pop; offset ← pop; size ← pop;
  code ← mem_GetCopy (big_Int64 offset) (big_Int64 size);
  gas ← st_gets f_Gas;
  let gas := if IsEIP150 rules then gas - gas / 64 else gas in
  _ ← UseGas gas;
  e ← st_gets f_evm;
  r ← st_lift (evm_Create Keccak256 ContractCode run rules (NoRecursion ctx) (c_self c) code gas value e);
  finish_create create_failed r.

Definition opCreate2 : exec (list byte) :=
  endowment ← pop; offset ← pop; size ← pop; salt ← pop;
  code ← mem_GetCopy (big_Int64 offset) (big_Int64 size);
  gas ← st_gets f_Gas;
  let gas := gas - gas / 64 in
  _ ← UseGas gas;
  e ← st_gets f_evm;
  r ← st_lift (evm_Create2 Keccak256 ContractCode run rules (NoRecursion ctx) (c_self c) code gas endowment salt e);
  finish_create (λ suberr, bool_decide (suberr ≠ None)) r.

(** ** Calls *)

(** The part of the four calls after the sub-context returned. *)
Definition finish_call (retOffset retSize : Z) (r : result) : exec (list byte) :=
  let '(ret, returnGas, err, e) := r in
  st_modify (set_evm e);;
  push (if bool_decide (err = None) then 1 else 0);;
  (if bool_decide (err = None) || bool_decide (err = Some errExecutionReverted)
   then mem_Set (big_Uint64 retOffset) (big_Uint64 retSize) ret else mret tt);;
  add_gas returnGas;;
  mret ret.

(** The operands from the input on: its data, and where the result goes. *)
Definition call_args : exec (list byte * Z * Z) :=
  inOffset ← pop; inSize ← pop; retOffset ← pop; retSize ← pop;
  args ← mem_GetPtr (big_Int64 inOffset) (big_Int64 inSize);
  mret (args, retOffset, retSize).

Definition with_stipend (gas value : Z) : Z := if negb (Z.sgn value =? 0) then u64 (gas + CallStipend) else gas.

Definition opCall : exec (list byte) :=
  _ ← pop;
  gas ← st_gets (λ f, callGasTemp (f_evm f));
  addr ← pop; value ← pop;
  let value := U256 value in
  '(args, retOffset, retSize) ← call_args;
  e ← st_gets f_evm;
  r ← st_lift (evm_Call Keccak256 ContractCode run rules precompiles (NoRecursion ctx) (c_self c) (BigToAddress addr) args
                 (with_stipend gas value) value e);
  finish_call retOffset retSize r.

Definition opCallCode : exec (list byte) :=
  _ ← pop;
  gas ← st_gets (λ f, callGasTemp (f_evm f));
  addr ← pop; value ← pop;
  let value := U256 value in
  '(args, retOffset, retSize) ← call_args;
  e ← st_gets f_evm;
  r ← st_lift (evm_CallCode Keccak256 ContractCode run (NoRecursion ctx) (c_self c) (BigToAddress addr) args
                 (with_stipend gas value) value e);
  finish_call retOffset retSize r.

Definition opDelegateCall : exec (list byte) :=
  _ ← pop;
  gas ← st_gets (λ f, callGasTemp (f_evm f));
  addr ← pop;
  '(args, retOffset, retSize) ← call_args;
  e ← st_gets f_evm;
  r ← st_lift (evm_DelegateCall Keccak256 ContractCode run (NoRecursion ctx) c (BigToAddress addr) args gas e);
  finish_call retOffset retSize r.

Definition opStaticCall : exec (list byte) :=
  _ ← pop;
  gas ← st_gets (λ f, callGasTemp (f_evm f));
  addr ← pop;
  '(args, retOffset, retSize) ← call_args;
  e ← st_gets f_evm;
  r ← st_lift (evm_StaticCall Keccak256 ContractCode run (NoRecursion ctx) (c_self c) (BigToAddress addr) args gas e);
  finish_call retOffset retSize r.

(** ** Self-destruction and logs *)

(** What [opSuicide] does to the state. *)
Definition suicide_state (self beneficiary : address) (s : StateDB) : StateDB :=
  let balance := GetBalance self s in
  let s := AddBalance Keccak256 beneficiary balance s in
  let s := (Suicide self s).1 in
  if IsSDUpdate rules then SubBalance Keccak256 self balance s else s.

Definition opSuicide : exec (list byte) :=
  beneficiary ← pop;
  modify_state (suicide_state (c_self c) (BigToAddress beneficiary));; mret [].

Fixpoint pop_topics (size : nat) : exec (list Z) :=
  match size with
  | O => mret []
  | S n => t ← pop; ts ← pop_topics n; mret (BigToHash t :: ts)
  end.

(** The block number of a log is not part of the model's logs. *)
Definition makeLog (size : nat) : exec (list byte) :=
  mStart ← pop; mSize ← pop;
  topics ← pop_topics size;
  d ← mem_GetCopy (big_Int64 mStart) (big_Int64 mSize);
  modify_state (AddLog (c_self c) topics d);; mret [].

(** ** The instructions by name *)

Inductive executionFunc :=
  | OpAdd | OpSub | OpMul | OpDiv | OpSdiv | OpMod | OpSmod | OpExp | OpSignExtend | OpAddmod | OpMulmod
  | OpNot | OpLt | OpGt | OpSlt | OpSgt | OpEq | OpIszero | OpAnd | OpOr | OpXor | OpByte | OpSHL | OpSHR | OpSAR
  | OpSha3 | OpAddress | OpBalance | OpSelfBalance | OpOrigin | OpCaller | OpCallValue
  | OpCallDataLoad | OpCallDataSize | OpCallDataCopy | OpReturnDataSize | OpReturnDataCopy
  | OpExtCodeSize | OpCodeSize | OpCodeCopy | OpExtCodeCopy | OpExtCodeHash
  | OpGasprice | OpBlockhash | OpCoinbase | OpTimestamp | OpNumber | OpDifficulty | OpGasLimit | OpChainID
  | OpL1BlockNumber | OpPop | OpMload | OpMstore | OpMstore8 | OpSload | OpSstore | OpJump | OpJumpi | OpJumpdest
  | OpPc | OpMsize | OpGas | OpCreate | OpCreate2 | OpCall | OpCallCode | OpDelegateCall | OpStaticCall
  | OpReturn | OpRevert | OpStop | OpSuicide | OpPush1 | MakePush (size : Z) (pushByteSize : Z)
  | MakeDup (n : nat) | MakeSwap (n : nat) | MakeLog (n : nat).

Definition execute_of (op : executionFunc) : exec (list byte) :=
  match op with
  | OpAdd => opAdd | OpSub => opSub | OpMul => opMul | OpDiv => opDiv | OpSdiv => opSdiv | OpMod => opMod
  | OpSmod => opSmod | OpExp => opExp | OpSignExtend => opSignExtend | OpAddmod => opAddmod | OpMulmod => opMulmod
  | OpNot => opNot | OpLt => opLt | OpGt => opGt | OpSlt => opSlt | OpSgt => opSgt | OpEq => opEq
  | OpIszero => opIszero | OpAnd => opAnd | OpOr => opOr | OpXor => opXor | OpByte => opByte
  | OpSHL => opSHL | OpSHR => opSHR | OpSAR => opSAR
  | OpSha3 => opSha3 | OpAddress => opAddress | OpBalance => opBalance | OpSelfBalance => opSelfBalance
  | OpOrigin => opOrigin | OpCaller => opCaller | OpCallValue => opCallValue
  | OpCallDataLoad => opCallDataLoad | OpCallDataSize => opCallDataSize | OpCallDataCopy => opCallDataCopy
  | OpReturnDataSize => opReturnDataSize | OpReturnDataCopy => opReturnDataCopy
  | OpExtCodeSize => opExtCodeSize | OpCodeSize => opCodeSize | OpCodeCopy => opCodeCopy
  | OpExtCodeCopy => opExtCodeCopy | OpExtCodeHash => opExtCodeHash
  | OpGasprice => opGasprice | OpBlockhash => opBlockhash | OpCoinbase => opCoinbase | OpTimestamp => opTimestamp
  | OpNumber => opNumber | OpDifficulty => opDifficulty | OpGasLimit => opGasLimit | OpChainID => opChainID
  | OpL1BlockNumber => opL1BlockNumber
  | OpPop => opPop | OpMload => opMload | OpMstore => opMstore | OpMstore8 => opMstore8
  | OpSload => opSload | OpSstore => opSstore | OpJump => opJump | OpJumpi => opJumpi | OpJumpdest => opJumpdest
  | OpPc => opPc | OpMsize => opMsize | OpGas => opGas
  | OpCreate => opCreate | OpCreate2 => opCreate2 | OpCall => opCall | OpCallCode => opCallCode
  | OpDelegateCall => opDelegateCall | OpStaticCall => opStaticCall
  | OpReturn | OpRevert => opReturn | OpStop => opStop | OpSuicide => opSuicide | OpPush1 => opPush1
  | MakePush size n => makePush size n | MakeDup n => makeDup n | MakeSwap n => makeSwap n | MakeLog n => makeLog n
  end.

End Instructions.
