(* ===== verification/EvmJumpTable.v ===== *)
(** The jump tables of the EVM: src/l2geth/core/vm/jump_table.go, opcodes.go,
    stack_table.go and eips.go, with the choice of
    [NewEVMInterpreter] in src/l2geth/core/vm/interpreter.go.

    A table is a finite map: the opcodes it holds are the valid ones.  The
    functions of an operation are given by name, so that what holds of every
    operation of a table is checked by computation. *)

From S2P Require Import Prelude EvmCommon EvmAnalysis EvmGas EvmInstructions.

(** ** Opcodes and constants *)

Abbreviation STOP := 0x0 (only parsing).
Abbreviation ADD := 0x1 (only parsing).
Abbreviation MUL := 0x2 (only parsing).
Abbreviation SUB := 0x3 (only parsing).
Abbreviation DIV := 0x4 (only parsing).
Abbreviation SDIV := 0x5 (only parsing).
Abbreviation MOD := 0x6 (only parsing).
Abbreviation SMOD := 0x7 (only parsing).
Abbreviation ADDMOD := 0x8 (only parsing).
Abbreviation MULMOD := 0x9 (only parsing).
Abbreviation EXP := 0xa (only parsing).
Abbreviation SIGNEXTEND := 0xb (only parsing).
Abbreviation LT := 0x10 (only parsing).
Abbreviation GT := 0x11 (only parsing).
Abbreviation SLT := 0x12 (only parsing).
Abbreviation SGT := 0x13 (only parsing).
Abbreviation EQ := 0x14 (only parsing).
Abbreviation ISZERO := 0x15 (only parsing).
Abbreviation AND := 0x16 (only parsing).
Abbreviation OR := 0x17 (only parsing).
Abbreviation XOR := 0x18 (only parsing).
Abbreviation NOT := 0x19 (only parsing).
Abbreviation BYTE := 0x1a (only parsing).
Abbreviation SHL := 0x1b (only parsing).
Abbreviation SHR := 0x1c (only parsing).
Abbreviation SAR := 0x1d (only parsing).
Abbreviation SHA3 := 0x20 (only parsing).
Abbreviation ADDRESS := 0x30 (only parsing).
Abbreviation BALANCE := 0x31 (only parsing).
Abbreviation ORIGIN := 0x32 (only parsing).
Abbreviation CALLER := 0x33 (only parsing).
Abbreviation CALLVALUE := 0x34 (only parsing).
Abbreviation CALLDATALOAD := 0x35 (only parsing).
Abbreviation CALLDATASIZE := 0x36 (only parsing).
Abbreviation CALLDATACOPY := 0x37 (only parsing).
Abbreviation CODESIZE := 0x38 (only parsing).
Abbreviation CODECOPY := 0x39 (only parsing).
Abbreviation GASPRICE := 0x3a (only parsing).
Abbreviation EXTCODESIZE := 0x3b (only parsing).
Abbreviation EXTCODECOPY := 0x3c (only parsing).
Abbreviation RETURNDATASIZE := 0x3d (only parsing).
Abbreviation RETURNDATACOPY := 0x3e (only parsing).
Abbreviation EXTCODEHASH := 0x3f (only parsing).
Abbreviation BLOCKHASH := 0x40 (only parsing).
Abbreviation COINBASE := 0x41 (only parsing).
Abbreviation TIMESTAMP := 0x42 (only parsing).
Abbreviation NUMBER := 0x43 (only parsing).
Abbreviation DIFFICULTY := 0x44 (only parsing).
Abbreviation GASLIMIT := 0x45 (only parsing).
Abbreviation CHAINID := 0x46 (only parsing).
Abbreviation SELFBALANCE := 0x47 (only parsing).
Abbreviation L1BLOCKNUMBER := 0x4b (only parsing).
Abbreviation POP := 0x50 (only parsing).
Abbreviation MLOAD := 0x51 (only parsing).
Abbreviation MSTORE := 0x52 (only parsing).
Abbreviation MSTORE8 := 0x53 (only parsing).
Abbreviation SLOAD := 0x54 (only parsing).
Abbreviation SSTORE := 0x55 (only parsing).
Abbreviation JUMP := 0x56 (only parsing).
Abbreviation JUMPI := 0x57 (only parsing).
Abbreviation PC := 0x58 (only parsing).
Abbreviation MSIZE := 0x59 (only parsing).
Abbreviation GAS := 0x5a (only parsing).
Abbreviation PUSH2 := 0x61 (only parsing).
Abbreviation PUSH3 := 0x62 (only parsing).
Abbreviation PUSH4 := 0x63 (only parsing).
Abbreviation PUSH5 := 0x64 (only parsing).
Abbreviation PUSH6 := 0x65 (only parsing).
Abbreviation PUSH7 := 0x66 (only parsing).
Abbreviation PUSH8 := 0x67 (only parsing).
Abbreviation PUSH9 := 0x68 (only parsing).
Abbreviation PUSH10 := 0x69 (only parsing).
Abbreviation PUSH11 := 0x6a (only parsing).
Abbreviation PUSH12 := 0x6b (only parsing).
Abbreviation PUSH13 := 0x6c (only parsing).
Abbreviation PUSH14 := 0x6d (only parsing).
Abbreviation PUSH15 := 0x6e (only parsing).
Abbreviation PUSH16 := 0x6f (only parsing).
Abbreviation PUSH17 := 0x70 (only parsing).
Abbreviation PUSH18 := 0x71 (only parsing).
Abbreviation PUSH19 := 0x72 (only parsing).
Abbreviation PUSH20 := 0x73 (only parsing).
Abbreviation PUSH21 := 0x74 (only parsing).
Abbreviation PUSH22 := 0x75 (only parsing).
Abbreviation PUSH23 := 0x76 (only parsing).
Abbreviation PUSH24 := 0x77 (only parsing).
Abbreviation PUSH25 := 0x78 (only parsing).
Abbreviation PUSH26 := 0x79 (only parsing).
Abbreviation PUSH27 := 0x7a (only parsing).
Abbreviation PUSH28 := 0x7b (only parsing).
Abbreviation PUSH29 := 0x7c (only parsing).
Abbreviation PUSH30 := 0x7d (only parsing).
Abbreviation PUSH31 := 0x7e (only parsing).
Abbreviation DUP1 := 0x80 (only parsing).
Abbreviation DUP2 := 0x81 (only parsing).
Abbreviation DUP3 := 0x82 (only parsing).
Abbreviation DUP4 := 0x83 (only parsing).
Abbreviation DUP5 := 0x84 (only parsing).
Abbreviation DUP6 := 0x85 (only parsing).
Abbreviation DUP7 := 0x86 (only parsing).
Abbreviation DUP8 := 0x87 (only parsing).
Abbreviation DUP9 := 0x88 (only parsing).
Abbreviation DUP10 := 0x89 (only parsing).
Abbreviation DUP11 := 0x8a (only parsing).
Abbreviation DUP12 := 0x8b (only parsing).
Abbreviation DUP13 := 0x8c (only parsing).
Abbreviation DUP14 := 0x8d (only parsing).
Abbreviation DUP15 := 0x8e (only parsing).
Abbreviation DUP16 := 0x8f (only parsing).
Abbreviation SWAP1 := 0x90 (only parsing).
Abbreviation SWAP2 := 0x91 (only parsing).
Abbreviation SWAP3 := 0x92 (only parsing).
Abbreviation SWAP4 := 0x93 (only parsing).
Abbreviation SWAP5 := 0x94 (only parsing).
Abbreviation SWAP6 := 0x95 (only parsing).
Abbreviation SWAP7 := 0x96 (only parsing).
Abbreviation SWAP8 := 0x97 (only parsing).
Abbreviation SWAP9 := 0x98 (only parsing).
Abbreviation SWAP10 := 0x99 (only parsing).
Abbreviation SWAP11 := 0x9a (only parsing).
Abbreviation SWAP12 := 0x9b (only parsing).
Abbreviation SWAP13 := 0x9c (only parsing).
Abbreviation SWAP14 := 0x9d (only parsing).
Abbreviation SWAP15 := 0x9e (only parsing).
Abbreviation SWAP16 := 0x9f (only parsing).
Abbreviation LOG0 := 0xa0 (only parsing).
Abbreviation LOG1 := 0xa1 (only parsing).
Abbreviation LOG2 := 0xa2 (only parsing).
Abbreviation LOG3 := 0xa3 (only parsing).
Abbreviation LOG4 := 0xa4 (only parsing).
Abbreviation CREATE := 0xf0 (only parsing).
Abbreviation CALL := 0xf1 (only parsing).
Abbreviation CALLCODE := 0xf2 (only parsing).
Abbreviation RETURN := 0xf3 (only parsing).
Abbreviation DELEGATECALL := 0xf4 (only parsing).
Abbreviation CREATE2 := 0xf5 (only parsing).
Abbreviation STATICCALL := 0xfa (only parsing).
Abbreviation REVERT := 0xfd (only parsing).
Abbreviation SELFDESTRUCT := 0xff (only parsing).

Abbreviation StackLimit := 1024 (only parsing).
Abbreviation JumpdestGas := 1 (only parsing).
Abbreviation CreateGas := 32000 (only parsing).
Abbreviation Create2Gas := 32000 (only parsing).
Abbreviation CallGasFrontier := 40 (only parsing).
Abbreviation CallGasEIP150 := 700 (only parsing).
Abbreviation BalanceGasFrontier := 20 (only parsing).
Abbreviation BalanceGasEIP150 := 400 (only parsing).
Abbreviation BalanceGasEIP1884 := 700 (only parsing).
Abbreviation ExtcodeSizeGasFrontier := 20 (only parsing).
Abbreviation ExtcodeSizeGasEIP150 := 700 (only parsing).
Abbreviation SloadGasFrontier := 50 (only parsing).
Abbreviation SloadGasEIP150 := 200 (only parsing).
Abbreviation SloadGasEIP1884 := 800 (only parsing).
Abbreviation ExtcodeHashGasConstantinople := 400 (only parsing).
Abbreviation ExtcodeHashGasEIP1884 := 700 (only parsing).
Abbreviation ExtcodeCopyBaseFrontier := 20 (only parsing).
Abbreviation ExtcodeCopyBaseEIP150 := 700 (only parsing).

(** ** Operations *)

Record operation := {
  op_execute : executionFunc;
  constantGas : Z;
  dynamicGas : option gasFunc;
  minStack : Z;
  maxStack : Z;
  memorySize : option memorySizeFunc;
  halts : bool;
  jumps : bool;
  writes : bool;
  reverts : bool;
  returns : bool;
}.

(** An operation that pops and pushes; [minStack] and [maxStack] of
    stack_table.go give its bounds. *)
Definition stack_op (f : executionFunc) (gas pops pushes : Z) : operation :=
  {| op_execute := f; constantGas := gas; dynamicGas := None; minStack := pops; maxStack := StackLimit + pops - pushes;
     memorySize := None; halts := false; jumps := false; writes := false; reverts := false; returns := false |}.

Definition constant (g : Z) (o : operation) : operation :=
  {| op_execute := op_execute o; constantGas := g; dynamicGas := dynamicGas o; minStack := minStack o;
     maxStack := maxStack o; memorySize := memorySize o; halts := halts o; jumps := jumps o; writes := writes o;
     reverts := reverts o; returns := returns o |}.

Definition dynamic (g : gasFunc) (o : operation) : operation :=
  {| op_execute := op_execute o; constantGas := constantGas o; dynamicGas := Some g; minStack := minStack o;
     maxStack := maxStack o; memorySize := memorySize o; halts := halts o; jumps := jumps o; writes := writes o;
     reverts := reverts o; returns := returns o |}.

Definition memory (m : memorySizeFunc) (o : operation) : operation :=
  {| op_execute := op_execute o; constantGas := constantGas o; dynamicGas := dynamicGas o; minStack := minStack o;
     maxStack := maxStack o; memorySize := Some m; halts := halts o; jumps := jumps o; writes := writes o;
     reverts := reverts o; returns := returns o |}.

Definition halting (o : operation) : operation :=
  {| op_execute := op_execute o; constantGas := constantGas o; dynamicGas := dynamicGas o; minStack := minStack o;
     maxStack := maxStack o; memorySize := memorySize o; halts := true; jumps := jumps o; writes := writes o; reverts := reverts o; returns := returns o |}.

Definition jumping (o : operation) : operation :=
  {| op_execute := op_execute o; constantGas := constantGas o; dynamicGas := dynamicGas o; minStack := minStack o;
     maxStack := maxStack o; memorySize := memorySize o; halts := halts o; jumps := true; writes := writes o; reverts := reverts o; returns := returns o |}.

Definition writing (o : operation) : operation :=
  {| op_execute := op_execute o; constantGas := constantGas o; dynamicGas := dynamicGas o; minStack := minStack o;
     maxStack := maxStack o; memorySize := memorySize o; halts := halts o; jumps := jumps o; writes := true; reverts := reverts o; returns := returns o |}.

Definition reverting (o : operation) : operation :=
  {| op_execute := op_execute o; constantGas := constantGas o; dynamicGas := dynamicGas o; minStack := minStack o;
     maxStack := maxStack o; memorySize := memorySize o; halts := halts o; jumps := jumps o; writes := writes o; reverts := true; returns := returns o |}.

Definition returning (o : operation) : operation :=
  {| op_execute := op_execute o; constantGas := constantGas o; dynamicGas := dynamicGas o; minStack := minStack o;
     maxStack := maxStack o; memorySize := memorySize o; halts := halts o; jumps := jumps o; writes := writes o; reverts := reverts o; returns := true |}.

#[local] Notation "o |> f" := (f o) (at level 50, left associativity, only parsing).

(** ** Frontier *)

Definition frontier_arithmetic : list (Z * operation) := [
  (STOP, stack_op OpStop 0 0 0 |> halting);
  (ADD, stack_op OpAdd GasFastestStep 2 1);
  (MUL, stack_op OpMul GasFastStep 2 1);
  (SUB, stack_op OpSub GasFastestStep 2 1);
  (DIV, stack_op OpDiv GasFastStep 2 1);
  (SDIV, stack_op OpSdiv GasFastStep 2 1);
  (MOD, stack_op OpMod GasFastStep 2 1);
  (SMOD, stack_op OpSmod GasFastStep 2 1);
  (ADDMOD, stack_op OpAddmod GasMidStep 3 1);
  (MULMOD, stack_op OpMulmod GasMidStep 3 1);
  (EXP, stack_op OpExp 0 2 1 |> dynamic GasExpFrontier);
  (SIGNEXTEND, stack_op OpSignExtend GasFastStep 2 1);
  (LT, stack_op OpLt GasFastestStep 2 1);
  (GT, stack_op OpGt GasFastestStep 2 1);
  (SLT, stack_op OpSlt GasFastestStep 2 1);
  (SGT, stack_op OpSgt GasFastestStep 2 1);
  (EQ, stack_op OpEq GasFastestStep 2 1);
  (ISZERO, stack_op OpIszero GasFastestStep 1 1);
  (AND, stack_op OpAnd GasFastestStep 2 1);
  (XOR, stack_op OpXor GasFastestStep 2 1);
  (OR, stack_op OpOr GasFastestStep 2 1);
  (NOT, stack_op OpNot GasFastestStep 1 1);
  (BYTE, stack_op OpByte GasFastestStep 2 1)].

Definition frontier_environment : list (Z * operation) := [
  (SHA3, stack_op OpSha3 Sha3Gas 2 1 |> dynamic GasSha3 |> memory MemorySha3);
  (ADDRESS, stack_op OpAddress GasQuickStep 0 1);
  (BALANCE, stack_op OpBalance BalanceGasFrontier 1 1);
  (ORIGIN, stack_op OpOrigin GasQuickStep 0 1);
  (CALLER, stack_op OpCaller GasQuickStep 0 1);
  (CALLVALUE, stack_op OpCallValue GasQuickStep 0 1);
  (CALLDATALOAD, stack_op OpCallDataLoad GasFastestStep 1 1);
  (CALLDATASIZE, stack_op OpCallDataSize GasQuickStep 0 1);
  (CALLDATACOPY, stack_op OpCallDataCopy GasFastestStep 3 0 |> dynamic GasCallDataCopy |> memory MemoryCallDataCopy);
  (CODESIZE, stack_op OpCodeSize GasQuickStep 0 1);
  (CODECOPY, stack_op OpCodeCopy GasFastestStep 3 0 |> dynamic GasCodeCopy |> memory MemoryCodeCopy);
  (GASPRICE, stack_op OpGasprice GasQuickStep 0 1);
  (EXTCODESIZE, stack_op OpExtCodeSize ExtcodeSizeGasFrontier 1 1);
  (EXTCODECOPY, stack_op OpExtCodeCopy ExtcodeCopyBaseFrontier 4 0 |> dynamic GasExtCodeCopy |> memory MemoryExtCodeCopy);
  (BLOCKHASH, stack_op OpBlockhash GasExtStep 1 1);
  (COINBASE, stack_op OpCoinbase GasQuickStep 0 1);
  (TIMESTAMP, stack_op OpTimestamp GasQuickStep 0 1);
  (NUMBER, stack_op OpNumber GasQuickStep 0 1);
  (DIFFICULTY, stack_op OpDifficulty GasQuickStep 0 1);
  (GASLIMIT, stack_op OpGasLimit GasQuickStep 0 1)].

Definition frontier_memory : list (Z * operation) := [
  (POP, stack_op OpPop GasQuickStep 1 0);
  (MLOAD, stack_op OpMload GasFastestStep 1 1 |> dynamic GasMLoad |> memory MemoryMLoad);
  (MSTORE, stack_op OpMstore GasFastestStep 2 0 |> dynamic GasMStore |> memory MemoryMStore);
  (MSTORE8, stack_op OpMstore8 GasFastestStep 2 0 |> dynamic GasMStore8 |> memory MemoryMStore8);
  (SLOAD, stack_op OpSload SloadGasFrontier 1 1);
  (SSTORE, stack_op OpSstore 0 2 0 |> dynamic GasSStore |> writing);
  (JUMP, stack_op OpJump GasMidStep 1 0 |> jumping);
  (JUMPI, stack_op OpJumpi GasSlowStep 2 0 |> jumping);
  (PC, stack_op OpPc GasQuickStep 0 1);
  (MSIZE, stack_op OpMsize GasQuickStep 0 1);
  (GAS, stack_op OpGas GasQuickStep 0 1);
  (JUMPDEST, stack_op OpJumpdest JumpdestGas 0 0)].

Definition frontier_push : list (Z * operation) := [
  (PUSH1, stack_op OpPush1 GasFastestStep 0 1);
  (PUSH2, stack_op (MakePush 2 2) GasFastestStep 0 1);
  (PUSH3, stack_op (MakePush 3 3) GasFastestStep 0 1);
  (PUSH4, stack_op (MakePush 4 4) GasFastestStep 0 1);
  (PUSH5, stack_op (MakePush 5 5) GasFastestStep 0 1);
  (PUSH6, stack_op (MakePush 6 6) GasFastestStep 0 1);
  (PUSH7, stack_op (MakePush 7 7) GasFastestStep 0 1);
  (PUSH8, stack_op (MakePush 8 8) GasFastestStep 0 1);
  (PUSH9, stack_op (MakePush 9 9) GasFastestStep 0 1);
  (PUSH10, stack_op (MakePush 10 10) GasFastestStep 0 1);
  (PUSH11, stack_op (MakePush 11 11) GasFastestStep 0 1);
  (PUSH12, stack_op (MakePush 12 12) GasFastestStep 0 1);
  (PUSH13, stack_op (MakePush 13 13) GasFastestStep 0 1);
  (PUSH14, stack_op (MakePush 14 14) GasFastestStep 0 1);
  (PUSH15, stack_op (MakePush 15 15) GasFastestStep 0 1);
  (PUSH16, stack_op (MakePush 16 16) GasFastestStep 0 1);
  (PUSH17, stack_op (MakePush 17 17) GasFastestStep 0 1);
  (PUSH18, stack_op (MakePush 18 18) GasFastestStep 0 1);
  (PUSH19, stack_op (MakePush 19 19) GasFastestStep 0 1);
  (PUSH20, stack_op (MakePush 20 20) GasFastestStep 0 1);
  (PUSH21, stack_op (MakePush 21 21) GasFastestStep 0 1);
  (PUSH22, stack_op (MakePush 22 22) GasFastestStep 0 1);
  (PUSH23, stack_op (MakePush 23 23) GasFastestStep 0 1);
  (PUSH24, stack_op (MakePush 24 24) GasFastestStep 0 1);
  (PUSH25, stack_op (MakePush 25 25) GasFastestStep 0 1);
  (PUSH26, stack_op (MakePush 26 26) GasFastestStep 0 1);
  (PUSH27, stack_op (MakePush 27 27) GasFastestStep 0 1);
  (PUSH28, stack_op (MakePush 28 28) GasFastestStep 0 1);
  (PUSH29, stack_op (MakePush 29 29) GasFastestStep 0 1);
  (PUSH30, stack_op (MakePush 30 30) GasFastestStep 0 1);
  (PUSH31, stack_op (MakePush 31 31) GasFastestStep 0 1);
  (PUSH32, stack_op (MakePush 32 32) GasFastestStep 0 1)].

Definition frontier_dup : list (Z * operation) := [
  (DUP1, stack_op (MakeDup 1) GasFastestStep 1 2);
  (DUP2, stack_op (MakeDup 2) GasFastestStep 2 3);
  (DUP3, stack_op (MakeDup 3) GasFastestStep 3 4);
  (DUP4, stack_op (MakeDup 4) GasFastestStep 4 5);
  (DUP5, stack_op (MakeDup 5) GasFastestStep 5 6);
  (DUP6, stack_op (MakeDup 6) GasFastestStep 6 7);
  (DUP7, stack_op (MakeDup 7) GasFastestStep 7 8);
  (DUP8, stack_op (MakeDup 8) GasFastestStep 8 9);
  (DUP9, stack_op (MakeDup 9) GasFastestStep 9 10);
  (DUP10, stack_op (MakeDup 10) GasFastestStep 10 11);
  (DUP11, stack_op (MakeDup 11) GasFastestStep 11 12);
  (DUP12, stack_op (MakeDup 12) GasFastestStep 12 13);
  (DUP13, stack_op (MakeDup 13) GasFastestStep 13 14);
  (DUP14, stack_op (MakeDup 14) GasFastestStep 14 15);
  (DUP15, stack_op (MakeDup 15) GasFastestStep 15 16);
  (DUP16, stack_op (MakeDup 16) GasFastestStep 16 17)].

Definition frontier_swap : list (Z * operation) := [
  (SWAP1, stack_op (MakeSwap 1) GasFastestStep 2 2);
  (SWAP2, stack_op (MakeSwap 2) GasFastestStep 3 3);
  (SWAP3, stack_op (MakeSwap 3) GasFastestStep 4 4);
  (SWAP4, stack_op (MakeSwap 4) GasFastestStep 5 5);
  (SWAP5, stack_op (MakeSwap 5) GasFastestStep 6 6);
  (SWAP6, stack_op (MakeSwap 6) GasFastestStep 7 7);
  (SWAP7, stack_op (MakeSwap 7) GasFastestStep 8 8);
  (SWAP8, stack_op (MakeSwap 8) GasFastestStep 9 9);
  (SWAP9, stack_op (MakeSwap 9) GasFastestStep 10 10);
  (SWAP10, stack_op (MakeSwap 10) GasFastestStep 11 11);
  (SWAP11, stack_op (MakeSwap 11) GasFastestStep 12 12);
  (SWAP12, stack_op (MakeSwap 12) GasFastestStep 13 13);
  (SWAP13, stack_op (MakeSwap 13) GasFastestStep 14 14);
  (SWAP14, stack_op (MakeSwap 14) GasFastestStep 15 15);
  (SWAP15, stack_op (MakeSwap 15) GasFastestStep 16 16);
  (SWAP16, stack_op (MakeSwap 16) GasFastestStep 17 17)].

Definition frontier_calls : list (Z * operation) := [
  (LOG0, stack_op (MakeLog 0) 0 2 0 |> dynamic (GasLog 0) |> memory MemoryLog |> writing);
  (LOG1, stack_op (MakeLog 1) 0 3 0 |> dynamic (GasLog 1) |> memory MemoryLog |> writing);
  (LOG2, stack_op (MakeLog 2) 0 4 0 |> dynamic (GasLog 2) |> memory MemoryLog |> writing);
  (LOG3, stack_op (MakeLog 3) 0 5 0 |> dynamic (GasLog 3) |> memory MemoryLog |> writing);
  (LOG4, stack_op (MakeLog 4) 0 6 0 |> dynamic (GasLog 4) |> memory MemoryLog |> writing);
  (CREATE, stack_op OpCreate CreateGas 3 1 |> dynamic GasCreate |> memory MemoryCreate |> writing |> returning);
  (CALL, stack_op OpCall CallGasFrontier 7 1 |> dynamic GasCall |> memory MemoryCall |> returning);
  (CALLCODE, stack_op OpCallCode CallGasFrontier 7 1 |> dynamic GasCallCode |> memory MemoryCall |> returning);
  (RETURN, stack_op OpReturn 0 2 0 |> dynamic GasReturn |> memory MemoryReturn |> halting);
  (SELFDESTRUCT, stack_op OpSuicide 0 1 0 |> dynamic GasSelfdestruct |> halting |> writing);
  (L1BLOCKNUMBER, stack_op OpL1BlockNumber GasQuickStep 0 1)].

Definition JumpTable : Type := gmap Z operation.

Definition newFrontierInstructionSet : JumpTable :=
  list_to_map (frontier_arithmetic ++ frontier_environment ++ frontier_memory ++ frontier_push ++ frontier_dup ++
               frontier_swap ++ frontier_calls).

(** ** The forks *)

Definition newHomesteadInstructionSet : JumpTable :=
  <[DELEGATECALL := stack_op OpDelegateCall CallGasFrontier 6 1 |> dynamic GasDelegateCall |> memory MemoryDelegateCall
                    |> returning]> newFrontierInstructionSet.

(** An assignment to a field of an entry. *)
Definition update (op : Z) (f : operation → operation) (jt : JumpTable) : JumpTable := alter f op jt.

Definition newTangerineWhistleInstructionSet : JumpTable :=
  newHomesteadInstructionSet
  |> update BALANCE (constant BalanceGasEIP150)
  |> update EXTCODESIZE (constant ExtcodeSizeGasEIP150)
  |> update SLOAD (constant SloadGasEIP150)
  |> update EXTCODECOPY (constant ExtcodeCopyBaseEIP150)
  |> update CALL (constant CallGasEIP150)
  |> update CALLCODE (constant CallGasEIP150)
  |> update DELEGATECALL (constant CallGasEIP150).

Definition newSpuriousDragonInstructionSet : JumpTable :=
  newTangerineWhistleInstructionSet |> update EXP (dynamic GasExpEIP158).

Definition newByzantiumInstructionSet : JumpTable :=
  newSpuriousDragonInstructionSet
  |> insert STATICCALL (stack_op OpStaticCall CallGasEIP150 6 1 |> dynamic GasStaticCall |> memory MemoryStaticCall
                        |> returning)
  |> insert RETURNDATASIZE (stack_op OpReturnDataSize GasQuickStep 0 1)
  |> insert RETURNDATACOPY (stack_op OpReturnDataCopy GasFastestStep 3 0 |> dynamic GasReturnDataCopy
                            |> memory MemoryReturnDataCopy)
  |> insert REVERT (stack_op OpRevert 0 2 0 |> dynamic GasRevert |> memory MemoryRevert |> reverting |> returning).

Definition newConstantinopleInstructionSet : JumpTable :=
  newByzantiumInstructionSet
  |> insert SHL (stack_op OpSHL GasFastestStep 2 1)
  |> insert SHR (stack_op OpSHR GasFastestStep 2 1)
  |> insert SAR (stack_op OpSAR GasFastestStep 2 1)
  |> insert EXTCODEHASH (stack_op OpExtCodeHash ExtcodeHashGasConstantinople 1 1)
  |> insert CREATE2 (stack_op OpCreate2 Create2Gas 4 1 |> dynamic GasCreate2 |> memory MemoryCreate2 |> writing
                     |> returning).

Definition enable1344 (jt : JumpTable) : JumpTable := jt |> insert CHAINID (stack_op OpChainID GasQuickStep 0 1).

Definition enable1884 (jt : JumpTable) : JumpTable :=
  jt
  |> update BALANCE (constant BalanceGasEIP1884)
  |> update EXTCODEHASH (constant ExtcodeHashGasEIP1884)
  |> update SLOAD (constant SloadGasEIP1884)
  |> insert SELFBALANCE (stack_op OpSelfBalance GasFastStep 0 1).

Definition enable2200 (jt : JumpTable) : JumpTable := jt |> update SSTORE (dynamic GasSStoreEIP2200).

Definition newIstanbulInstructionSet : JumpTable :=
  newConstantinopleInstructionSet |> enable1344 |> enable1884 |> enable2200.

(** Both fields of an entry. *)
Definition priced (g : Z) (d : gasFunc) (o : operation) : operation := o |> constant g |> dynamic d.

Definition enable2929 (jt : JumpTable) : JumpTable :=
  jt
  |> update SSTORE (dynamic GasSStoreEIP2929)
  |> update SLOAD (priced 0 GasSLoadEIP2929)
  |> update EXTCODECOPY (priced WarmStorageReadCostEIP2929 GasExtCodeCopyEIP2929)
  |> update EXTCODESIZE (priced WarmStorageReadCostEIP2929 GasEip2929AccountCheck)
  |> update EXTCODEHASH (priced WarmStorageReadCostEIP2929 GasEip2929AccountCheck)
  |> update BALANCE (priced WarmStorageReadCostEIP2929 GasEip2929AccountCheck)
  |> update CALL (priced WarmStorageReadCostEIP2929 GasCallEIP2929)
  |> update CALLCODE (priced WarmStorageReadCostEIP2929 GasCallCodeEIP2929)
  |> update STATICCALL (priced WarmStorageReadCostEIP2929 GasStaticCallEIP2929)
  |> update DELEGATECALL (priced WarmStorageReadCostEIP2929 GasDelegateCallEIP2929)
  |> update SELFDESTRUCT (priced SelfdestructGasEIP150 GasSelfdestructEIP2929).

Definition enable3529 (jt : JumpTable) : JumpTable :=
  jt |> update SSTORE (dynamic GasSStoreEIP3529) |> update SELFDESTRUCT (dynamic GasSelfdestructEIP3529).

Definition enableMinimal2929 (jt : JumpTable) : JumpTable :=
  jt
  |> update SLOAD (priced 0 GasSLoadEIP2929Mantle)
  |> update EXTCODECOPY (priced WarmStorageReadCostEIP2929 GasExtCodeCopyEIP2929Mantle)
  |> update EXTCODESIZE (priced WarmStorageReadCostEIP2929 GasEip2929AccountCheckMantle)
  |> update EXTCODEHASH (priced WarmStorageReadCostEIP2929 GasEip2929AccountCheckMantle)
  |> update BALANCE (priced WarmStorageReadCostEIP2929 GasEip2929AccountCheckMantle)
  |> update CALL (priced WarmStorageReadCostEIP2929 GasCallEIP2929Mantle)
  |> update CALLCODE (priced WarmStorageReadCostEIP2929 GasCallCodeEIP2929Mantle)
  |> update STATICCALL (priced WarmStorageReadCostEIP2929 GasStaticCallEIP2929Mantle)
  |> update DELEGATECALL (priced WarmStorageReadCostEIP2929 GasDelegateCallEIP2929Mantle)
  |> update SELFDESTRUCT (priced SelfdestructGasEIP150 GasSelfdestructEIP2929Mantle).

Definition newBerlinInstructionSet : JumpTable := newIstanbulInstructionSet |> enable2929 |> enable3529.

(** The table of an interpreter without extra EIPs; [UsingBVM] holds. *)
Definition instruction_set (rules : Rules) : JumpTable :=
  if IsBerlin rules then newBerlinInstructionSet
  else if IsIstanbul rules then enableMinimal2929 newIstanbulInstructionSet
  else if IsConstantinople rules then newConstantinopleInstructionSet
  else if IsByzantium rules then newByzantiumInstructionSet
  else if IsEIP158 rules then newSpuriousDragonInstructionSet
  else if IsEIP150 rules then newTangerineWhistleInstructionSet
  else if IsHomestead rules then newHomesteadInstructionSet
  else newFrontierInstructionSet.
