(* ===== verification/EvmInterpreter.v ===== *)
(** The interpreter of the EVM: [EVMInterpreter.Run] of
    src/l2geth/core/vm/interpreter.go, [run] of src/l2geth/core/vm/evm.go and
    [RunPrecompiledContract] of src/l2geth/core/vm/contracts.go.

    A frame takes a fuel, which every iteration and every nested call lowers by
    one; running out of it is a panic that the code does not have.  Tracing and
    the flag of [Cancel] are not modelled. *)

From S2P Require Import Prelude StateDB EvmCommon EvmCalls EvmGas EvmInstructions EvmJumpTable.

Definition ErrWriteProtection : error := ErrVar "vm.ErrWriteProtection" "evm: write protection".

(** ** Precompiled contracts *)

Record PrecompiledContract := {
  RequiredGas : list byte → outcome Z;
  precompile_Run : list byte → outcome (list byte);
}.

Definition RunPrecompiledContract (p : PrecompiledContract) (input : list byte) (c : Contract) (e : EVM) : outcome result :=
  gas ← RequiredGas p input;
  if c_Gas c <? gas then Ok ([], c_Gas c, Some vm_ErrOutOfGas, e)
  else
    match precompile_Run p input with
    | Ok ret => Ok (ret, c_Gas c - gas, None, e)
    | Err err => Ok ([], c_Gas c - gas, Some err, e)
    | Panic m => Panic m
    end.

(** ** One iteration *)

(** The numbers in the messages of these errors are left out. *)
Definition invalid_opcode : error := ErrNew "invalid opcode".
Definition stack_underflow : error := ErrNew "stack underflow".
Definition stack_limit_reached : error := ErrNew "stack limit reached".

(** How an iteration ends without an error. *)
Inductive signal := Continue | Return (res : list byte) (err : option error).

(** The result of an instruction and its error. *)
Definition attempt (m : exec (list byte)) : exec (list byte * option error) :=
  st_catch (res ← m; mret (res, None)) (λ err, mret ([], Some err)).

Section Interpreter.
  Context (Keccak256 : list byte → list byte) (ContractCode : list byte → list byte).
  Context (rules : Rules) (ctx : BlockContext).
  Context (precompiles : gmap address PrecompiledContract).

Definition precompiled : list address := (map_to_list precompiles).*1.

Definition check_stack (o : operation) : exec () :=
  sLen ← st_gets (λ f, len (f_stack f));
  if sLen <? minStack o then st_fail stack_underflow
  else if maxStack o <? sLen then st_fail stack_limit_reached
  else mret tt.

Definition check_write (op : Z) (o : operation) : exec () :=
  ro ← st_gets (λ f, readOnly (f_evm f));
  if ro && IsByzantium rules then
    if writes o then st_fail ErrWriteProtection
    else if op =? CALL then
      value ← Back 2;
      if negb (Z.sgn value =? 0) then st_fail ErrWriteProtection else mret tt
    else mret tt
  else mret tt.

Definition pay (gas : Z) : exec () := paid ← UseGas gas; if negb paid then st_fail vm_ErrOutOfGas else mret tt.

(** The memory that an operation needs, in whole words. *)
Definition memory_size (o : operation) : exec Z :=
  match memorySize o with
  | None => mret 0
  | Some m =>
      r ← memorySize_of m;
      memSize ← no_overflow errGasUintOverflow r;
      no_overflow errGasUintOverflow (SafeMul (toWordSize memSize) 32)
  end.

Definition pay_dynamic (c : Contract) (o : operation) (size : Z) : exec () :=
  match dynamicGas o with
  | None => mret tt
  | Some g =>
      dynamicCost ← st_catch (dynamicGas_of Keccak256 rules c g size) (λ _, st_fail vm_ErrOutOfGas);
      pay dynamicCost
  end.

(** The end of an iteration. *)
Definition finish (o : operation) (r : list byte * option error) : exec signal :=
  let '(res, err) := r in
  (if returns o then modify_evm (set_returnData res) else mret tt);;
  match err with
  | Some err => st_fail err
  | None =>
      if reverts o then mret (Return res (Some errExecutionReverted))
      else if halts o then mret (Return res None)
      else if negb (jumps o) then st_modify (λ f, set_pc (u64 (pc f + 1)) f);; mret Continue
      else mret Continue
  end.

(** The part of an iteration before the operation is executed: its checks, its
    gas and its memory. *)
Definition prepare (c : Contract) : exec operation :=
  p ← st_gets pc;
  let op := GetOp c p in
  match instruction_set rules !! op with
  | None => st_fail invalid_opcode
  | Some o =>
      check_stack o;;
      check_write op o;;
      pay (constantGas o);;
      size ← memory_size o;
      pay_dynamic c o size;;
      (if 0 <? size then mem_Resize size else mret tt);;
      mret o
  end.

(** One iteration of the loop of [Run]; [run] runs nested contracts. *)
Definition step (run : Contract → list byte → bool → EVM → outcome result) (c : Contract) (input : list byte)
    : exec signal :=
  o ← prepare c;
  r ← attempt (execute_of Keccak256 ContractCode run rules precompiled ctx c input (op_execute o));
  finish o r.

(** ** Running contracts *)

(** [Run], with the loop as a parameter. *)
Definition Run (loop : Contract → list byte → exec (list byte * option error)) (c : Contract) (input : list byte)
    (ro : bool) (e : EVM) : outcome result :=
  let sets := ro && negb (readOnly e) in
  let leave e := set_depth (depth e - 1) (if sets then set_readOnly false e else e) in
  let e := set_depth (depth e + 1) e in
  let e := if sets then set_readOnly true e else e in
  let e := set_returnData [] e in
  match c_Code c with
  | [] => Ok ([], c_Gas c, None, leave e)
  | _ =>
      match loop c input {| pc := 0; f_stack := []; f_store := []; lastGasCost := 0; f_Gas := c_Gas c; f_evm := e |} with
      | (Ok (ret, err), f) => Ok (ret, f_Gas f, err, leave (f_evm f))
      | (Err err, _) => Err err
      | (Panic m, _) => Panic m
      end
  end.

Definition run_contract (loop : Contract → list byte → exec (list byte * option error)) (c : Contract)
    (input : list byte) (ro : bool) (e : EVM) : outcome result :=
  match precompiles !! c_CodeAddr c with
  | Some p => RunPrecompiledContract p input c e
  | None => Run loop c input ro e
  end.

Fixpoint loop (fuel : nat) (c : Contract) (input : list byte) : exec (list byte * option error) := λ f,
  match fuel with
  | O => (Panic "out of fuel", f)
  | S fuel =>
      match step (run_contract (loop fuel)) c input f with
      | (Ok Continue, f) => loop fuel c input f
      | (Ok (Return res err), f) => (Ok (res, err), f)
      | (Err err, f) => (Ok ([], Some err), f)
      | (Panic m, f) => (Panic m, f)
      end
  end.

(** [run] *)
Definition run (fuel : nat) : Contract → list byte → bool → EVM → outcome result := run_contract (loop fuel).

End Interpreter.
