(* ===== verification/EvmPrecompiles.v ===== *)
(** The precompiled contracts, src/l2geth/core/vm/contracts.go with [getData] of
    src/l2geth/core/vm/common.go.

    RIPEMD-160 (golang.org/x/crypto), the recovery of public keys and the
    arithmetic of the curve bn256 are parameters.  Slices that are too large to
    be allocated are not modelled. *)

From S2P Require Import Prelude Rlp TxMeta Transaction BigFloat Fees StateDB EvmCommon EvmInterpreter Sha256 Blake2b.

(** ** Slices of the input *)

Definition getData (d : list byte) (start size : Z) : outcome (list byte) :=
  let length := len d in
  let start := if length <? start then length else start in
  let e := u64 (start + size) in
  let e := if length <? e then length else e in
  b ← slice d start e;
  mret (RightPadBytes b (to_int64 size)).

Definition LeftPadBytes (b : list byte) (l : Z) : list byte :=
  if l <=? len b then b else replicate (Z.to_nat (l - len b)) Byte.x00 ++ b.

Definition allZero (b : list byte) : bool := forallb (λ x, b2z x =? 0) b.

Definition byte_at (b : list byte) (n : nat) : outcome Z :=
  match b !! n with Some x => Ok (b2z x) | None => Panic "index out of range" end.

(** Gas for every word of the input. *)
Definition gas_per_word (perWord base : Z) (input : list byte) : outcome Z :=
  Ok (u64 (u64 (u64 (len input + 31) / 32 * perWord) + base)).

(** ** Hashes, signatures and copies *)

Definition sha256hash : PrecompiledContract :=
  {| RequiredGas := gas_per_word 12 60; precompile_Run := λ input, Ok (Sum256 input) |}.

Definition dataCopy : PrecompiledContract :=
  {| RequiredGas := gas_per_word 3 15; precompile_Run := λ input, Ok input |}.

(** ** Modular exponentiation *)

(** [Exp] of math/big for an exponent that is not negative and a positive modulus. *)
Fixpoint pow_mod (b : Z) (e : positive) (m : Z) : Z :=
  match e with
  | xH => b mod m
  | xO e => let r := pow_mod b e m in r * r mod m
  | xI e => let r := pow_mod b e m in r * r * b mod m
  end.

Definition big_Exp (x y m : Z) : Z := match y with Zpos e => pow_mod x e m | _ => 1 mod m end.

Definition modexpMultComplexity (x : Z) : Z :=
  if x <=? 64 then x * x
  else if x <=? 1024 then x * x / 4 + (96 * x - 3072)
  else x * x / 16 + (480 * x - 199680).

(** The input after the three lengths. *)
Definition after_lengths (input : list byte) : list byte := if 96 <? len input then drop 96 input else [].

Definition bigModExp_RequiredGas (eip2565 : bool) (input : list byte) : outcome Z :=
  baseLen ← be_val <$> getData input 0 32;
  expLen ← be_val <$> getData input 32 32;
  modLen ← be_val <$> getData input 64 32;
  let input := after_lengths input in
  expHead ← (if len input <=? baseLen then Ok 0
             else if 32 <? expLen then be_val <$> getData input (big_Uint64 baseLen) 32
             else be_val <$> getData input (big_Uint64 baseLen) (big_Uint64 expLen));
  let msb := if 0 <? BitLen expHead then BitLen expHead - 1 else 0 in
  let adjExpLen := (if 32 <? expLen then 8 * (expLen - 32) else 0) + msb in
  let gas := Z.max modLen baseLen in
  if eip2565 then
    let gas := (gas + 7) / 8 in
    let gas := gas * gas * Z.max adjExpLen 1 / 3 in
    if 64 <? BitLen gas then mret max_uint64 else if big_Uint64 gas <? 200 then mret 200 else mret (big_Uint64 gas)
  else
    let gas := modexpMultComplexity gas * Z.max adjExpLen 1 / 20 in
    if 64 <? BitLen gas then mret max_uint64 else mret (big_Uint64 gas).

Definition bigModExp_Run (input : list byte) : outcome (list byte) :=
  baseLen ← (λ b, big_Uint64 (be_val b)) <$> getData input 0 32;
  expLen ← (λ b, big_Uint64 (be_val b)) <$> getData input 32 32;
  modLen ← (λ b, big_Uint64 (be_val b)) <$> getData input 64 32;
  let input := after_lengths input in
  if (baseLen =? 0) && (modLen =? 0) then mret []
  else
    base ← be_val <$> getData input 0 baseLen;
    exp ← be_val <$> getData input baseLen expLen;
    m ← be_val <$> getData input (u64 (baseLen + expLen)) modLen;
    if BitLen m =? 0 then mret (LeftPadBytes [] (to_int64 modLen))
    else mret (LeftPadBytes (big_Bytes (big_Exp base exp m)) (to_int64 modLen)).

Definition bigModExp (eip2565 : bool) : PrecompiledContract :=
  {| RequiredGas := bigModExp_RequiredGas eip2565; precompile_Run := bigModExp_Run |}.

(** ** BLAKE2b *)

Definition errBlake2FInvalidInputLength : error := ErrVar "vm.errBlake2FInvalidInputLength" "invalid input length".
Definition errBlake2FInvalidFinalFlag : error := ErrVar "vm.errBlake2FInvalidFinalFlag" "invalid final flag".

Definition blake2F_RequiredGas (input : list byte) : outcome Z :=
  if negb (len input =? 213) then Ok 0 else be_val <$> slice input 0 4.

(** The 64-bit words from an offset on. *)
Definition words_at (input : list byte) (offset n : nat) : list Z := le_val <$> pieces 8 n (drop offset input).

Definition blake2F_Run (input : list byte) : outcome (list byte) :=
  if negb (len input =? 213) then Err errBlake2FInvalidInputLength
  else
    flag ← byte_at input 212;
    if negb (flag =? 0) && negb (flag =? 1) then Err errBlake2FInvalidFinalFlag
    else
      rounds ← be_val <$> slice input 0 4;
      let h := words_at input 4 8 in
      let m := words_at input 68 16 in
      t0 ← le_val <$> slice input 196 204;
      t1 ← le_val <$> slice input 204 212;
      mret (concat (le 8 <$> Blake2b.F h m t0 t1 (flag =? 1) (Z.to_nat rounds))).

Definition blake2F : PrecompiledContract :=
  {| RequiredGas := blake2F_RequiredGas; precompile_Run := blake2F_Run |}.

(** ** Contracts over parameters *)

(** The group operations of src/l2geth/crypto/bn256. *)
Class Bn256 := {
  G1 : Type;
  G2 : Type;
  G1_Unmarshal : list byte → outcome G1;
  G2_Unmarshal : list byte → outcome G2;
  G1_Add : G1 → G1 → G1;
  G1_ScalarMult : G1 → Z → G1;
  G1_Marshal : G1 → list byte;
  PairingCheck : list G1 → list G2 → bool;
}.

Definition errBadPairingInput : error := ErrVar "vm.errBadPairingInput" "bad elliptic curve pairing size".

Section Precompiles.
  Context (Keccak256 : list byte → list byte) (Ecrecover : list byte → list byte → outcome (list byte)).
  Context (ripemd160 : list byte → list byte) `{Bn256}.

Definition ecrecover_Run (input : list byte) : outcome (list byte) :=
  let input := RightPadBytes input 128 in
  r ← be_val <$> slice input 64 96;
  s ← be_val <$> slice input 96 128;
  v ← (λ b, u8 (b - 27)) <$> byte_at input 63;
  padding ← slice input 32 63;
  if negb (allZero padding) || negb (ValidateSignatureValues v r s false) then mret []
  else
    sig ← slice input 64 128;
    hash ← slice input 0 32;
    match Ecrecover hash (sig ++ [z2b v]) with
    | Err _ => mret []
    | Panic m => Panic m
    | Ok pubKey =>
        key ← slice pubKey 1 (len pubKey);
        tail ← slice (Keccak256 key) 12 (len (Keccak256 key));
        mret (LeftPadBytes tail 32)
    end.

Definition ecrecover : PrecompiledContract := {| RequiredGas := λ _, Ok 3000; precompile_Run := ecrecover_Run |}.

Definition ripemd160hash : PrecompiledContract :=
  {| RequiredGas := gas_per_word 120 600; precompile_Run := λ input, Ok (LeftPadBytes (ripemd160 input) 32) |}.

Definition runBn256Add (input : list byte) : outcome (list byte) :=
  b ← getData input 0 64;
  x ← G1_Unmarshal b;
  b ← getData input 64 64;
  y ← G1_Unmarshal b;
  mret (G1_Marshal (G1_Add x y)).

Definition runBn256ScalarMul (input : list byte) : outcome (list byte) :=
  b ← getData input 0 64;
  p ← G1_Unmarshal b;
  n ← be_val <$> getData input 64 32;
  mret (G1_Marshal (G1_ScalarMult p n)).

(** The loop over the points, for the pieces of 192 bytes. *)
Fixpoint pairing_points (l : list (list byte)) : outcome (list G1 * list G2) :=
  match l with
  | [] => mret ([], [])
  | b :: l =>
      cb ← slice b 0 64;
      c ← G1_Unmarshal cb;
      tb ← slice b 64 192;
      t ← G2_Unmarshal tb;
      '(cs, ts) ← pairing_points l;
      mret (c :: cs, t :: ts)
  end.

Definition runBn256Pairing (input : list byte) : outcome (list byte) :=
  if 0 <? len input mod 192 then Err errBadPairingInput
  else
    '(cs, ts) ← pairing_points (pieces 192 (length input / 192) input);
    mret (be 32 (if PairingCheck cs ts then 1 else 0)).

Definition bn256Add (gas : Z) : PrecompiledContract := {| RequiredGas := λ _, Ok gas; precompile_Run := runBn256Add |}.

Definition bn256ScalarMul (gas : Z) : PrecompiledContract :=
  {| RequiredGas := λ _, Ok gas; precompile_Run := runBn256ScalarMul |}.

Definition bn256Pairing (base perPoint : Z) : PrecompiledContract :=
  {| RequiredGas := λ input, Ok (u64 (base + u64 (len input / 192 * perPoint))); precompile_Run := runBn256Pairing |}.

(** ** The tables *)

Definition table_of (l : list PrecompiledContract) : gmap address PrecompiledContract :=
  list_to_map (imap (λ i p, (be 20 (Z.of_nat i + 1), p)) l).

Definition homestead_contracts : list PrecompiledContract := [ecrecover; sha256hash; ripemd160hash; dataCopy].

Definition istanbul_contracts (eip2565 : bool) : list PrecompiledContract :=
  homestead_contracts ++ [bigModExp eip2565; bn256Add 150; bn256ScalarMul 6000; bn256Pairing 45000 34000; blake2F].

Definition PrecompiledContractsHomestead := table_of homestead_contracts.
Definition PrecompiledContractsByzantium :=
  table_of (homestead_contracts ++ [bigModExp false; bn256Add 500; bn256ScalarMul 40000; bn256Pairing 100000 80000]).
Definition PrecompiledContractsIstanbul := table_of (istanbul_contracts false).
Definition PrecompiledContractsBerlin := table_of (istanbul_contracts true).

(** The choice of [run] and of [ActivePrecompiles]. *)
Definition precompiles_of (rules : Rules) : gmap address PrecompiledContract :=
  if IsBerlin rules then PrecompiledContractsBerlin
  else if IsIstanbul rules then PrecompiledContractsIstanbul
  else if IsByzantium rules then PrecompiledContractsByzantium
  else PrecompiledContractsHomestead.

End Precompiles.
