(* ===== verification/EvmEffects.v ===== *)
(** What an execution may do to a state: operations of StateDB.v, and nested
    executions under a snapshot that are kept or reverted.

    A state that an execution leaves can still be reverted to every snapshot of
    the state that it found, which is what the calls of EvmCalls.v rely on. *)

From S2P Require Import Prelude StateDB StateDBFacts StateBalances.

Section Effects.
  Context (Keccak256 : list byte → list byte) (ContractCode : list byte → list byte).

Abbreviation do_op := (StateDBFacts.exec Keccak256 ContractCode).
Abbreviation refines := (refines Keccak256 ContractCode).
#[local] Notation "s ≈ t" := (state_equiv Keccak256 ContractCode s t) (at level 70).

(** [A] says which operations are allowed in which states. *)
Inductive effects (A : op → StateDB → Prop) : StateDB → StateDB → Prop :=
  | eff_refl s : effects A s s
  | eff_do s s1 o s2 : effects A s s1 → A o s1 → do_op o s1 = Ok s2 → effects A s s2
  | eff_keep s s1 s2 : effects A s s1 → effects A (Snapshot s1).2 s2 → effects A s s2
  | eff_revert s s1 s2 s3 :
      effects A s s1 → effects A (Snapshot s1).2 s2 → RevertToSnapshot (Snapshot s1).1 s2 = Ok s3 → effects A s s3.

Lemma effects_trans A s s1 s2 : effects A s s1 → effects A s1 s2 → effects A s s2.
Proof.
  intros H1 H2. induction H2 as [| s1 s2 o s3 _ IH HA Ho | s1 s2 s3 _ IH H2 _ | s1 s2 s3 s4 _ IH H2 _ Hr].
  - done.
  - exact (eff_do A _ _ o _ (IH H1) HA Ho).
  - exact (eff_keep A _ _ _ (IH H1) H2).
  - exact (eff_revert A _ _ _ _ (IH H1) H2 Hr).
Qed.

Lemma effects_one (A : op → StateDB → Prop) o s s' : A o s → do_op o s = Ok s' → effects A s s'.
Proof. intros. eapply eff_do; [apply eff_refl | done | done]. Qed.

Lemma effects_mono (A B : op → StateDB → Prop) s s' : (∀ o s, A o s → B o s) → effects A s s' → effects B s s'.
Proof. intros HAB. induction 1; [apply eff_refl | eapply eff_do | eapply eff_keep | eapply eff_revert]; eauto. Qed.

(** ** Snapshots stay valid *)

(** A state whose journal implements some copies. *)
Definition sound (s : StateDB) : Prop := ∃ m, refines s m.

Record extends (m m' : copies) : Prop := {
  ext_saved : saved m `prefix_of` saved m';
  ext_next : next m <= next m';
}.

#[local] Instance extends_preorder : PreOrder extends.
Proof.
  split; [by split |]. intros m1 m2 m3 [H1 H2] [H3 H4]. split; [by etrans | lia].
Qed.

Definition snapped (m : copies) : copies :=
  {| current := current m; saved := saved m ++ [(next m, current m)]; next := next m + 1 |}.

Lemma saved_below s m i x : refines s m → saved m !! i = Some x → x.1 < next m.
Proof.
  intros [_ _ _ Hs Hb _] Hx. destruct (Forall2_lookup_r _ _ _ _ _ Hs Hx) as (r & Hr & Hh).
  rewrite <- (ho_id _ _ _ _ _ Hh). by eapply Hb.
Qed.

(** Whatever extends the copies of a snapshot can be reverted to it. *)
Lemma revert_snapshot s1 m1 s2 m2 :
  refines s1 m1 → refines s2 m2 → extends (snapped m1) m2 →
  ∃ s3, RevertToSnapshot (Snapshot s1).1 s2 = Ok s3 ∧
    refines s3 {| current := current m1; saved := saved m1; next := next m2 |}.
Proof.
  intros H1 H2 [[l Hl] Hn]. cbn in Hl. pose proof (refines_revert _ _ (Snapshot s1).1 _ _ H2) as Hr.
  assert (Hf : list_find (λ r : Z * StateDB, r.1 = (Snapshot s1).1) (saved m2) = Some (length (saved m1), (next m1, current m1))).
  { cbn. rewrite (rf_next _ _ _ _ H1), Hl, <- app_assoc. apply list_find_Some. split; [| split; [done |]].
    - by rewrite lookup_app_r, Nat.sub_diag by done.
    - intros j y Hy Hj E. rewrite lookup_app_l in Hy by done. pose proof (saved_below _ _ _ _ H1 Hy). lia. }
  cbn [spec_command] in Hr. rewrite Hf in Hr. destruct (RevertToSnapshot _ s2) as [s3 | |]; try done.
  exists s3. split; [done |]. by rewrite Hl, <- app_assoc, take_app_length in Hr.
Qed.

Lemma effects_refines A s s' : effects A s s' → ∀ m, refines s m → ∃ m', refines s' m' ∧ extends m m'.
Proof.
  induction 1 as [s | s s1 o s2 _ IH _ Ho | s s1 s2 _ IH1 _ IH2 | s s1 s2 s3 _ IH1 _ IH2 Hr]; intros m Hm.
  - by exists m.
  - destruct (IH _ Hm) as (m1 & H1 & E1). pose proof (refines_do _ _ o _ _ H1) as H. rewrite Ho in H.
    destruct (do_op o (current m1)) as [t | |]; [| done..]. eexists. split; [done |]. etrans; [done |]. by split.
  - destruct (IH1 _ Hm) as (m1 & H1 & E1). destruct (IH2 (snapped m1)) as (m2 & H2 & E2); [by apply refines_snapshot |].
    exists m2. split; [done |]. etrans; [done |]. etrans; [| done]. split; cbn; [by eexists | lia].
  - destruct (IH1 _ Hm) as (m1 & H1 & E1). destruct (IH2 (snapped m1)) as (m2 & H2 & E2); [by apply refines_snapshot |].
    destruct (revert_snapshot _ _ _ _ H1 H2 E2) as (s3' & Hr' & H3). assert (s3' = s3) as -> by congruence.
    eexists. split; [done |]. etrans; [done |]. split; cbn; [done |]. destruct E2 as [_ E2]. cbn in E2. lia.
Qed.

Lemma effects_sound A s s' : effects A s s' → sound s → sound s'.
Proof. intros He [m Hm]. destruct (effects_refines _ _ _ He _ Hm) as (m' & H & _). by exists m'. Qed.

Lemma Snapshot_sound s : sound s → sound (Snapshot s).2.
Proof. intros [m Hm]. eexists. by apply refines_snapshot. Qed.

(** Reverting to a snapshot after any effects does not panic and gives a
    state that is equivalent to the one of the snapshot. *)
Lemma effects_revert A s s' :
  sound s → effects A (Snapshot s).2 s' → ∃ s'', RevertToSnapshot (Snapshot s).1 s' = Ok s'' ∧ s'' ≈ s.
Proof.
  intros [m Hm] He. destruct (effects_refines _ _ _ He (snapped m)) as (m2 & H2 & E2); [by apply refines_snapshot |].
  destruct (revert_snapshot _ _ _ _ Hm H2 E2) as (s3 & Hr & H3). exists s3. split; [done |].
  etrans; [apply H3 |]. cbn. symmetry. apply Hm.
Qed.

(** ** Invariants *)

(** What the allowed operations keep, all effects keep. *)
Lemma effects_invariant (A : op → StateDB → Prop) (P : StateDB → Prop) s s' :
  (∀ s t, s ≈ t → P t → P s) → (∀ o s s', A o s → do_op o s = Ok s' → P s → P s') →
  effects A s s' → sound s → P s → P s'.
Proof.
  intros Heq Hop He. induction He as [s | s s1 o s2 H1 IH HA Ho | s s1 s2 H1 IH1 H2 IH2 | s s1 s2 s3 H1 IH1 H2 IH2 Hr]; intros Hs HP.
  - done.
  - by eapply Hop, IH.
  - pose proof (effects_sound _ _ _ H1 Hs). apply IH2; [by apply Snapshot_sound |]. eapply Heq; [apply with_revisions_equiv | auto].
  - pose proof (effects_sound _ _ _ H1 Hs) as Hs1. destruct (effects_revert _ _ _ Hs1 H2) as (s4 & E & Hq).
    assert (s4 = s3) as -> by congruence. eapply Heq; [done | auto].
Qed.

(** ** The operations of the EVM *)

Definition word (z : Z) : Prop := 0 <= z < 2 ^ 256.

(** The length of code and data, below what Go's [int] holds. *)
Definition small (l : list byte) : Prop := len l < 2 ^ 62.

(** The operations that an execution does; a quiet one, under a static call,
    changes no slot, nonce, code, log or refund. *)
Definition evm_op (quiet : bool) (o : op) (s : StateDB) : Prop :=
  match o with
  | OSetState _ _ v => quiet = false ∧ word v
  | OSetCode _ code => quiet = false ∧ small code
  | OSetNonce _ _ | OSuicide _ | OAddRefund _ | OSubRefund _ | OAddLog _ _ _ => quiet = false
  | OSetBalance _ _ => False
  | OAddBalance _ x | OSubBalance _ x => quiet = true → x = 0
  | OCreateAccount a => quiet = true → Exist a s = false
  | OAddPreimage _ _ | OAddAddress _ | OAddSlot _ _ => True
  end.

Lemma evm_op_loud quiet o s : evm_op quiet o s → evm_op false o s.
Proof. clear Keccak256 ContractCode. destruct quiet; [| done]. destruct o; cbn; naive_solver. Qed.

(** *** Slots are words and code is small *)

Abbreviation obj_Code := (StateDB.obj_Code Keccak256 ContractCode).

(** The documented length of the hash. *)
Context (keccak_length : ∀ d, length (Keccak256 d) = 32%nat).

Record wide_obj (o : stateObject) : Prop := {
  wo_slots : ∀ k, word (obj_GetState o k);
  wo_code : small (default [] (obj_Code o));
  wo_hash : (length (so_CodeHash o) <= 32)%nat;
}.

Definition wide (s : StateDB) : Prop := ∀ a o, getStateObject a s = Some o → wide_obj o.

Lemma wide_equiv s t : s ≈ t → wide t → wide s.
Proof.
  intros Hst Hw a o Ho. pose proof (getStateObject_equiv _ _ a _ _ Hst) as H. rewrite Ho in H. inversion H as [? o' Hoo E1 E2 |]; subst.
  destruct (Hw a o') as [H1 H2 H3]; [done |].
  split; [intros k; by rewrite (oe_State _ _ _ _ Hoo) | by rewrite (oe_Code _ _ _ _ Hoo) | by rewrite (oe_CodeHash _ _ _ _ Hoo)].
Qed.

Lemma BigToHash_word z : word (BigToHash z).
Proof. unfold word, BigToHash. apply Z.mod_pos_bound. lia. Qed.

Lemma wide_put a o s : wide s → wide_obj o → wide (put a o s).
Proof.
  intros Hs Ho b o'. destruct (decide (a = b)) as [<- | Hne]; [| rewrite getStateObject_put_ne by done; apply Hs].
  unfold getStateObject. rewrite getDeleted_put, decide_True by done. destruct (deleted o); naive_solver.
Qed.

Lemma fresh_wide b : wide_obj (setBalance b (setNonce 0 (newObject (empty_account Keccak256)))).
Proof.
  split; [intros k; unfold obj_GetState, obj_GetCommittedState; cbn; rewrite !lookup_empty; cbn; unfold word; lia | |].
  - unfold StateDB.obj_Code. cbn. rewrite bool_decide_eq_true_2 by done. done.
  - cbn. unfold emptyCodeHash. by rewrite keccak_length.
Qed.

Lemma GetOrNew_wide a s o s' :
  wide s → GetOrNewStateObject Keccak256 a s = (o, s') → wide_obj o ∧ wide s'.
Proof.
  intros Hs. unfold GetOrNewStateObject. destruct (getStateObject a s) as [o1 |] eqn:E.
  - intros [= <- <-]. split; [by eapply Hs | done].
  - cbn. intros [= <- <-]. split; [apply (fresh_wide 0) | apply wide_put; [done | apply (fresh_wide 0)]].
Qed.

Lemma SetState_wide a k v s : word v → wide s → wide (SetState Keccak256 a k v s).
Proof.
  intros Hv Hs. unfold SetState. destruct (GetOrNewStateObject Keccak256 a s) as [o s1] eqn:E.
  destruct (GetOrNew_wide _ _ _ _ Hs E) as [[Ho1 Ho2 Ho3] H1]. destruct (_ =? v); [done |]. apply wide_put; [done |].
  split; [| done | done]. intros k'. rewrite GetState_setState. by destruct (decide _).
Qed.

Lemma CreateAccount_wide a s : wide s → wide (CreateAccount Keccak256 a s).
Proof.
  intros Hs. unfold CreateAccount. cbn.
  assert (wide (put a (setNonce 0 (newObject (empty_account Keccak256))) (append (create_entry a s) s)))
    by (apply wide_put; [done | apply (fresh_wide 0)]).
  destruct (getDeletedStateObject a s); [| done]. apply wide_put; [done | apply fresh_wide].
Qed.

Lemma AddSlot_objects a k s s' : AddSlotToAccessList a k s = Ok s' → ∀ b, getStateObject b s' = getStateObject b s.
Proof.
  unfold AddSlotToAccessList. intros E b. apply outcome_bind_Ok in E as ([[al m1] m2] & _ & [= <-]). by destruct m1, m2.
Qed.

Lemma evm_op_wide quiet o s s' : evm_op quiet o s → do_op o s = Ok s' → wide s → wide s'.
Proof.
  intros HA Ho Hs. destruct o; cbn [evm_op StateDBFacts.exec] in HA, Ho; try (injection Ho as <-).
  - unfold SetNonce. destruct (GetOrNewStateObject Keccak256 a s) as [o s1] eqn:E.
    destruct (GetOrNew_wide _ _ _ _ Hs E) as [[Ho1 Ho2 Ho3] H1]. apply wide_put; [done | by split].
  - unfold SetCode. destruct (GetOrNewStateObject Keccak256 a s) as [o s1] eqn:E.
    destruct (GetOrNew_wide _ _ _ _ Hs E) as [[Ho1 Ho2 Ho3] H1]. apply wide_put; [done |]. split; [done | apply HA |]. cbn. by rewrite keccak_length.
  - apply SetState_wide; [apply HA | done].
  - done.
  - apply SetState_wide; [apply BigToHash_word | done].
  - apply SetState_wide; [apply BigToHash_word | done].
  - by apply CreateAccount_wide.
  - unfold Suicide. destruct (getStateObject a s) as [o |] eqn:E; [| done]. destruct (Hs _ _ E). apply wide_put; [done | by split].
  - done.
  - unfold SubRefund in Ho. destruct (_ <? _); [done |]. by injection Ho as <-.
  - done.
  - unfold AddPreimage. by destruct (preimages s !! hash).
  - unfold AddAddressToAccessList, al_AddAddress. by destruct (al_addresses (access s) !! a).
  - intros b o' Hb. rewrite (AddSlot_objects _ _ _ _ Ho) in Hb. by eapply Hs.
Qed.

Lemma GetState_word a k s : wide s → word (GetState a k s).
Proof.
  intros Hs. unfold GetState. destruct (getStateObject a s) as [o |] eqn:E; [by eapply Hs | cbn; unfold word; lia].
Qed.

Lemma GetCode_small a s : wide s → small (GetCode Keccak256 ContractCode a s).
Proof.
  intros Hs. unfold GetCode. destruct (getStateObject a s) as [o |] eqn:E; [by eapply Hs | done].
Qed.

(** A state that has just been opened. *)
Definition wide_account (acc : account) : Prop :=
  map_Forall (λ _, word) (acc_storage acc) ∧ small (ContractCode (acc_CodeHash acc)) ∧ (length (acc_CodeHash acc) <= 32)%nat.

#[export] Instance wide_account_dec acc : Decision (wide_account acc).
Proof. unfold wide_account, word, small. apply _. Defined.

Lemma New_sound tr : sound (New tr).
Proof. eexists. apply refines_start; [apply New_wf | done]. Qed.

Lemma New_wide tr : map_Forall (λ _, wide_account) tr → wide (New tr).
Proof.
  intros Htr a o. unfold getStateObject, getDeletedStateObject. cbn. rewrite lookup_empty.
  destruct (tr !! a) as [acc |] eqn:E; [| done]. cbn. intros [= <-]. destruct (Htr _ _ E) as (H1 & H2 & H3). split; cbn.
  - intros k. unfold obj_GetState, obj_GetCommittedState. cbn. rewrite !lookup_empty.
    destruct (acc_storage acc !! k) eqn:Ek; [exact (H1 _ _ Ek) | done].
  - unfold StateDB.obj_Code. cbn. by case_bool_decide.
  - done.
Qed.

Lemma GetCodeHash_length a s : wide s → (length (GetCodeHash a s) <= 32)%nat.
Proof.
  intros Hs. unfold GetCodeHash. destruct (getStateObject a s) as [o |] eqn:E; [by eapply Hs | done].
Qed.

(** *** The access list grows *)

Abbreviation accessed a s := (a ∈ dom (al_addresses (access s))).

Lemma accessed_equiv a s t : s ≈ t → accessed a t → accessed a s.
Proof. intros []. by rewrite se_access. Qed.

Lemma AddAddress_accessed a s : accessed a (AddAddressToAccessList a s).
Proof.
  clear Keccak256 ContractCode keccak_length.
  unfold AddAddressToAccessList, al_AddAddress. destruct (al_addresses (access s) !! a) eqn:E; cbn; [by apply elem_of_dom | set_solver].
Qed.

Lemma SetState_access a k v s : access (SetState Keccak256 a k v s) = access s.
Proof. unfold SetState, GetOrNewStateObject. by destruct (getStateObject a s); cbn; destruct (_ =? v). Qed.

Lemma do_op_accessed b o s s' : do_op o s = Ok s' → accessed b s → accessed b s'.
Proof.
  clear keccak_length.
  intros Ho Hb. destruct o; cbn [StateDBFacts.exec] in Ho; try (injection Ho as <-); unfold SetBalance, AddBalance, SubBalance;
    rewrite ?SetState_access; try done.
  - unfold SetNonce, GetOrNewStateObject. by destruct (getStateObject a s).
  - unfold SetCode, GetOrNewStateObject. by destruct (getStateObject a s).
  - unfold CreateAccount. cbn. by destruct (getDeletedStateObject a s).
  - unfold Suicide. by destruct (getStateObject a s).
  - unfold SubRefund in Ho. destruct (_ <? _); [done |]. by injection Ho as <-.
  - unfold AddPreimage. by destruct (preimages s !! hash).
  - unfold AddAddressToAccessList, al_AddAddress. destruct (al_addresses (access s) !! a); cbn; set_solver.
  - unfold AddSlotToAccessList in Ho. apply outcome_bind_Ok in Ho as ([[al m1] m2] & E & [= <-]).
    assert (b ∈ dom (al_addresses al)); [| by destruct m1, m2]. unfold al_AddSlot in E.
    repeat step_match E; injection E as <- <- <-; cbn; set_solver.
Qed.

(** *** The refund counter is not negative *)

Lemma SetState_refund a k v s : refund (SetState Keccak256 a k v s) = refund s.
Proof. unfold SetState, GetOrNewStateObject. by destruct (getStateObject a s); cbn; destruct (_ =? v). Qed.

Lemma do_op_refund o s s' : do_op o s = Ok s' → 0 <= refund s → 0 <= refund s'.
Proof.
  intros Ho Hs. destruct o; cbn [StateDBFacts.exec] in Ho; try (injection Ho as <-); unfold SetBalance, AddBalance, SubBalance;
    rewrite ?SetState_refund; try done.
  - unfold SetNonce, GetOrNewStateObject. by destruct (getStateObject a s).
  - unfold SetCode, GetOrNewStateObject. by destruct (getStateObject a s).
  - unfold CreateAccount. cbn. by destruct (getDeletedStateObject a s).
  - unfold Suicide. by destruct (getStateObject a s).
  - apply wrap_range. lia.
  - unfold SubRefund in Ho. destruct (Z.ltb_spec (refund s) gas); [done |]. injection Ho as <-. cbn. lia.
  - unfold AddPreimage. by destruct (preimages s !! hash).
  - unfold AddAddressToAccessList, al_AddAddress. by destruct (al_addresses (access s) !! a).
  - unfold AddSlotToAccessList in Ho. apply outcome_bind_Ok in Ho as ([[al m1] m2] & _ & [= <-]). by destruct m1, m2.
Qed.

(** *** What quiet operations leave alone *)

Record same_view (s t : StateDB) : Prop := {
  sv_state : ∀ a k, GetState a k s = GetState a k t;
  sv_nonce : ∀ a, GetNonce a s = GetNonce a t;
  sv_code : ∀ a, GetCode Keccak256 ContractCode a s = GetCode Keccak256 ContractCode a t;
  sv_suicided : ∀ a, HasSuicided a s = HasSuicided a t;
  sv_logs : logs s = logs t;
  sv_refund : refund s = refund t;
}.

#[local] Instance same_view_preorder : PreOrder same_view.
Proof. split; [by split |]. intros s t u [] []. split; intros; congruence. Qed.

Lemma equiv_same_view s t : s ≈ t → same_view s t.
Proof.
  intros H. destruct (equiv_same_answers _ _ _ _ H) as (H1 & H2 & H3 & H4 & _).
  split; [| | | | done | done]; intros a; try apply H2; apply H1.
Qed.

(** Making an account that is not there. *)
Lemma fresh_view a b e s :
  getStateObject a s = None → same_view (put a (setBalance b (setNonce 0 (newObject (empty_account Keccak256)))) (append e s)) s.
Proof.
  intros Ha. split; [| | | | done | done]; intros c; destruct (decide (a = c)) as [<- | Hne];
    unfold GetState, GetNonce, GetCode, HasSuicided;
    rewrite ?getStateObject_put_ne, ?getStateObject_append, ?getStateObject_put, ?Ha by done; try done.
  cbn. unfold StateDB.obj_Code. cbn. by rewrite bool_decide_eq_true_2.
Qed.

Lemma SetState_same_view a k s : same_view (SetState Keccak256 a k (GetState a k s) s) s.
Proof.
  unfold SetState. destruct (GetState_GetOrNew Keccak256 a a k s) as (_ & H2 & _). unfold GetOrNewStateObject in *.
  destruct (getStateObject a s) as [o |] eqn:E; cbn in *; rewrite H2, Z.eqb_refl; [done | by apply (fresh_view a 0)].
Qed.

Lemma AddBalance_zero_view a s : wide s → same_view (AddBalance Keccak256 a 0 s) s.
Proof.
  intros Hs. unfold AddBalance. rewrite Z.add_0_r, BigToHash_small by by apply GetState_word. apply SetState_same_view.
Qed.

Lemma CreateAccount_view a s : Exist a s = false → same_view (CreateAccount Keccak256 a s) s.
Proof.
  intros Ha. apply bool_decide_eq_false, dec_stable in Ha. unfold CreateAccount. cbn.
  destruct (getDeletedStateObject a s); rewrite ?put_put; [by apply fresh_view | by apply (fresh_view a 0)].
Qed.

Lemma quiet_view o s s' : evm_op true o s → do_op o s = Ok s' → wide s → same_view s' s.
Proof.
  intros HA Ho Hs. destruct o; cbn [evm_op StateDBFacts.exec] in HA, Ho; try (by destruct HA); try done; try (injection Ho as <-).
  - rewrite (HA eq_refl). by apply AddBalance_zero_view.
  - rewrite (HA eq_refl). by apply AddBalance_zero_view.
  - by apply CreateAccount_view, HA.
  - unfold AddPreimage. by destruct (preimages s !! hash).
  - unfold AddAddressToAccessList, al_AddAddress. by destruct (al_addresses (access s) !! a).
  - unfold AddSlotToAccessList in Ho. apply outcome_bind_Ok in Ho as ([[al m1] m2] & _ & [= <-]). by destruct m1, m2.
Qed.

(** ** Effects of the EVM *)

Definition evm_effects (quiet : bool) : StateDB → StateDB → Prop := effects (evm_op quiet).

Lemma evm_effects_wide quiet s s' : evm_effects quiet s s' → sound s → wide s → wide s'.
Proof. apply effects_invariant; [apply wide_equiv | apply evm_op_wide]. Qed.

Lemma evm_effects_accessed quiet a s s' : evm_effects quiet s s' → sound s → accessed a s → accessed a s'.
Proof. apply (effects_invariant _ (λ s, accessed a s)); [apply accessed_equiv | intros o t t' _; apply do_op_accessed]. Qed.

Lemma evm_effects_refund quiet s s' : evm_effects quiet s s' → sound s → 0 <= refund s → 0 <= refund s'.
Proof.
  apply (effects_invariant _ (λ s, 0 <= refund s)); [intros t u []; by rewrite se_refund | intros o t t' _; apply do_op_refund].
Qed.

Lemma evm_effects_quiet s s' : evm_effects true s s' → sound s → wide s → same_view s' s.
Proof.
  intros He Hs Hw. refine (proj1 (effects_invariant _ (λ t, same_view t s ∧ wide t) _ _ _ _ He Hs _)); [| | by split].
  - intros t u Htu [H1 H2]. split; [etrans; [by apply equiv_same_view | done] | by eapply wide_equiv].
  - intros o t t' HA Ho [H1 H2]. split; [etrans; [by eapply quiet_view | done] | by eapply evm_op_wide].
Qed.

End Effects.
