(* ===== verification/EvmWords.v ===== *)
(** The arithmetic of the EVM on 256-bit words: the instructions of
    EvmInstructions.v, which go through signed and unsigned integers, 64-bit
    words of an exponent and masks, compute the functions of their
    mathematical description. *)

From S2P Require Import Prelude Rlp TxMeta Transaction BigFloat Fees StateDB StateDBFacts StateBalances EvmEffects.
From S2P Require Import EvmCommon EvmCalls EvmAnalysis EvmInstructions.

(** ** Words *)

Lemma U256_mod x : U256 x = x mod 2 ^ 256.
Proof. unfold U256, tt256m1, tt256. rewrite <- (Z.land_ones x 256) by lia. f_equal. Qed.

Lemma U256_word x : word (U256 x).
Proof. rewrite U256_mod. apply Z.mod_pos_bound. lia. Qed.

Lemma U256_small x : word x → U256 x = x.
Proof. intros. rewrite U256_mod. by apply Z.mod_small. Qed.

Lemma word_0 : word 0.
Proof. split; lia. Qed.

Lemma word_1 : word 1.
Proof. split; lia. Qed.

Lemma b2word_word b : word (b2word b).
Proof. destruct b; [apply word_1 | apply word_0]. Qed.

Lemma word_small z : 0 <= z < 2 ^ 64 → word z.
Proof. unfold word. lia. Qed.

(** Bitwise operations keep words: a word has no bit from 256 on. *)
Lemma word_bits z : 0 <= z → (∀ i, 256 <= i → Z.testbit z i = false) → word z.
Proof.
  intros H0 Hb. split; [done |]. destruct (Z.eq_dec z 0) as [-> |]; [lia |]. apply Z.log2_lt_pow2; [lia |].
  destruct (Z.lt_ge_cases (Z.log2 z) 256) as [| Hge]; [done |]. specialize (Hb _ Hge). rewrite Z.bit_log2 in Hb by lia. done.
Qed.

Lemma word_testbit z i : word z → 256 <= i → Z.testbit z i = false.
Proof.
  intros [H0 H1] Hi. destruct (Z.eq_dec z 0) as [-> |]; [apply Z.bits_0 |]. apply Z.bits_above_log2; [done |].
  apply Z.log2_lt_pow2 in H1; lia.
Qed.

Lemma land_word x y : word x → word y → word (Z.land x y).
Proof.
  intros Hx Hy. apply word_bits; [apply Z.land_nonneg; left; apply Hx |]. intros i Hi. by rewrite Z.land_spec, (word_testbit x).
Qed.

Lemma lor_word x y : word x → word y → word (Z.lor x y).
Proof.
  intros Hx Hy. apply word_bits; [apply Z.lor_nonneg; split; [apply Hx | apply Hy] |]. intros i Hi.
  by rewrite Z.lor_spec, !word_testbit.
Qed.

Lemma lxor_word x y : word x → word y → word (Z.lxor x y).
Proof.
  intros Hx Hy. apply word_bits.
  - apply Z.lxor_nonneg. split; intros; [apply Hy | apply Hx].
  - intros i Hi. by rewrite Z.lxor_spec, !word_testbit.
Qed.

(** ** The reference *)

(** The low [w] bits of a number, with a sign and without. *)
Definition unsigned (w z : Z) : Z := z mod 2 ^ w.
Definition signed (w z : Z) : Z := (z + 2 ^ (w - 1)) mod 2 ^ w - 2 ^ (w - 1).

(** What an arithmetic instruction makes of its operands. *)
Definition arithmetic (op : executionFunc) (args : list Z) : option Z :=
  let sg := signed 256 in
  match op, args with
  | OpAdd, [x; y] => Some (unsigned 256 (x + y))
  | OpSub, [x; y] => Some (unsigned 256 (x - y))
  | OpMul, [x; y] => Some (unsigned 256 (x * y))
  | OpDiv, [x; y] => Some (if decide (y = 0) then 0 else x / y)
  | OpSdiv, [x; y] => Some (if decide (y = 0) then 0 else unsigned 256 (Z.quot (sg x) (sg y)))
  | OpMod, [x; y] => Some (if decide (y = 0) then 0 else x mod y)
  | OpSmod, [x; y] => Some (if decide (y = 0) then 0 else unsigned 256 (Z.rem (sg x) (sg y)))
  | OpExp, [x; y] => Some (unsigned 256 (x ^ y))
  | OpSignExtend, [b; x] => Some (if decide (b < 31) then unsigned 256 (signed (8 * (b + 1)) x) else x)
  | OpAddmod, [x; y; z] => Some (if decide (z = 0) then 0 else (x + y) mod z)
  | OpMulmod, [x; y; z] => Some (if decide (z = 0) then 0 else (x * y) mod z)
  | OpNot, [x] => Some (2 ^ 256 - 1 - x)
  | OpLt, [x; y] => Some (if decide (x < y) then 1 else 0)
  | OpGt, [x; y] => Some (if decide (x > y) then 1 else 0)
  | OpSlt, [x; y] => Some (if decide (sg x < sg y) then 1 else 0)
  | OpSgt, [x; y] => Some (if decide (sg x > sg y) then 1 else 0)
  | OpEq, [x; y] => Some (if decide (x = y) then 1 else 0)
  | OpIszero, [x] => Some (if decide (x = 0) then 1 else 0)
  | OpByte, [i; x] => Some (if decide (i < 32) then (x / 256 ^ (31 - i)) mod 256 else 0)
  | OpSHL, [n; x] => Some (unsigned 256 (x * 2 ^ n))
  | OpSHR, [n; x] => Some (x / 2 ^ n)
  | OpSAR, [n; x] => Some (unsigned 256 (sg x / 2 ^ n))
  | _, _ => None
  end.

(** ** Signs *)

Lemma S256_signed x : word x → S256 x = signed 256 x.
Proof.
  intros [H0 H1]. unfold S256, signed, tt255, tt256. change (256 - 1) with 255. destruct (Z.ltb_spec x (2 ^ 255)).
  - rewrite Z.mod_small by lia. lia.
  - replace (x + 2 ^ 255) with (x - 2 ^ 255 + 1 * 2 ^ 256) by lia. rewrite Z.mod_add, Z.mod_small by lia. lia.
Qed.

Lemma S256_range x : word x → - 2 ^ 255 <= S256 x < 2 ^ 255.
Proof. intros [H0 H1]. unfold S256, tt255, tt256. destruct (Z.ltb_spec x (2 ^ 255)); lia. Qed.

Lemma S256_0 x : word x → S256 x = 0 ↔ x = 0.
Proof. intros [H0 H1]. unfold S256, tt255, tt256. destruct (Z.ltb_spec x (2 ^ 255)); lia. Qed.

(** The quotient and the remainder by absolute values and signs. *)
Lemma quot_abs x y :
  y ≠ 0 → x ≠ 0 → Z.quot x y = if Z.sgn x =? Z.sgn y then Z.abs x / Z.abs y else - (Z.abs x / Z.abs y).
Proof.
  intros Hy Hx. rewrite Z.quot_div by done. destruct (Z.eqb_spec (Z.sgn x) (Z.sgn y)) as [E | E].
  - rewrite E. destruct (Z.sgn_spec y) as [[? ->] | [[? ->] | [? ->]]]; lia.
  - assert (Z.sgn x * Z.sgn y = -1); [| lia].
    destruct (Z.sgn_spec x) as [[? Ex] | [[? Ex] | [? Ex]]], (Z.sgn_spec y) as [[? Ey] | [[? Ey] | [? Ey]]];
      rewrite Ex, Ey in *; lia.
Qed.

Lemma rem_abs x y : y ≠ 0 → Z.rem x y = if Z.sgn x <? 0 then - (Z.abs x mod Z.abs y) else Z.abs x mod Z.abs y.
Proof.
  intros Hy. rewrite Z.rem_mod by done. destruct (Z.sgn_spec x) as [[? ->] | [[? ->] | [? ->]]].
  - by rewrite Z.mul_1_l.
  - subst. rewrite Z.mul_0_l. change (Z.abs 0) with 0. rewrite Z.mod_0_l; [done | lia].
  - change (- (1) <? 0) with true. cbv iota. ring.
Qed.

(** ** Exponentiation *)

(** After [n] bits, the result has the power of the bits and the base is
    squared [n] times. *)
Lemma exp_word_spec n w r b x :
  r = U256 (x) → 0 <= w →
  (exp_word n w (r, b)).1 = U256 (x * b ^ (w mod 2 ^ Z.of_nat n)) ∧
  U256 (exp_word n w (r, b)).2 = U256 (b ^ (2 ^ Z.of_nat n)).
Proof.
  revert w r b x. induction n as [| n IH]; intros w r b x -> Hw.
  - cbn [exp_word fst snd]. change (Z.of_nat 0) with 0. rewrite Z.mod_1_r, Z.pow_0_r, Z.pow_0_r, Z.mul_1_r, Z.pow_1_r. done.
  - cbn [exp_word]. assert (Hb : Z.land w 1 = w mod 2) by (change 1 with (Z.ones 1); by rewrite Z.land_ones).
    assert (Hs : Z.shiftr w 1 = w / 2) by (by rewrite Z.shiftr_div_pow2). rewrite Hb, Hs, Nat2Z.inj_succ, Z.pow_succ_r by lia.
    assert (Hm : w mod (2 * 2 ^ Z.of_nat n) = w mod 2 + 2 * ((w / 2) mod 2 ^ Z.of_nat n)).
    { rewrite Z.rem_mul_r by lia. lia. }
    pose proof (Z.mod_pos_bound w 2 ltac:(lia)) as H2.
    pose proof (Z.mod_pos_bound (w / 2) (2 ^ Z.of_nat n) ltac:(lia)) as Hn.
    set (y := if w mod 2 =? 1 then x * b else x).
    assert (E : (if w mod 2 =? 1 then U256 (U256 x * b) else U256 x) = U256 y).
    { subst y. destruct (w mod 2 =? 1); [| done]. rewrite !U256_mod. by rewrite Z.mul_mod_idemp_l by lia. }
    rewrite E. destruct (IH (w / 2) (U256 y) (U256 (b * b)) y eq_refl ltac:(apply Z.div_pos; lia)) as [I1 I2].
    rewrite I1, I2, !U256_mod, Hm. split.
    + rewrite <- Z.mul_mod_idemp_r, Z.mod_pow_l, Z.mul_mod_idemp_r by lia. f_equal.
      rewrite Z.pow_add_r, Z.pow_mul_r, Z.pow_2_r by lia. subst y. destruct (Z.eqb_spec (w mod 2) 1) as [-> |]; [ring |].
      assert (w mod 2 = 0) as -> by lia. ring.
    + by rewrite Z.mod_pow_l, Z.pow_mul_r, Z.pow_2_r by lia.
Qed.

(** One word of the exponent, for an abstract width. *)
Lemma exp_word_width n K w r b x :
  K = 2 ^ Z.of_nat n → r = U256 x → 0 <= w →
  (exp_word n w (r, b)).1 = U256 (x * b ^ (w mod K)) ∧ U256 (exp_word n w (r, b)).2 = U256 (b ^ K).
Proof. intros ->. apply exp_word_spec. Qed.

Lemma power_split x b b1 e K N :
  0 < K → 0 < N → 0 <= e → U256 b1 = U256 (b ^ K) →
  U256 (x * b ^ (e mod K) * b1 ^ ((e / K) mod N)) = U256 (x * b ^ (e mod (K * N))).
Proof.
  intros HK HN He H2. pose proof (Z.mod_pos_bound (e / K) N HN). pose proof (Z.mod_pos_bound e K HK).
  rewrite !U256_mod in *. rewrite Z.rem_mul_r by lia.
  rewrite <- Z.mul_mod_idemp_r, <- (Z.mod_pow_l b1), H2, Z.mod_pow_l, Z.mul_mod_idemp_r by lia. f_equal.
  rewrite Z.pow_add_r, (Z.pow_mul_r b K) by nia. ring.
Qed.

Lemma exp_words_spec K n e r b x :
  K = 2 ^ 64 → r = U256 x → 0 <= e →
  (foldl (λ acc w, exp_word 64 w acc) (r, b) (words n e)).1 = U256 (x * b ^ (e mod (K ^ Z.of_nat n))).
Proof.
  intros HK. assert (0 < K) by lia. assert (HK' : K = 2 ^ Z.of_nat 64) by (rewrite HK; reflexivity).
  revert e r b x. induction n as [| n IH]; intros e r b x -> He.
  - cbn [words foldl fst]. rewrite Z.mod_1_r, Z.pow_0_r, Z.mul_1_r. done.
  - cbn [words foldl]. assert (Hu : u64 e = e mod K) by (unfold wrap; by rewrite HK).
    assert (Hs : Z.shiftr e 64 = e / K) by (rewrite Z.shiftr_div_pow2 by lia; by rewrite HK). rewrite Hu, Hs.
    pose proof (Z.mod_pos_bound e K ltac:(lia)).
    destruct (exp_word_width 64 K (e mod K) (U256 x) b x HK' eq_refl ltac:(lia)) as [H1 H2].
    destruct (exp_word 64 (e mod K) (U256 x, b)) as [r1 b1]. cbn [fst snd] in H1, H2.
    rewrite Z.mod_mod in H1 by lia. rewrite (IH _ _ _ _ H1) by (apply Z.div_pos; lia).
    rewrite Nat2Z.inj_succ, Z.pow_succ_r by lia. apply power_split; (done || (apply Z.pow_pos_nonneg; lia)).
Qed.

Lemma big_Bits_enough z : 0 <= z → z mod 2 ^ (64 * Z.of_nat (Z.to_nat ((BitLen z + 63) / 64))) = z.
Proof.
  intros H0. apply Z.mod_small. split; [done |]. destruct (Z.eq_dec z 0) as [-> |]; [lia |].
  assert (Hl : z < 2 ^ (BitLen z)).
  { unfold BitLen. destruct (Z.eqb_spec z 0); [lia |]. rewrite Z.abs_eq by done. apply Z.log2_spec. lia. }
  eapply Z.lt_le_trans; [exact Hl |]. apply Z.pow_le_mono_r; [lia |].
  assert (0 <= BitLen z). { unfold BitLen. destruct (z =? 0); [done |]. pose proof (Z.log2_nonneg (Z.abs z)). lia. }
  rewrite Z2Nat.id by (apply Z.div_pos; lia).
  pose proof (Z.div_mod (BitLen z + 63) 64 ltac:(lia)). pose proof (Z.mod_pos_bound (BitLen z + 63) 64 ltac:(lia)). lia.
Qed.

Lemma Exp_correct base e : 0 <= e → Exp base e = base ^ e mod 2 ^ 256.
Proof.
  intros He. unfold Exp, big_Bits. rewrite Z.abs_eq by done.
  rewrite (exp_words_spec (2 ^ 64) _ e 1 base 1 eq_refl eq_refl He), <- Z.pow_mul_r by lia.
  by rewrite big_Bits_enough, Z.mul_1_l, U256_mod.
Qed.

(** ** Bytes, shifts and sign extension *)

Lemma words_lookup n x i : (i < n)%nat → words n x !! i = Some (u64 (Z.shiftr x (64 * Z.of_nat i))).
Proof.
  revert x i. induction n as [| n IH]; intros x i Hi; [lia |]. cbn [words]. destruct i as [| i]; [done |]. cbn [lookup list_lookup].
  rewrite IH by lia. rewrite Z.shiftr_shiftr by lia. do 3 f_equal. lia.
Qed.

Lemma byte_of_word x q r : 0 <= q → 0 <= r < 8 → u8 (Z.shiftr (u64 (Z.shiftr x (64 * q))) (8 * r)) = x / 256 ^ (8 * q + r) mod 256.
Proof.
  intros Hq Hr. unfold wrap. rewrite pow256_2 by lia. rewrite <- Z.shiftr_div_pow2 by lia. change 256 with (2 ^ 8).
  apply Z.bits_inj'. intros i Hi. destruct (Z.lt_ge_cases i 8).
  - rewrite !Z.mod_pow2_bits_low, !Z.shiftr_spec, Z.mod_pow2_bits_low, Z.shiftr_spec by lia. f_equal. lia.
  - by rewrite !Z.mod_pow2_bits_high by lia.
Qed.

Lemma math_Byte_correct x n : 0 <= x → 0 <= n < 32 → math_Byte x 32 n = (x / 256 ^ (31 - n)) mod 256.
Proof.
  intros Hx Hn. unfold math_Byte. destruct (Z.leb_spec 32 n); [lia |]. unfold bigEndianByteAt, big_Bits.
  replace (32 - 1 - n) with (31 - n) by lia. set (m := 31 - n). rewrite Z.abs_eq by done.
  pose proof (Z.div_mod m 8 ltac:(lia)) as Hm. pose proof (Z.mod_pos_bound m 8 ltac:(lia)).
  assert (0 <= m / 8) by (apply Z.div_pos; lia). pose proof (big_Bits_enough x Hx) as Hb.
  set (k := Z.to_nat ((BitLen x + 63) / 64)) in *. destruct (decide (Z.to_nat (m / 8) < k)%nat) as [Hlt | Hge].
  - rewrite words_lookup, Z2Nat.id by lia. rewrite byte_of_word by lia. do 3 f_equal. lia.
  - rewrite lookup_ge_None_2.
    + rewrite Z.div_small; [done |]. split; [done |]. rewrite pow256_2 by lia. rewrite <- Hb.
      eapply Z.lt_le_trans; [apply Z.mod_pos_bound; lia | apply Z.pow_le_mono_r; lia].
    + assert (∀ k y, length (words k y) = k) as -> by (intros k'; induction k'; intros; cbn; auto). lia.
Qed.

Lemma sign_extension x bit :
  0 <= bit →
  (if Z.testbit x bit then Z.lor x (Z.lnot (Z.shiftl 1 bit - 1)) else Z.land x (Z.shiftl 1 bit - 1)) = signed (bit + 1) x.
Proof.
  intros Hb. assert (Hp : 0 < 2 ^ bit) by (apply Z.pow_pos_nonneg; lia).
  rewrite Z.shiftl_1_l. replace (2 ^ bit - 1) with (Z.ones bit) by (rewrite Z.ones_equiv; lia).
  unfold signed. replace (bit + 1 - 1) with bit by lia. rewrite Z.pow_add_r by lia. change (2 ^ 1) with 2.
  pose proof (Z.div_mod x (2 ^ bit) ltac:(lia)) as Hx. pose proof (Z.mod_pos_bound x (2 ^ bit) ltac:(lia)) as Hm.
  pose proof (Z.testbit_spec' x bit Hb) as Ht. set (q := x / 2 ^ bit) in *. set (low := x mod 2 ^ bit) in *.
  pose proof (Z.div_mod q 2 ltac:(lia)) as Hq. destruct (Z.testbit x bit); cbn [Z.b2z] in Ht.
  - replace (x + 2 ^ bit) with (low + (q / 2 + 1) * (2 ^ bit * 2)) by nia. rewrite Z.mod_add, Z.mod_small by nia.
    assert (Z.lor x (Z.lnot (Z.ones bit)) = Z.lnot (Z.land (Z.lnot x) (Z.ones bit))) as ->
      by (rewrite Z.lnot_land, Z.lnot_involutive; done).
    rewrite Z.land_ones by done. unfold Z.lnot at 1.
    assert (Z.lnot x mod 2 ^ bit = 2 ^ bit - 1 - low) as ->; [| lia].
    symmetry. apply (Z.mod_unique _ _ (- q - 1)); [lia |]. unfold Z.lnot. nia.
  - replace (x + 2 ^ bit) with (low + 2 ^ bit + (q / 2) * (2 ^ bit * 2)) by nia. rewrite Z.mod_add, Z.mod_small by nia.
    rewrite Z.land_ones by done. fold low. lia.
Qed.

(** ** The instructions *)

Lemma sdiv_value x y :
  word x → word y →
  (if (Z.sgn (S256 y) =? 0) || (Z.sgn (S256 x) =? 0) then 0
   else if negb (Z.sgn (S256 x) =? Z.sgn (S256 y)) then U256 (- (Z.abs (S256 x) / Z.abs (S256 y)))
   else U256 (Z.abs (S256 x) / Z.abs (S256 y))) =
  if decide (y = 0) then 0 else unsigned 256 (Z.quot (signed 256 x) (signed 256 y)).
Proof.
  intros Hx Hy. rewrite <- !S256_signed by done. pose proof (S256_0 x Hx) as Zx. pose proof (S256_0 y Hy) as Zy.
  assert ((Z.sgn (S256 y) =? 0) = bool_decide (y = 0)) as ->.
  { case_bool_decide; [apply Z.eqb_eq | apply Z.eqb_neq]; rewrite Z.sgn_null_iff; tauto. }
  case_bool_decide; [by rewrite decide_True | rewrite decide_False by done]. cbn [orb].
  destruct (Z.eqb_spec (Z.sgn (S256 x)) 0) as [E | E]; rewrite Z.sgn_null_iff in E.
  - rewrite E, Z.quot_0_l by tauto. done.
  - rewrite quot_abs by tauto. destruct (_ =? _); cbn [negb]; by rewrite U256_mod.
Qed.

Lemma smod_value x y :
  word x → word y →
  (if Z.sgn (S256 y) =? 0 then 0
   else if Z.sgn (S256 x) <? 0 then U256 (- (Z.abs (S256 x) mod Z.abs (S256 y)))
   else U256 (Z.abs (S256 x) mod Z.abs (S256 y))) =
  if decide (y = 0) then 0 else unsigned 256 (Z.rem (signed 256 x) (signed 256 y)).
Proof.
  intros Hx Hy. rewrite <- !S256_signed by done. pose proof (S256_0 y Hy) as Zy.
  destruct (Z.eqb_spec (Z.sgn (S256 y)) 0) as [E | E]; rewrite Z.sgn_null_iff in E.
  - by rewrite decide_True by tauto.
  - rewrite decide_False, rem_abs by tauto. destruct (_ <? 0); by rewrite U256_mod.
Qed.

Lemma exp_value x y :
  word x → word y →
  (if y <? 1 then 1 else if Z.sgn x =? 0 then 0 else if y =? 1 then x else Exp x y) = unsigned 256 (x ^ y).
Proof.
  intros Hx [Hy _]. unfold unsigned. destruct (Z.ltb_spec y 1); [by assert (y = 0) as -> by lia |].
  destruct (Z.eqb_spec (Z.sgn x) 0) as [E | E].
  - rewrite Z.sgn_null_iff in E. rewrite E, Z.pow_0_l by lia. done.
  - destruct (Z.eqb_spec y 1) as [-> |]; [rewrite Z.pow_1_r; symmetry; by apply Z.mod_small | by apply Exp_correct].
Qed.

Lemma slt_value x y :
  word x → word y →
  (if (tt255 <=? x) && (y <? tt255) then 1 else if (x <? tt255) && (tt255 <=? y) then 0 else b2word (x <? y)) =
  if decide (signed 256 x < signed 256 y) then 1 else 0.
Proof.
  intros Hx Hy. rewrite <- !S256_signed by done. destruct Hx, Hy. unfold S256, tt256, b2word. change tt255 with (2 ^ 255).
  bool_cases; cbn [andb]; case_decide; (done || lia).
Qed.

Lemma sgt_value x y :
  word x → word y →
  (if (tt255 <=? x) && (y <? tt255) then 0 else if (x <? tt255) && (tt255 <=? y) then 1 else b2word (y <? x)) =
  if decide (signed 256 x > signed 256 y) then 1 else 0.
Proof.
  intros Hx Hy. rewrite <- !S256_signed by done. destruct Hx, Hy. unfold S256, tt256, b2word. change tt255 with (2 ^ 255).
  bool_cases; cbn [andb]; case_decide; (done || lia).
Qed.

Lemma shift_small n : word n → n < 256 → big_Uint64 (U256 n) = n.
Proof. intros Hn Hlt. rewrite U256_small by done. destruct Hn. unfold big_Uint64. rewrite Z.abs_eq, wrap_small; lia. Qed.

(** A power of two from 256 on is a multiple of [2 ^ 256] above every word. *)
Lemma pow_large n : 256 <= n → ∃ k, 0 < k ∧ 2 ^ n = k * 2 ^ 256.
Proof.
  intros Hn. exists (2 ^ (n - 256)). split; [apply Z.pow_pos_nonneg; lia |]. rewrite <- Z.pow_add_r by lia. f_equal. lia.
Qed.

Lemma shl_value n x :
  word n → word x →
  (if 256 <=? U256 n then 0 else U256 (Z.shiftl (U256 x) (big_Uint64 (U256 n)))) = unsigned 256 (x * 2 ^ n).
Proof.
  intros Hn Hx. rewrite (U256_small n), (U256_small x) by done. unfold unsigned. destruct (Z.leb_spec 256 n) as [H |].
  - destruct (pow_large n H) as (k & _ & ->). rewrite Z.mul_assoc, Z.mod_mul by lia. done.
  - rewrite <- (U256_small n) at 1 by done. rewrite shift_small, U256_mod, Z.shiftl_mul_pow2 by (done || apply Hn). done.
Qed.

Lemma shr_value n x :
  word n → word x →
  (if 256 <=? U256 n then 0 else U256 (Z.shiftr (U256 x) (big_Uint64 (U256 n)))) = x / 2 ^ n.
Proof.
  intros Hn Hx. rewrite (U256_small n), (U256_small x) by done. destruct Hx as [H0 H1]. destruct (Z.leb_spec 256 n) as [H |].
  - destruct (pow_large n H) as (k & Hk & ->). rewrite Z.div_small; nia.
  - rewrite <- (U256_small n) at 1 by done. rewrite shift_small, Z.shiftr_div_pow2 by (done || apply Hn).
    apply U256_small. assert (0 < 2 ^ n) by (apply Z.pow_pos_nonneg; [lia | apply Hn]).
    split; [apply Z.div_pos; lia |]. apply Z.div_lt_upper_bound; nia.
Qed.

Lemma sar_value n x :
  word n → word x →
  U256 (if 256 <=? U256 n then if 0 <=? Z.sgn (S256 x) then 0 else -1 else Z.shiftr (S256 x) (big_Uint64 (U256 n))) =
  unsigned 256 (signed 256 x / 2 ^ n).
Proof.
  intros Hn Hx. rewrite <- S256_signed, U256_mod by done. unfold unsigned. f_equal. pose proof (S256_range x Hx).
  rewrite U256_small by done. destruct (Z.leb_spec 256 n) as [H' |].
  - destruct (pow_large n H') as (k & Hk & ->). destruct (Z.leb_spec 0 (Z.sgn (S256 x))) as [E | E].
    + apply Z.sgn_nonneg in E. rewrite Z.div_small; nia.
    + apply Z.sgn_neg_iff in E. apply (Z.div_unique _ _ _ (S256 x + k * 2 ^ 256)); nia.
  - rewrite <- (U256_small n) at 1 by done. rewrite shift_small, Z.shiftr_div_pow2 by (done || apply Hn). done.
Qed.

Lemma sgn_eqb_0 x : (Z.sgn x =? 0) = bool_decide (x = 0).
Proof. case_bool_decide; [apply Z.eqb_eq | apply Z.eqb_neq]; by rewrite Z.sgn_null_iff. Qed.

Lemma div_value x y :
  word x → word y → (if negb (Z.sgn y =? 0) then U256 (x / y) else 0) = if decide (y = 0) then 0 else x / y.
Proof.
  intros [] []. rewrite sgn_eqb_0. case_bool_decide; cbn [negb]; case_decide; try done.
  apply U256_small. split; [apply Z.div_pos; lia | apply Z.div_lt_upper_bound; nia].
Qed.

Lemma modulus_word x z : word z → z ≠ 0 → U256 (x mod z) = x mod z.
Proof. intros [] ?. apply U256_small. pose proof (Z.mod_pos_bound x z ltac:(lia)). split; lia. Qed.

Lemma mod_value x y : word y → (if Z.sgn y =? 0 then 0 else U256 (x mod y)) = if decide (y = 0) then 0 else x mod y.
Proof. intros Hy. rewrite sgn_eqb_0. case_bool_decide; case_decide; try done. by apply modulus_word. Qed.

Lemma modulo_value x z : word z → (if 0 <? z then U256 (x mod z) else 0) = if decide (z = 0) then 0 else x mod z.
Proof. intros Hz. case_decide as E; [by subst |]. destruct (Z.ltb_spec 0 z); [by apply modulus_word | destruct Hz; lia]. Qed.

Lemma not_value x : word x → U256 (Z.lnot x) = 2 ^ 256 - 1 - x.
Proof. intros []. rewrite U256_mod. unfold Z.lnot. symmetry. apply (Z.mod_unique _ _ (-1)); lia. Qed.

Lemma byte_value i x :
  word i → word x →
  (if i <? 32 then math_Byte x 32 (big_Int64 i) else 0) = if decide (i < 32) then (x / 256 ^ (31 - i)) mod 256 else 0.
Proof.
  intros [Hi _] [Hx _]. destruct (Z.ltb_spec i 32); case_decide; try lia; try done.
  assert (big_Int64 i = i) as ->; [| apply math_Byte_correct; lia].
  unfold big_Int64, big_Uint64. destruct (Z.ltb_spec i 0); [lia |]. rewrite Z.abs_eq, wrap_small by lia. by apply to_int64_small; lia.
Qed.

Section Arithmetic.
  Context (Keccak256 : list byte → list byte) (ContractCode : list byte → list byte).
  Context (run : Contract → list byte → bool → EVM → outcome result).
  Context (rules : Rules) (precompiles : list address) (ctx : BlockContext) (c : Contract) (input : list byte).

Abbreviation execute_of := (execute_of Keccak256 ContractCode run rules precompiles ctx c input).

#[local] Arguments U256 : simpl never.
#[local] Arguments wrap : simpl never.
#[local] Arguments Z.add : simpl never.
#[local] Arguments Z.mul : simpl never.

Lemma opSignExtend_run b x l f :
  f_stack f = b :: x :: l → word b → word x →
  opSignExtend f = (Ok [], set_stack ((if decide (b < 31) then unsigned 256 (signed (8 * (b + 1)) x) else x) :: l) f).
Proof.
  intros Hf [Hb _] Hx. destruct f. cbn in Hf. subst. cbv [opSignExtend mbind st_bind pop push st_modify mret st_ret f_stack set_stack].
  cbv beta iota zeta. destruct (Z.ltb_spec b 31) as [H | H].
  - rewrite decide_True by done. do 3 f_equal. rewrite U256_mod. unfold unsigned. f_equal.
    assert (u64 (big_Uint64 b * 8 + 7) = 8 * b + 7) as ->
      by (unfold big_Uint64; rewrite Z.abs_eq by done; rewrite (wrap_small 64 b), wrap_small; lia).
    rewrite sign_extension by lia. f_equal. lia.
  - rewrite decide_False by lia. done.
Qed.

(** Runs an instruction that only pops and pushes on a concrete stack. *)
Ltac run_stack :=
  lazymatch goal with |- ?o ?f = _ => unfold o end;
  cbv [mbind st_bind pop push st_modify mret st_ret f_stack set_stack]; cbv beta iota zeta.

(** C28: The arithmetic, comparison, shift and byte instructions compute their mathematical definition
    on 256-bit words: sums and products modulo 2^256, truncated signed quotients and remainders,
    powers, sign extension, floor shifts and signed comparisons; the operands are replaced by the
    result. *)
Theorem arithmetic_correct op args z rest f :
  Forall word args → f_stack f = args ++ rest → arithmetic op args = Some z →
  execute_of op f = (Ok [], set_stack (z :: rest) f).
Proof.
  intros Hw Hf Ha. destruct op; cbn [arithmetic] in Ha; try done; repeat (destruct args as [| ? args]; try done);
    injection Ha as <-; decompose_Forall_hyps; cbn [app] in Hf; cbn [EvmInstructions.execute_of];
    try (by apply opSignExtend_run); destruct f as [p st me la g e]; cbn [f_stack] in Hf; subst st;
    run_stack; do 3 f_equal.
  all: try (by rewrite U256_mod).
  all: try (by apply sdiv_value); try (by apply smod_value); try (by apply exp_value).
  all: try (by apply slt_value); try (by apply sgt_value).
  all: try (by apply shl_value); try (by apply shr_value); try (by apply sar_value).
  all: try (by apply div_value); try (by apply mod_value); try (by apply modulo_value); try (by apply not_value).
  all: try (by apply byte_value); unfold b2word.
  1-3: bool_cases; case_decide; (done || lia).
  destruct (Z.sgn_spec z0) as [[? ->] | [[? ->] | [? ->]]]; case_decide; (done || unfold word in *; lia).
Qed.

End Arithmetic.
