(* ===== verification/EvmGasFacts.v ===== *)
(** What the gas functions of EvmGas.v charge and change.

    They leave the stack, the memory and the gas of the frame alone, they charge
    the exact price of the memory, a call gets no more than what is charged for
    it, and nothing but the refund counter can make them panic. *)

From S2P Require Import Prelude Rlp TxMeta Transaction BigFloat Fees StateDB StateDBFacts StateBalances EvmEffects.
From S2P Require Import EvmCommon EvmCalls EvmGas.

Definition refund_panic : string := "Refund counter below zero".

(** The forks come in order. *)
Record ordered (rules : Rules) : Prop := {
  or_istanbul : IsBerlin rules = true → IsIstanbul rules = true;
  or_eip150 : IsIstanbul rules = true → IsEIP150 rules = true;
  or_eip158 : IsByzantium rules = true → IsEIP158 rules = true;
}.

Abbreviation frame_state f := (evm_StateDB (f_evm f)).

(** ** The price of memory *)

(** What [w] words of memory cost in all. *)
Definition fee (w : Z) : Z := 3 * w + w * w / 512.

(** The memory has whole words, and they have been paid. *)
Record priced (f : Frame) : Prop := {
  pr_words : len (f_store f) mod 32 = 0;
  pr_size : len (f_store f) <= 0x1FFFFFFFE0;
  pr_fee : lastGasCost f = fee (len (f_store f) / 32);
}.

Lemma fee_mono v w : 0 <= v <= w → fee v <= fee w.
Proof. intros. unfold fee. assert (v * v / 512 <= w * w / 512) by (apply Z.div_le_mono; nia). lia. Qed.

Lemma fee_bound w : 0 <= w < 2 ^ 32 → 0 <= fee w < 2 ^ 56.
Proof.
  intros. unfold fee. assert (0 <= w * w / 512) by (apply Z.div_pos; nia).
  assert (w * w / 512 < 2 ^ 55) by (apply Z.div_lt_upper_bound; nia). lia.
Qed.

Lemma memoryGasCost_spec size f :
  priced f → size mod 32 = 0 → 0 <= size →
  let n := Z.max (len (f_store f)) size / 32 in
  wp (memoryGasCost size) (λ r f',
    match r with
    | Ok cost => size <= 0x1FFFFFFFE0 ∧ cost = fee n - fee (len (f_store f) / 32) ∧ 0 <= cost < 2 ^ 56 ∧
        f' = set_lastGasCost (fee n) f
    | Err _ => f' = f
    | Panic _ => False
    end) f.
Proof.
  intros [Hw Hs Hf] Hm H0 n. pose proof (len_nonneg (f_store f)) as Hl.
  assert (Hn : 0 <= len (f_store f) / 32 < 2 ^ 32) by (split; [apply Z.div_pos | apply Z.div_lt_upper_bound]; lia).
  assert (Hsame : Z.max (len (f_store f)) size = len (f_store f) →
    n = len (f_store f) / 32 ∧ f = set_lastGasCost (fee n) f ∧ 0 = fee n - fee (len (f_store f) / 32)).
  { intros E. assert (n = len (f_store f) / 32) as -> by (unfold n; by rewrite E).
    split; [done |]. split; [| lia]. rewrite <- Hf. by destruct f. }
  unfold memoryGasCost, mem_Len. destruct (Z.eqb_spec size 0) as [-> | Hne].
  { wp_steps. destruct Hsame as (E1 & E2 & E3); [lia |]. split_and!; (done || lia). }
  destruct (Z.ltb_spec 0x1FFFFFFFE0 size); [wp_steps; done |]. wp_steps.
  assert (Hws : toWordSize size = size / 32).
  { unfold toWordSize. destruct (Z.ltb_spec (max_uint64 - 31) size); [unfold max_uint64 in *; lia |].
    pose proof (Z.div_mod size 32 ltac:(lia)). symmetry. apply (Z.div_unique _ _ _ 31); lia. }
  assert (Hq : 0 <= size / 32 < 2 ^ 32) by (split; [apply Z.div_pos | apply Z.div_lt_upper_bound]; lia).
  pose proof (Z.div_mod size 32 ltac:(lia)) as Hdiv. rewrite Hws, !(wrap_small 64 (size / 32 * 32)) by lia.
  destruct (Z.ltb_spec (len (f_store f)) (size / 32 * 32)).
  - wp_steps. assert (n = size / 32) as -> by (unfold n; f_equal; lia).
    pose proof (fee_bound _ Hq) as Hb. assert (Hle : fee (len (f_store f) / 32) <= fee (size / 32)).
    { apply fee_mono. split; [lia | apply Z.div_le_mono; lia]. }
    pose proof (fee_bound _ Hn) as Hb'.
    assert (Efee : u64 (u64 (size / 32 * 3) + u64 (size / 32 * (size / 32)) / 512) = fee (size / 32)).
    { unfold fee in *. rewrite (wrap_small 64 (size / 32 * 3)), (wrap_small 64 (size / 32 * (size / 32))) by nia.
      rewrite wrap_small by lia. lia. }
    rewrite Efee, Hf, wrap_small by lia. split_and!; (done || lia).
  - wp_steps. destruct Hsame as (E1 & E2 & E3); [lia |]. split_and!; (done || lia).
Qed.

Section GasFacts.
  Context (Keccak256 : list byte → list byte) (ContractCode : list byte → list byte).
  Context (rules : Rules) (c : Contract).

Abbreviation evm_effects := (evm_effects Keccak256 ContractCode).
Abbreviation sound := (sound Keccak256 ContractCode).
Abbreviation do_op := (StateDBFacts.exec Keccak256 ContractCode).
Abbreviation accessed a s := (a ∈ dom (al_addresses (access s))).

(** ** Changes of the state alone *)

Definition touched (q : bool) (f f' : Frame) : Prop :=
  ∃ s', f' = set_evm (set_StateDB s' (f_evm f)) f ∧ evm_effects q (frame_state f) s'.

#[local] Instance touched_preorder q : PreOrder (touched q).
Proof.
  split.
  - intros f. exists (frame_state f). split; [by destruct f as [? ? ? ? ? []] | apply eff_refl].
  - intros f1 f2 f3 (s2 & -> & H2) (s3 & -> & H3). exists s3. split; [done | by eapply effects_trans].
Qed.

Lemma touched_op q o f s' :
  evm_op q o (frame_state f) → do_op o (frame_state f) = Ok s' → touched q f (set_evm (set_StateDB s' (f_evm f)) f).
Proof. intros HA Ho. exists s'. split; [done | by eapply effects_one]. Qed.

Lemma wp_put_state s' Q f : Q (Ok tt) (set_evm (set_StateDB s' (f_evm f)) f) → wp (put_state s') Q f.
Proof. done. Qed.

Lemma wp_Back n x Q f : f_stack f !! n = Some x → Q (Ok x) f → wp (Back n) Q f.
Proof. intros H. unfold wp, Back. by rewrite H. Qed.

(** The refund counter: it may panic when it is lowered. *)
Definition refunds (f : Frame) (r : outcome ()) (f' : Frame) : Prop :=
  touched false f f' ∧ (r = Ok tt ∨ r = Panic refund_panic).

Lemma AddRefund_spec g f : wp (AddRefund' g) (refunds f) f.
Proof. split; [by apply (touched_op false (OAddRefund g)) | by left]. Qed.

Lemma SubRefund_spec g f : wp (SubRefund' g) (refunds f) f.
Proof.
  unfold SubRefund', get_state. wp_steps. unfold SubRefund. destruct (_ <? g) eqn:E; wp_steps.
  - split; [done | by right].
  - apply wp_put_state. split; [| by left]. apply (touched_op false (OSubRefund g)); [done |]. cbn. unfold SubRefund. by rewrite E.
Qed.

Lemma no_refund f : wp (mret tt) (refunds f) f.
Proof. split; [done | by left]. Qed.

(** Goes on after a refund. *)
Lemma wp_after_refund {A} (m : exec ()) (k : exec A) Q f :
  wp m (refunds f) f → (∀ f', touched false f f' → wp k Q f' ∧ Q (Panic refund_panic) f') → wp m (wp_cont (λ _, k) Q) f.
Proof.
  intros Hm Hk. eapply wp_mono; [exact Hm |]. intros r f' [Ht [-> | ->]]; wp_steps; by apply Hk.
Qed.

Lemma dirty_refunds_spec original current value clear reset_zero reset f :
  wp (dirty_refunds original current value clear reset_zero reset) (refunds f) f.
Proof.
  unfold dirty_refunds. wp_step. apply wp_after_refund.
  - destruct (negb _); [| apply no_refund]. destruct (current =? 0); [apply SubRefund_spec |].
    destruct (value =? 0); [apply AddRefund_spec | apply no_refund].
  - intros f' Ht. split; [| split; [done | by right]]. eapply wp_mono with (Q := refunds f').
    + destruct (original =? value); [| apply no_refund]. destruct (original =? 0); apply AddRefund_spec.
    + intros r f'' [Ht' Hr]. split; [by etrans | done].
Qed.

Lemma suicide_refund_spec f : wp (suicide_refund c) (refunds f) f.
Proof. unfold suicide_refund, get_state. wp_steps. destruct (negb _); [apply AddRefund_spec | apply no_refund]. Qed.

(** The access list. *)
Lemma AddAddress_spec q a f : wp (AddAddressToAccessList' a) (λ r f', r = Ok tt ∧ touched q f f' ∧ accessed a (frame_state f')) f.
Proof.
  split; [done |]. split; [by apply (touched_op q (OAddAddress a)) | apply AddAddress_accessed].
Qed.

Lemma sound_wf s : sound s → wf s.
Proof. intros [m Hm]. apply Hm. Qed.

Lemma AddSlot_spec q a slot f :
  sound (frame_state f) → wp (AddSlotToAccessList' a slot) (λ r f', r = Ok tt ∧ touched q f f') f.
Proof.
  intros Hs. unfold AddSlotToAccessList', get_state. wp_steps.
  destruct (AddSlot_journaled Keccak256 ContractCode a slot _ (sound_wf _ Hs)) as (s' & E & _). rewrite E. wp_steps.
  apply wp_put_state. split; [done |]. by apply (touched_op q (OAddSlot a slot)).
Qed.

(** A slot is in the list only under an address that is. *)
Lemma SlotInAccessList_spec a slot s :
  sound s → ∃ b1 b2, SlotInAccessList a slot s = Ok (b1, b2) ∧ (b1 = true ↔ accessed a s).
Proof.
  intros Hs. destruct (wf_access _ (sound_wf _ Hs)) as [Hi _]. unfold SlotInAccessList, al_Contains. setoid_rewrite elem_of_dom.
  destruct (al_addresses (access s) !! a) as [idx |] eqn:E; [| exists false, false; split; [done | by split; [| intros []]]].
  assert (Ht : true = true ↔ is_Some (Some idx)) by (split; [by eexists | done]).
  destruct (Z.eqb_spec idx (-1)); [by exists true, false |]. destruct (Hi _ _ E) as [| Hidx]; [done |].
  destruct (lookup_lt_is_Some_2 (al_slots (access s)) (Z.to_nat idx)) as [m Hm]; [unfold len in Hidx; lia |].
  rewrite Hm. by eexists true, _.
Qed.

(** ** What a gas function promises *)

(** The parts of a frame that a gas function leaves alone. *)
Record kept (q : bool) (f f' : Frame) : Prop := {
  kt_pc : pc f' = pc f;
  kt_stack : f_stack f' = f_stack f;
  kt_store : f_store f' = f_store f;
  kt_gas : 0 <= f_Gas f' <= f_Gas f;
  kt_depth : depth (f_evm f') = depth (f_evm f);
  kt_readOnly : readOnly (f_evm f') = readOnly (f_evm f);
  kt_returnData : returnData (f_evm f') = returnData (f_evm f);
  kt_effects : evm_effects q (frame_state f) (frame_state f');
}.

(** [lo] is the least cost. *)
Definition gas_post (q : bool) (lo size : Z) (f : Frame) (r : outcome Z) (f' : Frame) : Prop :=
  kept q f f' ∧
  match r with
  | Ok cost => f_Gas f' = f_Gas f ∧ lo <= cost ∧ size <= 0x1FFFFFFFE0 ∧
      lastGasCost f' = fee (Z.max (len (f_store f)) size / 32)
  | Err _ => True
  | Panic m => m = refund_panic
  end.

Record gas_pre (size : Z) (f : Frame) : Prop := {
  gp_priced : priced f;
  gp_words : size mod 32 = 0;
  gp_size : 0 <= size;
  gp_gas : 0 <= f_Gas f < 2 ^ 64;
}.

Lemma touched_kept q f f' : 0 <= f_Gas f → touched q f f' → kept q f f'.
Proof. intros Hg (s' & -> & He). split; cbn; (done || lia). Qed.

Lemma gas_pre_touched q size f f' : gas_pre size f → touched q f f' → gas_pre size f'.
Proof. intros [[] ? ? ?] (s' & -> & _). split; [by split | done | done | done]. Qed.

(** A function that only looks at the frame and the state, without memory. *)
Lemma gas_post_touched q lo f cost f' :
  gas_pre 0 f → touched q f f' → lo <= cost → gas_post q lo 0 f (Ok cost) f'.
Proof.
  intros [[Hw Hs Hf] _ _ [Hg _]] Ht Hlo. split; [by apply touched_kept |]. destruct Ht as (s' & -> & _). cbn.
  pose proof (len_nonneg (f_store f)). rewrite Z.max_l by lia. split_and!; (done || lia).
Qed.

Lemma gas_post_fails q lo size f e f' : 0 <= f_Gas f → touched q f f' → gas_post q lo size f (Err e) f'.
Proof. intros Hg Ht. split; [by apply touched_kept | done]. Qed.

Lemma gas_post_panics lo size f f' : 0 <= f_Gas f → touched false f f' → gas_post false lo size f (Panic refund_panic) f'.
Proof. intros Hg Ht. split; [by apply touched_kept | done]. Qed.

Lemma wp_no_overflow e r Q f : (r.2 = false → Q (Ok r.1) f) → Q (Err e) f → wp (no_overflow e r) Q f.
Proof. intros H1 H2. unfold no_overflow. destruct r as [x []]; cbn [snd fst] in *; wp_steps; auto. Qed.

Lemma SafeAdd_exact x y : 0 <= x → 0 <= y → (SafeAdd x y).2 = false → (SafeAdd x y).1 = x + y ∧ x + y < 2 ^ 64.
Proof. cbn. intros Hx Hy H. apply Z.ltb_ge in H. unfold max_uint64 in H. rewrite wrap_small; lia. Qed.

Lemma SafeMul_range x y : 0 <= (SafeMul x y).1 < 2 ^ 64.
Proof. unfold SafeMul. destruct (_ || _); cbn; [lia |]. apply wrap_range. lia. Qed.

(** *** Memory *)

(** After the memory has been priced, the rest only looks. *)
Lemma wp_after_memory {A} size (k : Z → exec A) (Q : outcome A → Frame → Prop) f :
  gas_pre size f →
  (∀ cost, 0 <= cost < 2 ^ 56 → size <= 0x1FFFFFFFE0 →
    wp (k cost) Q (set_lastGasCost (fee (Z.max (len (f_store f)) size / 32)) f)) →
  (∀ e, Q (Err e) f) → wp (memoryGasCost size) (wp_cont k Q) f.
Proof.
  intros [Hp Hw Hs _] Hk He. eapply wp_mono; [by apply memoryGasCost_spec |].
  intros [cost | e | m] f' Hr; [| subst; wp_steps; by apply He | done]. destruct Hr as (Hb & _ & Hc & ->). wp_steps. by apply Hk.
Qed.

Lemma priced_kept q size f la : gas_pre size f → kept q f (set_lastGasCost la f).
Proof. intros [_ _ _ [Hg _]]. split; cbn; (done || lia || apply eff_refl). Qed.

Lemma gas_post_priced q lo size f cost :
  gas_pre size f → size <= 0x1FFFFFFFE0 → lo <= cost →
  gas_post q lo size f (Ok cost) (set_lastGasCost (fee (Z.max (len (f_store f)) size / 32)) f).
Proof. intros Hp Hs Hc. split; [by eapply priced_kept |]. by split_and!. Qed.

Lemma gas_post_priced_fails q lo size f e la : gas_pre size f → gas_post q lo size f (Err e) (set_lastGasCost la f).
Proof. intros Hp. split; [by eapply priced_kept | done]. Qed.

Lemma gas_post_same_fails q lo size f e : gas_pre size f → gas_post q lo size f (Err e) f.
Proof. intros Hp. apply gas_post_fails; [apply Hp | done]. Qed.

#[local] Hint Resolve gas_post_priced gas_post_priced_fails gas_post_same_fails : core.

Lemma memory_and_words_spec q pos per size f x :
  gas_pre size f → f_stack f !! pos = Some x → wp (memory_and_words pos per size) (gas_post q 0 size f) f.
Proof.
  intros Hp Hx. unfold memory_and_words. wp_step. apply wp_after_memory; [done | | auto]. intros cost Hc Hs.
  wp_step. eapply wp_Back; [done |]. wp_steps. apply wp_no_overflow; [intros _; wp_steps | by apply gas_post_priced_fails].
  apply wp_no_overflow; [intros _; wp_steps | by apply gas_post_priced_fails].
  apply wp_no_overflow; [intros _ | by apply gas_post_priced_fails]. apply gas_post_priced; try done. cbn. apply wrap_range. lia.
Qed.

Lemma pureMemoryGascost_spec q size f : gas_pre size f → wp (pureMemoryGascost size) (gas_post q 0 size f) f.
Proof.
  intros Hp. destruct (id Hp) as [H1 H2 H3 _]. eapply wp_mono; [by apply memoryGasCost_spec |].
  intros [cost | e | m] f' Hr; [| by subst; auto | done]. destruct Hr as (Hb & _ & Hc & ->). apply gas_post_priced; (done || lia).
Qed.

Lemma makeGasLog_spec q n size f x :
  gas_pre size f → f_stack f !! 1%nat = Some x → wp (makeGasLog n size) (gas_post q 375 size f) f.
Proof.
  intros Hp Hx. unfold makeGasLog. wp_step. eapply wp_Back; [done |]. wp_steps.
  apply wp_no_overflow; [intros _; wp_steps | by apply gas_post_same_fails].
  apply wp_after_memory; [done | | auto]. intros cost Hc Hs.
  wp_step. apply wp_no_overflow; [intros E1; wp_steps | by apply gas_post_priced_fails].
  apply SafeAdd_exact in E1 as [-> _]; [| lia | lia].
  apply wp_no_overflow; [intros E2; wp_steps | by apply gas_post_priced_fails].
  assert (0 <= u64 (n * 375)) by (apply wrap_range; lia). apply SafeAdd_exact in E2 as [-> _]; [| lia | done].
  apply wp_no_overflow; [intros _; wp_steps | by apply gas_post_priced_fails].
  apply wp_no_overflow; [intros E3 | by apply gas_post_priced_fails].
  pose proof (SafeMul_range (bigUint64 x).1 8). apply SafeAdd_exact in E3 as [-> _]; [| lia | lia].
  apply gas_post_priced; (done || lia).
Qed.

Lemma gas_exp_spec q per f x :
  gas_pre 0 f → f_stack f !! 1%nat = Some x → wp (gas_exp per) (gas_post q 10 0 f) f.
Proof.
  intros Hp Hx. unfold gas_exp. wp_step. eapply wp_Back; [done |]. wp_steps. apply wp_no_overflow; [intros E | by apply gas_post_same_fails].
  assert (0 <= u64 ((BitLen x + 7) / 8 * per)) by (apply wrap_range; lia).
  apply SafeAdd_exact in E as [-> _]; [| done | lia]. apply gas_post_touched; (done || lia).
Qed.

(** *** Storage *)

Lemma wp_peek x Q f : f_stack f !! 0%nat = Some x → Q (Ok x) f → wp peek Q f.
Proof. apply wp_Back. Qed.

Lemma wp_get_state Q f : Q (Ok (frame_state f)) f → wp get_state Q f.
Proof. done. Qed.

(** The end of a function that refunds and then returns its cost. *)
Lemma refund_then lo (m : exec ()) cost f :
  gas_pre 0 f → lo <= cost → wp m (refunds f) f → wp m (wp_cont (λ _, mret cost) (gas_post false lo 0 f)) f.
Proof.
  intros Hp Hlo Hm. apply wp_after_refund; [done |]. intros f' Ht. split.
  - wp_steps. by apply gas_post_touched.
  - apply gas_post_panics; [apply Hp | done].
Qed.

Lemma gas_post_from q lo f0 f r f' : touched q f0 f → gas_post q lo 0 f r f' → gas_post q lo 0 f0 r f'.
Proof.
  intros (s' & -> & He) [[] Hr]. split.
  - split; cbn in *; try done. by eapply effects_trans.
  - by destruct r.
Qed.

(** The branches of a function that prices a write. *)
Ltac refund_cases :=
  repeat match goal with
  | |- wp (if ?b then _ else _) _ _ => destruct b
  | |- wp (mret _) _ _ => wp_step; apply gas_post_touched; (done || lia)
  | |- wp (_;; mret _) _ _ => wp_step; apply refund_then; [done | lia |]
  end; first [apply AddRefund_spec | apply no_refund | apply dirty_refunds_spec | apply suicide_refund_spec].

Lemma gasSStore_spec f x y :
  gas_pre 0 f → f_stack f !! 0%nat = Some x → f_stack f !! 1%nat = Some y → wp (gasSStore rules c 0) (gas_post false 200 0 f) f.
Proof.
  intros Hp Hx Hy. unfold gasSStore. wp_step. eapply wp_Back; [done |]. wp_steps. eapply wp_Back; [done |]. wp_steps.
  apply wp_get_state. wp_steps.
  refund_cases.
Qed.

Lemma gasSStoreEIP2200_spec f x y :
  gas_pre 0 f → f_stack f !! 0%nat = Some x → f_stack f !! 1%nat = Some y → wp (gasSStoreEIP2200 c 0) (gas_post false 800 0 f) f.
Proof.
  intros Hp Hx Hy. unfold gasSStoreEIP2200. wp_steps. destruct (_ <=? _); [wp_steps; by apply gas_post_same_fails |].
  wp_step. eapply wp_Back; [done |]. wp_steps. eapply wp_Back; [done |]. wp_steps. apply wp_get_state. wp_steps.
  refund_cases.
Qed.

(** The case that the code calls impossible does not arise: the contract is in
    the access list. *)
Lemma sstore_cold_spec q slot f :
  sound (frame_state f) → accessed (c_self c) (frame_state f) →
  wp (sstore_cold c slot) (λ r f', touched q f f' ∧ ∃ cost, r = Ok cost ∧ 0 <= cost) f.
Proof.
  intros Hs Ha. unfold sstore_cold. wp_step. apply wp_get_state. wp_steps.
  destruct (SlotInAccessList_spec (c_self c) slot _ Hs) as (b1 & b2 & -> & Hb). wp_steps. destruct b2; cbn [negb].
  - wp_steps. split; [done |]. by exists 0.
  - wp_step. eapply wp_mono; [by apply AddSlot_spec |]. intros r f' [-> Ht]. wp_steps.
    rewrite (proj2 Hb Ha). cbn [negb]. wp_steps. split; [done |]. by exists 2100.
Qed.

Lemma makeGasSStoreFunc_spec refund f x y :
  gas_pre 0 f → f_stack f !! 0%nat = Some x → f_stack f !! 1%nat = Some y →
  sound (frame_state f) → accessed (c_self c) (frame_state f) →
  wp (makeGasSStoreFunc c refund 0) (gas_post false 100 0 f) f.
Proof.
  intros Hp Hx Hy Hs Ha. unfold makeGasSStoreFunc. wp_steps. destruct (_ <=? _); [wp_steps; by apply gas_post_same_fails |].
  wp_step. eapply wp_Back; [done |]. wp_steps. eapply wp_peek; [done |]. wp_steps. apply wp_get_state. wp_steps.
  eapply wp_mono; [by apply (sstore_cold_spec false) |]. intros r f1 (Ht & cost & -> & Hc). wp_steps.
  pose proof (gas_pre_touched _ _ _ _ Hp Ht) as Hp1. eapply wp_mono; [| intros ? ?; by apply gas_post_from].
  destruct (_ =? _); [wp_step; apply gas_post_touched; (done || lia) |]. wp_step. apply wp_get_state. wp_steps.
  refund_cases.
Qed.

Lemma gasSLoadEIP2929_spec q f x :
  gas_pre 0 f → f_stack f !! 0%nat = Some x → sound (frame_state f) → wp (gasSLoadEIP2929 c 0) (gas_post q 100 0 f) f.
Proof.
  intros Hp Hx Hs. unfold gasSLoadEIP2929. wp_step. eapply wp_peek; [done |]. wp_steps. apply wp_get_state. wp_steps.
  destruct (SlotInAccessList_spec (c_self c) (BigToHash x) _ Hs) as (b1 & b2 & -> & Hb). wp_steps. destruct b2; cbn [negb].
  - wp_steps. apply gas_post_touched; (done || lia).
  - wp_step. eapply wp_mono; [by apply AddSlot_spec |]. intros r f' [-> Ht]. wp_steps. apply gas_post_touched; (done || lia).
Qed.

(** *** Accounts *)

Lemma gasEip2929AccountCheck_spec q f x :
  gas_pre 0 f → f_stack f !! 0%nat = Some x → wp (gasEip2929AccountCheck 0) (gas_post q 0 0 f) f.
Proof.
  intros Hp Hx. unfold gasEip2929AccountCheck. wp_step. eapply wp_peek; [done |]. wp_steps. apply wp_get_state. wp_steps.
  destruct (negb _); [| wp_steps; by apply gas_post_touched].
  wp_step. eapply wp_mono; [by apply AddAddress_spec |]. intros r f' (-> & Ht & _). wp_steps. by apply gas_post_touched.
Qed.

Lemma kept_touched q f f1 f2 : kept q f f1 → touched q f1 f2 → kept q f f2.
Proof. intros [] (s' & -> & He). split; cbn in *; try done. by eapply effects_trans. Qed.

Lemma gasExtCodeCopyEIP2929_spec q size f x y :
  gas_pre size f → f_stack f !! 0%nat = Some x → f_stack f !! 3%nat = Some y →
  wp (gasExtCodeCopyEIP2929 size) (gas_post q 0 size f) f.
Proof.
  intros Hp Hx Hy. unfold gasExtCodeCopyEIP2929, gasExtCodeCopy, memoryCopierGas. wp_step.
  eapply wp_mono; [by eapply (memory_and_words_spec q) |]. intros [gas | e | m] f1 [Hk Hr]; wp_steps; [| by split..].
  eapply wp_peek; [by rewrite (kt_stack _ _ _ Hk) |]. wp_steps. apply wp_get_state. wp_steps.
  destruct (negb _); [| wp_steps; by split]. wp_step. eapply wp_mono; [by apply (AddAddress_spec q) |].
  intros r f2 (-> & Ht & _). wp_steps. pose proof (kept_touched _ _ _ _ Hk Ht). destruct Ht as (s' & -> & _).
  destruct Hr as (H1 & H2 & H3 & H4).
  apply wp_no_overflow; [intros E | by split]. apply SafeAdd_exact in E as [-> _]; [| done | done].
  split; [done |]. cbn. split_and!; (done || unfold coldCost; lia).
Qed.

Lemma gasExtCodeCopyEIP2929Mantle_spec q size f y :
  gas_pre size f → f_stack f !! 3%nat = Some y → wp (gasExtCodeCopyEIP2929Mantle size) (gas_post q 0 size f) f.
Proof.
  intros Hp Hy. unfold gasExtCodeCopyEIP2929Mantle, gasExtCodeCopy, memoryCopierGas. wp_step.
  eapply wp_mono; [by eapply (memory_and_words_spec q) |]. intros [gas | e | m] f1 [Hk Hr]; wp_steps; [| by split..].
  destruct Hr as (H1 & H2 & H3 & H4).
  apply wp_no_overflow; [intros E | by split]. apply SafeAdd_exact in E as [-> _]; [| done | done].
  split; [done |]. split_and!; (done || unfold coldCost; lia).
Qed.

(** *** Calls *)

(** The gas that a call gets is part of the cost, besides what a transfer of
    [v] costs. *)
Definition call_post (q : bool) (v size : Z) (f : Frame) (r : outcome Z) (f' : Frame) : Prop :=
  gas_post q 0 size f r f' ∧
  ∀ cost, r = Ok cost →
    0 <= callGasTemp (f_evm f') ∧ callGasTemp (f_evm f') + (if v =? 0 then 0 else 9000) <= cost.

(** The cost of the four calculators stays away from the end of [uint64]. *)
Definition calc_post (q : bool) (v size : Z) (f : Frame) (r : outcome Z) (f' : Frame) : Prop :=
  call_post q v size f r f' ∧
  ∀ cost, r = Ok cost → IsEIP150 rules = true → cost <= Z.max (f_Gas f) (2 ^ 64 - 2 ^ 57 + 1).

Lemma callGas_spec A B x t :
  0 <= A < 2 ^ 64 → 0 <= B < 2 ^ 57 → callGas (IsEIP150 rules) A B x = Ok t →
  0 <= t ∧ (IsEIP150 rules = true → B + t <= Z.max A (2 ^ 64 - 2 ^ 57 + 1)).
Proof.
  intros HA HB. unfold callGas. set (W := u64 (A - B)). assert (HW : 0 <= W < 2 ^ 64) by (apply wrap_range; lia).
  assert (Hw : W = A - B ∨ A < B ∧ W = A - B + 2 ^ 64).
  { unfold W, wrap. destruct (Z.lt_ge_cases A B); [right | left; apply Z.mod_small; lia]. split; [done |].
    symmetry. apply (Z.mod_unique _ _ (-1)); lia. }
  pose proof (Z.div_mod W 64 ltac:(lia)). pose proof (Z.mod_pos_bound W 64 ltac:(lia)).
  assert (Hx : 0 <= big_Uint64 x) by (apply wrap_range; lia).
  destruct (IsEIP150 rules && _) eqn:E.
  - intros [= <-]. split; [| intros _]; lia.
  - destruct (negb (IsUint64 x)) eqn:Ex; [done |]. intros [= <-]. split; [done |]. intros E150. rewrite E150 in E.
    cbn [andb orb] in E. apply Z.ltb_ge in E. lia.
Qed.

(** The part that the four calculators share, once the memory is priced. *)
Lemma gas_with_call_spec q v size gas f x :
  gas_pre size f → size <= 0x1FFFFFFFE0 → f_stack f !! 0%nat = Some x → (if v =? 0 then 0 else 9000) <= gas < 2 ^ 57 →
  wp (gas_with_call rules gas) (calc_post q v size f) (set_lastGasCost (fee (Z.max (len (f_store f)) size / 32)) f).
Proof.
  intros Hp Hs Hx Hg. pose proof (gp_gas _ _ Hp) as HA. assert (0 <= gas) by (destruct (v =? 0); lia).
  assert (Hk : ∀ t, kept q f (set_evm (set_callGasTemp t (f_evm f)) (set_lastGasCost (fee (Z.max (len (f_store f)) size / 32)) f)))
    by (intros t; split; cbn; (done || lia || apply eff_refl)).
  unfold gas_with_call, modify_evm. wp_steps. eapply wp_Back; [done |]. wp_steps. cbn [f_Gas set_lastGasCost].
  destruct (callGas (IsEIP150 rules) (f_Gas f) gas x) as [t | e | m] eqn:E; wp_steps.
  - apply callGas_spec in E as [Ht Hb]; [| done | lia].
    apply wp_no_overflow; [intros Eo | split; [split; [by split; [apply (Hk t) |] |] |]; done].
    apply SafeAdd_exact in Eo as [-> _]; [| done | done]. split; [split |].
    + split; [apply (Hk t) |]. cbn. split_and!; (done || lia).
    + intros cost [= <-]. cbn. split; [done | lia].
    + by intros cost [= <-].
  - split; [split; [by split; [apply (Hk 0) |] |] |]; done.
  - unfold callGas in E. destruct (_ && _); [done |]. by destruct (negb _).
Qed.

Lemma call_post_fails q v size f e : gas_pre size f → call_post q v size f (Err e) f.
Proof. intros Hp. split; [by apply gas_post_same_fails | done]. Qed.

Lemma calc_post_fails q v size f e : gas_pre size f → calc_post q v size f (Err e) f.
Proof. intros Hp. split; [by apply call_post_fails | done]. Qed.

Lemma calc_post_priced_fails q v size f e la : gas_pre size f → calc_post q v size f (Err e) (set_lastGasCost la f).
Proof. intros Hp. split; [split; [by apply gas_post_priced_fails |] |]; done. Qed.

Lemma gasCall_spec q size f x0 x1 v :
  gas_pre size f → f_stack f !! 0%nat = Some x0 → f_stack f !! 1%nat = Some x1 → f_stack f !! 2%nat = Some v →
  wp (gasCall Keccak256 rules size) (calc_post q v size f) f.
Proof.
  intros Hp H0 H1 H2. unfold gasCall. wp_step. eapply wp_Back; [done |]. wp_steps. eapply wp_Back; [done |]. wp_steps.
  apply wp_get_state. wp_steps. apply wp_after_memory; [done | | intros e; by apply calc_post_fails]. intros cost Hc Hs.
  set (base := if negb (Z.sgn v =? 0) then _ else _).
  assert (Hb : (if v =? 0 then 0 else 9000) <= base <= 34000).
  { subst base. destruct (Z.eqb_spec v 0) as [-> | Hv].
    - cbn [Z.sgn Z.eqb negb andb]. destruct (IsEIP158 rules); [lia |]. destruct (negb _); lia.
    - destruct (Z.eqb_spec (Z.sgn v) 0); [lia |]. cbn [negb].
      destruct (IsEIP158 rules); [destruct (true && _) | destruct (negb (Exist _ _))]; lia. }
  wp_step. apply wp_no_overflow; [intros E; wp_steps | by apply calc_post_priced_fails].
  apply SafeAdd_exact in E as [-> _]; [| destruct (v =? 0); lia | lia].
  eapply gas_with_call_spec; (done || destruct (v =? 0); lia).
Qed.

Lemma gasCallCode_spec q size f x0 v :
  gas_pre size f → f_stack f !! 0%nat = Some x0 → f_stack f !! 2%nat = Some v →
  wp (gasCallCode rules size) (calc_post q v size f) f.
Proof.
  intros Hp H0 H2. unfold gasCallCode. wp_step. apply wp_after_memory; [done | | intros e; by apply calc_post_fails].
  intros cost Hc Hs. wp_step. eapply wp_Back; [done |]. wp_steps.
  assert (E : (if negb (Z.sgn v =? 0) then 9000 else 0) = if v =? 0 then 0 else 9000).
  { destruct (Z.eqb_spec v 0) as [-> | Hv]; [done |]. destruct (Z.eqb_spec (Z.sgn v) 0); [lia | done]. }
  rewrite E. apply wp_no_overflow; [intros Eo; wp_steps | by apply calc_post_priced_fails].
  apply SafeAdd_exact in Eo as [-> _]; [| destruct (v =? 0); lia | lia].
  eapply gas_with_call_spec; (done || destruct (v =? 0); lia).
Qed.

(** Calls without a value. *)
Lemma gasDelegateCall_spec q size f x0 :
  gas_pre size f → f_stack f !! 0%nat = Some x0 → wp (gasDelegateCall rules size) (calc_post q 0 size f) f.
Proof.
  intros Hp H0. unfold gasDelegateCall. wp_step. apply wp_after_memory; [done | | intros e; by apply calc_post_fails].
  intros cost Hc Hs. eapply gas_with_call_spec; (done || cbn; lia).
Qed.

Lemma kept_trans q f f1 f2 : kept q f f1 → kept q f1 f2 → kept q f f2.
Proof. intros [] []. split; try congruence; [lia | by eapply effects_trans]. Qed.

Lemma kept_set_Gas q f f1 g : kept q f f1 → 0 <= g <= f_Gas f → kept q f (set_Gas g f1).
Proof. intros [] Hg. by split. Qed.

Lemma gas_pre_touched_Gas q size f f1 g :
  gas_pre size f → touched q f f1 → 0 <= g < 2 ^ 64 → gas_pre size (set_Gas g f1).
Proof. intros [[] ? ? ?] (s' & -> & _) Hg. split; [by split | done | done | done]. Qed.

(** The calculators behind a cold access: its cost is taken first, and given
    back to be part of the result. *)
Lemma cold_spec q v size f f1 (calc : Z → exec Z) :
  IsEIP150 rules = true → gas_pre size f → touched q f f1 → coldCost <= f_Gas f →
  (∀ f2, gas_pre size f2 → f_stack f2 = f_stack f → wp (calc size) (calc_post q v size f2) f2) →
  wp (gas ← calc size; st_modify (λ f, set_Gas (u64 (f_Gas f + coldCost)) f);; mret (u64 (gas + coldCost)))
     (λ r f', call_post q v size f r f' ∧ evm_effects q (frame_state f1) (frame_state f')) (set_Gas (f_Gas f - coldCost) f1).
Proof.
  intros E150 Hp Ht Hg Hcalc. pose proof (gp_gas _ _ Hp) as Hgas. change coldCost with 2500 in *.
  set (f2 := set_Gas _ f1). assert (Hp2 : gas_pre size f2) by (eapply gas_pre_touched_Gas; [done | done | lia]).
  assert (Hk2 : kept q f f2) by (apply kept_set_Gas; [apply touched_kept; [lia | done] | lia]).
  assert (Hst : f_store f2 = f_store f ∧ f_stack f2 = f_stack f) by (destruct Ht as (s' & -> & _); done).
  destruct Hst as [Hst Hsk]. assert (Hg2 : f_Gas f2 = f_Gas f - 2500) by done. wp_step. eapply wp_mono; [by apply Hcalc |].
  intros [gas | e | m] f3 [[[Hk Hr] Hc] HC]; wp_steps; pose proof (kept_trans _ _ _ _ Hk2 Hk) as Hk3; pose proof (kt_effects _ _ _ Hk);
    [| by split; [split; [split |] |] ..].
  destruct Hr as (H1 & H2 & H3 & H4). destruct (Hc _ eq_refl) as [C1 C2]. specialize (HC _ eq_refl E150).
  rewrite H1, Hg2, !wrap_small by lia. split; [split |].
  - split; [apply kept_set_Gas; [done | lia] |]. cbn. rewrite H4, Hst. split_and!; (done || lia).
  - intros cost [= <-]. cbn. split; [done | lia].
  - done.
Qed.

Lemma wp_UseGas gas Q f :
  (f_Gas f < gas → Q (Ok false) f) → (gas <= f_Gas f → Q (Ok true) (set_Gas (f_Gas f - gas) f)) → wp (UseGas gas) Q f.
Proof. intros H1 H2. unfold wp, UseGas. destruct (Z.ltb_spec (f_Gas f) gas); auto. Qed.

Lemma makeCallVariantGasCallEIP2929_spec q v size f x1 (calc : Z → exec Z) :
  IsEIP150 rules = true → gas_pre size f → f_stack f !! 1%nat = Some x1 → sound (frame_state f) →
  (∀ f2, gas_pre size f2 → f_stack f2 = f_stack f → wp (calc size) (calc_post q v size f2) f2) →
  wp (makeCallVariantGasCallEIP2929 calc size)
     (λ r f', call_post q v size f r f' ∧ accessed (BigToAddress x1) (frame_state f')) f.
Proof.
  intros E150 Hp Hx Hs Hcalc. unfold makeCallVariantGasCallEIP2929. wp_step. eapply wp_Back; [done |]. wp_steps.
  apply wp_get_state. wp_steps. unfold AddressInAccessList. case_bool_decide as Ha; cbn [negb].
  - wp_steps. cbn [negb]. wp_step. eapply wp_mono; [by apply Hcalc |]. intros r f' [Hr _].
    assert (accessed (BigToAddress x1) (frame_state f'))
      by (eapply evm_effects_accessed; [apply (kt_effects _ _ _ (proj1 (proj1 Hr))) | done | done]).
    destruct r; wp_steps; by split.
  - wp_step. eapply wp_mono; [by apply (AddAddress_spec q) |]. intros r f1 (-> & Ht & Ha1). wp_steps.
    assert (f_Gas f1 = f_Gas f) as Eg by (by destruct Ht as (s' & -> & _)).
    apply wp_UseGas; rewrite Eg; intros Hg; wp_steps; cbn [negb].
    + wp_steps. split; [| done]. split; [| done]. apply gas_post_fails; [apply Hp | done].
    + eapply wp_mono; [by eapply cold_spec |]. intros r f' [Hr He]. split; [done |].
      eapply evm_effects_accessed; [exact He | | done]. destruct Ht as (s' & -> & He'). by eapply effects_sound.
Qed.

Lemma makeCallVariantGasCallEIP2929Mantle_spec q v size f (calc : Z → exec Z) :
  IsEIP150 rules = true → gas_pre size f →
  (∀ f2, gas_pre size f2 → f_stack f2 = f_stack f → wp (calc size) (calc_post q v size f2) f2) →
  wp (makeCallVariantGasCallEIP2929Mantle calc size) (call_post q v size f) f.
Proof.
  intros E150 Hp Hcalc. unfold makeCallVariantGasCallEIP2929Mantle. wp_step. apply wp_UseGas; intros Hg; wp_steps; cbn [negb].
  - wp_steps. by apply call_post_fails.
  - eapply wp_mono; [by eapply cold_spec |]. by intros r f' [].
Qed.

(** *** Self-destruction *)

Lemma gasSelfdestruct_spec f x :
  gas_pre 0 f → f_stack f !! 0%nat = Some x → wp (gasSelfdestruct Keccak256 rules c 0) (gas_post false 0 0 f) f.
Proof.
  intros Hp Hx. unfold gasSelfdestruct. wp_step. apply wp_get_state. wp_steps. destruct (IsEIP150 rules); wp_steps.
  - eapply wp_Back; [done |]. wp_steps. apply refund_then; [done | by destruct (if IsEIP158 rules then _ else _) | apply suicide_refund_spec].
  - apply refund_then; [done | done | apply suicide_refund_spec].
Qed.

Lemma makeSelfdestructGasFn_spec enabled f x :
  gas_pre 0 f → f_stack f !! 0%nat = Some x → wp (makeSelfdestructGasFn Keccak256 c enabled 0) (gas_post false 0 0 f) f.
Proof.
  intros Hp Hx. unfold makeSelfdestructGasFn. wp_step. eapply wp_peek; [done |]. wp_steps. apply wp_get_state. wp_steps.
  assert (Hend : ∀ gas f1, 0 <= gas → touched false f f1 →
    wp (s ← get_state;
        (if enabled then suicide_refund c else mret tt);;
        mret (if new_beneficiary Keccak256 c (BigToAddress x) s then gas + CreateBySelfdestructGas else gas))
      (gas_post false 0 0 f) f1).
  { intros gas f1 Hg Ht. eapply wp_mono; [| intros ? ?; by apply gas_post_from]. wp_step. apply wp_get_state. wp_steps.
    pose proof (gas_pre_touched _ _ _ _ Hp Ht). apply refund_then; [done | destruct (new_beneficiary _ _ _ _); lia |].
    destruct enabled; [apply suicide_refund_spec | apply no_refund]. }
  destruct (negb _); wp_steps; [| by apply Hend].
  eapply wp_mono; [by apply (AddAddress_spec false) |]. intros r f1 (-> & Ht & _). wp_steps. by apply Hend.
Qed.

Lemma makeSelfdestructGasFnMantle_spec enabled f x :
  gas_pre 0 f → f_stack f !! 0%nat = Some x → wp (makeSelfdestructGasFnMantle Keccak256 c enabled 0) (gas_post false 0 0 f) f.
Proof.
  intros Hp Hx. unfold makeSelfdestructGasFnMantle. wp_step. eapply wp_peek; [done |]. wp_steps. apply wp_get_state. wp_steps.
  apply refund_then; [done | by destruct (new_beneficiary _ _ _ _) |]. destruct enabled; [apply suicide_refund_spec | apply no_refund].
Qed.

(** ** All gas functions *)

(** The [n]th item from the top. *)
Definition item (n : nat) (f : Frame) : Z := default 0 (f_stack f !! n).

Lemma item_lookup n f : (n < length (f_stack f))%nat → f_stack f !! n = Some (item n f).
Proof. intros Hn. unfold item. destruct (lookup_lt_is_Some_2 _ _ Hn) as [x ->]. done. Qed.

(** How many items a function looks at. *)
Definition gas_items (g : gasFunc) : nat :=
  match g with
  | GasCallDataCopy | GasCodeCopy | GasReturnDataCopy | GasCreate2 => 3
  | GasExtCodeCopy | GasExtCodeCopyEIP2929 | GasExtCodeCopyEIP2929Mantle => 4
  | GasLog _ | GasSha3 | GasExpFrontier | GasExpEIP158 => 2
  | GasSStore | GasSStoreEIP2200 | GasSStoreEIP2929 | GasSStoreEIP3529 => 2
  | GasSLoadEIP2929 | GasEip2929AccountCheck => 1
  | GasCall | GasCallCode | GasCallEIP2929 | GasCallCodeEIP2929 | GasCallEIP2929Mantle | GasCallCodeEIP2929Mantle => 3
  | GasDelegateCall | GasStaticCall | GasDelegateCallEIP2929Mantle | GasStaticCallEIP2929Mantle => 1
  | GasDelegateCallEIP2929 | GasStaticCallEIP2929 => 2
  | GasSelfdestruct | GasSelfdestructEIP2929 | GasSelfdestructEIP3529 | GasSelfdestructEIP2929Mantle => 1
  | _ => 0
  end.

(** The least that it charges. *)
Definition minimum (g : gasFunc) : Z :=
  match g with
  | GasLog _ => 375
  | GasExpFrontier | GasExpEIP158 => 10
  | GasSStore => 200
  | GasSStoreEIP2200 => 800
  | GasSStoreEIP2929 | GasSStoreEIP3529 | GasSLoadEIP2929 => 100
  | GasSLoadEIP2929Mantle => 2100
  | _ => 0
  end.

(** Whether it changes the refund counter. *)
Definition refunding (g : gasFunc) : bool :=
  match g with
  | GasSStore | GasSStoreEIP2200 | GasSStoreEIP2929 | GasSStoreEIP3529 | GasSelfdestruct | GasSelfdestructEIP2929
  | GasSelfdestructEIP3529 | GasSelfdestructEIP2929Mantle => true
  | _ => false
  end.

(** Whether it needs the contract in the access list. *)
Definition accessing (g : gasFunc) : bool :=
  match g with GasSStoreEIP2929 | GasSStoreEIP3529 => true | _ => false end.

(** Whether it puts the callee into the access list. *)
Definition warming (g : gasFunc) : bool :=
  match g with
  | GasCallEIP2929 | GasCallCodeEIP2929 | GasDelegateCallEIP2929 | GasStaticCallEIP2929 => true
  | _ => false
  end.

Definition with_value (g : gasFunc) : bool :=
  match g with
  | GasCall | GasCallCode | GasCallEIP2929 | GasCallCodeEIP2929 | GasCallEIP2929Mantle | GasCallCodeEIP2929Mantle => true
  | _ => false
  end.

(** Whether it sets the gas of a call. *)
Definition calling (g : gasFunc) : bool :=
  with_value g || warming g ||
  match g with
  | GasDelegateCall | GasStaticCall | GasDelegateCallEIP2929Mantle | GasStaticCallEIP2929Mantle => true
  | _ => false
  end.

(** Whether it is a version of EIP-2929, later than EIP-150. *)
Definition cold (g : gasFunc) : bool :=
  match g with
  | GasCall | GasCallCode | GasDelegateCall | GasStaticCall => false
  | _ => calling g
  end.

(** Whether it charges for memory. *)
Definition charging (g : gasFunc) : bool :=
  calling g ||
  match g with
  | GasCallDataCopy | GasCodeCopy | GasReturnDataCopy | GasExtCodeCopy | GasExtCodeCopyEIP2929
  | GasExtCodeCopyEIP2929Mantle | GasLog _ | GasSha3 | GasCreate2 | GasReturn | GasRevert | GasMLoad | GasMStore8
  | GasMStore | GasCreate => true
  | _ => false
  end.

Definition call_value (g : gasFunc) (f : Frame) : Z := if with_value g then item 2 f else 0.

(** What [g] promises. *)
Definition dynamic_post (q : bool) (g : gasFunc) (size : Z) (f : Frame) (r : outcome Z) (f' : Frame) : Prop :=
  gas_post q (minimum g) size f r f' ∧
  (calling g = true → call_post q (call_value g f) size f r f') ∧
  (warming g = true → accessed (BigToAddress (item 1 f)) (frame_state f')).

Lemma dynamic_of_gas q g size f m :
  calling g = false → warming g = false → wp m (gas_post q (minimum g) size f) f → wp m (dynamic_post q g size f) f.
Proof. intros H1 H2 Hm. eapply wp_mono; [done |]. intros r f' Hr. split; [done |]. rewrite H1, H2. by split. Qed.

Lemma dynamic_of_call q g size f m :
  minimum g = 0 → warming g = false → wp m (call_post q (call_value g f) size f) f → wp m (dynamic_post q g size f) f.
Proof.
  intros H1 H2 Hm. eapply wp_mono; [done |]. intros r f' Hr. unfold dynamic_post. rewrite H1, H2. split; [apply Hr | by split].
Qed.

Lemma dynamic_of_warm q g size f m :
  minimum g = 0 →
  wp m (λ r f', call_post q (call_value g f) size f r f' ∧ accessed (BigToAddress (item 1 f)) (frame_state f')) f →
  wp m (dynamic_post q g size f) f.
Proof. intros H1 Hm. eapply wp_mono; [done |]. intros r f' [Hr Ha]. unfold dynamic_post. rewrite H1. split; [apply Hr | by split]. Qed.

(** The specification of a calculator, with the items of the stack. *)
Ltac calculator Hi :=
  first [ eapply gasCall_spec; [done | apply Hi; lia | apply Hi; lia | apply Hi; lia]
        | eapply gasCallCode_spec; [done | apply Hi; lia | apply Hi; lia]
        | eapply gasDelegateCall_spec; [done | apply Hi; lia] ].

Lemma dynamicGas_spec q g size f :
  gas_pre size f → (charging g = false → size = 0) → (gas_items g <= length (f_stack f))%nat →
  (refunding g = true → q = false) → (cold g = true → IsEIP150 rules = true) → sound (frame_state f) →
  (accessing g = true → accessed (c_self c) (frame_state f)) →
  wp (dynamicGas_of Keccak256 rules c g size) (dynamic_post q g size f) f.
Proof.
  intros Hp Hsize Hitems Hq Hcold Hs Ha.
  assert (Hi : ∀ n, (n < gas_items g)%nat → f_stack f !! n = Some (item n f)) by (intros n Hn; apply item_lookup; lia).
  assert (Hi2 : ∀ f2, f_stack f2 = f_stack f → ∀ n, (n < gas_items g)%nat → f_stack f2 !! n = Some (item n f))
    by (intros f2 ->; done).
  destruct g; cbn [dynamicGas_of gas_items charging refunding cold calling with_value warming orb accessing] in *;
    try (specialize (Hsize eq_refl); subst size); try (specialize (Hq eq_refl); subst q); try specialize (Hcold eq_refl);
    try specialize (Ha eq_refl);
    first [apply dynamic_of_gas; [reflexivity | reflexivity |] | apply dynamic_of_call; [reflexivity | reflexivity |] | idtac].
  all: cbn [minimum call_value with_value]; unfold call_value; cbn [with_value].
  all: try first
    [ eapply memory_and_words_spec; [done | apply Hi; lia]
    | eapply makeGasLog_spec; [done | apply Hi; lia]
    | by apply pureMemoryGascost_spec
    | eapply gas_exp_spec; [done | apply Hi; lia]
    | eapply gasSStore_spec; [done | apply Hi; lia | apply Hi; lia]
    | eapply gasSStoreEIP2200_spec; [done | apply Hi; lia | apply Hi; lia]
    | eapply makeGasSStoreFunc_spec; [done | apply Hi; lia | apply Hi; lia | done | done]
    | eapply gasSLoadEIP2929_spec; [done | apply Hi; lia | done]
    | eapply gasExtCodeCopyEIP2929_spec; [done | apply Hi; lia | apply Hi; lia]
    | eapply gasExtCodeCopyEIP2929Mantle_spec; [done | apply Hi; lia]
    | eapply gasEip2929AccountCheck_spec; [done | apply Hi; lia]
    | eapply gasSelfdestruct_spec; [done | apply Hi; lia]
    | eapply makeSelfdestructGasFn_spec; [done | apply Hi; lia]
    | eapply makeSelfdestructGasFnMantle_spec; [done | apply Hi; lia]
    | by apply gas_post_touched ].
  all: try (eapply wp_mono; [calculator Hi | by intros ? ? []]).
  all: try (apply makeCallVariantGasCallEIP2929Mantle_spec; [done | done |]; intros f2 Hp2 E2; specialize (Hi2 _ E2); calculator Hi2).
  all: apply dynamic_of_warm; [reflexivity | unfold call_value; cbn [with_value]].
  all: (apply makeCallVariantGasCallEIP2929_spec; [done | done | apply Hi; lia | done |];
    intros f2 Hp2 E2; specialize (Hi2 _ E2); calculator Hi2).
Qed.

End GasFacts.
