(* ===== verification/EvmSafety.v ===== *)
(** The instructions of EvmInstructions.v on frames that fit them: when the
    stack has the operands and the memory the areas that an instruction asks
    for, it does not panic, every word stays below 2^256, the memory keeps its
    size, and what it does to the state are effects of EvmEffects.v. *)

From S2P Require Import Prelude Rlp TxMeta Transaction BigFloat Fees StateDB StateDBFacts StateBalances EvmEffects.
From S2P Require Import EvmCommon EvmCalls EvmAnalysis EvmGas EvmInstructions EvmWords EvmGasFacts.

(** ** Memory *)

Abbreviation max_memory := 0x1FFFFFFFE0 (only parsing).

(** Contracts are run with less gas than this. *)
Abbreviation max_gas := (2 ^ 62) (only parsing).

(** An area with an offset and a length that is empty or inside the memory. *)
Definition fits (store : list byte) (area : Z * Z) : Prop :=
  area.2 = 0 ∨ 0 <= area.1 ∧ 0 < area.2 ∧ area.1 + area.2 <= len store.

Lemma big_Uint64_small z : 0 <= z < 2 ^ 64 → big_Uint64 z = z.
Proof. intros. unfold big_Uint64. rewrite Z.abs_eq, wrap_small; lia. Qed.

Lemma big_Int64_small z : 0 <= z < 2 ^ 63 → big_Int64 z = z.
Proof.
  intros. unfold big_Int64. rewrite big_Uint64_small by lia. destruct (Z.ltb_spec z 0); [lia |]. by apply to_int64_small.
Qed.

Lemma slice_len {A} (l : list A) a b : 0 <= a <= b → b <= len l → ∃ d, slice l a b = Ok d ∧ len d = b - a.
Proof.
  intros Hab Hb. unfold slice. rewrite !(proj2 (Z.leb_le _ _)) by lia. eexists. split; [done |].
  unfold len in *. rewrite length_take, length_drop. lia.
Qed.

Lemma mem_Get_spec off l Q f :
  fits (f_store f) (off, l) → len (f_store f) <= max_memory → (∀ d, len d = l → Q (Ok d) f) →
  wp (mem_GetPtr (big_Int64 off) (big_Int64 l)) Q f.
Proof.
  intros Hf Hm HQ. unfold mem_GetPtr, mem_Get. destruct Hf as [Hl | (H0 & H1 & H2)]; cbn in *.
  - subst. change (big_Int64 0 =? 0) with true. wp_steps. by apply HQ.
  - rewrite !big_Int64_small by lia. destruct (Z.eqb_spec l 0); [lia |]. wp_steps. destruct (Z.ltb_spec off (len (f_store f))); [| lia].
    rewrite to_int64_small by lia. destruct (slice_len (f_store f) off (off + l)) as (d & -> & Hd); [lia | lia |].
    wp_steps. apply HQ. lia.
Qed.

Lemma len_copy_into l a b (src : list byte) : 0 <= a <= b → b <= len l → len (copy_into l a b src) = len l.
Proof.
  intros Hab Hb. unfold copy_into, splice, len in *. rewrite !length_app, length_take, length_drop, length_take. lia.
Qed.

Lemma mem_Set_spec off l v Q f :
  fits (f_store f) (off, l) → len (f_store f) <= max_memory →
  (∀ store, len store = len (f_store f) → Q (Ok tt) (set_store store f)) →
  wp (mem_Set (big_Uint64 off) (big_Uint64 l) v) Q f.
Proof.
  intros Hf Hm HQ. unfold mem_Set. destruct Hf as [Hl | (H0 & H1 & H2)]; cbn in *.
  - subst. change (0 <? big_Uint64 0) with false. wp_steps. assert (f = set_store (f_store f) f) as -> by (by destruct f). by apply HQ.
  - rewrite !big_Uint64_small by lia. destruct (Z.ltb_spec 0 l); [| lia]. wp_steps. rewrite wrap_small by lia.
    destruct (Z.ltb_spec (len (f_store f)) (off + l)); [lia |]. destruct (slice_len (f_store f) off (off + l)) as (d & -> & _); [lia | lia |].
    wp_steps. apply HQ. apply len_copy_into; lia.
Qed.

Lemma mem_Set32_spec off v Q f :
  fits (f_store f) (off, 32) → len (f_store f) <= max_memory →
  (∀ store, len store = len (f_store f) → Q (Ok tt) (set_store store f)) → wp (mem_Set32 (big_Uint64 off) v) Q f.
Proof.
  intros [Hl | (H0 & H1 & H2)] Hm HQ; [done |]. cbn in *. unfold mem_Set32. wp_steps. rewrite big_Uint64_small, wrap_small by lia.
  destruct (Z.ltb_spec (len (f_store f)) (off + 32)); [lia |]. destruct (slice_len (f_store f) off (off + 32)) as (d & -> & _); [lia | lia |].
  wp_steps. apply HQ. apply len_copy_into; lia.
Qed.

Lemma len_RightPadBytes b l : len b <= l → len (RightPadBytes b l) = l.
Proof.
  intros Hb. unfold RightPadBytes. destruct (Z.leb_spec l (len b)); [lia |]. rewrite len_app. unfold len in *.
  rewrite length_replicate. lia.
Qed.

Lemma getDataBig_spec d start size :
  small d → 0 <= start → 0 <= size < 2 ^ 62 → ∃ b, getDataBig d start size = Ok b ∧ len b = size.
Proof.
  intros Hd Hs Hz. unfold small in Hd. pose proof (len_nonneg d). unfold getDataBig. rewrite !big_Uint64_small by lia.
  destruct (slice_len d (Z.min start (len d)) (Z.min (Z.min start (len d) + size) (len d))) as (b & -> & Hb); [lia | lia |].
  cbn. eexists. split; [done |]. rewrite to_int64_small by lia. apply len_RightPadBytes. lia.
Qed.

(** A memory size that does not overflow gives an area that fits. *)
Lemma calcMemSize64WithUint_fits off l size store :
  0 <= l < 2 ^ 64 → calcMemSize64WithUint off l = (size, false) → size <= len store → fits store (off, l).
Proof.
  intros Hl. unfold calcMemSize64WithUint, fits. destruct (Z.eqb_spec l 0); [by left |].
  unfold IsUint64. destruct (Z.leb_spec 0 off); [| done]. destruct (Z.ltb_spec off (2 ^ 64)); [| done]. cbn [andb negb].
  rewrite big_Uint64_small by lia. intros [= <- E] Hs. apply Z.ltb_ge in E. right. cbn. split; [done |]. split; [lia |].
  unfold wrap in *. destruct (Z.lt_ge_cases (off + l) (2 ^ 64)); [rewrite Z.mod_small in Hs; lia |].
  assert ((off + l) mod 2 ^ 64 = off + l - 2 ^ 64) by (symmetry; apply (Z.mod_unique _ _ 1); lia). lia.
Qed.

Lemma calcMemSize64_fits off l size store :
  calcMemSize64 off l = (size, false) → size <= len store → fits store (off, l).
Proof.
  unfold calcMemSize64. unfold IsUint64. destruct (Z.leb_spec 0 l); [| done]. destruct (Z.ltb_spec l (2 ^ 64)); [| done].
  cbn [andb negb]. rewrite big_Uint64_small by lia. apply calcMemSize64WithUint_fits. lia.
Qed.

Lemma calcMemSize64_range off l size : calcMemSize64 off l = (size, false) → 0 <= size < 2 ^ 64.
Proof.
  unfold calcMemSize64, calcMemSize64WithUint. destruct (negb _); [done |]. destruct (_ =? 0); [intros [= <-]; lia |].
  destruct (negb _); [done |]. intros [= <- _]. apply wrap_range. lia.
Qed.

(** ** What instructions need *)

(** The items that an instruction takes from the stack and puts there. *)
Definition pops (op : executionFunc) : nat :=
  match op with
  | OpAdd | OpSub | OpMul | OpDiv | OpSdiv | OpMod | OpSmod | OpExp | OpSignExtend | OpLt | OpGt | OpSlt | OpSgt | OpEq
  | OpAnd | OpOr | OpXor | OpByte | OpSHL | OpSHR | OpSAR | OpSha3 | OpMstore | OpMstore8 | OpSstore | OpJumpi
  | OpReturn | OpRevert => 2
  | OpAddmod | OpMulmod | OpCallDataCopy | OpReturnDataCopy | OpCodeCopy | OpCreate => 3
  | OpNot | OpIszero | OpBalance | OpCallDataLoad | OpExtCodeSize | OpExtCodeHash | OpBlockhash | OpPop | OpMload
  | OpSload | OpJump | OpSuicide => 1
  | OpExtCodeCopy | OpCreate2 => 4
  | OpCall | OpCallCode => 7
  | OpDelegateCall | OpStaticCall => 6
  | MakeDup n => n
  | MakeSwap n => S n
  | MakeLog n => 2 + n
  | _ => 0
  end.

Definition pushes (op : executionFunc) : nat :=
  match op with
  | OpCallDataCopy | OpReturnDataCopy | OpCodeCopy | OpExtCodeCopy | OpPop | OpMstore | OpMstore8 | OpSstore
  | OpJump | OpJumpi | OpJumpdest | OpReturn | OpRevert | OpStop | OpSuicide | MakeLog _ => 0
  | MakeDup n | MakeSwap n => S n
  | _ => 1
  end.

(** The areas of memory that it reads and writes. *)
Definition areas (op : executionFunc) (f : Frame) : list (Z * Z) :=
  match op with
  | OpSha3 | OpReturn | OpRevert | MakeLog _ => [(item 0 f, item 1 f)]
  | OpCallDataCopy | OpReturnDataCopy | OpCodeCopy => [(item 0 f, item 2 f)]
  | OpExtCodeCopy => [(item 1 f, item 3 f)]
  | OpMload | OpMstore => [(item 0 f, 32)]
  | OpMstore8 => [(item 0 f, 1)]
  | OpCreate | OpCreate2 => [(item 1 f, item 2 f)]
  | OpCall | OpCallCode => [(item 3 f, item 4 f); (item 5 f, item 6 f)]
  | OpDelegateCall | OpStaticCall => [(item 2 f, item 3 f); (item 4 f, item 5 f)]
  | _ => []
  end.

(** Whether it changes the state. *)
Definition modifying (op : executionFunc) : bool :=
  match op with OpSstore | OpCreate | OpCreate2 | OpSuicide | MakeLog _ => true | _ => false end.

(** Whether it runs other contracts. *)
Definition spawning (op : executionFunc) : bool :=
  match op with OpCreate | OpCreate2 | OpCall | OpCallCode | OpDelegateCall | OpStaticCall => true | _ => false end.

Definition spawn_value (op : executionFunc) (f : Frame) : Z :=
  match op with OpCall | OpCallCode => item 2 f | _ => 0 end.

(** The gas that a call brings into the frame when it gives all of it back. *)
Definition extra (op : executionFunc) (f : Frame) : Z :=
  match op with
  | OpCall | OpCallCode => callGasTemp (f_evm f) + (if item 2 f =? 0 then 0 else CallStipend)
  | OpDelegateCall | OpStaticCall => callGasTemp (f_evm f)
  | _ => 0
  end.

Definition well_shaped (op : executionFunc) : bool :=
  match op with
  | MakeDup n => (0 <? n)%nat
  | MakePush size n => (0 <=? size) && (0 <=? n) && (n <=? 32)
  | _ => true
  end.

Section Safety.
  Context (Keccak256 : list byte → list byte) (ContractCode : list byte → list byte).
  Context (rules : Rules) (ctx : BlockContext) (precompiles : list address).
  Context (run : Contract → list byte → bool → EVM → outcome result).

Abbreviation evm_effects := (evm_effects Keccak256 ContractCode).
Abbreviation sound := (sound Keccak256 ContractCode).
Abbreviation wide := (wide Keccak256 ContractCode).
Abbreviation accessed a s := (a ∈ dom (al_addresses (access s))).

(** What is documented of the hash and of a block. *)
Record environment : Prop := {
  en_keccak : ∀ d, length (Keccak256 d) = 32%nat;
  en_hash : ∀ n, (length (GetHash ctx n) <= 32)%nat;
  en_origin : (length (Origin ctx) <= 32)%nat;
  en_coinbase : (length (Coinbase ctx) <= 32)%nat;
  en_price : word (GasPrice ctx);
  en_chain : word (ChainID ctx);
}.

Record contract_ok (c : Contract) : Prop := {
  co_self : (length (c_self c) <= 32)%nat;
  co_caller : (length (CallerAddress c) <= 32)%nat;
  co_value : word (c_value c);
  co_code : small (c_Code c);
}.

(** A machine on which contracts can run. *)
Record evm_ok (e : EVM) : Prop := {
  eo_sound : sound (evm_StateDB e);
  eo_wide : wide (evm_StateDB e);
  eo_return : small (returnData e);
}.

(** Whether only quiet operations are allowed. *)
Definition quiet (ro : bool) : bool := ro && IsByzantium rules.

(** A machine that a contract has left. *)
Record left_behind (q : bool) (e e' : EVM) : Prop := {
  lb_depth : depth e' = depth e;
  lb_readOnly : readOnly e' = readOnly e;
  lb_return : small (returnData e');
  lb_effects : evm_effects q (evm_StateDB e) (evm_StateDB e');
}.

Definition result_post (gas : Z) (q : bool) (e : EVM) (r : outcome result) : Prop :=
  match r with
  | Ok (ret, g, err, e') => 0 <= g <= gas ∧ small ret ∧ left_behind q e e'
  | Err _ => False
  | Panic m => m = refund_panic
  end.

(** [run] is safe for contracts with less gas than [bound]. *)
Definition run_safe (bound : Z) : Prop :=
  ∀ c input ro e,
    contract_ok c → small input → evm_ok e → 0 <= c_Gas c < bound → c_Gas c < max_gas →
    (IsBerlin rules = true → accessed (c_self c) (evm_StateDB e)) →
    result_post (c_Gas c) (quiet (ro || readOnly e)) e (run c input ro e).

(** What an instruction does to a frame. *)
Record stepped (q : bool) (op : executionFunc) (f f' : Frame) : Prop := {
  sp_words : Forall word (f_stack f');
  sp_store : len (f_store f') = len (f_store f);
  sp_price : lastGasCost f' = lastGasCost f;
  sp_gas : 0 <= f_Gas f' <= f_Gas f + extra op f;
  sp_pc : 0 <= pc f' < 2 ^ 64;
  sp_left : left_behind q (f_evm f) (f_evm f');
}.

Definition exec_post (q : bool) (op : executionFunc) (f : Frame) (r : outcome (list byte)) (f' : Frame) : Prop :=
  match r with
  | Ok res => stepped q op f f' ∧ small res ∧ (length (f_stack f') + pops op = length (f_stack f) + pushes op)%nat
  | Err _ => stepped q op f f'
  | Panic m => m = refund_panic
  end.

Record exec_pre (c : Contract) (op : executionFunc) (f : Frame) : Prop := {
  ep_words : Forall word (f_stack f);
  ep_items : (pops op <= length (f_stack f))%nat;
  ep_areas : Forall (fits (f_store f)) (areas op f);
  ep_memory : len (f_store f) <= max_memory;
  ep_gas : 0 <= f_Gas f;
  ep_temp : 0 <= extra op f ∧ f_Gas f + extra op f < max_gas;
  ep_pc : 0 <= pc f < 2 ^ 64;
  ep_code : op ≠ OpStop → pc f < len (c_Code c);
  ep_evm : evm_ok (f_evm f);
}.

(** ** Nested calls *)

Section Nested.
  Context (env : environment) (bound : Z) (Hrun : run_safe bound).

Lemma evm_effects_loud q s s' : evm_effects q s s' → evm_effects false s s'.
Proof. apply effects_mono. intros o t. apply evm_op_loud. Qed.

Lemma quiet_outer ro r s s' : evm_effects (quiet (ro || r)) s s' → evm_effects (quiet r) s s'.
Proof. unfold quiet. destruct r; [by rewrite orb_true_r |]. apply evm_effects_loud. Qed.

Lemma Snapshot_ok e : evm_ok e → evm_ok (set_StateDB (Snapshot (evm_StateDB e)).2 e).
Proof.
  intros [Hs Hw Hr]. split; [by apply Snapshot_sound | | done]. eapply wide_equiv; [apply with_revisions_equiv | done].
Qed.

Lemma effects_ok q e s : evm_ok e → evm_effects q (evm_StateDB e) s → evm_ok (set_StateDB s e).
Proof.
  intros [Hs Hw Hr] He. split; [by eapply effects_sound | | done]. eapply evm_effects_wide; [apply env | done | done | done].
Qed.

#[local] Notation "s ≈ t" := (state_equiv Keccak256 ContractCode s t) (at level 70).

(** What a call gives: a failing one leaves an equivalent state. *)
Definition callee_post (gas : Z) (q : bool) (e : EVM) (r : outcome result) : Prop :=
  result_post gas q e r ∧
  ∀ ret g err e', r = Ok (ret, g, Some err, e') → evm_StateDB e' ≈ evm_StateDB e.

(** A contract that runs under a snapshot: its effects are kept, or reverted
    when it fails. *)
Lemma run_reverting_spec q c input ro e s :
  let snap := Snapshot (evm_StateDB e) in
  (∀ t t', evm_effects (quiet (ro || readOnly e)) t t' → evm_effects q t t') →
  evm_ok e → contract_ok c → small input → 0 <= c_Gas c < bound → c_Gas c < max_gas →
  evm_effects q snap.2 s → (IsBerlin rules = true → accessed (c_self c) s) →
  callee_post (c_Gas c) q e (run_reverting run snap.1 c input ro (set_StateDB s e)).
Proof.
  intros snap Hq He Hc Hi Hg Hg' Hs Ha. pose proof (effects_ok _ _ _ (Snapshot_ok _ He) Hs) as Hok.
  pose proof (Hrun c input ro (set_StateDB s e) Hc Hi Hok Hg Hg' Ha) as Hr. unfold run_reverting.
  destruct (run c input ro (set_StateDB s e)) as [[[[ret gas] err] e'] | |]; [| done..].
  destruct Hr as (Hgas & Hret & [H1 H2 H3 H4]). cbn in H1, H2, H4. apply Hq in H4.
  pose proof (effects_trans _ _ _ _ _ _ Hs H4) as H5. destruct err as [err |].
  - destruct (effects_revert _ _ _ _ _ (eo_sound _ He) H5) as (s3 & E & Heq). change snap.1 with (Snapshot (evm_StateDB e)).1.
    cbn [mbind outcome_bind]. rewrite E. split; [| by intros ???? [= <- <- <- <-]].
    cbn. split; [unfold gas_after; case_bool_decide; lia |]. split; [done |].
    split; [done | done | done |]. eapply eff_revert; [apply eff_refl | done | done].
  - split; [| done]. cbn. split; [done |]. split; [done |]. split; [done | done | done |]. eapply eff_keep; [apply eff_refl | done].
Qed.

(** A call that does nothing. *)
Lemma result_same gas g err q e : evm_ok e → 0 <= g <= gas → result_post gas q e (Ok ([], g, err, e)).
Proof. intros [_ _ Hr] Hg. split; [done |]. split; [done |]. split; [done | done | done | apply eff_refl]. Qed.

Lemma result_snapshot gas g q e :
  evm_ok e → 0 <= g <= gas → result_post gas q e (Ok ([], g, None, set_StateDB (Snapshot (evm_StateDB e)).2 e)).
Proof.
  intros [_ _ Hr] Hg. split; [done |]. split; [done |]. split; [done | done | done |]. eapply eff_keep; apply eff_refl.
Qed.

Lemma call_same gas g err q e : evm_ok e → 0 <= g <= gas → callee_post gas q e (Ok ([], g, err, e)).
Proof. intros He Hg. split; [by apply result_same |]. by intros ???? [= <- <- -> <-]. Qed.

(** What a call is made with. *)
Record call_ok (caller addr : address) (input : list byte) (gas : Z) (e : EVM) : Prop := {
  ca_caller : (length caller <= 32)%nat;
  ca_addr : (length addr <= 32)%nat;
  ca_input : small input;
  ca_gas : 0 <= gas < bound;
  ca_width : gas < max_gas;
  ca_evm : evm_ok e;
}.

Lemma snapshot_code e addr : evm_ok e → small (GetCode Keccak256 ContractCode addr (Snapshot (evm_StateDB e)).2).
Proof. intros He. apply (GetCode_small Keccak256 ContractCode). apply (Snapshot_ok _ He). Qed.

Lemma effects_accessed q a e s :
  evm_ok e → accessed a (evm_StateDB e) → evm_effects q (Snapshot (evm_StateDB e)).2 s → accessed a s.
Proof. intros He Ha Hq. eapply evm_effects_accessed; [exact Hq | apply (Snapshot_ok _ He) | done]. Qed.

(** The state in which a callee runs: an account that was not there is made,
    and the value is transferred. *)
Lemma transfer_effects q caller addr value s :
  (q = true → value = 0) →
  evm_effects q s (Transfer Keccak256 caller addr value (if Exist addr s then s else CreateAccount Keccak256 addr s)).
Proof.
  intros Hv. eapply (eff_do _ _ _ _ _ (OAddBalance addr value)); [| done | done].
  eapply (eff_do _ _ _ _ _ (OSubBalance caller value)); [| done | done].
  destruct (Exist addr s) eqn:E; [apply eff_refl |].
  apply (effects_one _ _ _ (OCreateAccount addr)); [by intros _ | done].
Qed.

(** The returns of a call before its snapshot. *)
Ltac early_returns :=
  repeat (lazymatch goal with |- callee_post _ _ _ (if ?b then Ok _ else _) => destruct b end; [apply call_same; (done || lia) |]).

Ltac take_snapshot e :=
  change (Snapshot (evm_StateDB e)) with ((Snapshot (evm_StateDB e)).1, (Snapshot (evm_StateDB e)).2); cbv beta iota zeta.

Lemma evm_Call_spec caller addr input gas value e noRecursion :
  call_ok caller addr input gas e → word value → (quiet (readOnly e) = true → value = 0) →
  (IsBerlin rules = true → accessed addr (evm_StateDB e)) →
  callee_post gas (quiet (readOnly e)) e
    (evm_Call Keccak256 ContractCode run rules precompiles noRecursion caller addr input gas value e).
Proof.
  intros [Hcl Had Hin Hg Hg' He] Hval Hq Ha. unfold evm_Call.
  early_returns. take_snapshot e. set (snap := Snapshot (evm_StateDB e)). destruct (_ && (value =? 0)); [by split; [apply result_snapshot; [| lia] |] |].
  pose proof (transfer_effects (quiet (readOnly e)) caller addr value snap.2 Hq) as Ht.
  set (s := Transfer _ _ _ _ _) in *. apply (run_reverting_spec _ (NewContract caller addr value gas addr _)); try done.
  - split; [done | done | done |]. cbn. apply (GetCode_small Keccak256 ContractCode).
    apply (effects_ok _ _ _ (Snapshot_ok _ He) Ht).
  - intros HB. by eapply effects_accessed; [| apply Ha |].
Qed.

Lemma evm_CallCode_spec caller addr input gas value e noRecursion :
  call_ok caller addr input gas e → word value → (IsBerlin rules = true → accessed caller (evm_StateDB e)) →
  callee_post gas (quiet (readOnly e)) e (evm_CallCode Keccak256 ContractCode run noRecursion caller addr input gas value e).
Proof.
  intros [Hcl Had Hin Hg Hg' He] Hval Ha. unfold evm_CallCode. early_returns. take_snapshot e.
  apply (run_reverting_spec _ (NewContract caller caller value gas addr _)); try done; [| apply eff_refl].
  split; [done | done | done | by apply snapshot_code].
Qed.

Lemma evm_DelegateCall_spec caller addr input gas e noRecursion :
  call_ok (c_self caller) addr input gas e → contract_ok caller →
  (IsBerlin rules = true → accessed (c_self caller) (evm_StateDB e)) →
  callee_post gas (quiet (readOnly e)) e (evm_DelegateCall Keccak256 ContractCode run noRecursion caller addr input gas e).
Proof.
  intros [Hcl Had Hin Hg Hg' He] [] Ha. unfold evm_DelegateCall. early_returns. take_snapshot e.
  apply (run_reverting_spec _ (AsDelegate caller (NewContract _ _ 0 gas addr _))); try done; [| apply eff_refl].
  split; [done | done | done | by apply snapshot_code].
Qed.

Lemma evm_StaticCall_spec caller addr input gas e noRecursion :
  call_ok caller addr input gas e → (IsBerlin rules = true → accessed addr (evm_StateDB e)) →
  callee_post gas (quiet true) e (evm_StaticCall Keccak256 ContractCode run noRecursion caller addr input gas e).
Proof.
  intros [Hcl Had Hin Hg Hg' He] Ha. unfold evm_StaticCall. early_returns. take_snapshot e.
  assert (Ht : evm_effects (quiet true) (Snapshot (evm_StateDB e)).2 (AddBalance Keccak256 addr 0 (Snapshot (evm_StateDB e)).2))
    by by apply (effects_one _ _ _ (OAddBalance addr 0)).
  apply (run_reverting_spec _ (NewContract caller addr 0 gas addr _)); try done.
  - split; [done | done | cbn; unfold word; lia | by apply snapshot_code].
  - intros HB. by eapply effects_accessed; [| apply Ha |].
Qed.

Lemma result_static gas ro e r : result_post gas (quiet true) e r → result_post gas (quiet ro) e r.
Proof.
  destruct r as [[[[ret g] err] e'] | |]; [| done..]. intros (H1 & H2 & [L1 L2 L3 L4]). split; [done |]. split; [done |]. split; try done.
  by apply (quiet_outer true).
Qed.

(** *** Creations *)

Lemma store_code_spec addr ret gas s :
  small ret → 0 <= gas →
  let '(g, _, s') := store_code Keccak256 ContractCode addr ret gas s in 0 <= g <= gas ∧ evm_effects false s s'.
Proof.
  intros Hr Hg. unfold store_code. assert (0 <= u64 (u64 (len ret) * CreateDataGas)) by (apply wrap_range; lia).
  destruct (Z.leb_spec (u64 (u64 (len ret) * CreateDataGas)) gas).
  - split; [lia |]. by apply (effects_one _ _ _ (OSetCode addr ret)).
  - split; [lia | apply eff_refl].
Qed.

Lemma create_finish_spec addr ret gas err s0 s :
  sound s0 → evm_effects false (Snapshot s0).2 s → small ret → 0 <= gas →
  ∃ g err' s', create_finish Keccak256 ContractCode rules addr (Snapshot s0).1 ret gas err s = Ok (ret, g, err', s') ∧
    0 <= g <= gas ∧ evm_effects false s0 s'.
Proof.
  intros Hs0 Hs Hr Hg. unfold create_finish. set (over := IsEIP158 rules && _). clearbody over.
  set (stored := if bool_decide (err = None) && negb over then _ else _).
  assert (Hst : let '(g, _, s') := stored in 0 <= g <= gas ∧ evm_effects false (Snapshot s0).2 s').
  { subst stored. destruct (_ && _); [| cbv beta iota; split; [lia | done]]. pose proof (store_code_spec addr ret gas s Hr Hg) as H.
    destruct (store_code _ _ _ _ _ _) as [[g e] s']. split; [apply H |]. eapply effects_trans; [done | apply H]. }
  destruct stored as [[g err'] s']. destruct Hst as [Hg' Hs']. destruct (over || _).
  - destruct (effects_revert _ _ _ _ _ Hs0 Hs') as (s3 & E & _). cbn [mbind outcome_bind]. rewrite E. cbn. eexists _, _, _. split; [done |].
    split; [destruct err' as [e' |]; [unfold gas_after; case_bool_decide |]; lia |]. by eapply eff_revert; [apply eff_refl | done |].
  - cbn. eexists _, _, _. split; [done |]. split; [done |]. by eapply eff_keep; [apply eff_refl |].
Qed.

Lemma create_state_effects caller addr value s : evm_effects false s (create_state Keccak256 rules caller addr value s).
Proof.
  eapply (eff_do _ _ _ _ _ (OAddBalance addr value)); [| done | done].
  eapply (eff_do _ _ _ _ _ (OSubBalance caller value)); [| done | done].
  assert (evm_effects false s (CreateAccount Keccak256 addr s)) by by apply (effects_one _ _ _ (OCreateAccount addr)).
  destruct (IsEIP158 rules); [| done]. by eapply (eff_do _ _ _ _ _ (OSetNonce addr 1)).
Qed.

(** A creation also returns an address. *)
Definition creation_post (gas : Z) (e : EVM) (r : outcome (result * address)) : Prop :=
  match r with
  | Ok (r, addr) => result_post gas false e (Ok r) ∧ (length addr <= 32)%nat
  | Err _ => False
  | Panic m => m = refund_panic
  end.

Lemma evm_create_spec caller code gas value addr e noRecursion :
  call_ok caller addr code gas e → word value → quiet (readOnly e) = false →
  creation_post gas e (evm_create Keccak256 ContractCode run rules noRecursion caller code gas value addr e).
Proof.
  intros [Hcl Had Hin Hg Hg' He] Hval Hq. unfold evm_create. set (zero := replicate 20 Byte.x00).
  assert (Hz : (length zero <= 32)%nat) by (cbn; lia).
  do 3 (lazymatch goal with |- creation_post _ _ (if ?b then Ok _ else _) => destruct b end; [split; [by apply result_same; [| lia] | done] |]).
  cbv zeta. set (s1 := if IsBerlin rules then _ else _).
  assert (H1 : evm_effects false (evm_StateDB e) s1).
  { assert (evm_effects false (evm_StateDB e) (SetNonce Keccak256 caller (u64 (GetNonce caller (evm_StateDB e) + 1)) (evm_StateDB e)))
      by by eapply (effects_one _ _ _ (OSetNonce _ _)).
    subst s1. destruct (IsBerlin rules); [| done]. by eapply (eff_do _ _ _ _ _ (OAddAddress addr)). }
  assert (Ha : IsBerlin rules = true → accessed addr s1) by (intros HB; subst s1; rewrite HB; apply AddAddress_accessed).
  clearbody s1. destruct (_ || _).
  { split; [| done]. split; [lia |]. split; [done |]. by split; [done | done | apply He |]. }
  pose proof (effects_ok _ _ _ He H1) as He1. change (Snapshot s1) with ((Snapshot s1).1, (Snapshot s1).2). cbv beta iota zeta.
  set (s2 := create_state _ _ _ _ _ _). assert (H2 : evm_effects false (Snapshot s1).2 s2) by apply create_state_effects.
  assert (He2 : evm_ok (set_StateDB s2 e)) by exact (effects_ok _ _ _ (Snapshot_ok _ He1) H2).
  clearbody s2. destruct (_ && _).
  { split; [| done]. split; [lia |]. split; [done |]. split; [done | done | apply He |]. by eapply eff_keep. }
  assert (Hr : result_post gas false (set_StateDB s2 e) (run (NewContract caller addr value gas addr code) [] false (set_StateDB s2 e))).
  { rewrite <- Hq at 1. apply (Hrun (NewContract caller addr value gas addr code)); try done.
    intros HB. exact (effects_accessed _ _ _ _ He1 (Ha HB) H2). }
  destruct (run _ _ _ _) as [[[[ret g] err] e'] | |]; [| done..]. destruct Hr as (Hgr & Hret & [L1 L2 L3 L4]). cbn in L1, L2, L4.
  destruct (create_finish_spec addr ret g err s1 (evm_StateDB e')) as (g' & err' & s3 & E & Hg3 & H3);
    [apply He1 | by eapply effects_trans | done | lia |].
  cbn [mbind outcome_bind]. rewrite E. split; [| done]. split; [lia |]. split; [done |]. split; [done | done | done |].
  by eapply effects_trans.
Qed.

Lemma drop_keccak d : (length (drop 12 (Keccak256 d)) <= 32)%nat.
Proof. rewrite length_drop, (en_keccak env). lia. Qed.

End Nested.

(** ** Words *)

Lemma be_val_word l : (length l <= 32)%nat → word (be_val l).
Proof.
  intros Hl. pose proof (be_val_range l) as H. split; [lia |]. eapply Z.lt_le_trans; [apply H |]. rewrite pow256_2 by lia.
  apply Z.pow_le_mono_r; lia.
Qed.

Lemma len_word l : small l → word (len l).
Proof. unfold small, word. pose proof (len_nonneg l). lia. Qed.

Lemma math_Byte_word x n : word (math_Byte x 32 n).
Proof.
  unfold math_Byte, bigEndianByteAt. destruct (_ <=? _); [apply word_0 |]. destruct (_ !! _); [| apply word_0].
  pose proof (wrap_range 8 (Z.shiftr z (8 * ((32 - 1 - n) mod 8))) ltac:(lia)). unfold word. lia.
Qed.

Lemma Exp_word x y : word x → word y → word (Exp x y).
Proof. intros _ [Hy _]. rewrite Exp_correct by done. apply Z.mod_pos_bound. lia. Qed.

Create HintDb words.
#[local] Hint Resolve U256_word word_0 word_1 b2word_word land_word lor_word lxor_word be_val_word len_word math_Byte_word
  Exp_word : words.

(** ** Instructions of the frame alone *)

Section Instructions.
  Context (c : Contract) (input : list byte) (q : bool).
  Context (env : environment) (Hc : contract_ok c) (Hinput : small input).

Abbreviation execute_of := (execute_of Keccak256 ContractCode run rules precompiles ctx c input).

Lemma local_stepped op f f' :
  exec_pre c op f → Forall word (f_stack f') → len (f_store f') = len (f_store f) → lastGasCost f' = lastGasCost f →
  f_Gas f' = f_Gas f → f_evm f' = f_evm f → 0 <= pc f' < 2 ^ 64 → stepped q op f f'.
Proof.
  intros [_ _ _ _ Hg [Hx _] _ _ [_ _ Hr]] Hw Hs Hl Hg' He Hp. split; try done; [lia |]. rewrite He.
  split; [done | done | done | apply eff_refl].
Qed.

Lemma pc_range op f : exec_pre c op f → 0 <= pc f < 2 ^ 64.
Proof. by intros []. Qed.

Lemma wp_pop x l Q f : f_stack f = x :: l → Q (Ok x) (set_stack l f) → wp pop Q f.
Proof. intros E. unfold wp, pop. by rewrite E. Qed.

(** One step of an instruction whose operands are known. *)
Ltac op_step :=
  lazymatch goal with
  | |- wp pop _ _ => eapply wp_pop; [first [eassumption | reflexivity] |]; wp_steps
  | |- wp (push _) _ _ => unfold push; wp_steps
  | |- wp get_state _ _ => apply wp_get_state; wp_steps
  | |- wp mem_Len _ _ => unfold mem_Len; wp_steps
  | |- wp (if ?b then _ else _) _ _ => let Eb := fresh "Eb" in destruct b eqn:Eb; wp_steps
  end.
Ltac op_steps := wp_steps; repeat op_step.

Lemma split_stack op f :
  exec_pre c op f → ∃ xs l, f_stack f = xs ++ l ∧ length xs = pops op ∧ Forall word xs ∧ Forall word l.
Proof.
  intros [Hw Hi _ _ _ _ _ _ _]. exists (take (pops op) (f_stack f)), (drop (pops op) (f_stack f)).
  rewrite take_drop, length_take. split; [done |]. split; [lia |]. split; [by apply Forall_take | by apply Forall_drop].
Qed.

(** Names the operands of an instruction. *)
Ltac operands Hpre :=
  let xs := fresh "xs" in let l := fresh "l" in let E := fresh "E" in let Hl := fresh "Hl" in
  destruct (split_stack _ _ Hpre) as (xs & l & E & Hl & ? & ?); cbn [pops] in Hl;
  repeat match type of Hl with
  | length ?ys = S _ => destruct ys as [| ? ys]; [discriminate Hl |]; cbn [length] in Hl; apply Nat.succ_inj in Hl
  | length ?ys = O => apply nil_length_inv in Hl; subst ys
  end; cbn [app] in E; decompose_Forall_hyps.

Lemma stack_post op f l :
  exec_pre c op f → Forall word l → (length l + pops op = length (f_stack f) + pushes op)%nat →
  exec_post q op f (Ok []) (set_stack l f).
Proof.
  intros Hpre Hw Hl. split; [| by split]. apply local_stepped; try done. exact (pc_range _ _ Hpre).
Qed.

Lemma set_stack_stack l l' f : set_stack l (set_stack l' f) = set_stack l f.
Proof. done. Qed.

Lemma stack_same op f : exec_pre c op f → pops op = pushes op → exec_post q op f (Ok []) f.
Proof.
  intros Hpre E. assert (f = set_stack (f_stack f) f) as Ef by (by destruct f). rewrite Ef at 2.
  apply stack_post; [done | apply Hpre | by rewrite E].
Qed.

Ltac head_of t := lazymatch t with ?f _ => head_of f | _ => t end.

(** Goes to the body of an instruction. *)
Ltac open_op := lazymatch goal with |- wp ?o _ _ => let h := head_of o in unfold h end.

(** The words of a stack that is known. *)
Ltac stack_words :=
  repeat (apply Forall_cons; split); try done;
  repeat match goal with |- word (if ?b then _ else _) => destruct b end; try done; try (by eauto with words).

(** Only the stack changes. *)
Definition stacking (op : executionFunc) : bool :=
  match op with
  | OpAdd | OpSub | OpMul | OpDiv | OpSdiv | OpMod | OpSmod | OpExp | OpSignExtend | OpAddmod | OpMulmod
  | OpNot | OpLt | OpGt | OpSlt | OpSgt | OpEq | OpIszero | OpAnd | OpOr | OpXor | OpByte | OpSHL | OpSHR | OpSAR
  | OpAddress | OpBalance | OpSelfBalance | OpOrigin | OpCaller | OpCallValue | OpCallDataSize | OpReturnDataSize
  | OpExtCodeSize | OpCodeSize | OpExtCodeHash | OpGasprice | OpBlockhash | OpCoinbase | OpTimestamp | OpNumber
  | OpDifficulty | OpGasLimit | OpChainID | OpL1BlockNumber | OpPop | OpSload | OpJumpdest | OpPc | OpMsize | OpGas
  | OpStop => true
  | _ => false
  end.

Lemma stacking_safe op f : stacking op = true → exec_pre c op f → wp (execute_of op) (exec_post q op f) f.
Proof.
  intros Hop Hpre. pose proof (ep_evm _ _ _ Hpre) as [Hs Hw Hr]. pose proof (pc_range _ _ Hpre).
  assert (word (f_Gas f)) by (destruct Hpre as [_ _ _ _ Hg [Hx Ht] _ _ _]; unfold word; lia).
  assert (word (len (f_store f))) by (pose proof (ep_memory _ _ _ Hpre); pose proof (len_nonneg (f_store f)); unfold word; lia).
  assert (word (pc f)) by (unfold word; lia).
  destruct op; try discriminate Hop; clear Hop; operands Hpre; cbn [EvmInstructions.execute_of]; open_op; op_steps;
    rewrite ?set_stack_stack; try (by apply stack_same);
    (apply stack_post; [done | cbn [f_stack set_stack]; rewrite ?E; stack_words | cbn; rewrite ?E; cbn; lia]).
  all: try apply be_val_word; try apply len_word.
  all: try (by apply env); try (by apply Hc); try (by apply (GetState_word Keccak256 ContractCode)); try (by apply (GetCode_small Keccak256 ContractCode)).
  by apply (GetCodeHash_length Keccak256 ContractCode).
Qed.

(** *** Memory *)

Lemma fits_small store off l : len store <= max_memory → fits store (off, l) → 0 <= l < 2 ^ 62.
Proof. intros Hm [H | (H0 & H1 & H2)]; cbn in *; lia. Qed.

(** The stack, the memory and the program counter change. *)
Lemma frame_post op f f' res :
  exec_pre c op f → Forall word (f_stack f') → len (f_store f') = len (f_store f) → lastGasCost f' = lastGasCost f →
  f_Gas f' = f_Gas f → f_evm f' = f_evm f → 0 <= pc f' < 2 ^ 64 → small res →
  (length (f_stack f') + pops op = length (f_stack f) + pushes op)%nat → exec_post q op f (Ok res) f'.
Proof. intros. split; [by apply local_stepped | done]. Qed.

Lemma frame_post_fails op f f' e :
  exec_pre c op f → Forall word (f_stack f') → len (f_store f') = len (f_store f) → lastGasCost f' = lastGasCost f →
  f_Gas f' = f_Gas f → f_evm f' = f_evm f → 0 <= pc f' < 2 ^ 64 → exec_post q op f (Err e) f'.
Proof. intros. by apply local_stepped. Qed.

(** The state changes besides. *)
Lemma state_post op f f' s' :
  exec_pre c op f → Forall word (f_stack f') → f_store f' = f_store f → lastGasCost f' = lastGasCost f →
  f_Gas f' = f_Gas f → f_evm f' = set_StateDB s' (f_evm f) → evm_effects q (frame_state f) s' → pc f' = pc f →
  (length (f_stack f') + pops op = length (f_stack f) + pushes op)%nat → exec_post q op f (Ok []) f'.
Proof.
  intros Hpre Hw Hs Hl Hg He Hq Hp Hn. split; [| by split]. pose proof (pc_range _ _ Hpre).
  destruct Hpre as [_ _ _ _ Hg0 [Hx _] _ _ [_ _ Hr]]. split; [done | by rewrite Hs | done | lia | by rewrite Hp |]. rewrite He. by split.
Qed.

(** The areas of an instruction whose operands are known. *)
Ltac memory_areas Hpre E :=
  pose proof (ep_areas _ _ _ Hpre) as Hareas; cbn [areas] in Hareas; unfold item in Hareas; rewrite ?E in Hareas;
  cbn [lookup list_lookup default id from_option] in Hareas; decompose_Forall_hyps;
  pose proof (ep_memory _ _ _ Hpre) as Hmem.

Ltac frame_done E := cbn; rewrite ?E; repeat (apply Forall_cons; split); try done; try (cbn; lia).

Lemma copy_data_safe op f d off doff l rest :
  exec_pre c op f → small d → 0 <= doff → fits (f_store f) (off, l) → Forall word rest →
  (length rest + pops op = length (f_stack f) + pushes op)%nat →
  wp (copy_data d off doff l) (exec_post q op f) (set_stack rest f).
Proof.
  intros Hpre Hd H0 Hf Hw Hl. pose proof (ep_memory _ _ _ Hpre) as Hm. pose proof (pc_range _ _ Hpre).
  pose proof (fits_small _ _ _ Hm Hf). unfold copy_data.
  destruct (getDataBig_spec d doff l) as (b & -> & _); [done | done | done |]. wp_steps.
  apply mem_Set_spec; [done | done |]. intros store Hstore. wp_steps. by apply frame_post.
Qed.

Definition copying (op : executionFunc) : bool :=
  match op with OpCallDataCopy | OpCodeCopy | OpExtCodeCopy => true | _ => false end.

Lemma copying_safe op f : copying op = true → exec_pre c op f → wp (execute_of op) (exec_post q op f) f.
Proof.
  intros Hop Hpre. pose proof (ep_evm _ _ _ Hpre) as [Hs Hw Hr].
  destruct op; try discriminate Hop; clear Hop; operands Hpre; memory_areas Hpre E; cbn [EvmInstructions.execute_of]; open_op;
    op_steps; rewrite ?set_stack_stack; apply copy_data_safe; try done; try (by rewrite E; cbn; lia);
    try match goal with H : word ?z |- 0 <= ?z => apply H end.
  - apply Hc.
  - by apply (GetCode_small Keccak256 ContractCode).
Qed.

Lemma ReturnDataCopy_safe f : exec_pre c OpReturnDataCopy f → wp (execute_of OpReturnDataCopy) (exec_post q OpReturnDataCopy f) f.
Proof.
  intros Hpre. pose proof (ep_evm _ _ _ Hpre) as [_ _ Hr]. pose proof (pc_range _ _ Hpre). operands Hpre. memory_areas Hpre E.
  cbn [EvmInstructions.execute_of]. open_op. op_steps.
  - apply frame_post_fails; frame_done E.
  - apply orb_false_iff in Eb as [Eu Eb]. unfold IsUint64, word in *. apply Z.ltb_ge in Eb. cbn [f_evm set_stack] in *.
    assert (z0 + z1 < 2 ^ 64) by (destruct (Z.ltb_spec (z0 + z1) (2 ^ 64)); [done | by rewrite andb_comm in Eu]).
    rewrite (big_Uint64_small (z0 + z1)) in Eb by lia. rewrite (big_Uint64_small z0), (big_Uint64_small (z0 + z1)) by lia.
    destruct (slice_len (returnData (f_evm f)) z0 (z0 + z1)) as (d & -> & _); [lia | done |]. wp_steps.
    apply mem_Set_spec; [done | done |]. intros store Hstore. wp_steps. apply frame_post; frame_done E.
Qed.

Ltac return_area E :=
  apply mem_Get_spec; [done | done |]; intros d Hd; apply frame_post; frame_done E;
  match goal with Hf : fits _ _, Hm : len _ <= _ |- _ => pose proof (fits_small _ _ _ Hm Hf) end; unfold small; lia.

Definition loading (op : executionFunc) : bool :=
  match op with OpCallDataLoad | OpMload | OpMstore | OpMstore8 | OpReturn | OpRevert => true | _ => false end.

Lemma loading_safe op f : loading op = true → exec_pre c op f → wp (execute_of op) (exec_post q op f) f.
Proof.
  intros Hop Hpre. pose proof (pc_range _ _ Hpre).
  destruct op; try discriminate Hop; clear Hop; operands Hpre; memory_areas Hpre E; cbn [EvmInstructions.execute_of]; open_op;
    op_steps; rewrite ?set_stack_stack.
  - destruct (getDataBig_spec input z 32) as (b & -> & Hb); [done | apply H0 | lia |]. op_steps.
    apply frame_post; frame_done E. apply be_val_word. unfold len in Hb. lia.
  - change 32 with (big_Int64 32). apply mem_Get_spec; [done | done |]. intros d Hd. op_steps.
    apply frame_post; frame_done E. apply be_val_word. unfold len in Hd. lia.
  - apply mem_Set32_spec; [done | done |]. intros store Hstore. wp_steps. apply frame_post; frame_done E.
  - apply frame_post; frame_done E. unfold len. by rewrite length_insert.
  - exfalso. match goal with Hf : fits _ (z, 1) |- _ => destruct Hf as [| (? & _ & ?)]; [done |] end. cbn in *.
    rewrite big_Int64_small in Eb by lia. destruct (Z.leb_spec 0 z); [| lia]. by destruct (Z.ltb_spec z (len (f_store f))); [| lia].
  - return_area E.
  - return_area E.
Qed.

(** *** Control *)

Lemma jump_to_safe op f rest pos :
  exec_pre c op f → Forall word rest → word pos → (length rest + pops op = length (f_stack f) + pushes op)%nat →
  wp (jump_to c pos) (exec_post q op f) (set_stack rest f).
Proof.
  intros Hpre Hw Hpos Hl. pose proof (pc_range _ _ Hpre). unfold jump_to.
  destruct (validJumpdest_spec (c_Code c) pos) as (b & -> & _); [apply Hc | apply Hpos |]. wp_steps.
  destruct b; cbn [negb]; wp_steps; [apply frame_post | apply frame_post_fails]; try done. apply wrap_range. lia.
Qed.

Lemma GetByte_word n : word (GetByte c n).
Proof.
  unfold GetByte. destruct (_ <? _); [| apply word_0]. destruct (_ !! _) as [b |]; [| apply word_0].
  pose proof (b2z_range b). unfold word. lia.
Qed.

Lemma makePush_safe size n f :
  well_shaped (MakePush size n) = true → exec_pre c (MakePush size n) f →
  wp (makePush c size n) (exec_post q (MakePush size n) f) f.
Proof.
  intros Hsh Hpre. cbn in Hsh. apply andb_true_iff in Hsh as [Hsh Hn]. apply andb_true_iff in Hsh as [_ H0].
  apply Z.leb_le in Hn, H0. pose proof (ep_pc _ _ _ Hpre) as [Hp _]. pose proof (ep_code _ _ _ Hpre ltac:(done)) as Hcode. pose proof (ep_words _ _ _ Hpre) as Hw.
  pose proof (co_code _ Hc) as Hl. unfold small in Hl. unfold makePush. op_steps. rewrite (wrap_small 64 (pc f + 1)), to_int64_small by lia.
  set (a := if pc f + 1 <? _ then _ else _). set (b := if a + n <? _ then _ else _).
  assert (Hab : 0 <= a <= b ∧ b <= len (c_Code c) ∧ b <= a + n).
  { subst a b. destruct (Z.ltb_spec (pc f + 1) (len (c_Code c))); [destruct (Z.ltb_spec (pc f + 1 + n) (len (c_Code c))) |
      destruct (Z.ltb_spec (len (c_Code c) + n) (len (c_Code c)))]; lia. }
  destruct (slice_len (c_Code c) a b) as (d & -> & Hd); [lia | lia |]. op_steps. apply frame_post; try done; cbn; [| | lia].
  - apply Forall_cons. split; [| done]. apply be_val_word. pose proof (len_RightPadBytes d n ltac:(lia)). unfold len in *. lia.
  - apply wrap_range. lia.
Qed.

Lemma makeDup_safe n f :
  well_shaped (MakeDup n) = true → exec_pre c (MakeDup n) f → wp (makeDup n) (exec_post q (MakeDup n) f) f.
Proof.
  intros Hn Hpre. pose proof (pc_range _ _ Hpre). pose proof (ep_items _ _ _ Hpre) as Hi. pose proof (ep_words _ _ _ Hpre) as Hw.
  cbn in Hi. assert (0 < n)%nat by (destruct n; [done | lia]). destruct (lookup_lt_is_Some_2 (f_stack f) (n - 1)) as [x Hx]; [lia |].
  unfold makeDup, dup. wp_steps. eapply wp_Back; [done |]. op_steps. apply frame_post; try done; cbn; [| lia].
  apply Forall_cons. split; [by eapply Forall_lookup_1 | done].
Qed.

Lemma makeSwap_safe n f : exec_pre c (MakeSwap n) f → wp (makeSwap n) (exec_post q (MakeSwap n) f) f.
Proof.
  intros Hpre. pose proof (pc_range _ _ Hpre). pose proof (ep_items _ _ _ Hpre) as Hi. pose proof (ep_words _ _ _ Hpre) as Hw.
  cbn in Hi. destruct (lookup_lt_is_Some_2 (f_stack f) (S n - 1)) as [x Hx]; [lia |].
  destruct (lookup_lt_is_Some_2 (f_stack f) 0) as [y Hy]; [lia |].
  unfold makeSwap, swap. wp_steps. eapply wp_Back; [done |]. wp_steps. eapply wp_Back; [done |]. wp_steps.
  apply frame_post; try done; cbn [f_stack set_stack]; [| by rewrite !length_insert].
  apply Forall_insert; [apply Forall_insert; [done |] |]; by eapply Forall_lookup_1.
Qed.

Definition moving (op : executionFunc) : bool :=
  match op with OpJump | OpJumpi | OpPush1 | MakePush _ _ | MakeDup _ | MakeSwap _ => true | _ => false end.

Lemma moving_safe op f :
  moving op = true → well_shaped op = true → exec_pre c op f → wp (execute_of op) (exec_post q op f) f.
Proof.
  intros Hop Hsh Hpre. pose proof (ep_words _ _ _ Hpre). assert (∀ z, 0 <= u64 z < 2 ^ 64) by (intros z; apply wrap_range; lia).
  destruct op; try discriminate Hop; clear Hop; cbn [EvmInstructions.execute_of];
    try (first [by apply makePush_safe | by apply makeDup_safe | by apply makeSwap_safe]); operands Hpre; open_op; op_steps;
    rewrite ?set_stack_stack; try (by apply jump_to_safe; frame_done E); apply frame_post; frame_done E.
  destruct (_ <? _); [apply GetByte_word | apply word_0].
Qed.

(** *** The state *)

Lemma wp_modify_state g Q f : Q (Ok tt) (set_evm (set_StateDB (g (frame_state f)) (f_evm f)) f) → wp (modify_state g) Q f.
Proof. done. Qed.

Lemma suicide_effects self beneficiary s : evm_effects false s (suicide_state Keccak256 rules self beneficiary s).
Proof.
  set (b := StateDB.GetBalance Keccak256 self s). assert (He : evm_effects false s (Suicide self (AddBalance Keccak256 beneficiary b s)).1).
  { eapply (eff_do _ _ _ _ _ (OSuicide self)); [| done | done]. by apply (effects_one _ _ _ (OAddBalance beneficiary b)). }
  unfold suicide_state. destruct (IsSDUpdate rules); [| done]. by eapply (eff_do _ _ _ _ _ (OSubBalance self b)).
Qed.

(** After the topics have been popped. *)
Lemma wp_pop_topics {A} (k : list Z → exec A) Q l xs : ∀ f,
  f_stack f = xs ++ l → (∀ topics, wp (k topics) Q (set_stack l f)) → wp (pop_topics (length xs)) (wp_cont k Q) f.
Proof.
  revert k. induction xs as [| x xs IH]; intros k f Hf Hk; cbn [pop_topics length app] in *.
  - wp_steps. assert (f = set_stack l f) as -> by (destruct f; cbn in *; by subst). apply Hk.
  - wp_step. eapply wp_pop; [done |]. wp_steps. apply IH; [done |]. intros topics. wp_steps. apply Hk.
Qed.

Definition writing (op : executionFunc) : bool := match op with OpSstore | OpSuicide | MakeLog _ => true | _ => false end.

Lemma makeLog_safe n f : negb q = true → exec_pre c (MakeLog n) f → wp (makeLog c n) (exec_post q (MakeLog n) f) f.
Proof.
  intros Hq Hpre. destruct (split_stack _ _ Hpre) as (xs & l & E & Hl & Hx & Hw). cbn [pops] in Hl.
  destruct xs as [| x0 [| x1 xs]]; [done | done |]. cbn in Hl. assert (n = length xs) as -> by lia. memory_areas Hpre E.
  unfold makeLog. op_steps. cbn [app]. op_steps. rewrite set_stack_stack. apply (wp_pop_topics _ _ l); [done |]. intros topics. wp_step.
  apply mem_Get_spec; [done | done |]. intros d Hd. wp_steps. apply wp_modify_state. wp_steps.
  eapply state_post; try done; [| by rewrite E; cbn; rewrite length_app; lia].
  apply (effects_one _ _ _ (OAddLog (c_self c) topics d)); [by apply negb_true_iff | done].
Qed.

Lemma writing_safe op f :
  writing op = true → negb q = true → exec_pre c op f → wp (execute_of op) (exec_post q op f) f.
Proof.
  intros Hop Hq Hpre. destruct op; try discriminate Hop; clear Hop; cbn [EvmInstructions.execute_of]; try by apply makeLog_safe.
  all: operands Hpre; open_op; op_steps; rewrite ?set_stack_stack; apply wp_modify_state; wp_steps;
    eapply state_post; frame_done E; apply negb_true_iff in Hq; rewrite Hq.
  - eapply (effects_one _ _ _ (OSetState _ _ _)); [split; [done | apply BigToHash_word] | done].
  - apply suicide_effects.
Qed.

Lemma Sha3_safe f : exec_pre c OpSha3 f → wp (execute_of OpSha3) (exec_post q OpSha3 f) f.
Proof.
  intros Hpre. operands Hpre. memory_areas Hpre E. cbn [EvmInstructions.execute_of]. open_op. op_steps. rewrite ?set_stack_stack.
  apply mem_Get_spec; [done | done |]. intros d Hd. wp_steps.
  assert (word (be_val (Keccak256 d))) by (apply be_val_word; by rewrite (en_keccak env)).
  destruct (EnablePreimageRecording ctx); [apply wp_modify_state |]; op_steps; eapply state_post; frame_done E.
  - by eapply (effects_one _ _ _ (OAddPreimage _ _)).
  - by instantiate (1 := frame_state f); destruct f as [? ? ? ? ? []].
  - apply eff_refl.
Qed.

(** *** Calls and creations *)

Section Spawning.
  Context (bound : Z) (Hrun : run_safe bound).

Definition calls (op : executionFunc) : bool :=
  match op with OpCall | OpCallCode | OpDelegateCall | OpStaticCall => true | _ => false end.

(** What calls need besides. *)
Record spawn_pre (op : executionFunc) (f : Frame) : Prop := {
  sn_gas : f_Gas f + extra op f < bound;
  sn_temp : calls op = true → 0 <= callGasTemp (f_evm f);
  sn_quiet : q = quiet (readOnly (f_evm f));
  sn_static : q = true → op = OpCall → item 2 f = 0;
  sn_self : IsBerlin rules = true → accessed (c_self c) (frame_state f);
  sn_callee : IsBerlin rules = true → op = OpCall ∨ op = OpStaticCall → accessed (BigToAddress (item 1 f)) (frame_state f);
}.

Lemma call_args_spec {A} (k : list byte * Z * Z → exec A) Q f a b o n l :
  f_stack f = a :: b :: o :: n :: l → fits (f_store f) (a, b) → len (f_store f) <= max_memory →
  (∀ args, small args → wp (k (args, o, n)) Q (set_stack l f)) → wp call_args (wp_cont k Q) f.
Proof.
  intros E Hf Hm Hk. pose proof (fits_small _ _ _ Hm Hf). unfold call_args. op_steps. rewrite !set_stack_stack.
  apply mem_Get_spec; [done | done |]. intros d Hd. wp_steps. apply Hk. unfold small. lia.
Qed.

Lemma finish_call_safe op f off size rest gas r :
  exec_pre c op f → fits (f_store f) (off, size) → Forall word rest →
  (S (length rest) + pops op = length (f_stack f) + pushes op)%nat → gas <= extra op f →
  result_post gas q (f_evm f) r → wp_cont (λ r, finish_call off size r) (exec_post q op f) r (set_stack rest f).
Proof.
  intros Hpre Hf Hw Hl Hx Hr. pose proof (ep_memory _ _ _ Hpre) as Hm. pose proof (ep_gas _ _ _ Hpre).
  pose proof (ep_temp _ _ _ Hpre). pose proof (pc_range _ _ Hpre). destruct r as [[[[ret g] err] e'] | |]; wp_steps; [| done..].
  destruct Hr as (Hg & Hret & Hlb). assert (word (if bool_decide (err = None) then 1 else 0)) by (destruct (bool_decide _); unfold word; lia).
  assert (Hend : ∀ store, len store = len (f_store f) →
    wp (add_gas g;; mret ret) (exec_post q op f)
       (set_store store (set_stack ((if bool_decide (err = None) then 1 else 0) :: rest) (set_evm e' (set_stack rest f))))).
  { intros store Hstore. unfold add_gas. wp_steps. split; [| by split]. split; cbn; try done; [by apply Forall_cons | rewrite wrap_small; lia]. }
  unfold finish_call. op_steps.
  - apply mem_Set_spec; [done | done |]. intros store Hstore. wp_step. by apply Hend.
  - exact (Hend (f_store f) eq_refl).
Qed.

Lemma with_stipend_spec gas v :
  0 <= gas → gas + (if v =? 0 then 0 else CallStipend) < 2 ^ 64 →
  with_stipend gas v = gas + (if v =? 0 then 0 else CallStipend).
Proof.
  intros Hg Hb. unfold with_stipend. destruct (Z.eqb_spec v 0) as [-> |]; cbn [Z.sgn Z.eqb negb]; [lia |].
  destruct (Z.eqb_spec (Z.sgn v) 0); [lia |]. apply wrap_small. lia.
Qed.

Lemma calls_safe op f :
  calls op = true → exec_pre c op f → spawn_pre op f → wp (execute_of op) (exec_post q op f) f.
Proof.
  intros Hop Hpre Hsp. pose proof (ep_evm _ _ _ Hpre). pose proof (ep_gas _ _ _ Hpre). pose proof (co_self _ Hc).
  pose proof (ep_temp _ _ _ Hpre) as [Hx Hx']. pose proof (sn_gas _ _ Hsp) as Hgas. pose proof (sn_self _ _ Hsp) as Hself.
  assert (Haddr : ∀ z, (length (BigToAddress z) <= 32)%nat) by (intros z; unfold BigToAddress; rewrite length_be; lia).
  pose proof (sn_temp _ _ Hsp Hop). pose proof (sn_static _ _ Hsp) as Hst. pose proof (sn_callee _ _ Hsp) as Hcallee.
  destruct op; try discriminate Hop; clear Hop; operands Hpre; memory_areas Hpre E; cbn [EvmInstructions.execute_of]; open_op;
    cbn [extra] in *; unfold item in *; rewrite ?E in *; cbn [lookup list_lookup default id from_option] in *;
    op_steps; (eapply call_args_spec; [reflexivity | done | done |]); intros args Hargs; wp_steps; rewrite ?set_stack_stack;
    cbn [f_evm set_stack]; rewrite ?U256_small, ?with_stipend_spec by (done || lia);
    (eapply finish_call_safe; [done | done | done | by rewrite E; cbn; lia | cbn [extra]; unfold item; rewrite ?E; apply Z.le_refl |]);
    rewrite (sn_quiet _ _ Hsp) in *.
  - apply (evm_Call_spec env bound); [done | split; (done || cbn; lia) | done | | ]; auto.
  - apply (evm_CallCode_spec env bound); [done | split; (done || cbn; lia) | done | done].
  - apply (evm_DelegateCall_spec env bound); [done | split; (done || cbn; lia) | done | done].
  - apply result_static, (evm_StaticCall_spec env bound); [done | split; (done || cbn; lia) |]; auto.
Qed.

Lemma finish_create_safe op f failed rest gas r :
  exec_pre c op f → Forall word rest → (S (length rest) + pops op = length (f_stack f) + pushes op)%nat →
  0 <= gas <= f_Gas f → negb q = true → creation_post gas (f_evm f) r →
  wp_cont (λ r, finish_create failed r) (exec_post q op f) r (set_Gas (f_Gas f - gas) (set_stack rest f)).
Proof.
  intros Hpre Hw Hl Hg Hq Hr. pose proof (ep_temp _ _ _ Hpre). pose proof (pc_range _ _ Hpre). apply negb_true_iff in Hq.
  destruct r as [[[[[ret g] err] e'] addr] | |]; [| done..]. destruct Hr as [(Hg' & Hret & Hlb) Ha].
  assert (Hword : word (if failed err then 0 else be_val addr)) by (destruct (failed err); [apply word_0 | by apply be_val_word]).
  unfold finish_create, add_gas. wp_steps. op_steps. split; [| split; [by case_bool_decide | done]].
  split; cbn; try done; [by apply Forall_cons | rewrite wrap_small; lia | by rewrite Hq].
Qed.

Lemma wp_UseGas_all {A} (k : bool → exec A) Q f gas :
  gas <= f_Gas f → wp (k true) Q (set_Gas (f_Gas f - gas) f) → wp (UseGas gas) (wp_cont k Q) f.
Proof. intros Hg Hk. apply wp_UseGas; intros; [lia |]. by wp_steps. Qed.

Lemma creates_safe op f :
  op = OpCreate ∨ op = OpCreate2 → negb q = true → exec_pre c op f → spawn_pre op f →
  wp (execute_of op) (exec_post q op f) f.
Proof.
  intros Hop Hq Hpre Hsp. pose proof (ep_evm _ _ _ Hpre). pose proof (ep_gas _ _ _ Hpre) as Hg. pose proof (co_self _ Hc).
  pose proof (ep_temp _ _ _ Hpre) as [Hx Hx']. pose proof (sn_gas _ _ Hsp) as Hgas.
  assert (Hquiet : quiet (readOnly (f_evm f)) = false) by (rewrite <- (sn_quiet _ _ Hsp); by apply negb_true_iff).
  assert (Hall : 0 <= f_Gas f - f_Gas f / 64 <= f_Gas f) by (pose proof (Z.div_pos (f_Gas f) 64); pose proof (Z.div_le_upper_bound (f_Gas f) 64 (f_Gas f)); lia).
  destruct Hop as [-> | ->]; operands Hpre; memory_areas Hpre E; cbn [EvmInstructions.execute_of]; open_op; cbn [extra] in *; op_steps;
    rewrite ?set_stack_stack; (apply mem_Get_spec; [done | done |]); intros d Hd; wp_steps; cbn [f_Gas set_stack];
    match goal with Hf : fits _ _, Hm : len _ <= _ |- _ => pose proof (fits_small _ _ _ Hm Hf) end.
  - set (gas := if IsEIP150 rules then _ else _). assert (0 <= gas <= f_Gas f) by (subst gas; destruct (IsEIP150 rules); lia).
    apply wp_UseGas_all; [cbn; lia |]. wp_steps. cbn [f_Gas f_evm set_stack set_Gas]. apply finish_create_safe; try done; [by rewrite E; cbn; lia |].
    apply (evm_create_spec env bound); try done. split; try done; [by apply drop_keccak | unfold small; lia | cbn; lia | cbn; lia].
  - apply wp_UseGas_all; [cbn; lia |]. wp_steps. cbn [f_Gas f_evm set_stack set_Gas]. apply finish_create_safe; try done; [by rewrite E; cbn; lia |].
    apply (evm_create_spec env bound); try done. split; try done; [by apply drop_keccak | unfold small; lia | cbn; lia | cbn; lia].
Qed.

(** All instructions. *)
Lemma execute_safe op f :
  well_shaped op = true → (modifying op = true → negb q = true) → exec_pre c op f → (spawning op = true → spawn_pre op f) →
  wp (execute_of op) (exec_post q op f) f.
Proof.
  intros Hsh Hmod Hpre Hsp.
  destruct (stacking op) eqn:E1; [by apply stacking_safe |]. destruct (copying op) eqn:E2; [by apply copying_safe |].
  destruct (loading op) eqn:E3; [by apply loading_safe |]. destruct (moving op) eqn:E4; [by apply moving_safe |].
  destruct (writing op) eqn:E5; [apply writing_safe; [done | apply Hmod; by destruct op | done] |].
  destruct (calls op) eqn:E6; [apply calls_safe; [done | done | apply Hsp; by destruct op] |].
  destruct op; try discriminate; try (by apply ReturnDataCopy_safe); try (by apply Sha3_safe); apply creates_safe; auto.
Qed.

End Spawning.

End Instructions.

End Safety.
