(* ===== verification/EvmRun.v ===== *)
(** Running contracts with the interpreter of EvmInterpreter.v.

    The jump tables are checked by computation against what the instructions
    and the gas functions need; then every iteration is safe, and a run ends
    with as much fuel as it has gas. *)

From S2P Require Import Prelude Rlp TxMeta Transaction BigFloat Fees StateDB StateDBFacts StateBalances EvmEffects EvmCommon.
From S2P Require Import EvmCalls EvmAnalysis EvmGas EvmInstructions EvmJumpTable EvmInterpreter EvmWords EvmGasFacts EvmSafety.

(** ** The tables *)

(** The memory function of an instruction. *)
Definition memory_of (op : executionFunc) : option memorySizeFunc :=
  match op with
  | OpSha3 => Some MemorySha3
  | OpCallDataCopy => Some MemoryCallDataCopy
  | OpReturnDataCopy => Some MemoryReturnDataCopy
  | OpCodeCopy => Some MemoryCodeCopy
  | OpExtCodeCopy => Some MemoryExtCodeCopy
  | OpMload => Some MemoryMLoad
  | OpMstore => Some MemoryMStore
  | OpMstore8 => Some MemoryMStore8
  | OpCreate => Some MemoryCreate
  | OpCreate2 => Some MemoryCreate2
  | OpCall | OpCallCode => Some MemoryCall
  | OpDelegateCall => Some MemoryDelegateCall
  | OpStaticCall => Some MemoryStaticCall
  | OpReturn => Some MemoryReturn
  | OpRevert => Some MemoryRevert
  | MakeLog _ => Some MemoryLog
  | _ => None
  end.

Definition is_call (op : executionFunc) : bool := match op with OpCall => true | _ => false end.
Definition is_stop (op : executionFunc) : bool := match op with OpStop => true | _ => false end.
Definition pays_value (op : executionFunc) : bool := match op with OpCall | OpCallCode => true | _ => false end.

Definition gas_ok (rules : Rules) (o : operation) (g : gasFunc) : bool :=
  let e := op_execute o in
  (bool_decide (memorySize o = None) || charging g) && (gas_items g <=? pops e)%nat && implb (refunding g) (writes o) &&
  implb (accessing g) (IsBerlin rules) && implb (cold g) (IsEIP150 rules) &&
  implb (calls e) (calling g && eqb (with_value g) (pays_value e) && implb (IsBerlin rules) (warming g)).

(** What makes an entry of a table safe. *)
Definition entry_ok (rules : Rules) (opcode : Z) (o : operation) : bool :=
  let e := op_execute o in
  (minStack o =? Z.of_nat (pops e)) && (maxStack o =? 1024 + Z.of_nat (pops e) - Z.of_nat (pushes e)) &&
  bool_decide (memorySize o = memory_of e) && (0 <=? constantGas o) && well_shaped e &&
  implb (modifying e) (writes o) && eqb (is_call e) (opcode =? CALL) && (is_stop e || negb (opcode =? 0)) &&
  match dynamicGas o with
  | None => bool_decide (memorySize o = None) && negb (calls e)
  | Some g => gas_ok rules o g
  end &&
  (halts o || reverts o || (1 <=? constantGas o + match dynamicGas o with Some g => minimum g | None => 0 end)) &&
  implb (spawning e) (1 <=? constantGas o).

Definition table_ok (rules : Rules) : bool :=
  forallb (λ x : Z * operation, entry_ok rules x.1 x.2) (map_to_list (instruction_set rules)).

(** The tables of all forks are checked by computation. *)
Lemma tables_ok rules : ordered rules → table_ok rules = true.
Proof.
  intros [H1 H2 H3]. destruct rules as [b1 b2 b3 b4 b5 b6 b7 b8 b9]. cbn in H1, H2, H3.
  destruct b8; [rewrite H1, H2 by (try rewrite H1; done) |]; [by vm_compute |]. destruct b7; [rewrite H2 by done; by vm_compute |].
  destruct b5; [by destruct b2; vm_compute |]. destruct b4; [by destruct b2; vm_compute |].
  destruct b3; [by destruct b2; vm_compute |]. destruct b2; [by vm_compute |]. destruct b1; by vm_compute.
Qed.

Lemma entry_of_table rules opcode o :
  ordered rules → instruction_set rules !! opcode = Some o → entry_ok rules opcode o = true.
Proof.
  intros Hr Ho. pose proof (tables_ok _ Hr) as H. unfold table_ok in H. rewrite forallb_forall in H.
  apply (H (opcode, o)). apply list_elem_of_In. by apply elem_of_map_to_list.
Qed.

(** The same as a proposition. *)
Record safe_gas (rules : Rules) (o : operation) (g : gasFunc) : Prop := {
  sg_charging : memorySize o = None ∨ charging g = true;
  sg_items : (gas_items g <= pops (op_execute o))%nat;
  sg_refunding : refunding g = true → writes o = true;
  sg_accessing : accessing g = true → IsBerlin rules = true;
  sg_cold : cold g = true → IsEIP150 rules = true;
  sg_calls : calls (op_execute o) = true →
    calling g = true ∧ with_value g = pays_value (op_execute o) ∧ (IsBerlin rules = true → warming g = true);
}.

Definition least (o : operation) : Z := match dynamicGas o with Some g => minimum g | None => 0 end.

Record safe_entry (rules : Rules) (opcode : Z) (o : operation) : Prop := {
  se_min : minStack o = Z.of_nat (pops (op_execute o));
  se_max : maxStack o = 1024 + Z.of_nat (pops (op_execute o)) - Z.of_nat (pushes (op_execute o));
  se_memory : memorySize o = memory_of (op_execute o);
  se_constant : 0 <= constantGas o;
  se_shape : well_shaped (op_execute o) = true;
  se_writes : modifying (op_execute o) = true → writes o = true;
  se_call : op_execute o = OpCall ↔ opcode = CALL;
  se_stop : op_execute o ≠ OpStop → opcode ≠ 0;
  se_gas : match dynamicGas o with
           | None => memorySize o = None ∧ calls (op_execute o) = false
           | Some g => safe_gas rules o g
           end;
  se_least : halts o = false → reverts o = false → 1 <= constantGas o + least o;
  se_spawning : spawning (op_execute o) = true → 1 <= constantGas o;
}.

Lemma implb_true a b : implb a b = true → a = true → b = true.
Proof. by destruct a. Qed.

Lemma gas_ok_safe rules o g : gas_ok rules o g = true → safe_gas rules o g.
Proof.
  unfold gas_ok. rewrite !andb_true_iff, orb_true_iff, bool_decide_eq_true, Nat.leb_le.
  intros (((((H1 & H2) & H3) & H4) & H5) & H6). split; try done; try by apply implb_true.
  intros Hc. apply (implb_true _ _ H6) in Hc. apply andb_true_iff in Hc as [Hc Hw]. apply andb_true_iff in Hc as [Hc He].
  split; [done |]. split; [by apply eqb_prop | by apply implb_true].
Qed.

Lemma entry_safe rules opcode o : ordered rules → instruction_set rules !! opcode = Some o → safe_entry rules opcode o.
Proof.
  intros Hr Ho. pose proof (entry_of_table _ _ _ Hr Ho) as H. unfold entry_ok in H. rewrite !andb_true_iff in H.
  destruct H as ((((((((((H1 & H2) & H3) & H4) & H5) & H6) & H7) & H8) & H9) & H10) & H11).
  split; try done; try (by apply implb_true); try (by apply Z.eqb_eq); try (by apply Z.leb_le).
  - by apply bool_decide_eq_true in H3.
  - apply eqb_prop in H7. rewrite <- Z.eqb_eq, <- H7. by destruct (op_execute o).
  - intros Hs ->. apply orb_true_iff in H8 as [H8 |]; [| done]. by destruct (op_execute o).
  - destruct (dynamicGas o); [by apply gas_ok_safe |]. apply andb_true_iff in H9 as [H9 H9']. apply bool_decide_eq_true in H9.
    by apply negb_true_iff in H9'.
  - intros Hh Hv. rewrite Hh, Hv in H10. by apply Z.leb_le.
  - intros Hs. apply Z.leb_le. by eapply implb_true.
Qed.

(** ** The phases of an iteration *)

Section Step.
  Context (Keccak256 : list byte → list byte) (ContractCode : list byte → list byte).
  Context (rules : Rules) (ctx : BlockContext) (c : Contract).

(** The stack after its check. *)
Lemma check_stack_spec opcode o Q f :
  safe_entry rules opcode o → (∀ e, Q (Err e) f) →
  ((pops (op_execute o) <= length (f_stack f))%nat →
   (length (f_stack f) + pushes (op_execute o) <= 1024 + pops (op_execute o))%nat → Q (Ok tt) f) →
  wp (check_stack o) Q f.
Proof.
  intros [H1 H2 _ _ _ _ _ _ _ _ _] He Hok. unfold check_stack. wp_steps. rewrite H1, H2. unfold len.
  destruct (Z.ltb_spec (Z.of_nat (length (f_stack f))) (Z.of_nat (pops (op_execute o)))); [wp_steps; apply He |].
  destruct (Z.ltb_spec (1024 + Z.of_nat (pops (op_execute o)) - Z.of_nat (pushes (op_execute o))) (Z.of_nat (length (f_stack f))));
    wp_steps; [apply He |]. apply Hok; lia.
Qed.

Lemma check_write_spec opcode o Q f :
  safe_entry rules opcode o → (pops (op_execute o) <= length (f_stack f))%nat → (∀ e, Q (Err e) f) →
  ((quiet rules (readOnly (f_evm f)) = true → writes o = false) →
   (quiet rules (readOnly (f_evm f)) = true → op_execute o = OpCall → item 2 f = 0) → Q (Ok tt) f) →
  wp (check_write rules opcode o) Q f.
Proof.
  intros Hs Hp He Hok. unfold check_write, quiet in *. wp_steps. destruct (readOnly (f_evm f) && IsByzantium rules); [| wp_steps; by apply Hok].
  destruct (writes o); [wp_steps; apply He |]. destruct (Z.eqb_spec opcode CALL) as [-> | Hne].
  - assert (op_execute o = OpCall) as Eo by by apply Hs. rewrite Eo in Hp. cbn in Hp.
    wp_step. eapply wp_Back; [apply item_lookup; lia |]. wp_steps. destruct (Z.eqb_spec (Z.sgn (item 2 f)) 0) as [E0 | E0];
      cbn [negb]; wp_steps; [apply Hok; [done | lia] | apply He].
  - wp_steps. apply Hok; [done |]. intros _ Eo. by apply Hs in Eo.
Qed.

Lemma pay_spec gas Q f :
  (∀ e, Q (Err e) f) → (gas <= f_Gas f → Q (Ok tt) (set_Gas (f_Gas f - gas) f)) → wp (pay gas) Q f.
Proof. intros He Hok. unfold pay. wp_step. apply wp_UseGas; intros Hg; wp_steps; cbn [negb]; wp_steps; [apply He | by apply Hok]. Qed.

(** *** The size of the memory *)

(** A memory function gives a size with room for the areas. *)
Definition has_room (e : executionFunc) (f : Frame) (r : outcome (Z * bool)) (f' : Frame) : Prop :=
  f' = f ∧ ∃ size over, r = Ok (size, over) ∧
    (over = false → 0 <= size < 2 ^ 64 ∧ ∀ store, size <= len store → Forall (fits store) (areas e f)).

Lemma memory_at_spec off l f :
  (off < length (f_stack f))%nat → (l < length (f_stack f))%nat →
  wp (memory_at off l) (λ r f', f' = f ∧ r = Ok (calcMemSize64 (item off f) (item l f))) f.
Proof.
  intros H1 H2. unfold memory_at. wp_step. eapply wp_Back; [by apply item_lookup |]. wp_steps.
  eapply wp_Back; [by apply item_lookup |]. by wp_steps.
Qed.

Lemma room_at off l e f :
  (off < length (f_stack f))%nat → (l < length (f_stack f))%nat → areas e f = [(item off f, item l f)] →
  wp (memory_at off l) (has_room e f) f.
Proof.
  intros H1 H2 He. eapply wp_mono; [by apply memory_at_spec |]. intros r f' [-> ->]. split; [done |].
  destruct (calcMemSize64 (item off f) (item l f)) as [size over] eqn:E. eexists _, _. split; [done |]. intros ->.
  split; [by eapply calcMemSize64_range |]. intros store Hs. rewrite He. apply Forall_singleton. by eapply calcMemSize64_fits.
Qed.

Lemma room_word n e f :
  0 < n < 2 ^ 64 → (0 < length (f_stack f))%nat → areas e f = [(item 0 f, n)] →
  wp (x ← Back 0; mret (calcMemSize64WithUint x n)) (has_room e f) f.
Proof.
  intros Hn H1 He. wp_step. eapply wp_Back; [by apply item_lookup |]. wp_steps. split; [done |].
  destruct (calcMemSize64WithUint (item 0 f) n) as [size over] eqn:E. eexists _, _. split; [done |]. intros ->. split.
  - unfold calcMemSize64WithUint in E. destruct (_ =? 0); [injection E as <-; lia |]. destruct (negb _); [done |].
    injection E as <- _. apply wrap_range. lia.
  - intros store Hs. rewrite He. apply Forall_singleton. eapply calcMemSize64WithUint_fits; [lia | done | done].
Qed.

Lemma room_call ret inp e f :
  (S ret < length (f_stack f))%nat → (S inp < length (f_stack f))%nat →
  areas e f = [(item inp f, item (S inp) f); (item ret f, item (S ret) f)] →
  wp (memory_of_call ret inp) (has_room e f) f.
Proof.
  intros H1 H2 He. unfold memory_of_call. wp_step. eapply wp_mono; [apply memory_at_spec; lia |]. intros r f' [-> ->]. wp_steps.
  destruct (calcMemSize64 (item ret f) (item (S ret) f)) as [x []] eqn:Ex; wp_steps; [by split; [| eexists _, _] |].
  eapply wp_mono; [apply memory_at_spec; lia |]. intros r f' [-> ->]. wp_steps.
  destruct (calcMemSize64 (item inp f) (item (S inp) f)) as [y []] eqn:Ey; wp_steps; [by split; [| eexists _, _] |].
  split; [done |]. eexists _, _. split; [done |]. intros _. pose proof (calcMemSize64_range _ _ _ Ex). pose proof (calcMemSize64_range _ _ _ Ey).
  split; [destruct (y <? x); lia |]. intros store Hs. rewrite He.
  assert (x <= len store ∧ y <= len store) as [] by (destruct (Z.ltb_spec y x); lia).
  apply Forall_cons. split; [by eapply calcMemSize64_fits |]. apply Forall_singleton. by eapply calcMemSize64_fits.
Qed.

Lemma memorySize_of_spec e m f :
  memory_of e = Some m → (pops e <= length (f_stack f))%nat → wp (memorySize_of m) (has_room e f) f.
Proof.
  intros Hm Hp. destruct e; try discriminate Hm; injection Hm as <-; cbn [pops] in Hp; cbn [memorySize_of];
    first [apply room_at | apply room_word | apply room_call]; try done; lia.
Qed.

Lemma toWordSize_spec z : 0 <= z < 2 ^ 64 → 0 <= toWordSize z < 2 ^ 60 ∧ z <= toWordSize z * 32.
Proof.
  intros Hz. unfold toWordSize, max_uint64. destruct (Z.ltb_spec (2 ^ 64 - 1 - 31) z).
  - change ((2 ^ 64 - 1) / 32 + 1) with (2 ^ 59). lia.
  - pose proof (Z.div_mod (z + 31) 32 ltac:(lia)). pose proof (Z.mod_pos_bound (z + 31) 32 ltac:(lia)). lia.
Qed.

(** In whole words. *)
Lemma memory_size_spec opcode o Q f :
  safe_entry rules opcode o → (pops (op_execute o) <= length (f_stack f))%nat → (∀ e, Q (Err e) f) →
  (∀ size, size mod 32 = 0 → 0 <= size → (memorySize o = None → size = 0) →
    (∀ store, size <= len store → Forall (fits store) (areas (op_execute o) f)) → Q (Ok size) f) →
  wp (memory_size o) Q f.
Proof.
  intros Hs Hp He Hok. pose proof (se_memory _ _ _ Hs) as Hm. unfold memory_size. destruct (memorySize o) as [m |].
  - wp_step. eapply wp_mono; [by eapply memorySize_of_spec |]. intros r f' (-> & size & over & -> & Hr). wp_steps.
    apply wp_no_overflow; cbn [fst snd]; [intros -> | apply He]. wp_steps. destruct (Hr eq_refl) as [Hsize Hfit].
    pose proof (toWordSize_spec size Hsize). apply wp_no_overflow; [| intros; apply He].
    assert (SafeMul (toWordSize size) 32 = (toWordSize size * 32, false) ∨ (SafeMul (toWordSize size) 32).2 = true) as [E | E].
    { unfold SafeMul, max_uint64. destruct (Z.eqb_spec (toWordSize size) 0) as [-> |]; [by left |]. cbn [orb Z.eqb].
      destruct (Z.ltb_spec ((2 ^ 64 - 1) / toWordSize size) 32) as [| Hd]; [by right | left].
      pose proof (Z.mul_div_le (2 ^ 64 - 1) (toWordSize size) ltac:(lia)). rewrite wrap_small; [done | nia]. }
    + rewrite E. intros _. cbn. apply Hok; [apply Z.mod_mul; lia | lia | done |]. intros store Hst. apply Hfit. lia.
    + rewrite E. done.
  - wp_steps. apply Hok; try done. intros store _. by destruct (op_execute o).
Qed.

(** *** The dynamic gas *)

Abbreviation accessed a s := (a ∈ dom (al_addresses (access s))).
Abbreviation kept := (kept Keccak256 ContractCode).

(** What is true once an operation is paid. *)
Record paid (q : bool) (o : operation) (size : Z) (f f' : Frame) : Prop := {
  pd_kept : kept q f f';
  pd_size : size <= max_memory;
  pd_price : lastGasCost f' = fee (Z.max (len (f_store f)) size / 32);
  pd_least : f_Gas f' + least o <= f_Gas f;
  pd_temp : calls (op_execute o) = true → 0 <= callGasTemp (f_evm f');
  pd_calls : calls (op_execute o) = true → f_Gas f' + extra (op_execute o) f' <= f_Gas f;
  pd_callee : calls (op_execute o) = true → IsBerlin rules = true → accessed (BigToAddress (item 1 f')) (frame_state f');
}.

Definition paid_post (q : bool) (o : operation) (size : Z) (f : Frame) (r : outcome ()) (f' : Frame) : Prop :=
  match r with
  | Ok _ => paid q o size f f'
  | Err _ => kept q f f'
  | Panic m => m = refund_panic
  end.

Lemma minimum_nonneg g : 0 <= minimum g.
Proof. by destruct g. Qed.

Lemma extra_covered o g f f' cost :
  calls (op_execute o) = true → safe_gas rules o g → f_stack f' = f_stack f →
  callGasTemp (f_evm f') + (if call_value g f =? 0 then 0 else 9000) <= cost → extra (op_execute o) f' <= cost.
Proof.
  intros Hc Hg Hst. destruct (sg_calls _ _ _ Hg Hc) as (_ & Hv & _). unfold call_value. rewrite Hv. unfold extra, item. rewrite Hst.
  destruct (op_execute o); try discriminate Hc; cbn [pays_value]; [| | cbn; lia | cbn; lia]; destruct (_ =? 0); lia.
Qed.

Lemma pay_dynamic_spec q opcode o size f :
  safe_entry rules opcode o → gas_pre size f → (memorySize o = None → size = 0) → (pops (op_execute o) <= length (f_stack f))%nat →
  (q = true → writes o = false) → sound Keccak256 ContractCode (frame_state f) →
  (IsBerlin rules = true → accessed (c_self c) (frame_state f)) →
  wp (pay_dynamic Keccak256 rules c o size) (paid_post q o size f) f.
Proof.
  intros Hs Hp Hsize Hpops Hq Hsound Hself. pose proof (se_gas _ _ _ Hs) as Hg. unfold pay_dynamic.
  assert (Hleast : least o = match dynamicGas o with Some g => minimum g | None => 0 end) by done.
  destruct (dynamicGas o) as [g |].
  - wp_steps. eapply wp_mono.
    { apply (dynamicGas_spec Keccak256 ContractCode rules c q g size f); try done.
      - intros Hc. destruct (sg_charging _ _ _ Hg) as [| Hc']; [auto | by rewrite Hc in Hc'].
      - pose proof (sg_items _ _ _ Hg). lia.
      - intros Hr. destruct q; [| done]. apply (sg_refunding _ _ _ Hg) in Hr. by rewrite Hq in Hr.
      - apply Hg.
      - intros Ha. by apply Hself, Hg. }
    intros [cost | e | m] f1 (H1 & H2 & H3); [| wp_steps; apply H1 | wp_steps; apply H1].
    destruct H1 as [Hk (G1 & G2 & G3 & G4)]. wp_steps. apply pay_spec; [intros e; apply Hk |]. intros Hc.
    assert (Hk' : kept q f (set_Gas (f_Gas f1 - cost) f1)).
    { apply kept_set_Gas; [done |]. pose proof (minimum_nonneg g). lia. }
    split; cbn; try done; [lia | | |]; intros Hcall; destruct (sg_calls _ _ _ Hg Hcall) as (C1 & C2 & C3);
      destruct (proj2 (H2 C1) _ eq_refl) as [T1 T2]; [done | |].
    + assert (extra (op_execute o) (set_Gas (f_Gas f1 - cost) f1) <= cost); [| lia].
      by apply (extra_covered o g f); [done | done | apply Hk |].
    + intros HB. unfold item. cbn. rewrite (kt_stack _ _ _ _ _ Hk). by apply H3, C3.
  - destruct Hg as [Hm Hc]. wp_steps. rewrite (Hsize Hm). destruct Hp as [[P1 P2 P3] _ _ [P4 _]]. pose proof (len_nonneg (f_store f)).
    split; rewrite ?Hc; try done; [split; first [done | apply eff_refl | lia] | by rewrite Z.max_l by lia | lia].
Qed.

(** ** One iteration *)

Section Iteration.
  Context (precompiles : gmap address PrecompiledContract) (run : Contract → list byte → bool → EVM → outcome result).
  Context (input : list byte) (bound : Z).
  Context (env : environment Keccak256 ctx) (Hc : contract_ok c) (Hinput : small input).
  Context (Hrun : run_safe Keccak256 ContractCode rules run bound) (Hrules : ordered rules).

Abbreviation evm_ok := (evm_ok Keccak256 ContractCode).
Abbreviation left_behind := (left_behind Keccak256 ContractCode).
Abbreviation exec_pre := (exec_pre Keccak256 ContractCode c).
Abbreviation exec_post := (exec_post Keccak256 ContractCode).
Abbreviation spawn_pre q := (spawn_pre rules c q bound).

(** The frames between iterations. *)
Record frame_ok (f : Frame) : Prop := {
  fo_words : Forall word (f_stack f);
  fo_limit : (length (f_stack f) <= 1024)%nat;
  fo_priced : priced f;
  fo_gas : 0 <= f_Gas f < max_gas;
  fo_pc : 0 <= pc f < 2 ^ 64;
  fo_evm : evm_ok (f_evm f);
  fo_self : IsBerlin rules = true → accessed (c_self c) (frame_state f);
}.

Definition step_post (f : Frame) (r : outcome signal) (f' : Frame) : Prop :=
  let left := left_behind (quiet rules (readOnly (f_evm f))) (f_evm f) (f_evm f') in
  match r with
  | Ok Continue => frame_ok f' ∧ f_Gas f' < f_Gas f ∧ left
  | Ok (Return res _) => 0 <= f_Gas f' <= f_Gas f ∧ small res ∧ left
  | Err _ => 0 <= f_Gas f' <= f_Gas f ∧ left
  | Panic m => m = refund_panic
  end.

Lemma left_refl q e : evm_ok e → left_behind q e e.
Proof. intros []. split; try done. apply eff_refl. Qed.

Lemma left_trans q e1 e2 e3 : left_behind q e1 e2 → left_behind q e2 e3 → left_behind q e1 e3.
Proof. intros [] []. split; try congruence; try done. by eapply effects_trans. Qed.

Lemma left_ok q e e' : evm_ok e → left_behind q e e' → evm_ok e'.
Proof.
  intros [Hs Hw Hr] [_ _ Hr' He]. split; [by eapply effects_sound | | done]. eapply evm_effects_wide; [apply env | done | done | done].
Qed.

Lemma kept_left q f f' : evm_ok (f_evm f) → kept q f f' → left_behind q (f_evm f) (f_evm f').
Proof. intros [_ _ Hr] []. split; try done. by rewrite kt_returnData. Qed.

(** An instruction that is checked and paid. *)
Record ready (q : bool) (o : operation) (f f' : Frame) : Prop := {
  rd_pre : exec_pre (op_execute o) f';
  rd_spawn : spawning (op_execute o) = true → spawn_pre q (op_execute o) f';
  rd_modify : modifying (op_execute o) = true → negb q = true;
  rd_left : left_behind q (f_evm f) (f_evm f');
  rd_priced : priced f';
  rd_gas : f_Gas f' + extra (op_execute o) f' <= f_Gas f;
  rd_spent : halts o = false → reverts o = false → f_Gas f' + extra (op_execute o) f' < f_Gas f;
  rd_limit : (length (f_stack f') + pushes (op_execute o) <= 1024 + pops (op_execute o))%nat;
  rd_bound : f_Gas f < max_gas;
  rd_self : IsBerlin rules = true → accessed (c_self c) (frame_state f');
}.

Lemma priced_same f f' : len (f_store f') = len (f_store f) → lastGasCost f' = lastGasCost f → priced f → priced f'.
Proof. intros E1 E2 [H1 H2 H3]. by split; rewrite ?E1, ?E2. Qed.

Lemma stepped_left q o f f3 f4 :
  ready q o f f3 → stepped Keccak256 ContractCode q (op_execute o) f3 f4 →
  left_behind q (f_evm f) (f_evm f4) ∧ 0 <= f_Gas f4 <= f_Gas f.
Proof. intros Hr Hs. split; [eapply left_trans; [apply Hr | apply Hs] |]. pose proof (sp_gas _ _ _ _ _ _ Hs). pose proof (rd_gas _ _ _ _ Hr). lia. Qed.

Lemma returned_left q e e' res : small res → left_behind q e e' → left_behind q e (set_returnData res e').
Proof. intros Hs []. by split. Qed.

(** The frame after an instruction that goes on. *)
Lemma continued q o f f3 f4 e p :
  evm_ok (f_evm f) → ready q o f f3 → stepped Keccak256 ContractCode q (op_execute o) f3 f4 →
  (length (f_stack f4) + pops (op_execute o) = length (f_stack f3) + pushes (op_execute o))%nat →
  left_behind q (f_evm f) e → evm_StateDB e = frame_state f4 → 0 <= p < 2 ^ 64 → frame_ok (set_pc p (set_evm e f4)).
Proof.
  intros He Hr Hs Hl Hlb Hst Hp. pose proof (rd_limit _ _ _ _ Hr). pose proof (sp_gas _ _ _ _ _ _ Hs). pose proof (rd_gas _ _ _ _ Hr).
  pose proof (rd_bound _ _ _ _ Hr). split; cbn.
  - apply Hs.
  - lia.
  - eapply priced_same; [apply Hs | apply Hs | apply Hr].
  - lia.
  - done.
  - by eapply left_ok.
  - intros HB. rewrite Hst. pose proof (rd_self _ _ _ _ Hr HB). eapply evm_effects_accessed; [apply Hs | | done].
    apply (left_ok _ _ _ He (rd_left _ _ _ _ Hr)).
Qed.

Lemma finish_ok q o f f3 f4 res :
  q = quiet rules (readOnly (f_evm f)) → evm_ok (f_evm f) → ready q o f f3 →
  exec_post q (op_execute o) f3 (Ok res) f4 → wp (finish o (res, None)) (step_post f) f4.
Proof.
  intros -> He Hr (Hs & Hres & Hl). destruct (stepped_left _ _ _ _ _ Hr Hs) as [Hlb Hg].
  assert (∃ e, evm_StateDB e = frame_state f4 ∧ left_behind (quiet rules (readOnly (f_evm f))) (f_evm f) e ∧
    ∀ Q, Q (Ok tt) (set_evm e f4) → wp (if returns o then modify_evm (set_returnData res) else mret tt) Q f4)
    as (e & E1 & E2 & E3).
  { destruct (returns o).
    - exists (set_returnData res (f_evm f4)). split; [done |]. split; [by apply returned_left | done].
    - exists (f_evm f4). split; [done |]. split; [done |]. intros Q HQ. by destruct f4. }
  unfold finish. wp_step. apply E3. wp_steps.
  assert (Hcont : ∀ p, 0 <= p < 2 ^ 64 → halts o = false → reverts o = false → step_post f (Ok Continue) (set_pc p (set_evm e f4))).
  { intros p Hp Hh Hv. split; [by eapply continued |]. pose proof (rd_spent _ _ _ _ Hr Hh Hv). pose proof (sp_gas _ _ _ _ _ _ Hs). cbn.
    split; [lia | done]. }
  destruct (reverts o); [wp_steps; split; [done | by split] |]. destruct (halts o); [wp_steps; split; [done | by split] |].
  destruct (jumps o); cbn [negb]; wp_steps; [| apply Hcont; [apply wrap_range; lia | done | done]].
  replace (set_evm e f4) with (set_pc (pc f4) (set_evm e f4)) by by destruct f4. apply Hcont; [apply Hs | done | done].
Qed.

Lemma ready_finish opcode o f f3 :
  safe_entry rules opcode o → evm_ok (f_evm f) → ready (quiet rules (readOnly (f_evm f))) o f f3 →
  wp (r ← attempt (execute_of Keccak256 ContractCode run rules (precompiled precompiles) ctx c input (op_execute o)); finish o r)
     (step_post f) f3.
Proof.
  intros Hs He Hr. unfold attempt. wp_steps. eapply wp_mono.
  { eapply (execute_safe Keccak256 ContractCode rules ctx (precompiled precompiles) run c input _ env Hc Hinput bound Hrun);
      [apply Hs | apply Hr | apply Hr | apply Hr]. }
  intros [res | err | m] f4 H4; wp_steps; [by eapply finish_ok | | done].
  destruct (stepped_left _ _ _ _ _ Hr H4) as [Hlb Hg]. unfold finish. wp_step. destruct (returns o); wp_steps; [| by split].
  split; [done |]. cbn. by apply returned_left.
Qed.

Lemma fails_kept f e f' : evm_ok (f_evm f) → kept (quiet rules (readOnly (f_evm f))) f f' → step_post f (Err e) f'.
Proof. intros He Hk. split; [apply Hk | by apply kept_left]. Qed.

Lemma kept_pays q f gas : 0 <= gas <= f_Gas f → kept q f (set_Gas (f_Gas f - gas) f).
Proof. intros Hg. split; cbn; first [done | lia | apply eff_refl]. Qed.

Lemma resize_spec {A} size (k : () → exec A) Q f :
  0 <= size → (∀ store, len store = Z.max (len (f_store f)) size → wp (k tt) Q (set_store store f)) →
  wp (if 0 <? size then mem_Resize size else mret tt) (wp_cont k Q) f.
Proof.
  intros Hs Hk. pose proof (len_nonneg (f_store f)).
  assert (Hsame : size <= len (f_store f) → wp (k tt) Q f).
  { intros Hle. assert (f = set_store (f_store f) f) as Ef by by destruct f. rewrite Ef. apply Hk. lia. }
  destruct (Z.ltb_spec 0 size); wp_steps; [| apply Hsame; lia]. unfold mem_Resize. wp_steps.
  destruct (Z.ltb_spec (len (f_store f)) size); [| by apply Hsame]. apply Hk. rewrite len_app. unfold len in *. rewrite length_replicate. lia.
Qed.

Lemma areas_stack e f f' : f_stack f' = f_stack f → areas e f' = areas e f.
Proof. intros E. unfold areas, item. by rewrite E. Qed.

(** What is left of the gas, and what a call can bring back. *)
Lemma paid_gas q opcode o size f f2 :
  safe_entry rules opcode o → paid q o size (set_Gas (f_Gas f - constantGas o) f) f2 →
  0 <= extra (op_execute o) f2 ∧ f_Gas f2 + extra (op_execute o) f2 <= f_Gas f - constantGas o ∧
  (halts o = false → reverts o = false → f_Gas f2 + extra (op_execute o) f2 < f_Gas f).
Proof.
  intros Hs [_ _ _ H1 H2 H3 _]. cbn in H1, H3. pose proof (se_spawning _ _ _ Hs) as Hsp. pose proof (se_least _ _ _ Hs) as Hl.
  assert (0 <= least o) by (unfold least; destruct (dynamicGas o); [apply minimum_nonneg | lia]).
  destruct (calls (op_execute o)) eqn:Ec.
  - specialize (H2 eq_refl). specialize (H3 eq_refl). assert (1 <= constantGas o) by (apply Hsp; by destruct (op_execute o)).
    split; [| lia]. destruct (op_execute o); try discriminate Ec; cbn in *; try destruct (_ =? 0); lia.
  - assert (extra (op_execute o) f2 = 0) as -> by by destruct (op_execute o). split; [lia |]. split; [lia |]. intros. specialize (Hl ltac:(done) ltac:(done)). lia.
Qed.

(** An operation that is paid is ready once the memory has its size. *)
Lemma paid_ready opcode o size f f2 store :
  let q := quiet rules (readOnly (f_evm f)) in
  let f1 := set_Gas (f_Gas f - constantGas o) f in
  safe_entry rules opcode o → frame_ok f → f_Gas f <= bound → (op_execute o ≠ OpStop → pc f < len (c_Code c)) →
  (pops (op_execute o) <= length (f_stack f))%nat →
  (length (f_stack f) + pushes (op_execute o) <= 1024 + pops (op_execute o))%nat →
  (q = true → writes o = false) → (q = true → op_execute o = OpCall → item 2 f = 0) →
  constantGas o <= f_Gas f → size mod 32 = 0 → 0 <= size →
  (∀ store, size <= len store → Forall (fits store) (areas (op_execute o) f1)) →
  paid q o size f1 f2 → len store = Z.max (len (f_store f2)) size → ready q o f (set_store store f2).
Proof.
  intros q f1 Hs [Hw Hlim [P1 P2 P3] Hg Hpc Hev Hself] Hb Hcode Hpops Hpush Hwr Hval Hc0 Hm H0 Hfit Hpaid Hstore.
  destruct (paid_gas _ _ _ _ _ _ Hs Hpaid) as (G1 & G2 & G3). destruct Hpaid as [Hk Hmax Hprice _ Htemp _ Hcallee].
  assert (Hk0 : kept q f f1) by (apply kept_pays; pose proof (se_constant _ _ _ Hs); lia).
  pose proof (kept_trans _ _ _ _ _ _ Hk0 Hk) as Hk2. pose proof (kept_left _ _ _ Hev Hk2) as Hlb. pose proof (left_ok _ _ _ Hev Hlb) as Hev2.
  destruct Hk2 as [K1 K2 K3 K4 K5 K6 K7 K8]. assert (Hst : f_store f2 = f_store f) by done. rewrite Hst in Hstore.
  pose proof (se_constant _ _ _ Hs). assert (Hself2 : IsBerlin rules = true → accessed (c_self c) (frame_state f2)).
  { intros HB. eapply evm_effects_accessed; [exact K8 | apply Hev | by apply Hself]. }
  assert (Ha : areas (op_execute o) (set_store store f2) = areas (op_execute o) f1) by by apply areas_stack.
  assert (Hx : extra (op_execute o) (set_store store f2) = extra (op_execute o) f2) by done.
  split; rewrite ?Hx; cbn [f_stack f_Gas f_evm f_store set_store]; try done; [| | | | lia | by rewrite K2 | lia].
  - split; rewrite ?Hx, ?Ha; cbn [f_stack f_Gas f_evm f_store pc set_store]; try done; [by rewrite K2 | by rewrite K2 | | | lia | lia | by rewrite K1 | by rewrite K1].
    + apply Hfit. lia.
    + rewrite Hstore. lia.
  - intros Hsp. pose proof (se_spawning _ _ _ Hs Hsp). split; rewrite ?Hx; try done; [cbn; lia | cbn; by rewrite K6 | |].
    + intros Hq Eo. unfold item. cbn. rewrite K2. by apply Hval.
    + intros HB Ho. apply Hcallee; [by destruct Ho as [-> | ->] | done].
  - intros Hmod. apply negb_true_iff. destruct q; [| done]. apply (se_writes _ _ _ Hs) in Hmod. by rewrite Hwr in Hmod.
  - split; cbn; rewrite Hstore; [by apply (Z.max_case_strong _ _ (λ n, n mod 32 = 0)) | lia |]. by rewrite Hprice.
Qed.

Lemma op_in_code f o : safe_entry rules (GetOp c (pc f)) o → op_execute o ≠ OpStop → pc f < len (c_Code c).
Proof.
  intros Hs Ho. apply (se_stop _ _ _ Hs) in Ho. unfold GetByte in Ho. by destruct (Z.ltb_spec (pc f) (len (c_Code c))).
Qed.

(** What the preparation of an iteration gives. *)
Definition prepare_post (f : Frame) (r : outcome operation) (f' : Frame) : Prop :=
  match r with
  | Ok o => (∃ opcode, safe_entry rules opcode o) ∧ ready (quiet rules (readOnly (f_evm f))) o f f'
  | Err e => step_post f (Err e) f'
  | Panic m => m = refund_panic
  end.

Lemma prepare_safe f : frame_ok f → f_Gas f <= bound → wp (prepare Keccak256 rules c) (prepare_post f) f.
Proof.
  intros Hf Hb. pose proof (fo_evm _ Hf) as Hev. set (q := quiet rules (readOnly (f_evm f))).
  assert (Hsame : ∀ e, step_post f (Err e) f) by (intros e; split; [pose proof (fo_gas _ Hf); lia | by apply left_refl]).
  unfold prepare. wp_steps. destruct (instruction_set rules !! GetOp c (pc f)) as [o |] eqn:Eo; [| wp_steps; apply Hsame].
  pose proof (entry_safe _ _ _ Hrules Eo) as Hs. pose proof (op_in_code _ _ Hs) as Hcode. pose proof (se_constant _ _ _ Hs).
  wp_step. eapply check_stack_spec; [done | intros e; wp_steps; apply Hsame |]. intros Hpops Hpush. wp_steps.
  eapply check_write_spec; [done | done | intros e; wp_steps; apply Hsame |]. intros Hwr Hval. wp_steps.
  apply pay_spec; [intros e; wp_steps; apply Hsame |]. intros Hconst. wp_steps. set (f1 := set_Gas (f_Gas f - constantGas o) f).
  assert (Hk1 : kept q f f1) by (apply kept_pays; lia).
  eapply memory_size_spec; [done | done | intros e; wp_steps; by apply fails_kept |]. intros size Hm H0 Hnone Hfit. wp_steps.
  eapply wp_mono.
  { eapply (pay_dynamic_spec q); [done | | done | done | done | apply Hev | apply Hf]. split; [by destruct (fo_priced _ Hf) | done | done |].
    pose proof (fo_gas _ Hf). cbn. lia. }
  intros [[] | e | m] f2 H2; wp_steps; [| apply fails_kept; [done | by eapply kept_trans] | done].
  apply resize_spec; [done |]. intros store Hstore. wp_steps. split; [by eexists | by eapply paid_ready].
Qed.

Lemma step_safe f :
  frame_ok f → f_Gas f <= bound →
  wp (step Keccak256 ContractCode rules ctx precompiles run c input) (step_post f) f.
Proof.
  intros Hf Hb. unfold step. wp_step. eapply wp_mono; [by apply prepare_safe |]. intros [o | e | m] f' Hp; wp_step; try done.
  destruct Hp as [[opcode Hs] Hr]. eapply ready_finish; [done | apply Hf | done].
Qed.

End Iteration.

End Step.

(** ** Runs *)

(** What the interpreter relies on of the precompiled contracts. *)
Class SafePrecompiles (precompiles : gmap address PrecompiledContract) : Prop := {
  precompile_safe : ∀ a p input, precompiles !! a = Some p → small input →
    ∃ gas, RequiredGas p input = Ok gas ∧ 0 <= gas ∧
      (gas < max_gas → match precompile_Run p input with Ok ret => small ret | Err _ => True | Panic _ => False end);
}.

Section Runs.
  Context (Keccak256 : list byte → list byte) (ContractCode : list byte → list byte).
  Context (rules : Rules) (ctx : BlockContext) (precompiles : gmap address PrecompiledContract).
  Context (env : environment Keccak256 ctx) (Hrules : ordered rules) `{!SafePrecompiles precompiles}.

Abbreviation evm_ok := (evm_ok Keccak256 ContractCode).
Abbreviation left_behind := (left_behind Keccak256 ContractCode).
Abbreviation frame_ok := (frame_ok Keccak256 ContractCode rules).
Abbreviation result_post := (result_post Keccak256 ContractCode).
Abbreviation loop := (loop Keccak256 ContractCode rules ctx precompiles).
Abbreviation run := (run Keccak256 ContractCode rules ctx precompiles).
Abbreviation run_contract := (run_contract precompiles).
Abbreviation accessed a s := (a ∈ dom (al_addresses (access s))).

Definition loop_post (f : Frame) (r : outcome (list byte * option error)) (f' : Frame) : Prop :=
  match r with
  | Ok (ret, _) =>
      0 <= f_Gas f' <= f_Gas f ∧ small ret ∧ left_behind (quiet rules (readOnly (f_evm f))) (f_evm f) (f_evm f')
  | Err _ => False
  | Panic m => m = refund_panic
  end.

(** The loop of frames with less gas than [bound]. *)
Definition loop_safe (bound : Z) (loop : Contract → list byte → exec (list byte * option error)) : Prop :=
  ∀ c input f, contract_ok c → small input → frame_ok c f → f_Gas f < bound → wp (loop c input) (loop_post f) f.

Lemma RunPrecompiledContract_safe p a input c q e :
  precompiles !! a = Some p → small input → evm_ok e → 0 <= c_Gas c < max_gas →
  result_post (c_Gas c) q e (RunPrecompiledContract p input c e).
Proof.
  intros Hp Hi He Hg. destruct (precompile_safe a p input Hp Hi) as (gas & Eg & H0 & Hr).
  pose proof (left_refl Keccak256 ContractCode q e He) as Hl. unfold RunPrecompiledContract. rewrite Eg. cbn.
  destruct (Z.ltb_spec (c_Gas c) gas); [split; [lia | by split] |].
  specialize (Hr ltac:(lia)). destruct (precompile_Run p input); [split; [lia | by split].. | done].
Qed.

(** The frame in which a contract starts. *)
Lemma start_ok c e :
  evm_ok e → 0 <= c_Gas c < max_gas → (IsBerlin rules = true → accessed (c_self c) (evm_StateDB e)) →
  frame_ok c {| pc := 0; f_stack := []; f_store := []; lastGasCost := 0; f_Gas := c_Gas c; f_evm := e |}.
Proof. intros He Hg Ha. split; try done; cbn; lia. Qed.

Lemma Run_safe bound loop c input ro e :
  loop_safe bound loop → contract_ok c → small input → evm_ok e → 0 <= c_Gas c < bound → c_Gas c < max_gas →
  (IsBerlin rules = true → accessed (c_self c) (evm_StateDB e)) →
  result_post (c_Gas c) (quiet rules (ro || readOnly e)) e (Run loop c input ro e).
Proof.
  intros Hloop Hc Hi [Hs Hw Hr] Hg Hg' Ha. unfold Run. set (sets := ro && negb (readOnly e)).
  set (e1 := set_returnData [] _). assert (He1 : evm_ok e1) by (subst e1; destruct sets; by split).
  assert (Hro : readOnly e1 = ro || readOnly e) by (subst e1 sets; by destruct ro, (readOnly e) eqn:E; cbn).
  assert (Hst : evm_StateDB e1 = evm_StateDB e ∧ depth e1 = depth e + 1) by (subst e1; by destruct sets). destruct Hst as [Hst Hd].
  assert (Hleave : ∀ q e', left_behind q e1 e' →
    left_behind q e (set_depth (depth e' - 1) (if sets then set_readOnly false e' else e'))).
  { intros q e' [L1 L2 L3 L4]. rewrite Hst in L4. rewrite Hd in L1. rewrite Hro in L2.
    subst sets. destruct ro, (readOnly e) eqn:E; split; cbn; first [done | lia | by rewrite L2, E]. }
  clearbody e1. destruct (c_Code c) as [| b code] eqn:Ec.
  - split; [lia |]. split; [done |]. apply Hleave. by apply left_refl.
  - assert (Hf : frame_ok c {| pc := 0; f_stack := []; f_store := []; lastGasCost := 0; f_Gas := c_Gas c; f_evm := e1 |})
      by (apply start_ok; [done | lia | by rewrite Hst]).
    pose proof (Hloop c input _ Hc Hi Hf ltac:(cbn; lia)) as H. unfold wp in H. rewrite <- Hro.
    destruct (loop c input _) as [[[ret err] | |] f']; [| done..]. destruct H as (H1 & H2 & H3). split; [done |]. split; [done |].
    by apply Hleave.
Qed.

Lemma run_contract_safe bound loop :
  loop_safe bound loop → run_safe Keccak256 ContractCode rules (run_contract loop) bound.
Proof.
  intros Hloop c input ro e Hc Hi He Hg Hg' Ha. unfold EvmInterpreter.run_contract.
  destruct (precompiles !! c_CodeAddr c) eqn:Ep; [eapply RunPrecompiledContract_safe; (done || lia) | by eapply Run_safe].
Qed.

(** As much fuel as gas is enough. *)
Lemma loop_terminates fuel : loop_safe (Z.of_nat fuel) (loop fuel).
Proof.
  induction fuel as [| fuel IH]; intros c input f Hc Hi Hf Hg; [pose proof (fo_gas _ _ _ _ _ Hf); lia |].
  pose proof (run_contract_safe _ _ IH) as Hrun.
  pose proof (step_safe _ _ _ _ _ precompiles _ input _ env Hc Hi Hrun Hrules f Hf ltac:(lia)) as Hstep.
  unfold wp in *. cbn [EvmInterpreter.loop]. destruct (step _ _ _ _ _ _ _ _ f) as [[[| res err] | err | m] f']; cbn in Hstep.
  - destruct Hstep as (H1 & H2 & H3). pose proof (IH c input f' Hc Hi H1 ltac:(lia)) as H. unfold wp in H.
    destruct (loop fuel c input f') as [[[ret err] | |] f'']; [| done..]. destruct H as (H4 & H5 & H6).
    pose proof (fo_gas _ _ _ _ _ H1). split; [lia |]. split; [done |]. rewrite (lb_readOnly _ _ _ _ _ H3) in H6. by eapply left_trans.
  - done.
  - destruct Hstep as [H1 H2]. split; [done | by split].
  - done.
Qed.

Lemma run_terminates fuel : run_safe Keccak256 ContractCode rules (run fuel) (Z.of_nat fuel).
Proof. apply run_contract_safe, loop_terminates. Qed.

End Runs.
