(* ===== verification/EvmPrecompilesFacts.v ===== *)
(** The precompiled contracts never panic for gas that can be paid, and compute
    modular powers and the compression function of BLAKE2b. *)

From S2P Require Import Prelude Rlp TxMeta Transaction BigFloat Fees StateDB EvmEffects EvmCommon EvmInterpreter.
From S2P Require Import EvmGasFacts EvmSafety EvmRun Sha256 Blake2b EvmPrecompiles.

(** ** Slices of the input *)

Lemma getData_Ok d start size :
  0 <= start → 0 <= size → Z.min start (len d) + size < 2 ^ 64 →
  getData d start size = Ok (RightPadBytes (take (Z.to_nat size) (drop (Z.to_nat start) d)) (to_int64 size)).
Proof.
  intros H0 H1 H2. unfold getData. cbv zeta. pose proof (len_nonneg d).
  set (s := if len d <? start then len d else start).
  assert (Hs : s = Z.min start (len d)) by (subst s; destruct (Z.ltb_spec (len d) start); lia).
  rewrite wrap_small by lia.
  assert (He : (if len d <? s + size then len d else s + size) = Z.min (s + size) (len d))
    by (destruct (Z.ltb_spec (len d) (s + size)); lia).
  rewrite He, slice_Ok by lia. cbn. f_equal. f_equal. rewrite Hs. unfold len.
  destruct (Z.min_spec start (Z.of_nat (length d))) as [[? ->] | [? ->]].
  - destruct (Z.min_spec (start + size) (Z.of_nat (length d))) as [[? ->] | [? ->]]; [f_equal; lia |].
    rewrite !take_ge; [done | |]; rewrite length_drop; lia.
  - rewrite !drop_ge by lia. by rewrite !take_nil.
Qed.

Lemma getData_len d start size :
  0 <= start → 0 <= size < 2 ^ 63 → small d → ∃ b, getData d start size = Ok b ∧ len b = size.
Proof.
  intros H0 H1 Hd. unfold small in Hd. rewrite getData_Ok by lia. eexists. split; [done |].
  rewrite to_int64_small by lia. apply len_RightPadBytes. unfold len. rewrite length_take. lia.
Qed.

(** A slice inside of the data. *)
Lemma getData_inside d l1 l2 l3 start size :
  d = l1 ++ l2 ++ l3 → start = len l1 → size = len l2 → small d → getData d start size = Ok l2.
Proof.
  intros -> -> -> Hs. unfold small in Hs. rewrite !len_app in Hs. pose proof (len_nonneg l1). pose proof (len_nonneg l2). pose proof (len_nonneg l3).
  rewrite getData_Ok by lia. rewrite to_int64_small by lia. unfold len. rewrite !Nat2Z.id, drop_app_length, take_app_length.
  f_equal. unfold RightPadBytes. by rewrite (proj2 (Z.leb_le _ _)) by (unfold len; lia).
Qed.

Lemma len_LeftPadBytes b l : len (LeftPadBytes b l) = Z.max l (len b).
Proof.
  unfold LeftPadBytes. destruct (Z.leb_spec l (len b)); [lia |]. rewrite len_app. unfold len in *. rewrite length_replicate. lia.
Qed.

Lemma LeftPadBytes_be n z : 0 <= z < 256 ^ Z.of_nat n → LeftPadBytes (big_Bytes z) (Z.of_nat n) = be n z.
Proof.
  intros Hz. pose proof (bytelen_bound z n Hz) as Hb.
  assert (H : LeftPadBytes (big_Bytes z) (Z.of_nat n) = replicate (n - bytelen z) Byte.x00 ++ big_Bytes z).
  { unfold LeftPadBytes. rewrite len_big_Bytes. destruct (Z.leb_spec (Z.of_nat n) (Z.of_nat (bytelen z))).
    - replace (n - bytelen z)%nat with 0%nat by lia. done.
    - f_equal. f_equal. lia. }
  rewrite H. apply be_val_inj.
  - rewrite length_app, length_replicate, length_big_Bytes, length_be. lia.
  - rewrite be_val_app, be_val_replicate_0, big_SetBytes_Bytes, be_val_be_small by lia. lia.
Qed.

(** ** Modular powers *)

Lemma pow_mod_spec b e m : 0 < m → pow_mod b e m = b ^ Zpos e mod m.
Proof.
  intros Hm. induction e as [e IH | e IH |]; cbn [pow_mod]; cbv zeta.
  - rewrite IH. replace (Zpos e~1) with (Zpos e + Zpos e + 1) by lia. rewrite !Z.pow_add_r, Z.pow_1_r by lia.
    rewrite <- Z.mul_mod_idemp_l by lia. rewrite <- Z.mul_mod by lia. by rewrite Z.mul_mod_idemp_l by lia.
  - rewrite IH. replace (Zpos e~0) with (Zpos e + Zpos e) by lia. rewrite Z.pow_add_r by lia. by rewrite <- Z.mul_mod by lia.
  - by rewrite Z.pow_1_r.
Qed.

Lemma big_Exp_spec x y m : 0 <= y → 0 < m → big_Exp x y m = x ^ y mod m.
Proof. intros Hy Hm. destruct y as [| e | e]; [done | by apply pow_mod_spec | lia]. Qed.

(** *** Gas bounds the lengths of the operands *)

Lemma complexity_lower x : 1 <= x → 1 <= modexpMultComplexity x ∧ x * x <= 16 * modexpMultComplexity x.
Proof.
  intros Hx. unfold modexpMultComplexity. pose proof (Z.div_mod (x * x) 4 ltac:(lia)). pose proof (Z.mod_pos_bound (x * x) 4 ltac:(lia)).
  pose proof (Z.div_mod (x * x) 16 ltac:(lia)). pose proof (Z.mod_pos_bound (x * x) 16 ltac:(lia)).
  destruct (Z.leb_spec x 64); [nia |]. destruct (Z.leb_spec x 1024); lia.
Qed.

(** The gas of lengths [x] and an adjusted exponent length [a], before it is cut to 64 bits. *)
Definition modexp_gas (eip2565 : bool) (x a : Z) : Z :=
  if eip2565 then (x + 7) / 8 * ((x + 7) / 8) * a / 3 else modexpMultComplexity x * a / 20.

Lemma div_lt_lower a b c : 0 < b → a / b < c → a < b * c.
Proof. intros Hb H. destruct (Z.lt_ge_cases a (b * c)) as [| Hge]; [done |]. apply Z.div_le_lower_bound in Hge; lia. Qed.

Lemma product_below c a k : 1 <= c → 1 <= a → c * a < k → c < k ∧ a < k.
Proof. nia. Qed.

Lemma modexp_gas_nonneg eip2565 x a : 0 <= x → 1 <= a → 0 <= modexp_gas eip2565 x a.
Proof.
  intros Hx Ha. unfold modexp_gas. destruct eip2565; apply Z.div_pos; try lia; [assert (0 <= (x + 7) / 8) by (apply Z.div_pos; lia); nia |].
  destruct (decide (x = 0)) as [-> |]; [done |]. destruct (complexity_lower x); nia.
Qed.

Lemma modexp_gas_bounds eip2565 x a : 1 <= x → 1 <= a → modexp_gas eip2565 x a < 2 ^ 62 → x < 2 ^ 36 ∧ a < 20 * 2 ^ 62.
Proof.
  intros Hx Ha Hg. unfold modexp_gas in Hg. destruct eip2565; apply div_lt_lower in Hg; [| lia | | lia].
  - assert (H8 : 1 <= (x + 7) / 8) by (apply Z.div_le_lower_bound; lia).
    apply product_below in Hg as [H1 H2]; [| nia | done]. assert ((x + 7) / 8 < 2 ^ 32) by nia.
    assert (Hd : x + 7 < 8 * 2 ^ 32) by (apply div_lt_lower; lia). lia.
  - destruct (complexity_lower x Hx). apply product_below in Hg as [H1 H2]; [| done | done]. split; [nia | lia].
Qed.

(** The three lengths at the start of the input. *)
Definition operand_length (input : list byte) (i : Z) : Z :=
  be_val (RightPadBytes (take 32 (drop (Z.to_nat i) input)) 32).

Lemma operand_length_Ok input i :
  0 <= i → small input → getData input i 32 = Ok (RightPadBytes (take 32 (drop (Z.to_nat i) input)) 32).
Proof. intros Hi Hs. unfold small in Hs. by rewrite getData_Ok by lia. Qed.

Lemma operand_length_nonneg input i : 0 <= operand_length input i.
Proof. apply be_val_range. Qed.

Lemma small_after input : small input → small (after_lengths input).
Proof. unfold small, after_lengths, len. intros Hs. case_match; [rewrite length_drop; lia | cbn; lia]. Qed.

Lemma uint64_of_gas g : 0 <= g → BitLen g <= 64 → big_Uint64 g = g.
Proof.
  intros H0 Hb. apply big_Uint64_small. split; [done |]. destruct (Z.lt_ge_cases g (2 ^ 64)) as [| Hge]; [done |].
  pose proof (BitLen_gt 64 g ltac:(lia) Hge). lia.
Qed.

Lemma bigModExp_gas eip2565 input :
  small input →
  let x := Z.max (operand_length input 64) (operand_length input 0) in
  ∃ gas, bigModExp_RequiredGas eip2565 input = Ok gas ∧ 0 <= gas ∧
    (gas < max_gas → 0 < x → x < 2 ^ 36 ∧ operand_length input 32 < 3 * 2 ^ 62).
Proof.
  intros Hs x. unfold bigModExp_RequiredGas.
  rewrite (operand_length_Ok input 0 ltac:(lia) Hs), (operand_length_Ok input 32 ltac:(lia) Hs), (operand_length_Ok input 64 ltac:(lia) Hs).
  unfold fmap, outcome_fmap. cbn [mbind outcome_bind mret outcome_ret].
  fold (operand_length input 0) (operand_length input 32) (operand_length input 64).
  pose proof (operand_length_nonneg input 0). pose proof (operand_length_nonneg input 32). pose proof (operand_length_nonneg input 64).
  set (bl := operand_length input 0) in *. set (el := operand_length input 32) in *. set (ml := operand_length input 64) in *.
  apply small_after in Hs. set (rest := after_lengths input) in *. clearbody bl el ml rest.
  assert (Hh : ∃ h, 0 <= h ∧ (if len rest <=? bl then Ok 0 else if 32 <? el then be_val <$> getData rest (big_Uint64 bl) 32
    else be_val <$> getData rest (big_Uint64 bl) (big_Uint64 el)) = Ok h).
  { assert (Hz : 0 <= big_Uint64 bl) by (apply wrap_range; lia).
    destruct (len rest <=? bl); [by exists 0 |]. destruct (Z.ltb_spec 32 el).
    - destruct (getData_len rest (big_Uint64 bl) 32 Hz ltac:(lia) Hs) as (b & -> & _). exists (be_val b). split; [apply be_val_range | done].
    - destruct (getData_len rest (big_Uint64 bl) (big_Uint64 el) Hz) as (b & -> & _); [rewrite big_Uint64_small by lia; lia | done |].
      exists (be_val b). split; [apply be_val_range | done]. }
  destruct Hh as (h & Hh & Eh). unfold fmap, outcome_fmap in Eh. rewrite Eh. cbn [mbind outcome_bind]. clear Eh.
  set (msb := if 0 <? BitLen h then BitLen h - 1 else 0).
  assert (Hmsb : 0 <= msb) by (subst msb; destruct (Z.ltb_spec 0 (BitLen h)); lia). clearbody msb.
  set (adj := (if 32 <? el then 8 * (el - 32) else 0) + msb).
  assert (Hadj : el < 3 * 2 ^ 62 ∨ 20 * 2 ^ 62 <= adj) by (subst adj; destruct (Z.ltb_spec 32 el); lia). clearbody adj.
  fold x. set (g := modexp_gas eip2565 x (Z.max adj 1)).
  assert (Hg : 0 <= g) by (apply modexp_gas_nonneg; lia).
  assert (Hb : g < 2 ^ 62 → 0 < x → x < 2 ^ 36 ∧ el < 3 * 2 ^ 62).
  { intros Hl Hx. destruct (modexp_gas_bounds eip2565 x (Z.max adj 1)); [lia | lia | done |]. lia. }
  destruct eip2565; cbn [modexp_gas] in g; fold g; (destruct (Z.ltb_spec 64 (BitLen g)) as [| Hl];
    [exists max_uint64; unfold max_uint64; split; [done | split; [lia | lia]] |]); rewrite uint64_of_gas by done.
  - destruct (Z.ltb_spec g 200); eexists; (split; [done |]); split; [lia | intros; apply Hb; lia | lia | done].
  - eexists. split; [done |]. by split.
Qed.

(** The result of [Run] when the lengths are bounded. *)
Lemma bigModExp_Run_safe input :
  small input →
  (0 < Z.max (operand_length input 64) (operand_length input 0) →
     Z.max (operand_length input 64) (operand_length input 0) < 2 ^ 36 ∧ operand_length input 32 < 3 * 2 ^ 62) →
  match bigModExp_Run input with Ok ret => small ret | Err _ => False | Panic _ => False end.
Proof.
  intros Hs Hb. unfold bigModExp_Run.
  rewrite (operand_length_Ok input 0 ltac:(lia) Hs), (operand_length_Ok input 32 ltac:(lia) Hs), (operand_length_Ok input 64 ltac:(lia) Hs).
  unfold fmap, outcome_fmap. cbn [mbind outcome_bind mret outcome_ret].
  fold (operand_length input 0) (operand_length input 32) (operand_length input 64).
  pose proof (operand_length_nonneg input 0). pose proof (operand_length_nonneg input 32). pose proof (operand_length_nonneg input 64).
  set (bl := operand_length input 0) in *. set (el := operand_length input 32) in *. set (ml := operand_length input 64) in *.
  apply small_after in Hs. set (rest := after_lengths input) in *. clearbody bl el ml rest.
  destruct (Z.eqb_spec (big_Uint64 bl) 0) as [Hbl |]; [destruct (Z.eqb_spec (big_Uint64 ml) 0) as [Hml |] |]; cbn [andb]; [done | |].
  all: assert (Hx : 0 < Z.max ml bl) by (destruct (Z.lt_ge_cases 0 (Z.max ml bl)); [done |]; replace bl with 0 in * by lia; replace ml with 0 in * by lia; done).
  all: destruct (Hb Hx) as [Hx1 Hx2]; rewrite !big_Uint64_small by lia; rewrite wrap_small by lia; unfold small in Hs; pose proof (len_nonneg rest).
  all: rewrite (getData_Ok rest 0 bl), (getData_Ok rest bl el) by lia.
  all: destruct (getData_len rest (bl + el) ml) as (mb & -> & Hmb); [lia | lia | done |].
  all: cbn [mbind outcome_bind mret outcome_ret]; rewrite (to_int64_small ml) by lia; pose proof (be_val_range mb) as Hr.
  all: destruct (BitLen (be_val mb) =? 0) eqn:E0; unfold mret, outcome_ret, small; rewrite len_LeftPadBytes; [rewrite len_nil; lia |].
  all: assert (Hm : be_val mb ≠ 0) by (intros E; by rewrite E in E0); rewrite big_Exp_spec by (try apply be_val_range; lia).
  all: match goal with |- context [?a ^ ?b mod ?c] => pose proof (Z.mod_pos_bound (a ^ b) c ltac:(lia)) as Hp; set (r := a ^ b mod c) in * end.
  all: pose proof (bytelen_bound r (length mb) ltac:(lia)); rewrite len_big_Bytes; unfold len in Hmb; lia.
Qed.

(** ** No contract panics *)

Definition safe_contract (p : PrecompiledContract) : Prop :=
  ∀ input, small input → ∃ gas, RequiredGas p input = Ok gas ∧ 0 <= gas ∧
    (gas < max_gas → match precompile_Run p input with Ok ret => small ret | Err _ => True | Panic _ => False end).

Lemma gas_per_word_safe perWord base input : ∃ gas, gas_per_word perWord base input = Ok gas ∧ 0 <= gas.
Proof. eexists. split; [done |]. apply wrap_range. lia. Qed.

Lemma bigModExp_safe eip2565 : safe_contract (bigModExp eip2565).
Proof.
  intros input Hs. destruct (bigModExp_gas eip2565 input Hs) as (gas & Eg & H0 & Hb). exists gas. split; [done |]. split; [done |].
  intros Hg. pose proof (bigModExp_Run_safe input Hs (Hb Hg)) as H. cbn. by destruct (bigModExp_Run input).
Qed.

Lemma small_short (l : list byte) : (length l <= 1000)%nat → small l.
Proof. unfold small, len. lia. Qed.

Lemma length_concat_words l : length (concat (le 8 <$> l)) = (8 * length l)%nat.
Proof. induction l as [| z l IH]; [done |]. rewrite fmap_cons. cbn [concat length]. rewrite length_app, length_le, IH. lia. Qed.

Lemma length_F h m c0 c1 f n : length (Blake2b.F h m c0 c1 f n) = length h.
Proof. unfold Blake2b.F, fGeneric, finalize. by rewrite length_imap. Qed.

Lemma byte_at_Ok b n : (n < length b)%nat → ∃ x, byte_at b n = Ok x ∧ 0 <= x < 256.
Proof. intros Hn. unfold byte_at. destruct (lookup_lt_is_Some_2 b n Hn) as [x ->]. exists (b2z x). split; [done | apply b2z_range]. Qed.

Lemma blake2F_safe : safe_contract blake2F.
Proof.
  intros input Hs. cbn. unfold blake2F_RequiredGas, blake2F_Run. destruct (Z.eqb_spec (len input) 213) as [E |]; cbn [negb].
  2: { exists 0. split; [done |]. split; [lia | done]. }
  rewrite !slice_Ok by lia. unfold fmap at 1, outcome_fmap. cbn [mbind outcome_bind mret outcome_ret]. eexists. split; [done |].
  split; [apply be_val_range |]. intros _. destruct (byte_at_Ok input 212) as (flag & -> & _); [unfold len in E; lia |].
  cbn [mbind outcome_bind]. destruct (_ && _); [done |]. cbn [mbind outcome_bind fmap outcome_fmap mret outcome_ret].
  apply small_short. rewrite length_concat_words, length_F. unfold words_at. rewrite length_fmap, length_pieces. lia.
Qed.

Section Safe.
  Context (Keccak256 : list byte → list byte) (Ecrecover : list byte → list byte → outcome (list byte)).
  Context (ripemd160 : list byte → list byte) `{BN : Bn256}.

(** What is documented of the parameters: the lengths of hashes, keys and
    points, and that malformed signatures and points are errors. *)
Class CryptoLaws : Prop := {
  Keccak256_length : ∀ d, length (Keccak256 d) = 32%nat;
  Ecrecover_key : ∀ h sig, length h = 32%nat → length sig = 65%nat →
    match Ecrecover h sig with Ok pub => length pub = 65%nat | Err _ => True | Panic _ => False end;
  ripemd160_length : ∀ d, length (ripemd160 d) = 20%nat;
  G1_Unmarshal_total : ∀ b, length b = 64%nat → match G1_Unmarshal b with Panic _ => False | _ => True end;
  G2_Unmarshal_total : ∀ b, length b = 128%nat → match G2_Unmarshal b with Panic _ => False | _ => True end;
  G1_Marshal_length : ∀ p, length (G1_Marshal p) = 64%nat;
}.

Context {CL : CryptoLaws}.

Lemma ecrecover_safe : safe_contract (ecrecover Keccak256 Ecrecover).
Proof.
  intros input Hs. exists 3000. split; [done |]. split; [lia |]. intros _. cbn. unfold ecrecover_Run.
  set (i := RightPadBytes input 128). assert (Hi : 128 <= len i).
  { subst i. unfold RightPadBytes. destruct (Z.leb_spec 128 (len input)); [done |]. rewrite len_app. unfold len. rewrite length_replicate. lia. }
  clearbody i. rewrite !slice_Ok by lia. destruct (byte_at_Ok i 63) as (v & -> & _); [unfold len in Hi; lia |].
  cbn [mbind outcome_bind fmap outcome_fmap mret outcome_ret]. destruct (_ || _); [done |]. cbn [mbind outcome_bind].
  pose proof (Ecrecover_key (take (Z.to_nat (32 - 0)) (drop (Z.to_nat 0) i)) (take (Z.to_nat (128 - 64)) (drop (Z.to_nat 64) i) ++ [z2b (u8 (v - 27))])) as Hk.
  rewrite length_app, !length_take, !length_drop in Hk. unfold len in Hi. cbn [length] in Hk. specialize (Hk ltac:(lia) ltac:(lia)).
  destruct (Ecrecover _ _) as [pub | |]; [| done | done]. rewrite slice_Ok by (unfold len; lia). cbn [mbind outcome_bind].
  rewrite slice_Ok by (unfold len; rewrite ?Keccak256_length; lia). cbn [mbind outcome_bind].
  unfold mret, outcome_ret, small. rewrite len_LeftPadBytes. unfold len. rewrite length_take, length_drop, Keccak256_length. lia.
Qed.

Lemma getData_point input start size :
  small input → 0 <= start → 0 <= size <= 1000 → ∃ b, getData input start size = Ok b ∧ length b = Z.to_nat size.
Proof.
  intros Hs Hst Hsz. destruct (getData_len input start size) as (b & E & Hb); [done | lia | done |]. exists b. split; [done |].
  unfold len in Hb. lia.
Qed.

Lemma marshalled_small p : small (G1_Marshal p).
Proof. apply small_short. rewrite G1_Marshal_length. lia. Qed.

Lemma bn256Add_safe gas : 0 <= gas → safe_contract (bn256Add gas).
Proof.
  intros Hg input Hs. exists gas. split; [done |]. split; [done |]. intros _. cbn. unfold runBn256Add.
  destruct (getData_point input 0 64) as (b1 & -> & L1); [done | lia | lia |]. cbn [mbind outcome_bind].
  pose proof (G1_Unmarshal_total b1 L1). destruct (G1_Unmarshal b1); [cbn [mbind outcome_bind] | done | done].
  destruct (getData_point input 64 64) as (b2 & -> & L2); [done | lia | lia |]. cbn [mbind outcome_bind].
  pose proof (G1_Unmarshal_total b2 L2). destruct (G1_Unmarshal b2); [apply marshalled_small | done | done].
Qed.

Lemma bn256ScalarMul_safe gas : 0 <= gas → safe_contract (bn256ScalarMul gas).
Proof.
  intros Hg input Hs. exists gas. split; [done |]. split; [done |]. intros _. cbn. unfold runBn256ScalarMul.
  destruct (getData_point input 0 64) as (b1 & -> & L1); [done | lia | lia |]. cbn [mbind outcome_bind].
  pose proof (G1_Unmarshal_total b1 L1). destruct (G1_Unmarshal b1); [cbn [mbind outcome_bind] | done | done].
  destruct (getData_point input 64 32) as (b2 & -> & _); [done | lia | lia |]. apply marshalled_small.
Qed.

Lemma pieces_full {A} n count (l : list A) : (n * count <= length l)%nat → Forall (λ b, length b = n) (pieces n count l).
Proof.
  revert l. induction count as [| count IH]; intros l Hl; cbn; [done |]. constructor; [rewrite length_take; lia |].
  apply IH. rewrite length_drop. lia.
Qed.

Lemma pairing_points_total l :
  Forall (λ b, length b = 192%nat) l → match pairing_points l with Panic _ => False | _ => True end.
Proof.
  induction 1 as [| b l Hb _ IH]; [done |]. cbn [pairing_points]. rewrite !slice_Ok by (unfold len; lia). cbn [mbind outcome_bind].
  pose proof (G1_Unmarshal_total (take (Z.to_nat (64 - 0)) (drop (Z.to_nat 0) b))) as H1. rewrite length_take, length_drop in H1.
  specialize (H1 ltac:(lia)). destruct (G1_Unmarshal _); [cbn [mbind outcome_bind] | done | done].
  pose proof (G2_Unmarshal_total (take (Z.to_nat (192 - 64)) (drop (Z.to_nat 64) b))) as H2. rewrite length_take, length_drop in H2.
  specialize (H2 ltac:(lia)). destruct (G2_Unmarshal _); [cbn [mbind outcome_bind] | done | done].
  by destruct (pairing_points l) as [[cs ts] | |].
Qed.

Lemma bn256Pairing_safe base perPoint : safe_contract (bn256Pairing base perPoint).
Proof.
  intros input Hs. eexists. split; [done |]. split; [apply wrap_range; lia |]. intros _. cbn. unfold runBn256Pairing.
  destruct (0 <? _); [done |]. pose proof (pairing_points_total (pieces 192 (length input / 192) input)) as Hp.
  specialize (Hp (pieces_full _ _ _ (Nat.Div0.mul_div_le _ _))).
  destruct (pairing_points _) as [[cs ts] | |]; cbn [mbind outcome_bind]; [| done | done].
  apply small_short. rewrite length_be. lia.
Qed.

Lemma homestead_safe : Forall safe_contract (homestead_contracts Keccak256 Ecrecover ripemd160).
Proof.
  repeat constructor; [apply ecrecover_safe | ..]; intros input Hs; cbn [RequiredGas precompile_Run sha256hash ripemd160hash dataCopy];
    (destruct (gas_per_word_safe 12 60 input) as (g1 & E1 & H1); destruct (gas_per_word_safe 120 600 input) as (g2 & E2 & H2);
     destruct (gas_per_word_safe 3 15 input) as (g3 & E3 & H3)).
  - exists g1. split; [done |]. split; [done |]. intros _. apply small_short. rewrite length_Sum256. lia.
  - exists g2. split; [done |]. split; [done |]. intros _. unfold small. rewrite len_LeftPadBytes. unfold len. rewrite ripemd160_length. lia.
  - exists g3. done.
Qed.

Lemma table_safe l : Forall safe_contract l → SafePrecompiles (table_of l).
Proof.
  intros Hl. split. intros a p input Hp. apply elem_of_list_to_map_2 in Hp. apply elem_of_lookup_imap in Hp as (i & q & [= -> ->] & Hq).
  rewrite Forall_lookup in Hl. exact (Hl _ _ Hq input).
Qed.

#[export] Instance precompiles_safe rules : SafePrecompiles (precompiles_of Keccak256 Ecrecover ripemd160 rules).
Proof.
  pose proof homestead_safe as Hh. unfold precompiles_of, PrecompiledContractsBerlin, PrecompiledContractsIstanbul, PrecompiledContractsByzantium,
    PrecompiledContractsHomestead, istanbul_contracts.
  repeat case_match; apply table_safe; [apply Forall_app; split; [done |] .. | done];
    repeat constructor; first [apply bigModExp_safe | apply bn256Add_safe; lia | apply bn256ScalarMul_safe; lia | apply bn256Pairing_safe | apply blake2F_safe].
Qed.

End Safe.

(** ** Modular exponentiation and BLAKE2b *)

Lemma word_at_start d l1 n l3 start :
  d = l1 ++ be 32 n ++ l3 → start = len l1 → 0 <= n < 2 ^ 64 → small d →
  (λ b, big_Uint64 (be_val b)) <$> getData d start 32 = Ok n.
Proof.
  intros Hd Hst Hn Hs. rewrite (getData_inside d l1 (be 32 n) l3) by (try done; unfold len; by rewrite length_be).
  unfold fmap, outcome_fmap. cbn [mbind outcome_bind mret outcome_ret]. f_equal. rewrite be_val_be_small by lia. by apply big_Uint64_small.
Qed.

(** The operands after their lengths. *)
Lemma modexp_operands B E M rest :
  small (B ++ E ++ M ++ rest) →
  getData (B ++ E ++ M ++ rest) 0 (len B) = Ok B ∧ getData (B ++ E ++ M ++ rest) (len B) (len E) = Ok E ∧
  getData (B ++ E ++ M ++ rest) (len B + len E) (len M) = Ok M.
Proof.
  intros Hs. split; [by apply (getData_inside _ [] B (E ++ M ++ rest)) |]. split; [by apply (getData_inside _ B E (M ++ rest)) |].
  apply (getData_inside _ (B ++ E) M rest); [by rewrite <- app_assoc | by rewrite len_app | done | done].
Qed.

Lemma after_lengths_app l operands : length l = 96%nat → after_lengths (l ++ operands) = operands.
Proof.
  intros Hl. unfold after_lengths. rewrite drop_app_exact by done. rewrite len_app. unfold len. rewrite Hl.
  destruct (Z.ltb_spec 96 (Z.of_nat 96 + Z.of_nat (length operands))); [done |]. destruct operands; [done | cbn in *; lia].
Qed.

(** C31: The modular exponentiation contract computes what EIP-198 asks for: for the lengths of three
    operands and the operands, followed by anything, it returns base^exponent mod modulus with as
    many bytes as the modulus, and zero for a zero modulus. *)
Theorem bigModExp_correct B E M rest :
  small (be 32 (len B) ++ be 32 (len E) ++ be 32 (len M) ++ B ++ E ++ M ++ rest) →
  bigModExp_Run (be 32 (len B) ++ be 32 (len E) ++ be 32 (len M) ++ B ++ E ++ M ++ rest) =
    Ok (be (length M) (if be_val M =? 0 then 0 else be_val B ^ be_val E mod be_val M)).
Proof.
  intros Hs. assert (Hso : small (B ++ E ++ M ++ rest)) by (unfold small, len in *; rewrite !length_app in Hs; rewrite !length_app; lia).
  assert (Hlen : len B + len E < 2 ^ 62 ∧ len M < 2 ^ 62) by (unfold small, len in *; rewrite !length_app in Hso; lia).
  pose proof (len_nonneg B). pose proof (len_nonneg E). pose proof (len_nonneg M). unfold bigModExp_Run.
  rewrite (word_at_start _ [] (len B) (be 32 (len E) ++ be 32 (len M) ++ B ++ E ++ M ++ rest) 0) by (done || lia). cbn [mbind outcome_bind].
  rewrite (word_at_start _ (be 32 (len B)) (len E) (be 32 (len M) ++ B ++ E ++ M ++ rest) 32) by (done || lia). cbn [mbind outcome_bind].
  rewrite (word_at_start _ (be 32 (len B) ++ be 32 (len E)) (len M) (B ++ E ++ M ++ rest) 64) by (rewrite <- ?app_assoc; done || lia).
  cbn [mbind outcome_bind]. rewrite !app_assoc, <- (app_assoc _ B), <- (app_assoc _ (B ++ E)), <- (app_assoc _ ((B ++ E) ++ M)), after_lengths_app
    by (by rewrite !length_app, !length_be). rewrite <- !app_assoc.
  destruct (modexp_operands B E M rest Hso) as (EB & EE & EM). pose proof (be_val_range M) as Hr.
  destruct (Z.eqb_spec (len B) 0) as [ZB |]; [destruct (Z.eqb_spec (len M) 0) as [ZM |] |]; cbn [andb].
  { destruct M; [done | rewrite len_cons in ZM; unfold len in ZM; lia]. }
  all: rewrite wrap_small, EB, EE, EM by lia; unfold fmap, outcome_fmap, mret, outcome_ret; cbn [mbind outcome_bind].
  all: rewrite to_int64_small by lia; unfold len; destruct (Z.eqb_spec (be_val M) 0) as [Z0 | Hnz].
  1, 3: rewrite Z0; cbn [BitLen Z.eqb]; f_equal; apply (LeftPadBytes_be _ 0); split; [lia | apply Z.pow_pos_nonneg; lia].
  all: destruct (Z.eqb_spec (BitLen (be_val M)) 0) as [Hb |]; [pose proof (BitLen_gt 0 (be_val M)); lia |].
  all: f_equal; rewrite big_Exp_spec by (try apply be_val_range; lia); apply LeftPadBytes_be.
  all: match goal with |- context [?a mod ?c] => pose proof (Z.mod_pos_bound a c ltac:(lia)) end; lia.
Qed.

Lemma concat_words_pieces l rest : pieces 8 (length l) (concat (le 8 <$> l) ++ rest) = le 8 <$> l.
Proof.
  induction l as [| z l IH]; [done |]. rewrite fmap_cons. cbn [length concat pieces]. rewrite <- app_assoc.
  rewrite take_app_exact, drop_app_exact by (by rewrite length_le). by rewrite IH.
Qed.

Lemma words_at_app l1 l rest offset n :
  offset = length l1 → n = length l → Forall (λ z, is_u64 z) l → words_at (l1 ++ concat (le 8 <$> l) ++ rest) offset n = l.
Proof.
  intros -> -> Hl. unfold words_at. rewrite drop_app_length, concat_words_pieces, <- list_fmap_compose.
  rewrite <- (list_fmap_id l) at 2. apply list_fmap_ext. intros i z Hz. cbn [compose]. rewrite Forall_lookup in Hl.
  rewrite le_val_le. apply Z.mod_small. apply (Hl _ _ Hz).
Qed.

Lemma slice_is (d l1 l2 l3 : list byte) a b : d = l1 ++ l2 ++ l3 → a = len l1 → b = len l1 + len l2 → slice d a b = Ok l2.
Proof. intros ->. apply slice_app. Qed.

(** C30: The BLAKE2b contract computes what EIP-152 asks for: on the encoding of a number of rounds, a
    state, a message block, a counter and a flag it returns the encoding of the function F of RFC
    7693, for gas equal to the rounds; and it accepts no input of another length or with another
    flag. *)
Theorem blake2F_correct rounds h m t0 t1 (final : bool) :
  0 <= rounds < 2 ^ 32 → length h = 8%nat → length m = 16%nat → Forall (λ z, is_u64 z) (t0 :: t1 :: h ++ m) →
  let input := be 4 rounds ++ concat (le 8 <$> h) ++ concat (le 8 <$> m) ++ le 8 t0 ++ le 8 t1 ++ [if final then Byte.x01 else Byte.x00] in
  RequiredGas blake2F input = Ok rounds ∧
  precompile_Run blake2F input = Ok (concat (le 8 <$> RFC.F h m t0 t1 final (Z.to_nat rounds))) ∧
  ∀ other, is_Ok (precompile_Run blake2F other) = true → length other = 213%nat ∧ (other !! 212%nat = Some Byte.x00 ∨ other !! 212%nat = Some Byte.x01).
Proof.
  intros Hr Hh Hm Hw input. cbn [RequiredGas precompile_Run blake2F]. apply Forall_cons in Hw as [W0 [W1 Hw]%Forall_cons]. apply Forall_app in Hw as [Wh Wm].
  assert (Hlen : len input = 213) by (unfold len, input; rewrite !length_app, !length_concat_words, !length_le, length_be, Hh, Hm; done).
  assert (Er : slice input 0 4 = Ok (be 4 rounds)) by (eapply (slice_is _ []); [done | done |]; unfold len; by rewrite length_be).
  split; [| split].
  - unfold blake2F_RequiredGas. rewrite Hlen, Er. cbn [Z.eqb Pos.eqb negb]. unfold fmap, outcome_fmap. cbn [mbind outcome_bind mret outcome_ret].
    f_equal. by apply be_val_be_small.
  - unfold blake2F_Run. rewrite Hlen, Er. cbn [Z.eqb Pos.eqb negb].
    assert (Ef : byte_at input 212 = Ok (if final then 1 else 0)).
    { unfold byte_at, input. rewrite !app_assoc, lookup_app_r by (rewrite !length_app, !length_concat_words, !length_le, length_be; lia).
      rewrite !length_app, !length_concat_words, !length_le, length_be, Hh, Hm. by destruct final. }
    rewrite Ef. cbn [mbind outcome_bind]. replace (_ && _) with false by (by destruct final).
    unfold fmap, outcome_fmap. cbn [mbind outcome_bind mret outcome_ret].
    rewrite (slice_is input (be 4 rounds ++ concat (le 8 <$> h) ++ concat (le 8 <$> m)) (le 8 t0) (le 8 t1 ++ [if final then Byte.x01 else Byte.x00]) 196 204)
      by (unfold len, input; rewrite ?length_app, ?length_concat_words, ?length_le, ?length_be, ?Hh, ?Hm, <- ?app_assoc; done).
    rewrite (slice_is input (be 4 rounds ++ concat (le 8 <$> h) ++ concat (le 8 <$> m) ++ le 8 t0) (le 8 t1) [if final then Byte.x01 else Byte.x00] 204 212)
      by (unfold len, input; rewrite ?length_app, ?length_concat_words, ?length_le, ?length_be, ?Hh, ?Hm, <- ?app_assoc; done).
    unfold mret, outcome_ret. cbn [mbind outcome_bind]. rewrite F_correct.
    + unfold input at 1. rewrite words_at_app by (done || by rewrite ?length_be).
      unfold input. rewrite app_assoc, words_at_app by (done || by rewrite length_app, length_be, length_concat_words, Hh).
      rewrite !le_val_le, !Z.mod_small, be_val_be_small by done. by destruct final.
    + unfold words_at. by rewrite length_fmap, length_pieces.
  - intros other. unfold blake2F_Run. destruct (Z.eqb_spec (len other) 213) as [E |]; [cbn [negb] | done]. unfold byte_at.
    destruct (other !! 212%nat) as [b |] eqn:Eb; cbn [mbind outcome_bind]; [| done].
    intros Hok. split; [unfold len in E; lia |].
    destruct (Z.eqb_spec (b2z b) 0) as [E0 |]; [left; f_equal; by apply b2z_inj |].
    destruct (Z.eqb_spec (b2z b) 1) as [E1 |]; [right; f_equal; by apply b2z_inj | done].
Qed.
