(* ===== verification/EvmFuel.v ===== *)
(** The fuel of the interpreter does not matter: a run that does not run out of
    it gives the same with more. *)

From S2P Require Import Prelude Rlp TxMeta Transaction BigFloat Fees StateDB EvmCommon EvmCalls EvmGas EvmInstructions EvmJumpTable EvmInterpreter.

Definition out_of_fuel : string := "out of fuel".

(** A result is defined by more fuel. *)
Definition below {A} (r r' : outcome A) : Prop := r = Panic out_of_fuel ∨ r = r'.

Definition belows {S A} (m m' : st S A) : Prop := ∀ s, (m s).1 = Panic out_of_fuel ∨ m s = m' s.

Lemma below_refl {A} (r : outcome A) : below r r.
Proof. by right. Qed.

Lemma belows_refl {S A} (m : st S A) : belows m m.
Proof. by right. Qed.

Lemma below_bind {A B} (r r' : outcome A) (k k' : A → outcome B) :
  below r r' → (∀ x, below (k x) (k' x)) → below (r ≫= k) (r' ≫= k').
Proof. intros [-> | ->] Hk; [by left |]. destruct r' as [x | |]; [apply Hk | by right..]. Qed.

Lemma belows_bind {S A B} (m m' : st S A) (k k' : A → st S B) :
  belows m m' → (∀ x, belows (k x) (k' x)) → belows (m ≫= k) (m' ≫= k').
Proof.
  intros Hm Hk s. unfold mbind, st_bind. destruct (Hm s) as [E | E].
  - left. destruct (m s) as [r s']. cbn in E. by subst.
  - rewrite E. destruct (m' s) as [[x | |] s']; [apply Hk | by right..].
Qed.

Lemma belows_lift {S A} (r r' : outcome A) : below r r' → belows (S := S) (st_lift r) (st_lift r').
Proof. intros [-> | ->] s; [by left | by right]. Qed.

Lemma belows_catch {S A} (m m' : st S A) h : belows m m' → belows (st_catch m h) (st_catch m' h).
Proof.
  intros Hm s. unfold st_catch. destruct (Hm s) as [E | E]; [left | right; by rewrite E].
  destruct (m s) as [r s']. cbn in E. by subst.
Qed.

Section Monotone.
  Context (Keccak256 : list byte → list byte) (ContractCode : list byte → list byte).
  Context (rules : Rules) (ctx : BlockContext).

Definition runs_below (run run' : Contract → list byte → bool → EVM → outcome result) : Prop :=
  ∀ c input ro e, below (run c input ro e) (run' c input ro e).

Section Calls.
  Context (run run' : Contract → list byte → bool → EVM → outcome result) (Hrun : runs_below run run').

Lemma run_reverting_below snapshot c input ro e :
  below (run_reverting run snapshot c input ro e) (run_reverting run' snapshot c input ro e).
Proof. apply below_bind; [apply Hrun | intros; apply below_refl]. Qed.

(** Follows the branches of a call. *)
Ltac below_cases :=
  repeat match goal with
  | |- below (if ?b then _ else _) (if ?b then _ else _) => destruct b
  | |- below ?r ?r => apply below_refl
  | |- below (run_reverting _ _ _ _ _ _) _ => apply run_reverting_below
  | |- below (run _ _ _ _ ≫= _) _ => apply below_bind; [apply Hrun | intros [[[? ?] ?] ?]]
  end.

Lemma evm_Call_below precompiles noRec caller addr input gas value e :
  below (evm_Call Keccak256 ContractCode run rules precompiles noRec caller addr input gas value e)
        (evm_Call Keccak256 ContractCode run' rules precompiles noRec caller addr input gas value e).
Proof. unfold evm_Call, Snapshot. cbv zeta. below_cases. Qed.

Lemma evm_CallCode_below noRec caller addr input gas value e :
  below (evm_CallCode Keccak256 ContractCode run noRec caller addr input gas value e)
        (evm_CallCode Keccak256 ContractCode run' noRec caller addr input gas value e).
Proof. unfold evm_CallCode, Snapshot. cbv zeta. below_cases. Qed.

Lemma evm_DelegateCall_below noRec caller addr input gas e :
  below (evm_DelegateCall Keccak256 ContractCode run noRec caller addr input gas e)
        (evm_DelegateCall Keccak256 ContractCode run' noRec caller addr input gas e).
Proof. unfold evm_DelegateCall, Snapshot. cbv zeta. below_cases. Qed.

Lemma evm_StaticCall_below noRec caller addr input gas e :
  below (evm_StaticCall Keccak256 ContractCode run noRec caller addr input gas e)
        (evm_StaticCall Keccak256 ContractCode run' noRec caller addr input gas e).
Proof. unfold evm_StaticCall, Snapshot. cbv zeta. below_cases. Qed.

Lemma evm_create_below noRec caller code gas value addr e :
  below (evm_create Keccak256 ContractCode run rules noRec caller code gas value addr e)
        (evm_create Keccak256 ContractCode run' rules noRec caller code gas value addr e).
Proof. unfold evm_create, Snapshot. cbv zeta. below_cases. Qed.

(** Follows an instruction to the call that it makes. *)
Ltac belows_cases :=
  repeat lazymatch goal with
  | |- belows ?m ?m => apply belows_refl
  | |- belows (st_lift _) _ => apply belows_lift
  | |- below (evm_Call _ _ _ _ _ _ _ _ _ _ _ _) _ => apply evm_Call_below
  | |- below (evm_CallCode _ _ _ _ _ _ _ _ _ _) _ => apply evm_CallCode_below
  | |- below (evm_DelegateCall _ _ _ _ _ _ _ _ _) _ => apply evm_DelegateCall_below
  | |- below (evm_StaticCall _ _ _ _ _ _ _ _ _) _ => apply evm_StaticCall_below
  | |- below (evm_create _ _ _ _ _ _ _ _ _ _ _) _ => apply evm_create_below
  | |- belows (_ ≫= _) _ => apply belows_bind; [| intros ?]
  | |- belows (let '(_, _) := ?x in _) _ => destruct x
  end.

Lemma execute_below precompiles c input op :
  belows (execute_of Keccak256 ContractCode run rules precompiles ctx c input op)
         (execute_of Keccak256 ContractCode run' rules precompiles ctx c input op).
Proof.
  destruct op; cbn [execute_of];
    unfold opCreate, opCreate2, opCall, opCallCode, opDelegateCall, opStaticCall, evm_Create, evm_Create2; belows_cases.
Qed.

End Calls.

Lemma step_below precompiles run run' c input :
  runs_below run run' →
  belows (step Keccak256 ContractCode rules ctx precompiles run c input)
         (step Keccak256 ContractCode rules ctx precompiles run' c input).
Proof.
  intros Hrun. unfold step, attempt. apply belows_bind; [apply belows_refl |]. intros o. apply belows_bind; [| intros; apply belows_refl].
  apply belows_catch, belows_bind; [by apply execute_below | intros; apply belows_refl].
Qed.

Section Loops.
  Context (precompiles : gmap address PrecompiledContract).

Abbreviation loop := (loop Keccak256 ContractCode rules ctx precompiles).

Lemma Run_below (loop loop' : Contract → list byte → st Frame (list byte * option error)) :
  (∀ c input, belows (loop c input) (loop' c input)) →
  runs_below (run_contract precompiles loop) (run_contract precompiles loop').
Proof.
  intros Hl c input ro e. unfold run_contract. destruct (precompiles !! c_CodeAddr c); [by right |].
  unfold Run. destruct (c_Code c); [by right |].
  match goal with |- below (let '(_, _) := loop c input ?f in _) _ => destruct (Hl c input f) as [E | E]; [left | right; by rewrite E] end.
  destruct (loop c input _) as [r f']. cbn in E. by subst.
Qed.

Lemma loop_S n c input f :
  loop (S n) c input f =
    match step Keccak256 ContractCode rules ctx precompiles (run_contract precompiles (loop n)) c input f with
    | (Ok Continue, f) => loop n c input f
    | (Ok (Return res err), f) => (Ok (res, err), f)
    | (Err err, f) => (Ok ([], Some err), f)
    | (Panic m, f) => (Panic m, f)
    end.
Proof. done. Qed.

Lemma loop_below n : ∀ c input, belows (loop n c input) (loop (S n) c input).
Proof.
  induction n as [| n IH]; intros c input f; [by left |].
  pose proof (step_below precompiles _ _ c input (Run_below _ _ IH) f) as [E | E]; rewrite (loop_S n), (loop_S (S n)).
  - left. destruct (step _ _ _ _ _ _ _ _ f) as [r f']. cbn in E. by subst.
  - rewrite E. clear E. destruct (step _ _ _ _ _ _ _ _ f) as [[[| res err] | |] f']; [apply IH | by right..].
Qed.

Lemma loop_below_le n m : (n <= m)%nat → ∀ c input, belows (loop n c input) (loop m c input).
Proof.
  induction 1 as [| m Hle IH]; intros c input f; [by right |]. destruct (IH c input f) as [E | E]; [by left |].
  destruct (loop_below m c input f) as [E' | E']; [left | right]; congruence.
Qed.

Lemma run_below n m c input ro e :
  (n <= m)%nat → run Keccak256 ContractCode rules ctx precompiles n c input ro e ≠ Panic out_of_fuel →
  run Keccak256 ContractCode rules ctx precompiles n c input ro e = run Keccak256 ContractCode rules ctx precompiles m c input ro e.
Proof.
  intros Hle Hne. destruct (Run_below _ _ (loop_below_le n m Hle) c input ro e); [done |]. done.
Qed.

End Loops.

End Monotone.
