(* ===== verification/EvmTheorems.v ===== *)
(** What the EVM promises: contracts run to an end that their gas bounds, calls
    that fail leave no trace, static calls change nothing that a contract can
    read, and jumps land on instructions. *)

From S2P Require Import Prelude Rlp TxMeta Transaction BigFloat Fees StateDB StateDBFacts StateBalances EvmEffects EvmCommon.
From S2P Require Import EvmCalls EvmAnalysis EvmGas EvmInstructions EvmJumpTable EvmInterpreter EvmWords EvmGasFacts EvmSafety EvmRun EvmFuel.

Section Theorems.
  Context (Keccak256 : list byte → list byte) (ContractCode : list byte → list byte).
  Context (rules : Rules) (ctx : BlockContext) (precompiles : gmap address PrecompiledContract).

Abbreviation evm_ok := (evm_ok Keccak256 ContractCode).
Abbreviation run := (run Keccak256 ContractCode rules ctx precompiles).
Abbreviation accessed a s := (a ∈ dom (al_addresses (access s))).
#[local] Notation "s ≈ t" := (state_equiv Keccak256 ContractCode s t) (at level 70).

(** The hypotheses that all runs share. *)
Class Setting : Prop := {
  setting_environment : environment Keccak256 ctx;
  setting_ordered : ordered rules;
  setting_precompiles :: SafePrecompiles precompiles;
}.

Context `{!Setting}.

Lemma run_is_safe fuel : run_safe Keccak256 ContractCode rules (run fuel) (Z.of_nat fuel).
Proof. apply run_terminates; [apply setting_environment | apply setting_ordered | apply _]. Qed.

(** C1: The interpreter is total and safe. With any fuel above the gas of a contract, a run in a well-
    formed machine ends, and its result does not depend on the fuel. It never indexes outside of the
    stack, the memory, the code or the return data: the only panic is that of the refund counter.
    The gas left is at most the gas given, the call depth and the read-only flag are restored, and
    the machine is well-formed again. *)
Theorem run_total fuel c input ro e :
  contract_ok c → small input → evm_ok e → 0 <= c_Gas c < max_gas →
  (IsBerlin rules = true → accessed (c_self c) (evm_StateDB e)) → c_Gas c < Z.of_nat fuel →
  (∀ fuel', c_Gas c < Z.of_nat fuel' → run fuel' c input ro e = run fuel c input ro e) ∧
  match run fuel c input ro e with
  | Ok (ret, gas, err, e') =>
      0 <= gas <= c_Gas c ∧ small ret ∧ depth e' = depth e ∧ readOnly e' = readOnly e ∧ evm_ok e'
  | Err _ => False
  | Panic m => m = refund_panic
  end.
Proof.
  intros Hc Hi He Hg Ha Hfuel.
  assert (Hpost : ∀ n, c_Gas c < Z.of_nat n →
    result_post Keccak256 ContractCode (c_Gas c) (quiet rules (ro || readOnly e)) e (run n c input ro e))
    by (intros n Hn; apply run_is_safe; (done || lia)).
  assert (Hne : ∀ n, c_Gas c < Z.of_nat n → run n c input ro e ≠ Panic out_of_fuel)
    by (intros n Hn E; specialize (Hpost n Hn); by rewrite E in Hpost).
  split.
  - intros n Hn. destruct (Nat.le_ge_cases n fuel) as [Hle | Hle]; [| symmetry]; by apply run_below, Hne.
  - specialize (Hpost fuel Hfuel). destruct (run fuel c input ro e) as [[[[ret gas] err] e'] | |]; [| done..].
    destruct Hpost as (H1 & H2 & H3). split; [done |]. split; [done |]. split; [apply H3 |]. split; [apply H3 |]. eapply left_ok; [apply setting_environment | done | done].
Qed.

(** C20: One iteration of the interpreter keeps the type invariant of frames: the stack has at most 1024
    items, all of them 256-bit words, the memory has whole words, all of it has been paid at the
    quadratic price, and the gas strictly decreases whenever the iteration goes on. *)
Theorem step_keeps_frames fuel c input f :
  contract_ok c → small input → frame_ok Keccak256 ContractCode rules c f → f_Gas f <= Z.of_nat fuel →
  match step Keccak256 ContractCode rules ctx precompiles (run fuel) c input f with
  | (Ok Continue, f') => frame_ok Keccak256 ContractCode rules c f' ∧ f_Gas f' < f_Gas f
  | (Ok (Return _ _), f') | (Err _, f') => 0 <= f_Gas f' <= f_Gas f ∧ evm_ok (f_evm f')
  | (Panic m, _) => m = refund_panic
  end.
Proof.
  intros Hc Hi Hf Hg. pose proof (step_safe Keccak256 ContractCode rules ctx c precompiles (run fuel) input (Z.of_nat fuel)
    setting_environment Hc Hi (run_is_safe fuel) setting_ordered f Hf Hg) as Hstep. unfold wp in Hstep.
  assert (Hok : ∀ e', left_behind Keccak256 ContractCode (quiet rules (readOnly (f_evm f))) (f_evm f) e' → evm_ok e')
    by (intros e'; eapply left_ok; [apply setting_environment | apply Hf]).
  destruct (step _ _ _ _ _ _ _ _ f) as [[[| res err] | err | m] f']; cbn in Hstep;
    [by destruct Hstep as (? & ? & _) | destruct Hstep as (? & _ & ?); auto | destruct Hstep; auto | done].
Qed.

(** C18: A call that fails restores the state: whatever the callee and the contracts it calls did, every
    account, slot, log, refund and access-list entry answers as before the call. An error other than
    a revert takes all the gas, unless the call failed before it began. *)
Theorem failed_call_restores fuel caller addr input gas value e ret g err e' :
  call_ok Keccak256 ContractCode (Z.of_nat fuel) caller addr input gas e → word value →
  (quiet rules (readOnly e) = true → value = 0) → (IsBerlin rules = true → accessed addr (evm_StateDB e)) →
  evm_Call Keccak256 ContractCode (run fuel) rules (precompiled precompiles) (NoRecursion ctx) caller addr input gas value e
    = Ok (ret, g, Some err, e') →
  evm_StateDB e' ≈ evm_StateDB e ∧ 0 <= g <= gas ∧
  (err ∉ [errExecutionReverted; ErrDepth; ErrInsufficientBalance] → g = 0).
Proof.
  intros Hok Hv Hq Ha E. pose proof (evm_Call_spec Keccak256 ContractCode rules ctx (precompiled precompiles) (run fuel)
    setting_environment (Z.of_nat fuel) (run_is_safe fuel) caller addr input gas value e (NoRecursion ctx) Hok Hv Hq Ha) as [Hr Hs].
  rewrite E in Hr, Hs. split; [by eapply Hs |]. split; [apply Hr |]. intros Herr. unfold evm_Call in E.
  repeat (case_match; [simplify_eq; set_solver |]). unfold run_reverting in E.
  destruct (Snapshot _). case_match; [by simplify_eq |]. apply outcome_bind_Ok in E as ([[[r g'] err'] e1] & _ & E).
  destruct err' as [err' |]; [| by simplify_eq]. apply outcome_bind_Ok in E as (s' & _ & E). injection E as _ <- <- _.
  unfold gas_after. destruct (bool_decide_reflect (err' = errExecutionReverted)); [| done]. subst err'. clear - Herr. set_solver.
Qed.

(** C19: A static call changes nothing that a contract can read: after it, and after all the calls
    nested in it, every slot and so every balance, every nonce, code, log and refund is as before. *)
Theorem static_call_reads_only fuel caller addr input gas e ret g err e' :
  IsByzantium rules = true → call_ok Keccak256 ContractCode (Z.of_nat fuel) caller addr input gas e →
  (IsBerlin rules = true → accessed addr (evm_StateDB e)) →
  evm_StaticCall Keccak256 ContractCode (run fuel) (NoRecursion ctx) caller addr input gas e = Ok (ret, g, err, e') →
  same_view Keccak256 ContractCode (evm_StateDB e') (evm_StateDB e).
Proof.
  intros HB Hok Ha E. pose proof (evm_StaticCall_spec Keccak256 ContractCode rules ctx (run fuel)
    setting_environment (Z.of_nat fuel) (run_is_safe fuel) caller addr input gas e (NoRecursion ctx) Hok Ha) as [Hr _].
  rewrite E in Hr. destruct Hr as (_ & _ & [_ _ _ He]). unfold quiet in He. rewrite HB in He.
  apply evm_effects_quiet; [apply setting_environment | exact He | apply Hok | apply Hok].
Qed.

End Theorems.

(** C29: A jump succeeds exactly when its target is an instruction JUMPDEST of the code, never inside
    the data of a push; it then moves the program counter there, and fails with errInvalidJump
    otherwise. *)
Theorem jumps_land_on_instructions c f pos rest :
  small (c_Code c) → f_stack f = pos :: rest → 0 <= pos →
  let lands := starts (c_Code c) pos ∧ b2z <$> c_Code c !! Z.to_nat pos = Some 0x5b in
  (lands → opJump c f = (Ok [], set_pc pos (set_stack rest f))) ∧
  (¬ lands → opJump c f = (Err errInvalidJump, set_stack rest f)).
Proof.
  intros Hc Hf Hp lands. destruct (validJumpdest_spec (c_Code c) pos Hc Hp) as (b & Eb & Hb).
  assert (Ej : opJump c f = if b then (Ok [], set_pc (big_Uint64 pos) (set_stack rest f)) else (Err errInvalidJump, set_stack rest f)).
  { unfold opJump, jump_to. cbv [mbind st_bind pop]. rewrite Hf. unfold st_lift. cbv beta iota. rewrite Eb. by destruct b. }
  rewrite Ej. split; intros Hl.
  - rewrite (proj2 Hb Hl). rewrite big_Uint64_small; [done |]. destruct Hl as [_ Hl].
    destruct (c_Code c !! Z.to_nat pos) eqn:E; [| done]. apply lookup_lt_Some in E. unfold small, len in Hc. lia.
  - destruct b; [| done]. by destruct Hl; apply Hb.
Qed.
