(* ===== verification/StateTransition.v ===== *)
(** The state transition of l2geth: src/l2geth/core/state_transition.go and
    src/l2geth/core/gaspool.go.

    The EVM is that of EvmCalls.v; what runs contracts is a parameter, which
    EvmInterpreter.v instantiates. *)

From S2P Require Import Prelude Rlp TxMeta Transaction BigFloat Fees StateDB EvmCommon EvmCalls.

Definition errInsufficientBalanceForGas : error :=
  ErrVar "core.errInsufficientBalanceForGas" "insufficient balance to pay for gas".
Definition ErrGasLimitReached : error := ErrVar "core.ErrGasLimitReached" "gas limit reached".
Definition ErrNonceTooHigh : error := ErrVar "core.ErrNonceTooHigh" "nonce too high".
Definition core_ErrNonceTooLow : error := ErrVar "core.ErrNonceTooLow" "nonce too low".

Definition L2GasPriceOracleAddress : address := be 20 0x420000000000000000000000000000000000000F.

Definition TxGas : Z := 21000.
Definition TxGasContractCreation : Z := 53000.
Definition TxDataNonZeroGasFrontier : Z := 68.

(** ** Gas *)

Definition SubGas (gp amount : Z) : outcome Z := if gp <? amount then Err ErrGasLimitReached else Ok (gp - amount).

Definition AddGas (gp amount : Z) : outcome Z :=
  if max_uint64 - amount <? gp then Panic "gas pool pushed above uint64" else Ok (gp + amount).

Definition nonzero_bytes (d : list byte) : Z := len (filter (λ b, b2z b ≠ 0) d).

Definition IntrinsicGas (d : list byte) (contractCreation isHomestead isEIP2028 : bool) : outcome Z :=
  let gas := if contractCreation && isHomestead then TxGasContractCreation else TxGas in
  match d with
  | [] => Ok gas
  | _ =>
      let nz := u64 (nonzero_bytes d) in
      let nonZeroGas := if isEIP2028 then TxDataNonZeroGasEIP2028 else TxDataNonZeroGasFrontier in
      if (max_uint64 - gas) / nonZeroGas <? nz then Err vm_ErrOutOfGas
      else
        let gas := u64 (gas + u64 (nz * nonZeroGas)) in
        let z := u64 (u64 (len d) - nz) in
        if (max_uint64 - gas) / TxDataZeroGas <? z then Err vm_ErrOutOfGas
        else Ok (u64 (gas + u64 (z * TxDataZeroGas)))
  end.

Section Transition.
  Context (Keccak256 : list byte → list byte) (ContractCode : list byte → list byte).
  Context (uint64_out_of_range : Z → Z).
  Context (run : Contract → list byte → bool → EVM → outcome result).
  Context (rules : Rules) (precompiles : list address) (noRecursion : bool).

Abbreviation GetBalance := (StateDB.GetBalance Keccak256).
Abbreviation AddBalance := (StateDB.AddBalance Keccak256).
Abbreviation SubBalance := (StateDB.SubBalance Keccak256).
Abbreviation SetNonce := (StateDB.SetNonce Keccak256).

(** ** The state transition *)

Record StateTransition := {
  st_gp : Z;
  st_msg : Message;
  st_gas : Z;
  st_gasPrice : Z;
  st_initialGas : Z;
  st_state : StateDB;
  st_l1Fee : Z;
  st_daFee : Z;
}.

Definition set_gas (g : Z) (t : StateTransition) : StateTransition :=
  {| st_gp := st_gp t; st_msg := st_msg t; st_gas := g; st_gasPrice := st_gasPrice t; st_initialGas := st_initialGas t;
     st_state := st_state t; st_l1Fee := st_l1Fee t; st_daFee := st_daFee t |}.

Definition set_state (s : StateDB) (t : StateTransition) : StateTransition :=
  {| st_gp := st_gp t; st_msg := st_msg t; st_gas := st_gas t; st_gasPrice := st_gasPrice t;
     st_initialGas := st_initialGas t; st_state := s; st_l1Fee := st_l1Fee t; st_daFee := st_daFee t |}.

Definition set_gp (gp : Z) (t : StateTransition) : StateTransition :=
  {| st_gp := gp; st_msg := st_msg t; st_gas := st_gas t; st_gasPrice := st_gasPrice t; st_initialGas := st_initialGas t;
     st_state := st_state t; st_l1Fee := st_l1Fee t; st_daFee := st_daFee t |}.

Definition set_initialGas (g : Z) (t : StateTransition) : StateTransition :=
  {| st_gp := st_gp t; st_msg := st_msg t; st_gas := st_gas t; st_gasPrice := st_gasPrice t; st_initialGas := g;
     st_state := st_state t; st_l1Fee := st_l1Fee t; st_daFee := st_daFee t |}.

(** The storage of the gas price oracle. *)
Definition oracle_slots (s : StateDB) : gpo_storage := λ slot, GetState L2GasPriceOracleAddress slot s.

Definition NewStateTransition (msg : Message) (gp : Z) (s : StateDB) : outcome StateTransition :=
  '(gasPrice, l1Fee, daFee) ←
    (if negb (msg_gasPrice msg =? 0) then
       l1Fee ← CalculateL1MsgFee uint64_out_of_range msg (oracle_slots s);
       let gasPrice := if oracle_slots s ChargeSlot =? 0 then 0 else msg_gasPrice msg in
       daFee ← (if oracle_slots s DaSwitchSlot =? 1 then CalculateDAMsgFee msg (oracle_slots s) else mret 0);
       mret (gasPrice, l1Fee, daFee)
     else mret (msg_gasPrice msg, 0, 0));
  mret {| st_gp := gp; st_msg := msg; st_gas := 0; st_gasPrice := gasPrice; st_initialGas := 0; st_state := s;
          st_l1Fee := l1Fee; st_daFee := daFee |}.

Abbreviation transition := (st StateTransition).

(** What [buyGas] takes from the sender. *)
Definition buy_value (t : StateTransition) : Z :=
  let mgval := msg_gasLimit (st_msg t) * st_gasPrice t in
  if msg_queueOrigin (st_msg t) =? QueueOriginSequencer then mgval + st_l1Fee t + st_daFee t else mgval.

Definition buyGas : transition () :=
  t ← st_get;
  let from := msg_from (st_msg t) in
  let mgval := buy_value t in
  if GetBalance from (st_state t) <? mgval then st_fail errInsufficientBalanceForGas
  else
    gp ← st_lift (SubGas (st_gp t) (msg_gasLimit (st_msg t)));
    st_modify (set_gp gp);;
    st_modify (set_gas (u64 (st_gas t + msg_gasLimit (st_msg t))));;
    st_modify (set_initialGas (msg_gasLimit (st_msg t)));;
    st_modify (set_state (SubBalance from mgval (st_state t))).

Definition preCheck : transition () :=
  t ← st_get;
  let msg := st_msg t in
  if msg_checkNonce msg then
    if msg_queueOrigin msg =? QueueOriginL1ToL2 then buyGas
    else
      let nonce := GetNonce (msg_from msg) (st_state t) in
      if nonce <? msg_nonce msg then st_fail ErrNonceTooHigh
      else if msg_nonce msg <? nonce then st_fail core_ErrNonceTooLow
      else buyGas
  else buyGas.

Definition useGas (amount : Z) : transition () :=
  g ← st_gets st_gas;
  if g <? amount then st_fail vm_ErrOutOfGas else st_modify (set_gas (g - amount)).

Definition gasUsed (t : StateTransition) : Z := u64 (st_initialGas t - st_gas t).

Definition refundGas : transition () :=
  t ← st_get;
  let refund := Z.min (gasUsed t / 2) (GetRefund (st_state t)) in
  let gas := u64 (st_gas t + refund) in
  st_modify (set_gas gas);;
  st_modify (set_state (AddBalance (msg_from (st_msg t)) (gas * st_gasPrice t) (st_state t)));;
  gp ← st_lift (AddGas (st_gp t) gas);
  st_modify (set_gp gp).

(** [PrepareAccessList]; the access list of a message is always empty. *)
Definition prepare_access (from : address) (to : option address) (s : StateDB) : StateDB :=
  let s := AddAddressToAccessList from s in
  let s := match to with Some a => AddAddressToAccessList a s | None => s end in
  foldl (λ s a, AddAddressToAccessList a s) s precompiles.

(** [NewEVM] *)
Definition NewEVM (s : StateDB) : EVM :=
  {| evm_StateDB := s; depth := 0; callGasTemp := 0; readOnly := false; returnData := [] |}.

(** The EVM's part: result, gas, error and state. *)
Definition execute (msg : Message) (gas : Z) (s : StateDB) : outcome (list byte * Z * option error * StateDB) :=
  '(ret, gas, err, e) ←
    match msg_to msg with
    | None =>
        '(r, _) ← evm_Create Keccak256 ContractCode run rules noRecursion (msg_from msg) (msg_data msg) gas (msg_amount msg) (NewEVM s);
        mret r
    | Some to =>
        let s := SetNonce (msg_from msg) (u64 (GetNonce (msg_from msg) s + 1)) s in
        evm_Call Keccak256 ContractCode run rules precompiles noRecursion (msg_from msg) to (msg_data msg) gas (msg_amount msg) (NewEVM s)
    end;
  mret (ret, gas, err, evm_StateDB e).

Definition TransitionDb (coinbase : address) : transition (list byte * Z * bool) :=
  preCheck;;
  msg ← st_gets st_msg;
  gas ← st_lift (IntrinsicGas (msg_data msg) (bool_decide (msg_to msg = None)) (IsHomestead rules) (IsIstanbul rules));
  useGas gas;;
  (if IsBerlin rules
   then st_modify (λ t, set_state (prepare_access (msg_from msg) (msg_to msg) (st_state t)) t)
   else mret tt);;
  t ← st_get;
  '(ret, gas, vmerr, s) ← st_lift (execute msg (st_gas t) (st_state t));
  st_modify (λ t, set_state s (set_gas gas t));;
  (if bool_decide (vmerr = Some ErrInsufficientBalance) then st_fail ErrInsufficientBalance else mret tt);;
  refundGas;;
  t ← st_get;
  let fee := st_l1Fee t + gasUsed t * st_gasPrice t + st_daFee t in
  st_modify (set_state (AddBalance coinbase fee (st_state t)));;
  mret (ret, gasUsed t, bool_decide (vmerr ≠ None)).

(** The state of a failed message is left as it is: the caller reverts it. *)
Definition ApplyMessage (coinbase : address) (msg : Message) (gp : Z) (s : StateDB)
    : outcome (list byte * Z * bool) * option StateTransition :=
  match NewStateTransition msg gp s with
  | Ok t => let '(r, t) := TransitionDb coinbase t in (r, Some t)
  | Err e => (Err e, None)
  | Panic m => (Panic m, None)
  end.

End Transition.
