(* ===== verification/StateTransitionFacts.v ===== *)
(** What a state transition does to balances and gas: the fees that are taken
    from the sender are those that the coinbase gets, self-destruction does not
    make money, and the gas pool loses the gas that was used. *)

From S2P Require Import Prelude Rlp TxMeta Transaction BigFloat Fees StateDB StateDBFacts StateBalances EvmEffects EvmCommon EvmCalls.
From S2P Require Import EvmInstructions EvmJumpTable EvmInterpreter EvmGasFacts EvmSafety EvmRun EvmTheorems StateTransition.

Section Suicide.
  Context (Keccak256 : list byte → list byte).

Abbreviation GetBalance := (StateDB.GetBalance Keccak256).
Abbreviation AddBalance := (StateDB.AddBalance Keccak256).
Abbreviation supply := (supply Keccak256).
Abbreviation apart l := (NoDup (map (GetbvmBalanceKey Keccak256) l)).

(** C40: Self-destruction keeps the sum of the balances after the update; before it, the destroyed
    account keeps its balance in the token contract and the beneficiary gets it a second time. *)
Theorem opSuicide_supply rules self beneficiary l s :
  apart l → self ∈ l → beneficiary ∈ l → 0 <= GetBalance self s → 0 <= GetBalance beneficiary s →
  GetBalance self s + GetBalance beneficiary s < 2 ^ 256 →
  supply l (suicide_state Keccak256 rules self beneficiary s) =
    supply l s + if IsSDUpdate rules then 0 else GetBalance self s.
Proof.
  intros Hnd Hs Hb H0 H1 H2. unfold suicide_state. cbv zeta.
  set (s1 := AddBalance beneficiary (GetBalance self s) s).
  assert (E1 : supply l s1 = supply l s + GetBalance self s) by (apply supply_AddBalance; (done || lia)).
  assert (E2 : supply l (Suicide self s1).1 = supply l s1) by (apply supply_same; intros; apply GetBalance_Suicide).
  destruct (IsSDUpdate rules); [| lia].
  rewrite supply_SubBalance; [lia | done | done |]. rewrite GetBalance_Suicide. unfold s1. rewrite GetBalance_AddBalance.
  destruct (decide _) as [E |]; [| lia].
  assert (GetBalance beneficiary s = GetBalance self s) by (unfold StateDB.GetBalance; by rewrite E).
  rewrite BigToHash_small by lia. lia.
Qed.

End Suicide.

(** ** The EVM's part *)

Record message_ok (msg : Message) : Prop := {
  mo_from : (length (msg_from msg) <= 32)%nat;
  mo_to : ∀ a, msg_to msg = Some a → (length a <= 32)%nat;
  mo_data : small (msg_data msg);
  mo_amount : word (msg_amount msg);
  mo_gas : 0 <= msg_gasLimit msg < max_gas;
}.

Section Accounts.
  Context (Keccak256 : list byte → list byte) (ContractCode : list byte → list byte).
  Context (uint64_out_of_range : Z → Z).
  Context (run : Contract → list byte → bool → EVM → outcome result).
  Context (rules : Rules) (ctx : BlockContext) (precompiles : list address) (noRecursion : bool).

Abbreviation GetBalance := (StateDB.GetBalance Keccak256).
Abbreviation AddBalance := (StateDB.AddBalance Keccak256).
Abbreviation SubBalance := (StateDB.SubBalance Keccak256).
Abbreviation supply := (supply Keccak256).
Abbreviation apart l := (NoDup (map (GetbvmBalanceKey Keccak256) l)).
Abbreviation execute := (execute Keccak256 ContractCode run rules precompiles noRecursion).
Abbreviation TransitionDb := (TransitionDb Keccak256 ContractCode run rules precompiles noRecursion).
Abbreviation ApplyMessage := (ApplyMessage Keccak256 ContractCode uint64_out_of_range run rules precompiles noRecursion).
Abbreviation evm_effects := (evm_effects Keccak256 ContractCode).
Abbreviation accessed a s := (a ∈ dom (al_addresses (access s))).

(** A state in which messages can be executed. *)
Record state_ok (s : StateDB) : Prop := {
  so_sound : sound Keccak256 ContractCode s;
  so_wide : wide Keccak256 ContractCode s;
  so_refund : 0 <= refund s;
}.

Lemma New_ok tr : map_Forall (λ _, wide_account ContractCode) tr → state_ok (New tr).
Proof. intros Htr. split; [apply New_sound | by apply New_wide | done]. Qed.

Definition execute_post (gas : Z) (s : StateDB) (r : outcome (list byte * Z * option error * StateDB)) : Prop :=
  match r with
  | Ok (_, g, _, s') => 0 <= g <= gas ∧ evm_effects false s s'
  | Err _ => False
  | Panic m => m = refund_panic
  end.

Section Execution.
  Context (env : environment Keccak256 ctx) (bound : Z) (Hrun : run_safe Keccak256 ContractCode rules run bound).

Lemma effects_state_ok q s s' : state_ok s → evm_effects q s s' → state_ok s'.
Proof.
  intros [H1 H2 H3] He. split; [by eapply effects_sound | | by eapply evm_effects_refund].
  eapply evm_effects_wide; [apply env | done | done | done].
Qed.

Lemma NewEVM_ok s : state_ok s → evm_ok Keccak256 ContractCode (NewEVM s).
Proof. intros [H1 H2 _]. by split. Qed.

Lemma execute_spec msg gas s :
  message_ok msg → state_ok s → 0 <= gas < bound → gas < max_gas →
  (∀ a, IsBerlin rules = true → msg_to msg = Some a → accessed a s) → execute_post gas s (execute msg gas s).
Proof.
  intros [Hf Ht Hd Ha _] Hs Hg Hg' Hacc. unfold StateTransition.execute. destruct (msg_to msg) as [to |].
  - set (s1 := StateDB.SetNonce _ _ _ _). assert (He : evm_effects false s s1) by by eapply (effects_one _ _ _ (OSetNonce _ _)).
    pose proof (effects_state_ok _ _ _ Hs He) as Hs1.
    assert (Hacc1 : IsBerlin rules = true → accessed to (evm_StateDB (NewEVM s1))).
    { intros HB. eapply evm_effects_accessed; [exact He | apply Hs | by apply Hacc]. }
    clearbody s1. pose proof (evm_Call_spec Keccak256 ContractCode rules ctx precompiles run env bound Hrun (msg_from msg) to
      (msg_data msg) gas (msg_amount msg) (NewEVM s1) noRecursion) as H.
    destruct H as [Hr _]; [split; try done; [by apply Ht | by apply NewEVM_ok] | done | done | done |].
    destruct (evm_Call _ _ _ _ _ _ _ _ _ _ _ _) as [[[[ret g] err] e] | |]; [| done..].
    destruct Hr as (H1 & _ & [_ _ _ H4]). split; [done |]. by eapply effects_trans; [| apply (evm_effects_loud _ _ _ _ _ H4)].
  - pose proof (evm_create_spec Keccak256 ContractCode rules ctx run env bound Hrun (msg_from msg) (msg_data msg) gas (msg_amount msg)
      (CreateAddress Keccak256 (msg_from msg) (GetNonce (msg_from msg) s)) (NewEVM s) noRecursion) as H.
    lapply H; clear H; [intros H; specialize (H Ha eq_refl) | split; try done; [by eapply drop_keccak | by apply NewEVM_ok]].
    unfold evm_Create. cbn [evm_StateDB NewEVM]. destruct (evm_create _ _ _ _ _ _ _ _ _ _ _) as [[[[[ret g] err] e] addr] | |]; [| done..].
    destruct H as [(H1 & _ & [_ _ _ H4]) _]. by split.
Qed.

End Execution.

(** ** The steps of a transition *)

(** The transition after its gas has been bought. *)
Definition bought (t : StateTransition) : StateTransition :=
  {| st_gp := st_gp t - msg_gasLimit (st_msg t); st_msg := st_msg t;
     st_gas := u64 (st_gas t + msg_gasLimit (st_msg t)); st_gasPrice := st_gasPrice t;
     st_initialGas := msg_gasLimit (st_msg t);
     st_state := SubBalance (msg_from (st_msg t)) (buy_value t) (st_state t);
     st_l1Fee := st_l1Fee t; st_daFee := st_daFee t |}.

Lemma buyGas_spec t :
  buyGas Keccak256 t =
    if GetBalance (msg_from (st_msg t)) (st_state t) <? buy_value t then (Err errInsufficientBalanceForGas, t)
    else if st_gp t <? msg_gasLimit (st_msg t) then (Err ErrGasLimitReached, t)
    else (Ok tt, bought t).
Proof.
  unfold buyGas. cbv [mbind st_bind st_get]. cbv zeta. destruct (_ <? buy_value t); [done |].
  unfold SubGas, st_lift. by destruct (st_gp t <? _).
Qed.

Lemma preCheck_Ok t t' :
  preCheck Keccak256 t = (Ok tt, t') →
  t' = bought t ∧ buy_value t <= GetBalance (msg_from (st_msg t)) (st_state t) ∧ msg_gasLimit (st_msg t) <= st_gp t.
Proof.
  intros E. assert (E' : buyGas Keccak256 t = (Ok tt, t')).
  { unfold preCheck in E. cbv [mbind st_bind st_get] in E. destruct (msg_checkNonce _); [| done].
    destruct (_ =? QueueOriginL1ToL2); [done |]. destruct (_ <? msg_nonce _); [done |]. by destruct (msg_nonce _ <? _). }
  rewrite buyGas_spec in E'. destruct (Z.ltb_spec (GetBalance (msg_from (st_msg t)) (st_state t)) (buy_value t)); [done |].
  destruct (Z.ltb_spec (st_gp t) (msg_gasLimit (st_msg t))); [done |]. injection E' as <-. done.
Qed.

(** The gas that is left after the refund. *)
Definition left_gas (t : StateTransition) : Z := st_gas t + Z.min (gasUsed t / 2) (GetRefund (st_state t)).

Lemma refundGas_Ok t t' :
  0 <= st_gas t <= st_initialGas t → st_initialGas t < 2 ^ 64 → 0 <= GetRefund (st_state t) →
  refundGas Keccak256 t = (Ok tt, t') →
  st_gas t <= left_gas t <= st_initialGas t ∧
  t' = {| st_gp := st_gp t + left_gas t; st_msg := st_msg t; st_gas := left_gas t; st_gasPrice := st_gasPrice t;
          st_initialGas := st_initialGas t;
          st_state := AddBalance (msg_from (st_msg t)) (left_gas t * st_gasPrice t) (st_state t);
          st_l1Fee := st_l1Fee t; st_daFee := st_daFee t |}.
Proof.
  intros Hg Hi Hr. assert (Hu : gasUsed t = st_initialGas t - st_gas t) by (unfold gasUsed; by rewrite wrap_small by lia).
  assert (0 <= gasUsed t / 2 <= gasUsed t).
  { split; [apply Z.div_pos; lia |]. apply Z.div_le_upper_bound; lia. }
  assert (Hl : st_gas t <= left_gas t <= st_initialGas t) by (unfold left_gas; lia).
  unfold refundGas. cbv [mbind st_bind st_get st_modify]. fold (left_gas t). rewrite wrap_small by lia.
  unfold st_lift, AddGas. cbn. destruct (_ <? st_gp t); [done |]. intros [= <-]. done.
Qed.

Lemma GetBalance_AddAddress a b s : GetBalance b (AddAddressToAccessList a s) = GetBalance b s.
Proof. unfold AddAddressToAccessList, al_AddAddress. by destruct (al_addresses (access s) !! a). Qed.

Lemma GetBalance_prepare_access from to b s : GetBalance b (prepare_access precompiles from to s) = GetBalance b s.
Proof.
  unfold prepare_access.
  assert (H : ∀ l s, GetBalance b (foldl (λ s a, AddAddressToAccessList a s) s l) = GetBalance b s).
  { induction l as [| a l IH]; intros s0; cbn; [done |]. rewrite IH. apply GetBalance_AddAddress. }
  rewrite H. destruct to; by rewrite ?GetBalance_AddAddress.
Qed.

(** ** The whole transition *)

Lemma IntrinsicGas_range data create homestead istanbul g :
  IntrinsicGas data create homestead istanbul = Ok g → 0 <= g.
Proof.
  unfold IntrinsicGas. destruct data; [destruct (_ && _); intros [= <-]; done |].
  cbv zeta. destruct (_ <? _); [done |]. destruct (_ <? _); [done |]. intros [= <-]. apply wrap_range. lia.
Qed.

Lemma useGas_Ok amount t t' : useGas amount t = (Ok tt, t') → amount <= st_gas t ∧ t' = set_gas (st_gas t - amount) t.
Proof.
  unfold useGas. cbv [mbind st_bind st_gets st_modify st_fail].
  destruct (Z.ltb_spec (st_gas t) amount); [done |]. by intros [= <-].
Qed.

(** The transition when the EVM starts, and when it has run. *)
Definition started (t : StateTransition) (intrinsic : Z) : StateTransition :=
  let t := set_gas (msg_gasLimit (st_msg t) - intrinsic) (bought t) in
  if IsBerlin rules
  then set_state (prepare_access precompiles (msg_from (st_msg t)) (msg_to (st_msg t)) (st_state t)) t else t.

Definition ran (t : StateTransition) (gas : Z) (s : StateDB) : StateTransition := set_state s (set_gas gas t).

Lemma started_fields t i :
  st_gp (started t i) = st_gp t - msg_gasLimit (st_msg t) ∧ st_msg (started t i) = st_msg t ∧
  st_gas (started t i) = msg_gasLimit (st_msg t) - i ∧ st_gasPrice (started t i) = st_gasPrice t ∧
  st_initialGas (started t i) = msg_gasLimit (st_msg t) ∧ st_l1Fee (started t i) = st_l1Fee t ∧
  st_daFee (started t i) = st_daFee t ∧
  ∀ a, GetBalance a (st_state (started t i)) =
       GetBalance a (SubBalance (msg_from (st_msg t)) (buy_value t) (st_state t)).
Proof. unfold started. destruct (IsBerlin rules); cbn; repeat (split; [done |]); intros; by rewrite ?GetBalance_prepare_access. Qed.

Lemma TransitionDb_Ok coinbase t ret used failed t' :
  st_gas t = 0 → 0 <= msg_gasLimit (st_msg t) < 2 ^ 64 →
  TransitionDb coinbase t = (Ok (ret, used, failed), t') →
  buy_value t <= GetBalance (msg_from (st_msg t)) (st_state t) ∧ msg_gasLimit (st_msg t) <= st_gp t ∧
  ∃ i g vmerr s2 t2, 0 <= i <= msg_gasLimit (st_msg t) ∧
    execute (st_msg t) (msg_gasLimit (st_msg t) - i) (st_state (started t i)) = Ok (ret, g, vmerr, s2) ∧
    vmerr ≠ Some ErrInsufficientBalance ∧ failed = bool_decide (vmerr ≠ None) ∧
    refundGas Keccak256 (ran (started t i) g s2) = (Ok tt, t2) ∧
    used = gasUsed t2 ∧
    t' = set_state (AddBalance coinbase (st_l1Fee t2 + gasUsed t2 * st_gasPrice t2 + st_daFee t2) (st_state t2)) t2.
Proof.
  intros H0 Hl E. unfold StateTransition.TransitionDb in E.
  apply st_bind_Ok in E as ([] & t1 & E1 & E). apply preCheck_Ok in E1 as (-> & Hb & Hp). split; [done |]. split; [done |].
  apply st_bind_Ok in E as (m & t1' & [= <- <-] & E). cbn [st_msg bought] in E.
  apply st_bind_Ok in E as (i & t1' & E2 & E). injection E2 as E2 <-. apply IntrinsicGas_range in E2 as Hi.
  apply st_bind_Ok in E as ([] & t2 & E3 & E). apply useGas_Ok in E3 as (Hu & ->).
  assert (Hg : st_gas (bought t) = msg_gasLimit (st_msg t)) by (cbn; rewrite H0; by apply wrap_small).
  rewrite Hg in *.
  apply st_bind_Ok in E as ([] & t3 & E4 & E). assert (Et : t3 = started t i).
  { unfold started. destruct (IsBerlin rules); injection E4 as <-; done. }
  subst t3. clear E4.
  apply st_bind_Ok in E as (t4 & t4' & [= <- <-] & E). destruct (started_fields t i) as (_ & _ & Hsg & _).
  rewrite Hsg in E. apply st_bind_Ok in E as ([[[ret' g] vmerr] s2] & t4' & E5 & E). injection E5 as E5 <-.
  apply st_bind_Ok in E as ([] & t5 & [= <-] & E). fold (ran (started t i) g s2) in E.
  apply st_bind_Ok in E as ([] & t5 & E6 & E). destruct (bool_decide (vmerr = _)) eqn:Hv; [done |].
  apply bool_decide_eq_false in Hv. injection E6 as <-.
  apply st_bind_Ok in E as ([] & t6 & E7 & E). apply st_bind_Ok in E as (t7 & t7' & [= <- <-] & E).
  injection E as <- <- <- <-. exists i, g, vmerr, s2, t6. done.
Qed.

Lemma NewStateTransition_Ok msg gp s t :
  NewStateTransition uint64_out_of_range msg gp s = Ok t →
  st_gp t = gp ∧ st_msg t = msg ∧ st_gas t = 0 ∧ st_state t = s.
Proof. intros E. unfold NewStateTransition in E. apply outcome_bind_Ok in E as ([[p f] d] & _ & [= <-]). done. Qed.

(** The balances of the accounts can take every credit of the transition. *)
Definition room (l : list address) (s : StateDB) (t : StateTransition) : Prop :=
  0 <= st_gasPrice t ∧ 0 <= st_l1Fee t ∧ 0 <= st_daFee t ∧
  ∀ a, a ∈ l → 0 <= GetBalance a s ∧
                GetBalance a s + msg_gasLimit (st_msg t) * st_gasPrice t + st_l1Fee t + st_daFee t < 2 ^ 256.

Lemma credits_supply l from coinbase x y s :
  apart l → from ∈ l → coinbase ∈ l → 0 <= x → 0 <= y →
  (∀ a, a ∈ l → 0 <= GetBalance a s ∧ GetBalance a s + x + y < 2 ^ 256) →
  supply l (AddBalance coinbase y (AddBalance from x s)) = supply l s + x + y.
Proof.
  intros Hnd Hf Hc Hx Hy Hr. pose proof (Hr _ Hf) as Hrf. pose proof (Hr _ Hc) as Hrc.
  rewrite supply_AddBalance; [rewrite supply_AddBalance; [lia | done | done | lia] | done | done |].
  rewrite GetBalance_AddBalance. destruct (decide _); [rewrite BigToHash_small |]; lia.
Qed.

(** The state when the EVM starts. *)
Lemma prepare_access_effects from to s : evm_effects false s (prepare_access precompiles from to s).
Proof.
  assert (H : ∀ a t, evm_effects false s t → evm_effects false s (AddAddressToAccessList a t))
    by (intros a t Ht; by eapply (eff_do _ _ _ _ _ (OAddAddress a))).
  assert (Hl : ∀ l t, evm_effects false s t → evm_effects false s (foldl (λ s a, AddAddressToAccessList a s) t l))
    by (induction l as [| a l IH]; cbn; auto).
  unfold prepare_access. apply Hl. destruct to; repeat apply H; apply eff_refl.
Qed.

Lemma prepare_access_accessed from a s : accessed a (prepare_access precompiles from (Some a) s).
Proof.
  assert (Hl : ∀ l t, accessed a t → accessed a (foldl (λ s a, AddAddressToAccessList a s) t l)).
  { induction l as [| b l IH]; intros t Ht; cbn; [done |]. apply IH. by apply (do_op_accessed Keccak256 ContractCode a (OAddAddress b) t). }
  unfold prepare_access. apply Hl, AddAddress_accessed.
Qed.

Lemma started_effects t i : evm_effects false (st_state t) (st_state (started t i)).
Proof.
  unfold started. assert (H : evm_effects false (st_state t) (st_state (bought t)))
    by by eapply (effects_one _ _ _ (OSubBalance _ _)).
  destruct (IsBerlin rules); [| done]. eapply effects_trans; [exact H | apply prepare_access_effects].
Qed.

Lemma started_accessed t i a : IsBerlin rules = true → msg_to (st_msg t) = Some a → accessed a (st_state (started t i)).
Proof. intros HB Ht. unfold started. rewrite HB. cbn. rewrite Ht. apply prepare_access_accessed. Qed.

Section Total.
  Context (env : environment Keccak256 ctx) (bound : Z) (Hrun : run_safe Keccak256 ContractCode rules run bound).

Lemma execute_started t i :
  message_ok (st_msg t) → state_ok (st_state t) → 0 <= i <= msg_gasLimit (st_msg t) → msg_gasLimit (st_msg t) < bound →
  execute_post (msg_gasLimit (st_msg t) - i) (st_state (started t i))
    (execute (st_msg t) (msg_gasLimit (st_msg t) - i) (st_state (started t i))).
Proof.
  intros Hm Hs Hi Hb. pose proof (mo_gas _ Hm). apply (execute_spec env bound); [done | done | | lia | lia |].
  - eapply effects_state_ok; [done | done | apply started_effects].
  - intros a HB Ht. by apply started_accessed.
Qed.

(** Accounts of a message that is executed. *)
Lemma accounts_of_run coinbase msg gp s ret used failed t' :
  message_ok msg → state_ok s → msg_gasLimit msg < bound →
  ApplyMessage coinbase msg gp s = (Ok (ret, used, failed), Some t') →
  ∃ g g' vmerr s1 s2,
    execute msg g s1 = Ok (ret, g', vmerr, s2) ∧ failed = bool_decide (vmerr ≠ None) ∧
    0 <= used <= msg_gasLimit msg ∧ st_gp t' = gp - used ∧
    buy_value t' <= GetBalance (msg_from msg) s ∧
    (∀ a, GetBalance a s1 = GetBalance a (SubBalance (msg_from msg) (buy_value t') s)) ∧
    ∀ l, apart l → msg_from msg ∈ l → coinbase ∈ l → GetBalance (msg_from msg) s < 2 ^ 256 → room l s2 t' →
      supply l (st_state t') - supply l s =
        (supply l s2 - supply l s1) +
        if msg_queueOrigin msg =? QueueOriginSequencer then 0 else st_l1Fee t' + st_daFee t'.
Proof.
  intros Hmsg Hstate Hbound E. pose proof (mo_gas _ Hmsg) as Hl. unfold StateTransition.ApplyMessage in E.
  destruct (NewStateTransition _ msg gp s) as [t | |] eqn:En; [| done | done].
  apply NewStateTransition_Ok in En as (Hgp & Hm & Hg0 & Hs).
  destruct (TransitionDb coinbase t) as [r t''] eqn:Et. injection E as -> ->.
  apply TransitionDb_Ok in Et as (Hb & Hp & i & g & vmerr & s2 & t2 & Hi & Ex & Hv & Hf & Er & Hu & Ht); [| done | rewrite Hm; lia].
  pose proof (execute_started t i) as Hx. rewrite Hm, Hs in *. specialize (Hx Hmsg Hstate Hi Hbound). rewrite Ex in Hx.
  destruct Hx as [Hg He]. exists (msg_gasLimit msg - i), g, vmerr, (st_state (started t i)), s2.
  split; [done |]. split; [done |].
  assert (Hr : 0 <= GetRefund s2).
  { apply (so_refund s2). eapply (effects_state_ok env); [| exact He]. eapply (effects_state_ok env); [exact Hstate |].
    rewrite <- Hs. apply started_effects. }
  destruct (started_fields t i) as (Egp & Em & _ & Epr & Ein & El1 & Eda & Ebal). rewrite Hm, Hs in *.
  apply refundGas_Ok in Er; cbn [ran set_state set_gas st_gas st_initialGas st_state st_gp st_msg st_gasPrice st_l1Fee st_daFee] in *;
    [| lia | lia | done].
  set (lg := left_gas _) in Er. destruct Er as [Hlg ->]. rewrite Ein, Egp, Em, Epr, El1, Eda in *.
  assert (Eu : used = msg_gasLimit msg - lg) by (rewrite Hu; unfold gasUsed; cbn; apply wrap_small; lia).
  assert (Ebuy : buy_value t' = buy_value t) by (subst t'; unfold buy_value; cbn; by rewrite Hm).
  split; [lia |]. rewrite Ebuy. split; [subst t'; cbn; lia |]. split; [done |]. split; [done |].
  subst t'. cbn. intros l Hnd Hin Hc Hmax (Hpr & Hl1 & Hda & Hroom). cbn in *.
  rewrite <- Hu.
  rewrite credits_supply; [| done | done | done | nia | nia |
    intros a Ha; specialize (Hroom a Ha); subst used; rewrite Eu; nia].
  assert (Es1 : supply l (st_state (started t i)) = supply l s - buy_value t).
  { rewrite (supply_same Keccak256 l _ _ Ebal). apply supply_SubBalance; [done | done |].
    split; [lia |]. unfold buy_value. rewrite Hm. destruct (_ =? _); nia. }
  rewrite Es1. unfold buy_value. rewrite Hm, Eu. destruct (_ =? QueueOriginSequencer); lia.
Qed.

(** The errors of a transition. *)
Definition transition_errors : list error :=
  [errInsufficientBalanceForGas; ErrGasLimitReached; ErrNonceTooHigh; core_ErrNonceTooLow; vm_ErrOutOfGas; ErrInsufficientBalance].

Ltac listed := by apply (bool_decide_unpack _).

Lemma preCheck_spec t :
  wp (preCheck Keccak256) (λ r t',
    match r with
    | Ok _ => t' = bought t ∧ msg_gasLimit (st_msg t) <= st_gp t
    | Err e => e ∈ transition_errors
    | Panic _ => False
    end) t.
Proof.
  assert (Hb : wp (buyGas Keccak256) (λ r t',
    match r with
    | Ok _ => t' = bought t ∧ msg_gasLimit (st_msg t) <= st_gp t
    | Err e => e ∈ transition_errors
    | Panic _ => False
    end) t).
  { unfold wp. rewrite buyGas_spec. destruct (_ <? buy_value t); [listed |].
    destruct (Z.ltb_spec (st_gp t) (msg_gasLimit (st_msg t))); [listed | done]. }
  unfold preCheck. wp_steps. destruct (msg_checkNonce (st_msg t)); [| done]. destruct (_ =? QueueOriginL1ToL2); [done |].
  destruct (_ <? msg_nonce _); [wp_steps; listed |]. destruct (msg_nonce _ <? _); [wp_steps; listed | done].
Qed.

Lemma IntrinsicGas_spec d create homestead istanbul :
  match IntrinsicGas d create homestead istanbul with Ok g => 0 <= g | Err e => e = vm_ErrOutOfGas | Panic _ => False end.
Proof.
  destruct (IntrinsicGas d create homestead istanbul) eqn:E; [by eapply IntrinsicGas_range | |];
    unfold IntrinsicGas in E; destruct d; try done; cbv zeta in E; repeat case_match; congruence.
Qed.

Lemma refundGas_spec t :
  0 <= st_gas t <= st_initialGas t → st_initialGas t < 2 ^ 64 → 0 <= GetRefund (st_state t) →
  st_gp t + st_initialGas t < 2 ^ 64 →
  wp (refundGas Keccak256) (λ r t', r = Ok tt ∧ 0 <= gasUsed t' <= st_initialGas t) t.
Proof.
  intros Hg Hi Hr Hp. assert (Hu : gasUsed t = st_initialGas t - st_gas t) by (unfold gasUsed; by rewrite wrap_small by lia).
  assert (0 <= gasUsed t / 2 <= gasUsed t) by (split; [apply Z.div_pos | apply Z.div_le_upper_bound]; lia).
  assert (Hl : st_gas t <= left_gas t <= st_initialGas t) by (unfold left_gas; lia).
  unfold refundGas. wp_steps. fold (left_gas t). rewrite wrap_small by lia.
  unfold AddGas. cbn. destruct (Z.ltb_spec (max_uint64 - left_gas t) (st_gp t)); [unfold max_uint64 in *; lia |]. wp_steps.
  split; [done |]. unfold gasUsed. cbn. rewrite wrap_small by lia. lia.
Qed.

(** A transition ends with a result, one of its errors or the refund panic. *)
Lemma total_of_run coinbase t :
  message_ok (st_msg t) → state_ok (st_state t) → msg_gasLimit (st_msg t) < bound → st_gas t = 0 → st_gp t < 2 ^ 64 →
  wp (TransitionDb coinbase) (λ r _,
    match r with
    | Ok (_, used, _) => 0 <= used <= msg_gasLimit (st_msg t)
    | Err e => e ∈ transition_errors
    | Panic m => m = refund_panic
    end) t.
Proof.
  intros Hm Hs Hb H0 Hgp. pose proof (mo_gas _ Hm) as Hl. unfold StateTransition.TransitionDb. wp_step.
  eapply wp_mono; [apply preCheck_spec |]. intros [[] | e | m] t1 H1; wp_steps; [| done..]. destruct H1 as [-> Hg].
  pose proof (IntrinsicGas_spec (msg_data (st_msg t)) (bool_decide (msg_to (st_msg t) = None)) (IsHomestead rules) (IsIstanbul rules)) as Hi.
  cbn [st_msg bought]. destruct (IntrinsicGas _ _ _ _) as [i | e | m]; wp_steps; [| subst; listed | done].
  assert (Eg : st_gas (bought t) = msg_gasLimit (st_msg t)) by (cbn; rewrite H0; apply wrap_small; lia).
  unfold useGas at 1. wp_steps. rewrite Eg. destruct (Z.ltb_spec (msg_gasLimit (st_msg t)) i); wp_steps; [listed |].
  apply (wp_mono _ (λ r t', r = Ok tt ∧ t' = started t i)).
  { unfold started. destruct (IsBerlin rules); by wp_steps. }
  intros r t' [-> ->]. wp_steps. destruct (started_fields t i) as (Egp & _ & Esg & _ & Ein & _). rewrite Esg.
  pose proof (execute_started t i Hm Hs ltac:(lia) Hb) as Hx.
  destruct (execute (st_msg t) _ _) as [[[[ret g] vmerr] s2] | |]; wp_steps; [| done..]. destruct Hx as [Hg2 He].
  assert (Hr : 0 <= GetRefund s2).
  { apply (so_refund s2). eapply (effects_state_ok env); [| exact He]. eapply (effects_state_ok env); [exact Hs | apply started_effects]. }
  case_bool_decide; wp_steps; [listed |]. fold (ran (started t i) g s2).
  eapply wp_mono; [apply (refundGas_spec (ran (started t i) g s2)); cbn; rewrite ?Ein, ?Egp; (done || lia) |].
  intros r t2 [-> Hu]. wp_steps. cbn in Hu. by rewrite Ein in Hu.
Qed.

End Total.

End Accounts.

(** ** Messages executed by the interpreter *)

Section Interpreted.
  Context (Keccak256 : list byte → list byte) (ContractCode : list byte → list byte).
  Context (uint64_out_of_range : Z → Z).
  Context (rules : Rules) (ctx : BlockContext) (precompiles : gmap address PrecompiledContract).
  Context `{!Setting Keccak256 rules ctx precompiles}.

Abbreviation GetBalance := (StateDB.GetBalance Keccak256).
Abbreviation SubBalance := (StateDB.SubBalance Keccak256).
Abbreviation supply := (supply Keccak256).
Abbreviation apart l := (NoDup (map (GetbvmBalanceKey Keccak256) l)).
Abbreviation run := (EvmInterpreter.run Keccak256 ContractCode rules ctx precompiles).
Abbreviation execute fuel := (execute Keccak256 ContractCode (run fuel) rules (precompiled precompiles) (NoRecursion ctx)).
Abbreviation ApplyMessage fuel :=
  (ApplyMessage Keccak256 ContractCode uint64_out_of_range (run fuel) rules (precompiled precompiles) (NoRecursion ctx)).

(** C6: Accounts of a message that ApplyMessage executes: the gas used is at most the limit, the gas
    pool loses exactly that gas, the sender could pay the gas limit and the fees in advance, and the
    sum of the balances changes by what the contracts did alone: all fees taken are paid out to the
    coinbase. For messages from L1 the coinbase is credited the L1 and DA fees although nobody was
    charged for them. *)
Theorem ApplyMessage_accounts fuel coinbase msg gp s ret used failed t' :
  message_ok msg → state_ok Keccak256 ContractCode s → msg_gasLimit msg < Z.of_nat fuel →
  ApplyMessage fuel coinbase msg gp s = (Ok (ret, used, failed), Some t') →
  ∃ g g' vmerr s1 s2,
    execute fuel msg g s1 = Ok (ret, g', vmerr, s2) ∧ failed = bool_decide (vmerr ≠ None) ∧
    0 <= used <= msg_gasLimit msg ∧ st_gp t' = gp - used ∧
    buy_value t' <= GetBalance (msg_from msg) s ∧
    (∀ a, GetBalance a s1 = GetBalance a (SubBalance (msg_from msg) (buy_value t') s)) ∧
    ∀ l, apart l → msg_from msg ∈ l → coinbase ∈ l → GetBalance (msg_from msg) s < 2 ^ 256 → room Keccak256 l s2 t' →
      supply l (st_state t') - supply l s =
        (supply l s2 - supply l s1) +
        if msg_queueOrigin msg =? QueueOriginSequencer then 0 else st_l1Fee t' + st_daFee t'.
Proof.
  exact (accounts_of_run Keccak256 ContractCode uint64_out_of_range (run fuel) rules ctx (precompiled precompiles) (NoRecursion ctx)
    (setting_environment _ rules _ precompiles) (Z.of_nat fuel) (run_is_safe _ _ _ _ _ fuel) coinbase msg gp s ret used failed t').
Qed.


End Interpreted.
