(* ===== verification/Admission.v ===== *)
(** The fee check of the sync service against the state transition: a
    transaction that passes [verifyFee] of src/l2geth/rollup/sync_service.go can
    pay for itself when src/l2geth/core/state_transition.go executes it in the
    same state. *)

From S2P Require Import StateDB StateDBFacts StateBalances EvmCommon EvmCalls StateTransition StateTransitionFacts.
From S2P Require Import Prelude Rlp TxMeta Transaction BigFloat Fees RollupIndexes SyncService SyncServiceFacts.

Section Admission.
  Context {W : Type} {E : SyncEnv W}.

Abbreviation Keccak256 := SyncService.Keccak256.
Abbreviation Balance := (StateDB.GetBalance SyncService.Keccak256).
Abbreviation AsMessage := (AsMessage SyncService.Keccak256 SyncService.Ecrecover true (signer cfg)).
Abbreviation NewStateTransition := (NewStateTransition SyncService.uint64_out_of_range).

(** The service and the EVM look at the same state. *)
Definition views (state : statedb) (sdb : StateDB) : Prop :=
  (∀ slot, gpo_slots state slot = oracle_slots sdb slot) ∧
  ∀ a, SyncService.GetBalance state a = Balance a sdb.

(** Words and conversions are not negative. *)
Definition unsigned (sdb : StateDB) : Prop :=
  (∀ slot, 0 <= oracle_slots sdb slot) ∧ (∀ a, Balance a sdb < 2 ^ 256) ∧ ∀ z, 0 <= uint64_out_of_range z.

Lemma AsMessage_sequencer tx msg tx' :
  caches_ok Keccak256 Ecrecover tx → QueueOrigin (meta tx) = QueueOriginSequencer → AsMessage tx = (Ok msg, tx') →
  signer_Sender Keccak256 Ecrecover (signer cfg) tx = Ok (msg_from msg) ∧
  msg_nonce msg = AccountNonce (data tx) ∧ msg_amount msg = Amount (data tx) ∧
  msg_gasLimit msg = GasLimit (data tx) ∧ msg_checkNonce msg = true ∧
  msg_queueOrigin msg = QueueOriginSequencer.
Proof.
  intros Hc Hq. destruct (Sender_cached _ _ (signer cfg) _ Hc) as [Hs _]. unfold Transaction.AsMessage.
  assert (Ef : AsMessage_from Keccak256 Ecrecover true (signer cfg) tx = Sender Keccak256 Ecrecover (signer cfg) tx).
  { unfold AsMessage_from. rewrite Hq. by destruct (L1MessageSender (meta tx)). }
  rewrite Ef. destruct (Sender _ _ _ tx) as [[from | |] t1]; [| done | done]. intros [= <- <-]. done.
Qed.

(** What [verifyFee] has checked when it succeeds. *)
Lemma verifyFee_Ok tx s s' :
  coherent s → verifyFee tx s = (Ok tt, s') →
  ∃ state fee from, State (bc s) = Ok state ∧
    CalculateTotalFee uint64_out_of_range tx (oracle_of (gpo_slots state)) = Ok fee ∧
    signer_Sender Keccak256 Ecrecover (signer cfg) tx = Ok from ∧
    Amount (data tx) + (if Price (data tx) =? 0 then 0 else fee) <= SyncService.GetBalance state from.
Proof.
  intros (state & HS & Hg & _) Ev. unfold verifyFee in Ev.
  apply st_bind_Ok in Ev as (gpo & s1 & [= <- <-] & Ev). apply st_bind_Ok in Ev as (fee & s1 & Ef & Ev).
  apply st_bind_Ok in Ev as (chain & s2 & [= <- <-] & Ev). apply st_bind_Ok in Ev as (state' & s2 & Es & Ev).
  apply st_bind_Ok in Ev as (from & s3 & Efr & Ev).
  unfold st_wrap_err, st_lift in Ef. destruct (CalculateTotalFee _ tx _) as [fee' | |] eqn:Efee; [| done | done].
  injection Ef as -> <-. rewrite Hg in Efee. unfold st_lift in Es. rewrite HS in Es. injection Es as <- <-.
  unfold st_catch, st_lift in Efr. destruct (signer_Sender _ _ _ tx) as [from' | |] eqn:Esn; [| done | done].
  injection Efr as -> <-. exists state, fee, from. split; [done |]. split; [done |]. split; [done |].
  destruct (Z.ltb_spec (SyncService.GetBalance state from) (if Price (data tx) =? 0 then Amount (data tx) else Amount (data tx) + fee));
    [done |]. destruct (_ =? 0); lia.
Qed.

Lemma CalculateL1Fee_nonneg raw overhead price f switch :
  (∀ z, 0 <= uint64_out_of_range z) → 0 <= CalculateL1Fee uint64_out_of_range raw overhead price f switch.
Proof.
  intros Hconv. unfold CalculateL1Fee, mulByFloat. cbv zeta. destruct (0 <=? _) eqn:E0; cbn; [| apply Hconv].
  destruct (_ <? _); [lia | apply Hconv].
Qed.

Lemma CalculateDAFee_nonneg raw price : 0 <= price → 0 <= CalculateDAFee raw price.
Proof. intros. unfold CalculateDAFee, CalculateDAGasUsed. pose proof (len_nonneg raw). nia. Qed.

#[local] Opaque CalculateL1Fee CalculateDAFee.

(** The charge of a transition, from what the check has computed. *)
Lemma charge_le_fee tx msg gp sdb fee tx' :
  AsMessage tx = (Ok msg, tx') → msg_gasLimit msg = GasLimit (data tx) →
  unsigned sdb → 0 <= Price (data tx) → 0 <= GasLimit (data tx) →
  CalculateTotalFee uint64_out_of_range tx (oracle_of (oracle_slots sdb)) = Ok fee →
  ∃ t, NewStateTransition msg gp sdb = Ok t ∧ 0 <= buy_value t <= if Price (data tx) =? 0 then 0 else fee.
Proof.
  intros Hm Hl (Hslots & _ & Hconv) Hp Hg. destruct (asTransaction_copy _ _ _ _ _ _ _ Hm) as [Ht Hpr].
  unfold StateTransition.NewStateTransition, CalculateTotalFee, CalculateL1MsgFee, CalculateDAMsgFee. rewrite Ht, Hpr.
  destruct (rlpEncode (copyTransaction tx)) as [raw | |]; cbn; [| done | done].
  destruct (Z.eqb_spec (Price (data tx)) 0) as [H0 | H0]; cbn.
  - intros _. eexists. split; [done |]. unfold buy_value. cbn. rewrite H0. destruct (_ =? _); lia.
  - match goal with |- context [CalculateL1Fee ?c ?d ?o ?p ?f ?w] =>
      pose proof (CalculateL1Fee_nonneg d o p f w Hconv); generalize dependent (CalculateL1Fee c d o p f w) end.
    pose proof (CalculateDAFee_nonneg raw _ (Hslots DaGasPriceSlot)).
    generalize dependent (CalculateDAFee raw (oracle_slots sdb DaGasPriceSlot)). intros da Hda l1 Hl1.
    assert (0 <= Price (data tx) * GasLimit (data tx)) by nia.
    destruct (oracle_slots sdb DaSwitchSlot =? 1); cbn; intros [= <-]; (eexists; split; [done |]); unfold buy_value; cbn;
      rewrite Hl; destruct (oracle_slots sdb ChargeSlot =? 0), (_ =? QueueOriginSequencer); lia.
Qed.

Lemma preCheck_succeeds t :
  msg_checkNonce (st_msg t) = true → msg_nonce (st_msg t) = GetNonce (msg_from (st_msg t)) (st_state t) →
  buy_value t <= Balance (msg_from (st_msg t)) (st_state t) → msg_gasLimit (st_msg t) <= st_gp t →
  preCheck Keccak256 t = (Ok tt, bought Keccak256 t).
Proof.
  intros Hc Hn Hb Hg. assert (Ebuy : buyGas Keccak256 t = (Ok tt, bought Keccak256 t)).
  { rewrite buyGas_spec. destruct (Z.ltb_spec (Balance (msg_from (st_msg t)) (st_state t)) (buy_value t)); [lia |].
    destruct (Z.ltb_spec (st_gp t) (msg_gasLimit (st_msg t))); [lia | done]. }
  unfold preCheck. cbv [mbind st_bind st_get]. rewrite Hc, Hn, Z.ltb_irrefl. by destruct (_ =? _).
Qed.


End Admission.
