(* ===== verification/StateExamples.v ===== *)
(** Transactions in a small state: the theorems on the state database, the
    state transition and the fee check applied to concrete accounts.

    The hash function returns the first 32 bytes, so the balance of an account
    is in the slot of its padded address. *)

From S2P Require Import StateDB StateDBFacts StateBalances EvmEffects EvmCommon EvmCalls EvmGas EvmInstructions EvmJumpTable EvmInterpreter.
From S2P Require Import EvmWords EvmGasFacts EvmSafety EvmRun EvmPrecompiles EvmPrecompilesFacts EvmTheorems StateTransition StateTransitionFacts Admission.
From S2P Require Import Prelude Rlp TxMeta Transaction BigFloat Fees RollupIndexes SyncService SyncServiceFacts SyncServiceExamples.

Abbreviation slot_of := (GetbvmBalanceKey toy_Keccak256).
Abbreviation balance := (StateDB.GetBalance toy_Keccak256).

Definition receiver : address := replicate 20 Byte.x11.
Definition sequencer : address := replicate 20 Byte.x42.
Definition reverter : address := replicate 20 Byte.x22.
Definition reader : address := replicate 20 Byte.x33.
Definition spender : address := replicate 20 Byte.x44.

(** Contracts by the hashes of their codes. The first one counts in its first slot; the second one writes and
    reverts; the third one returns its first slot; the fourth one sends 5 away and then calls the token contract;
    the last one, of the token contract, stores 1 in the slot of its caller's balance. *)
Definition codes : list (list byte) := map (map z2b)
  [[0x60; 0x00; 0x54; 0x60; 0x01; 0x01; 0x60; 0x00; 0x55; 0x00];
   [0x60; 0x01; 0x60; 0x00; 0x55; 0x60; 0x00; 0x60; 0x00; 0xfd];
   [0x60; 0x00; 0x54; 0x60; 0x00; 0x52; 0x60; 0x20; 0x60; 0x00; 0xf3];
   [0x60; 0x00; 0x60; 0x00; 0x60; 0x00; 0x60; 0x00; 0x60; 0x05; 0x60; 0x99; 0x5a; 0xf1;
    0x60; 0x00; 0x60; 0x00; 0x60; 0x00; 0x60; 0x00; 0x60; 0x00; 0x73] ++ map b2z BvmMantleAddress ++ [0x5a; 0xf1; 0x00];
   [0x60; 0x01; 0x33; 0x55; 0x00]].

Definition hash_of (n : Z) : list byte := [z2b n].
Definition example_code (h : list byte) : list byte := default [] (codes !! Z.to_nat (be_val h - 1)).

Definition balances : gmap Z Z := {[ slot_of owner := 10 ^ 18; slot_of receiver := 7; slot_of spender := 5 ]}.

(** The L1 price is 30, the overhead 2750, the scalar 1.5, the DA price 5 and the L2 price 1000. *)
Definition oracle_words : gmap Z Z :=
  {[ L1GasPriceSlot := 30; OverheadSlot := 2750; ScalarSlot := 15; DecimalsSlot := 1; DaGasPriceSlot := 5;
     DaSwitchSlot := 1; ChargeSlot := 1; L2GasPriceSlot := 1000; L2GasPriceOracleOwnerSlot := be_val owner ]}.

Definition example_trie : gmap address account :=
  let account nonce hash storage := {| acc_Nonce := nonce; acc_Balance := 0; acc_CodeHash := hash; acc_storage := storage |} in
  {[ BvmMantleAddress := account 1 (hash_of 5) balances;
     L2GasPriceOracleAddress := account 1 (hash_of 9) oracle_words;
     owner := account 5 (toy_Keccak256 []) ∅;
     receiver := account 1 (hash_of 1) {[ 0 := 41 ]};
     reverter := account 1 (hash_of 2) ∅;
     reader := account 1 (hash_of 3) {[ 0 := 17 ]};
     spender := account 1 (hash_of 4) ∅ ]}.

Definition example_state : StateDB := New example_trie.

(** ** Snapshots *)

(** Two nested snapshots; the outer one is reverted. *)
Definition example_commands : list command :=
  [CDo (OSetNonce owner 6); CSnapshot; CDo (OAddBalance receiver 5); CDo (OCreateAccount sequencer); CSnapshot;
   CDo (OSuicide owner); CDo (OAddSlot owner 3); CRevert 0; CDo (OSubBalance owner 10)].

Lemma snapshots_refine_witness :
  ∃ s' m, run_commands toy_Keccak256 example_code example_commands example_state = Ok s' ∧
    spec_commands toy_Keccak256 example_code example_commands {| current := example_state; saved := []; next := 0 |} = Ok m ∧
    same_answers toy_Keccak256 example_code s' (current m) ∧ balance receiver s' = 7.
Proof.
  pose proof (snapshots_refine toy_Keccak256 example_code example_commands example_state (New_wf _) eq_refl) as H.
  assert (Hr : from_option (λ s, balance receiver s) 0
                 (match run_commands toy_Keccak256 example_code example_commands example_state with Ok s => Some s | _ => None end) = 7)
    by (vm_compute; reflexivity).
  change (nextRevisionId example_state) with 0 in H.
  destruct (run_commands toy_Keccak256 example_code example_commands example_state) as [s' | |]; [| discriminate | discriminate].
  destruct (spec_commands toy_Keccak256 example_code example_commands _) as [m | |]; [| contradiction | contradiction].
  exists s', m. split; [reflexivity |]. split; [reflexivity |]. split; [apply H | exact Hr].
Defined.

(** ** Self-destruction *)

Definition rules_of (update : bool) : Rules :=
  {| IsHomestead := true; IsEIP150 := true; IsEIP158 := true; IsByzantium := true; IsConstantinople := true;
     IsPetersburg := true; IsIstanbul := true; IsBerlin := true; IsSDUpdate := update |}.

Abbreviation berlin := (rules_of true).
Abbreviation before_update := (rules_of false).

Definition everyone : list address := [owner; receiver; sequencer].

Lemma everyone_apart : NoDup (map slot_of everyone).
Proof. by apply (bool_decide_unpack _); vm_compute. Qed.

Lemma opSuicide_supply_witness :
  supply toy_Keccak256 everyone (suicide_state toy_Keccak256 berlin owner receiver example_state) = 10 ^ 18 + 7 ∧
  supply toy_Keccak256 everyone (suicide_state toy_Keccak256 before_update owner receiver example_state) = 2 * 10 ^ 18 + 7.
Proof.
  split.
  - refine (opSuicide_supply toy_Keccak256 berlin owner receiver everyone example_state everyone_apart _ _ _ _ _);
      try (repeat constructor; fail); vm_compute; (reflexivity || discriminate).
  - refine (opSuicide_supply toy_Keccak256 before_update owner receiver everyone example_state everyone_apart _ _ _ _ _);
      try (repeat constructor; fail); vm_compute; (reflexivity || discriminate).
Defined.

(** ** A transfer *)

Definition transfer : Message :=
  {| msg_to := Some receiver; msg_from := owner; msg_nonce := 5; msg_amount := 300; msg_gasLimit := 50000;
     msg_gasPrice := 1000; msg_data := [Byte.x01; Byte.x00]; msg_checkNonce := true; msg_l1Timestamp := 0;
     msg_l1BlockNumber := None; msg_queueOrigin := QueueOriginSequencer |}.

Definition block_context : BlockContext :=
  {| GetHash := λ _, replicate 32 Byte.x00; Origin := owner; EvmCommon.GasPrice := 1000; Coinbase := sequencer; EvmCommon.GasLimit := 15000000;
     BlockNumber := 100; Time := 1650000000; Difficulty := 1; EvmCommon.L1BlockNumber := 10; ChainID := 5000; NoRecursion := false;
     EnablePreimageRecording := false |}.

Lemma toy_Keccak256_length d : length (toy_Keccak256 d) = 32%nat.
Proof. unfold toy_Keccak256. rewrite length_take, length_app, length_replicate. lia. Qed.

(** A group with one element, and a hash that pads. *)
#[export] Instance toy_Bn256 : Bn256 :=
  {| G1 := (); G2 := (); G1_Unmarshal := λ _, Ok tt; G2_Unmarshal := λ _, Ok tt; G1_Add := λ _ _, tt; G1_ScalarMult := λ _ _, tt;
     G1_Marshal := λ _, replicate 64 Byte.x00; PairingCheck := λ _ _, true |}.

Definition toy_ripemd160 (d : list byte) : list byte := take 20 (d ++ replicate 20 Byte.x00).

#[export] Instance toy_laws : CryptoLaws toy_Keccak256 toy_Ecrecover toy_ripemd160.
Proof.
  split; try done; [apply toy_Keccak256_length |].
  intros d. unfold toy_ripemd160. rewrite length_take, length_app, length_replicate. lia.
Qed.

Definition contracts : gmap address PrecompiledContract := precompiles_of toy_Keccak256 toy_Ecrecover toy_ripemd160 berlin.

#[export] Instance contracts_safe : SafePrecompiles contracts.
Proof. apply precompiles_safe. apply _. Qed.

#[export] Instance example_setting update : Setting toy_Keccak256 (rules_of update) block_context contracts.
Proof.
  split; [split; cbn | | apply _]; try (intros; rewrite ?length_replicate; lia); try (unfold word; lia).
  - apply toy_Keccak256_length.
  - done.
Qed.

Lemma example_state_ok : state_ok toy_Keccak256 example_code example_state.
Proof.
  apply New_ok. apply (bool_decide_unpack _). vm_compute. done.
Qed.

Definition fuel : nat := Z.to_nat 50001.

Lemma transfer_ok : message_ok transfer.
Proof. split; cbn; try (unfold small, word, len; cbn; lia). intros a [= <-]; cbn; lia. Qed.

Lemma transfer_starts : ∃ t, NewStateTransition amd64_conversion transfer 10000000 example_state = Ok t.
Proof.
  assert (H : match NewStateTransition amd64_conversion transfer 10000000 example_state with Ok _ => True | _ => False end)
    by (vm_compute; exact I).
  destruct (NewStateTransition _ _ _ _) as [t | |]; [by exists t | done..].
Qed.

Lemma fuel_enough : msg_gasLimit transfer < Z.of_nat fuel.
Proof. unfold fuel. rewrite Z2Nat.id; cbn; lia. Qed.

Abbreviation example_run := (EvmInterpreter.run toy_Keccak256 example_code berlin block_context contracts).
Abbreviation apply_transfer :=
  (ApplyMessage toy_Keccak256 example_code amd64_conversion (example_run fuel) berlin (precompiled contracts) false
     sequencer transfer 10000000 example_state).

(** The transfer calls the counter and uses 26032 gas; nobody's money is lost. *)
Lemma ApplyMessage_accounts_witness :
  ∃ t', apply_transfer = (Ok ([], 26032, false), Some t') ∧ st_gp t' = 10000000 - 26032 ∧
    supply toy_Keccak256 everyone (st_state t') = supply toy_Keccak256 everyone example_state ∧
    ∃ g g' s1 s2, execute toy_Keccak256 example_code (example_run fuel) berlin (precompiled contracts) false transfer g s1 = Ok ([], g', None, s2) ∧
      buy_value t' <= balance owner example_state.
Proof.
  assert (H : match apply_transfer with
              | (Ok r, Some t) => r = ([], 26032, false) ∧
                  supply toy_Keccak256 everyone (st_state t) = supply toy_Keccak256 everyone example_state
              | _ => False
              end) by (vm_compute; split; reflexivity).
  destruct apply_transfer as [[r | |] [t' |]] eqn:E; try contradiction. destruct H as [-> Hs].
  destruct (ApplyMessage_accounts toy_Keccak256 example_code amd64_conversion berlin block_context contracts fuel sequencer transfer 10000000
    example_state [] 26032 false t' transfer_ok example_state_ok fuel_enough E) as (g & g' & vmerr & s1 & s2 & He & Hf & _ & Hg & Hb & _).
  destruct vmerr as [err |]; [discriminate Hf |].
  exists t'. split; [reflexivity |]. split; [exact Hg |]. split; [exact Hs |].
  exists g, g', s1, s2. split; [exact He | exact Hb].
Defined.


(** ** A transaction over RPC *)

#[local] Instance state_env : SyncEnv () := {|
  cfg := @cfg _ (example_env true true);
  client := example_client;
  time_Now := mret (1650000200 * second);
  State := λ _, Ok {| gpo_slots := oracle_slots example_state; SyncService.GetBalance := λ a, balance a example_state |};
  mine := λ chain _, mret (root_at (len chain));
  executor_applyTx := λ chain _, mret (root_at (len chain));
  bc_SetHead := λ n chain, Ok (take (S (Z.to_nat n)) chain);
  Keccak256 := toy_Keccak256;
  Ecrecover := toy_Ecrecover;
  unpack_relay := λ _, (zero_address, zero_address, []);
  unpack_rollback := λ _, None;
  SyncService.BvmRollbackAddress := EvmCalls.BvmRollbackAddress;
  uint64_out_of_range := amd64_conversion;
  txpool_ValidateTx := λ _, mret tt;
|}.

Definition node : SyncService () :=
  {| world := tt; db := ∅; bvm_timestamp := 1650000000; bvm_blockNumber := 10; bc := [genesis];
     RollupGpo := oracle_of (oracle_slots example_state); gasPriceOracleOwnerAddress := owner; syncing := None |}.

Lemma node_coherent : coherent node.
Proof. eexists. split; [reflexivity |]. split; [reflexivity | vm_compute; reflexivity]. Qed.

Lemma example_words a acc k :
  trie example_state !! a = Some acc → map_Forall (λ _ v, 0 <= v < 2 ^ 256) (acc_storage acc) →
  0 <= GetState a k example_state < 2 ^ 256.
Proof.
  intros Ha Hw. unfold GetState, getStateObject, getDeletedStateObject.
  change (stateObjects example_state) with (∅ : gmap address stateObject).
  rewrite lookup_empty, Ha. cbn. unfold obj_GetState, obj_GetCommittedState. cbn. rewrite !lookup_empty.
  destruct (acc_storage acc !! k) eqn:Ek; [exact (Hw _ _ Ek) | cbn; lia].
Qed.

Lemma example_unsigned : unsigned example_state.
Proof.
  split; [| split; [| done]].
  - intros slot. eapply (example_words L2GasPriceOracleAddress); [vm_compute; reflexivity |].
    apply (bool_decide_unpack _). vm_compute. done.
  - intros a. eapply (example_words BvmMantleAddress); [vm_compute; reflexivity |].
    apply (bool_decide_unpack _). vm_compute. done.
Qed.

Definition rpc_message : Message :=
  {| msg_to := Some receiver; msg_from := owner; msg_nonce := 5; msg_amount := 300; msg_gasLimit := 21000;
     msg_gasPrice := 1000; msg_data := [Byte.x01; Byte.x00]; msg_checkNonce := true; msg_l1Timestamp := 0;
     msg_l1BlockNumber := None; msg_queueOrigin := QueueOriginSequencer |}.

