(* ===== verification/EvmExamples.v ===== *)
(** The contracts of StateExamples.v in the interpreter. *)

From S2P Require Import StateDB StateDBFacts StateBalances EvmEffects EvmCommon EvmCalls EvmAnalysis EvmGas EvmInstructions EvmJumpTable EvmInterpreter.
From S2P Require Import EvmWords EvmGasFacts EvmSafety EvmRun Sha256 Blake2b EvmPrecompiles EvmPrecompilesFacts EvmTheorems StateTransition StateTransitionFacts Admission.
From S2P Require Import Prelude Rlp TxMeta Transaction BigFloat Fees RollupIndexes SyncService SyncServiceFacts SyncServiceExamples StateExamples.

Abbreviation example_evm_ok := (evm_ok toy_Keccak256 example_code).

(** A machine in which [a] may be called. *)
Definition machine (a : address) : EVM := NewEVM (AddAddressToAccessList a example_state).

Lemma machine_ok a : example_evm_ok (machine a).
Proof.
  apply NewEVM_ok. eapply (effects_state_ok toy_Keccak256 example_code block_context (setting_environment _ berlin _ contracts) false);
    [apply example_state_ok |]. by eapply (effects_one _ _ _ (OAddAddress a)).
Qed.

Lemma machine_accessed a : a ∈ dom (al_addresses (access (evm_StateDB (machine a)))).
Proof. apply AddAddress_accessed. Qed.

Definition counter (gas : Z) : Contract := NewContract owner receiver 0 gas receiver (example_code (hash_of 1)).

Lemma counter_ok gas : contract_ok (counter gas).
Proof. split; try (unfold word; cbn; lia). unfold small. vm_compute. done. Qed.

(** ** Runs *)

Definition many : nat := Z.to_nat 30001.

Lemma many_value : Z.of_nat many = 30001.
Proof. unfold many. by rewrite Z2Nat.id. Qed.

(** The counter goes from 41 to 42, for 5012 gas. *)
Lemma run_total_witness :
  ∃ e', example_run many (counter 30000) [] false (machine receiver) = Ok ([], 24988, None, e') ∧
    GetState receiver 0 (evm_StateDB e') = 42 ∧ example_evm_ok e' ∧
    ∀ fuel', 30000 < Z.of_nat fuel' → example_run fuel' (counter 30000) [] false (machine receiver) = Ok ([], 24988, None, e').
Proof.
  assert (H : match example_run many (counter 30000) [] false (machine receiver) with
              | Ok (ret, g, err, e) => ret = [] ∧ g = 24988 ∧ err = None ∧ GetState receiver 0 (evm_StateDB e) = 42
              | _ => False
              end) by (vm_compute; repeat split).
  destruct (run_total toy_Keccak256 example_code berlin block_context contracts many (counter 30000) [] false (machine receiver)
    (counter_ok 30000) ltac:(done) (machine_ok receiver) ltac:(cbn; lia) (λ _, machine_accessed receiver)
    ltac:(rewrite many_value; cbn; lia)) as [Hfuel Hrun].
  destruct (example_run many _ _ _ _) as [[[[ret g] err] e'] | |]; [| contradiction | contradiction].
  destruct H as (-> & -> & -> & Hs). exists e'. split; [reflexivity |]. split; [exact Hs |]. split; [apply Hrun | exact Hfuel].
Defined.

(** The first iteration of the counter. *)
Definition first_frame : Frame :=
  {| pc := 0; f_stack := []; f_store := []; lastGasCost := 0; f_Gas := 30000; f_evm := machine receiver |}.

Lemma first_frame_ok : frame_ok toy_Keccak256 example_code berlin (counter 30000) first_frame.
Proof.
  split; [constructor | cbn; lia | split; cbn; (done || lia) | cbn; lia | cbn; lia | apply machine_ok |].
  intros _. apply machine_accessed.
Qed.

Lemma step_keeps_frames_witness :
  ∃ f', step toy_Keccak256 example_code berlin block_context contracts (example_run many) (counter 30000) [] first_frame = (Ok Continue, f') ∧
    f_stack f' = [0] ∧ pc f' = 2 ∧ f_Gas f' = 29997 ∧ frame_ok toy_Keccak256 example_code berlin (counter 30000) f'.
Proof.
  assert (H : match step toy_Keccak256 example_code berlin block_context contracts (example_run many) (counter 30000) [] first_frame with
              | (Ok Continue, f') => f_stack f' = [0] ∧ pc f' = 2 ∧ f_Gas f' = 29997
              | _ => False
              end) by (vm_compute; repeat split).
  pose proof (step_keeps_frames toy_Keccak256 example_code berlin block_context contracts many (counter 30000) [] first_frame
    (counter_ok 30000) ltac:(done) first_frame_ok ltac:(rewrite many_value; cbn; lia)) as Hs.
  destruct (step _ _ _ _ _ _ _ _ _) as [[[|] | |] f']; try contradiction. destruct H as (H1 & H2 & H3).
  exists f'. split; [reflexivity |]. split; [exact H1 |]. split; [exact H2 |]. split; [exact H3 | apply Hs].
Defined.

(** ** Calls *)

Lemma example_call_ok a :
  (length a <= 32)%nat → call_ok toy_Keccak256 example_code (Z.of_nat many) owner a [] 30000 (machine a).
Proof. intros Ha. split; [cbn; lia | done | done | rewrite many_value; lia | lia | apply machine_ok]. Qed.

(** The second contract writes a slot and reverts. *)
Lemma failed_call_restores_witness :
  ∃ e', evm_Call toy_Keccak256 example_code (example_run many) berlin (precompiled contracts) false owner reverter [] 30000 3 (machine reverter)
      = Ok ([], 7888, Some errExecutionReverted, e') ∧
    state_equiv toy_Keccak256 example_code (evm_StateDB e') (evm_StateDB (machine reverter)).
Proof.
  assert (H : match evm_Call toy_Keccak256 example_code (example_run many) berlin (precompiled contracts) false owner reverter [] 30000 3 (machine reverter) with
              | Ok (ret, g, err, e') => ret = [] ∧ g = 7888 ∧ err = Some errExecutionReverted
              | _ => False
              end) by (vm_compute; repeat split).
  destruct (evm_Call _ _ _ _ _ _ _ _ _ _ _ _) as [[[[ret g] err] e'] | |] eqn:E; [| contradiction | contradiction].
  destruct H as (-> & -> & ->). exists e'. split; [reflexivity |].
  refine (proj1 (failed_call_restores toy_Keccak256 example_code berlin block_context contracts many owner reverter [] 30000 3 (machine reverter)
    [] 7888 errExecutionReverted e' (example_call_ok reverter ltac:(cbn; lia)) ltac:(unfold word; lia) _ (λ _, machine_accessed reverter) E)).
  discriminate.
Defined.

(** The third contract returns its slot. *)
Lemma static_call_reads_only_witness :
  ∃ e', evm_StaticCall toy_Keccak256 example_code (example_run many) false owner reader [] 30000 (machine reader)
      = Ok (be 32 17, 27882, None, e') ∧
    same_view toy_Keccak256 example_code (evm_StateDB e') (evm_StateDB (machine reader)).
Proof.
  assert (H : match evm_StaticCall toy_Keccak256 example_code (example_run many) false owner reader [] 30000 (machine reader) with
              | Ok (ret, g, err, e') => ret = be 32 17 ∧ g = 27882 ∧ err = None
              | _ => False
              end) by (vm_compute; repeat split).
  destruct (evm_StaticCall _ _ _ _ _ _ _ _ _) as [[[[ret g] err] e'] | |] eqn:E; [| contradiction | contradiction].
  destruct H as (-> & -> & ->). exists e'. split; [reflexivity |].
  exact (static_call_reads_only toy_Keccak256 example_code berlin block_context contracts many owner reader [] 30000 (machine reader)
    (be 32 17) 27882 None e' eq_refl (example_call_ok reader ltac:(cbn; lia)) (λ _, machine_accessed reader) E).
Defined.

(** ** Instructions *)

(** A jump over an instruction, and one into the data of a push: PUSH1 4, JUMP, INVALID, JUMPDEST, PUSH1 0x5b. *)
Definition jumper : Contract := NewContract owner receiver 0 0 receiver (map z2b [0x60; 0x04; 0x56; 0xfe; 0x5b; 0x60; 0x5b]).

Lemma jumper_starts : starts (c_Code jumper) 4 ∧ ¬ starts (c_Code jumper) 6.
Proof.
  split; [by exists 3%nat |]. apply (starts_gap _ 5); [by exists 4%nat |]. split; [lia |]. by vm_compute.
Qed.

Lemma jumps_land_on_instructions_witness :
  opJump jumper (set_stack [4] first_frame) = (Ok [], set_pc 4 (set_stack [] first_frame)) ∧
  opJump jumper (set_stack [6] first_frame) = (Err errInvalidJump, set_stack [] first_frame).
Proof.
  split.
  - refine (proj1 (jumps_land_on_instructions jumper (set_stack [4] first_frame) 4 [] _ eq_refl _) _); [done | lia |].
    split; [apply jumper_starts | reflexivity].
  - refine (proj2 (jumps_land_on_instructions jumper (set_stack [6] first_frame) 6 [] _ eq_refl _) _); [done | lia |].
    intros [H _]. by apply jumper_starts in H.
Defined.

(** Minus seven divided by two is minus three. *)
Lemma arithmetic_correct_witness :
  execute_of toy_Keccak256 example_code (example_run many) berlin [] block_context jumper [] OpSdiv (set_stack [2 ^ 256 - 7; 2; 9] first_frame)
    = (Ok [], set_stack [2 ^ 256 - 3; 9] first_frame).
Proof.
  exact (arithmetic_correct toy_Keccak256 example_code (example_run many) berlin [] block_context jumper [] OpSdiv [2 ^ 256 - 7; 2]
    (2 ^ 256 - 3) [9] (set_stack [2 ^ 256 - 7; 2; 9] first_frame) ltac:(repeat constructor; lia) eq_refl eq_refl).
Defined.

(** ** The refund counter *)

(** The refund counter can go below zero: a transfer clears the slot of a balance
    in the token contract without a refund, and the token contract that then
    stores a balance there takes back the refund for the clearing. *)
Lemma refund_counter_panics :
  evm_Call toy_Keccak256 example_code (example_run (Z.to_nat 100001)) berlin (precompiled contracts) false owner spender [] 100000 0 (machine spender) = Panic refund_panic.
Proof. vm_compute. reflexivity. Qed.

(** ** Precompiled contracts *)

(** 3^5 mod 7 is 5. *)
Lemma bigModExp_correct_witness :
  small (be 32 1 ++ be 32 1 ++ be 32 2 ++ [Byte.x03] ++ [Byte.x05] ++ [Byte.x00; Byte.x07]) ∧
  bigModExp_Run (be 32 1 ++ be 32 1 ++ be 32 2 ++ [Byte.x03] ++ [Byte.x05] ++ [Byte.x00; Byte.x07]) = Ok [Byte.x00; Byte.x05].
Proof. split; [reflexivity | exact (bigModExp_correct [Byte.x03] [Byte.x05] [Byte.x00; Byte.x07] [] eq_refl)]. Defined.

(** The vector of RFC 7693, appendix A. *)
Definition abc_state : list Z := 0x6a09e667f2bdc948 :: tail iv.
Definition abc_block : list Z := 0x636261 :: replicate 15 0.

Lemma abc_words : Forall (λ z, is_u64 z) (3 :: 0 :: abc_state ++ abc_block).
Proof. apply (bool_decide_unpack _). vm_compute. done. Qed.

Lemma blake2F_correct_witness :
  precompile_Run blake2F (be 4 12 ++ concat (le 8 <$> abc_state) ++ concat (le 8 <$> abc_block) ++ le 8 3 ++ le 8 0 ++ [Byte.x01]) =
    Ok (concat (le 8 <$> [0x0D4D1C983FA580BA; 0xE9F6129FB697276A; 0xB7C45A68142F214C; 0xD1A2FFDB6FBB124B;
                          0x2D79AB2A39C5877D; 0x95CC3345DED552C2; 0x5A92F1DBA88AD318; 0x239900D4ED8623B9])).
Proof.
  destruct (blake2F_correct 12 abc_state abc_block 3 0 true ltac:(lia) eq_refl eq_refl abc_words) as (_ & H & _).
  refine (eq_trans H _). vm_compute. reflexivity.
Defined.

(** [getData] is not safe from overflow: with an exponent of 2^64 - 1 bytes its
    end wraps around, and the contract panics for 7378697629483820645 gas. *)
Definition long_exponent : list byte := be 32 1 ++ be 32 (2 ^ 64 - 1) ++ be 32 1 ++ [Byte.x01; Byte.x02].

Lemma bigModExp_panics :
  bigModExp_RequiredGas false long_exponent = Ok 7378697629483820645 ∧
  bigModExp_Run long_exponent = Panic "slice bounds out of range".
Proof. vm_compute. split; reflexivity. Qed.
