(* ===== verification/ChainConfig.v ===== *)
(** The chain configuration: the forks of src/l2geth/params/config.go, the
    check that a stored chain agrees with a new configuration, and the
    scheduled upgrades of src/l2geth/core/upgrade.

    A configuration that passes the check gives the same rules to every block
    that is already part of the chain, but for one case: it may move the
    Petersburg fork, which is active with Constantinople when it is not set. *)

From Stdlib Require Import Sorting.Sorted.
From S2P Require Import Prelude EvmCommon.

Record ChainConfig := {
  ChainID : Z;
  HomesteadBlock : option Z;
  DAOForkBlock : option Z;
  DAOForkSupport : bool;
  EIP150Block : option Z;
  EIP155Block : option Z;
  EIP158Block : option Z;
  ByzantiumBlock : option Z;
  ConstantinopleBlock : option Z;
  PetersburgBlock : option Z;
  IstanbulBlock : option Z;
  MuirGlacierBlock : option Z;
  BerlinBlock : option Z;
  EWASMBlock : option Z;
}.

(** ** Forks *)

Definition isForked (s : option Z) (head : Z) : bool :=
  match s with Some n => n <=? head | None => false end.

Definition OpMainnetChainID : Z := 10.
Definition OpKovanChainID : Z := 69.
Definition OpMainnetSDUpdateForkNum : Z := 3135900.
Definition OpKovanSDUpdateForkNum : Z := 1094820.

Module Config.

Definition IsHomestead (c : ChainConfig) : Z → bool := isForked (HomesteadBlock c).
Definition IsDAOFork (c : ChainConfig) : Z → bool := isForked (DAOForkBlock c).
Definition IsEIP150 (c : ChainConfig) : Z → bool := isForked (EIP150Block c).
Definition IsEIP155 (c : ChainConfig) : Z → bool := isForked (EIP155Block c).
Definition IsEIP158 (c : ChainConfig) : Z → bool := isForked (EIP158Block c).
Definition IsByzantium (c : ChainConfig) : Z → bool := isForked (ByzantiumBlock c).
Definition IsConstantinople (c : ChainConfig) : Z → bool := isForked (ConstantinopleBlock c).

Definition IsPetersburg (c : ChainConfig) (num : Z) : bool :=
  isForked (PetersburgBlock c) num || (bool_decide (PetersburgBlock c = None) && isForked (ConstantinopleBlock c) num).

Definition IsIstanbul (c : ChainConfig) : Z → bool := isForked (IstanbulBlock c).
Definition IsBerlin (c : ChainConfig) : Z → bool := isForked (BerlinBlock c).

Definition IsSDUpdate (c : ChainConfig) (num : Z) : bool :=
  if ChainID c =? OpMainnetChainID then isForked (Some OpMainnetSDUpdateForkNum) num
  else if ChainID c =? OpKovanChainID then isForked (Some OpKovanSDUpdateForkNum) num
  else true.

(** The rules of a block; the chain id is part of the block's context, and the
    EVM asks the configuration for [IsSDUpdate]. *)
Definition Rules (c : ChainConfig) (num : Z) : Rules :=
  {| EvmCommon.IsHomestead := IsHomestead c num; EvmCommon.IsEIP150 := IsEIP150 c num;
     EvmCommon.IsEIP158 := IsEIP158 c num; EvmCommon.IsByzantium := IsByzantium c num;
     EvmCommon.IsConstantinople := IsConstantinople c num; EvmCommon.IsPetersburg := IsPetersburg c num;
     EvmCommon.IsIstanbul := IsIstanbul c num; EvmCommon.IsBerlin := IsBerlin c num;
     EvmCommon.IsSDUpdate := IsSDUpdate c num |}.

End Config.

(** ** Compatibility of configurations *)

Record ConfigCompatError := {
  What : string;
  StoredConfig : option Z;
  NewConfig : option Z;
  RewindTo : Z;
}.

Definition configNumEqual (x y : option Z) : bool :=
  match x, y with
  | None, None => true
  | Some a, Some b => a =? b
  | _, _ => false
  end.

Definition isForkIncompatible (s1 s2 : option Z) (head : Z) : bool :=
  (isForked s1 head || isForked s2 head) && negb (configNumEqual s1 s2).

Definition newCompatError (what : string) (storedblock newblock : option Z) : ConfigCompatError :=
  let rew :=
    match storedblock, newblock with
    | None, _ => newblock
    | Some _, None => storedblock
    | Some a, Some b => if a <? b then storedblock else newblock
    end in
  {| What := what; StoredConfig := storedblock; NewConfig := newblock;
     RewindTo := match rew with Some n => if 0 <? n then u64 (u64 n - 1) else 0 | None => 0 end |}.

(** The checks in their order: whether they fail, and the error. *)
Definition compat_checks (c newcfg : ChainConfig) (head : Z) : list (bool * ConfigCompatError) :=
  let fork what (block : ChainConfig → option Z) :=
    (isForkIncompatible (block c) (block newcfg) head, newCompatError what (block c) (block newcfg)) in
  [fork "Homestead fork block" HomesteadBlock;
   fork "DAO fork block" DAOForkBlock;
   (Config.IsDAOFork c head && negb (eqb (DAOForkSupport c) (DAOForkSupport newcfg)),
    newCompatError "DAO fork support flag" (DAOForkBlock c) (DAOForkBlock newcfg));
   fork "EIP150 fork block" EIP150Block;
   fork "EIP155 fork block" EIP155Block;
   fork "EIP158 fork block" EIP158Block;
   (Config.IsEIP158 c head && negb (ChainID c =? ChainID newcfg),
    newCompatError "EIP158 chain ID" (EIP158Block c) (EIP158Block newcfg));
   fork "Byzantium fork block" ByzantiumBlock;
   fork "Constantinople fork block" ConstantinopleBlock;
   fork "Petersburg fork block" PetersburgBlock;
   fork "Istanbul fork block" IstanbulBlock;
   fork "Muir Glacier fork block" MuirGlacierBlock;
   fork "Berlin fork block" BerlinBlock;
   fork "ewasm fork block" EWASMBlock].

Fixpoint first_failed {A} (l : list (bool * A)) : option A :=
  match l with
  | [] => None
  | (failed, e) :: l => if failed then Some e else first_failed l
  end.

Definition checkCompatible (c newcfg : ChainConfig) (head : Z) : option ConfigCompatError :=
  first_failed (compat_checks c newcfg head).

(** The loop of [CheckCompatible]; each round but the last one goes down. *)
Fixpoint compat_loop (fuel : nat) (c newcfg : ChainConfig) (lasterr : option ConfigCompatError) (bhead : Z)
    : option (option ConfigCompatError) :=
  match fuel with
  | O => None
  | S fuel =>
      match checkCompatible c newcfg bhead with
      | None => Some lasterr
      | Some err =>
          if match lasterr with Some e => RewindTo err =? RewindTo e | None => false end then Some lasterr
          else compat_loop fuel c newcfg (Some err) (RewindTo err)
      end
  end.

(** The outer option tells whether the loop came to an end. *)
Definition CheckCompatible (c newcfg : ChainConfig) (height : Z) : option (option ConfigCompatError) :=
  compat_loop (S (S (Z.to_nat height))) c newcfg None height.

(** *** Order of the forks *)

Definition fork_order (c : ChainConfig) : list (string * option Z) :=
  [("homesteadBlock", HomesteadBlock c); ("eip150Block", EIP150Block c); ("eip155Block", EIP155Block c);
   ("eip158Block", EIP158Block c); ("byzantiumBlock", ByzantiumBlock c); ("constantinopleBlock", ConstantinopleBlock c);
   ("petersburgBlock", PetersburgBlock c); ("istanbulBlock", IstanbulBlock c); ("muirGlacierBlock", MuirGlacierBlock c);
   ("berlinBlock", BerlinBlock c)]%string.

(** The error's numbers are left out of its text. *)
Fixpoint check_order (lastFork : string * option Z) (l : list (string * option Z)) : outcome () :=
  match l with
  | [] => Ok tt
  | cur :: l =>
      match lastFork.2, cur.2 with
      | None, Some _ => Err (ErrNew ("unsupported fork ordering: " ++ lastFork.1 ++ " not enabled, but " ++ cur.1 ++ " enabled"))
      | Some a, Some b =>
          if b <? a then Err (ErrNew ("unsupported fork ordering: " ++ lastFork.1 ++ " enabled after " ++ cur.1))
          else check_order cur l
      | _, None => check_order cur l
      end
  end.

Definition CheckConfigForkOrder (c : ChainConfig) : outcome () :=
  match fork_order c with
  | [] => Ok tt
  | first :: l => check_order first l
  end.

(** ** Compatible configurations have the same rules *)

Lemma isForked_mono s n head : n <= head → isForked s n = true → isForked s head = true.
Proof. destruct s as [m |]; cbn; [lia | done]. Qed.

Lemma configNumEqual_eq x y : configNumEqual x y = true → x = y.
Proof. destruct x, y; cbn; try done. intros. f_equal. lia. Qed.

Lemma first_failed_None {A} (l : list (bool * A)) : first_failed l = None ↔ Forall (λ x, x.1 = false) l.
Proof.
  induction l as [| [[] e] l IH]; cbn; [by split; [constructor |] | split; [done |] | rewrite IH; split; [by constructor |]];
    intros H; by inversion H.
Qed.

Lemma first_failed_elem {A} (l : list (bool * A)) e : first_failed l = Some e → (true, e) ∈ l.
Proof.
  induction l as [| [[] e'] l IH]; cbn; [done | intros [= ->]; by left | intros H; right; auto].
Qed.

(** A fork that may stay is active in the same blocks. *)
Lemma compatible_fork s1 s2 head n :
  isForkIncompatible s1 s2 head = false → n <= head → isForked s1 n = isForked s2 n.
Proof.
  unfold isForkIncompatible. intros H Hn. destruct (configNumEqual s1 s2) eqn:E; [by apply configNumEqual_eq in E as -> |].
  rewrite andb_true_r in H. apply orb_false_iff in H as [H1 H2].
  destruct (isForked s1 n) eqn:E1; [by rewrite (isForked_mono _ _ _ Hn E1) in H1 |].
  destruct (isForked s2 n) eqn:E2; [by rewrite (isForked_mono _ _ _ Hn E2) in H2 | done].
Qed.

(** Two configurations agree up to the block [top]; the chain id is compared only where EIP158 is active. *)
Definition agree (c newcfg : ChainConfig) (top : Z) : Prop :=
  (Config.IsEIP158 c top = true → ChainID c = ChainID newcfg) ∧
  ∀ n, n <= top → Config.IsEIP155 c n = Config.IsEIP155 newcfg n ∧
    (ChainID c = ChainID newcfg → Config.Rules c n = Config.Rules newcfg n).

Lemma compatible_agree c newcfg head :
  checkCompatible c newcfg head = None → (PetersburgBlock c = None ↔ PetersburgBlock newcfg = None) → agree c newcfg head.
Proof.
  intros H HP. apply first_failed_None in H. unfold compat_checks in H.
  repeat (apply Forall_cons in H as [?H H]). cbn [fst] in *. split.
  { intros H158. rewrite H158 in *. by destruct (Z.eqb_spec (ChainID c) (ChainID newcfg)). }
  intros n Hn. split; [by eapply compatible_fork | intros Eid].
  unfold Config.Rules, Config.IsHomestead, Config.IsEIP150, Config.IsEIP158, Config.IsByzantium, Config.IsConstantinople,
    Config.IsPetersburg, Config.IsIstanbul, Config.IsBerlin, Config.IsSDUpdate. rewrite Eid.
  repeat match goal with K : isForkIncompatible _ _ _ = false |- _ => rewrite (compatible_fork _ _ _ n K Hn); clear K end.
  by rewrite (bool_decide_ext _ _ HP).
Qed.

(** ** The loop comes to an end *)

Lemma rewind_below what s1 s2 head :
  0 <= head < 2 ^ 64 → isForked s1 head || isForked s2 head = true →
  0 <= RewindTo (newCompatError what s1 s2) < Z.max 1 head.
Proof.
  intros Hh Hf. unfold newCompatError. cbn [RewindTo].
  assert (Hone : ∀ n, n <= head → 0 <= (if 0 <? n then u64 (u64 n - 1) else 0) < Z.max 1 head).
  { intros n Hn. destruct (Z.ltb_spec 0 n); [rewrite (wrap_small 64 n), wrap_small by lia; lia | lia]. }
  destruct s1 as [a |], s2 as [b |]; cbn in Hf; try (apply Hone; lia); [| lia].
  destruct (Z.ltb_spec a b); apply Hone; lia.
Qed.

Lemma checkCompatible_rewind c newcfg head e :
  0 <= head < 2 ^ 64 → checkCompatible c newcfg head = Some e → 0 <= RewindTo e < Z.max 1 head.
Proof.
  intros Hh H. apply first_failed_elem in H. unfold compat_checks in H.
  repeat (apply elem_of_cons in H as [[= E ->] | H]); [.. | by apply not_elem_of_nil in H];
    apply rewind_below; try done; symmetry in E;
    try (unfold isForkIncompatible in E; by apply andb_true_iff in E as [E _]);
    apply andb_true_iff in E as [E _]; unfold Config.IsDAOFork, Config.IsEIP158 in E; by rewrite E.
Qed.

(** What the loop returns for [lasterr], reached with the head [bhead]. *)
Definition compat_result (c newcfg : ChainConfig) (e : ConfigCompatError) : Prop :=
  checkCompatible c newcfg (RewindTo e) = None ∨ RewindTo e = 0.

Lemma compat_loop_end c newcfg fuel e :
  0 <= RewindTo e < 2 ^ 64 → (Z.to_nat (RewindTo e) < fuel)%nat →
  ∃ e', compat_loop fuel c newcfg (Some e) (RewindTo e) = Some (Some e') ∧ 0 <= RewindTo e' <= RewindTo e ∧ compat_result c newcfg e'.
Proof.
  revert e. induction fuel as [| fuel IH]; intros e He Hf; [lia |]. cbn [compat_loop].
  destruct (checkCompatible c newcfg (RewindTo e)) as [e2 |] eqn:E; [| by exists e; split; [| split; [lia | left]]].
  pose proof (checkCompatible_rewind _ _ _ _ He E). destruct (Z.eqb_spec (RewindTo e2) (RewindTo e)) as [E2 | E2].
  - exists e. split; [done |]. split; [lia | right; lia].
  - destruct (IH e2) as (e' & H1 & H2 & H3); [lia | lia |]. exists e'. split; [done |]. split; [lia | done].
Qed.

(** C25: CheckCompatible protects the past of the chain: its loop ends, and when it finds no error, the
    chain id is the same if EIP158 is active at the height, and every block up to it has the same
    replay protection and, for the same chain id, the same rules under both configurations; with an
    error the same holds for all blocks up to the one to which the chain has to be rewound, unless
    that is the first block. Petersburg is set in both configurations or in none. *)
Theorem CheckCompatible_rules c newcfg height :
  0 <= height < 2 ^ 64 → (PetersburgBlock c = None ↔ PetersburgBlock newcfg = None) →
  ∃ r, CheckCompatible c newcfg height = Some r ∧
    match r with
    | None => agree c newcfg height
    | Some e => 0 <= RewindTo e < Z.max 1 height ∧ (agree c newcfg (RewindTo e) ∨ RewindTo e = 0)
    end.
Proof.
  intros Hh HP. unfold CheckCompatible. remember (S (Z.to_nat height)) as fuel eqn:Ef. cbn [compat_loop].
  destruct (checkCompatible c newcfg height) as [e |] eqn:E.
  - pose proof (checkCompatible_rewind _ _ _ _ Hh E).
    destruct (compat_loop_end c newcfg fuel e) as (e' & H1 & H2 & H3); [lia | lia |].
    exists (Some e'). split; [done |]. split; [lia |]. destruct H3 as [H3 | H3]; [left; by apply compatible_agree | by right].
  - exists None. split; [done | by apply compatible_agree].
Qed.

(** Petersburg, not set in the stored configuration, was active with Constantinople; a configuration that sets it in
    the future passes the check, and the rules of the old blocks change. *)
Theorem CheckCompatible_misses_petersburg c x height :
  0 <= height < 2 ^ 64 → height < x → PetersburgBlock c = None → Config.IsConstantinople c height = true →
  let newcfg := {| ChainID := ChainID c; HomesteadBlock := HomesteadBlock c; DAOForkBlock := DAOForkBlock c;
    DAOForkSupport := DAOForkSupport c; EIP150Block := EIP150Block c; EIP155Block := EIP155Block c; EIP158Block := EIP158Block c;
    ByzantiumBlock := ByzantiumBlock c; ConstantinopleBlock := ConstantinopleBlock c; PetersburgBlock := Some x;
    IstanbulBlock := IstanbulBlock c; MuirGlacierBlock := MuirGlacierBlock c; BerlinBlock := BerlinBlock c; EWASMBlock := EWASMBlock c |} in
  CheckCompatible c newcfg height = Some None ∧
  Config.IsPetersburg c height = true ∧ Config.IsPetersburg newcfg height = false.
Proof.
  intros Hh Hx HP HC newcfg. assert (Hself : ∀ s, isForkIncompatible s s height = false).
  { intros [a |]; unfold isForkIncompatible; cbn; [by rewrite Z.eqb_refl, andb_false_r | done]. }
  split; [| split].
  - unfold CheckCompatible. cbn [compat_loop]. assert (checkCompatible c newcfg height = None) as ->; [| done].
    apply first_failed_None. unfold compat_checks, newcfg. cbn.
    repeat (apply Forall_cons; split; [cbn; try apply Hself |]); [.. | constructor];
      rewrite ?Z.eqb_refl, ?eqb_reflx, ?andb_false_r; try done.
    rewrite HP. unfold isForkIncompatible. cbn. destruct (Z.leb_spec x height); [lia | done].
  - unfold Config.IsPetersburg. rewrite HP. cbn. exact HC.
  - unfold Config.IsPetersburg, newcfg. cbn. destruct (Z.leb_spec x height); [lia | done].
Qed.

(** ** The order of the forks *)

Definition before (f g : string * option Z) : Prop := ∀ n, isForked g.2 n = true → isForked f.2 n = true.

Lemma check_order_sorted l : ∀ f, check_order f l = Ok tt → StronglySorted before (f :: l).
Proof.
  assert (Htr : Transitive before) by (intros f g h H1 H2 n Hn; auto).
  induction l as [| g l IH]; intros f; cbn [check_order]; [repeat constructor |].
  intros H. assert (check_order g l = Ok tt ∧ before f g) as [H1 H2].
  { destruct f as [? [a |]], g as [? [b |]]; cbn [snd] in *; try done; try (split; [done | intros n; cbn; done]).
    destruct (Z.ltb_spec b a); [done |]. split; [done |]. intros n. cbn. lia. }
  apply Sorted_StronglySorted; [done |]. constructor; [by apply StronglySorted_Sorted, IH | by constructor].
Qed.

(** A configuration whose forks are in order: every fork of a block brings the forks before it. *)
Theorem CheckConfigForkOrder_sorted c :
  CheckConfigForkOrder c = Ok tt → StronglySorted before (fork_order c).
Proof. apply check_order_sorted. Qed.
