(* ===== verification/Upgrades.v ===== *)
(** The scheduled upgrades of src/l2geth/core/upgrade: code and storage that
    the node writes when a block of a certain number is executed.

    An upgrade by the number of the L2 block happens in that block alone; one
    by the number of the L1 block happens once, in the first transaction that
    has reached it, and a flag in the database of the chain remembers it. *)

From Stdlib Require Import Strings.Ascii.
From S2P Require Import Prelude StateDB StateDBFacts StateBalances EvmEffects EvmCommon EvmCalls StateTransition.

Definition MantleMainnetChainID : Z := 5000.
Definition MantleTestnetChainID : Z := 5001.
Definition MantleQAChainID : Z := 1705003.
Definition MantleLocalChainID : Z := 17.

(** [mockUpgradeL1BlockUpgradeStatus] is never read. *)
Record Config := {
  chainID : Z;
  tssRewardL2Block : option Z;
  mantleTokenL2Block : option Z;
  updateGasLimitL2Block : option Z;
  eigenDaL2Block : option Z;
  mockUpgradeL1Block : option Z;
}.

Definition MainnetConfig : Config :=
  {| chainID := MantleMainnetChainID; tssRewardL2Block := Some (-1); mantleTokenL2Block := Some (-1);
     eigenDaL2Block := Some (-1); updateGasLimitL2Block := Some (-1); mockUpgradeL1Block := Some (-1) |}.

Definition TestnetConfig : Config :=
  {| chainID := MantleTestnetChainID; tssRewardL2Block := Some 11000000; mantleTokenL2Block := Some 11000000;
     eigenDaL2Block := Some 8280000; updateGasLimitL2Block := Some 222073; mockUpgradeL1Block := Some (-1) |}.

Definition QAConfig : Config :=
  {| chainID := MantleQAChainID; tssRewardL2Block := Some (-1); mantleTokenL2Block := Some (-1);
     eigenDaL2Block := Some (-1); updateGasLimitL2Block := Some (-1); mockUpgradeL1Block := Some (-1) |}.

Definition LocalConfig : Config :=
  {| chainID := MantleLocalChainID; tssRewardL2Block := Some (-1); mantleTokenL2Block := Some (-1);
     eigenDaL2Block := Some (-1); updateGasLimitL2Block := Some (-1); mockUpgradeL1Block := Some (-1) |}.

Definition NewMantleUpgradeConfig (chainID : Z) : Config :=
  let id := to_int64 chainID in
  if id =? MantleMainnetChainID then MainnetConfig
  else if id =? MantleTestnetChainID then TestnetConfig
  else if id =? MantleQAChainID then QAConfig
  else LocalConfig.

(** The second number is a pointer too. *)
Definition isBlockForked (s head : option Z) : bool :=
  match s, head with
  | Some n, Some h => if n <=? 0 then false else n <=? h
  | _, _ => false
  end.

Definition isExactBlockForked (s head : option Z) : bool :=
  match s, head with
  | Some n, Some h => if n <=? 0 then false else n =? h
  | _, _ => false
  end.

Definition IsTssReward (c : Config) : option Z → bool := isExactBlockForked (tssRewardL2Block c).
Definition IsMantleToken (c : Config) : option Z → bool := isExactBlockForked (mantleTokenL2Block c).
Definition IsEigenDa (c : Config) : option Z → bool := isExactBlockForked (eigenDaL2Block c).
Definition IsUpdateGasLimitBlock (c : Config) : option Z → bool := isBlockForked (updateGasLimitL2Block c).
Definition IsMockUpgradeBasedOnL1BlockNumber (c : Config) : option Z → bool := isBlockForked (mockUpgradeL1Block c).

(** ** The token's name and symbol *)

Definition string_bytes (s : string) : list byte := map byte_of_ascii (list_ascii_of_string s).

(** [RightPadBytes] to 32 bytes, and the last byte overwritten. *)
Definition packStringForSlot (value : string) : list byte :=
  let b := string_bytes value in
  take 31 (b ++ replicate (32 - length b) Byte.x00) ++ [z2b (2 * Z.of_nat (String.length value))].

Definition MantleTokenNameSlot : Z := 3.
Definition MantleTokenSymbolSlot : Z := 4.
Definition MantleTokenNameValue : Z := be_val (packStringForSlot "Mantle Token").
Definition MantleTokenSymbolValue : Z := be_val (packStringForSlot "MNT").

Definition L2TssRewardAddress : address := be 20 0x4200000000000000000000000000000000000020.

(** ** The flag of the database *)

Abbreviation database := (gmap (list byte) (list byte)).

Definition mockUpgradeFlag : list byte := string_bytes "mockUpgradeFlag".

(** The database does not fail. *)
Definition existUpgradeFlag (db : database) (key : list byte) : bool := bool_decide (is_Some (db !! key)).
Definition writeUpgradeFlag (key data : list byte) (db : database) : database := <[key := data]> db.

Section Upgrades.
  Context (Keccak256 : list byte → list byte) (ContractCode : list byte → list byte).
  (** The byte codes that are written out in the source. *)
  Context (L2GasRewardCode L2GasPriceOracleCode : list byte).

Abbreviation SetCode := (StateDB.SetCode Keccak256 ContractCode).
Abbreviation SetState := (StateDB.SetState Keccak256).

Definition l2TssRewardUpgrade (c : Config) (blockNumber : option Z) (s : StateDB) : StateDB :=
  if negb (IsTssReward c blockNumber) then s else SetCode L2TssRewardAddress L2GasRewardCode s.

Definition set_token_names (s : StateDB) : StateDB :=
  SetState BvmMantleAddress MantleTokenSymbolSlot MantleTokenSymbolValue
    (SetState BvmMantleAddress MantleTokenNameSlot MantleTokenNameValue s).

Definition mantleTokenUpgrade (c : Config) (blockNumber : option Z) (s : StateDB) : StateDB :=
  if negb (IsMantleToken c blockNumber) then s else set_token_names s.

Definition eigenDaUpgrade (c : Config) (blockNumber : option Z) (s : StateDB) : StateDB :=
  if negb (IsEigenDa c blockNumber) then s else SetCode L2GasPriceOracleAddress L2GasPriceOracleCode s.

Definition mockUpgradeBasedOnL1Block (c : Config) (blockNumber : option Z) (x : StateDB * database) : StateDB * database :=
  let '(s, db) := x in
  if negb (IsMockUpgradeBasedOnL1BlockNumber c blockNumber) then (s, db)
  else if existUpgradeFlag db mockUpgradeFlag then (s, db)
  else (set_token_names s, writeUpgradeFlag mockUpgradeFlag (big_Bytes (default 0 blockNumber)) db).

Definition CheckUpgrade (chainID : Z) (l2BlockNumber l1BlockNumber : option Z) (x : StateDB * database) : StateDB * database :=
  let '(s, db) := x in
  let upgradeConfig := NewMantleUpgradeConfig chainID in
  let s := l2TssRewardUpgrade upgradeConfig l2BlockNumber s in
  let s := mantleTokenUpgrade upgradeConfig l2BlockNumber s in
  let s := eigenDaUpgrade upgradeConfig l2BlockNumber s in
  mockUpgradeBasedOnL1Block upgradeConfig l1BlockNumber (s, db).

(** ** What upgrades do *)

Abbreviation evm_effects := (evm_effects Keccak256 ContractCode).

Lemma token_value_words : word MantleTokenNameValue ∧ word MantleTokenSymbolValue.
Proof. unfold word. split; vm_compute; split; congruence. Qed.

Lemma set_token_names_effects s : evm_effects false s (set_token_names s).
Proof.
  destruct token_value_words. unfold set_token_names.
  eapply effects_trans; [eapply (effects_one _ _ _ (OSetState BvmMantleAddress MantleTokenNameSlot MantleTokenNameValue)) |
                         eapply (effects_one _ _ _ (OSetState BvmMantleAddress MantleTokenSymbolSlot MantleTokenSymbolValue))]; by try split.
Qed.

Lemma CheckUpgrade_effects chainID l2 l1 s db s' db' :
  small L2GasRewardCode → small L2GasPriceOracleCode →
  CheckUpgrade chainID l2 l1 (s, db) = (s', db') → evm_effects false s s'.
Proof.
  intros H1 H2. unfold CheckUpgrade. set (c := NewMantleUpgradeConfig chainID). clearbody c.
  set (s1 := l2TssRewardUpgrade c l2 s). set (s2 := mantleTokenUpgrade c l2 s1). set (s3 := eigenDaUpgrade c l2 s2).
  assert (E1 : evm_effects false s s1).
  { unfold s1, l2TssRewardUpgrade. destruct (negb _); [apply eff_refl |]. by eapply (effects_one _ _ _ (OSetCode L2TssRewardAddress L2GasRewardCode)). }
  assert (E2 : evm_effects false s1 s2).
  { unfold s2, mantleTokenUpgrade. destruct (negb _); [apply eff_refl | apply set_token_names_effects]. }
  assert (E3 : evm_effects false s2 s3).
  { unfold s3, eigenDaUpgrade. destruct (negb _); [apply eff_refl |]. by eapply (effects_one _ _ _ (OSetCode L2GasPriceOracleAddress L2GasPriceOracleCode)). }
  assert (E : evm_effects false s s3) by (eapply effects_trans; [eapply effects_trans |]; eassumption).
  unfold mockUpgradeBasedOnL1Block. destruct (negb _); [by intros [= <- <-] |]. destruct (existUpgradeFlag _ _); [by intros [= <- <-] |].
  intros [= <- <-]. eapply effects_trans; [exact E | apply set_token_names_effects].
Qed.

(** The upgrade by the L1 block over the transactions of a chain: the first one that has reached the block does it,
    and no other one. *)
Theorem mock_upgrade_once c (ns : list (option Z)) s db :
  db !! mockUpgradeFlag = None →
  foldl (λ x n, mockUpgradeBasedOnL1Block c n x) (s, db) ns =
    match list_find (λ n, IsMockUpgradeBasedOnL1BlockNumber c n = true) ns with
    | Some (_, n) => (set_token_names s, <[mockUpgradeFlag := big_Bytes (default 0 n)]> db)
    | None => (s, db)
    end.
Proof.
  intros Hdb. assert (Hset : ∀ ns s db, is_Some (db !! mockUpgradeFlag) → foldl (λ x n, mockUpgradeBasedOnL1Block c n x) (s, db) ns = (s, db)).
  { clear. induction ns as [| n ns IH]; intros s db H; [done |]. cbn [foldl]. rewrite <- (IH s db H) at 2. f_equal. unfold mockUpgradeBasedOnL1Block.
    destruct (negb _); [done |]. unfold existUpgradeFlag. by rewrite bool_decide_eq_true_2 by done. }
  induction ns as [| n ns IH]; [done |]. cbn [foldl list_find]. unfold mockUpgradeBasedOnL1Block at 2.
  destruct (decide (IsMockUpgradeBasedOnL1BlockNumber c n = true)) as [E | E].
  - rewrite E. cbn [negb]. unfold existUpgradeFlag. rewrite bool_decide_eq_false_2 by (rewrite Hdb; by intros [? ?]).
    apply Hset. unfold writeUpgradeFlag. rewrite lookup_insert_eq. by eexists.
  - apply not_true_iff_false in E. rewrite E. cbn [negb]. rewrite IH. by destruct (list_find _ ns) as [[] |].
Qed.

(** The chains other than the test network have no upgrade, and the test network has them in two blocks. *)
Theorem CheckUpgrade_scheduled chainID l2 l1 s db :
  to_int64 chainID ≠ MantleTestnetChainID ∨ (l2 ≠ 11000000 ∧ l2 ≠ 8280000) →
  CheckUpgrade chainID (Some l2) l1 (s, db) = (s, db).
Proof.
  intros H. unfold CheckUpgrade, NewMantleUpgradeConfig.
  assert (Hoff : ∀ c, tssRewardL2Block c = Some (-1) → mantleTokenL2Block c = Some (-1) → eigenDaL2Block c = Some (-1) →
    mockUpgradeL1Block c = Some (-1) →
    mockUpgradeBasedOnL1Block c l1 (eigenDaUpgrade c (Some l2) (mantleTokenUpgrade c (Some l2) (l2TssRewardUpgrade c (Some l2) s)), db) = (s, db)).
  { intros c E1 E2 E3 E4. unfold mockUpgradeBasedOnL1Block, eigenDaUpgrade, mantleTokenUpgrade, l2TssRewardUpgrade,
      IsMockUpgradeBasedOnL1BlockNumber, IsEigenDa, IsMantleToken, IsTssReward. rewrite E1, E2, E3, E4. by destruct l1. }
  destruct (Z.eqb_spec (to_int64 chainID) MantleMainnetChainID); [by apply Hoff |].
  destruct (Z.eqb_spec (to_int64 chainID) MantleTestnetChainID) as [E |]; [| destruct (_ =? MantleQAChainID); by apply Hoff].
  destruct H as [H | [H1 H2]]; [done |]. unfold mockUpgradeBasedOnL1Block, eigenDaUpgrade, mantleTokenUpgrade, l2TssRewardUpgrade,
    IsMockUpgradeBasedOnL1BlockNumber, IsEigenDa, IsMantleToken, IsTssReward.
  cbn [TestnetConfig mockUpgradeL1Block eigenDaL2Block mantleTokenL2Block tssRewardL2Block isExactBlockForked isBlockForked].
  destruct (Z.eqb_spec 11000000 l2); [congruence |]. destruct (Z.eqb_spec 8280000 l2); [congruence |]. by destruct l1.
Qed.

End Upgrades.
