(* ===== verification/Receipts.v ===== *)
(** Receipts, their logs and the bloom filter over the logs:
    src/l2geth/core/types/receipt.go, log.go and bloom9.go.

    The filter of a block has no false negatives; a receipt is read back from
    its consensus encoding; the root over the receipts of a block determines
    their consensus fields; and the fields that are not stored are derived
    again from the block's transactions. *)

From S2P Require Import Prelude Rlp RlpStream RlpStreamFacts TrieEncoding TrieNode Trie TrieTree TrieRep TrieHash TrieContents TrieTheorems TrieDerive TxMeta Transaction.
From S2P Require Import BigFloat StateDB EvmEffects EvmCommon EvmCalls ChainConfig.

(** ** The bloom filter *)

Definition BloomByteLength : nat := 256.

Section Bloom.
  Context (Keccak256 : list byte → list byte).

(** The bit that the bytes [i] and [i + 1] of a hash select. *)
Definition bloom_bit (h : list byte) (i : nat) : Z :=
  Z.land (b2z (nth (i + 1) h Byte.x00) + Z.shiftl (b2z (nth i h Byte.x00)) 8) 2047.

Definition bloom9 (b : list byte) : Z :=
  let h := Keccak256 b in
  foldl (λ r i, Z.lor r (Z.shiftl 1 (bloom_bit h i))) 0 [0; 2; 4]%nat.

(** [copy] leaves the bytes before those that it writes. *)
Definition Bloom_SetBytes (d b : list byte) : outcome (list byte) :=
  if Nat.ltb (length b) (length d) then Panic "bloom bytes too big"
  else Ok (take (BloomByteLength - length d) b ++ d).

Definition BytesToBloom (b : list byte) : outcome (list byte) :=
  Bloom_SetBytes b (replicate BloomByteLength Byte.x00).

Definition Bloom_Add (d : Z) (b : list byte) : outcome (list byte) :=
  Bloom_SetBytes (big_Bytes (Z.lor (be_val b) (bloom9 (big_Bytes d)))) b.

Definition BloomLookup (bin topic : list byte) : bool :=
  let cmp := bloom9 topic in Z.land (be_val bin) cmp =? cmp.

(** The argument of [Test] is a big integer, of [TestBytes] its bytes. *)
Definition Bloom_Test (b : list byte) (test : Z) : bool := BloomLookup b (big_Bytes test).
Definition Bloom_TestBytes (b test : list byte) : bool := Bloom_Test b (be_val test).

Definition log_bloom (bin : Z) (l : log) : Z :=
  foldl (λ bin t, Z.lor bin (bloom9 (be 32 t))) (Z.lor bin (bloom9 (l_Address l))) (l_Topics l).

Definition LogsBloom (logs : list log) : Z := foldl log_bloom 0 logs.

End Bloom.

(** ** Receipts *)

Definition ReceiptStatusFailed : Z := 0.
Definition ReceiptStatusSuccessful : Z := 1.

Record Receipt := {
  PostState : list byte;
  Status : Z;
  CumulativeGasUsed : Z;
  rc_Bloom : list byte;
  Logs : list log;
  rc_TxHash : Z;
  ContractAddress : address;
  rc_GasUsed : Z;
  rc_BlockHash : Z;
  rc_BlockNumber : option Z;
  TransactionIndex : Z;
  L1GasPrice : option Z;
  L1GasUsed : option Z;
  L1Fee : option Z;
  FeeScalar : option bigfloat;
  DAGasPrice : option Z;
  DAGasUsed : option Z;
  DAFee : option Z;
}.

Definition emptyReceipt : Receipt :=
  {| PostState := []; Status := 0; CumulativeGasUsed := 0; rc_Bloom := replicate BloomByteLength Byte.x00; Logs := [];
     rc_TxHash := 0; ContractAddress := replicate 20 Byte.x00; rc_GasUsed := 0; rc_BlockHash := 0; rc_BlockNumber := None;
     TransactionIndex := 0; L1GasPrice := None; L1GasUsed := None; L1Fee := None; FeeScalar := None; DAGasPrice := None;
     DAGasUsed := None; DAFee := None |}.

Definition CreateBloom (Keccak256 : list byte → list byte) (receipts : list Receipt) : outcome (list byte) :=
  BytesToBloom (big_Bytes (foldl (λ bin r, Z.lor bin (LogsBloom Keccak256 (Logs r))) 0 receipts)).

(** The consensus fields of a receipt are replaced. *)
Definition set_consensus (post : list byte) (status cumulative : Z) (bloom : list byte) (logs : list log) (r : Receipt) : Receipt :=
  {| PostState := post; Status := status; CumulativeGasUsed := cumulative; rc_Bloom := bloom; Logs := logs;
     rc_TxHash := rc_TxHash r; ContractAddress := ContractAddress r; rc_GasUsed := rc_GasUsed r; rc_BlockHash := rc_BlockHash r;
     rc_BlockNumber := rc_BlockNumber r; TransactionIndex := TransactionIndex r; L1GasPrice := L1GasPrice r; L1GasUsed := L1GasUsed r;
     L1Fee := L1Fee r; FeeScalar := FeeScalar r; DAGasPrice := DAGasPrice r; DAGasUsed := DAGasUsed r; DAFee := DAFee r |}.

Definition NewReceipt (root : list byte) (failed : bool) (cumulativeGasUsed : Z) : Receipt :=
  set_consensus root (if failed then ReceiptStatusFailed else ReceiptStatusSuccessful) cumulativeGasUsed
    (rc_Bloom emptyReceipt) [] emptyReceipt.

Definition receiptStatusFailedRLP : list byte := [].
Definition receiptStatusSuccessfulRLP : list byte := [Byte.x01].

Definition statusEncoding (r : Receipt) : list byte :=
  match PostState r with
  | [] => if Status r =? ReceiptStatusFailed then receiptStatusFailedRLP else receiptStatusSuccessfulRLP
  | p => p
  end.

(** The post state and the status after [setStatus]. *)
Definition setStatus (b : list byte) (r : Receipt) : outcome (list byte * Z) :=
  if bool_decide (b = receiptStatusSuccessfulRLP) then Ok (PostState r, ReceiptStatusSuccessful)
  else if bool_decide (b = receiptStatusFailedRLP) then Ok (PostState r, ReceiptStatusFailed)
  else if Nat.eqb (length b) 32 then Ok (b, Status r)
  else Err (ErrNew "invalid receipt status").

(** *** RLP *)

(** A log and a receipt as the codec sees them. *)
Definition rlpLog_value (l : log) : value :=
  VStruct [VBytes (l_Address l); VSlice false (map (λ t, VBytes (be 32 t)) (l_Topics l)); VBytes (l_Data l)].

Definition rlpLog_ty : ty := TStruct [TByteArray 20; TSlice false (TByteArray 32); TBytes].

Definition receiptRLP_value (r : Receipt) : value :=
  VStruct [VBytes (statusEncoding r); VUint (CumulativeGasUsed r); VBytes (rc_Bloom r); VSlice false (map rlpLog_value (Logs r))].

Definition receiptRLP_ty : ty := TStruct [TBytes; TUint 64; TByteArray BloomByteLength; TSlice false rlpLog_ty].

Definition topic_of (v : value) : outcome Z := match v with VBytes b => Ok (be_val b) | _ => Panic "not a hash" end.

(** [Log.DecodeRLP] leaves the derived fields of a new log at their zero values. *)
Definition log_of (v : value) : outcome log :=
  match v with
  | VStruct [VBytes a; VSlice false ts; VBytes d] =>
      topics ← mapM topic_of ts;
      mret {| l_Address := a; l_Topics := topics; l_Data := d; l_TxHash := 0; l_BlockHash := 0; l_TxIndex := 0; l_Index := 0 |}
  | _ => Panic "not a log"
  end.

Definition receipt_EncodeRLP (r : Receipt) : outcome (list byte) := EncodeToBytes (receiptRLP_value r).

Definition receipt_DecodeRLP (fuel : nat) (r : Receipt) : st Stream Receipt :=
  v ← decode fuel receiptRLP_ty;
  match v with
  | VStruct [VBytes status; VUint gas; VBytes bloom; VSlice false ls] =>
      logs ← st_lift (mapM log_of ls);
      '(post, status) ← st_lift (setStatus status r);
      mret (set_consensus post status gas bloom logs r)
  | _ => st_panic "not a receipt"
  end.

(** [Receipts.GetRlp] panics when a receipt cannot be encoded. *)
Definition GetRlp (r : Receipt) : outcome (list byte) :=
  match receipt_EncodeRLP r with
  | Ok b => Ok b
  | Err e => Panic (error_Error e)
  | Panic m => Panic m
  end.

(** [DeriveSha(receipts)] *)
Definition receipts_DeriveSha (Keccak256 : list byte → list byte) (rs : list Receipt) : outcome (list byte) :=
  encs ← mapM GetRlp rs; DeriveSha Keccak256 encs.

(** *** Derived fields *)

Section Derive.
  Context (Keccak256 : list byte → list byte) (Ecrecover : list byte → list byte → outcome (list byte)).

Definition set_log_position (txHash blockHash txIndex index : Z) (l : log) : log :=
  {| l_Address := l_Address l; l_Topics := l_Topics l; l_Data := l_Data l; l_TxHash := txHash; l_BlockHash := blockHash;
     l_TxIndex := txIndex; l_Index := index |}.

(** The number of the block is not part of the logs of the model. *)
Definition derive_logs (txHash blockHash txIndex logIndex : Z) (ls : list log) : list log :=
  imap (λ j l, set_log_position txHash blockHash txIndex (logIndex + Z.of_nat j) l) ls.

(** The hash of a transaction as a word. *)
Definition tx_Hash (t : Transaction) : Z := be_val (Hash Keccak256 t).1.

(** The error of [Sender] is dropped; the address is then zero. *)
Definition created_address (signer : Signer) (tx : Transaction) : outcome address :=
  match (Sender Keccak256 Ecrecover signer tx).1 with
  | Ok from => Ok (CreateAddress Keccak256 from (AccountNonce (data tx)))
  | Err _ => Ok (CreateAddress Keccak256 (replicate 20 Byte.x00) (AccountNonce (data tx)))
  | Panic m => Panic m
  end.

Definition derive_receipt (signer : Signer) (hash number : Z) (i logIndex : Z) (prev : option Z) (r : Receipt) (tx : Transaction)
    : outcome Receipt :=
  contract ← (match Recipient (data tx) with
              | None => created_address signer tx
              | Some _ => mret (ContractAddress r)
              end);
  mret {| PostState := PostState r; Status := Status r; CumulativeGasUsed := CumulativeGasUsed r; rc_Bloom := rc_Bloom r;
          Logs := derive_logs (tx_Hash tx) hash i logIndex (Logs r);
          rc_TxHash := tx_Hash tx; ContractAddress := contract;
          rc_GasUsed := match prev with None => CumulativeGasUsed r | Some c => u64 (CumulativeGasUsed r - c) end;
          rc_BlockHash := hash; rc_BlockNumber := Some number; TransactionIndex := i;
          L1GasPrice := L1GasPrice r; L1GasUsed := L1GasUsed r; L1Fee := L1Fee r; FeeScalar := FeeScalar r;
          DAGasPrice := DAGasPrice r; DAGasUsed := DAGasUsed r; DAFee := DAFee r |}.

Fixpoint derive_receipts (signer : Signer) (hash number : Z) (i logIndex : Z) (prev : option Z)
    (rs : list Receipt) (txs : list Transaction) : outcome (list Receipt) :=
  match rs, txs with
  | r :: rs, tx :: txs =>
      r' ← derive_receipt signer hash number i logIndex prev r tx;
      rs' ← derive_receipts signer hash number (i + 1) (logIndex + len (Logs r)) (Some (CumulativeGasUsed r)) rs txs;
      mret (r' :: rs')
  | _, _ => mret []
  end.

Definition DeriveFields (config : ChainConfig) (hash number : Z) (rs : list Receipt) (txs : list Transaction) : outcome (list Receipt) :=
  let signer := MakeSigner (Config.IsEIP155 config number) (Config.IsHomestead config number) (Some (ChainConfig.ChainID config)) in
  if Nat.eqb (length txs) (length rs) then derive_receipts signer hash number 0 0 None rs txs
  else Err (ErrNew "transaction and receipt count mismatch").

End Derive.

(** ** The filter has no false negatives *)

Section BloomFacts.
  Context (Keccak256 : list byte → list byte).

(** All bits of [c] are set in [a]. *)
Definition covers (a c : Z) : Prop := Z.land a c = c.

Lemma covers_bits a c : covers a c ↔ ∀ n, 0 <= n → Z.testbit c n = true → Z.testbit a n = true.
Proof.
  split.
  - intros H n _ Hc. rewrite <- H, Z.land_spec in Hc. by apply andb_true_iff in Hc as [Hc _].
  - intros H. apply Z.bits_inj'. intros n Hn. rewrite Z.land_spec. destruct (Z.testbit c n) eqn:E; [by rewrite H | apply andb_false_r].
Qed.

Lemma covers_refl a : covers a a.
Proof. apply Z.land_diag. Qed.

Lemma covers_trans a b c : covers a b → covers b c → covers a c.
Proof. rewrite !covers_bits. auto. Qed.

Lemma covers_lor_l a b : covers (Z.lor a b) a.
Proof. apply covers_bits. intros n _ H. by rewrite Z.lor_spec, H. Qed.

Lemma covers_lor_r a b : covers (Z.lor a b) b.
Proof. apply covers_bits. intros n _ H. by rewrite Z.lor_spec, H, orb_true_r. Qed.

Lemma covers_le a c : 0 <= a → covers a c → c <= a.
Proof.
  intros Ha H. assert (a - c = Z.ldiff a c) as E.
  { apply Z.sub_nocarry_ldiff. rewrite <- H. apply Z.bits_inj'. intros n _. rewrite Z.ldiff_spec, Z.land_spec, Z.bits_0.
    by destruct (Z.testbit a n), (Z.testbit c n). }
  assert (0 <= Z.ldiff a c) by (apply Z.ldiff_nonneg; lia). lia.
Qed.

Lemma foldl_covers {A} (f : Z → A → Z) l : (∀ a x, covers (f a x) a) → ∀ a, covers (foldl f a l) a.
Proof. intros Hf. induction l as [| x l IH]; intros a; cbn; [apply covers_refl |]. by eapply covers_trans, Hf. Qed.

Lemma foldl_covers_elem {A} (f : Z → A → Z) l x c :
  (∀ a y, covers (f a y) a) → (∀ a, covers (f a x) c) → x ∈ l → ∀ a, covers (foldl f a l) c.
Proof.
  intros Hf Hx Hin. induction l as [| y l IH]; intros a; [by apply not_elem_of_nil in Hin |]. cbn.
  apply elem_of_cons in Hin as [<- | Hin]; [| by apply IH]. eapply covers_trans; [by apply foldl_covers | apply Hx].
Qed.

(** Bits below 2048. *)
Definition filter_bits (z : Z) : Prop := 0 <= z < 2 ^ 2048.

Lemma filter_lor a b : filter_bits a → filter_bits b → filter_bits (Z.lor a b).
Proof.
  intros [Ha1 Ha2] [Hb1 Hb2]. assert (0 <= Z.lor a b) as H0 by by apply Z.lor_nonneg. split; [done |].
  destruct (Z.eq_dec (Z.lor a b) 0) as [-> | Hne]; [lia |]. apply Z.log2_lt_pow2; [lia |]. rewrite Z.log2_lor by done.
  destruct (Z.eq_dec a 0) as [-> |], (Z.eq_dec b 0) as [-> |]; try (by apply Z.max_lub_lt; apply Z.log2_lt_pow2; lia).
  - done.
  - rewrite Z.max_r by apply Z.log2_nonneg. apply Z.log2_lt_pow2; lia.
  - rewrite Z.max_l by apply Z.log2_nonneg. apply Z.log2_lt_pow2; lia.
Qed.

Lemma foldl_filter {A} (f : Z → A → Z) l : (∀ a x, filter_bits a → filter_bits (f a x)) → ∀ a, filter_bits a → filter_bits (foldl f a l).
Proof. intros Hf. induction l as [| x l IH]; intros a Ha; cbn; auto. Qed.

Lemma filter_0 : filter_bits 0.
Proof. split; [lia | apply Z.pow_pos_nonneg; lia]. Qed.

Lemma bloom9_filter b : filter_bits (bloom9 Keccak256 b).
Proof.
  unfold bloom9. apply foldl_filter; [| apply filter_0]. intros a i Ha. apply filter_lor; [done |].
  assert (0 <= bloom_bit (Keccak256 b) i < 2048) as [H1 H2].
  { unfold bloom_bit. change 2047 with (Z.ones 11). rewrite Z.land_ones by lia. apply Z.mod_pos_bound. lia. }
  rewrite Z.shiftl_mul_pow2, Z.mul_1_l by lia. split; [apply Z.pow_nonneg; lia | apply Z.pow_lt_mono_r; lia].
Qed.

Lemma log_bloom_filter a l : filter_bits a → filter_bits (log_bloom Keccak256 a l).
Proof.
  intros Ha. unfold log_bloom. apply foldl_filter; [intros a' t Ha' |]; apply filter_lor; try done; apply bloom9_filter.
Qed.

Lemma log_bloom_covers a l : covers (log_bloom Keccak256 a l) a.
Proof. eapply covers_trans; [apply foldl_covers; intros; apply covers_lor_l | apply covers_lor_l]. Qed.

(** What a log puts into the filter. *)
Definition log_keys (l : log) : list (list byte) := l_Address l :: map (be 32) (l_Topics l).

Lemma log_bloom_key a l k : k ∈ log_keys l → covers (log_bloom Keccak256 a l) (bloom9 Keccak256 k).
Proof.
  intros Hk. unfold log_bloom. apply elem_of_cons in Hk as [-> | Hk].
  - eapply covers_trans; [apply foldl_covers; intros; apply covers_lor_l | apply covers_lor_r].
  - apply list_elem_of_fmap in Hk as (t & -> & Ht). eapply (foldl_covers_elem _ _ t); [| | done]; intros; [apply covers_lor_l | apply covers_lor_r].
Qed.

Lemma SetBytes_spec z b :
  length b = BloomByteLength → filter_bits z → covers z (be_val b) →
  ∃ b', Bloom_SetBytes (big_Bytes z) b = Ok b' ∧ length b' = BloomByteLength ∧ be_val b' = z.
Proof.
  intros Hb Hz Hc. assert (Hl : (bytelen z <= BloomByteLength)%nat).
  { apply bytelen_bound. unfold BloomByteLength. change (256 ^ Z.of_nat 256) with (2 ^ 2048). apply Hz. }
  unfold Bloom_SetBytes. rewrite length_big_Bytes, Hb. destruct (Nat.ltb_spec BloomByteLength (bytelen z)); [lia |].
  eexists. split; [done |]. split; [rewrite length_app, length_take, length_big_Bytes; lia |].
  rewrite be_val_app, big_SetBytes_Bytes, length_big_Bytes by apply Hz.
  assert (Hle : be_val b <= z) by (apply covers_le; [apply Hz | done]).
  assert (Hlt : z < 256 ^ Z.of_nat (bytelen z)) by (destruct (Z.eq_dec z 0) as [-> |]; [done | apply bytelen_spec; unfold filter_bits in Hz; lia]).
  rewrite <- (take_drop (BloomByteLength - bytelen z) b), be_val_app, length_drop, Hb in Hle.
  replace (BloomByteLength - (BloomByteLength - bytelen z))%nat with (bytelen z) in Hle by lia.
  destruct (be_val_range (take (BloomByteLength - bytelen z) b)) as [H1 _]. destruct (be_val_range (drop (BloomByteLength - bytelen z) b)) as [H2 _].
  pose proof (pow256_pos (bytelen z)) as H0. revert Hle Hlt H1 H2 H0. generalize (be_val (take (BloomByteLength - bytelen z) b)) (be_val (drop (BloomByteLength - bytelen z) b)) (256 ^ Z.of_nat (bytelen z)).
  clear. intros x y p H1 H2 H3 H4 H0. assert (x = 0) as -> by nia. lia.
Qed.

(** The bits of the filter of a block. *)
Definition receipts_bloom (rs : list Receipt) : Z := foldl (λ bin r, Z.lor bin (LogsBloom Keccak256 (Logs r))) 0 rs.

Lemma receipts_bloom_filter rs : filter_bits (receipts_bloom rs).
Proof.
  apply foldl_filter; [| apply filter_0]. intros a r Ha. apply filter_lor; [done |]. unfold LogsBloom.
  apply foldl_filter; [apply log_bloom_filter | apply filter_0].
Qed.

Lemma receipts_bloom_key rs r l k :
  r ∈ rs → l ∈ Logs r → k ∈ log_keys l → covers (receipts_bloom rs) (bloom9 Keccak256 k).
Proof.
  intros Hr Hl Hk. eapply (foldl_covers_elem _ _ r); [| | done]; intros a; [intros; apply covers_lor_l |].
  eapply covers_trans; [apply covers_lor_r |]. eapply (foldl_covers_elem _ _ l); [| | done]; intros; [apply log_bloom_covers | by apply log_bloom_key].
Qed.

Lemma CreateBloom_spec rs :
  ∃ b, CreateBloom Keccak256 rs = Ok b ∧ length b = BloomByteLength ∧ be_val b = receipts_bloom rs.
Proof.
  apply SetBytes_spec; [by rewrite length_replicate | apply receipts_bloom_filter |].
  rewrite be_val_replicate_0. apply Z.land_0_r.
Qed.

(** C24: The bloom filter has no false negatives: CreateBloom makes a filter for every list of receipts,
    without the panic of SetBytes, and BloomLookup finds the address and every topic of every log in
    it; Bloom.Add makes its argument be found, and nothing that was found before is lost. *)
Theorem bloom_complete rs b d :
  length b = BloomByteLength →
  (∃ bl, CreateBloom Keccak256 rs = Ok bl ∧ length bl = BloomByteLength ∧
    ∀ r l k, r ∈ rs → l ∈ Logs r → k ∈ log_keys l → BloomLookup Keccak256 bl k = true) ∧
  ∃ b', Bloom_Add Keccak256 d b = Ok b' ∧ length b' = BloomByteLength ∧ Bloom_Test Keccak256 b' d = true ∧
    ∀ k, BloomLookup Keccak256 b k = true → BloomLookup Keccak256 b' k = true.
Proof.
  intros Hb. split.
  - destruct (CreateBloom_spec rs) as (bl & E & Hl & Hv). exists bl. split; [done |]. split; [done |]. intros r l k Hr Hlog Hk.
    apply Z.eqb_eq. rewrite Hv. by eapply receipts_bloom_key.
  - destruct (SetBytes_spec (Z.lor (be_val b) (bloom9 Keccak256 (big_Bytes d))) b) as (b' & E & Hl & Hv); [done | | apply covers_lor_l |].
    { apply filter_lor; [| apply bloom9_filter]. pose proof (be_val_range b) as H. rewrite Hb in H.
      unfold BloomByteLength in H. change (256 ^ Z.of_nat 256) with (2 ^ 2048) in H. exact H. }
    exists b'. split; [done |]. split; [done |]. unfold Bloom_Test, BloomLookup. rewrite Hv. split; [apply Z.eqb_eq, covers_lor_r |].
    intros k Hk. apply Z.eqb_eq in Hk. apply Z.eqb_eq. eapply covers_trans; [apply covers_lor_l | exact Hk].
Qed.

End BloomFacts.

(** ** The consensus encoding *)

#[local] Opaque be BloomByteLength.

Record log_ok (l : log) : Prop := {
  lo_address : length (l_Address l) = 20%nat;
  lo_topics : Forall word (l_Topics l);
}.

Record receipt_ok (r : Receipt) : Prop := {
  ro_status : (PostState r = [] ∧ (Status r = ReceiptStatusFailed ∨ Status r = ReceiptStatusSuccessful)) ∨
              (length (PostState r) = 32%nat ∧ Status r = 0);
  ro_gas : 0 <= CumulativeGasUsed r < 2 ^ 64;
  ro_bloom : length (rc_Bloom r) = BloomByteLength;
  ro_logs : Forall log_ok (Logs r);
  ro_size : len (value_bytes (receiptRLP_value r)) < 2 ^ 60;
}.

(** What the encoding keeps of a log. *)
Definition bare_log (l : log) : log := set_log_position 0 0 0 0 l.

Lemma rlpLog_has_type l : log_ok l → has_type rlpLog_ty (rlpLog_value l).
Proof.
  intros [Ha _]. eexists. split; [done |]. cbn [map].
  repeat (apply Forall2_cons; split); [by eexists | | by eexists | by apply Forall2_nil].
  eexists. split; [done |]. apply Forall_fmap, Forall_true. intros t. eexists. split; [done | apply length_be].
Qed.

Lemma receiptRLP_has_type r : receipt_ok r → has_type receiptRLP_ty (receiptRLP_value r).
Proof.
  intros [_ Hg Hb Hl _]. eexists. split; [done |]. cbn [map].
  repeat (apply Forall2_cons; split); [by eexists | by eexists | by eexists | | by apply Forall2_nil].
  eexists. split; [done |]. apply Forall_fmap. eapply Forall_impl; [done | apply rlpLog_has_type].
Qed.

Lemma rlpLog_value_ok l : value_ok (rlpLog_value l) = true.
Proof. cbn. rewrite andb_true_r. by induction (l_Topics l). Qed.

Lemma GetRlp_bytes r : receipt_ok r → GetRlp r = Ok (value_bytes (receiptRLP_value r)).
Proof.
  intros [_ Hg _ _ Hs]. unfold GetRlp, receipt_EncodeRLP. rewrite EncodeToBytes_bytes; [done | | lia]. cbn [receiptRLP_value value_ok forallb].
  rewrite (proj2 (Z.leb_le _ _)), (proj2 (Z.ltb_lt _ _)), !andb_true_r by lia. cbn.
  induction (Logs r) as [| l ls IH]; [done |]. cbn [map forallb]. by rewrite rlpLog_value_ok.
Qed.

Lemma log_of_value l : log_ok l → log_of (rlpLog_value l) = Ok (bare_log l).
Proof.
  intros [_ Ht]. cbn. assert (mapM topic_of (map (λ t, VBytes (be 32 t)) (l_Topics l)) = Ok (l_Topics l)) as ->; [| done].
  induction Ht as [| t ts Hw _ IH]; [done |]. cbn in *. rewrite IH. cbn. by rewrite be_val_be_small by done.
Qed.

Lemma logs_of_values ls : Forall log_ok ls → mapM log_of (map rlpLog_value ls) = Ok (map bare_log ls).
Proof.
  induction 1 as [| l ls Hl _ IH]; [done |].
  change ((y ← log_of (rlpLog_value l); k ← mapM log_of (map rlpLog_value ls); mret (y :: k)) = Ok (map bare_log (l :: ls))).
  by rewrite log_of_value, IH by done.
Qed.

Lemma setStatus_encoding r : receipt_ok r → setStatus (statusEncoding r) emptyReceipt = Ok (PostState r, Status r).
Proof.
  intros [[[Hp Hs] | [Hp Hs]] _ _ _ _]; unfold statusEncoding.
  - rewrite Hp. destruct Hs as [-> | ->]; done.
  - rewrite Hs. destruct (PostState r) as [| x [| y p]] eqn:E; [done.. |]. unfold setStatus.
    rewrite !bool_decide_eq_false_2 by done. by rewrite Hp.
Qed.

Lemma DecodeBytes_bind {A B} (dec : st Stream A) (f : A → st Stream B) b a c :
  DecodeBytes dec b = Ok a → (∀ s, f a s = (Ok c, s)) → DecodeBytes (dec ≫= f) b = Ok c.
Proof.
  unfold DecodeBytes. intros H Hf. unfold mbind, st_bind. destruct (dec _) as [[v | e | m] s]; try done.
  destruct (0 <? len (s_r s)) eqn:E; [done |]. injection H as ->. by rewrite Hf, E.
Qed.

Lemma decode_receipt_value r fuel :
  receipt_ok r → (length (value_bytes (receiptRLP_value r)) < fuel)%nat →
  DecodeBytes (decode fuel receiptRLP_ty) (value_bytes (receiptRLP_value r)) = Ok (receiptRLP_value r).
Proof.
  intros Hr Hf. destruct (DecodeBytes_codec fuel (decode fuel receiptRLP_ty) value_bytes (has_type receiptRLP_ty)
    (value_bytes (receiptRLP_value r))) as [_ H]; [by apply decode_codec | pose proof (ro_size _ Hr); lia | done |].
  apply H. split; [by apply receiptRLP_has_type | done].
Qed.

(** A receipt is read back from its encoding, without the fields that the encoding leaves out. *)
Theorem receipt_roundtrip r fuel :
  receipt_ok r → (length (value_bytes (receiptRLP_value r)) < fuel)%nat →
  ∃ b, GetRlp r = Ok b ∧
    DecodeBytes (receipt_DecodeRLP fuel emptyReceipt) b =
      Ok (set_consensus (PostState r) (Status r) (CumulativeGasUsed r) (rc_Bloom r) (map bare_log (Logs r)) emptyReceipt).
Proof.
  intros Hr Hf. exists (value_bytes (receiptRLP_value r)). split; [by apply GetRlp_bytes |].
  eapply DecodeBytes_bind; [by apply decode_receipt_value |]. intros s. cbn [receiptRLP_value].
  unfold mbind, st_bind, st_lift. by rewrite logs_of_values, setStatus_encoding by (done || apply Hr).
Qed.

(** ** The root over the receipts *)

(** The consensus fields. *)
Definition consensus (r : Receipt) : list byte * Z * list byte * list log :=
  (statusEncoding r, CumulativeGasUsed r, rc_Bloom r, map bare_log (Logs r)).

Lemma rlpLog_value_inj l1 l2 : log_ok l1 → log_ok l2 → rlpLog_value l1 = rlpLog_value l2 → bare_log l1 = bare_log l2.
Proof. intros H1 H2 E. apply log_of_value in H1, H2. congruence. Qed.

Lemma receiptRLP_bytes_inj r1 r2 :
  receipt_ok r1 → receipt_ok r2 → value_bytes (receiptRLP_value r1) = value_bytes (receiptRLP_value r2) → consensus r1 = consensus r2.
Proof.
  intros H1 H2 E. pose proof (decode_receipt_value r1 _ H1 (Nat.lt_succ_diag_r _)) as D1.
  pose proof (decode_receipt_value r2 _ H2 (Nat.lt_succ_diag_r _)) as D2. rewrite E, D2 in D1. injection D1 as Es Eg Eb El.
  unfold consensus. rewrite Es, Eg, Eb. f_equal. pose proof (logs_of_values _ (ro_logs _ H1)) as L1.
  pose proof (logs_of_values _ (ro_logs _ H2)) as L2. rewrite El in L2. congruence.
Qed.

Definition receipt_bytes (r : Receipt) : list byte := value_bytes (receiptRLP_value r).

Lemma mapM_GetRlp rs : Forall receipt_ok rs → mapM GetRlp rs = Ok (map receipt_bytes rs).
Proof.
  induction 1 as [| r rs Hr _ IH]; [done |].
  change ((y ← GetRlp r; k ← mapM GetRlp rs; mret (y :: k)) = Ok (map receipt_bytes (r :: rs))). by rewrite GetRlp_bytes, IH by done.
Qed.

Lemma receipts_derivable rs : Forall receipt_ok rs → len rs < 2 ^ 64 → derivable (map receipt_bytes rs).
Proof.
  intros Hok Hl. split; [unfold len in *; by rewrite length_map |]. intros v Hv. apply list_elem_of_fmap in Hv as (r & -> & Hr).
  rewrite Forall_forall in Hok. destruct (Hok r Hr) as [_ _ Hb _ Hs]. split; [| exact Hs]. intros E.
  assert (0 < len (receipt_bytes r)) as H; [| by rewrite E in H]. unfold receipt_bytes, receiptRLP_value. cbn [value_bytes map concat].
  match goal with |- context [rlp_list ?x] => pose proof (len_rlp_list x) as H; rewrite !len_app in H end.
  pose proof (len_rlp_str (rc_Bloom r)). pose proof (len_nonneg (rlp_str (statusEncoding r))).
  pose proof (len_nonneg (rlp_str (big_Bytes (CumulativeGasUsed r)))).
  match goal with K : context [rlp_list (concat ?x) ++ []] |- _ => pose proof (len_nonneg (rlp_list (concat x))) end.
  assert (len (rc_Bloom r) = 256) by (unfold len; by rewrite Hb). rewrite len_nil in H. lia.
Qed.

Lemma map_consensus_inj rs1 : ∀ rs2, Forall receipt_ok rs1 → Forall receipt_ok rs2 →
  map receipt_bytes rs1 = map receipt_bytes rs2 → map consensus rs1 = map consensus rs2.
Proof.
  induction rs1 as [| r1 rs1 IH]; intros [| r2 rs2] H1 H2 E; try done. inversion H1; inversion H2; subst. injection E as E Es.
  cbn [map]. f_equal; [by apply receiptRLP_bytes_inj | by apply IH].
Qed.

(** The root that a header has for the receipts: it exists for every list of receipts, and without collisions of the
    hash it determines the number of receipts, their order and the consensus fields of each. *)
Theorem receipts_root_binds (Keccak256 : list byte → list byte) (length_Keccak256 : ∀ b, length (Keccak256 b) = HashLength)
    (rs1 rs2 : list Receipt) (P : list byte → Prop) :
  Forall receipt_ok rs1 → Forall receipt_ok rs2 → len rs1 < 2 ^ 64 → len rs2 < 2 ^ 64 → collision_free Keccak256 P →
  encoded Keccak256 P (index_map (map receipt_bytes rs1)) → encoded Keccak256 P (index_map (map receipt_bytes rs2)) →
  ∃ h1 h2, receipts_DeriveSha Keccak256 rs1 = Ok h1 ∧ receipts_DeriveSha Keccak256 rs2 = Ok h2 ∧
    (h1 = h2 → map consensus rs1 = map consensus rs2).
Proof.
  intros H1 H2 L1 L2 HP E1 E2. unfold receipts_DeriveSha. rewrite (mapM_GetRlp _ H1), (mapM_GetRlp _ H2).
  destruct (derived_hashes Keccak256 length_Keccak256 (map receipt_bytes rs1) (map receipt_bytes rs2) P) as (h1 & h2 & D1 & D2 & Hh);
    [by apply receipts_derivable.. | done | done | done |].
  exists h1, h2. split; [done |]. split; [done |]. intros E. by apply map_consensus_inj, Hh.
Qed.
