(* ===== verification/BlockProcess.v ===== *)
(** The execution of a block: src/l2geth/core/state_processor.go, the EVM
    context of src/l2geth/core/evm.go, and the checks of
    src/l2geth/core/block_validator.go.

    The components of the node meet here: transactions are turned into
    messages, the scheduled upgrades are applied, the fees are derived, the
    message is executed by the EVM on the state, and a receipt is made.
    [UsingBVM] is a constant of the source and true. *)

From S2P Require Import Prelude Rlp Trie TxMeta Transaction BigFloat Fees StateDB EvmCommon EvmCalls EvmGas EvmInstructions EvmJumpTable EvmInterpreter.
From S2P Require Import StateTransition ChainConfig Upgrades Receipts.

(** ** Headers and blocks *)

Record Header := {
  h_ParentHash : list byte;
  h_UncleHash : list byte;
  h_Coinbase : address;
  h_Root : list byte;
  h_TxHash : list byte;
  h_ReceiptHash : list byte;
  h_Bloom : list byte;
  h_Difficulty : Z;
  h_Number : Z;
  h_GasLimit : Z;
  h_GasUsed : Z;
  h_Time : Z;
  h_Extra : list byte;
  h_MixDigest : list byte;
  h_Nonce : list byte;
}.

Definition header_value (h : Header) : value :=
  VStruct [VBytes (h_ParentHash h); VBytes (h_UncleHash h); VBytes (h_Coinbase h); VBytes (h_Root h); VBytes (h_TxHash h);
           VBytes (h_ReceiptHash h); VBytes (h_Bloom h); VBigInt (Some (h_Difficulty h)); VBigInt (Some (h_Number h));
           VUint (h_GasLimit h); VUint (h_GasUsed h); VUint (h_Time h); VBytes (h_Extra h); VBytes (h_MixDigest h);
           VBytes (h_Nonce h)].

Definition header_Hash (Keccak256 : list byte → list byte) (h : Header) : list byte := rlpHash Keccak256 (header_value h).

Record Block := {
  header : Header;
  uncles : list Header;
  transactions : list Transaction;
}.

Definition zero_hash : list byte := replicate 32 Byte.x00.

(** [GetHashFn] without its cache, which holds what the loop has seen. The numbers of the headers go down by one. *)
Fixpoint ancestor_hash (GetHeader : list byte → Z → option Header) (fuel : nat) (n : Z) (h : option Header) : list byte :=
  match fuel, h with
  | S fuel, Some h =>
      if n =? u64 (u64 (h_Number h) - 1) then h_ParentHash h
      else ancestor_hash GetHeader fuel n (GetHeader (h_ParentHash h) (u64 (u64 (h_Number h) - 1)))
  | _, _ => zero_hash
  end.

Definition GetHashFn (GetHeader : list byte → Z → option Header) (ref : Header) (n : Z) : list byte :=
  ancestor_hash GetHeader (S (S (Z.to_nat (h_Number ref)))) n (Some ref).

Definition BvmFeeWallet : address := be 20 0x4200000000000000000000000000000000000011.

(** The part of [vm.Config] that the instructions use. *)
Record vmConfig := { cfg_NoRecursion : bool; cfg_EnablePreimageRecording : bool }.

(** The block number of L1 is missing for no transaction of a rollup. *)
Definition NewEVMContext (GetHeader : list byte → Z → option Header) (config : ChainConfig) (cfg : vmConfig)
    (msg : Message) (h : Header) : BlockContext :=
  {| GetHash := GetHashFn GetHeader h; Origin := msg_from msg; GasPrice := msg_gasPrice msg; Coinbase := BvmFeeWallet;
     EvmCommon.GasLimit := h_GasLimit h; BlockNumber := h_Number h; Time := msg_l1Timestamp msg; Difficulty := 0;
     EvmCommon.L1BlockNumber := default 0 (msg_l1BlockNumber msg); EvmCommon.ChainID := ChainConfig.ChainID config;
     NoRecursion := cfg_NoRecursion cfg; EnablePreimageRecording := cfg_EnablePreimageRecording cfg |}.

(** ** The state of a block's execution *)

Definition newAccessList : accessList := {| al_addresses := ∅; al_slots := [] |}.

Definition Prepare (th bh ti : Z) (s : StateDB) : StateDB :=
  {| trie := trie s; stateObjects := stateObjects s; refund := refund s; thash := th; bhash := bh; txIndex := ti;
     logs := logs s; logSize := logSize s; preimages := preimages s; access := newAccessList; entries := entries s;
     dirties := dirties s; validRevisions := validRevisions s; nextRevisionId := nextRevisionId s |}.

Definition GetLogs (hash : Z) (s : StateDB) : list log := default [] (logs s !! hash).

(** The gas pool, the state, the gas used so far and the database of the chain. *)
Record Execution := {
  ex_gp : Z;
  ex_state : StateDB;
  ex_usedGas : Z;
  ex_db : database;
}.

Definition ex_set_state (s : StateDB) (x : Execution) : Execution :=
  {| ex_gp := ex_gp x; ex_state := s; ex_usedGas := ex_usedGas x; ex_db := ex_db x |}.
Definition ex_set_gp (gp : Z) (x : Execution) : Execution :=
  {| ex_gp := gp; ex_state := ex_state x; ex_usedGas := ex_usedGas x; ex_db := ex_db x |}.
Definition ex_set_usedGas (g : Z) (x : Execution) : Execution :=
  {| ex_gp := ex_gp x; ex_state := ex_state x; ex_usedGas := g; ex_db := ex_db x |}.
Definition ex_set_db (db : database) (x : Execution) : Execution :=
  {| ex_gp := ex_gp x; ex_state := ex_state x; ex_usedGas := ex_usedGas x; ex_db := db |}.

Section Process.
  Context (Keccak256 : list byte → list byte) (ContractCode : list byte → list byte).
  Context (Ecrecover : list byte → list byte → outcome (list byte)) (uint64_out_of_range : Z → Z).
  (** The precompiled contracts of the rules, and the byte codes that the upgrades install. *)
  Context (precompiles : Rules → gmap address PrecompiledContract) (L2GasRewardCode L2GasPriceOracleCode : list byte).
  (** The accounts of the DAO fork. *)
  Context (DAORefundContract : address) (DAODrainList : list address).
  (** The headers of the chain by hash and number, and the root of the tries of a state, which StateTries.v has. *)
  Context (GetHeader : list byte → Z → option Header) (stateRoot : StateDB → list byte).
  Context (config : ChainConfig) (cfg : vmConfig) (fuel : nat).

Abbreviation executing := (st Execution).

Definition block_signer (number : Z) : Signer :=
  MakeSigner (Config.IsEIP155 config number) (Config.IsHomestead config number) (Some (ChainConfig.ChainID config)).

(** [ApplyMessage] with the environment that [NewEVM] makes. *)
Definition apply_message (h : Header) (msg : Message) : executing (list byte * Z * bool) := λ x,
  let ctx := NewEVMContext GetHeader config cfg msg h in
  let rules := Config.Rules config (h_Number h) in
  let run := EvmInterpreter.run Keccak256 ContractCode rules ctx (precompiles rules) fuel in
  let '(r, t) := ApplyMessage Keccak256 ContractCode uint64_out_of_range run rules (precompiled (precompiles rules)) (NoRecursion ctx)
                   (Coinbase ctx) msg (ex_gp x) (ex_state x) in
  (r, match t with Some t => ex_set_gp (st_gp t) (ex_set_state (st_state t) x) | None => x end).

Definition IntermediateRoot (deleteEmptyObjects : bool) (s : StateDB) : list byte * StateDB :=
  let s := Finalise Keccak256 deleteEmptyObjects s in (stateRoot s, s).

(** The pending changes are written; before Byzantium the root is part of the receipt. *)
Definition finish_state (h : Header) : executing (list byte) := λ x,
  if Config.IsByzantium config (h_Number h) then (Ok [], ex_set_state (Finalise Keccak256 true (ex_state x)) x)
  else
    let '(root, s) := IntermediateRoot (Config.IsEIP158 config (h_Number h)) (ex_state x) in
    (Ok root, ex_set_state s x).

(** The fees of data availability; they are missing when it is switched off. *)
Definition da_info (msg : Message) (s : StateDB) : outcome (option (Z * Z * Z)) :=
  if oracle_slots s DaSwitchSlot =? 1 then info ← DeriveDAGasInfo msg (oracle_slots s); mret (Some info) else mret None.

(** The receipt of a transaction that used [gas]. *)
Definition make_receipt (h : Header) (tx : Transaction) (msg : Message) (root : list byte) (failed : bool) (gas : Z)
    (l1 : Z * Z * Z * bigfloat) (da : option (Z * Z * Z)) (x : Execution) : outcome Receipt :=
  let s := ex_state x in
  let '(l1Fee, l1GasPrice, l1GasUsed, scalar) := l1 in
  let r := NewReceipt root failed (ex_usedGas x) in
  let mk bloom :=
    {| PostState := PostState r; Status := Status r; CumulativeGasUsed := CumulativeGasUsed r; rc_Bloom := bloom;
       Logs := GetLogs (tx_Hash Keccak256 tx) s; rc_TxHash := tx_Hash Keccak256 tx;
       ContractAddress := match msg_to msg with
                          | None => CreateAddress Keccak256 (msg_from msg) (AccountNonce (data tx))
                          | Some _ => ContractAddress r
                          end;
       rc_GasUsed := gas; rc_BlockHash := bhash s; rc_BlockNumber := Some (h_Number h); TransactionIndex := txIndex s;
       L1GasPrice := Some l1GasPrice; L1GasUsed := Some l1GasUsed; L1Fee := Some l1Fee; FeeScalar := Some scalar;
       DAGasPrice := (λ i, i.1.2) <$> da; DAGasUsed := (λ i, i.2) <$> da; DAFee := (λ i, i.1.1) <$> da |} in
  bloom ← CreateBloom Keccak256 [mk (rc_Bloom r)];
  mret (mk bloom).

Definition ApplyTransaction (h : Header) (tx : Transaction) : executing Receipt :=
  msg ← st_lift (AsMessage Keccak256 Ecrecover true (block_signer (h_Number h)) tx).1;
  x ← st_get;
  let '(s, db) := CheckUpgrade Keccak256 ContractCode L2GasRewardCode L2GasPriceOracleCode (ChainConfig.ChainID config)
                    (Some (h_Number h)) (TxMeta.L1BlockNumber (meta tx)) (ex_state x, ex_db x) in
  st_modify (λ x, ex_set_db db (ex_set_state s x));;
  l1 ← st_lift (DeriveL1GasInfo uint64_out_of_range msg (oracle_slots s));
  '(_, gas, failed) ← apply_message h msg;
  root ← finish_state h;
  st_modify (λ x, ex_set_usedGas (u64 (ex_usedGas x + gas)) x);;
  x ← st_get;
  da ← st_lift (da_info msg (ex_state x));
  st_lift (make_receipt h tx msg root failed gas l1 da x).

(** The transactions from index [i] on. *)
Fixpoint process_txs (h : Header) (blockHash i : Z) (txs : list Transaction) : executing (list Receipt) :=
  match txs with
  | [] => mret []
  | tx :: txs =>
      st_modify (λ x, ex_set_state (Prepare (tx_Hash Keccak256 tx) blockHash i (ex_state x)) x);;
      r ← ApplyTransaction h tx;
      rs ← process_txs h blockHash (i + 1) txs;
      mret (r :: rs)
  end.

(** [misc.ApplyDAOHardFork] *)
Definition ApplyDAOHardFork (s : StateDB) : StateDB :=
  let s := if Exist DAORefundContract s then s else CreateAccount Keccak256 DAORefundContract s in
  foldl (λ s a, SetBalance Keccak256 a 0 (AddBalance Keccak256 DAORefundContract (StateDB.GetBalance Keccak256 a s) s)) s DAODrainList.

(** The engine is clique: its [Finalize] writes the pending changes. *)
Definition Process (b : Block) (s : StateDB) (db : database) : outcome (list Receipt * list log * Z) * Execution :=
  let h := header b in
  let start gp := {| ex_gp := gp; ex_state := s; ex_usedGas := 0; ex_db := db |} in
  match AddGas 0 (h_GasLimit h) with
  | Ok gp =>
      ((if DAOForkSupport config && bool_decide (DAOForkBlock config = Some (h_Number h))
        then st_modify (λ x, ex_set_state (ApplyDAOHardFork (ex_state x)) x) else mret tt);;
       rs ← process_txs h (be_val (header_Hash Keccak256 h)) 0 (transactions b);
       st_modify (λ x, ex_set_state (IntermediateRoot (Config.IsEIP158 config (h_Number h)) (ex_state x)).2 x);;
       x ← st_get;
       mret (rs, concat (map Logs rs), ex_usedGas x)) (start gp)
  | Err e => (Err e, start 0)
  | Panic m => (Panic m, start 0)
  end.

(** ** Validation *)

Definition ErrKnownBlock : error := ErrVar "core.ErrKnownBlock" "block already known".
Definition ErrUnknownAncestor : error := ErrVar "consensus.ErrUnknownAncestor" "unknown ancestor".
Definition ErrPrunedAncestor : error := ErrVar "consensus.ErrPrunedAncestor" "pruned ancestor".

Definition CalcUncleHash (us : list Header) : list byte := rlpHash Keccak256 (VSlice false (map header_value us)).

(** [Transactions.GetRlp] drops the error. *)
Definition tx_GetRlp (t : Transaction) : list byte := match EncodeRLP t with Ok b => b | _ => [] end.

Definition txs_DeriveSha (txs : list Transaction) : outcome (list byte) := DeriveSha Keccak256 (map tx_GetRlp txs).

(** What the chain and the consensus engine answer is given. *)
Definition ValidateBody (HasBlockAndState HasBlock : list byte → Z → bool) (VerifyUncles : Block → outcome ()) (b : Block) : outcome () :=
  let h := header b in
  if HasBlockAndState (header_Hash Keccak256 h) (u64 (h_Number h)) then Err ErrKnownBlock
  else
    VerifyUncles b;;
    if bool_decide (CalcUncleHash (uncles b) ≠ h_UncleHash h) then Err (ErrNew "uncle root hash mismatch")
    else
      hash ← txs_DeriveSha (transactions b);
      if bool_decide (hash ≠ h_TxHash h) then Err (ErrNew "transaction root hash mismatch")
      else if negb (HasBlockAndState (h_ParentHash h) (u64 (u64 (h_Number h) - 1))) then
        if negb (HasBlock (h_ParentHash h) (u64 (u64 (h_Number h) - 1))) then Err ErrUnknownAncestor else Err ErrPrunedAncestor
      else Ok tt.

Definition ValidateState (b : Block) (s : StateDB) (rs : list Receipt) (usedGas : Z) : outcome () :=
  let h := header b in
  if negb (h_GasUsed h =? usedGas) then Err (ErrNew "invalid gas used")
  else
    rbloom ← CreateBloom Keccak256 rs;
    if bool_decide (rbloom ≠ h_Bloom h) then Err (ErrNew "invalid bloom")
    else
      receiptSha ← receipts_DeriveSha Keccak256 rs;
      if bool_decide (receiptSha ≠ h_ReceiptHash h) then Err (ErrNew "invalid receipt root hash")
      else if bool_decide (h_Root h ≠ (IntermediateRoot (Config.IsEIP158 config (h_Number h)) s).1) then Err (ErrNew "invalid merkle root")
      else Ok tt.

End Process.

Definition GasLimitBoundDivisor : Z := 1024.
Definition MinGasLimit : Z := 4000000.

Definition CalcGasLimit (parent : Header) (gasFloor gasCeil : Z) : Z :=
  let contrib := u64 (h_GasUsed parent + h_GasUsed parent / 2) / GasLimitBoundDivisor in
  let decay := u64 (h_GasLimit parent / GasLimitBoundDivisor - 1) in
  let limit := u64 (u64 (h_GasLimit parent - decay) + contrib) in
  let limit := if limit <? MinGasLimit then MinGasLimit else limit in
  if limit <? gasFloor then
    let limit := u64 (h_GasLimit parent + decay) in
    if gasFloor <? limit then gasFloor else limit
  else if gasCeil <? limit then
    let limit := u64 (h_GasLimit parent - decay) in
    if limit <? gasCeil then gasCeil else limit
  else limit.
