(* ===== verification/BlockFacts.v ===== *)
(** Blocks that are executed: what a transaction leaves in the state, and the
    receipts of a block.

    A transaction logs under its own hash, with consecutive indexes, whatever
    is reverted in between.  The receipts that [Process] returns are therefore
    those that [DeriveFields] makes again from what is stored of them. *)

From Stdlib Require Import Sorting.Sorted.
From S2P Require Import Prelude Rlp RlpStream RlpStreamFacts TrieNode Trie TrieContents TrieTheorems TrieDerive TxMeta Transaction BigFloat Fees StateDB StateDBFacts StateBalances EvmEffects EvmCommon EvmCalls EvmGas.
From S2P Require Import EvmInstructions EvmJumpTable EvmInterpreter EvmGasFacts EvmSafety EvmRun EvmPrecompiles EvmPrecompilesFacts EvmTheorems.
From S2P Require Import StateTransition StateTransitionFacts ChainConfig Upgrades Receipts BlockProcess.

Section Logs.
  Context (Keccak256 : list byte → list byte) (ContractCode : list byte → list byte).

Abbreviation do_op := (StateDBFacts.exec Keccak256 ContractCode).
Abbreviation evm_effects := (evm_effects Keccak256 ContractCode).
Abbreviation sound := (sound Keccak256 ContractCode).
Abbreviation wide := (wide Keccak256 ContractCode).

(** ** Logs of a transaction *)

(** The position of a transaction and the logs are the same. *)
Record same_logs (s t : StateDB) : Prop := {
  sl_thash : thash t = thash s;
  sl_bhash : bhash t = bhash s;
  sl_txIndex : txIndex t = txIndex s;
  sl_logs : logs t = logs s;
  sl_logSize : logSize t = logSize s;
}.

#[local] Instance same_logs_preorder : PreOrder same_logs.
Proof. split; [by split |]. intros s t u [] []. split; congruence. Qed.

Lemma GetOrNew_logs a s o s' : GetOrNewStateObject Keccak256 a s = (o, s') → same_logs s s'.
Proof. unfold GetOrNewStateObject. destruct (getStateObject a s); intros [= <- <-]; by split. Qed.

Lemma SetState_logs a k v s : same_logs s (SetState Keccak256 a k v s).
Proof.
  unfold SetState. destruct (GetOrNewStateObject Keccak256 a s) as [o s1] eqn:E. apply GetOrNew_logs in E.
  destruct (_ =? v); [done |]. etrans; [done | by split].
Qed.

(** Every operation but one keeps the logs. *)
Lemma do_op_logs o s s' : (∀ a ts d, o ≠ OAddLog a ts d) → do_op o s = Ok s' → same_logs s s'.
Proof.
  intros Hno Ho. destruct o; cbn [StateDBFacts.exec] in Ho; try (injection Ho as <-).
  - unfold SetNonce. destruct (GetOrNewStateObject Keccak256 a s) as [o s1] eqn:E. apply GetOrNew_logs in E. etrans; [done | by split].
  - unfold SetCode. destruct (GetOrNewStateObject Keccak256 a s) as [o s1] eqn:E. apply GetOrNew_logs in E. etrans; [done | by split].
  - apply SetState_logs.
  - apply SetState_logs.
  - apply SetState_logs.
  - apply SetState_logs.
  - unfold CreateAccount. cbn. destruct (getDeletedStateObject a s); by split.
  - unfold Suicide. destruct (getStateObject a s); by split.
  - by split.
  - unfold SubRefund in Ho. destruct (_ <? _); [done |]. injection Ho as <-. by split.
  - by destruct (Hno a topics d).
  - unfold AddPreimage. destruct (preimages s !! hash); by split.
  - unfold AddAddressToAccessList, al_AddAddress. destruct (al_addresses (access s) !! a); by split.
  - unfold AddSlotToAccessList in Ho. apply outcome_bind_Ok in Ho as ([[al m1] m2] & _ & [= <-]). destruct m1, m2; by split.
Qed.

(** [t] is reached from [s] in the transaction of [s]: the logs of the transaction are at their positions. *)
Record logged (s t : StateDB) : Prop := {
  lg_thash : thash t = thash s;
  lg_bhash : bhash t = bhash s;
  lg_txIndex : txIndex t = txIndex s;
  lg_other : ∀ h, h ≠ thash s → logs t !! h = logs s !! h;
  lg_size : logSize t = logSize s + len (GetLogs (thash s) t);
  lg_positions : derive_logs (thash s) (bhash s) (txIndex s) (logSize s) (GetLogs (thash s) t) = GetLogs (thash s) t;
}.

Lemma logged_start s : logs s !! thash s = None → logged s s.
Proof. intros H. split; try done; unfold GetLogs; rewrite H; [unfold len; cbn; lia | done]. Qed.

Lemma logged_same s t u : same_logs t u → logged s t → logged s u.
Proof. intros [] []. unfold GetLogs in *. split; unfold GetLogs; rewrite ?sl_logs0; done || congruence. Qed.

Lemma derive_logs_app th bh ti n l1 l2 : derive_logs th bh ti n (l1 ++ l2) = derive_logs th bh ti n l1 ++ derive_logs th bh ti (n + len l1) l2.
Proof. unfold derive_logs. rewrite imap_app. f_equal. apply imap_ext. intros j l _. cbn. unfold len. f_equal. lia. Qed.

Lemma logged_AddLog s t a ts d : logged s t → logged s (AddLog a ts d t).
Proof.
  intros [H1 H2 H3 H4 H5 H6]. assert (GetLogs (thash s) (AddLog a ts d t) = GetLogs (thash s) t ++
    [{| l_Address := a; l_Topics := ts; l_Data := d; l_TxHash := thash s; l_BlockHash := bhash s; l_TxIndex := txIndex s; l_Index := logSize t |}]) as E.
  { unfold GetLogs, AddLog. cbn [logs with_logs append]. by rewrite H1, lookup_insert_eq, H2, H3. }
  split; try done.
  - intros h Hh. cbn. rewrite H1, lookup_insert_ne by done. by apply H4.
  - rewrite E, len_app. cbn [logSize AddLog with_logs append]. unfold len at 2. cbn [length]. lia.
  - rewrite E, derive_logs_app, H6. f_equal. unfold derive_logs. cbn [imap]. unfold set_log_position. cbn. repeat f_equal. lia.
Qed.

Lemma effects_logged s s' : evm_effects false s s' → sound s → logs s !! thash s = None → logged s s'.
Proof.
  intros He Hs Hl. eapply (effects_invariant Keccak256 ContractCode (evm_op false) (logged s)); [| | exact He | done | by apply logged_start].
  - intros t u Htu. apply logged_same. destruct Htu. by split.
  - intros o t t' _ Ho Ht. destruct o; try (eapply logged_same; [eapply do_op_logs; [| exact Ho]; done | done]).
    injection Ho as <-. by apply logged_AddLog.
Qed.

(** ** States between transactions *)

Record ready (s : StateDB) : Prop := {
  ry_wf : wf s;
  ry_revisions : validRevisions s = [];
  ry_wide : wide s;
  ry_refund : 0 <= refund s;
}.

Lemma New_ready tr : map_Forall (λ _, wide_account ContractCode) tr → ready (New tr).
Proof. intros Htr. split; [apply New_wf | done | by apply New_wide | done]. Qed.

Lemma Prepare_ok th bh ti s : ready s → state_ok Keccak256 ContractCode (Prepare th bh ti s).
Proof.
  intros [Hw Hv Hwd Hr]. assert (wf (Prepare th bh ti s)) as Hw'.
  { split; [apply Hw | | apply Hw]. split; [done |]. intros m Hm. by apply not_elem_of_nil in Hm. }
  split; [| exact Hwd | exact Hr]. eexists. by apply refines_start.
Qed.

Lemma finalise_wide del o : wide_obj Keccak256 ContractCode o → wide_obj Keccak256 ContractCode (finalise_object Keccak256 del o).
Proof.
  intros [H1 H2 H3]. unfold finalise_object. destruct (suicided o || _); [by split |]. split; [| done | done].
  intros k. specialize (H1 k). unfold obj_GetState, obj_GetCommittedState in *. cbn. rewrite lookup_empty, lookup_union.
  destruct (dirtyStorage o !! k); [by destruct (pendingStorage o !! k) |]. by destruct (pendingStorage o !! k).
Qed.

Lemma Finalise_fields del s :
  same_logs s (Finalise Keccak256 del s) ∧ trie (Finalise Keccak256 del s) = trie s ∧ access (Finalise Keccak256 del s) = access s ∧
  validRevisions (Finalise Keccak256 del s) = [] ∧
  (refund (Finalise Keccak256 del s) = refund s ∨ refund (Finalise Keccak256 del s) = 0) ∧
  (dirties (Finalise Keccak256 del s) = dirties s ∨ dirties (Finalise Keccak256 del s) = ∅) ∧
  ∀ a, stateObjects (Finalise Keccak256 del s) !! a =
    (λ o, if bool_decide (a ∈ dom (dirties s)) then finalise_object Keccak256 del o else o) <$> stateObjects s !! a.
Proof.
  unfold Finalise, clearJournalAndRefund. cbn. destruct (entries s); cbn; repeat (split; [by (split || auto) |]);
    intros a; rewrite map_lookup_imap; by destruct (stateObjects s !! a).
Qed.

Lemma wide_deleted s : wide s → ∀ a o, getDeletedStateObject a s = Some o → deleted o = false → wide_obj Keccak256 ContractCode o.
Proof. intros Hw a o Ho Hd. apply (Hw a). unfold getStateObject. rewrite Ho. by rewrite Hd. Qed.

Lemma Finalise_ready del s : state_ok Keccak256 ContractCode s → ready (Finalise Keccak256 del s).
Proof.
  intros [[m Hm] Hwd Hr]. pose proof (rf_wf _ _ _ _ Hm) as [W1 W2 W3].
  destruct (Finalise_fields del s) as (Hl & Ht & Ha & Hv & Hrf & Hd & Ho). split.
  - split; [destruct Hd as [-> | ->]; [done | intros a n; by rewrite lookup_empty] | by rewrite Ha | intros h; rewrite (sl_logs _ _ Hl); apply W3].
  - done.
  - intros a o. unfold getStateObject, getDeletedStateObject. rewrite Ho, Ht. pose proof (wide_deleted s Hwd a) as Hone.
    unfold getDeletedStateObject in Hone. destruct (stateObjects s !! a) as [o1 |]; cbn.
    + destruct (deleted o1) eqn:Ed.
      * assert (deleted (if bool_decide (a ∈ dom (dirties s)) then finalise_object Keccak256 del o1 else o1) = true) as ->; [| done].
        destruct (bool_decide _); [| done]. unfold finalise_object. by destruct (suicided o1 || _).
      * specialize (Hone o1 eq_refl Ed). match goal with |- context [deleted ?x] => destruct (deleted x) end; [done |]. intros [= <-].
        destruct (bool_decide _); [by apply finalise_wide | done].
    + destruct (trie s !! a) as [acc |]; [| done]. intros [= <-]. by apply Hone.
  - destruct Hrf as [-> | ->]; [done | lia].
Qed.

End Logs.

(** ** What a message does to the state *)

Section Message.
  Context (Keccak256 : list byte → list byte) (ContractCode : list byte → list byte).
  Context (uint64_out_of_range : Z → Z).
  Context (run : Contract → list byte → bool → EVM → outcome result).
  Context (rules : Rules) (ctx : BlockContext) (precompiles : list address) (noRecursion : bool).
  Context (env : environment Keccak256 ctx) (bound : Z) (Hrun : run_safe Keccak256 ContractCode rules run bound).

Abbreviation evm_effects := (evm_effects Keccak256 ContractCode).
Abbreviation ApplyMessage := (ApplyMessage Keccak256 ContractCode uint64_out_of_range run rules precompiles noRecursion).

Lemma ApplyMessage_effects coinbase msg gp s ret used failed t' :
  message_ok msg → state_ok Keccak256 ContractCode s → msg_gasLimit msg < bound →
  ApplyMessage coinbase msg gp s = (Ok (ret, used, failed), t') →
  ∃ t, t' = Some t ∧ evm_effects false s (st_state t) ∧ 0 <= used <= msg_gasLimit msg ∧ msg_gasLimit msg <= gp ∧ st_gp t = gp - used.
Proof.
  intros Hmsg Hstate Hbound E. pose proof (mo_gas _ Hmsg) as Hl.
  assert (∃ t, t' = Some t) as [t ->].
  { unfold StateTransition.ApplyMessage in E. destruct (NewStateTransition _ _ _ _); [| done..]. destruct (TransitionDb _ _ _ _ _ _ _ _).
    injection E as _ <-. by eexists. }
  destruct (accounts_of_run Keccak256 ContractCode uint64_out_of_range run rules ctx precompiles noRecursion env bound Hrun _ _ _ _ _ _ _ _ Hmsg Hstate Hbound E)
    as (_ & _ & _ & _ & _ & _ & _ & Hu & Hgp & _).
  unfold StateTransition.ApplyMessage in E. destruct (NewStateTransition _ msg gp s) as [t0 | |] eqn:En; [| done | done].
  apply NewStateTransition_Ok in En as (Hg & Hm & Hg0 & Hs). destruct (TransitionDb _ _ _ _ _ _ coinbase t0) as [r t''] eqn:Et. injection E as -> ->.
  apply TransitionDb_Ok in Et as (_ & Hp & i & g & vmerr & s2 & t2 & Hi & Ex & _ & _ & Er & _ & Ht); [| done | rewrite Hm; lia].
  rewrite Hm in *. rewrite Hg in Hp. exists t. split; [done |]. split; [| done].
  pose proof (execute_started Keccak256 ContractCode run rules ctx precompiles noRecursion env bound Hrun t0 i) as Hx. rewrite Hm, Hs in Hx.
  specialize (Hx Hmsg Hstate Hi Hbound). rewrite Ex in Hx. destruct Hx as [Hg2 He].
  pose proof (started_effects Keccak256 ContractCode rules precompiles t0 i) as H0. rewrite Hs in H0.
  assert (Hr : 0 <= GetRefund s2).
  { apply (so_refund Keccak256 ContractCode s2). eapply effects_state_ok; [exact env | | exact He]. by eapply effects_state_ok; [exact env | | exact H0]. }
  destruct (started_fields Keccak256 rules precompiles t0 i) as (_ & _ & _ & _ & Ein & _). rewrite Hm in Ein.
  apply refundGas_Ok in Er; cbn [ran set_state set_gas st_gas st_initialGas st_state st_gp st_msg st_gasPrice st_l1Fee st_daFee] in *; [| lia | lia | done].
  destruct Er as [_ ->]. subst t. cbn [set_state st_state].
  assert (Hadd : ∀ a x s0 s1, evm_effects false s0 s1 → evm_effects false s0 (StateDB.AddBalance Keccak256 a x s1))
    by (intros a x s0 s1 H; by eapply (eff_do _ _ _ _ _ (OAddBalance a x))).
  do 2 apply Hadd. by eapply effects_trans.
Qed.

End Message.

(** ** Fees do not panic *)

(** The transaction that the fees of a message are taken of. *)
Record message_fit (msg : Message) : Prop := {
  mf_ok : message_ok msg;
  mf_to : ∀ a, msg_to msg = Some a → length a = 20%nat;
  mf_price : word (msg_gasPrice msg);
  mf_nonce : 0 <= msg_nonce msg < 2 ^ 64;
}.

Lemma len_rlp_word z : word z → len (rlp_str (big_Bytes z)) <= 41.
Proof.
  intros Hz. assert (len (big_Bytes z) <= 32).
  { rewrite len_big_Bytes. assert (bytelen z <= 32)%nat; [| lia]. apply bytelen_bound. unfold word in Hz. change (256 ^ Z.of_nat 32) with (2 ^ 256). lia. }
  pose proof (len_nonneg (big_Bytes z)). pose proof (len_rlp_str_le (big_Bytes z) ltac:(lia)). lia.
Qed.

Lemma asTransaction_data msg :
  data (asTransaction msg) =
    {| AccountNonce := msg_nonce msg; Price := msg_gasPrice msg; Transaction.GasLimit := msg_gasLimit msg; Recipient := msg_to msg;
       Amount := msg_amount msg; Payload := msg_data msg; tx_V := 0; tx_R := 0; tx_S := 0 |}.
Proof. unfold asTransaction. by destruct (msg_to msg). Qed.

Lemma len_message msg : message_fit msg → 3 <= len (value_bytes (txdata_value (data (asTransaction msg)))) < 2 ^ 63.
Proof.
  intros [[_ _ Hd Ha Hg] Ht Hp Hn]. rewrite asTransaction_data. unfold txdata_value. cbn [AccountNonce Price Transaction.GasLimit Recipient Amount Payload tx_V tx_R tx_S].
  cbn [value_bytes map concat]. set (to := value_bytes _). change (rlp_str (big_Bytes 0)) with [Byte.x80].
  assert (0 <= len to <= 41).
  { split; [apply len_nonneg |]. unfold to, recipient_value. destruct (msg_to msg) as [a |]; cbn [value_bytes]; [| done].
    pose proof (Ht a eq_refl) as E. pose proof (len_rlp_str_le a) as Hl. unfold len in *. lia. }
  clearbody to. pose proof (len_rlp_word (msg_nonce msg) ltac:(unfold word; lia)). pose proof (len_rlp_word (msg_gasPrice msg) Hp).
  pose proof (len_rlp_word (msg_gasLimit msg) ltac:(unfold word; lia)). pose proof (len_rlp_word (msg_amount msg) Ha).
  unfold small in Hd. pose proof (len_rlp_str_le (msg_data msg) ltac:(lia)).
  match goal with |- context [rlp_list ?x] => set (c := x); assert (3 <= len c < 2 ^ 62 + 300) end.
  { unfold c. rewrite !len_app. change (len [Byte.x80]) with 1. change (len (@nil byte)) with 0.
    pose proof (len_nonneg (rlp_str (big_Bytes (msg_nonce msg)))). pose proof (len_nonneg (rlp_str (big_Bytes (msg_gasPrice msg)))).
    pose proof (len_nonneg (rlp_str (big_Bytes (msg_gasLimit msg)))). pose proof (len_nonneg (rlp_str (big_Bytes (msg_amount msg)))).
    pose proof (len_nonneg (rlp_str (msg_data msg))). lia. }
  pose proof (len_rlp_list c). pose proof (len_rlp_list_le c ltac:(lia)). lia.
Qed.

Lemma rlpEncode_total msg : message_fit msg → ∃ raw, rlpEncode (asTransaction msg) = Ok raw.
Proof.
  intros Hm. pose proof (len_message msg Hm) as Hl. unfold rlpEncode. rewrite EncodeRLP_bytes; [| | lia].
  - cbn [mbind outcome_bind]. rewrite asTransaction_data in *. cbn [tx_R tx_V tx_S]. cbn [Z.eqb negb orb].
    unfold slice. match goal with |- context [if ?c then _ else _] => assert (c = true) as -> by lia end. by eexists.
  - rewrite asTransaction_data. destruct Hm as [[_ _ _ Ha Hg] Ht Hp Hn]. unfold word in *. unfold txdata_ok. cbn.
    rewrite !andb_true_iff, !Z.leb_le, !Z.ltb_lt. repeat split; try lia. destruct (msg_to msg) as [a |]; [| done]. by rewrite (Ht a eq_refl).
Qed.

Lemma DeriveL1GasInfo_total conv msg slots : message_fit msg → ∃ i, DeriveL1GasInfo conv msg slots = Ok i.
Proof. intros Hm. destruct (rlpEncode_total msg Hm) as [raw E]. unfold DeriveL1GasInfo. rewrite E. by eexists. Qed.

Lemma DeriveDAGasInfo_total msg slots : message_fit msg → ∃ i, DeriveDAGasInfo msg slots = Ok i.
Proof. intros Hm. destruct (rlpEncode_total msg Hm) as [raw E]. unfold DeriveDAGasInfo. rewrite E. by eexists. Qed.

Lemma NewStateTransition_total conv msg gp s : message_fit msg → ∃ t, NewStateTransition conv msg gp s = Ok t.
Proof.
  intros Hm. destruct (rlpEncode_total msg Hm) as [raw E]. unfold NewStateTransition, CalculateL1MsgFee, CalculateDAMsgFee. rewrite E.
  destruct (negb _); [| by eexists]. cbn. destruct (_ =? 1); by eexists.
Qed.

(** ** Transactions of a block *)

(** A transaction as the node has it: addresses of 20 bytes, numbers that fit, and gas for which the fuel is enough. *)
Record tx_fit (fuel : nat) (tx : Transaction) : Prop := {
  tf_sender : ∀ a, L1MessageSender (meta tx) = Some a → length a = 20%nat;
  tf_cached : ∀ sg a, tx_from tx = Some (sg, a) → length a = 20%nat;
  tf_to : ∀ a, Recipient (data tx) = Some a → length a = 20%nat;
  tf_data : small (Payload (data tx));
  tf_amount : word (Amount (data tx));
  tf_price : word (Price (data tx));
  tf_gas : 0 <= Transaction.GasLimit (data tx) < Z.min max_gas (Z.of_nat fuel);
  tf_nonce : 0 <= AccountNonce (data tx) < 2 ^ 64;
  tf_l1 : is_Some (TxMeta.L1BlockNumber (meta tx));
}.

Lemma fork_ordered config n : CheckConfigForkOrder config = Ok tt → ordered (Config.Rules config n).
Proof.
  intros H. apply CheckConfigForkOrder_sorted in H. unfold fork_order in H.
  repeat match goal with K : StronglySorted _ (_ :: _) |- _ => apply StronglySorted_inv in K as [K ?] end.
  repeat match goal with K : Forall _ (_ :: _) |- _ => apply Forall_cons in K as [? K] end.
  unfold before in *. cbn [snd] in *. split; cbn; unfold Config.IsBerlin, Config.IsIstanbul, Config.IsEIP150, Config.IsByzantium, Config.IsEIP158; auto.
Qed.

Section Senders.
  Context (Keccak256 : list byte → list byte) (Ecrecover : list byte → list byte → outcome (list byte)).
  Context (keccak_length : ∀ d, length (Keccak256 d) = 32%nat).

Lemma recoverPlain_length h R S V homestead a : recoverPlain Keccak256 Ecrecover h R S V homestead = Ok a → length a = 20%nat.
Proof.
  unfold recoverPlain. destruct (8 <? _); [done |]. cbv zeta. destruct (negb _); [done |]. intros E. apply outcome_bind_Ok in E as (pub & _ & E).
  unfold pubkey_address in E. destruct pub as [| c key]; [done |]. destruct (b2z c =? 4); [| done]. injection E as <-.
  by rewrite length_drop, keccak_length.
Qed.

Lemma Sender_length signer tx a : (∀ sg b, tx_from tx = Some (sg, b) → length b = 20%nat) →
  (Sender Keccak256 Ecrecover signer tx).1 = Ok a → length a = 20%nat.
Proof.
  intros Hc. unfold Sender. assert (Hd : ∀ b, signer_Sender Keccak256 Ecrecover signer tx = Ok b → length b = 20%nat).
  { intros b. unfold signer_Sender. destruct signer; repeat case_match; try done; apply recoverPlain_length. }
  destruct (tx_from tx) as [[sg b] |]; [destruct (signer_Equal sg signer); [intros [= <-]; by eapply Hc |] |];
    destruct (signer_Sender _ _ _ _); try done; intros [= <-]; by apply Hd.
Qed.

(** The message of a transaction. *)
Lemma AsMessage_ok fuel signer tx msg : tx_fit fuel tx → (AsMessage Keccak256 Ecrecover true signer tx).1 = Ok msg →
  message_fit msg ∧ msg_gasLimit msg < Z.of_nat fuel ∧ msg_to msg = Recipient (data tx) ∧
  (AsMessage_from Keccak256 Ecrecover true signer tx).1 = Ok (msg_from msg).
Proof.
  intros [H1 H2 H3 H4 H5 H6 H7 H8 _]. unfold AsMessage. destruct (AsMessage_from _ _ _ _ _) as [[from | |] t'] eqn:E; [| done..].
  intros [= <-]. cbn. split; [| split; [lia | done]]. split; [| done | done | done]. split; cbn; try done; [| intros a Ha; rewrite (H3 a Ha); lia | lia].
  assert (length from = 20%nat) as ->; [| lia]. unfold AsMessage_from in E. destruct (L1MessageSender (meta tx)) as [a |].
  - destruct (_ =? QueueOriginL1ToL2); [injection E as <- _; by apply H1 |]. apply (f_equal fst) in E. by eapply Sender_length.
  - apply (f_equal fst) in E. by eapply Sender_length.
Qed.

End Senders.

(** What is kept of a receipt when it is stored. *)
Definition underived (r : Receipt) : Receipt :=
  {| PostState := PostState r; Status := Status r; CumulativeGasUsed := CumulativeGasUsed r; rc_Bloom := rc_Bloom r;
     Logs := map bare_log (Logs r); rc_TxHash := 0; ContractAddress := replicate 20 Byte.x00; rc_GasUsed := 0; rc_BlockHash := 0;
     rc_BlockNumber := None; TransactionIndex := 0; L1GasPrice := L1GasPrice r; L1GasUsed := L1GasUsed r; L1Fee := L1Fee r;
     FeeScalar := FeeScalar r; DAGasPrice := DAGasPrice r; DAGasUsed := DAGasUsed r; DAFee := DAFee r |}.

(** A contract is not created by a message of L1. *)
Definition own_creation (tx : Transaction) : Prop :=
  Recipient (data tx) = None → L1MessageSender (meta tx) = None ∨ QueueOrigin (meta tx) ≠ QueueOriginL1ToL2.

Lemma derive_bare_logs th bh ti n ls : derive_logs th bh ti n (map bare_log ls) = derive_logs th bh ti n ls.
Proof. unfold derive_logs. by rewrite imap_fmap. Qed.

Section Blocks.
  Context (Keccak256 : list byte → list byte) (ContractCode : list byte → list byte).
  Context (Ecrecover : list byte → list byte → outcome (list byte)) (uint64_out_of_range : Z → Z).
  Context (precompiles : Rules → gmap address PrecompiledContract) (L2GasRewardCode L2GasPriceOracleCode : list byte).
  Context (DAORefundContract : address) (DAODrainList : list address).
  Context (GetHeader : list byte → Z → option Header) (stateRoot : StateDB → list byte).
  Context (config : ChainConfig) (cfg : vmConfig) (fuel : nat).

Abbreviation ready := (ready Keccak256 ContractCode).
Abbreviation state_ok := (state_ok Keccak256 ContractCode).
Abbreviation tx_Hash := (tx_Hash Keccak256).
Abbreviation ApplyTransaction := (ApplyTransaction Keccak256 ContractCode Ecrecover uint64_out_of_range precompiles L2GasRewardCode
  L2GasPriceOracleCode GetHeader stateRoot config cfg fuel).
Abbreviation process_txs := (process_txs Keccak256 ContractCode Ecrecover uint64_out_of_range precompiles L2GasRewardCode
  L2GasPriceOracleCode GetHeader stateRoot config cfg fuel).
Abbreviation Process := (Process Keccak256 ContractCode Ecrecover uint64_out_of_range precompiles L2GasRewardCode
  L2GasPriceOracleCode DAORefundContract DAODrainList GetHeader stateRoot config cfg fuel).
Abbreviation sender tx number := (AsMessage_from Keccak256 Ecrecover true (block_signer config number) tx).1.

(** What the node relies on: the lengths of hashes, precompiled contracts that do not fail, a configuration that
    passes the check of its forks. *)
Record node_ok : Prop := {
  no_keccak : ∀ d, length (Keccak256 d) = 32%nat;
  no_precompiles : ∀ rules, SafePrecompiles (precompiles rules);
  no_reward : small L2GasRewardCode;
  no_oracle : small L2GasPriceOracleCode;
  no_headers : ∀ h n hd, GetHeader h n = Some hd → length (h_ParentHash hd) = 32%nat;
  no_chain : word (ChainConfig.ChainID config);
  no_order : CheckConfigForkOrder config = Ok tt;
}.

Lemma ancestor_hash_length n h : ∀ f, (∀ hd, h = Some hd → length (h_ParentHash hd) = 32%nat) → node_ok →
  length (ancestor_hash GetHeader f n h) = 32%nat.
Proof.
  intros f. revert h. induction f as [| f IH]; intros h Hh Hn; cbn [ancestor_hash]; [apply length_replicate |].
  destruct h as [hd |]; [| apply length_replicate]. destruct (n =? _); [by apply Hh |]. apply IH; [| done]. intros hd' E. by eapply no_headers.
Qed.

Lemma block_setting msg h : node_ok → length (h_ParentHash h) = 32%nat → message_fit msg →
  Setting Keccak256 (Config.Rules config (h_Number h)) (NewEVMContext GetHeader config cfg msg h) (precompiles (Config.Rules config (h_Number h))).
Proof.
  intros Hn Hp [Hm _ Hw _]. split; [split | |].
  - apply Hn.
  - intros n. cbn [GetHash NewEVMContext]. unfold GetHashFn. rewrite ancestor_hash_length; [lia | by intros hd [= <-] | done].
  - apply Hm.
  - cbn [Coinbase NewEVMContext]. unfold BvmFeeWallet. rewrite length_be. lia.
  - done.
  - apply Hn.
  - by apply fork_ordered, Hn.
  - by apply Hn.
Qed.

(** A transaction that was applied, from the execution [x] to [x'] with the receipt [r]. *)
Record applied (h : Header) (tx : Transaction) (x : Execution) (r : Receipt) (x' : Execution) : Prop := {
  ap_ready : ready (ex_state x');
  ap_logged : logged (ex_state x) (ex_state x');
  ap_gas : 0 <= rc_GasUsed r <= ex_gp x;
  ap_gp : ex_gp x' = ex_gp x - rc_GasUsed r;
  ap_used : ex_usedGas x' = u64 (ex_usedGas x + rc_GasUsed r);
  ap_cumulative : CumulativeGasUsed r = ex_usedGas x';
  ap_logs : Logs r = GetLogs (tx_Hash tx) (ex_state x');
  ap_txHash : rc_TxHash r = tx_Hash tx;
  ap_blockHash : rc_BlockHash r = bhash (ex_state x);
  ap_blockNumber : rc_BlockNumber r = Some (h_Number h);
  ap_index : TransactionIndex r = txIndex (ex_state x);
  ap_bloom : CreateBloom Keccak256 [r] = Ok (rc_Bloom r);
  ap_contract : match Recipient (data tx) with
                | None => ∃ from, sender tx (h_Number h) = Ok from ∧
                                  ContractAddress r = CreateAddress Keccak256 from (AccountNonce (data tx))
                | Some _ => ContractAddress r = replicate 20 Byte.x00
                end;
}.

Lemma make_receipt_spec h tx msg root failed gas l1 da x r :
  make_receipt Keccak256 h tx msg root failed gas l1 da x = Ok r →
  rc_GasUsed r = gas ∧ CumulativeGasUsed r = ex_usedGas x ∧ Logs r = GetLogs (tx_Hash tx) (ex_state x) ∧ rc_TxHash r = tx_Hash tx ∧
  rc_BlockHash r = bhash (ex_state x) ∧ rc_BlockNumber r = Some (h_Number h) ∧ TransactionIndex r = txIndex (ex_state x) ∧
  CreateBloom Keccak256 [r] = Ok (rc_Bloom r) ∧
  ContractAddress r = match msg_to msg with
                      | None => CreateAddress Keccak256 (msg_from msg) (AccountNonce (data tx))
                      | Some _ => replicate 20 Byte.x00
                      end.
Proof.
  unfold make_receipt. destruct l1 as [[[l1Fee l1Price] l1Used] scalar]. cbv zeta. intros E.
  apply outcome_bind_Ok in E as (bloom & Hb & [= <-]). cbn [rc_GasUsed CumulativeGasUsed Logs rc_TxHash rc_BlockHash rc_BlockNumber TransactionIndex rc_Bloom ContractAddress].
  repeat (split; [done |]). done.
Qed.

Lemma finish_state_spec h x root x' : state_ok (ex_state x) →
  finish_state Keccak256 stateRoot config h x = (Ok root, x') →
  ready (ex_state x') ∧ same_logs (ex_state x) (ex_state x') ∧ ex_gp x' = ex_gp x ∧ ex_usedGas x' = ex_usedGas x ∧ ex_db x' = ex_db x.
Proof.
  intros Hs. unfold finish_state, IntermediateRoot. destruct (Config.IsByzantium _ _); intros [= _ <-]; cbn;
    (split; [by apply Finalise_ready |]; split; [apply Finalise_fields | done]).
Qed.

(** The steps of a transaction that was applied. *)
Record applying (h : Header) (tx : Transaction) (x : Execution) (r : Receipt) (x' : Execution) (msg : Message) (s1 : StateDB)
    (gas : Z) (t : option StateTransition) (x3 : Execution) : Prop := {
  ag_message : (AsMessage Keccak256 Ecrecover true (block_signer config (h_Number h)) tx).1 = Ok msg;
  ag_upgrade : ∃ db1, CheckUpgrade Keccak256 ContractCode L2GasRewardCode L2GasPriceOracleCode (ChainConfig.ChainID config)
    (Some (h_Number h)) (TxMeta.L1BlockNumber (meta tx)) (ex_state x, ex_db x) = (s1, db1);
  ag_run : ∃ ret failed, let ctx := NewEVMContext GetHeader config cfg msg h in let rules := Config.Rules config (h_Number h) in
    ApplyMessage Keccak256 ContractCode uint64_out_of_range (EvmInterpreter.run Keccak256 ContractCode rules ctx (precompiles rules) fuel) rules
      (precompiled (precompiles rules)) (NoRecursion ctx) (Coinbase ctx) msg (ex_gp x) s1 = (Ok (ret, gas, failed), t);
  ag_finish : ∃ root x2, finish_state Keccak256 stateRoot config h x2 = (Ok root, x3) ∧ ex_usedGas x2 = ex_usedGas x ∧
    ∀ t', t = Some t' → ex_state x2 = st_state t' ∧ ex_gp x2 = st_gp t';
  ag_end : x' = ex_set_usedGas (u64 (ex_usedGas x3 + gas)) x3;
  ag_receipt : ∃ root failed l1 da, DeriveL1GasInfo uint64_out_of_range msg (oracle_slots s1) = Ok l1 ∧
    da_info msg (ex_state x3) = Ok da ∧ make_receipt Keccak256 h tx msg root failed gas l1 da x' = Ok r;
}.

Lemma ApplyTransaction_steps h tx x r x' :
  ApplyTransaction h tx x = (Ok r, x') → ∃ msg s1 gas t x3, applying h tx x r x' msg s1 gas t x3.
Proof.
  intros E. unfold BlockProcess.ApplyTransaction in E. apply st_bind_Ok in E as (msg & x0 & Em & E). injection Em as Em <-.
  apply st_bind_Ok in E as (x0 & x0' & [= <- <-] & E). destruct (CheckUpgrade _ _ _ _ _ _ _ _) as [s1 db1] eqn:Eu.
  apply st_bind_Ok in E as ([] & x1 & [= <-] & E). apply st_bind_Ok in E as (l1 & x1' & El & E). injection El as El <-.
  apply st_bind_Ok in E as ([[ret gas] failed] & x2 & Ea & E). unfold apply_message in Ea. cbn [ex_gp ex_state ex_set_db ex_set_state] in Ea.
  destruct (StateTransition.ApplyMessage _ _ _ _ _ _ _ _ _ _ _) as [res t] eqn:Et. injection Ea as -> Ex2.
  apply st_bind_Ok in E as (root & x3 & Ef & E). apply st_bind_Ok in E as ([] & x4 & [= Ex4] & E).
  apply st_bind_Ok in E as (x5 & x5' & [= <- <-] & E). apply st_bind_Ok in E as (da & x5' & Ed & E). injection Ed as Ed <-. injection E as E <-.
  exists msg, s1, gas, t, x3. split; [done | by eexists | by eexists _, _ | | by subst x4 | by subst x4; eexists _, _, _, _].
  exists root, x2. split; [done |]. subst x2. split; [by destruct t |]. by intros t' ->.
Qed.

Lemma ApplyTransaction_applied h tx x r x' :
  node_ok → length (h_ParentHash h) = 32%nat → tx_fit fuel tx → state_ok (ex_state x) →
  thash (ex_state x) = tx_Hash tx → logs (ex_state x) !! tx_Hash tx = None →
  ApplyTransaction h tx x = (Ok r, x') → applied h tx x r x'.
Proof.
  intros Hn Hp Htx Hs Hth Hlg E.
  apply ApplyTransaction_steps in E as (msg & s1 & gas & t & x3 & [Em [db1 Eu] (ret & failed & Et) (root & x2 & Ef & Hu2 & H2) -> (root' & failed' & l1 & da & _ & _ & E)]).
  destruct (AsMessage_ok Keccak256 Ecrecover (no_keccak Hn) fuel _ tx msg Htx Em) as (Hm & Hg & Hto & Hfrom).
  apply CheckUpgrade_effects in Eu; [| apply Hn | apply Hn].
  pose proof (block_setting msg h Hn Hp Hm) as Hset. pose proof (setting_environment Keccak256 _ _ _) as Henv.
  assert (Hs1 : state_ok s1) by by eapply effects_state_ok.
  destruct (ApplyMessage_effects _ _ _ _ _ _ _ _ Henv (Z.of_nat fuel) (run_is_safe _ _ _ _ _ fuel) _ _ _ _ _ _ _ _ (mf_ok _ Hm) Hs1 Hg Et)
    as (t' & -> & He & Hgas & Hgp & Hgp'). destruct (H2 t' eq_refl) as [Hs2 Hg2].
  assert (Hall : evm_effects Keccak256 ContractCode false (ex_state x) (st_state t')) by by eapply effects_trans.
  assert (Hok2 : state_ok (st_state t')) by by eapply effects_state_ok.
  pose proof (effects_logged _ _ _ _ Hall (so_sound _ _ _ Hs) ltac:(by rewrite Hth)) as Hlog.
  apply finish_state_spec in Ef as (Hr3 & Hsl & Hgp3 & Hu3 & _); [| by rewrite Hs2]. rewrite Hs2 in Hsl.
  apply make_receipt_spec in E as (G1 & G2 & G3 & G4 & G5 & G6 & G7 & G8 & G9).
  cbn [ex_state ex_gp ex_usedGas ex_set_usedGas] in *.
  assert (Hlog3 : logged (ex_state x) (ex_state x3)) by by eapply logged_same.
  split; cbn [ex_state ex_gp ex_usedGas ex_set_usedGas]; try done; try (rewrite G1); try lia.
  - by rewrite Hu3, Hu2.
  - by rewrite G5, (lg_bhash _ _ Hlog3).
  - by rewrite G7, (lg_txIndex _ _ Hlog3).
  - rewrite <- Hto. destruct (msg_to msg); [done |]. by exists (msg_from msg).
Qed.

(** Fees in a receipt: the L1 fee is the one that the transition charges, and so is the DA fee as long as the
    transaction leaves the oracle's price and switch as they are; the receipt reads them after the execution. *)
Theorem receipt_fees h tx x r x' :
  ApplyTransaction h tx x = (Ok r, x') →
  ∃ msg s1 db1 t, (AsMessage Keccak256 Ecrecover true (block_signer config (h_Number h)) tx).1 = Ok msg ∧
    CheckUpgrade Keccak256 ContractCode L2GasRewardCode L2GasPriceOracleCode (ChainConfig.ChainID config)
      (Some (h_Number h)) (TxMeta.L1BlockNumber (meta tx)) (ex_state x, ex_db x) = (s1, db1) ∧
    NewStateTransition uint64_out_of_range msg (ex_gp x) s1 = Ok t ∧
    (msg_gasPrice msg ≠ 0 → L1Fee r = Some (st_l1Fee t)) ∧
    (msg_gasPrice msg ≠ 0 → oracle_slots (ex_state x') DaSwitchSlot = oracle_slots s1 DaSwitchSlot →
     oracle_slots (ex_state x') DaGasPriceSlot = oracle_slots s1 DaGasPriceSlot →
     DAFee r = if oracle_slots s1 DaSwitchSlot =? 1 then Some (st_daFee t) else None).
Proof.
  intros E. apply ApplyTransaction_steps in E as (msg & s1 & gas & t & x3 & [Em [db1 Eu] (ret & failed & Et) _ -> (root' & failed' & l1 & da & El & Ed & E)]).
  cbv zeta in Et. unfold StateTransition.ApplyMessage in Et. destruct (NewStateTransition _ msg (ex_gp x) s1) as [t0 | |] eqn:En; [| done | done]. clear Et.
  exists msg, s1, db1, t0. split; [done |]. split; [done |]. split; [done |].
  unfold make_receipt in E. destruct l1 as [[[l1Fee l1Price] l1Used] scalar]. cbv zeta in E. apply outcome_bind_Ok in E as (bloom & _ & [= <-]).
  unfold DeriveL1GasInfo in El. apply outcome_bind_Ok in El as (raw & Er & El). destruct (readGPOStorageSlots _) as [[p o] sc] eqn:Eg. injection El as <- _ _ _.
  cbn [L1Fee DAFee ex_state ex_set_usedGas]. unfold NewStateTransition, CalculateL1MsgFee, CalculateDAMsgFee in En. rewrite Er, Eg in En.
  split; intros Hpr; [| intros Hsw Hgp]; rewrite (proj2 (Z.eqb_neq _ _) Hpr) in En; cbn [negb mbind outcome_bind] in En;
    destruct (oracle_slots s1 DaSwitchSlot =? 1) eqn:Es; injection En as <-; cbn [st_l1Fee st_daFee]; try done.
  - unfold da_info, DeriveDAGasInfo in Ed. rewrite Hsw, Es, Er in Ed. injection Ed as <-. cbn. by rewrite Hgp.
  - unfold da_info in Ed. rewrite Hsw, Es in Ed. by injection Ed as <-.
Qed.

Lemma derive_applied h tx x r x' prev :
  applied h tx x r x' → own_creation tx → thash (ex_state x) = tx_Hash tx → default 0 prev = ex_usedGas x →
  0 <= ex_usedGas x → ex_usedGas x + ex_gp x < 2 ^ 64 →
  derive_receipt Keccak256 Ecrecover (block_signer config (h_Number h)) (bhash (ex_state x)) (h_Number h) (txIndex (ex_state x))
    (logSize (ex_state x)) prev (underived r) tx = Ok r.
Proof.
  intros [H1 H2 H3 H4 H5 H6 H7 H8 H9 H10 H11 _ H13] Hown Hth Hprev H0 Hsum. unfold derive_receipt.
  assert (Ec : (match Recipient (data tx) with
                | None => created_address Keccak256 Ecrecover (block_signer config (h_Number h)) tx
                | Some _ => mret (ContractAddress (underived r)) end : outcome address) = Ok (ContractAddress r)).
  { destruct (Recipient (data tx)) as [a |] eqn:Er; [by rewrite H13 |]. destruct H13 as (from & Hf & ->). unfold created_address.
    assert ((Sender Keccak256 Ecrecover (block_signer config (h_Number h)) tx).1 = Ok from) as ->; [| done]. rewrite <- Hf. unfold AsMessage_from.
    destruct (L1MessageSender (meta tx)) as [a |] eqn:El; [| done]. destruct (Hown Er) as [? | Hq]; [congruence |].
    by destruct (Z.eqb_spec (QueueOrigin (meta tx)) QueueOriginL1ToL2). }
  rewrite Ec. cbn [underived Logs CumulativeGasUsed PostState Status rc_Bloom L1GasPrice L1GasUsed L1Fee FeeScalar DAGasPrice DAGasUsed DAFee].
  unfold mbind, outcome_bind, mret, outcome_ret. f_equal.
  assert (El : derive_logs (tx_Hash tx) (bhash (ex_state x)) (txIndex (ex_state x)) (logSize (ex_state x)) (map bare_log (Logs r)) = Logs r).
  { rewrite derive_bare_logs, H7, <- Hth. apply H2. }
  assert (Eg : match prev with None => CumulativeGasUsed r | Some c => u64 (CumulativeGasUsed r - c) end = rc_GasUsed r).
  { rewrite H6, H5. destruct prev as [c |]; cbn in Hprev; subst; rewrite (wrap_small 64) by (rewrite ?(wrap_small 64) by lia; lia);
      rewrite ?(wrap_small 64) by lia; lia. }
  rewrite El, Eg, <- H8, <- H9, <- H10, <- H11. by destruct r.
Qed.

(** The sum of the gas of receipts. *)
Definition gas_of (rs : list Receipt) : Z := foldr (λ r g, rc_GasUsed r + g) 0 rs.

(** What the loop over the transactions is started with. *)
Record startable (x : Execution) (txs : list Transaction) : Prop := {
  sb_ready : ready (ex_state x);
  sb_fresh : ∀ tx, tx ∈ txs → logs (ex_state x) !! tx_Hash tx = None;
  sb_gp : 0 <= ex_gp x;
  sb_used : 0 <= ex_usedGas x;
  sb_sum : ex_usedGas x + ex_gp x < 2 ^ 64;
}.

(** What it ends with. *)
Record executed (h : Header) (x : Execution) (rs : list Receipt) (x' : Execution) : Prop := {
  xd_ready : ready (ex_state x');
  xd_gp : 0 <= ex_gp x';
  xd_sum : ex_usedGas x' + ex_gp x' = ex_usedGas x + ex_gp x;
  xd_gas : ex_usedGas x <= ex_usedGas x' ∧ ex_usedGas x' = ex_usedGas x + gas_of rs;
  xd_size : logSize (ex_state x') = logSize (ex_state x) + len (concat (map Logs rs));
  xd_blooms : Forall (λ r, CreateBloom Keccak256 [r] = Ok (rc_Bloom r)) rs;
}.

Lemma startable_next h bh i tx txs x r x1 :
  startable x (tx :: txs) → NoDup (map tx_Hash (tx :: txs)) →
  applied h tx (ex_set_state (Prepare (tx_Hash tx) bh i (ex_state x)) x) r x1 →
  startable x1 txs ∧ ex_usedGas x1 = ex_usedGas x + rc_GasUsed r ∧ ex_gp x1 = ex_gp x - rc_GasUsed r ∧
  logSize (ex_state x1) = logSize (ex_state x) + len (Logs r).
Proof.
  intros [H1 H2 H3 H4 H5] Hnd [A1 A2 A3 A4 A5 A6 A7 _ _ _ _ _ _]. cbn [ex_state ex_gp ex_usedGas ex_set_state] in *.
  assert (Hu : ex_usedGas x1 = ex_usedGas x + rc_GasUsed r) by (rewrite A5; apply wrap_small; lia).
  apply NoDup_cons in Hnd as [Hnin _]. destruct A2 as [_ _ _ L4 L5 _]. cbn [thash logs logSize Prepare] in *.
  split; [| split; [done |]; split; [lia | by rewrite A7]].
  split; [done | | lia | lia | lia]. intros tx' Htx'. rewrite L4; [apply H2; by right |]. intros E. apply Hnin. rewrite <- E. by apply list_elem_of_fmap_2.
Qed.

Lemma process_txs_executed h bh txs : ∀ i x rs x' prev,
  node_ok → length (h_ParentHash h) = 32%nat → Forall (tx_fit fuel) txs → NoDup (map tx_Hash txs) → startable x txs →
  default 0 prev = ex_usedGas x → process_txs h bh i txs x = (Ok rs, x') →
  executed h x rs x' ∧ length txs = length rs ∧
  (Forall own_creation txs →
   derive_receipts Keccak256 Ecrecover (block_signer config (h_Number h)) bh (h_Number h) i (logSize (ex_state x)) prev (map underived rs) txs = Ok rs).
Proof.
  induction txs as [| tx txs IH]; intros i x rs x' prev Hn Hp Hfit Hnd Hst Hprev E; cbn [BlockProcess.process_txs] in E.
  - injection E as <- <-. destruct Hst. split; [split; try done; unfold len; cbn; try split; lia | done].
  - apply st_bind_Ok in E as ([] & x0 & [= <-] & E). apply st_bind_Ok in E as (r & x1 & Ea & E).
    apply st_bind_Ok in E as (rs1 & x2 & Er & E). injection E as <- <-. inversion Hfit as [| ? ? Hf1 Hf2]; subst.
    pose proof (Prepare_ok Keccak256 ContractCode (tx_Hash tx) bh i (ex_state x) (sb_ready _ _ Hst)) as Hs.
    apply ApplyTransaction_applied in Ea; [| done | done | done | done | done | apply (sb_fresh _ _ Hst); by left].
    destruct (startable_next _ _ _ _ _ _ _ _ Hst Hnd Ea) as (Hst1 & Hu & Hg & Hl).
    apply NoDup_cons in Hnd as [_ Hnd]. destruct (IH _ _ _ _ (Some (CumulativeGasUsed r)) Hn Hp Hf2 Hnd Hst1 (ap_cumulative _ _ _ _ _ Ea) Er) as ([X1 X2 X3 X4 X5 X6] & Hlen & Hd).
    split; [| split; [cbn; lia |]].
    + split; [done | done | lia | change (gas_of (r :: rs1)) with (rc_GasUsed r + gas_of rs1); pose proof (ap_gas _ _ _ _ _ Ea); lia | | constructor; [apply Ea | done]]. cbn [map concat]. rewrite len_app. lia.
    + intros Hown. inversion Hown as [| ? ? Ho1 Ho2]; subst. cbn [map derive_receipts].
      pose proof (derive_applied _ _ _ _ _ prev Ea Ho1 eq_refl Hprev (sb_used _ _ Hst) (sb_sum _ _ Hst)) as Hone. cbn [ex_state ex_set_state bhash txIndex logSize Prepare] in Hone.
      rewrite Hone. specialize (Hd Ho2). rewrite Hl in Hd. cbn [underived Logs CumulativeGasUsed].
      replace (len (map bare_log (Logs r))) with (len (Logs r)) by (unfold len; by rewrite length_map). by rewrite Hd.
Qed.

(** ** The receipts of a block *)

Lemma ready_ok s : ready s → state_ok s.
Proof. intros [Hw Hv Hwd Hr]. split; [| done | done]. eexists. by apply refines_start. Qed.

(** The state that a block is executed on: no transaction has logged in it. *)
Record fresh_state (s : StateDB) : Prop := {
  fs_ready : ready s;
  fs_logs : logs s = ∅;
  fs_size : logSize s = 0;
}.

Record block_ok (b : Block) : Prop := {
  bo_parent : length (h_ParentHash (header b)) = 32%nat;
  bo_limit : 0 <= h_GasLimit (header b) < 2 ^ 64;
  bo_txs : Forall (tx_fit fuel) (transactions b);
  bo_distinct : NoDup (map tx_Hash (transactions b));
}.

Definition started_block (b : Block) (s : StateDB) (db : database) : Execution :=
  {| ex_gp := h_GasLimit (header b); ex_state := s; ex_usedGas := 0; ex_db := db |}.

Lemma started_startable b s db : fresh_state s → block_ok b → startable (started_block b s db) (transactions b).
Proof.
  intros [H1 H2 H3] [_ Hl _ _]. split; cbn; [done | | lia | lia | lia]. intros tx _. rewrite H2. apply lookup_empty.
Qed.

Lemma Process_Ok b s db rs ls used x' :
  DAOForkSupport config = false → 0 <= h_GasLimit (header b) < 2 ^ 64 → Process b s db = (Ok (rs, ls, used), x') →
  ∃ x, process_txs (header b) (be_val (header_Hash Keccak256 (header b))) 0 (transactions b) (started_block b s db) = (Ok rs, x) ∧
    ls = concat (map Logs rs) ∧ used = ex_usedGas x ∧
    x' = ex_set_state (Finalise Keccak256 (Config.IsEIP158 config (h_Number (header b))) (ex_state x)) x.
Proof.
  intros Hdao Hl. unfold BlockProcess.Process, AddGas. cbv zeta. unfold max_uint64. destruct (Z.ltb_spec (2 ^ 64 - 1 - h_GasLimit (header b)) 0); [lia |].
  rewrite Hdao. cbn [andb]. intros E. apply st_bind_Ok in E as ([] & x0 & [= <-] & E). apply st_bind_Ok in E as (rs0 & x & Ep & E).
  apply st_bind_Ok in E as ([] & x1 & [= <-] & E). apply st_bind_Ok in E as (x2 & x2' & [= <- <-] & E). injection E as <- <- <- <-.
  exists x. done.
Qed.

(** C17: Gas of a block that Process executes: the gas used is the sum over the receipts of all
    transactions and at most the limit of the header, the gas pool has what is left, so that no
    addition overflows; and the state at the end is well-formed and has counted every log. *)
Theorem Process_gas b s db rs ls used x' :
  node_ok → block_ok b → fresh_state s → DAOForkSupport config = false → Process b s db = (Ok (rs, ls, used), x') →
  length rs = length (transactions b) ∧ used = gas_of rs ∧ 0 <= used <= h_GasLimit (header b) ∧
  ex_gp x' = h_GasLimit (header b) - used ∧ ready (ex_state x') ∧ logSize (ex_state x') = len ls.
Proof.
  intros Hn Hb Hs Hd E. apply Process_Ok in E as (x & Ep & -> & -> & ->); [| done | apply Hb].
  destruct (process_txs_executed _ _ _ _ _ _ _ None Hn (bo_parent _ Hb) (bo_txs _ Hb) (bo_distinct _ Hb) (started_startable _ _ _ Hs Hb) eq_refl Ep) as ([X1 X2 X3 X4 X5 _] & Hlen & _).
  cbn [ex_usedGas ex_gp ex_state started_block ex_set_state] in *. rewrite (fs_size _ Hs) in X5.
  destruct (Finalise_fields Keccak256 (Config.IsEIP158 config (h_Number (header b))) (ex_state x)) as (Hl & _).
  split; [done |]. split; [lia |]. split; [lia |]. split; [lia |]. split; [by apply Finalise_ready, ready_ok |].
  rewrite (sl_logSize _ _ Hl). lia.
Qed.


(** ** A block never panics *)

Lemma AsMessage_total signer tx m : (∀ h sig m, Ecrecover h sig ≠ Panic m) → (AsMessage Keccak256 Ecrecover true signer tx).1 ≠ Panic m.
Proof.
  intros He. assert (Hr : ∀ h R S V hs, recoverPlain Keccak256 Ecrecover h R S V hs ≠ Panic m).
  { intros h R S V hs. unfold recoverPlain. destruct (8 <? _); [done |]. cbv zeta. destruct (negb _); [done |].
    match goal with |- context [Ecrecover ?a ?b] => pose proof (He a b m); destruct (Ecrecover a b) as [pub | |]; cbn; [| done | done] end.
    destruct pub as [| c key]; [done |]. cbn. by destruct (b2z c =? 4). }
  assert (Hs : (Sender Keccak256 Ecrecover signer tx).1 ≠ Panic m).
  { unfold Sender. assert (signer_Sender Keccak256 Ecrecover signer tx ≠ Panic m) by (unfold signer_Sender; destruct signer; repeat case_match; done || apply Hr).
    destruct (tx_from tx) as [[sg a] |]; [destruct (signer_Equal sg signer); [done |] |]; by destruct (signer_Sender _ _ _ _). }
  unfold AsMessage, AsMessage_from. destruct (L1MessageSender (meta tx)); [destruct (_ =? _); [done |] |];
    revert Hs; destruct (Sender _ _ _ _) as [[] t']; cbn; congruence.
Qed.

Lemma apply_message_panic h msg x :
  node_ok → length (h_ParentHash h) = 32%nat → message_fit msg → msg_gasLimit msg < Z.of_nat fuel → state_ok (ex_state x) → ex_gp x < 2 ^ 64 →
  wp (apply_message Keccak256 ContractCode uint64_out_of_range precompiles GetHeader config cfg fuel h msg)
    (λ r _, match r with Panic m => m = refund_panic | _ => True end) x.
Proof.
  intros Hn Hp Hm Hg Hs Hgp. pose proof (block_setting msg h Hn Hp Hm) as Hset. unfold wp, apply_message. cbv zeta.
  destruct (NewStateTransition_total uint64_out_of_range msg (ex_gp x) (ex_state x) Hm) as [t Et].
  destruct (NewStateTransition_Ok _ _ _ _ _ Et) as (Egp & Emsg & Egas & Est). unfold StateTransition.ApplyMessage. rewrite Et.
  pose proof (total_of_run Keccak256 ContractCode _ _ _ (precompiled (precompiles (Config.Rules config (h_Number h)))) (cfg_NoRecursion cfg)
    (setting_environment Keccak256 _ _ _) (Z.of_nat fuel) (run_is_safe _ _ _ _ _ fuel) BvmFeeWallet t) as H. rewrite Emsg, Est, Egp in H.
  specialize (H (mf_ok _ Hm) Hs Hg Egas Hgp). unfold wp in H. cbn [NoRecursion Coinbase NewEVMContext].
  destruct (TransitionDb _ _ _ _ _ _ _ t) as [r t']. cbn in *. by destruct r.
Qed.

Lemma da_info_total msg s : message_fit msg → ∃ da, da_info msg s = Ok da.
Proof.
  intros Hm. unfold da_info. destruct (DeriveDAGasInfo_total msg (oracle_slots s) Hm) as [da E].
  destruct (_ =? 1); [rewrite E |]; by eexists.
Qed.

Lemma make_receipt_total h tx msg root failed gas l1 da x :
  ∃ r, make_receipt Keccak256 h tx msg root failed gas l1 da x = Ok r.
Proof.
  unfold make_receipt. destruct l1 as [[[l1Fee l1Price] l1Used] scalar]. cbv zeta.
  match goal with |- context [CreateBloom _ ?l] => destruct (CreateBloom_spec Keccak256 l) as (bl & -> & _) end. by eexists.
Qed.

Lemma ApplyTransaction_panic h tx x m :
  node_ok → (∀ h sig m, Ecrecover h sig ≠ Panic m) → length (h_ParentHash h) = 32%nat → tx_fit fuel tx → state_ok (ex_state x) →
  ex_gp x < 2 ^ 64 → (ApplyTransaction h tx x).1 = Panic m → m = refund_panic.
Proof.
  intros Hn He Hp Htx Hs Hgp. change (wp (ApplyTransaction h tx) (λ r _, r = Panic m → m = refund_panic) x).
  unfold BlockProcess.ApplyTransaction. wp_step. apply wp_lift. destruct (AsMessage _ _ _ _ _).1 as [msg | e | m'] eqn:Em; wp_steps; [| done |].
  2: { by destruct (AsMessage_total (block_signer config (h_Number h)) tx m' He). }
  destruct (AsMessage_ok Keccak256 Ecrecover (no_keccak Hn) fuel _ tx msg Htx Em) as (Hm & Hg & _).
  destruct (CheckUpgrade _ _ _ _ _ _ _ _) as [s1 db1] eqn:Eu. apply CheckUpgrade_effects in Eu; [| apply Hn | apply Hn]. wp_steps.
  pose proof (block_setting msg h Hn Hp Hm) as Hset. pose proof (setting_environment Keccak256 _ _ _) as Henv.
  assert (Hs1 : state_ok s1) by by eapply effects_state_ok.
  destruct (DeriveL1GasInfo_total uint64_out_of_range msg (oracle_slots s1) Hm) as [l1 ->]. wp_steps.
  eapply wp_mono; [by apply apply_message_panic |]. intros [[[ret gas] failed] | e | m'] x1 H1; wp_steps; [| done | by intros [= <-]].
  unfold finish_state at 1, IntermediateRoot. unfold wp at 1.
  destruct (Config.IsByzantium _ _); cbn [fst snd]; wp_steps; match goal with |- context [da_info _ ?s] => destruct (da_info_total msg s Hm) as [da ->] end;
    wp_steps; by match goal with |- context [make_receipt _ ?h ?t ?m ?r ?f ?g ?l ?d ?x] => destruct (make_receipt_total h t m r f g l d x) as [rc ->] end.
Qed.

Lemma process_txs_panic h bh txs m : ∀ i x,
  node_ok → (∀ h sig m, Ecrecover h sig ≠ Panic m) → length (h_ParentHash h) = 32%nat → Forall (tx_fit fuel) txs → NoDup (map tx_Hash txs) →
  startable x txs → (process_txs h bh i txs x).1 = Panic m → m = refund_panic.
Proof.
  induction txs as [| tx txs IH]; intros i x Hn He Hp Hfit Hnd Hst E; [done |]. cbn [BlockProcess.process_txs] in E.
  inversion Hfit as [| ? ? Hf1 Hf2]; subst. unfold mbind, st_bind, st_modify in E.
  pose proof (Prepare_ok Keccak256 ContractCode (tx_Hash tx) bh i (ex_state x) (sb_ready _ _ Hst)) as Hs.
  set (x0 := ex_set_state _ x) in E. destruct (ApplyTransaction h tx x0) as [r x1] eqn:Ea. destruct r as [r | e | m']; cbn in E; [| done |].
  - pose proof Ea as Happ. apply ApplyTransaction_applied in Happ; [| done | done | done | done | done | apply (sb_fresh _ _ Hst); by left].
    destruct (startable_next _ _ _ _ _ _ _ _ Hst Hnd Happ) as (Hst1 & _). apply NoDup_cons in Hnd as [_ Hnd].
    apply (IH (i + 1) x1 Hn He Hp Hf2 Hnd Hst1). revert E. by destruct (process_txs h bh (i + 1) txs x1) as [[] x2].
  - injection E as ->. eapply (ApplyTransaction_panic h tx x0); try done; [destruct Hst; cbn; lia |]. by rewrite Ea.
Qed.

(** A block of well-formed transactions is executed or refused with an error; the only panic is that of the refund
    counter. *)
Theorem Process_total b s db :
  node_ok → (∀ h sig m, Ecrecover h sig ≠ Panic m) → block_ok b → fresh_state s → DAOForkSupport config = false →
  match (Process b s db).1 with Panic m => m = refund_panic | _ => True end.
Proof.
  intros Hn He Hb Hs Hd. pose proof (bo_limit _ Hb) as Hl. unfold BlockProcess.Process, AddGas. cbv zeta. unfold max_uint64.
  destruct (Z.ltb_spec (2 ^ 64 - 1 - h_GasLimit (header b)) 0); [lia |]. rewrite Hd. cbn [andb]. unfold mbind, st_bind, mret, st_ret.
  pose proof (λ m, process_txs_panic (header b) (be_val (header_Hash Keccak256 (header b))) (transactions b) m 0 (started_block b s db) Hn He
    (bo_parent _ Hb) (bo_txs _ Hb) (bo_distinct _ Hb) (started_startable _ _ _ Hs Hb)) as H0. unfold started_block in H0.
  destruct (process_txs _ _ _ _ _) as [[rs | e | m'] x]; cbn in *; [done | done |]. by apply H0.
Qed.

(** A contract that a message of L1 creates: the receipt of the execution has the address that belongs to the sender
    on L1, and the derived one has the address that belongs to the zero address, for the signature gives no sender. *)
Theorem L1_creation_address h tx x r x' a e :
  node_ok → length (h_ParentHash h) = 32%nat → tx_fit fuel tx → state_ok (ex_state x) →
  thash (ex_state x) = tx_Hash tx → logs (ex_state x) !! tx_Hash tx = None → ApplyTransaction h tx x = (Ok r, x') →
  Recipient (data tx) = None → L1MessageSender (meta tx) = Some a → QueueOrigin (meta tx) = QueueOriginL1ToL2 →
  (Sender Keccak256 Ecrecover (block_signer config (h_Number h)) tx).1 = Err e →
  ContractAddress r = CreateAddress Keccak256 a (AccountNonce (data tx)) ∧
  created_address Keccak256 Ecrecover (block_signer config (h_Number h)) tx =
    Ok (CreateAddress Keccak256 (replicate 20 Byte.x00) (AccountNonce (data tx))).
Proof.
  intros Hn Hp Htx Hs Hth Hlg E Hr Ha Hq He. apply ApplyTransaction_applied in E; [| done..]. pose proof (ap_contract _ _ _ _ _ E) as Hc.
  rewrite Hr in Hc. destruct Hc as (from & Hf & ->). unfold AsMessage_from in Hf. rewrite Ha, Hq in Hf. injection Hf as <-.
  split; [done |]. unfold created_address. by rewrite He.
Qed.

End Blocks.

(** ** Blocks that are validated *)

Section Validated.
  Context (Keccak256 : list byte → list byte) (length_Keccak256 : ∀ b, length (Keccak256 b) = HashLength).
  Context (stateRoot : StateDB → list byte) (config : ChainConfig).
  Context (HasBlockAndState HasBlock : list byte → Z → bool) (VerifyUncles : Block → outcome ()).

Abbreviation ValidateBody := (ValidateBody Keccak256 HasBlockAndState HasBlock VerifyUncles).
Abbreviation ValidateState := (ValidateState Keccak256 stateRoot config).

Definition tx_bytes (t : Transaction) : list byte := value_bytes (txdata_value (data t)).

Record encodable (t : Transaction) : Prop := {
  ec_data : txdata_ok (data t) = true;
  ec_size : len (tx_bytes t) < 2 ^ 60;
}.

Lemma tx_GetRlp_bytes t : encodable t → tx_GetRlp t = tx_bytes t.
Proof. intros [H1 H2]. unfold tx_GetRlp. rewrite EncodeRLP_bytes; [done | done | unfold tx_bytes in H2; lia]. Qed.

Lemma map_GetRlp txs : Forall encodable txs → map tx_GetRlp txs = map tx_bytes txs.
Proof. induction 1 as [| t txs Ht _ IH]; [done |]. cbn [map]. by rewrite tx_GetRlp_bytes, IH by done. Qed.

Lemma tx_bytes_inj t1 t2 : encodable t1 → encodable t2 → tx_bytes t1 = tx_bytes t2 → data t1 = data t2.
Proof.
  intros [H1 L1] [H2 L2] E. unfold tx_bytes in *.
  destruct (DecodeBytes_codec (S (length (tx_bytes t1))) (decode (S (length (tx_bytes t1))) txdata_ty) value_bytes (has_type txdata_ty) (tx_bytes t1)) as [_ Hd];
    [by apply decode_codec | unfold tx_bytes; lia | lia |].
  pose proof (proj2 (Hd _) (conj (txdata_has_type _ H1) eq_refl)) as D1. pose proof (proj2 (Hd _) (conj (txdata_has_type _ H2) E)) as D2.
  rewrite D1 in D2. assert (txdata_value (data t1) = txdata_value (data t2)) as D3 by congruence. clear D1 D2. rename D3 into D2.
  pose proof (txdata_of_value_value (data t1)) as V1. rewrite D2, txdata_of_value_value in V1. by injection V1.
Qed.

Lemma map_data_inj txs1 : ∀ txs2, Forall encodable txs1 → Forall encodable txs2 → map tx_bytes txs1 = map tx_bytes txs2 → map data txs1 = map data txs2.
Proof.
  induction txs1 as [| t1 txs1 IH]; intros [| t2 txs2] H1 H2 E; try done. inversion H1; inversion H2; subst. injection E as E Es.
  cbn [map]. f_equal; [by apply tx_bytes_inj | by apply IH].
Qed.

Lemma txs_derivable txs : Forall encodable txs → len txs < 2 ^ 64 → derivable (map tx_bytes txs).
Proof.
  intros Hok Hl. split; [unfold len in *; by rewrite length_map |]. intros v Hv. apply list_elem_of_fmap in Hv as (t & -> & Ht).
  rewrite Forall_forall in Hok. destruct (Hok t Ht) as [_ Hs]. split; [| exact Hs]. unfold tx_bytes, txdata_value, rlp_list. cbn [value_bytes].
  unfold rlp_list. intros E. apply app_eq_nil in E as [E _]. unfold Rlp.header in E. by destruct (_ <? 56).
Qed.

Lemma ValidateBody_Ok b : ValidateBody b = Ok tt → txs_DeriveSha Keccak256 (transactions b) = Ok (h_TxHash (header b)).
Proof.
  unfold BlockProcess.ValidateBody. cbv zeta. destruct (HasBlockAndState _ _); [done |]. intros E. apply outcome_bind_Ok in E as ([] & _ & E).
  destruct (bool_decide (CalcUncleHash _ _ ≠ _)); [done |]. apply outcome_bind_Ok in E as (h & -> & E).
  destruct (bool_decide (h ≠ _)) eqn:Eh; [done |]. apply bool_decide_eq_false in Eh. by apply dec_stable in Eh as ->.
Qed.

Lemma ValidateState_Ok b s rs used : ValidateState b s rs used = Ok tt →
  used = h_GasUsed (header b) ∧ CreateBloom Keccak256 rs = Ok (h_Bloom (header b)) ∧
  receipts_DeriveSha Keccak256 rs = Ok (h_ReceiptHash (header b)) ∧
  stateRoot (Finalise Keccak256 (Config.IsEIP158 config (h_Number (header b))) s) = h_Root (header b).
Proof.
  unfold BlockProcess.ValidateState. cbv zeta. destruct (Z.eqb_spec (h_GasUsed (header b)) used) as [<- |]; [| done]. cbn [negb].
  intros E. apply outcome_bind_Ok in E as (bl & -> & E). destruct (bool_decide (bl ≠ _)) eqn:E1; [done |].
  apply bool_decide_eq_false, dec_stable in E1 as ->. apply outcome_bind_Ok in E as (h & -> & E). destruct (bool_decide (h ≠ _)) eqn:E2; [done |].
  apply bool_decide_eq_false, dec_stable in E2 as ->. destruct (bool_decide (h_Root (header b) ≠ _)) eqn:E3; [done |].
  apply bool_decide_eq_false, dec_stable in E3. by rewrite E3.
Qed.

(** C7: A header determines its block: when two blocks with the same header pass ValidateBody and
    ValidateState, each with the receipts and the gas of an execution, their transactions have the
    same data in the same order, the receipts have the same status, gas, filter and logs, and the
    gas is the same; as long as the encodings of the tries have no colliding hashes. *)
Theorem validated_blocks_agree b1 b2 s1 s2 rs1 rs2 used1 used2 (P : list byte → Prop) :
  header b1 = header b2 → collision_free Keccak256 P →
  Forall encodable (transactions b1) → Forall encodable (transactions b2) → len (transactions b1) < 2 ^ 64 → len (transactions b2) < 2 ^ 64 →
  Forall receipt_ok rs1 → Forall receipt_ok rs2 → len rs1 < 2 ^ 64 → len rs2 < 2 ^ 64 →
  (∀ l, l ∈ [map tx_bytes (transactions b1); map tx_bytes (transactions b2); map receipt_bytes rs1; map receipt_bytes rs2] → encoded Keccak256 P (index_map l)) →
  ValidateBody b1 = Ok tt → ValidateBody b2 = Ok tt → ValidateState b1 s1 rs1 used1 = Ok tt → ValidateState b2 s2 rs2 used2 = Ok tt →
  map data (transactions b1) = map data (transactions b2) ∧ map consensus rs1 = map consensus rs2 ∧ used1 = used2.
Proof.
  intros Hh HP T1 T2 LT1 LT2 R1 R2 LR1 LR2 Henc B1 B2 S1 S2. apply ValidateBody_Ok in B1, B2. apply ValidateState_Ok in S1 as (-> & _ & S1 & _), S2 as (-> & _ & S2 & _).
  unfold txs_DeriveSha in B1, B2. rewrite map_GetRlp in B1, B2 by done. unfold receipts_DeriveSha in S1, S2. rewrite mapM_GetRlp in S1, S2 by done.
  cbn [mbind outcome_bind] in S1, S2. rewrite <- Hh in B2, S2. rewrite <- Hh.
  destruct (derived_hashes Keccak256 length_Keccak256 (map tx_bytes (transactions b1)) (map tx_bytes (transactions b2)) P) as (h1 & h2 & D1 & D2 & Ht);
    [by apply txs_derivable.. | done | apply Henc; set_solver | apply Henc; set_solver |].
  destruct (derived_hashes Keccak256 length_Keccak256 (map receipt_bytes rs1) (map receipt_bytes rs2) P) as (h3 & h4 & D3 & D4 & Hr);
    [by apply receipts_derivable.. | done | apply Henc; set_solver | apply Henc; set_solver |].
  split; [apply map_data_inj; [done.. | apply Ht; congruence] |]. split; [apply map_consensus_inj; [done.. | apply Hr; congruence] | done].
Qed.

End Validated.

(** ** The gas limit of the next block *)

(** The limit moves by less than the 1024th part of the parent's and does not fall below the minimum. *)
Theorem CalcGasLimit_bound parent gasFloor gasCeil :
  MinGasLimit <= h_GasLimit parent < 2 ^ 62 → 0 <= h_GasUsed parent <= h_GasLimit parent → MinGasLimit <= gasCeil →
  let limit := CalcGasLimit parent gasFloor gasCeil in
  Z.abs (limit - h_GasLimit parent) < h_GasLimit parent / GasLimitBoundDivisor ∧ MinGasLimit <= limit.
Proof.
  unfold CalcGasLimit, MinGasLimit, GasLimitBoundDivisor. set (L := h_GasLimit parent). set (U := h_GasUsed parent). intros HL HU Hc. cbv zeta.
  assert (Hd : 3906 <= L / 1024 <= L) by (split; [apply Z.div_le_lower_bound; lia | apply Z.div_le_upper_bound; lia]).
  assert (Hh : 0 <= U / 2 /\ 2 * (U / 2) <= U) by (pose proof (Z.div_pos U 2); pose proof (Z.mul_div_le U 2); lia).
  rewrite (wrap_small 64 (U + U / 2)), (wrap_small 64 (L / 1024 - 1)) by lia.
  assert (Hk : 0 <= (U + U / 2) / 1024 /\ 2 * ((U + U / 2) / 1024) <= 3 * (L / 1024) + 3).
  { pose proof (Z.div_pos (U + U / 2) 1024). pose proof (Z.mul_div_le (U + U / 2) 1024). pose proof (Z.mul_succ_div_gt L 1024). lia. }
  set (c := (U + U / 2) / 1024) in *. set (d := L / 1024) in *. clearbody c d.
  rewrite (wrap_small 64 (L - (d - 1))), (wrap_small 64 (L - (d - 1) + c)), (wrap_small 64 (L + (d - 1))) by lia.
  destruct (Z.ltb_spec (L - (d - 1) + c) 4000000); repeat match goal with |- context [?x <? ?y] => destruct (Z.ltb_spec x y) end; lia.
Qed.
