(* ===== verification/BlockExamples.v ===== *)
(** A block of three transactions, on which the theorems about blocks, receipts
    and configurations are applied: a call of a contract that logs, the creation
    of a contract, and the call again. *)

From S2P Require Import Prelude Rlp TrieEncoding TrieNode Trie TrieTree TrieRep TrieOps TrieHash TrieContents TrieTheorems TrieDerive TrieExamples.
From S2P Require Import TxMeta Transaction BigFloat Fees StateDB StateDBFacts StateBalances EvmEffects EvmCommon EvmCalls EvmGas EvmInstructions.
From S2P Require Import EvmJumpTable EvmInterpreter EvmGasFacts EvmSafety EvmRun EvmPrecompiles EvmPrecompilesFacts EvmTheorems StateTransition StateTransitionFacts.
From S2P Require Import SyncServiceExamples StateExamples ChainConfig Upgrades Receipts BlockProcess BlockFacts.

(** ** The chain *)

Definition mantle_config : ChainConfig :=
  let first := Some 0 in
  {| ChainConfig.ChainID := 5000; HomesteadBlock := first; DAOForkBlock := None; DAOForkSupport := false; EIP150Block := first; EIP155Block := first;
     EIP158Block := first; ByzantiumBlock := first; ConstantinopleBlock := first; PetersburgBlock := first; IstanbulBlock := first;
     MuirGlacierBlock := first; BerlinBlock := first; EWASMBlock := None |}.

Definition vm_config : vmConfig := {| cfg_NoRecursion := false; cfg_EnablePreimageRecording := false |}.

(** The contract logs the topic 42. *)
Definition logger : address := replicate 20 Byte.x55.
Definition logger_code : list byte := map z2b [0x60; 0x2a; 0x60; 0x00; 0x60; 0x00; 0xa1; 0x00].
Definition block_code (h : list byte) : list byte := if bool_decide (h = hash_of 7) then logger_code else example_code h.

Definition block_trie : gmap address account :=
  <[logger := {| acc_Nonce := 1; acc_Balance := 0; acc_CodeHash := hash_of 7; acc_storage := ∅ |}]> example_trie.

Definition tx_of (nonce gas : Z) (to : option address) : Transaction :=
  {| data := {| AccountNonce := nonce; Price := 1000; Transaction.GasLimit := gas; Recipient := to; Amount := 0; Payload := [];
                tx_V := 10036; tx_R := 1; tx_S := 1 |};
     meta := NewTransactionMeta (Some 10) 1650000000 None QueueOriginSequencer None None None;
     tx_hash := None; tx_size := None; tx_from := None |}.

Definition block_header : Header :=
  {| h_ParentHash := zero_hash; h_UncleHash := zero_hash; h_Coinbase := replicate 20 Byte.x00; h_Root := zero_hash; h_TxHash := zero_hash;
     h_ReceiptHash := zero_hash; h_Bloom := replicate 256 Byte.x00; h_Difficulty := 2; h_Number := 100; h_GasLimit := 15000000;
     h_GasUsed := 0; h_Time := 1650000000; h_Extra := []; h_MixDigest := zero_hash; h_Nonce := replicate 8 Byte.x00 |}.

Definition example_block : Block :=
  {| header := block_header; uncles := []; transactions := [tx_of 5 50000 (Some logger); tx_of 6 60000 None; tx_of 7 50000 (Some logger)] |}.

Definition block_fuel : nat := Z.to_nat 60001.
Definition block_precompiles : Rules → gmap address PrecompiledContract := precompiles_of toy_Keccak256 toy_Ecrecover toy_ripemd160.
Definition no_header (h : list byte) (n : Z) : option Header := None.
Definition balance_root (s : StateDB) : list byte := be 32 (balance owner s).

Abbreviation example_process :=
  (Process toy_Keccak256 block_code toy_Ecrecover amd64_conversion block_precompiles [] [] receiver [] no_header balance_root
     mantle_config vm_config block_fuel example_block (New block_trie) ∅).

Lemma example_node : node_ok toy_Keccak256 block_precompiles [] [] no_header mantle_config.
Proof.
  split; [apply toy_Keccak256_length | | done | done | done | unfold word; cbn; lia | done].
  intros rules. apply precompiles_safe. apply _.
Qed.

Lemma example_fit nonce gas to : 0 <= nonce < 2 ^ 64 → 0 <= gas <= 60000 → (∀ a, to = Some a → length a = 20%nat) → tx_fit block_fuel (tx_of nonce gas to).
Proof.
  intros Hn Hg Ht. split; [done | done | exact Ht | done | unfold word; cbn; lia | unfold word; cbn; lia | | exact Hn | by eexists].
  unfold block_fuel. rewrite Z2Nat.id by lia. cbn [data tx_of Transaction.GasLimit]. lia.
Qed.

Lemma example_block_ok : block_ok toy_Keccak256 block_fuel example_block.
Proof.
  split; [done | cbn; lia | | apply (bool_decide_unpack _); vm_compute; exact I].
  repeat constructor; apply example_fit; try lia; by intros a [= <-].
Qed.

Lemma example_fresh : fresh_state toy_Keccak256 block_code (New block_trie).
Proof. split; [| done | done]. apply New_ready. apply (bool_decide_unpack _). vm_compute. exact I. Qed.

Lemma example_creations : Forall own_creation (transactions example_block).
Proof. repeat constructor; by left. Qed.

Lemma example_processed :
  match example_process with (Ok (rs, ls, used), _) => length rs = 3%nat ∧ length ls = 2%nat ∧ 0 < used | _ => False end.
Proof. vm_compute. repeat split; reflexivity. Qed.


Lemma Process_gas_witness :
  ∃ rs ls used x', example_process = (Ok (rs, ls, used), x') ∧ used = gas_of rs ∧ 0 < used <= 15000000 ∧ ex_gp x' = 15000000 - used.
Proof.
  pose proof example_processed as H. destruct example_process as [[[[rs ls] used] | |] x'] eqn:E; [| contradiction | contradiction].
  destruct (Process_gas toy_Keccak256 block_code toy_Ecrecover amd64_conversion block_precompiles [] [] receiver [] no_header balance_root
    mantle_config vm_config block_fuel example_block (New block_trie) ∅ rs ls used x' example_node example_block_ok example_fresh eq_refl E) as (_ & G1 & G2 & G3 & _).
  exists rs, ls, used, x'. split; [reflexivity |]. split; [exact G1 |]. split; [split; [apply H | apply G2] | exact G3].
Defined.

(** ** Two blocks with one header *)

Definition logged_receipt : Receipt :=
  {| PostState := []; Status := ReceiptStatusSuccessful; CumulativeGasUsed := 22256; rc_Bloom := replicate BloomByteLength Byte.x00;
     Logs := [{| l_Address := logger; l_Topics := [42]; l_Data := []; l_TxHash := 7; l_BlockHash := 8; l_TxIndex := 0; l_Index := 0 |}];
     rc_TxHash := 7; ContractAddress := replicate 20 Byte.x00; rc_GasUsed := 22256; rc_BlockHash := 8; rc_BlockNumber := Some 100;
     TransactionIndex := 0; L1GasPrice := None; L1GasUsed := None; L1Fee := None; FeeScalar := None; DAGasPrice := None; DAGasUsed := None;
     DAFee := None |}.

Definition bytes_of (r : outcome (list byte)) : list byte := match r with Ok b => b | _ => [] end.

Definition sealed_header : Header :=
  {| h_ParentHash := zero_hash; h_UncleHash := CalcUncleHash toy_Keccak256 []; h_Coinbase := replicate 20 Byte.x00;
     h_Root := balance_root (New block_trie); h_TxHash := bytes_of (txs_DeriveSha toy_Keccak256 [tx_of 5 50000 (Some logger)]);
     h_ReceiptHash := bytes_of (receipts_DeriveSha toy_Keccak256 [logged_receipt]);
     h_Bloom := bytes_of (CreateBloom toy_Keccak256 [logged_receipt]); h_Difficulty := 2; h_Number := 100; h_GasLimit := 15000000;
     h_GasUsed := 22256; h_Time := 1650000000; h_Extra := []; h_MixDigest := zero_hash; h_Nonce := replicate 8 Byte.x00 |}.

(** The second block was read from disk: the sizes of its transactions are not known. *)
Definition sealed_block (size : option Z) : Block :=
  {| header := sealed_header; uncles := [];
     transactions := [{| data := data (tx_of 5 50000 (Some logger)); meta := meta (tx_of 5 50000 (Some logger)); tx_hash := None;
                         tx_size := size; tx_from := None |}] |}.

Definition sealed_lists : list (list (list byte)) :=
  [map tx_bytes (transactions (sealed_block None)); map tx_bytes (transactions (sealed_block (Some 120)));
   map receipt_bytes [logged_receipt]; map receipt_bytes [underived logged_receipt]].
Definition sealed_encodings : list (list byte) := Eval vm_compute in remove_dups (concat (map (λ l, encodings (list_root l)) sealed_lists)).

Lemma sealed_encoded l : l ∈ sealed_lists → encoded toy_Keccak256 (λ b, b ∈ sealed_encodings) (index_map l).
Proof.
  intros Hl. assert (Forall (λ l, len l < 2 ^ 64 ∧ in_memory (list_root l) = true ∧ Forall (λ b, b ∈ sealed_encodings) (encodings (list_root l))) sealed_lists) as H
    by (apply (bool_decide_unpack _); vm_compute; exact I).
  rewrite Forall_forall in H. destruct (H l Hl) as (H1 & H2 & H3).
  destruct (derive_loop_spec toy_Keccak256 length_toy_Keccak256 l 0 nilNode ∅ ltac:(lia) H1 (empty_holds tt)) as (root & Hd & Hh).
  unfold list_root in *. rewrite Hd in *. apply (encoded_loaded tt root); [done | done |]. by apply Forall_forall.
Qed.

Lemma sealed_encodable size : Forall encodable (transactions (sealed_block size)).
Proof. constructor; [split; [vm_compute; reflexivity | vm_compute; reflexivity] | constructor]. Qed.

Lemma logged_receipt_ok : Forall receipt_ok [logged_receipt] ∧ Forall receipt_ok [underived logged_receipt].
Proof.
  split; (constructor; [| constructor]); (split; [left; split; [reflexivity | by right] | cbn; lia | apply length_replicate | | vm_compute; reflexivity]);
    (constructor; [| constructor]); (split; [done |]); (constructor; [unfold word; cbn; lia | constructor]).
Qed.

Abbreviation validate_body := (ValidateBody toy_Keccak256 (λ h n, n =? 99) (λ h n, true) (λ _, Ok tt)).
Abbreviation validate_state := (ValidateState toy_Keccak256 balance_root mantle_config).

Lemma validated_blocks_agree_witness :
  validate_body (sealed_block None) = Ok tt ∧ validate_state (sealed_block None) (New block_trie) [logged_receipt] 22256 = Ok tt ∧
  map consensus [logged_receipt] = map consensus [underived logged_receipt].
Proof.
  assert (B : ∀ size, validate_body (sealed_block size) = Ok tt) by (intros size; vm_compute; reflexivity).
  assert (S1 : validate_state (sealed_block None) (New block_trie) [logged_receipt] 22256 = Ok tt) by (vm_compute; reflexivity).
  assert (S2 : validate_state (sealed_block (Some 120)) (New block_trie) [underived logged_receipt] 22256 = Ok tt) by (vm_compute; reflexivity).
  split; [apply B |]. split; [exact S1 |]. destruct logged_receipt_ok as [R1 R2].
  refine (proj1 (proj2 (validated_blocks_agree toy_Keccak256 length_toy_Keccak256 balance_root mantle_config (λ h n, n =? 99) (λ h n, true) (λ _, Ok tt)
    (sealed_block None) (sealed_block (Some 120)) (New block_trie) (New block_trie) [logged_receipt] [underived logged_receipt] 22256 22256
    (λ b, b ∈ sealed_encodings) eq_refl _ (sealed_encodable _) (sealed_encodable _) eq_refl eq_refl R1 R2 eq_refl eq_refl sealed_encoded (B None) (B (Some 120)) S1 S2))).
  apply hashes_collision_free. vm_compute. reflexivity.
Defined.

(** ** A filter and a configuration *)

Lemma bloom_complete_witness :
  (∃ bl, CreateBloom toy_Keccak256 [logged_receipt] = Ok bl ∧ BloomLookup toy_Keccak256 bl logger = true ∧ BloomLookup toy_Keccak256 bl (be 32 42) = true) ∧
  ∃ b', Bloom_Add toy_Keccak256 1000 (replicate BloomByteLength Byte.x00) = Ok b' ∧ Bloom_Test toy_Keccak256 b' 1000 = true.
Proof.
  destruct (bloom_complete toy_Keccak256 [logged_receipt] (replicate BloomByteLength Byte.x00) 1000 (length_replicate _ _)) as [(bl & H1 & _ & H2) (b' & H3 & _ & H4 & _)].
  split; [exists bl | exists b'; exact (conj H3 H4)]. split; [exact H1 |].
  split; (eapply H2; [by left | by left |]); [by left | by right; left].
Defined.

(** Berlin moved to block 500; the chain is at block 1000. *)
Definition late_berlin : ChainConfig :=
  let first := Some 0 in
  {| ChainConfig.ChainID := 5000; HomesteadBlock := first; DAOForkBlock := None; DAOForkSupport := false; EIP150Block := first; EIP155Block := first;
     EIP158Block := first; ByzantiumBlock := first; ConstantinopleBlock := first; PetersburgBlock := first; IstanbulBlock := first;
     MuirGlacierBlock := first; BerlinBlock := Some 500; EWASMBlock := None |}.

Definition later_berlin : ChainConfig :=
  let first := Some 0 in
  {| ChainConfig.ChainID := 5000; HomesteadBlock := first; DAOForkBlock := None; DAOForkSupport := false; EIP150Block := first; EIP155Block := first;
     EIP158Block := first; ByzantiumBlock := first; ConstantinopleBlock := first; PetersburgBlock := first; IstanbulBlock := first;
     MuirGlacierBlock := first; BerlinBlock := Some 800; EWASMBlock := None |}.

Lemma CheckCompatible_rules_witness :
  ∃ e, CheckCompatible late_berlin later_berlin 1000 = Some (Some e) ∧ RewindTo e = 499 ∧
    ∀ n, n <= 499 → Config.Rules late_berlin n = Config.Rules later_berlin n.
Proof.
  destruct (CheckCompatible_rules late_berlin later_berlin 1000 ltac:(lia) ltac:(split; discriminate)) as (r & E & H).
  assert (E' : CheckCompatible late_berlin later_berlin 1000 =
    Some (Some {| What := "Berlin fork block"; StoredConfig := Some 500; NewConfig := Some 800; RewindTo := 499 |})) by (vm_compute; reflexivity).
  rewrite E' in E. injection E as <-. eexists. split; [exact E' |]. split; [reflexivity |]. intros n Hn.
  destruct H as [_ [H | H]]; [| discriminate H]. exact (proj2 (proj2 H n Hn) (proj1 H eq_refl)).
Defined.
